(* ===== verification/_CoqProject ===== *)
-Q . S2P
Prelude.v
World.v
Cell.v
Instr.v
Settlement.v
RefCodec.v
SettlementFacts.v
Execute.v
CellSpec.v
ExecuteFacts.v
Build.v
BuildSpec.v
Fixture.v
FixtureProps.v
Causal.v
Upgrade.v
Float64.v
Stats.v
Rate.v
Clock.v
Runner.v
RunnerFacts.v
LoadProps.v
Netfault.v
NetfaultFacts.v
Relay.v
NetProps.v
Subscription.v
Updates.v
UpdatesFacts.v
EventFacts.v
UpdatesProps.v
Suite.v
SuiteProps.v
Text.v
Receipt.v
ReceiptProps.v
Report.v
ReportProps.v
Metrics.v
MetricsProps.v
Waiting.v
WaitingProps.v
RawWs.v
Continuous.v
Process.v
Stack.v
TopologyProps.v
Prep.v
PrepProps.v
Rollup.v
RollupProps.v
MixedLoad.v
MixedLoadProps.v
Ephemeral.v
EphemeralProps.v
Restart.v
RestartProps.v
Contention.v
ContentionProps.v
Retention.v
RetentionProps.v
Checkpoint.v
CheckpointProps.v
Cli.v
Rpc.v
TransactionLoad.v
TransactionLoadProps.v
Spl.v
TokenViews.v
TokenViewsProps.v
Context.v
ContextProps.v
Projected.v
ProjectedProps.v
Intents.v
IntentsProps.v
Replication.v
ReplicationProps.v
