(* ===== verification/Prelude.v ===== *)
(** * A verification of redsuite

    redsuite drives live Solana and MagicBlock networks with on-chain fixture programs,
    loads them at a controlled rate, injects network faults between client and chain, and
    checks what the chain reports back.  This library models the parts of it that decide
    something and proves what makes them correct.  A definition keeps the name of the
    function it translates where Rocq allows it; a prefix names the type of a method
    ([CellHeader_write] is [CellHeader::write]).

    ** Parts of the program and the files that model them

    - On-chain programs.  [programs/fixture/src]: cells (accounts with a header and a
      payload), instructions on them, settlements handed to the Magic program and their
      callbacks.  [World.v] has the world they run in: accounts by address, outstanding
      borrows and the log, a state-and-error monad [M], and the class [Runtime] for what
      the Solana runtime and the SDK provide.  [Cell.v] is [state.rs], [Instr.v] is
      [lib.rs], [Settlement.v] is [execute/settlement.rs], [Execute.v] is
      [execute/mod.rs] (with the callback of [settlement.rs]), [Build.v] is [build.rs].
      [CellSpec.v] is an abstract machine on a map from addresses to cells,
      [ExecuteFacts.v], [SettlementFacts.v], [BuildSpec.v] and [Fixture.v] relate the code
      to it, [RefCodec.v] instantiates every class of the programs, and
      [FixtureProps.v] states the properties.  [Upgrade.v] is
      [programs/upgrade/program/src/lib.rs], a second program that calls the first.
      [Causal.v] is [core/src/redline/causal.rs], the client-side model of two cells that
      the scheduler scenarios compare with the chain.
    - Load generation.  [Float64.v] has the few IEEE binary64 operations the statistics
      use.  [Stats.v] is [core/src/stats.rs]; [Rate.v] is
      [transport/rate.rs] (pacing, budgets, admissions per second); [Clock.v] is
      [transport/clock.rs] (when was id sent); [Runner.v] and [RunnerFacts.v] are
      [runner/mod.rs] and [runner/workers.rs]; [LoadProps.v] states the properties.
    - Fault injection.  [Netfault.v] and [NetfaultFacts.v] are [netfault/mod.rs] (rules,
      traps and held operations of a scope); [Relay.v] is [netfault/rpc.rs], [ws.rs] and
      [http.rs]; [NetProps.v] states the properties.
    - Subscriptions.  [Subscription.v] is [transport/socket.rs] and
      [transport/subscription.rs] (frames, router, connection); [Updates.v] is
      [transport/ws.rs] and [transport/events.rs] (account updates, signature
      confirmations, event buffers); [UpdatesFacts.v] and [EventFacts.v] hold the
      lemmas, [UpdatesProps.v] the properties.
    - Suites.  [Suite.v] is [cli/src/suite/mod.rs], [cli/src/catalog.rs] and the records
      of [core/src/scenario.rs] (which scenarios run, when, and what the verdict is);
      [SuiteProps.v] has its lemmas and its property.  [Continuous.v] is
      [cli/src/suite/continuous.rs], rounds of scenarios over one rollup.
    - Observation.  [Text.v] has the string functions of the standard library that the
      parsers use.  [Receipt.v] and [ReceiptProps.v] are [core/src/receipt.rs] (reading,
      verifying and finding the receipt of a commit); [Metrics.v] and [MetricsProps.v] are
      the metrics of [api/mod.rs] and [sampler.rs]; [Waiting.v] and [WaitingProps.v] are
      [wait.rs], [api/wait.rs], the waits of [transport/events.rs] and the blockhash cache of
      [context/transaction.rs]; [RawWs.v] is [transport/wsraw.rs].
    - Reports.  [Report.v] and [ReportProps.v] are [report/mod.rs], [report/store.rs] and
      [report/bmf.rs] (what a campaign stores and what is exported from it).
    - Topology.  [Process.v] is [topology/process.rs], [resources.rs] and [host.rs]
      (stopping, waiting for and reading processes); [Stack.v] is [topology/identity.rs],
      [state.rs], [shared.rs], [status.rs] and the port leases of [process.rs] (what redsuite processes
      share, the ensuring and the teardown of the base as programs of single calls that
      interleave); [Rollup.v] is [topology/config.rs], [private.rs] and [replicated.rs].
      [TopologyProps.v] and [RollupProps.v] state the properties.
    - Preparation.  [Prep.v] and [PrepProps.v] are [random.rs], [system.rs], [prep.rs],
      [redline/mod.rs], [cells.rs] and [signed.rs].  [Context.v] and [ContextProps.v] are
      [context/mod.rs], [context/transaction.rs], the payers and clones of [prep.rs] and the
      delegation of [dlp.rs]: how transactions are signed, sent and confirmed, by senders that
      share a cache and take turns at every request.
    - Scenarios.  [MixedLoad.v] is [redline/src/scenarios/scheduler/mixed_sustained_load]: its
      mix of transactions, the ids of its lanes and workers, and its final-state check.
      [MixedLoadProps.v] is about the ids and the check.
      [Contention.v] is [scheduler_contention] beside it (pairs driven under a competing load),
      [Ephemeral.v] is [redhat/src/scenarios/magicblock/ephemeral_account_security.rs] (an
      oracle of account actions and a search for a serial order that explains a run),
      [Restart.v] is [redshift/src/scenarios/lifecycle/restart_under_load.rs], [Retention.v]
      and [Checkpoint.v] are [storage/ledger_retention_consistency.rs] and
      [storage/checkpoint_recovery.rs] of [redshift].  [TransactionLoad.v] is
      [redline/src/scenarios/aperture/transaction_load.rs] (a load in windows, each checked by the
      last write of every account).  [Spl.v] is [chainlink/spl.rs] of [redshift], the token
      instructions and readers; [TokenViews.v] is [aperture/token_rpc_views.rs] (token accounts
      as the RPC methods show them) and [Projected.v] is [chainlink/projected_token_lifecycle]
      (tokens moved between the chains, and overlays of token accounts).  [Intents.v] is
      [committor/intent_execution_and_accounting.rs] with [programs/fixture/src/magic.rs]
      (settlements with actions, commit limits and refunds) and [Replication.v] is
      [replication/replication_recovery] (writers that go on while followers fail and recover, and
      settlements replayed after a restart).  Each has its properties in the file of the same name
      with [Props].
    - Clients and the command line.  [Rpc.v] is [transport/http.rs],
      [transport/rpc.rs] and the requests of [api/mod.rs] (what an answer or a refusal means);
      [Cli.v] is [cli/src/args.rs], [cli/src/main.rs], [config.rs] and
      [frontend.rs] (the accepted arguments, the environment of a run, the exit code).

    The load generator sends what the builders of [Build.v] make; the programs' effects
    come back through the subscriptions of [Updates.v], whose latencies are read off the
    clocks of [Clock.v] and collected by [Stats.v]; the proxy of [Netfault.v] sits between.
    The transactions of [Prep.v] are made of the same builders and, in [PrepProps.v], run on the
    executor.  Commits come back as the receipts of [Receipt.v].  Scenarios of [Suite.v] leave the
    records that [Report.v] stores, and run on the rollups of [Rollup.v], whose processes are
    those of [Process.v] and whose identities and ports are those of [Stack.v].

    ** How the code is modelled

    - Integers are [Z] at their width: wrapping, checked and saturating operations are
      written out in this file.  [None] of an operation that returns an [option] is a
      panic, an [Err] is the source's error.  Event counters of 64 bits (hits, holding,
      subscribed, observed) are unbounded.
    - Accounts, maps and sets are stdpp's [gmap] and [gset]; a list where order matters.
    - Async code is a state machine over the events its [select!] waits for; the order of
      ready events is left open, so that the theorems hold for every schedule.  Tasks that
      wait on a channel are tokens.
    - What is not under [src/] is a class argument: [Runtime], [HeaderCodec],
      [InstructionCodec], [IntentSdk], [BuildSdk] for the programs, [RandSource] for
      random draws, [JsonText], [SocketJson], [Payloads] and [CampaignJson] for JSON, [Base58]
      for addresses as text, [HashIter] for the order a hash map is walked in; the keypairs
      that bytes stand for are an argument.  The laws used of them are in the classes
      [RuntimeLaws], [HeaderCodecLaws], [InstructionCodecLaws], [RandLaws], [Base58Laws] and
      [HashIterLaws]; the files with the witnesses have instances that satisfy them.
    - Text is ASCII.  The clock, the file system, other processes and the network answer
      through arguments: a list of polls, an event list, a [Result] per step.
    - A scenario's chain is what answers it: lists of turns and events in [Contention.v],
      [Restart.v] and [Retention.v], and the record of operations of a rollup in
      [Checkpoint.v], of which one theorem assumes that an honest rollup seals in time and on a
      kill loses only what follows its last seal.  In [Context.v], [TokenViews.v], [Projected.v], [Intents.v] and [Replication.v] it is a record of
      requests ([Node], [TokenRpc], [TokenNet], [IntentNet], [ReplNet], [ReplayNet]), each of which may change the state behind it; in
      [TransactionLoad.v] a window has a [WindowEnv] of what it met.  The token programs and
      their instruction builders are the class [EsplSdk].  Ids, sponsor totals and rent deposits of the scenarios are unbounded where
      the source has 64-bit sums of a few thousand small terms.

    ** What the theorems show

    - The executor refines the abstract cell machine, and the whole path from the calls on
      a batch through the serialised instruction to the accounts does; failed runs keep
      every cell a cell; the other instructions create, resize, delegate back and settle as
      described; deferred actions and callbacks are authenticated; a batch asks for no
      privilege that was not requested; the causal model and the upgrade probe agree with
      the program.  One theorem shows a defect: a refund whose recipient is the cell.
    - A run accounts for every request, respects concurrency and iteration bounds, drains,
      and returns exact outcomes; pacing bounds bursts; budgets partition; statistics and
      their merges are exact where they claim to be; clocks never mix windows.
    - A fault scope holds back and releases exactly what it says; traps fire once; reset
      demands them all; observers do not interfere; relays attribute and frame correctly.
    - Account updates and signatures are each counted once and no waiter is forgotten; a
      subscription receives its own notifications in order.
    - A suite always reaches a verdict, and a good one means that every selected scenario
      ran and went well; a round starts its cases in order, within its limit, and reports
      exactly the failed ones.
    - An announced completion is found, and what is found is
      the completion; verification accepts exactly the receipts that match.  Metrics are read
      back; retries and waits return and lose no wake-up; the raw client loses no
      notification.
    - A campaign survives crashes of its writer; the export is exactly the good measurements;
      time stamps are calendar dates.
    - However teardowns, which take no lock, cut into the ensuring of a base, at most one base is
      left running once they are done, and it is the recorded one; ports and identities are not shared; processes are
      stopped in order and reclaimed once; rollups are launched and recorded, restarted and finished without
      leaving a process that has an owner or removing storage under one.
    - Random streams are separate; accounts are made once; a signed transaction ends as
      recorded.
    - The mixed load rebuilds exactly the ids its workers admitted from their counts, its mix is
      even on every lane, and its final check accepts what the program leaves.
    - The scheduler contention scenario verifies its pairs in whatever order the phases'
      steps complete, and its load accounts for every step it was given.  The search of the
      account security scenario finds only orders that explain the records, and finds one
      whenever there is one if no fee is charged;
      its workload accepts exactly what the oracle predicts; a sponsor with one lamport less than
      a rent charge is refused and one with the charge is served.  After a restart the check passes exactly when the chain has what was resolved;
      a retention run accounts for every write; a checkpoint run is a replay of the
      archive, and an honest rollup that has sealed before passes it.
    - The transaction load finds every account as its last id left it, in any order that keeps
      each account's own writes in order, and ends once its windows took its time.  The token
      views are accepted exactly when the node has the prepared accounts and no others and shows
      them under the token program in an encoding the reader takes.  An
      accepted token lifecycle conserves the supply at all its checkpoints, and an accepted run
      of the overlay cases has seen each of them, in order, do what it is there for, with an exact
      accounting reconciled after each.  The oracle of the intents
      is what the program does on both chains, its own undelegation handler included, and every fee is reconciled.  The load that runs through
      a recovery drains once it is told to, draws every id once and is verified after any execution
      that keeps each pair's order; a recovery is passed only on its evidence, a divergence in a
      follower's log is never passed over, and what was settled before a restart is read again
      unchanged after it.
    - No transaction is signed with a cached blockhash that arrived before the last reset of the
      cache or longer ago than its lifetime; local accounts are those the rollup holds; a payer is delegated only as checked.
    - Every kind of refusal of a remote call is recognised as its own; accepted command
      lines give a complete environment; the exit code is the outcome.

    ** Fuel

    [merge_loop] gets the number of elements of both reservoirs, since every round removes
    one; [close_buckets] the number of seconds between two buckets; [supersede] the number
    of pending ids of the account plus one, since every round removes one; [drive] the
    length of the stream plus one, since every round reads a message; [entries_loop] the
    number of entries plus one, since every round completes a scenario; [split_str_loop] the
    length of the text, since every round consumes a character; [show_loop] 19
    rounds, since a 64-bit number has at most 20 digits; [retry_loop] two more than the intervals
    in the timeout, since every round takes one; [settle_loop] the number of running cases;
    [prepare_loop] the number of seeds; [find_serialization] the number of records left, since
    every step places one; [retry_attempts] as many as [retry_loop], whose bound is proved, and
    [await_connections] and [sample_rounds] one more than the polls in their windows.  The slots and
    seals a recovery waits for are arguments, since a deadline ends these waits.  The theorems about
    the loops show that the result is there; [Fleet.recovers] runs a whole recovery to its end.

    ** What is not modelled

    Sockets, the HTTP exchange, spawning of processes, command lines of external validators,
    argument parsing and the terminal output are I/O.  JSON, the wire codecs, SHA-256 and the
    Solana runtime are parameters.  HTTP heads are read as ASCII.  The variants for macOS are left
    out.  The other scenarios of [redline], [redshift] and [redhat] are test scripts against live
    networks.

    ** Plan

    Next, the parts of the other scenarios that compute something: settlement authorization
    (callbacks and commit buffers), the generators and the authority checks of [redhat] and the
    hostile variations of [ephemeral_account_security.rs]; RPC state and events,
    settlement lifecycle, commit recovery, program
    upgrades, the cache and scheduled tasks of [redshift]; WebSocket churn and fan-out of
    [redline].  Then the command lines of [topology/config.rs], the entry points of the runner and
    the listeners of the fault proxy. *)
From stdpp Require Export base gmap sets list strings numbers option sorting.
From Stdlib Require Export ZArith Lia.
#[global] Open Scope Z_scope.
#[global] Set Default Goal Selector "!".

(** * Results: [Result<A, E>] of the source *)

Inductive Result (A E : Type) : Type :=
| Ok (value : A)
| Err (error : E).
Arguments Ok {A E} _.
Arguments Err {A E} _.

#[export] Instance result_eq_dec {A E} `{EqDecision A, EqDecision E} :
  EqDecision (Result A E).
Proof. solve_decision. Defined.

Definition res_bind {A B E} (r : Result A E) (k : A -> Result B E) : Result B E :=
  match r with Ok a => k a | Err e => Err e end.

Definition res_map {A B E} (f : A -> B) (r : Result A E) : Result B E :=
  match r with Ok a => Ok (f a) | Err e => Err e end.

Definition ok_or {A E} (o : option A) (e : E) : Result A E :=
  match o with Some a => Ok a | None => Err e end.

Definition is_ok {A E} (r : Result A E) : bool :=
  match r with Ok _ => true | Err _ => false end.

(** The [?] operator and [ensure!]. *)
Declare Scope rust_scope.
Delimit Scope rust_scope with rust.
Notation "'let?' x := e 'in' k" := (res_bind e (fun x => k))
  (at level 10, x binder, e at level 100, k at level 200) : rust_scope.
Notation "'ensure!' b 'else' e 'in' k" := (if b : bool then k else Err e)
  (at level 10, b at level 100, e at level 100, k at level 200) : rust_scope.
#[global] Open Scope rust_scope.

(** [Iterator::collect] into a [Result]: the first error wins. *)
Fixpoint collect_results {A B E} (f : A -> Result B E) (l : list A) : Result (list B) E :=
  match l with
  | [] => Ok []
  | x :: xs => let? y := f x in let? ys := collect_results f xs in Ok (y :: ys)
  end.

(** * Machine integers, kept in [Z] at their width *)

Definition u8_bound : Z := 2 ^ 8.
Definition u16_bound : Z := 2 ^ 16.
Definition u32_bound : Z := 2 ^ 32.
Definition u64_bound : Z := 2 ^ 64.
Definition u32_max : Z := u32_bound - 1.
Definition u64_max : Z := u64_bound - 1.

Definition is_u (w : Z) (z : Z) : Prop := 0 <= z < 2 ^ w.
Definition is_i64 (z : Z) : Prop := - 2 ^ 63 <= z < 2 ^ 63.

#[export] Instance is_u_dec w z : Decision (is_u w z).
Proof. unfold is_u. apply _. Defined.
#[export] Instance is_i64_dec z : Decision (is_i64 z).
Proof. unfold is_i64. apply _. Defined.

Definition wrapping_add64 (a b : Z) : Z := (a + b) mod u64_bound.
Definition wrapping_sub64 (a b : Z) : Z := (a - b) mod u64_bound.
Definition wrapping_mul64 (a b : Z) : Z := (a * b) mod u64_bound.
Definition checked_add64 (a b : Z) : option Z :=
  if a + b <? u64_bound then Some (a + b) else None.
Definition checked_sub64 (a b : Z) : option Z :=
  if b <=? a then Some (a - b) else None.
Definition checked_add_signed64 (a c : Z) : option Z :=
  if (0 <=? a + c) && (a + c <? u64_bound) then Some (a + c) else None.
Definition saturating_sub (a b : Z) : Z := Z.max 0 (a - b).
Definition saturating_add32 (a b : Z) : Z := Z.min u32_max (a + b).

(** * Little-endian bytes ([to_le_bytes] / [from_le_bytes]) *)

Fixpoint le_bytes (n : nat) (z : Z) : list Z :=
  match n with
  | O => []
  | S n => z mod 256 :: le_bytes n (z / 256)
  end.

Fixpoint le_val (bs : list Z) : Z :=
  match bs with
  | [] => 0
  | b :: bs => b + 256 * le_val bs
  end.

Definition is_byte (b : Z) : Prop := 0 <= b < 256.

#[export] Instance is_byte_dec b : Decision (is_byte b).
Proof. unfold is_byte. apply _. Defined.

Lemma length_le_bytes n z : length (le_bytes n z) = n.
Proof. revert z. induction n; intros; simpl; auto. Qed.

Lemma le_bytes_bytes n z : Forall is_byte (le_bytes n z).
Proof.
  revert z. induction n as [|n IH]; intros z; simpl; constructor; auto.
  unfold is_byte. pose proof (Z.mod_pos_bound z 256). lia.
Qed.

Lemma le_val_bytes n z : 0 <= z < 256 ^ Z.of_nat n -> le_val (le_bytes n z) = z.
Proof.
  revert z. induction n as [|n IH]; intros z Hz.
  - simpl in *. lia.
  - cbn [le_bytes le_val]. rewrite IH.
    + pose proof (Z.div_mod z 256). lia.
    + rewrite Nat2Z.inj_succ, Z.pow_succ_r in Hz by lia.
      split; [apply Z.div_pos; lia | apply Z.div_lt_upper_bound; lia].
Qed.

Lemma le_bytes_val bs : Forall is_byte bs -> le_bytes (length bs) (le_val bs) = bs.
Proof.
  induction 1 as [|b bs Hb _ IH]; [done|].
  cbn [length le_bytes le_val]. unfold is_byte in Hb.
  rewrite Z.add_comm, Z.mul_comm, Z.div_add_l, Z.div_small, Z.add_0_r by lia.
  rewrite Z.add_comm, Z_mod_plus_full, Z.mod_small by lia. by rewrite IH.
Qed.

Lemma le_val_bound bs :
  Forall is_byte bs -> 0 <= le_val bs < 256 ^ Z.of_nat (length bs).
Proof.
  induction 1 as [|b bs Hb _ IH]; cbn [le_val length]; [lia|].
  rewrite Nat2Z.inj_succ, Z.pow_succ_r by lia. unfold is_byte in Hb. lia.
Qed.

Lemma le_val_bytes_u64 z : is_u 64 z -> le_val (le_bytes 8 z) = z.
Proof. intros H. apply le_val_bytes. exact H. Qed.

(** * Slices: writing a prefix in place ([copy_from_slice] on [..len]) *)

Definition write_prefix {A} (bs dst : list A) : list A := bs ++ drop (length bs) dst.

Lemma length_write_prefix {A} (bs dst : list A) :
  (length bs <= length dst)%nat -> length (write_prefix bs dst) = length dst.
Proof. intros H. unfold write_prefix. rewrite length_app, length_drop. lia. Qed.

Lemma take_write_prefix {A} (bs dst : list A) :
  take (length bs) (write_prefix bs dst) = bs.
Proof. unfold write_prefix. by rewrite take_app_length. Qed.

Lemma drop_write_prefix {A} (bs dst : list A) n :
  (length bs <= n)%nat -> drop n (write_prefix bs dst) = drop n dst.
Proof.
  intros H. unfold write_prefix. rewrite drop_app_ge by lia.
  rewrite drop_drop. f_equal. lia.
Qed.

(** * Searching lists the way [Iterator::position] and [find_map] do *)

Fixpoint position {A} (p : A -> bool) (l : list A) : option nat :=
  match l with
  | [] => None
  | x :: xs => if p x then Some O else S <$> position p xs
  end.

Fixpoint find_first {A} (p : A -> bool) (l : list A) : option A :=
  match l with
  | [] => None
  | x :: xs => if p x then Some x else find_first p xs
  end.

Fixpoint find_map {A B} (f : A -> option B) (l : list A) : option B :=
  match l with
  | [] => None
  | x :: xs => match f x with Some y => Some y | None => find_map f xs end
  end.

Lemma position_Some {A} (p : A -> bool) l i :
  position p l = Some i ->
  exists x, l !! i = Some x /\ p x = true /\
    forall j y, (j < i)%nat -> l !! j = Some y -> p y = false.
Proof.
  revert i. induction l as [|x l IH]; intros i; simpl; [done|].
  destruct (p x) eqn:Hx.
  - intros [= <-]. exists x. repeat split; auto. intros; lia.
  - intros (j & Hj & ->)%fmap_Some. destruct (IH _ Hj) as (y & Hy & Hp & Hlt).
    exists y. repeat split; auto. intros [|k] z Hk Hz; simpl in Hz.
    + by simplify_eq.
    + apply (Hlt k); auto. lia.
Qed.

Lemma position_None {A} (p : A -> bool) l :
  position p l = None <-> forall x, x ∈ l -> p x = false.
Proof.
  induction l as [|x l IH]; simpl.
  - split; [intros _ y Hy; by apply elem_of_nil in Hy | done].
  - destruct (p x) eqn:Hx.
    + split; [done|]. intros H. specialize (H x ltac:(left)). congruence.
    + rewrite fmap_None, IH. split.
      * intros H y [->|Hy]%elem_of_cons; auto.
      * intros H y Hy. apply H. by right.
Qed.

Lemma find_first_Some {A} (p : A -> bool) l x :
  find_first p l = Some x -> x ∈ l /\ p x = true.
Proof.
  induction l as [|y l IH]; simpl; [done|].
  destruct (p y) eqn:Hy; [intros [= <-]; split; [left|done]|].
  intros H. destruct (IH H). split; [by right|done].
Qed.

Lemma find_first_None {A} (p : A -> bool) l :
  find_first p l = None <-> forall x, x ∈ l -> p x = false.
Proof.
  induction l as [|x l IH]; simpl.
  - split; [intros _ y Hy; by apply elem_of_nil in Hy | done].
  - destruct (p x) eqn:Hx.
    + split; [done|]. intros H. specialize (H x ltac:(left)). congruence.
    + rewrite IH. split.
      * intros H y [->|Hy]%elem_of_cons; auto.
      * intros H y Hy. apply H. by right.
Qed.

Lemma find_map_Some {A B} (f : A -> option B) l y :
  find_map f l = Some y -> exists x, x ∈ l /\ f x = Some y.
Proof.
  induction l as [|x l IH]; simpl; [done|].
  destruct (f x) eqn:Hx.
  - intros [= <-]. exists x. split; [left|done].
  - intros H. destruct (IH H) as (z & Hz & Hf). exists z. split; [by right|done].
Qed.

Lemma collect_results_Ok {A B E} (f : A -> Result B E) l ys :
  collect_results f l = Ok ys <-> Forall2 (fun x y => f x = Ok y) l ys.
Proof.
  revert ys. induction l as [|x l IH]; intros ys; simpl.
  - split; [intros [= <-]; constructor | by inversion 1].
  - destruct (f x) as [y|e] eqn:Hx; simpl.
    + destruct (collect_results f l) as [zs|e] eqn:Hl; simpl.
      * split.
        -- intros [= <-]. constructor; auto. by apply IH.
        -- intros (y' & ys' & Hy & Hys & ->)%Forall2_cons_inv_l.
           apply IH in Hys. congruence.
      * split; [done|].
        intros (y' & ys' & Hy & Hys & ->)%Forall2_cons_inv_l.
        apply IH in Hys. congruence.
    + split; [done|]. intros (y' & ys' & Hy & _ & _)%Forall2_cons_inv_l. congruence.
Qed.

Lemma forallb_pointwise {A} (p q : A -> bool) l :
  (forall x, p x = q x) -> forallb p l = forallb q l.
Proof. intros H. induction l as [|x l IH]; simpl; [done|]. by rewrite H, IH. Qed.

(** * Sums of integer lists *)

Definition sum_Z (l : list Z) : Z := foldr Z.add 0 l.

Lemma sum_Z_app l k : sum_Z (l ++ k) = sum_Z l + sum_Z k.
Proof. induction l; simpl; lia. Qed.

Lemma sum_Z_perm l k : l ≡ₚ k -> sum_Z l = sum_Z k.
Proof. induction 1; simpl; lia. Qed.

#[export] Instance sum_Z_Proper : Proper (Permutation ==> eq) sum_Z.
Proof. intros l k. apply sum_Z_perm. Qed.

(** * Automation *)

Create HintDb suite.
#[export] Hint Resolve length_le_bytes le_bytes_bytes le_val_bytes_u64 : suite.
Create Rewrite HintDb suite.
#[export] Hint Rewrite @length_le_bytes @take_write_prefix : suite.

(** Splits the outermost [Result] binds and boolean guards of a hypothesis. *)
Ltac res_inv H :=
  unfold res_bind, ok_or in H;
  repeat match type of H with
  | context [match ?x with Ok _ => _ | Err _ => _ end] =>
      let E := fresh "E" in destruct x eqn:E; simplify_eq/=
  | context [match ?x with Some _ => _ | None => _ end] =>
      let E := fresh "E" in destruct x eqn:E; simplify_eq/=
  | context [if ?b then _ else _] =>
      let E := fresh "E" in destruct b eqn:E; simplify_eq/=
  end.

(** Turns boolean comparisons in the context into propositions. *)
Ltac bools :=
  repeat match goal with
  | H : (_ && _)%bool = true |- _ => apply andb_true_iff in H; destruct H
  | H : (_ || _)%bool = false |- _ => apply orb_false_iff in H; destruct H
  | H : negb _ = true |- _ => apply negb_true_iff in H
  | H : negb _ = false |- _ => apply negb_false_iff in H
  | H : (_ =? _) = true |- _ => apply Z.eqb_eq in H
  | H : (_ =? _) = false |- _ => apply Z.eqb_neq in H
  | H : (_ <? _) = true |- _ => apply Z.ltb_lt in H
  | H : (_ <? _) = false |- _ => apply Z.ltb_ge in H
  | H : (_ <=? _) = true |- _ => apply Z.leb_le in H
  | H : (_ <=? _) = false |- _ => apply Z.leb_gt in H
  | H : bool_decide _ = true |- _ => apply bool_decide_eq_true in H
  | H : bool_decide _ = false |- _ => apply bool_decide_eq_false in H
  end.
