(* ===== verification/World.v ===== *)
(** The Solana runtime as the fixture programs see it.

    An [AccountInfo] of the source is a set of flags plus shared cells for the
    lamports and the data: the same account passed twice shares one cell, and
    the data cell is a [RefCell] whose borrows can fail.  [World] is that shared
    store, keyed by address, with the addresses whose data is currently
    borrowed, and the program log.  [M] threads it and keeps it on errors too:
    what a failed step already wrote stays written until the runtime rolls the
    transaction back.

    The runtime, the SDK and the hash function are not part of the repository.
    [Runtime] is the record of what the programs call, and [RuntimeLaws] the
    documented behaviour the theorems rely on. *)
From S2P Require Import Prelude.

(** A 32-byte address, read as a big-endian number: [Ord] on the bytes is the
    order on [Z]. *)
Definition Pubkey := Z.
Definition pubkey_bytes (k : Pubkey) : list Z := reverse (le_bytes 32 k).

#[export] Instance Pubkey_eq_dec : EqDecision Pubkey := _.
#[export] Instance Pubkey_countable : Countable Pubkey := _.
#[export] Instance Pubkey_inhabited : Inhabited Pubkey := populate 0.

Inductive ProgramError :=
| NotEnoughAccountKeys
| InvalidInstructionData
| IncorrectProgramId
| MissingRequiredSignature
| InvalidAccountOwner
| InvalidAccountData
| AccountDataTooSmall
| ArithmeticOverflow
| InvalidSeeds
| InvalidArgument
| InsufficientFunds
| InvalidRealloc
| AccountBorrowFailed
| Custom (code : Z).

#[export] Instance ProgramError_eq_dec : EqDecision ProgramError.
Proof. solve_decision. Defined.

(** The shared part of an account and the per-instruction part. *)
Record AccountCell := mkCell { owner : Pubkey; lamports : Z; data : list Z }.
Record AccountInfo := mkInfo { key : Pubkey; is_signer : bool; is_writable : bool }.

#[export] Instance AccountCell_inhabited : Inhabited AccountCell := populate (mkCell 0 0 []).

Record AccountMeta := mkMeta { pubkey : Pubkey; meta_signer : bool; meta_writable : bool }.

Record SolInstruction := mkIx
  { ix_program_id : Pubkey; ix_accounts : list AccountMeta; ix_data : list Z }.

#[export] Instance AccountMeta_eq_dec : EqDecision AccountMeta.
Proof. solve_decision. Defined.
#[export] Instance SolInstruction_eq_dec : EqDecision SolInstruction.
Proof. solve_decision. Defined.

(** [AccountMeta::new] and [AccountMeta::new_readonly]. *)
Definition meta_new (k : Pubkey) (signer : bool) : AccountMeta := mkMeta k signer true.
Definition meta_new_readonly (k : Pubkey) (signer : bool) : AccountMeta := mkMeta k signer false.

(** The lines the programs write with [msg!]. *)
Inductive LogLine :=
| LogInvalidInstruction
| LogInvalidProbe
| LogStepFailed (step : nat) (error : ProgramError)
| LogObservation (o : Pubkey) (len : Z) (lams : Z) (hash : option (list Z))
| LogMessage (text : string)
| LogUpgrade (version : Z).

#[export] Instance LogLine_eq_dec : EqDecision LogLine.
Proof. solve_decision. Defined.

Record World := mkWorld
  { cells : gmap Pubkey AccountCell; borrowed : gset Pubkey; logs : list LogLine }.

(** * The effect monad *)

Definition M (A : Type) : Type := World -> Result A ProgramError * World.

#[export] Instance M_ret : MRet M := fun A a w => (Ok a, w).
#[export] Instance M_bind : MBind M := fun A B k m w =>
  match m w with
  | (Ok a, w') => k a w'
  | (Err e, w') => (Err e, w')
  end.

Definition fail {A} (e : ProgramError) : M A := fun w => (Err e, w).
Definition lift {A} (r : Result A ProgramError) : M A := fun w => (r, w).
Definition msg (l : LogLine) : M unit := fun w =>
  (Ok tt, mkWorld (cells w) (borrowed w) (logs w ++ [l])).

Definition account (w : World) (k : Pubkey) : AccountCell := cells w !!! k.

Definition set_account (k : Pubkey) (c : AccountCell) (w : World) : World :=
  mkWorld (<[k := c]> (cells w)) (borrowed w) (logs w).

Definition set_data (k : Pubkey) (d : list Z) (w : World) : World :=
  set_account k (mkCell (owner (account w k)) (lamports (account w k)) d) w.

Definition set_lamports (k : Pubkey) (l : Z) (w : World) : World :=
  set_account k (mkCell (owner (account w k)) l (data (account w k))) w.

(** [try_borrow_data]: no mutable borrow ever outlives the statement that takes
    it, so a shared borrow always succeeds. *)
Definition try_borrow_data (a : AccountInfo) : M (list Z) := fun w =>
  (Ok (data (account w (key a))), w).

(** [try_borrow_mut_data]: fails while a shared borrow of the same cell lives. *)
Definition try_borrow_mut_data (a : AccountInfo) : M (list Z) := fun w =>
  if bool_decide (key a ∈ borrowed w) then (Err AccountBorrowFailed, w)
  else (Ok (data (account w (key a))), w).

(** Writing through a mutable borrow that has been taken. *)
Definition store_data (a : AccountInfo) (d : list Z) : M unit := fun w =>
  (Ok tt, set_data (key a) d w).

Definition get_lamports (a : AccountInfo) : M Z := fun w => (Ok (lamports (account w (key a))), w).
Definition put_lamports (a : AccountInfo) (l : Z) : M unit := fun w =>
  (Ok tt, set_lamports (key a) l w).
Definition get_owner (a : AccountInfo) : M Pubkey := fun w => (Ok (owner (account w (key a))), w).
Definition data_len (a : AccountInfo) : M Z := fun w =>
  (Ok (Z.of_nat (length (data (account w (key a))))), w).

(** A shared borrow of [a]'s data held for the extent of [body]. *)
Definition holding_data {A} (a : AccountInfo) (body : list Z -> M A) : M A := fun w =>
  let (r, w') := body (data (account w (key a)))
                   (mkWorld (cells w) ({[key a]} ∪ borrowed w) (logs w)) in
  (r, mkWorld (cells w') (borrowed w) (logs w')).

(** [for x in l { f(x)?; }] *)
Fixpoint for_each {A} (f : A -> M unit) (l : list A) : M unit :=
  match l with
  | [] => mret tt
  | x :: xs => f x ;; for_each f xs
  end.

(** [iter.map(f).collect::<Result<Vec<_>, _>>()] *)
Fixpoint mapM_ {A B} (f : A -> M B) (l : list A) : M (list B) :=
  match l with
  | [] => mret []
  | x :: xs => y ← f x; ys ← mapM_ f xs; mret (y :: ys)
  end.

(** * What the programs call outside the repository *)

Record DelegateConfig := mkDelegateConfig
  { dc_validator : option Pubkey; dc_commit_frequency_ms : Z }.

Record DelegateAccounts := mkDelegateAccounts
  { da_payer : AccountInfo; da_pda : AccountInfo; da_owner_program : AccountInfo;
    da_buffer : AccountInfo; da_delegation_record : AccountInfo;
    da_delegation_metadata : AccountInfo; da_delegation_program : AccountInfo;
    da_system_program : AccountInfo }.

Class Runtime := {
  sha256 : list Z -> list Z;
  find_program_address : list (list Z) -> Pubkey -> Pubkey * Z;
  invoke_signed : SolInstruction -> list AccountInfo -> list (list (list Z)) -> M unit;
  system_transfer : Pubkey -> Pubkey -> Z -> SolInstruction;
  system_program_id : Pubkey;
  create_pda : AccountInfo -> Pubkey -> Z -> list (list (list Z)) ->
               AccountInfo -> AccountInfo -> bool -> M unit;
  delegate_account : DelegateAccounts -> list (list Z) -> DelegateConfig -> M unit;
  delegate_account_with_any_validator :
    DelegateAccounts -> list (list Z) -> DelegateConfig -> M unit;
  undelegate_account : AccountInfo -> Pubkey -> AccountInfo -> AccountInfo ->
                       AccountInfo -> list (list Z) -> M unit;
  rent_minimum_balance : Z -> M Z;
  account_resize : AccountInfo -> Z -> M unit;
  external_undelegate_discriminator : list Z;
  decode_seeds : list Z -> option (list (list Z));
  callback_signer : Pubkey;
}.

(** [solana_program::program::invoke] is [invoke_signed] without seeds. *)
Definition invoke `{Runtime} (ix : SolInstruction) (infos : list AccountInfo) : M unit :=
  invoke_signed ix infos [].

(** Documented behaviour of those calls. *)
Class RuntimeLaws (R : Runtime) : Prop := {
  (** SHA-256 digests are 32 bytes. *)
  sha256_length : forall bs, length (sha256 bs) = 32%nat;
  sha256_bytes : forall bs, Forall is_byte (sha256 bs);
  (** [AccountInfo::resize] keeps the common prefix, zero-fills growth, touches
      nothing else, and fails without effect. *)
  resize_ok : forall a n w w', account_resize a n w = (Ok tt, w') ->
    w' = set_data (key a)
           (take (Z.to_nat n) (data (account w (key a))) ++
            replicate (Z.to_nat n - length (data (account w (key a))))%nat 0) w;
  resize_err : forall a n w e w', account_resize a n w = (Err e, w') -> w' = w;
  (** A successful [create_pda] leaves an account of the requested size, owned by
      the program, and does not hold a borrow of it. *)
  create_pda_ok : forall cell program space seeds system payer prefund w w',
    create_pda cell program space seeds system payer prefund w = (Ok tt, w') ->
    length (data (account w' (key cell))) = Z.to_nat space /\
    owner (account w' (key cell)) = program /\ borrowed w' = borrowed w;
}.

(** * Lemmas of the store *)

Lemma account_set_account_eq k c w : account (set_account k c w) k = c.
Proof. unfold account, set_account. simpl. by rewrite lookup_total_insert_eq. Qed.

Lemma account_set_account_ne k k' c w : k <> k' -> account (set_account k c w) k' = account w k'.
Proof. intros. unfold account, set_account. simpl. by rewrite lookup_total_insert_ne. Qed.

Lemma data_set_data_eq k d w : data (account (set_data k d w) k) = d.
Proof. unfold set_data. by rewrite account_set_account_eq. Qed.

Lemma owner_set_data k d w k' : owner (account (set_data k d w) k') = owner (account w k').
Proof.
  destruct (decide (k = k')) as [->|]; unfold set_data;
    [by rewrite account_set_account_eq | by rewrite account_set_account_ne].
Qed.

Lemma lamports_set_data k d w k' :
  lamports (account (set_data k d w) k') = lamports (account w k').
Proof.
  destruct (decide (k = k')) as [->|]; unfold set_data;
    [by rewrite account_set_account_eq | by rewrite account_set_account_ne].
Qed.

Lemma account_set_data_ne k d w k' : k <> k' -> account (set_data k d w) k' = account w k'.
Proof. intros. unfold set_data. by rewrite account_set_account_ne. Qed.

Lemma account_set_lamports_ne k l w k' :
  k <> k' -> account (set_lamports k l w) k' = account w k'.
Proof. intros. unfold set_lamports. by rewrite account_set_account_ne. Qed.

Lemma lamports_set_lamports_eq k l w : lamports (account (set_lamports k l w) k) = l.
Proof. unfold set_lamports. by rewrite account_set_account_eq. Qed.

Lemma data_set_lamports k l w k' :
  data (account (set_lamports k l w) k') = data (account w k').
Proof.
  destruct (decide (k = k')) as [->|]; unfold set_lamports;
    [by rewrite account_set_account_eq | by rewrite account_set_account_ne].
Qed.

Lemma set_data_set_data k d d' w : set_data k d' (set_data k d w) = set_data k d' w.
Proof.
  unfold set_data at 1. rewrite owner_set_data, lamports_set_data.
  unfold set_data, set_account. simpl. by rewrite insert_insert_eq.
Qed.

Create Rewrite HintDb world.
#[export] Hint Rewrite account_set_account_eq data_set_data_eq owner_set_data lamports_set_data
  lamports_set_lamports_eq data_set_lamports set_data_set_data : world.

(** * Lemmas of the monad *)

Lemma bind_Ok {A B} (m : M A) (k : A -> M B) w b w2 :
  (m ≫= k) w = (Ok b, w2) ->
  exists a w1, m w = (Ok a, w1) /\ k a w1 = (Ok b, w2).
Proof.
  unfold mbind, M_bind. destruct (m w) as [[a|e] w1]; [eauto|done].
Qed.

Lemma bind_run_Ok {A B} (m : M A) (k : A -> M B) w a w1 :
  m w = (Ok a, w1) -> (m ≫= k) w = k a w1.
Proof. unfold mbind, M_bind. by intros ->. Qed.

Lemma bind_run_Err {A B} (m : M A) (k : A -> M B) w e w1 :
  m w = (Err e, w1) -> (m ≫= k) w = (Err e, w1).
Proof. unfold mbind, M_bind. by intros ->. Qed.

(** [mrun] unfolds the monad's plumbing in the goal, [mrun_in] in a hypothesis. *)
Ltac mrun :=
  unfold mret, M_ret, mbind, M_bind, fail, lift, msg, try_borrow_data, get_owner, get_lamports,
    data_len, store_data, put_lamports, ok_or, res_bind;
  cbv beta iota.
Ltac mrun_in H :=
  unfold mret, M_ret, mbind, M_bind, fail, lift, msg, try_borrow_data, get_owner, get_lamports,
    data_len, store_data, put_lamports, ok_or, res_bind in H;
  cbv beta iota in H.

(** * Invariants carried by a whole computation, on success and on failure *)

(** [m] relates the world it starts in to the world it ends in by [R], whatever
    it returns. *)
Definition respects {A} (R : World -> World -> Prop) (m : M A) : Prop :=
  forall w, R w (m w).2.

Section respects.
Context (R : World -> World -> Prop) `{!Reflexive R, !Transitive R}.

Lemma respects_ret {A} (a : A) : respects R (mret a).
Proof. intros w. reflexivity. Qed.

Lemma respects_fail {A} e : respects R (@fail A e).
Proof. intros w. reflexivity. Qed.

Lemma respects_lift {A} (r : Result A ProgramError) : respects R (lift r).
Proof. intros w. reflexivity. Qed.

Lemma respects_bind {A B} (m : M A) (k : A -> M B) :
  respects R m -> (forall a, respects R (k a)) -> respects R (m ≫= k).
Proof.
  intros Hm Hk w. unfold mbind, M_bind. specialize (Hm w).
  destruct (m w) as [[a|e] w1]; simpl in *; [|done].
  etransitivity; [done|apply Hk].
Qed.

Lemma respects_for_each {A} (f : A -> M unit) l :
  (forall x, x ∈ l -> respects R (f x)) -> respects R (for_each f l).
Proof.
  induction l as [|x l IH]; intros Hf; simpl; [apply respects_ret|].
  apply respects_bind; [apply Hf; left|].
  intros _. apply IH. intros y Hy. apply Hf. by right.
Qed.

Lemma respects_mapM {A B} (f : A -> M B) l :
  (forall x, respects R (f x)) -> respects R (mapM_ f l).
Proof.
  intros Hf. induction l as [|x l IH]; simpl; [apply respects_ret|].
  repeat (apply respects_bind; [done|intros]). apply respects_ret.
Qed.
End respects.
