(* ===== verification/Cell.v ===== *)
(** Cells: [programs/fixture/src/state.rs] and the layout constants of
    [programs/fixture/src/lib.rs].

    A cell is an account whose data starts with a fixed 64-byte header
    ([CellHeader]) followed by workload bytes.  The header's wire format is
    Wincode's, a library outside the repository: [HeaderCodec] is what the code
    calls and [HeaderCodecLaws] what it relies on (a fixed-size encoding of
    [SIZE] bytes that decodes back and reads nothing beyond itself). *)
From S2P Require Import Prelude World.

Record CellId := mkCellId { authority : Pubkey; index : Z }.

#[export] Instance CellId_eq_dec : EqDecision CellId.
Proof. solve_decision. Defined.

(** [CellId::SEED], the bytes of "cell". *)
Definition CellId_SEED : list Z := [99; 101; 108; 108].

Definition CellId_new (authority : Pubkey) (index : Z) : CellId := mkCellId authority index.

Definition CellId_seeds (id : CellId) : list (list Z) :=
  [CellId_SEED; pubkey_bytes (authority id); le_bytes 8 (index id)].

Definition CellId_pda `{Runtime} (id : CellId) (program : Pubkey) : Pubkey * Z :=
  find_program_address (CellId_seeds id) program.

Inductive UndelegationOutcome := Accept | Reject.

#[export] Instance UndelegationOutcome_eq_dec : EqDecision UndelegationOutcome.
Proof. solve_decision. Defined.

Record CellHeader := mkHeader
  { id : CellId; value : Z; revision : Z; undelegation : UndelegationOutcome }.

#[export] Instance CellHeader_eq_dec : EqDecision CellHeader.
Proof. solve_decision. Defined.

(** The fields are machine integers. *)
Definition CellHeader_wf (h : CellHeader) : Prop :=
  is_u 256 (authority (id h)) /\ is_u 64 (index (id h)) /\
  is_u 64 (value h) /\ is_u 64 (revision h).

#[export] Instance CellHeader_wf_dec h : Decision (CellHeader_wf h).
Proof. unfold CellHeader_wf. apply _. Defined.

(** [size_of::<Pubkey>() + 4 * size_of::<u64>()] and the offset of the value. *)
Definition CellHeader_SIZE : nat := 32 + 4 * 8.
Definition CellHeader_VALUE_OFFSET : nat := 32 + 8.

Definition CellHeader_new (i : CellId) : CellHeader := mkHeader i 0 0 Accept.

Class HeaderCodec := {
  (** [wincode::deserialize] *)
  header_deserialize : list Z -> option CellHeader;
  (** [wincode::serialize_into] a destination slice: the slice afterwards. *)
  header_serialize_into : list Z -> CellHeader -> option (list Z);
}.

Class HeaderCodecLaws (C : HeaderCodec) : Prop := {
  serialize_fixed : forall dst h, CellHeader_wf h -> length dst = CellHeader_SIZE ->
    exists out, header_serialize_into dst h = Some out;
  serialize_length : forall dst h out,
    header_serialize_into dst h = Some out -> length out = length dst;
  deserialize_serialize : forall dst h out rest, CellHeader_wf h ->
    length dst = CellHeader_SIZE -> header_serialize_into dst h = Some out ->
    header_deserialize (out ++ rest) = Some h;
  deserialize_prefix : forall hd rest rest', length hd = CellHeader_SIZE ->
    header_deserialize (hd ++ rest) = header_deserialize (hd ++ rest');
  deserialize_size : forall d h, header_deserialize d = Some h ->
    (CellHeader_SIZE <= length d)%nat /\ CellHeader_wf h;
}.

Section header.
Context `{HeaderCodec}.

Definition CellHeader_try_decode (d : list Z) : option CellHeader := header_deserialize d.

(** [CellHeader::write]: the data slice afterwards. *)
Definition CellHeader_write (h : CellHeader) (d : list Z) : Result (list Z) ProgramError :=
  if (CellHeader_SIZE <=? length d)%nat then
    match header_serialize_into (take CellHeader_SIZE d) h with
    | Some hd => Ok (hd ++ drop CellHeader_SIZE d)
    | None => Err InvalidAccountData
    end
  else Err AccountDataTooSmall.

Definition CellHeader_written_id (d : list Z) : option Z := value <$> CellHeader_try_decode d.
End header.

Definition CellHeader_payload (d : list Z) : Result (list Z) ProgramError :=
  if (CellHeader_SIZE <=? length d)%nat then Ok (drop CellHeader_SIZE d)
  else Err AccountDataTooSmall.

(** [CellHeader::fill]: the payload in 8-byte chunks, the last one possibly
    shorter; chunk [index] holds the low bytes of [seed + index * step]. *)
Definition fill_word (seed step index : Z) : list Z :=
  le_bytes 8 (wrapping_add64 seed (wrapping_mul64 (index mod u64_bound) step)).

Fixpoint fill_chunks (chunks : nat) (payload : list Z) (seed step index : Z) : list Z :=
  match chunks with
  | O => []
  | S chunks =>
      let chunk := take 8 payload in
      take (length chunk) (fill_word seed step index) ++
      fill_chunks chunks (drop 8 payload) seed step (index + 1)
  end.

(** [payload.chunks_mut(8)] yields [len.div_ceil(8)] chunks. *)
Definition CellHeader_fill (payload : list Z) (seed step : Z) : list Z :=
  fill_chunks ((length payload + 7) / 8) payload seed step 0.

Definition CellHeader_fill_payload (d : list Z) (seed : Z) : Result (list Z) ProgramError :=
  let? payload := CellHeader_payload d in
  Ok (take CellHeader_SIZE d ++ CellHeader_fill payload seed 1).

(** [HashState]: a 32-byte digest at the start of the payload. *)
Definition HashState_SIZE : nat := 32.

Definition HashState_chain `{Runtime} (hash : list Z) (rounds : Z) : list Z :=
  foldl (fun h round => sha256 (h ++ le_bytes 4 round)) hash (seqZ 0 rounds).

Definition HashState_fold `{Runtime} (salt : Z) (hashes : list (list Z)) (rounds : Z) : list Z :=
  HashState_chain (sha256 (le_bytes 8 salt ++ concat hashes)) rounds.

(** [layout] of [lib.rs]. *)
Definition layout_DATA_OFFSET : nat := CellHeader_SIZE.
Definition layout_ID_OFFSET : nat := CellHeader_VALUE_OFFSET.
Definition layout_ID_SIZE : nat := 8.
Definition layout_HASH_OFFSET : nat := layout_DATA_OFFSET.
Definition layout_HASH_SIZE : nat := HashState_SIZE.

(** * Lemmas *)

Lemma CellHeader_payload_Ok d :
  (CellHeader_SIZE <= length d)%nat -> CellHeader_payload d = Ok (drop CellHeader_SIZE d).
Proof. intros H. unfold CellHeader_payload. by rewrite (proj2 (Nat.leb_le _ _) H). Qed.

Lemma length_HashState_chain `{R : Runtime, !RuntimeLaws R} h rounds :
  length h = 32%nat -> length (HashState_chain h rounds) = 32%nat.
Proof.
  unfold HashState_chain. generalize (seqZ 0 rounds). intros l. revert h.
  induction l as [|r l IH]; intros h Hh; simpl; [done|].
  apply IH, sha256_length.
Qed.

Lemma length_HashState_fold `{R : Runtime, !RuntimeLaws R} salt hashes rounds :
  length (HashState_fold salt hashes rounds) = 32%nat.
Proof. apply length_HashState_chain, sha256_length. Qed.

#[export] Hint Resolve length_HashState_chain length_HashState_fold : suite.

Section fill.
Lemma length_fill_word seed step i : length (fill_word seed step i) = 8%nat.
Proof. apply length_le_bytes. Qed.

Lemma length_fill_chunks n p seed step i :
  (length p <= 8 * n)%nat -> length (fill_chunks n p seed step i) = length p.
Proof.
  revert p i. induction n as [|n IH]; intros p i Hp; cbn [fill_chunks].
  - destruct p; simpl in *; [done|lia].
  - rewrite length_app, length_take, length_fill_word, IH by (rewrite length_drop; lia).
    rewrite length_drop, length_take. lia.
Qed.

Lemma div_ceil_8 n : (n <= 8 * ((n + 7) / 8))%nat.
Proof. pose proof (Nat.div_mod_eq (n + 7) 8). pose proof (Nat.mod_upper_bound (n + 7) 8). lia. Qed.

Lemma length_CellHeader_fill p seed step : length (CellHeader_fill p seed step) = length p.
Proof. apply length_fill_chunks, div_ceil_8. Qed.

(** Byte [j] of the fill is byte [j mod 8] of word [j / 8]. *)
Lemma fill_chunks_lookup n p seed step i j :
  (length p <= 8 * n)%nat -> (j < length p)%nat ->
  fill_chunks n p seed step i !! j =
    fill_word seed step (i + Z.of_nat (j / 8)) !! (j mod 8)%nat.
Proof.
  revert p i j. induction n as [|n IH]; intros p i j Hp Hj; cbn [fill_chunks]; [lia|].
  destruct (decide (j < 8)%nat) as [Hlt|Hge].
  - rewrite Nat.div_small, Nat.mod_small, Z.add_0_r by lia.
    rewrite lookup_app_l by (rewrite length_take, length_fill_word, length_take; lia).
    apply lookup_take_lt. rewrite length_take. lia.
  - rewrite lookup_app_r by (rewrite length_take, length_fill_word, length_take; lia).
    rewrite !length_take, length_fill_word.
    replace (j - (8 `min` length p) `min` 8)%nat with (j - 8)%nat by lia.
    rewrite IH by (rewrite length_drop; lia).
    replace j with ((j - 8) + 1 * 8)%nat at 3 4 by lia.
    rewrite Nat.div_add, Nat.Div0.mod_add by lia. do 2 f_equal. lia.
Qed.

Lemma CellHeader_fill_lookup p seed step j :
  (j < length p)%nat ->
  CellHeader_fill p seed step !! j =
    fill_word seed step (Z.of_nat (j / 8)) !! (j mod 8)%nat.
Proof.
  intros Hj. unfold CellHeader_fill. by rewrite fill_chunks_lookup by (done || apply div_ceil_8).
Qed.
End fill.

Section header_lemmas.
Context `{C : HeaderCodec, !HeaderCodecLaws C}.

(** Writing a header into a slice that holds one keeps the payload and decodes back. *)
Lemma CellHeader_write_Ok h d :
  CellHeader_wf h -> (CellHeader_SIZE <= length d)%nat ->
  exists d', CellHeader_write h d = Ok d' /\ length d' = length d /\
    drop CellHeader_SIZE d' = drop CellHeader_SIZE d /\
    CellHeader_try_decode d' = Some h.
Proof.
  intros Hwf Hlen. unfold CellHeader_write. rewrite (proj2 (Nat.leb_le _ _) Hlen).
  assert (length (take CellHeader_SIZE d) = CellHeader_SIZE) as Ht by (rewrite length_take; lia).
  destruct (serialize_fixed _ h Hwf Ht) as [out Hout]. rewrite Hout.
  pose proof (serialize_length _ _ _ Hout) as Hl. rewrite Ht in Hl.
  exists (out ++ drop CellHeader_SIZE d). split; [done|]. split.
  { rewrite length_app, length_drop. lia. }
  split.
  { rewrite drop_app_ge by lia. rewrite drop_drop. f_equal. lia. }
  by apply (deserialize_serialize (take CellHeader_SIZE d)).
Qed.

(** Decoding looks at the header bytes only. *)
Lemma try_decode_take d d' h :
  CellHeader_try_decode d = Some h -> (CellHeader_SIZE <= length d')%nat ->
  take CellHeader_SIZE d' = take CellHeader_SIZE d -> CellHeader_try_decode d' = Some h.
Proof.
  intros Hd Hlen Ht. unfold CellHeader_try_decode in *.
  destruct (deserialize_size _ _ Hd) as [Hl _].
  rewrite <-(take_drop CellHeader_SIZE d') , Ht.
  rewrite <-(take_drop CellHeader_SIZE d) in Hd.
  rewrite <-Hd. apply deserialize_prefix. rewrite length_take. lia.
Qed.

Lemma try_decode_size d h :
  CellHeader_try_decode d = Some h -> (CellHeader_SIZE <= length d)%nat.
Proof. apply deserialize_size. Qed.

Lemma try_decode_wf d h : CellHeader_try_decode d = Some h -> CellHeader_wf h.
Proof. apply deserialize_size. Qed.
End header_lemmas.

Lemma CellHeader_SIZE_eq : CellHeader_SIZE = 64%nat.
Proof. reflexivity. Qed.
#[global] Opaque CellHeader_SIZE.
