(* ===== verification/Instr.v ===== *)
(** The fixture programs' typed instruction set: [programs/fixture/src/lib.rs].

    One inductive type per enum and one record per struct of the source.  The
    wire format (Wincode) is outside the repository: [InstructionCodec] is what
    the code calls, [InstructionCodecLaws] the round trip it relies on, stated
    for values whose integers fit their width ([Instruction_wf]). *)
From S2P Require Import Prelude World Cell.

Inductive SettlementMode := Commit | Undelegate.

Record IndexedMeta := mkIndexed { im_index : Z; im_signer : bool; im_writable : bool }.

(** [IndexedMeta::resolve] *)
Definition IndexedMeta_resolve (m : IndexedMeta) (k : Pubkey) : AccountMeta :=
  mkMeta k (im_signer m) (im_writable m).

Record Refund := mkRefund { recipient : Pubkey; amount : Z }.

Record ResultCallback := mkResultCallback
  { rc_cell : Pubkey; rc_refund : option Refund; rc_compute_units : Z }.

Record Action := mkAction
  { act_authority : Pubkey; act_instruction : SolInstruction; act_compute_units : Z;
    act_escrow_index : Z; act_callback : option ResultCallback }.

Record Intent (Cell : Type) := mkIntent
  { it_mode : SettlementMode; it_cells : list Cell;
    it_after_commit : list Action; it_after_undelegate : list Action }.
Arguments mkIntent {Cell} _ _ _ _.
Arguments it_mode {Cell} _.
Arguments it_cells {Cell} _.
Arguments it_after_commit {Cell} _.
Arguments it_after_undelegate {Cell} _.

Record Settlement := mkSettlement
  { st_payer : Z; st_context : Z; st_magic : Z; st_vault : option Z;
    st_intents : list (Intent Z); st_actions : list Action }.

Record ActionGuard := mkGuard { g_cell : Pubkey; g_owner : Pubkey }.

Inductive Operation :=
| OpSet (cells : list Z) (value : Z)
| OpAdd (cells : list Z) (change : Z)
| OpFill (cells : list Z) (seed step : Z)
| OpHash (cells : list Z) (initial : list Z) (rounds : Z)
| OpFoldHashes (cells : list Z) (salt rounds : Z)
| OpCopy (sources destinations : list Z)
| OpSumSizes (output : Z) (inputs : list Z)
| OpInspect (accounts : list Z) (hash : bool)
| OpFillBytes (account byte : Z)
| OpUndelegation (cells : list Z) (outcome : UndelegationOutcome)
| OpInvoke (program : Z) (accounts : list IndexedMeta) (data : list Z) (signers : list CellId)
| OpSettle (settlement : Settlement)
| OpTransferFromEscrow (destination system amount : Z)
| OpLog (message : string)
| OpFail (code : Z)
| OpResizeBytes (account length byte : Z).

Inductive Instruction :=
| IxCreate (id : CellId) (space : Z)
| IxDelegate (id : CellId) (validator : option Pubkey) (commit_frequency_ms : Z)
| IxResize (space : Z)
| IxExecute (nonce : Z) (operations : list Operation)
| IxAction (nonce : Z) (guard : ActionGuard) (operations : list Operation)
| IxHandleResult.

(** * Well-formedness: every integer fits the width the source gives it *)

Definition vec_wf {A} (P : A -> Prop) (l : list A) : Prop :=
  Forall P l /\ Z.of_nat (length l) < 2 ^ 64.
Definition opt_wf {A} (P : A -> Prop) (o : option A) : Prop :=
  match o with Some a => P a | None => True end.

Definition indices_wf : list Z -> Prop := vec_wf (is_u 16).
Definition bytes_wf : list Z -> Prop := vec_wf (is_u 8).
Definition CellId_wf (i : CellId) : Prop := is_u 256 (authority i) /\ is_u 64 (index i).
Definition IndexedMeta_wf (m : IndexedMeta) : Prop := is_u 16 (im_index m).
Definition Refund_wf (r : Refund) : Prop := is_u 256 (recipient r) /\ is_u 64 (amount r).
Definition ResultCallback_wf (c : ResultCallback) : Prop :=
  is_u 256 (rc_cell c) /\ opt_wf Refund_wf (rc_refund c) /\ is_u 32 (rc_compute_units c).
Definition meta_wf (m : AccountMeta) : Prop := is_u 256 (pubkey m).
Definition SolInstruction_wf (ix : SolInstruction) : Prop :=
  is_u 256 (ix_program_id ix) /\ vec_wf meta_wf (ix_accounts ix) /\ bytes_wf (ix_data ix).
Definition Action_wf (a : Action) : Prop :=
  is_u 256 (act_authority a) /\ SolInstruction_wf (act_instruction a) /\
  is_u 32 (act_compute_units a) /\ is_u 8 (act_escrow_index a) /\
  opt_wf ResultCallback_wf (act_callback a).
Definition Intent_wf (i : Intent Z) : Prop :=
  indices_wf (it_cells i) /\ vec_wf Action_wf (it_after_commit i) /\
  vec_wf Action_wf (it_after_undelegate i).
Definition Settlement_wf (s : Settlement) : Prop :=
  is_u 16 (st_payer s) /\ is_u 16 (st_context s) /\ is_u 16 (st_magic s) /\
  opt_wf (is_u 16) (st_vault s) /\ vec_wf Intent_wf (st_intents s) /\
  vec_wf Action_wf (st_actions s).

Definition Operation_wf (op : Operation) : Prop :=
  match op with
  | OpSet cells value => indices_wf cells /\ is_u 64 value
  | OpAdd cells change => indices_wf cells /\ is_i64 change
  | OpFill cells seed step => indices_wf cells /\ is_u 64 seed /\ is_u 64 step
  | OpHash cells initial rounds =>
      indices_wf cells /\ (Forall (is_u 8) initial /\ length initial = 32%nat) /\ is_u 32 rounds
  | OpFoldHashes cells salt rounds => indices_wf cells /\ is_u 64 salt /\ is_u 32 rounds
  | OpCopy sources destinations => indices_wf sources /\ indices_wf destinations
  | OpSumSizes output inputs => is_u 16 output /\ indices_wf inputs
  | OpInspect accounts _ => indices_wf accounts
  | OpFillBytes account byte => is_u 16 account /\ is_u 8 byte
  | OpUndelegation cells _ => indices_wf cells
  | OpInvoke program accounts data signers =>
      is_u 16 program /\ vec_wf IndexedMeta_wf accounts /\ bytes_wf data /\
      vec_wf CellId_wf signers
  | OpSettle s => Settlement_wf s
  | OpTransferFromEscrow destination system amount =>
      is_u 16 destination /\ is_u 16 system /\ is_u 64 amount
  | OpLog message => Z.of_nat (String.length message) < 2 ^ 64
  | OpFail code => is_u 32 code
  | OpResizeBytes account length byte => is_u 16 account /\ is_u 32 length /\ is_u 8 byte
  end.

Definition Instruction_wf (i : Instruction) : Prop :=
  match i with
  | IxCreate id space => CellId_wf id /\ is_u 32 space
  | IxDelegate id validator freq => CellId_wf id /\ opt_wf (is_u 256) validator /\ is_u 32 freq
  | IxResize space => is_u 32 space
  | IxExecute nonce ops => is_u 64 nonce /\ vec_wf Operation_wf ops
  | IxAction nonce g ops =>
      is_u 64 nonce /\ (is_u 256 (g_cell g) /\ is_u 256 (g_owner g)) /\ vec_wf Operation_wf ops
  | IxHandleResult => True
  end.

(** * The wire format *)

Class InstructionCodec := {
  (** [<Instruction as SchemaRead>::get]: the instruction and what is left. *)
  instruction_get : list Z -> option (Instruction * list Z);
  (** [wincode::serialize(&instruction)] *)
  instruction_serialize : Instruction -> list Z;
  (** [wincode::serialize(effect)] and [wincode::deserialize_exact] *)
  callback_serialize : ResultCallback -> option (list Z);
  callback_deserialize : list Z -> option ResultCallback;
  (** [bincode::deserialize::<MagicResponse>]: the [ok] flag and the payload. *)
  magic_response : list Z -> option (bool * list Z);
}.

(** [slice::strip_prefix] *)
Fixpoint strip_prefix (pre l : list Z) : option (list Z) :=
  match pre, l with
  | [], _ => Some l
  | p :: pre, x :: l => if p =? x then strip_prefix pre l else None
  | _ :: _, [] => None
  end.

Class InstructionCodecLaws (R : Runtime) (C : InstructionCodec) : Prop := {
  get_serialize : forall i rest, Instruction_wf i ->
    instruction_get (instruction_serialize i ++ rest) = Some (i, rest);
  (** The leading tag byte of an instruction is not the discriminator's. *)
  serialize_not_undelegate : forall i rest, Instruction_wf i ->
    strip_prefix external_undelegate_discriminator (instruction_serialize i ++ rest) = None;
  callback_round : forall c bs, ResultCallback_wf c ->
    callback_serialize c = Some bs -> callback_deserialize bs = Some c;
}.

(** [Instruction::into_data] *)
Definition Instruction_into_data `{InstructionCodec} (i : Instruction) : list Z :=
  instruction_serialize i.
