(* ===== verification/Settlement.v ===== *)
(** Settlement: [programs/fixture/src/execute/settlement.rs].

    [invoke] turns a [Settlement] operation into calls on the SDK's intent
    builder; [handle_result] consumes the callback the Magic program sends when
    a deferred action finished.  The SDK is outside the repository, so its
    builder is the record [IntentSdk] of the operations the code uses. *)
From S2P Require Import Prelude World Cell Instr.

Record CallHandler := mkHandler
  { ch_data : list Z; ch_escrow_index : Z; ch_compute_units : Z;
    ch_escrow_authority : AccountInfo; ch_destination_program : Pubkey;
    ch_accounts : list (Pubkey * bool) }.

Record ActionCallback := mkActionCallback
  { ac_destination_program : Pubkey; ac_discriminator : list Z; ac_payload : list Z;
    ac_compute_units : Z; ac_accounts : list (Pubkey * bool) }.

Class IntentSdk := {
  Bundle : Type;
  BundleNext : Type;
  CommitB : Type;
  CommitNext : Type;
  CauB : Type;
  CauNext : Type;
  bundle_new : AccountInfo -> AccountInfo -> AccountInfo -> Bundle;
  magic_fee_vault : Bundle -> AccountInfo -> Bundle;
  bundle_commit : Bundle -> list AccountInfo -> CommitB;
  commit_and_undelegate : Bundle -> list AccountInfo -> CauB;
  add_standalone_action : Bundle -> CallHandler -> BundleNext;
  bundle_then : BundleNext -> ActionCallback -> BundleNext;
  bundle_fold : BundleNext -> Bundle;
  commit_post_action : CommitB -> CallHandler -> CommitNext;
  commit_then : CommitNext -> ActionCallback -> CommitNext;
  fold_commit_builder : CommitNext -> CommitB;
  commit_fold : CommitB -> Bundle;
  cau_post_commit_action : CauB -> CallHandler -> CauNext;
  cau_post_undelegate_action : CauB -> CallHandler -> CauNext;
  cau_then : CauNext -> ActionCallback -> CauNext;
  fold_cau_builder : CauNext -> CauB;
  cau_fold : CauB -> Bundle;
  build_and_invoke : Bundle -> M unit;
}.

(** [execute::info]: resolves an account index of the instruction. *)
Definition info (accounts : list AccountInfo) (i : Z) : Result AccountInfo ProgramError :=
  ok_or (accounts !! Z.to_nat i) NotEnoughAccountKeys.

(** [ShortAccountMeta]: the address and whether it is writable. *)
Definition short_meta (m : AccountMeta) : Pubkey * bool := (pubkey m, meta_writable m).

Section settlement.
Context `{R : Runtime, C : InstructionCodec, K : IntentSdk}.

Definition handler (accounts : list AccountInfo) (a : Action) : Result CallHandler ProgramError :=
  let? auth := ok_or (find_first (fun x => key x =? act_authority a) accounts)
                 NotEnoughAccountKeys in
  Ok (mkHandler (ix_data (act_instruction a)) (act_escrow_index a) (act_compute_units a)
        auth (ix_program_id (act_instruction a))
        (short_meta <$> ix_accounts (act_instruction a))).

Definition callback (program_id : Pubkey) (effect : ResultCallback)
  : Result ActionCallback ProgramError :=
  let accounts :=
    [meta_new_readonly callback_signer false; meta_new (rc_cell effect) false] ++
    match rc_refund effect with
    | Some refund => [meta_new (recipient refund) false]
    | None => []
    end in
  let? payload := ok_or (callback_serialize effect) InvalidInstructionData in
  Ok (mkActionCallback program_id (Instruction_into_data IxHandleResult) payload
        (rc_compute_units effect) (short_meta <$> accounts)).

(** [if let Some(effect) = &action.callback { next = next.then(...)? }] *)
Definition then_callback {Next} (thn : Next -> ActionCallback -> Next) (program_id : Pubkey)
    (a : Action) (next : Next) : Result Next ProgramError :=
  match act_callback a with
  | Some effect => let? cb := callback program_id effect in Ok (thn next cb)
  | None => Ok next
  end.

Definition add_post_commit (program_id : Pubkey) (accounts : list AccountInfo)
    (a : Action) (c : CommitB) : Result CommitB ProgramError :=
  let? h := handler accounts a in
  let? next := then_callback commit_then program_id a (commit_post_action c h) in
  Ok (fold_commit_builder next).

Definition add_post_commit_cau (program_id : Pubkey) (accounts : list AccountInfo)
    (a : Action) (c : CauB) : Result CauB ProgramError :=
  let? h := handler accounts a in
  let? next := then_callback cau_then program_id a (cau_post_commit_action c h) in
  Ok (fold_cau_builder next).

Definition add_post_undelegate_cau (program_id : Pubkey) (accounts : list AccountInfo)
    (a : Action) (c : CauB) : Result CauB ProgramError :=
  let? h := handler accounts a in
  let? next := then_callback cau_then program_id a (cau_post_undelegate_action c h) in
  Ok (fold_cau_builder next).

(** [for action in actions { acc = f(action, acc)?; }] *)
Fixpoint fold_actions {A B} (f : A -> B -> Result B ProgramError) (l : list A) (b : B)
  : Result B ProgramError :=
  match l with
  | [] => Ok b
  | a :: l => let? b' := f a b in fold_actions f l b'
  end.

Definition add_commit (program_id : Pubkey) (accounts : list AccountInfo)
    (builder : Bundle) (intent : Intent Z) : Result Bundle ProgramError :=
  let? cells := collect_results (info accounts) (it_cells intent) in
  let? c := fold_actions (add_post_commit program_id accounts) (it_after_commit intent)
              (bundle_commit builder cells) in
  Ok (commit_fold c).

Definition after_undelegation (program_id : Pubkey) (accounts : list AccountInfo)
    (commit : CauB) (actions : list Action) : Result Bundle ProgramError :=
  let? c := fold_actions (add_post_undelegate_cau program_id accounts) actions commit in
  Ok (cau_fold c).

Definition add_undelegation (program_id : Pubkey) (accounts : list AccountInfo)
    (builder : Bundle) (intent : Intent Z) : Result Bundle ProgramError :=
  let? cells := collect_results (info accounts) (it_cells intent) in
  let? c := fold_actions (add_post_commit_cau program_id accounts) (it_after_commit intent)
              (commit_and_undelegate builder cells) in
  after_undelegation program_id accounts c (it_after_undelegate intent).

Definition add_action (program_id : Pubkey) (accounts : list AccountInfo)
    (builder : Bundle) (a : Action) : Result Bundle ProgramError :=
  let? h := handler accounts a in
  let? next := then_callback bundle_then program_id a (add_standalone_action builder h) in
  Ok (bundle_fold next).

Definition add_intent (program_id : Pubkey) (accounts : list AccountInfo)
    (intent : Intent Z) (builder : Bundle) : Result Bundle ProgramError :=
  match it_mode intent with
  | Commit => add_commit program_id accounts builder intent
  | Undelegate => add_undelegation program_id accounts builder intent
  end.

(** [settlement::invoke] up to [send]. *)
Definition build_bundle (program_id : Pubkey) (accounts : list AccountInfo)
    (s : Settlement) : Result Bundle ProgramError :=
  let? payer := info accounts (st_payer s) in
  let? context := info accounts (st_context s) in
  let? magic := info accounts (st_magic s) in
  let builder := bundle_new payer context magic in
  let? builder := match st_vault s with
                  | Some i => let? vault := info accounts i in Ok (magic_fee_vault builder vault)
                  | None => Ok builder
                  end in
  let? builder := fold_actions (add_intent program_id accounts) (st_intents s) builder in
  fold_actions (fun a b => add_action program_id accounts b a) (st_actions s) builder.

Definition settlement_invoke (program_id : Pubkey) (accounts : list AccountInfo)
    (s : Settlement) : M unit :=
  builder ← lift (build_bundle program_id accounts s);
  build_and_invoke builder.
End settlement.
