(* ===== verification/RefCodec.v ===== *)
(** Reference instances of the interfaces to code outside the repository.

    They serve the witnesses: with them every hypothesis the theorems place on
    the runtime, the SDK and the wire formats is satisfied by concrete,
    executable functions.  The codecs are the fixed-width little-endian layout
    that the layout constants of the fixture crate describe; the hash is a
    stand-in with 32-byte digests. *)
From S2P Require Import Prelude World Cell Instr Settlement.

(** * Codecs with a round trip *)

Record codec (A : Type) := mkCodec {
  put : A -> list Z;
  get : list Z -> option (A * list Z);
  wf : A -> Prop;
  get_put : forall a rest, wf a -> get (put a ++ rest) = Some (a, rest);
}.
Arguments mkCodec {A} _ _ _ _.
Arguments put {A} _ _.
Arguments get {A} _ _.
Arguments wf {A} _ _.
Arguments get_put {A} _ _ _ _.

Lemma le_get_put n z rest :
  0 <= z < 256 ^ Z.of_nat n ->
  (if (n <=? length (le_bytes n z ++ rest))%nat
   then Some (le_val (take n (le_bytes n z ++ rest)), drop n (le_bytes n z ++ rest)) else None)
  = Some (z, rest).
Proof.
  intros Hz. rewrite length_app, length_le_bytes.
  rewrite (proj2 (Nat.leb_le n (n + length rest))) by lia.
  rewrite take_app_le, drop_app_ge by (rewrite length_le_bytes; lia).
  rewrite take_ge, length_le_bytes, Nat.sub_diag by (rewrite length_le_bytes; lia).
  by rewrite le_val_bytes.
Qed.

Definition uint (n : nat) : codec Z := mkCodec (le_bytes n)
  (fun bs => if (n <=? length bs)%nat then Some (le_val (take n bs), drop n bs) else None)
  (fun z => 0 <= z < 256 ^ Z.of_nat n) (le_get_put n).

Definition int64 : codec Z.
Proof.
  refine (mkCodec
  (fun z => put (uint 8) (z + 2 ^ 63))
  (fun bs => '(z, r) ← get (uint 8) bs; Some (z - 2 ^ 63, r))
  is_i64 _).
  intros z rest Hz. rewrite get_put by (unfold is_i64 in Hz; simpl; lia). simpl.
  do 2 f_equal. lia.
Defined.

Definition pair_c {A B} (a : codec A) (b : codec B) : codec (A * B).
Proof.
  refine (mkCodec
  (fun p => put a p.1 ++ put b p.2)
  (fun bs => '(x, r) ← get a bs; '(y, r) ← get b r; Some ((x, y), r))
  (fun p => wf a p.1 /\ wf b p.2) _).
  intros [x y] rest [Hx Hy]. simpl in *.
  rewrite <-app_assoc, get_put by done. simpl. by rewrite get_put.
Defined.

(** A codec for [B] from one for [A] along an isomorphism. *)
Definition iso_c {A B} (f : A -> B) (g : B -> A) (Hfg : forall b, f (g b) = b)
    (a : codec A) : codec B.
Proof.
  refine (mkCodec
  (fun b => put a (g b))
  (fun bs => '(x, r) ← get a bs; Some (f x, r))
  (fun b => wf a (g b)) _).
  intros b rest Hb. simpl. rewrite get_put by done. simpl. by rewrite Hfg.
Defined.

Definition bool_c : codec bool.
Proof.
  refine (mkCodec
  (fun b : bool => [if b then 1 else 0])
  (fun bs => match bs with t :: r => Some (negb (t =? 0), r) | [] => None end)
  (fun _ => True) _).
  by intros [] rest _.
Defined.

Definition option_c {A} (a : codec A) : codec (option A).
Proof.
  refine (mkCodec
  (fun o => match o with Some x => 1 :: put a x | None => [0] end)
  (fun bs => match bs with
             | t :: r => if t =? 0 then Some (None, r)
                         else '(x, r) ← get a r; Some (Some x, r)
             | [] => None end)
  (opt_wf (wf a)) _).
  intros [x|] rest Hx; simpl in *; [by rewrite get_put|done].
Defined.

Fixpoint get_n {A} (a : codec A) (n : nat) (bs : list Z) : option (list A * list Z) :=
  match n with
  | O => Some ([], bs)
  | S n => '(x, r) ← get a bs; '(xs, r) ← get_n a n r; Some (x :: xs, r)
  end.

Lemma get_n_put {A} (a : codec A) l rest :
  Forall (wf a) l -> get_n a (length l) (concat (put a <$> l) ++ rest) = Some (l, rest).
Proof.
  induction 1 as [|x l Hx _ IH]; [done|].
  rewrite fmap_cons. cbn [length get_n concat].
  rewrite <-app_assoc, get_put by done. cbn [mbind option_bind]. by rewrite IH.
Qed.

(** A vector: its length as eight bytes, then the elements. *)
Definition vec_c {A} (a : codec A) : codec (list A).
Proof.
  refine (mkCodec
  (fun l => put (uint 8) (Z.of_nat (length l)) ++ concat (put a <$> l))
  (fun bs => '(n, r) ← get (uint 8) bs; get_n a (Z.to_nat n) r)
  (vec_wf (wf a)) _).
  intros l rest [Hl Hn]. rewrite <-app_assoc, get_put by (simpl; lia). simpl.
  rewrite Nat2Z.id. by apply get_n_put.
Defined.

(** A fixed-size array. *)
Definition array_c {A} (a : codec A) (n : nat) : codec (list A).
Proof.
  refine (mkCodec
  (fun l => concat (put a <$> l))
  (fun bs => get_n a n bs)
  (fun l => Forall (wf a) l /\ length l = n) _).
  intros l rest [Hl <-]. by apply get_n_put.
Defined.

(** * The fixture's types *)

Definition u8_c := uint 1.
Definition u16_c := uint 2.
Definition u32_c := uint 4.
Definition u64_c := uint 8.
Definition pubkey_c := uint 32.

Definition indices_c : codec (list Z) := vec_c u16_c.
Definition bytes_c : codec (list Z) := vec_c u8_c.

Definition cellid_c : codec CellId :=
  iso_c (fun p => mkCellId p.1 p.2) (fun i => (authority i, index i))
    ltac:(by intros []) (pair_c pubkey_c u64_c).

Definition indexed_c : codec IndexedMeta :=
  iso_c (fun p => mkIndexed p.1 p.2.1 p.2.2) (fun m => (im_index m, (im_signer m, im_writable m)))
    ltac:(by intros []) (pair_c u16_c (pair_c bool_c bool_c)).

Definition refund_c : codec Refund :=
  iso_c (fun p => mkRefund p.1 p.2) (fun r => (recipient r, amount r))
    ltac:(by intros []) (pair_c pubkey_c u64_c).

Definition rescallback_c : codec ResultCallback :=
  iso_c (fun p => mkResultCallback p.1 p.2.1 p.2.2)
    (fun c => (rc_cell c, (rc_refund c, rc_compute_units c)))
    ltac:(by intros []) (pair_c pubkey_c (pair_c (option_c refund_c) u32_c)).

Definition meta_c : codec AccountMeta :=
  iso_c (fun p => mkMeta p.1 p.2.1 p.2.2) (fun m => (pubkey m, (meta_signer m, meta_writable m)))
    ltac:(by intros []) (pair_c pubkey_c (pair_c bool_c bool_c)).

Definition solix_c : codec SolInstruction :=
  iso_c (fun p => mkIx p.1 p.2.1 p.2.2) (fun i => (ix_program_id i, (ix_accounts i, ix_data i)))
    ltac:(by intros []) (pair_c pubkey_c (pair_c (vec_c meta_c) bytes_c)).

Definition action_c : codec Action :=
  iso_c (fun p => mkAction p.1 p.2.1 p.2.2.1 p.2.2.2.1 p.2.2.2.2)
    (fun a => (act_authority a, (act_instruction a,
               (act_compute_units a, (act_escrow_index a, act_callback a)))))
    ltac:(by intros [])
    (pair_c pubkey_c (pair_c solix_c (pair_c u32_c (pair_c u8_c (option_c rescallback_c))))).

Definition mode_c : codec SettlementMode :=
  iso_c (fun b : bool => if b then Undelegate else Commit)
    (fun m => match m with Undelegate => true | Commit => false end)
    ltac:(by intros []) bool_c.

Definition outcome_c : codec UndelegationOutcome :=
  iso_c (fun b : bool => if b then Reject else Accept)
    (fun m => match m with Reject => true | Accept => false end)
    ltac:(by intros []) bool_c.

Definition intent_c : codec (Intent Z) :=
  iso_c (fun p => mkIntent p.1 p.2.1 p.2.2.1 p.2.2.2)
    (fun i => (it_mode i, (it_cells i, (it_after_commit i, it_after_undelegate i))))
    ltac:(by intros [])
    (pair_c mode_c (pair_c indices_c (pair_c (vec_c action_c) (vec_c action_c)))).

Definition settlement_c : codec Settlement :=
  iso_c (fun p => mkSettlement p.1 p.2.1 p.2.2.1 p.2.2.2.1 p.2.2.2.2.1 p.2.2.2.2.2)
    (fun s => (st_payer s, (st_context s, (st_magic s, (st_vault s, (st_intents s, st_actions s))))))
    ltac:(by intros [])
    (pair_c u16_c (pair_c u16_c (pair_c u16_c (pair_c (option_c u16_c)
      (pair_c (vec_c intent_c) (vec_c action_c)))))).

Definition guard_c : codec ActionGuard :=
  iso_c (fun p => mkGuard p.1 p.2) (fun g => (g_cell g, g_owner g))
    ltac:(by intros []) (pair_c pubkey_c pubkey_c).

(** Strings as their bytes. *)
Definition string_to_bytes (s : string) : list Z :=
  (fun c => Z.of_N (Ascii.N_of_ascii c)) <$> String.list_ascii_of_string s.
Definition bytes_to_string (l : list Z) : string :=
  String.string_of_list_ascii ((fun b => Ascii.ascii_of_N (Z.to_N b)) <$> l).

Lemma bytes_to_string_to_bytes s : bytes_to_string (string_to_bytes s) = s.
Proof.
  unfold bytes_to_string, string_to_bytes. rewrite <-list_fmap_compose.
  rewrite <-(String.string_of_list_ascii_of_string s) at 2. f_equal.
  rewrite <-(list_fmap_id (String.list_ascii_of_string s)) at 2.
  apply list_fmap_ext. intros _ c _. unfold compose. rewrite N2Z.id.
  apply Ascii.ascii_N_embedding.
Qed.

Lemma string_to_bytes_wf s :
  Z.of_nat (String.length s) < 2 ^ 64 -> wf bytes_c (string_to_bytes s).
Proof.
  intros Hs. split.
  - apply Forall_fmap, Forall_true. intros c. simpl.
    pose proof (Ascii.N_ascii_bounded c). lia.
  - unfold string_to_bytes. rewrite length_fmap.
    assert (length (String.list_ascii_of_string s) = String.length s) as ->; [|done].
    clear Hs. induction s; simpl; congruence.
Qed.

Definition string_c : codec string :=
  iso_c bytes_to_string string_to_bytes bytes_to_string_to_bytes bytes_c.

(** One tag byte per variant, in the order the source declares them. *)
Definition op_put (op : Operation) : list Z :=
  match op with
  | OpSet c v => 0 :: put (pair_c indices_c u64_c) (c, v)
  | OpAdd c d => 1 :: put (pair_c indices_c int64) (c, d)
  | OpFill c s t => 2 :: put (pair_c indices_c (pair_c u64_c u64_c)) (c, (s, t))
  | OpHash c i r => 3 :: put (pair_c indices_c (pair_c (array_c u8_c 32) u32_c)) (c, (i, r))
  | OpFoldHashes c s r => 4 :: put (pair_c indices_c (pair_c u64_c u32_c)) (c, (s, r))
  | OpCopy s d => 5 :: put (pair_c indices_c indices_c) (s, d)
  | OpSumSizes o i => 6 :: put (pair_c u16_c indices_c) (o, i)
  | OpInspect a h => 7 :: put (pair_c indices_c bool_c) (a, h)
  | OpFillBytes a b => 8 :: put (pair_c u16_c u8_c) (a, b)
  | OpUndelegation c o => 9 :: put (pair_c indices_c outcome_c) (c, o)
  | OpInvoke p a d s => 10 :: put (pair_c u16_c (pair_c (vec_c indexed_c)
                                (pair_c bytes_c (vec_c cellid_c)))) (p, (a, (d, s)))
  | OpSettle s => 11 :: put settlement_c s
  | OpTransferFromEscrow d s a => 12 :: put (pair_c u16_c (pair_c u16_c u64_c)) (d, (s, a))
  | OpLog m => 13 :: put string_c m
  | OpFail c => 14 :: put u32_c c
  | OpResizeBytes a l b => 15 :: put (pair_c u16_c (pair_c u32_c u8_c)) (a, (l, b))
  end.

Definition tagged {A B} (c : codec A) (f : A -> B) (bs : list Z) : option (B * list Z) :=
  '(x, r) ← get c bs; Some (f x, r).

Definition op_get (bs : list Z) : option (Operation * list Z) :=
  match bs with
  | [] => None
  | 0 :: r => tagged (pair_c indices_c u64_c) (fun p => OpSet p.1 p.2) r
  | 1 :: r => tagged (pair_c indices_c int64) (fun p => OpAdd p.1 p.2) r
  | 2 :: r => tagged (pair_c indices_c (pair_c u64_c u64_c)) (fun p => OpFill p.1 p.2.1 p.2.2) r
  | 3 :: r => tagged (pair_c indices_c (pair_c (array_c u8_c 32) u32_c))
                (fun p => OpHash p.1 p.2.1 p.2.2) r
  | 4 :: r => tagged (pair_c indices_c (pair_c u64_c u32_c))
                (fun p => OpFoldHashes p.1 p.2.1 p.2.2) r
  | 5 :: r => tagged (pair_c indices_c indices_c) (fun p => OpCopy p.1 p.2) r
  | 6 :: r => tagged (pair_c u16_c indices_c) (fun p => OpSumSizes p.1 p.2) r
  | 7 :: r => tagged (pair_c indices_c bool_c) (fun p => OpInspect p.1 p.2) r
  | 8 :: r => tagged (pair_c u16_c u8_c) (fun p => OpFillBytes p.1 p.2) r
  | 9 :: r => tagged (pair_c indices_c outcome_c) (fun p => OpUndelegation p.1 p.2) r
  | 10 :: r => tagged (pair_c u16_c (pair_c (vec_c indexed_c) (pair_c bytes_c (vec_c cellid_c))))
                 (fun p => OpInvoke p.1 p.2.1 p.2.2.1 p.2.2.2) r
  | 11 :: r => tagged settlement_c OpSettle r
  | 12 :: r => tagged (pair_c u16_c (pair_c u16_c u64_c))
                 (fun p => OpTransferFromEscrow p.1 p.2.1 p.2.2) r
  | 13 :: r => tagged string_c OpLog r
  | 14 :: r => tagged u32_c OpFail r
  | 15 :: r => tagged (pair_c u16_c (pair_c u32_c u8_c))
                 (fun p => OpResizeBytes p.1 p.2.1 p.2.2) r
  | _ :: _ => None
  end.

Lemma tagged_put {A B} (c : codec A) (f : A -> B) a rest :
  wf c a -> tagged c f (put c a ++ rest) = Some (f a, rest).
Proof. intros Ha. unfold tagged. by rewrite get_put. Qed.

Lemma Forall_wf_impl {A} (P Q : A -> Prop) l :
  (forall a, P a -> Q a) -> vec_wf P l -> vec_wf Q l.
Proof. intros HPQ [Hl Hn]. split; [by eapply Forall_impl|done]. Qed.

Lemma opt_wf_impl {A} (P Q : A -> Prop) o : (forall a, P a -> Q a) -> opt_wf P o -> opt_wf Q o.
Proof. destruct o; simpl; auto. Qed.

Lemma rescallback_wf c : ResultCallback_wf c -> wf rescallback_c c.
Proof.
  intros (? & Hr & ?). repeat split; try apply H; try apply H0; simpl.
  eapply opt_wf_impl; [|done]. intros r [? ?]. by split.
Qed.

Lemma solix_wf i : SolInstruction_wf i -> wf solix_c i.
Proof.
  intros (? & Ha & ?). split; [done|]. split; [|done]. simpl.
  eapply Forall_wf_impl; [|done]. intros m Hm. by repeat split; apply Hm.
Qed.

Lemma action_wf a : Action_wf a -> wf action_c a.
Proof.
  intros (? & ? & ? & ? & ?). split; [done|]. split; [by apply solix_wf|].
  split; [done|]. split; [done|]. simpl. eapply opt_wf_impl; [apply rescallback_wf|done].
Qed.

Lemma intent_wf i : Intent_wf i -> wf intent_c i.
Proof.
  intros (? & ? & ?). split; [done|]. split; [done|].
  by split; (eapply Forall_wf_impl; [apply action_wf|done]).
Qed.

Lemma settlement_wf s : Settlement_wf s -> wf settlement_c s.
Proof.
  intros (? & ? & ? & ? & ? & ?). split; [done|]. split; [done|]. split; [done|].
  split; [done|]. split; simpl.
  - by eapply Forall_wf_impl; [apply intent_wf|].
  - by eapply Forall_wf_impl; [apply action_wf|].
Qed.

Lemma op_get_put op rest : Operation_wf op -> op_get (op_put op ++ rest) = Some (op, rest).
Proof.
  destruct op; intros Hwf; cbn [op_put op_get app Operation_wf] in *; rewrite tagged_put; try done.
  - destruct Hwf as (? & ? & ? & ?). split; [done|]. split; [|by split].
    eapply Forall_wf_impl; [|done]. intros m Hm. by repeat split; apply Hm.
  - by apply settlement_wf.
  - by apply string_to_bytes_wf.
Qed.

Definition ops_put (ops : list Operation) : list Z :=
  put u64_c (Z.of_nat (length ops)) ++ concat (op_put <$> ops).

Fixpoint ops_get_n (n : nat) (bs : list Z) : option (list Operation * list Z) :=
  match n with
  | O => Some ([], bs)
  | S n => '(op, r) ← op_get bs; '(ops, r) ← ops_get_n n r; Some (op :: ops, r)
  end.

Definition ops_get (bs : list Z) : option (list Operation * list Z) :=
  '(n, r) ← get u64_c bs; ops_get_n (Z.to_nat n) r.

Lemma ops_get_put ops rest :
  vec_wf Operation_wf ops -> ops_get (ops_put ops ++ rest) = Some (ops, rest).
Proof.
  intros [Hops Hn]. unfold ops_get, ops_put.
  rewrite <-app_assoc, get_put by (simpl; lia). cbn [mbind option_bind]. rewrite Nat2Z.id.
  clear Hn. induction Hops as [|op ops Hop _ IH]; [done|].
  rewrite fmap_cons. cbn [length ops_get_n concat].
  rewrite <-app_assoc, op_get_put by done. cbn [mbind option_bind]. by rewrite IH.
Qed.

Definition ops_c : codec (list Operation) :=
  mkCodec ops_put ops_get (vec_wf Operation_wf) ops_get_put.

Definition ix_put (i : Instruction) : list Z :=
  match i with
  | IxCreate i s => 0 :: put (pair_c cellid_c u32_c) (i, s)
  | IxDelegate i v f => 1 :: put (pair_c cellid_c (pair_c (option_c pubkey_c) u32_c)) (i, (v, f))
  | IxResize s => 2 :: put u32_c s
  | IxExecute n ops => 3 :: put (pair_c u64_c ops_c) (n, ops)
  | IxAction n g ops => 4 :: put (pair_c u64_c (pair_c guard_c ops_c)) (n, (g, ops))
  | IxHandleResult => [5]
  end.

Definition ix_get (bs : list Z) : option (Instruction * list Z) :=
  match bs with
  | 0 :: r => tagged (pair_c cellid_c u32_c) (fun p => IxCreate p.1 p.2) r
  | 1 :: r => tagged (pair_c cellid_c (pair_c (option_c pubkey_c) u32_c))
                (fun p => IxDelegate p.1 p.2.1 p.2.2) r
  | 2 :: r => tagged u32_c IxResize r
  | 3 :: r => tagged (pair_c u64_c ops_c) (fun p => IxExecute p.1 p.2) r
  | 4 :: r => tagged (pair_c u64_c (pair_c guard_c ops_c)) (fun p => IxAction p.1 p.2.1 p.2.2) r
  | 5 :: r => Some (IxHandleResult, r)
  | _ => None
  end.

Lemma ix_get_put i rest : Instruction_wf i -> ix_get (ix_put i ++ rest) = Some (i, rest).
Proof.
  destruct i; intros Hwf; cbn [ix_put ix_get app Instruction_wf] in *;
    try (rewrite tagged_put; [done|]); done.
Qed.

(** * The runtime *)

(** A stand-in digest: 32 bytes that depend on every input byte. *)
Definition toy_hash (bs : list Z) : list Z :=
  le_bytes 32 (foldl (fun acc b => (acc * 257 + b + 1) mod 2 ^ 256) 7 bs).

Definition toy_pda (seeds : list (list Z)) (program : Pubkey) : Pubkey * Z :=
  (le_val (toy_hash (concat seeds ++ pubkey_bytes program)), 255).

#[export] Instance ref_runtime : Runtime := {|
  sha256 := toy_hash;
  find_program_address := toy_pda;
  invoke_signed _ _ _ := mret tt;
  system_transfer from to amount :=
    mkIx 0 [meta_new from true; meta_new to false] (le_bytes 4 2 ++ le_bytes 8 amount);
  system_program_id := 0;
  create_pda cell program space _ _ _ _ := fun w =>
    (Ok tt, set_account (key cell)
              (mkCell program (lamports (account w (key cell))) (replicate (Z.to_nat space) 0)) w);
  delegate_account _ _ _ := mret tt;
  delegate_account_with_any_validator _ _ _ := mret tt;
  undelegate_account _ _ _ _ _ _ := mret tt;
  rent_minimum_balance space := mret ((128 + space) * 6960);
  account_resize a n := fun w =>
    let d := data (account w (key a)) in
    if n <=? Z.of_nat (length d) + 10240
    then (Ok tt, set_data (key a) (take (Z.to_nat n) d ++
                   replicate (Z.to_nat n - length d)%nat 0) w)
    else (Err InvalidRealloc, w);
  external_undelegate_discriminator := [196; 28; 41; 206; 48; 37; 51; 167];
  decode_seeds bs := fst <$> get (vec_c bytes_c) bs;
  callback_signer := 77;
|}.

#[export] Instance ref_runtime_laws : RuntimeLaws ref_runtime.
Proof.
  split.
  - intros. apply length_le_bytes.
  - intros. apply le_bytes_bytes.
  - intros a n w w'. simpl. by destruct (n <=? _); intros [= <-].
  - intros a n w e w'. simpl. by destruct (n <=? _); intros [= <- <-].
  - intros cell program space seeds system payer prefund w w' [= <-].
    rewrite account_set_account_eq. simpl. by rewrite length_replicate.
Qed.

#[export] Instance ref_instruction_codec : InstructionCodec := {|
  instruction_get := ix_get;
  instruction_serialize := ix_put;
  callback_serialize c := Some (put rescallback_c c);
  callback_deserialize bs := '(c, r) ← get rescallback_c bs;
    if bool_decide (r = []) then Some c else None;
  magic_response bs := match bs with t :: r => Some (negb (t =? 0), r) | [] => None end;
|}.

#[export] Instance ref_instruction_laws :
  InstructionCodecLaws ref_runtime ref_instruction_codec.
Proof.
  split.
  - apply ix_get_put.
  - by intros [] rest _.
  - intros c bs Hc Hs. apply (inj Some) in Hs as <-.
    cbn [callback_deserialize ref_instruction_codec].
    pose proof (get_put rescallback_c c [] (rescallback_wf c Hc)) as Hg.
    rewrite app_nil_r in Hg. by rewrite Hg.
Qed.

(** * The cell header: 32 + 8 + 8 + 8 + 8 bytes *)

Definition header_bytes (h : CellHeader) : list Z :=
  pubkey_bytes (authority (id h)) ++ le_bytes 8 (index (id h)) ++ le_bytes 8 (value h) ++
  le_bytes 8 (revision h) ++
  le_bytes 8 (match undelegation h with Accept => 0 | Reject => 1 end).

Definition header_of_bytes (d : list Z) : option CellHeader :=
  let h u := mkHeader (mkCellId (le_val (reverse (take 32 d))) (le_val (take 8 (drop 32 d))))
               (le_val (take 8 (drop 40 d))) (le_val (take 8 (drop 48 d))) u in
  if bool_decide (Forall is_byte d) then
    match le_val (take 8 (drop 56 d)) with
    | 0 => Some (h Accept)
    | 1 => Some (h Reject)
    | _ => None
    end
  else None.

#[export] Instance ref_header_codec : HeaderCodec := {|
  header_deserialize d :=
    if (CellHeader_SIZE <=? length d)%nat then header_of_bytes (take CellHeader_SIZE d) else None;
  header_serialize_into dst h :=
    if (CellHeader_SIZE <=? length dst)%nat
    then Some (header_bytes h ++ drop CellHeader_SIZE dst) else None;
|}.

Lemma length_header_bytes h : length (header_bytes h) = 64%nat.
Proof.
  unfold header_bytes, pubkey_bytes. by rewrite !length_app, length_reverse, !length_le_bytes.
Qed.

Lemma header_bytes_bytes h : Forall is_byte (header_bytes h).
Proof.
  unfold header_bytes, pubkey_bytes. repeat apply Forall_app_2; try apply le_bytes_bytes.
  apply Forall_reverse, le_bytes_bytes.
Qed.

Lemma slice_app {A} (a b c l : list A) i n :
  l = a ++ b ++ c -> length a = i -> length b = n -> take n (drop i l) = b.
Proof. intros -> <- <-. by rewrite drop_app_length, take_app_length. Qed.

Lemma header_of_header_bytes h : CellHeader_wf h -> header_of_bytes (header_bytes h) = Some h.
Proof.
  intros (Ha & Hi & Hv & Hr). unfold header_of_bytes.
  rewrite bool_decide_eq_true_2 by apply header_bytes_bytes.
  set (pk := pubkey_bytes (authority (id h))).
  set (ix := le_bytes 8 (index (id h))).
  set (v := le_bytes 8 (value h)).
  set (r := le_bytes 8 (revision h)).
  set (u := le_bytes 8 (match undelegation h with Accept => 0 | Reject => 1 end)).
  assert (length pk = 32%nat) as Lpk.
  { subst pk. unfold pubkey_bytes. by rewrite length_reverse, length_le_bytes. }
  assert (header_bytes h = pk ++ ix ++ v ++ r ++ u) as Hh by done.
  assert (take 32 (header_bytes h) = pk) as -> by (by rewrite Hh, take_app_length').
  rewrite (slice_app pk ix (v ++ r ++ u) (header_bytes h) 32 8) by done.
  rewrite (slice_app (pk ++ ix) v (r ++ u) (header_bytes h) 40 8) by (by rewrite ?Hh, <-?app_assoc, ?length_app, ?Lpk).
  rewrite (slice_app (pk ++ ix ++ v) r u (header_bytes h) 48 8) by (by rewrite ?Hh, <-?app_assoc, ?length_app, ?Lpk).
  rewrite (slice_app (pk ++ ix ++ v ++ r) u [] (header_bytes h) 56 8)
    by (by rewrite ?Hh, ?app_nil_r, <-?app_assoc, ?length_app, ?Lpk).
  subst pk ix v r u. unfold pubkey_bytes. rewrite reverse_involutive.
  rewrite (le_val_bytes 32) by exact Ha. rewrite !(le_val_bytes_u64 (index _)), !(le_val_bytes_u64 (value _)), !(le_val_bytes_u64 (revision _)) by done.
  rewrite le_val_bytes_u64 by (by destruct (undelegation h)).
  by destruct h as [[] ? ? []].
Qed.

Lemma Forall_take_is_byte d n : Forall is_byte d -> Forall is_byte (take n d).
Proof. apply Forall_take. Qed.

Lemma header_of_bytes_wf d h :
  length d = 64%nat -> header_of_bytes d = Some h -> CellHeader_wf h.
Proof.
  intros Hl. unfold header_of_bytes. case_bool_decide as Hb; [|done].
  assert (forall i n, (i + n <= 64)%nat -> 0 <= le_val (take n (drop i d)) < 256 ^ Z.of_nat n) as Hs.
  { intros i n Hin. pose proof (le_val_bound (take n (drop i d))) as Hv.
    rewrite length_take, length_drop, Hl, Nat.min_l in Hv by lia.
    apply Hv, Forall_take, Forall_drop, Hb. }
  pose proof (le_val_bound (reverse (take 32 d))) as Hpk.
  rewrite length_reverse, length_take, Hl in Hpk.
  specialize (Hpk ltac:(apply Forall_reverse, Forall_take, Hb)).
  pose proof (Hs 32%nat 8%nat ltac:(lia)). pose proof (Hs 40%nat 8%nat ltac:(lia)).
  pose proof (Hs 48%nat 8%nat ltac:(lia)).
  destruct (le_val (take 8 (drop 56 d))) as [|[]|]; intros [= <-]; by split_and!.
Qed.

#[export] Instance ref_header_laws : HeaderCodecLaws ref_header_codec.
Proof.
  split; cbn [header_deserialize header_serialize_into ref_header_codec].
  - intros dst h _ Hl. rewrite Hl, Nat.leb_refl. eauto.
  - intros dst h out. destruct (Nat.leb_spec CellHeader_SIZE (length dst)); [|done].
    intros Hs. apply (inj Some) in Hs as <-. rewrite length_app, length_header_bytes, length_drop.
    rewrite CellHeader_SIZE_eq in *. lia.
  - intros dst h out rest Hwf Hl. rewrite Hl, Nat.leb_refl.
    intros Hs. apply (inj Some) in Hs as <-.
    rewrite drop_ge, app_nil_r, length_app, length_header_bytes by lia.
    rewrite (proj2 (Nat.leb_le _ _)) by (rewrite CellHeader_SIZE_eq; lia).
    rewrite take_app_length' by (by rewrite length_header_bytes, CellHeader_SIZE_eq).
    by apply header_of_header_bytes.
  - intros hd rest rest' Hl. rewrite !length_app, Hl.
    rewrite !(proj2 (Nat.leb_le CellHeader_SIZE _)) by lia.
    by rewrite !take_app_length' by done.
  - intros d h. destruct (Nat.leb_spec CellHeader_SIZE (length d)); [|done].
    intros Hh. split; [done|]. eapply header_of_bytes_wf; [|done].
    rewrite length_take, CellHeader_SIZE_eq in *. lia.
Qed.
