(* ===== verification/SettlementFacts.v ===== *)
(** Settlement construction: when it succeeds, and what it asks the SDK for. *)
From S2P Require Import Prelude World Cell Instr Settlement RefCodec.

(** * When a settlement can be built *)

Section resolvable.
Context `{R : Runtime, C : InstructionCodec, K : IntentSdk}.

Definition index_resolves (accounts : list AccountInfo) (i : Z) : bool :=
  (Z.to_nat i <? length accounts)%nat.

(** The escrow authority is among the accounts and the callback can be encoded. *)
Definition action_resolves (accounts : list AccountInfo) (a : Action) : bool :=
  existsb (fun x => key x =? act_authority a) accounts &&
  match act_callback a with
  | Some effect => bool_decide (is_Some (callback_serialize effect))
  | None => true
  end.

Definition intent_resolves (accounts : list AccountInfo) (i : Intent Z) : bool :=
  forallb (index_resolves accounts) (it_cells i) &&
  forallb (action_resolves accounts) (it_after_commit i) &&
  match it_mode i with
  | Commit => true
  | Undelegate => forallb (action_resolves accounts) (it_after_undelegate i)
  end.

Definition settlement_resolves (accounts : list AccountInfo) (s : Settlement) : bool :=
  index_resolves accounts (st_payer s) && index_resolves accounts (st_context s) &&
  index_resolves accounts (st_magic s) &&
  match st_vault s with Some i => index_resolves accounts i | None => true end &&
  forallb (intent_resolves accounts) (st_intents s) &&
  forallb (action_resolves accounts) (st_actions s).

Lemma info_is_ok accounts i : is_ok (info accounts i) = index_resolves accounts i.
Proof.
  unfold info, index_resolves. destruct (accounts !! Z.to_nat i) eqn:E; simpl; symmetry.
  - apply Nat.ltb_lt. by eapply lookup_lt_Some.
  - apply Nat.ltb_ge. by apply lookup_ge_None.
Qed.

Lemma collect_is_ok {A B E} (f : A -> Result B E) l :
  is_ok (collect_results f l) = forallb (fun x => is_ok (f x)) l.
Proof.
  induction l as [|x l IH]; [done|]. simpl. destruct (f x); simpl; [|done].
  rewrite <-IH. by destruct (collect_results f l).
Qed.

Lemma fold_actions_is_ok {A B} (f : A -> B -> Result B ProgramError) (p : A -> bool) l b :
  (forall a b, is_ok (f a b) = p a) -> is_ok (fold_actions f l b) = forallb p l.
Proof.
  intros Hf. revert b. induction l as [|a l IH]; intros b; [done|].
  simpl. specialize (Hf a b). destruct (f a b); simpl in *; rewrite <-Hf; [apply IH|done].
Qed.

Lemma handler_is_ok accounts a :
  is_ok (handler accounts a) = existsb (fun x => key x =? act_authority a) accounts.
Proof.
  unfold handler. destruct (find_first _ accounts) as [x|] eqn:E; simpl; symmetry.
  - apply find_first_Some in E as [Hx Hk]. apply existsb_exists. exists x.
    split; [by apply list_elem_of_In|done].
  - rewrite find_first_None in E. apply not_true_iff_false.
    rewrite existsb_exists. intros (x & Hx & Hk). apply list_elem_of_In in Hx.
    specialize (E x Hx). congruence.
Qed.

Lemma then_callback_is_ok {Next} (thn : Next -> ActionCallback -> Next) pid a next :
  is_ok (then_callback thn pid a next) =
  match act_callback a with
  | Some effect => bool_decide (is_Some (callback_serialize effect))
  | None => true
  end.
Proof.
  unfold then_callback, callback. destruct (act_callback a) as [effect|]; [|done].
  by destruct (callback_serialize effect).
Qed.

Lemma handler_then_is_ok {B Next} (mk : CallHandler -> Next)
    (thn : Next -> ActionCallback -> Next) (fin : Next -> B) pid accounts a :
  is_ok (let? h := handler accounts a in
         let? next := then_callback thn pid a (mk h) in Ok (fin next))
  = action_resolves accounts a.
Proof.
  unfold action_resolves. rewrite <-handler_is_ok.
  destruct (handler accounts a) as [h|]; simpl; [|done].
  rewrite <-(then_callback_is_ok thn pid a (mk h)).
  by destruct (then_callback thn pid a (mk h)).
Qed.

Lemma add_intent_is_ok pid accounts i b :
  is_ok (add_intent pid accounts i b) = intent_resolves accounts i.
Proof.
  assert (is_ok (collect_results (info accounts) (it_cells i)) =
          forallb (index_resolves accounts) (it_cells i)) as Hc.
  { rewrite collect_is_ok. apply forallb_pointwise. intros. apply info_is_ok. }
  unfold add_intent, intent_resolves. destruct (it_mode i).
  - unfold add_commit.
    destruct (collect_results (info accounts) (it_cells i)) as [cs|]; simpl in *; rewrite <-Hc; [|done].
    rewrite andb_true_r.
    rewrite <-(fold_actions_is_ok (add_post_commit pid accounts) _ _ (bundle_commit b cs))
      by (intros; apply handler_then_is_ok).
    by destruct (fold_actions _ _ _).
  - unfold add_undelegation, after_undelegation.
    destruct (collect_results (info accounts) (it_cells i)) as [cs|]; simpl in *; rewrite <-Hc; [|done].
    rewrite <-(fold_actions_is_ok (add_post_commit_cau pid accounts) _ _
      (commit_and_undelegate b cs)) by (intros; apply handler_then_is_ok).
    destruct (fold_actions (add_post_commit_cau pid accounts) _ _) as [c|]; simpl; [|done].
    rewrite <-(fold_actions_is_ok (add_post_undelegate_cau pid accounts) _ _ c)
      by (intros; apply handler_then_is_ok).
    by destruct (fold_actions (add_post_undelegate_cau pid accounts) _ _).
Qed.

Lemma build_bundle_is_ok pid accounts s :
  is_ok (build_bundle pid accounts s) = settlement_resolves accounts s.
Proof.
  unfold build_bundle, settlement_resolves. rewrite <-!info_is_ok.
  destruct (info accounts (st_payer s)) as [p|]; simpl; [|done].
  destruct (info accounts (st_context s)) as [c|]; simpl; [|done].
  destruct (info accounts (st_magic s)) as [m|]; simpl; [|done].
  match goal with |- context [match st_vault s with Some i => (let? _ := _ in _) | None => _ end] =>
    set (v := match st_vault s with
              | Some i => let? vault := info accounts i in
                          Ok (magic_fee_vault (bundle_new p c m) vault)
              | None => Ok (bundle_new p c m)
              end) end.
  assert (is_ok v = match st_vault s with Some i => index_resolves accounts i | None => true end)
    as Hv.
  { subst v. destruct (st_vault s); [|done]. rewrite <-info_is_ok. by destruct (info accounts z). }
  rewrite <-Hv. destruct v as [b|]; simpl; [|done].
  rewrite <-(fold_actions_is_ok (add_intent pid accounts) _ _ b)
    by (intros; apply add_intent_is_ok).
  destruct (fold_actions (add_intent pid accounts) _ _) as [b'|]; simpl; [|done].
  apply fold_actions_is_ok. intros. apply handler_then_is_ok.
Qed.
End resolvable.

(** * A recording SDK *)

Abbreviation recorded_action := (CallHandler * option ActionCallback)%type.

Inductive recorded :=
| RecCommit (cells : list AccountInfo) (after : list recorded_action)
| RecUndelegate (cells : list AccountInfo) (after_commit after_undelegate : list recorded_action)
| RecAction (a : recorded_action).

Record RecBundle := mkRecBundle
  { rb_accounts : list AccountInfo; rb_vault : option AccountInfo; rb_items : list recorded }.

Definition rec_add (b : RecBundle) (r : recorded) : RecBundle :=
  mkRecBundle (rb_accounts b) (rb_vault b) (rb_items b ++ [r]).

#[export] Instance ref_sdk : IntentSdk := {|
  Bundle := RecBundle;
  BundleNext := RecBundle * recorded_action;
  CommitB := RecBundle * list AccountInfo * list recorded_action;
  CommitNext := RecBundle * list AccountInfo * list recorded_action * recorded_action;
  CauB := RecBundle * list AccountInfo * list recorded_action * list recorded_action;
  CauNext := RecBundle * list AccountInfo * list recorded_action * list recorded_action *
             (bool * recorded_action);
  bundle_new p c m := mkRecBundle [p; c; m] None [];
  magic_fee_vault b v := mkRecBundle (rb_accounts b) (Some v) (rb_items b);
  bundle_commit b cs := (b, cs, []);
  commit_and_undelegate b cs := (b, cs, [], []);
  add_standalone_action b h := (b, (h, None));
  bundle_then n cb := (n.1, (n.2.1, Some cb));
  bundle_fold n := rec_add n.1 (RecAction n.2);
  commit_post_action c h := (c, (h, None));
  commit_then n cb := (n.1, (n.2.1, Some cb));
  fold_commit_builder n := (n.1.1, n.1.2 ++ [n.2]);
  commit_fold c := rec_add c.1.1 (RecCommit c.1.2 c.2);
  cau_post_commit_action c h := (c, (false, (h, None)));
  cau_post_undelegate_action c h := (c, (true, (h, None)));
  cau_then n cb := (n.1, (n.2.1, (n.2.2.1, Some cb)));
  fold_cau_builder n := let '(b, cs, pc, pu, (und, a)) := n in
    if und : bool then (b, cs, pc, pu ++ [a]) else (b, cs, pc ++ [a], pu);
  cau_fold c := let '(b, cs, pc, pu) := c in rec_add b (RecUndelegate cs pc pu);
  build_and_invoke _ := mret tt;
|}.

Section recorded.
Context `{R : Runtime, C : InstructionCodec}.

(** What an action becomes: its handler, with the callback when it has one. *)
Definition record_action (pid : Pubkey) (accounts : list AccountInfo) (a : Action)
  : Result recorded_action ProgramError :=
  let? h := handler accounts a in
  match act_callback a with
  | Some effect => let? cb := callback pid effect in Ok (h, Some cb)
  | None => Ok (h, None)
  end.

Definition record_intent (pid : Pubkey) (accounts : list AccountInfo) (i : Intent Z)
  : Result recorded ProgramError :=
  let? cs := collect_results (info accounts) (it_cells i) in
  let? pc := collect_results (record_action pid accounts) (it_after_commit i) in
  match it_mode i with
  | Commit => Ok (RecCommit cs pc)
  | Undelegate =>
      let? pu := collect_results (record_action pid accounts) (it_after_undelegate i) in
      Ok (RecUndelegate cs pc pu)
  end.

(** The bundle, described instead of built step by step. *)
Definition record_settlement (pid : Pubkey) (accounts : list AccountInfo) (s : Settlement)
  : Result RecBundle ProgramError :=
  let? payer := info accounts (st_payer s) in
  let? context := info accounts (st_context s) in
  let? magic := info accounts (st_magic s) in
  let? vault := match st_vault s with
                | Some i => let? v := info accounts i in Ok (Some v)
                | None => Ok None
                end in
  let? intents := collect_results (record_intent pid accounts) (st_intents s) in
  let? actions := collect_results (record_action pid accounts) (st_actions s) in
  Ok (mkRecBundle [payer; context; magic] vault (intents ++ (RecAction <$> actions))).

(** A fold that appends one element per step collects the elements. *)
Lemma fold_collect {A B X} (f : A -> B -> Result B ProgramError)
    (g : A -> Result X ProgramError) (app : B -> list X -> B) l b :
  (forall b, app b [] = b) -> (forall b x xs, app (app b [x]) xs = app b (x :: xs)) ->
  (forall a b, f a b = let? x := g a in Ok (app b [x])) ->
  fold_actions f l b = let? xs := collect_results g l in Ok (app b xs).
Proof.
  intros H0 H1 Hf. revert b. induction l as [|a l IH]; intros b; simpl; [by rewrite H0|].
  rewrite Hf. destruct (g a) as [x|]; simpl; [|done]. rewrite IH.
  destruct (collect_results g l); simpl; [|done]. by rewrite H1.
Qed.

Lemma record_action_step {B Next} (mk : CallHandler -> Next)
    (thn : Next -> ActionCallback -> Next) (fin : Next -> B) (res : recorded_action -> B)
    pid accounts a :
  (forall h, fin (mk h) = res (h, None)) ->
  (forall h cb, fin (thn (mk h) cb) = res (h, Some cb)) ->
  (let? h := handler accounts a in
   let? next := then_callback thn pid a (mk h) in Ok (fin next))
  = let? x := record_action pid accounts a in Ok (res x).
Proof.
  intros Hn Hs. unfold record_action, then_callback.
  destruct (handler accounts a); simpl; [|done].
  destruct (act_callback a); simpl; [|by rewrite Hn].
  destruct (callback pid r); simpl; [|done]. by rewrite Hs.
Qed.

Definition rec_adds (b : RecBundle) (rs : list recorded) : RecBundle :=
  mkRecBundle (rb_accounts b) (rb_vault b) (rb_items b ++ rs).

Lemma add_intent_records pid accounts i b :
  add_intent pid accounts i b =
  let? r := record_intent pid accounts i in Ok (rec_adds b [r]).
Proof.
  unfold add_intent, record_intent. destruct (it_mode i).
  - unfold add_commit. destruct (collect_results (info accounts) _) as [cs|]; simpl; [|done].
    rewrite (fold_collect _ (record_action pid accounts)
      (fun (c : @CommitB ref_sdk) xs => (c.1, c.2 ++ xs) : @CommitB ref_sdk)).
    + destruct (collect_results _ _); simpl; by rewrite ?app_nil_l.
    + intros [? ?]. simpl. by rewrite app_nil_r.
    + intros [? ?] x xs. simpl. by rewrite <-app_assoc.
    + intros a c. by apply (record_action_step (commit_post_action c) commit_then).
  - unfold add_undelegation, after_undelegation.
    destruct (collect_results (info accounts) _) as [cs|]; simpl; [|done].
    rewrite (fold_collect _ (record_action pid accounts)
      (fun (c : @CauB ref_sdk) xs =>
         (c.1.1, c.1.2 ++ xs, c.2) : @CauB ref_sdk)).
    + destruct (collect_results _ (it_after_commit i)) as [pc|]; simpl; [|done].
      rewrite (fold_collect _ (record_action pid accounts)
        (fun (c : @CauB ref_sdk) xs => (c.1, c.2 ++ xs) : @CauB ref_sdk)).
      * destruct (collect_results _ (it_after_undelegate i)); simpl; by rewrite ?app_nil_l.
      * intros [? ?]. simpl. by rewrite app_nil_r.
      * intros [? ?] x xs. simpl. by rewrite <-app_assoc.
      * intros a [[[? ?] ?] ?]. by apply (record_action_step
          (cau_post_undelegate_action (_ : @CauB ref_sdk)) cau_then).
    + intros [[? ?] ?]. simpl. by rewrite app_nil_r.
    + intros [[? ?] ?] x xs. simpl. by rewrite <-app_assoc.
    + intros a [[[? ?] ?] ?]. by apply (record_action_step
        (cau_post_commit_action (_ : @CauB ref_sdk)) cau_then).
Qed.

Lemma rec_adds_nil b : rec_adds b [] = b.
Proof. destruct b. unfold rec_adds. simpl. by rewrite app_nil_r. Qed.

Lemma rec_adds_cons b x xs : rec_adds (rec_adds b [x]) xs = rec_adds b (x :: xs).
Proof. destruct b. unfold rec_adds. simpl. by rewrite <-app_assoc. Qed.

Lemma build_bundle_records pid accounts s :
  build_bundle pid accounts s = record_settlement pid accounts s.
Proof.
  unfold build_bundle, record_settlement.
  destruct (info accounts (st_payer s)) as [p|]; simpl; [|done].
  destruct (info accounts (st_context s)) as [c|]; simpl; [|done].
  destruct (info accounts (st_magic s)) as [m|]; simpl; [|done].
  assert (forall b : RecBundle,
    (let? b := fold_actions (add_intent pid accounts) (st_intents s) b in
     fold_actions (fun a b => add_action pid accounts b a) (st_actions s) b) =
    (let? intents := collect_results (record_intent pid accounts) (st_intents s) in
     let? actions := collect_results (record_action pid accounts) (st_actions s) in
     Ok (rec_adds b (intents ++ (RecAction <$> actions))))) as Hb.
  { intros b. rewrite (fold_collect _ (record_intent pid accounts) rec_adds)
      by (apply rec_adds_nil || apply rec_adds_cons || (intros; apply add_intent_records)).
    destruct (collect_results (record_intent pid accounts) _) as [its|]; simpl; [|done].
    rewrite (fold_collect _ (record_action pid accounts)
      (fun b xs => rec_adds b (RecAction <$> xs))).
    - destruct (collect_results (record_action pid accounts) _); simpl; [|done].
      unfold rec_adds. simpl. by rewrite <-app_assoc.
    - intros. apply rec_adds_nil.
    - intros. apply rec_adds_cons.
    - intros a b'. by apply (record_action_step
        (@add_standalone_action ref_sdk b') bundle_then). }
  destruct (st_vault s) as [v|]; simpl; [|apply Hb].
  destruct (info accounts v); simpl; [apply Hb|done].
Qed.
End recorded.
