(* ===== verification/Execute.v ===== *)
(** The fixture executor: [programs/fixture/src/execute/mod.rs], with
    [handle_result] of [execute/settlement.rs], which calls back into it. *)
From S2P Require Import Prelude World Cell Instr Settlement.

Section execute.
Context `{R : Runtime, H : HeaderCodec, C : InstructionCodec, K : IntentSdk}.

(** [CellHeader::try_decode(..).map_err(|_| InvalidAccountData)] *)
Definition decode_cell (d : list Z) : Result CellHeader ProgramError :=
  ok_or (CellHeader_try_decode d) InvalidAccountData.

(** [update]: the closure sees the header and the payload; the payload it
    leaves is in the account even when the revision then overflows. *)
Definition update (a : AccountInfo)
    (f : CellHeader -> list Z -> Result (CellHeader * list Z) ProgramError) : M unit :=
  d ← try_borrow_mut_data a;
  cell ← lift (decode_cell d);
  payload ← lift (CellHeader_payload d);
  '(cell, payload) ← lift (f cell payload);
  let d := take CellHeader_SIZE d ++ payload in
  store_data a d;;
  rev ← lift (ok_or (checked_add64 (revision cell) 1) ArithmeticOverflow);
  d ← lift (CellHeader_write (mkHeader (id cell) (value cell) rev (undelegation cell)) d);
  store_data a d.

Definition set_value (v : Z) (cell : CellHeader) (payload : list Z)
  : Result (CellHeader * list Z) ProgramError :=
  Ok (mkHeader (id cell) v (revision cell) (undelegation cell), payload).

Definition add_value (change : Z) (cell : CellHeader) (payload : list Z)
  : Result (CellHeader * list Z) ProgramError :=
  let? v := ok_or (checked_add_signed64 (value cell) change) ArithmeticOverflow in
  Ok (mkHeader (id cell) v (revision cell) (undelegation cell), payload).

Definition set_outcome (o : UndelegationOutcome) (cell : CellHeader) (payload : list Z)
  : Result (CellHeader * list Z) ProgramError :=
  Ok (mkHeader (id cell) (value cell) (revision cell) o, payload).

Definition set_payload (g : list Z -> Result (list Z) ProgramError)
    (cell : CellHeader) (payload : list Z) : Result (CellHeader * list Z) ProgramError :=
  let? payload := g payload in Ok (cell, payload).

Definition adjust (a : AccountInfo) (change : Z) : M unit := update a (add_value change).

Definition each (accounts : list AccountInfo) (cells : list Z)
    (f : AccountInfo -> M unit) : M unit :=
  for_each (fun i => a ← lift (info accounts i); f a) cells.

(** The closure of [write_payload]: the bytes must fit. *)
Definition put_bytes (bytes payload : list Z) : Result (list Z) ProgramError :=
  if (length bytes <=? length payload)%nat then Ok (write_prefix bytes payload)
  else Err AccountDataTooSmall.

Definition write_payload (a : AccountInfo) (bytes : list Z) : M unit :=
  update a (set_payload (put_bytes bytes)).

(** [payload[..len].copy_from_slice(&source[..len])], [len] the shorter length. *)
Definition copy_bytes (source payload : list Z) : list Z :=
  let len := Nat.min (length source) (length payload) in
  write_prefix (take len source) payload.

(** The body of [Operation::FoldHashes]'s collecting closure. *)
Definition read_hash (accounts : list AccountInfo) (i : Z) : M (list Z) :=
  a ← lift (info accounts i);
  d ← try_borrow_data a;
  payload ← lift (CellHeader_payload d);
  lift (if (HashState_SIZE <=? length payload)%nat then Ok (take HashState_SIZE payload)
        else Err AccountDataTooSmall).

(** One destination of [Operation::Copy]: the source stays borrowed while the
    destination is updated, so the same account is handled apart. *)
Definition copy_one (accounts : list AccountInfo) (sources : list Z)
    (position : nat) (destination : Z) : M unit :=
  match sources !! (position mod length sources)%nat with
  | None => fail NotEnoughAccountKeys
  | Some s =>
      source ← lift (info accounts s);
      destination ← lift (info accounts destination);
      if key source =? key destination
      then update destination (fun cell payload => Ok (cell, payload))
      else holding_data source (fun d =>
             source ← lift (CellHeader_payload d);
             update destination (set_payload (fun payload => Ok (copy_bytes source payload))))
  end.

(** [sum += data_len as u64] over the inputs. *)
Fixpoint sum_sizes (accounts : list AccountInfo) (inputs : list Z) (sum : Z) : M Z :=
  match inputs with
  | [] => mret sum
  | i :: inputs =>
      a ← lift (info accounts i);
      len ← data_len a;
      sum_sizes accounts inputs (sum + len)
  end.

Definition inspect (hash : bool) (a : AccountInfo) : M unit :=
  o ← get_owner a;
  len ← data_len a;
  lams ← get_lamports a;
  if hash then d ← try_borrow_data a; msg (LogObservation o len lams (Some (sha256 d)))
  else msg (LogObservation o len lams None).

Definition fill_bytes (a : AccountInfo) (byte : Z) : M unit :=
  d ← try_borrow_mut_data a;
  store_data a (replicate (length d) byte).

Definition resize_bytes (a : AccountInfo) (len byte : Z) : M unit :=
  account_resize a len;;
  d ← try_borrow_mut_data a;
  match d with
  | [] => mret tt
  | _ :: rest => store_data a (byte :: rest)
  end.

(** The signer seeds of [Operation::Invoke]. *)
Definition signer_seeds (program_id : Pubkey) (i : CellId) : list (list Z) :=
  CellId_seeds i ++ [[(CellId_pda i program_id).2]].

Definition invoke_operation (program_id : Pubkey) (accounts : list AccountInfo)
    (program : Z) (metas : list IndexedMeta) (data : list Z) (signers : list CellId) : M unit :=
  program ← lift (info accounts program);
  resolved ← lift (collect_results (fun m =>
               let? a := info accounts (im_index m) in
               Ok (IndexedMeta_resolve m (key a))) metas);
  infos ← lift (collect_results (fun m => info accounts (im_index m)) metas);
  invoke_signed (mkIx (key program) resolved data) (infos ++ [program])
    (signer_seeds program_id <$> signers).

Definition transfer_from_escrow (accounts : list AccountInfo)
    (destination system amount : Z) : M unit :=
  escrow ← lift (ok_or (last accounts) NotEnoughAccountKeys);
  if is_signer escrow then
    destination ← lift (info accounts destination);
    system ← lift (info accounts system);
    invoke (system_transfer (key escrow) (key destination) amount) [escrow; destination; system]
  else fail MissingRequiredSignature.

(** [destinations.iter().enumerate()] of [Operation::Copy]. *)
Fixpoint copy_all (accounts : list AccountInfo) (sources : list Z)
    (position : nat) (destinations : list Z) : M unit :=
  match destinations with
  | [] => mret tt
  | d :: ds => copy_one accounts sources position d ;;
               copy_all accounts sources (S position) ds
  end.

Definition apply (program_id : Pubkey) (accounts : list AccountInfo) (op : Operation) : M unit :=
  match op with
  | OpSet cells v => each accounts cells (fun a => update a (set_value v))
  | OpAdd cells change => each accounts cells (fun a => adjust a change)
  | OpFill cells seed step => each accounts cells (fun a =>
      update a (set_payload (fun payload => Ok (CellHeader_fill payload seed step))))
  | OpHash cells initial rounds =>
      let hash := HashState_chain initial rounds in
      each accounts cells (fun a => write_payload a hash)
  | OpFoldHashes cells salt rounds =>
      hashes ← mapM_ (read_hash accounts) cells;
      let hash := HashState_fold salt hashes rounds in
      each accounts cells (fun a => write_payload a hash)
  | OpCopy sources destinations =>
      match sources with
      | [] => fail NotEnoughAccountKeys
      | _ :: _ => copy_all accounts sources O destinations
      end
  | OpSumSizes output inputs =>
      sum ← sum_sizes accounts inputs 0;
      a ← lift (info accounts output);
      write_payload a (le_bytes 8 sum)
  | OpInspect indices hash => each accounts indices (inspect hash)
  | OpFillBytes a byte => a ← lift (info accounts a); fill_bytes a byte
  | OpUndelegation cells outcome => each accounts cells (fun a => update a (set_outcome outcome))
  | OpInvoke program metas data signers =>
      invoke_operation program_id accounts program metas data signers
  | OpSettle s => settlement_invoke program_id accounts s
  | OpTransferFromEscrow destination system amount =>
      transfer_from_escrow accounts destination system amount
  | OpResizeBytes a len byte => a ← lift (info accounts a); resize_bytes a len byte
  | OpLog message => msg (LogMessage message)
  | OpFail code => fail (Custom code)
  end.

(** [run]: the operations in order, the failing step logged. *)
Fixpoint run_from (program_id : Pubkey) (accounts : list AccountInfo) (step : nat)
    (ops : list Operation) : M unit :=
  match ops with
  | [] => mret tt
  | op :: ops => fun w =>
      match apply program_id accounts op w with
      | (Ok _, w') => run_from program_id accounts (S step) ops w'
      | (Err e, w') => (Err e, (msg (LogStepFailed step e) w').2)
      end
  end.

Definition run (program_id : Pubkey) (accounts : list AccountInfo) (ops : list Operation)
  : M unit := run_from program_id accounts O ops.

Definition create (program_id : Pubkey) (accounts : list AccountInfo) (i : CellId) (space : Z)
  : M unit :=
  match accounts with
  | [payer; auth; cell; system] =>
      if negb (is_signer auth) || negb (key auth =? authority i) then fail MissingRequiredSignature
      else if space <? Z.of_nat CellHeader_SIZE then fail AccountDataTooSmall
      else
        let (pda, bump) := CellId_pda i program_id in
        if negb (key cell =? pda) then fail InvalidSeeds
        else
          create_pda cell program_id space [CellId_seeds i ++ [[bump]]] system payer true;;
          d ← try_borrow_mut_data cell;
          d ← lift (CellHeader_write (CellHeader_new i) d);
          store_data cell d
  | _ => fail NotEnoughAccountKeys
  end.

Definition delegate (program_id : Pubkey) (accounts : list AccountInfo) (i : CellId)
    (config : DelegateConfig) : M unit :=
  match accounts with
  | [payer; pda; owner_program; buffer; delegation_record; delegation_metadata;
     delegation_program; system_program; auth] =>
      if negb (key auth =? authority i) || negb (is_signer auth) then fail MissingRequiredSignature
      else if negb (key pda =? (CellId_pda i program_id).1) then fail InvalidSeeds
      else
        d ← try_borrow_data pda;
        cell ← lift (decode_cell d);
        if negb (bool_decide (id cell = i)) then fail InvalidSeeds
        else
          let delegate :=
            if bool_decide (dc_validator config = Some system_program_id)
            then delegate_account_with_any_validator else delegate_account in
          delegate (mkDelegateAccounts payer pda owner_program buffer delegation_record
                      delegation_metadata delegation_program system_program)
                   (CellId_seeds i) config
  | _ => fail NotEnoughAccountKeys
  end.

Definition resize (program_id : Pubkey) (accounts : list AccountInfo) (space : Z) : M unit :=
  match accounts with
  | [payer; cell; system] =>
      if negb (is_signer payer) then fail MissingRequiredSignature
      else if space <? Z.of_nat CellHeader_SIZE then fail AccountDataTooSmall
      else
        d ← try_borrow_data cell;
        state ← lift (decode_cell d);
        if negb (key cell =? (CellId_pda (id state) program_id).1) then fail InvalidSeeds
        else
          required ← rent_minimum_balance space;
          lams ← get_lamports cell;
          (if lams <? required
           then invoke (system_transfer (key payer) (key cell) (required - lams))
                  [payer; cell; system]
           else mret tt);;
          account_resize cell space;;
          update cell (fun c payload => Ok (c, payload))
  | _ => fail NotEnoughAccountKeys
  end.

Definition undelegate (program_id : Pubkey) (accounts : list AccountInfo) (data : list Z)
  : M unit :=
  match accounts with
  | cell :: buffer :: payer :: system :: _ =>
      seeds ← lift (ok_or (decode_seeds data) InvalidInstructionData);
      undelegate_account cell program_id buffer payer system seeds;;
      d ← try_borrow_data cell;
      state ← lift (decode_cell d);
      if bool_decide (undelegation state = Reject) then fail (Custom 111) else mret tt
  | _ => fail NotEnoughAccountKeys
  end.

(** [if !response.ok() { if let Some(refund) = effect.refund { .. } }] *)
Definition apply_refund (ok : bool) (effect : ResultCallback) (cell : AccountInfo)
    (remaining : list AccountInfo) : M unit :=
  if ok then mret tt
  else
    match rc_refund effect with
    | None => mret tt
    | Some refund =>
        match remaining with
        | [rcpt] =>
            if negb (key rcpt =? recipient refund) then fail InvalidArgument
            else
              cell_lams ← get_lamports cell;
              debit ← lift (ok_or (checked_sub64 cell_lams (amount refund)) InsufficientFunds);
              rcpt_lams ← get_lamports rcpt;
              credit ← lift (ok_or (checked_add64 rcpt_lams (amount refund)) ArithmeticOverflow);
              put_lamports cell debit;;
              put_lamports rcpt credit
        | _ => fail NotEnoughAccountKeys
        end
    end.

Definition handle_result (accounts : list AccountInfo) (data : list Z) : M unit :=
  match accounts with
  | signer :: cell :: remaining =>
      if negb (key signer =? callback_signer) || negb (is_signer signer)
      then fail MissingRequiredSignature
      else
        '(ok, payload) ← lift (ok_or (magic_response data) InvalidInstructionData);
        effect ← lift (ok_or (callback_deserialize payload) InvalidInstructionData);
        if negb (key cell =? rc_cell effect) then fail InvalidArgument
        else
          apply_refund ok effect cell remaining;;
          adjust cell (Z.b2z (negb ok))
  | _ => fail NotEnoughAccountKeys
  end.

(** [let [.., source, _, escrow] = accounts] *)
Definition action_tail (accounts : list AccountInfo) : option (AccountInfo * AccountInfo) :=
  match reverse accounts with
  | escrow :: _ :: source :: _ => Some (source, escrow)
  | _ => None
  end.

Definition run_action (program_id : Pubkey) (accounts : list AccountInfo) (guard : ActionGuard)
    (ops : list Operation) : M unit :=
  match action_tail accounts with
  | None => fail NotEnoughAccountKeys
  | Some (source, escrow) =>
      if negb (key source =? program_id) then fail IncorrectProgramId
      else if negb (is_signer escrow) then fail MissingRequiredSignature
      else
        cell ← lift (ok_or (find_first (fun a => key a =? g_cell guard) accounts)
                       NotEnoughAccountKeys);
        o ← get_owner cell;
        if negb (o =? g_owner guard) then fail InvalidAccountOwner
        else run program_id accounts ops
  end.

Definition is_handle_result (i : Instruction) : bool :=
  match i with IxHandleResult => true | _ => false end.

Definition process (program_id : Pubkey) (accounts : list AccountInfo) (data : list Z) : M unit :=
  match strip_prefix external_undelegate_discriminator data with
  | Some data => undelegate program_id accounts data
  | None =>
      match instruction_get data with
      | None => msg LogInvalidInstruction;; fail InvalidInstructionData
      | Some (instruction, remaining) =>
          if negb (bool_decide (remaining = [])) && negb (is_handle_result instruction)
          then fail InvalidInstructionData
          else
            match instruction with
            | IxCreate i space => create program_id accounts i space
            | IxDelegate i validator freq =>
                delegate program_id accounts i (mkDelegateConfig validator freq)
            | IxResize space => resize program_id accounts space
            | IxExecute _ ops => run program_id accounts ops
            | IxAction _ guard ops => run_action program_id accounts guard ops
            | IxHandleResult => handle_result accounts remaining
            end
      end
  end.
End execute.
