(* ===== verification/CellSpec.v ===== *)
(** An abstract specification of the cell operations, and the proof that the
    executor implements it.

    The specification forgets bytes, borrows and account indices: a cell is a
    header with a payload, the state maps addresses to cells, and an operation
    is a partial function on that state.  [apply_refines] shows that whenever
    the specification defines an outcome, the executor reaches it on every
    world that represents the abstract state, and touches nothing else. *)
From S2P Require Import Prelude World Cell Instr Settlement Execute.

(** * The specification *)

Abbreviation Abs := (gmap Pubkey (CellHeader * list Z)).

Definition bump (h : CellHeader) : CellHeader :=
  mkHeader (id h) (value h) (revision h + 1) (undelegation h).

Definition abs_update (g : CellHeader -> list Z -> option (CellHeader * list Z))
    (k : Pubkey) (σ : Abs) : option Abs :=
  '(h, p) ← σ !! k;
  '(h', p') ← g h p;
  if bool_decide (revision h' < u64_max) then Some (<[k := (bump h', p')]> σ) else None.

Fixpoint abs_each (keys : list Pubkey) (cells : list Z)
    (f : Pubkey -> Abs -> option Abs) (σ : Abs) : option Abs :=
  match cells with
  | [] => Some σ
  | i :: cells => k ← keys !! Z.to_nat i; σ' ← f k σ; abs_each keys cells f σ'
  end.

Definition with_value (v : Z) (h : CellHeader) : CellHeader :=
  mkHeader (id h) v (revision h) (undelegation h).
Definition with_outcome (o : UndelegationOutcome) (h : CellHeader) : CellHeader :=
  mkHeader (id h) (value h) (revision h) o.

(** Byte [j] of a filled payload is byte [j mod 8] of word [j / 8]. *)
Definition fill_byte (seed step : Z) (j : nat) : Z :=
  default 0 (fill_word seed step (Z.of_nat (j / 8)) !! (j mod 8)%nat).
Definition filled (seed step : Z) (p : list Z) : list Z := imap (fun j _ => fill_byte seed step j) p.

(** The payload with its first bytes replaced, when they fit. *)
Definition overwritten (bytes p : list Z) : option (list Z) :=
  if bool_decide (length bytes <= length p)%nat then Some (bytes ++ drop (length bytes) p)
  else None.

(** The common prefix of the source copied over the destination. *)
Definition copied (src dst : list Z) : list Z :=
  take (length dst) src ++ drop (length src) dst.

Section spec.
Context `{R : Runtime}.

Definition abs_hash (keys : list Pubkey) (σ : Abs) (i : Z) : option (list Z) :=
  k ← keys !! Z.to_nat i;
  '(_, p) ← σ !! k;
  if bool_decide (32 <= length p)%nat then Some (take 32 p) else None.

Fixpoint abs_copy (keys : list Pubkey) (sources : list Z) (position : nat)
    (destinations : list Z) (σ : Abs) : option Abs :=
  match destinations with
  | [] => Some σ
  | d :: ds =>
      s ← sources !! (position mod length sources)%nat;
      ks ← keys !! Z.to_nat s;
      kd ← keys !! Z.to_nat d;
      '(_, src) ← σ !! ks;
      σ' ← abs_update (fun h p => Some (h, copied src p)) kd σ;
      abs_copy keys sources (S position) ds σ'
  end.

Definition abs_size (keys : list Pubkey) (σ : Abs) (i : Z) : option Z :=
  k ← keys !! Z.to_nat i;
  '(_, p) ← σ !! k;
  Some (Z.of_nat (CellHeader_SIZE + length p)).

Definition abs_write (keys : list Pubkey) (cells : list Z) (bytes : list Z) (σ : Abs)
  : option Abs :=
  abs_each keys cells (abs_update (fun h p => p' ← overwritten bytes p; Some (h, p'))) σ.

Definition abs_apply (keys : list Pubkey) (op : Operation) (σ : Abs) : option Abs :=
  match op with
  | OpSet cells v =>
      abs_each keys cells (abs_update (fun h p => Some (with_value v h, p))) σ
  | OpAdd cells change =>
      abs_each keys cells (abs_update (fun h p =>
        if bool_decide (0 <= value h + change < u64_bound)
        then Some (with_value (value h + change) h, p) else None)) σ
  | OpFill cells seed step =>
      abs_each keys cells (abs_update (fun h p => Some (h, filled seed step p))) σ
  | OpHash cells initial rounds =>
      abs_write keys cells (HashState_chain initial rounds) σ
  | OpFoldHashes cells salt rounds =>
      hashes ← mapM (abs_hash keys σ) cells;
      abs_write keys cells (HashState_fold salt hashes rounds) σ
  | OpCopy sources destinations =>
      match sources with
      | [] => None
      | _ :: _ => abs_copy keys sources O destinations σ
      end
  | OpSumSizes output inputs =>
      sizes ← mapM (abs_size keys σ) inputs;
      abs_write keys [output] (le_bytes 8 (sum_Z sizes)) σ
  | OpUndelegation cells o =>
      abs_each keys cells (abs_update (fun h p => Some (with_outcome o h, p))) σ
  | OpLog _ => Some σ
  | _ => None
  end.

Fixpoint abs_run (keys : list Pubkey) (ops : list Operation) (σ : Abs) : option Abs :=
  match ops with
  | [] => Some σ
  | op :: ops => σ' ← abs_apply keys op σ; abs_run keys ops σ'
  end.
End spec.

(** * Representation *)

Section refinement.
Context `{R : Runtime, !RuntimeLaws R, HC : HeaderCodec, !HeaderCodecLaws HC}.
Context `{C : InstructionCodec, K : IntentSdk}.

(** What an account's data says about its cell. *)
Definition cell_of (d : list Z) : option (CellHeader * list Z) :=
  h ← CellHeader_try_decode d; Some (h, drop CellHeader_SIZE d).

Definition represents (σ : Abs) (w : World) : Prop :=
  forall k c, σ !! k = Some c -> cell_of (data (account w k)) = Some c.

(** Owners, balances, borrows and foreign accounts stay. *)
Definition framed (σ : Abs) (w w' : World) : Prop :=
  borrowed w' = borrowed w /\
  (forall k, owner (account w' k) = owner (account w k) /\
             lamports (account w' k) = lamports (account w k)) /\
  (forall k, σ !! k = None -> account w' k = account w k).

Lemma cell_of_Some d h p :
  cell_of d = Some (h, p) <-> CellHeader_try_decode d = Some h /\ p = drop CellHeader_SIZE d.
Proof.
  unfold cell_of. destruct (CellHeader_try_decode d) as [h0|]; simpl; [|naive_solver].
  split; [by intros [= -> <-]|by intros [[= ->] ->]].
Qed.

Lemma framed_refl σ w : framed σ w w.
Proof. unfold framed. naive_solver. Qed.

Lemma framed_trans σ σ' w1 w2 w3 :
  dom σ' = dom σ -> framed σ w1 w2 -> framed σ' w2 w3 -> framed σ w1 w3.
Proof.
  intros Hd (B1 & O1 & F1) (B2 & O2 & F2). repeat split.
  - congruence.
  - rewrite (proj1 (O2 k)). apply O1.
  - rewrite (proj2 (O2 k)). apply O1.
  - intros k Hk. rewrite F2; [by apply F1|].
    apply not_elem_of_dom. rewrite Hd. by apply not_elem_of_dom.
Qed.

(** ** One update *)

Lemma try_borrow_mut_free a w :
  key a ∉ borrowed w -> try_borrow_mut_data a w = (Ok (data (account w (key a))), w).
Proof. intros Hb. unfold try_borrow_mut_data. by rewrite bool_decide_eq_false_2. Qed.

Lemma update_Ok a f w h p h' p' :
  key a ∉ borrowed w ->
  cell_of (data (account w (key a))) = Some (h, p) ->
  f h p = Ok (h', p') ->
  revision h' < u64_max -> CellHeader_wf h' ->
  exists d', update a f w = (Ok tt, set_data (key a) d' w) /\ cell_of d' = Some (bump h', p').
Proof.
  intros Hb [Hd ->]%cell_of_Some Hf Hrev Hwf.
  set (d := data (account w (key a))) in *.
  pose proof (try_decode_size _ _ Hd) as Hlen.
  assert (length (take CellHeader_SIZE d) = CellHeader_SIZE) as Ht by (rewrite length_take; lia).
  assert (CellHeader_wf (bump h')) as Hwf'.
  { destruct Hwf as (?&?&?&?). unfold is_u in *. repeat split; simpl; try tauto;
      unfold u64_max, u64_bound in Hrev; lia. }
  destruct (CellHeader_write_Ok (bump h') (take CellHeader_SIZE d ++ p')) as (d' & Hw & _ & Hp & Hdec).
  { done. }
  { rewrite length_app. lia. }
  exists d'. split.
  - unfold update. rewrite (bind_run_Ok _ _ _ _ _ (try_borrow_mut_free a w Hb)). fold d.
    unfold decode_cell. rewrite Hd. mrun. rewrite CellHeader_payload_Ok by lia. mrun.
    rewrite Hf. mrun. unfold checked_add64.
    rewrite (proj2 (Z.ltb_lt (revision h' + 1) u64_bound)) by (unfold u64_max in Hrev; lia).
    mrun. fold (bump h'). rewrite Hw. mrun. by autorewrite with world.
  - rewrite cell_of_Some. split; [done|]. rewrite Hp.
    rewrite drop_app_ge by lia. by rewrite Ht, Nat.sub_diag.
Qed.

(** [m] takes a world for [σ] to a world for [σ'] and frames the rest. *)
Definition reaches (m : M unit) (w : World) (σ σ' : Abs) : Prop :=
  exists w', m w = (Ok tt, w') /\ represents σ' w' /\ framed σ w w' /\ dom σ' = dom σ.

Lemma reaches_ret w σ : represents σ w -> reaches (mret tt) w σ σ.
Proof. intros. exists w. repeat split; auto. Qed.

Lemma reaches_bind (m : M unit) (k : M unit) w σ1 σ2 σ3 :
  reaches m w σ1 σ2 ->
  (forall w', represents σ2 w' -> borrowed w' = borrowed w -> reaches k w' σ2 σ3) ->
  reaches (m ;; k) w σ1 σ3.
Proof.
  intros (w1 & Hm & R1 & F1 & D1) Hk.
  destruct (Hk w1 R1 (proj1 F1)) as (w2 & Hk2 & R2 & F2 & D2).
  exists w2. split; [by rewrite (bind_run_Ok _ _ _ _ _ Hm)|].
  split; [done|]. split; [by eapply framed_trans|congruence].
Qed.

(** The closure [f] of the code does what the specification's [g] says. *)
Definition implements (f : CellHeader -> list Z -> Result (CellHeader * list Z) ProgramError)
    (g : CellHeader -> list Z -> option (CellHeader * list Z)) : Prop :=
  forall h p h' p', CellHeader_wf h -> g h p = Some (h', p') ->
    f h p = Ok (h', p') /\ CellHeader_wf h'.

Lemma represents_insert σ w k d c :
  represents σ w -> cell_of d = Some c -> represents (<[k := c]> σ) (set_data k d w).
Proof.
  intros Hr Hd k' c'. destruct (decide (k = k')) as [->|Hne].
  - rewrite lookup_insert_eq. intros [= <-]. by autorewrite with world.
  - rewrite lookup_insert_ne by done. rewrite account_set_data_ne by done. apply Hr.
Qed.

Lemma update_reaches a f g w σ σ' :
  represents σ w -> key a ∉ borrowed w -> implements f g ->
  abs_update g (key a) σ = Some σ' -> reaches (update a f) w σ σ'.
Proof.
  intros Hr Hb Hi Hu. unfold abs_update in Hu.
  apply bind_Some in Hu as ([h p] & Hl & Hu).
  apply bind_Some in Hu as ([h' p'] & Hg & Hu). case_bool_decide; simplify_eq.
  pose proof (Hr _ _ Hl) as Hc.
  destruct (Hi h p h' p') as [Hf Hwf]; [|done|].
  { apply cell_of_Some in Hc as [Hc _]. by eapply try_decode_wf. }
  destruct (update_Ok a f w h p h' p') as (d' & Hup & Hd'); [done..|].
  exists (set_data (key a) d' w). split; [done|]. split; [by apply represents_insert|].
  split.
  - repeat split; try (by autorewrite with world).
    intros k Hk. apply account_set_data_ne. congruence.
  - rewrite dom_insert_L. apply elem_of_dom_2 in Hl. set_solver.
Qed.

Lemma info_lookup accounts i k :
  (key <$> accounts) !! Z.to_nat i = Some k ->
  exists a, info accounts i = Ok a /\ key a = k.
Proof.
  intros Hk. rewrite list_lookup_fmap in Hk.
  apply fmap_Some in Hk as (a & Ha & ->). exists a. unfold info. by rewrite Ha.
Qed.

Lemma each_reaches accounts cells f g w σ σ' :
  represents σ w -> borrowed w = ∅ -> implements f g ->
  abs_each (key <$> accounts) cells (abs_update g) σ = Some σ' ->
  reaches (each accounts cells (fun a => update a f)) w σ σ'.
Proof.
  intros Hr Hb Hi. revert w σ Hr Hb.
  induction cells as [|i cells IH]; intros w σ Hr Hb; cbn [abs_each].
  - intros [= <-]. by apply reaches_ret.
  - intros (k & Hk & Hu)%bind_Some. apply bind_Some in Hu as (σ1 & Hu & He).
    destruct (info_lookup _ _ _ Hk) as (a & Ha & <-).
    unfold each. cbn [for_each]. rewrite Ha.
    eapply (reaches_bind _ _ _ _ σ1).
    + eapply update_reaches; [done| |done|done]. rewrite Hb. set_solver.
    + intros w1 R1 B1. apply IH; [done|congruence|done].
Qed.

(** ** The closures *)

Lemma set_value_implements v :
  is_u 64 v -> implements (set_value v) (fun h p => Some (with_value v h, p)).
Proof. intros Hv h p h' p' (?&?&?&?) [= <- <-]. by split. Qed.

Lemma add_value_implements c :
  implements (add_value c) (fun h p =>
    if bool_decide (0 <= value h + c < u64_bound)
    then Some (with_value (value h + c) h, p) else None).
Proof.
  intros h p h' p' (?&?&?&?). case_bool_decide as Hb; [|done]. intros [= <- <-].
  unfold add_value, checked_add_signed64.
  rewrite (proj2 (Z.leb_le _ _) (proj1 Hb)), (proj2 (Z.ltb_lt _ _) (proj2 Hb)). by split.
Qed.

Lemma set_outcome_implements o :
  implements (set_outcome o) (fun h p => Some (with_outcome o h, p)).
Proof. intros h p h' p' (?&?&?&?) [= <- <-]. by split. Qed.

Lemma set_payload_implements f g :
  (forall p p', g p = Some p' -> f p = Ok p') ->
  implements (set_payload f) (fun h p => p' ← g p; Some (h, p')).
Proof.
  intros Hfg h p h' p' Hwf (q & Hq & [= <- <-])%bind_Some.
  unfold set_payload. by rewrite (Hfg _ _ Hq).
Qed.

Lemma fill_filled seed step p : CellHeader_fill p seed step = filled seed step p.
Proof.
  apply list_eq. intros j. unfold filled. rewrite list_lookup_imap.
  destruct (decide (j < length p)%nat) as [Hj|Hj].
  - rewrite CellHeader_fill_lookup by done.
    destruct (lookup_lt_is_Some_2 p j Hj) as [x Hx].
    destruct (lookup_lt_is_Some_2 (fill_word seed step (Z.of_nat (j / 8))) (j mod 8)) as [y Hy].
    { rewrite length_fill_word. by apply Nat.mod_upper_bound. }
    rewrite Hx, Hy. cbv [fmap option_fmap option_map fill_byte]. by rewrite Hy.
  - rewrite !(lookup_ge_None_2 _ j) by (rewrite ?length_CellHeader_fill; lia). done.
Qed.

Lemma put_bytes_overwritten bytes p p' :
  overwritten bytes p = Some p' -> put_bytes bytes p = Ok p'.
Proof.
  unfold overwritten, put_bytes. case_bool_decide as Hb; [|done]. intros [= <-].
  by rewrite (proj2 (Nat.leb_le _ _) Hb).
Qed.

Lemma copy_bytes_copied src p : copy_bytes src p = copied src p.
Proof.
  unfold copy_bytes, copied, write_prefix.
  destruct (decide (length src <= length p)%nat) as [Hle|Hgt].
  - rewrite Nat.min_l, (take_ge src (length src)), (take_ge src (length p)) by lia. done.
  - rewrite Nat.min_r by lia. rewrite length_take, Nat.min_l by lia.
    by rewrite !drop_ge by lia.
Qed.

Lemma copied_self p : copied p p = p.
Proof. unfold copied. rewrite take_ge, drop_ge by lia. apply app_nil_r. Qed.

(** ** Copying, with the source borrowed *)

Lemma holding_reaches a body w σ σ' :
  reaches (body (data (account w (key a))))
    (mkWorld (cells w) ({[key a]} ∪ borrowed w) (logs w)) σ σ' ->
  reaches (holding_data a body) w σ σ'.
Proof.
  intros (w' & Hb & Hr & (B & O & F) & D). unfold reaches, holding_data.
  rewrite Hb. eexists. split; [done|]. split; [exact Hr|]. split; [|done].
  repeat split; [apply (O k)|apply (O k)|]. intros k Hk. exact (F k Hk).
Qed.

Lemma copy_one_reaches accounts sources position d w σ σ' s ks kd hs src :
  represents σ w -> borrowed w = ∅ ->
  sources !! (position mod length sources)%nat = Some s ->
  (key <$> accounts) !! Z.to_nat s = Some ks ->
  (key <$> accounts) !! Z.to_nat d = Some kd ->
  σ !! ks = Some (hs, src) ->
  abs_update (fun h p => Some (h, copied src p)) kd σ = Some σ' ->
  reaches (copy_one accounts sources position d) w σ σ'.
Proof.
  intros Hr Hb Hs Hks Hkd Hσ Hu.
  destruct (info_lookup _ _ _ Hks) as (a & Ha & <-).
  destruct (info_lookup _ _ _ Hkd) as (b & Hbb & <-).
  unfold copy_one. rewrite Hs, Ha, Hbb. unfold mbind, M_bind, lift.
  destruct (key a =? key b) eqn:E; bools.
  - rewrite E in Hσ.
    eapply (update_reaches b _ (fun h p => if bool_decide (p = src) then Some (h, p) else None)).
    + done.
    + rewrite Hb. set_solver.
    + intros h p h' p' Hwf. case_bool_decide; [|done]. by intros [= <- <-].
    + revert Hu. unfold abs_update. rewrite Hσ. simpl.
      rewrite (bool_decide_eq_true_2 (src = src)) by done. by rewrite copied_self.
  - apply holding_reaches.
    pose proof (Hr _ _ Hσ) as Hc. apply cell_of_Some in Hc as [Hdec ->].
    rewrite CellHeader_payload_Ok by (by eapply try_decode_size).
    eapply (update_reaches b _
      (fun h p => p' ← Some (copied (drop CellHeader_SIZE (data (account w (key a)))) p);
                  Some (h, p'))).
    + exact Hr.
    + simpl. rewrite Hb. set_solver.
    + apply set_payload_implements. intros p p' [= <-]. by rewrite copy_bytes_copied.
    + exact Hu.
Qed.

Lemma copy_all_reaches accounts sources position ds w σ σ' :
  represents σ w -> borrowed w = ∅ ->
  abs_copy (key <$> accounts) sources position ds σ = Some σ' ->
  reaches (copy_all accounts sources position ds) w σ σ'.
Proof.
  revert position w σ. induction ds as [|d ds IH]; intros position w σ Hr Hb; cbn [abs_copy].
  - intros [= <-]. by apply reaches_ret.
  - intros (s & Hs & Hc)%bind_Some. apply bind_Some in Hc as (ks & Hks & Hc).
    apply bind_Some in Hc as (kd & Hkd & Hc). apply bind_Some in Hc as ([hs src] & Hσ & Hc).
    apply bind_Some in Hc as (σ1 & Hu & Hc).
    cbn [copy_all]. eapply (reaches_bind _ _ _ _ σ1).
    + by eapply copy_one_reaches.
    + intros w1 R1 B1. apply IH; [done|congruence|done].
Qed.

(** ** Reading *)

Lemma read_hash_spec accounts w σ i x :
  represents σ w -> abs_hash (key <$> accounts) σ i = Some x ->
  read_hash accounts i w = (Ok x, w).
Proof.
  intros Hr (k & Hk & Hh)%bind_Some. apply bind_Some in Hh as ([h p] & Hσ & Hh).
  case_bool_decide as Hlen; [|done]. injection Hh as <-.
  destruct (info_lookup _ _ _ Hk) as (a & Ha & <-).
  pose proof (Hr _ _ Hσ) as Hc. apply cell_of_Some in Hc as [Hdec ->].
  unfold read_hash. rewrite Ha. unfold mbind, M_bind, lift, try_borrow_data.
  rewrite CellHeader_payload_Ok by (by eapply try_decode_size).
  by rewrite (proj2 (Nat.leb_le HashState_SIZE _) Hlen).
Qed.

Lemma mapM_pure {A B} (f : A -> M B) (g : A -> option B) w l xs :
  (forall a b, g a = Some b -> f a w = (Ok b, w)) ->
  mapM g l = Some xs -> mapM_ f l w = (Ok xs, w).
Proof.
  intros Hfg. revert xs. induction l as [|a l IH]; intros xs; cbn [mapM mapM_].
  - by intros [= <-].
  - intros (b & Hb & Hl)%bind_Some. apply bind_Some in Hl as (bs & Hbs & [= <-]).
    rewrite (bind_run_Ok _ _ _ _ _ (Hfg _ _ Hb)).
    by rewrite (bind_run_Ok _ _ _ _ _ (IH _ Hbs)).
Qed.

Lemma sum_sizes_spec accounts w σ inputs sizes sum :
  represents σ w -> mapM (abs_size (key <$> accounts) σ) inputs = Some sizes ->
  sum_sizes accounts inputs sum w = (Ok (sum + sum_Z sizes), w).
Proof.
  intros Hr. revert sizes sum. induction inputs as [|i inputs IH]; intros sizes sum.
  - intros [= <-]. simpl. by rewrite Z.add_0_r.
  - cbn [mapM sum_sizes]. intros (n & Hn & Hl)%bind_Some.
    apply bind_Some in Hl as (ns & Hns & [= <-]).
    apply bind_Some in Hn as (k & Hk & Hn). apply bind_Some in Hn as ([h p] & Hσ & [= <-]).
    destruct (info_lookup _ _ _ Hk) as (a & Ha & <-).
    pose proof (Hr _ _ Hσ) as Hc. apply cell_of_Some in Hc as [Hdec ->].
    pose proof (try_decode_size _ _ Hdec) as Hlen.
    rewrite Ha. unfold mbind, M_bind, lift, data_len. rewrite (IH _ _ Hns).
    do 2 f_equal. unfold sum_Z. cbn [foldr]. rewrite length_drop. lia.
Qed.

(** ** Operations *)

Lemma write_payload_reaches accounts cells bytes w σ σ' :
  represents σ w -> borrowed w = ∅ ->
  abs_write (key <$> accounts) cells bytes σ = Some σ' ->
  reaches (each accounts cells (fun a => write_payload a bytes)) w σ σ'.
Proof.
  intros. unfold write_payload. eapply each_reaches; [done..|apply set_payload_implements|done].
  apply put_bytes_overwritten.
Qed.

Lemma apply_reaches program_id accounts op w σ σ' :
  represents σ w -> borrowed w = ∅ -> Operation_wf op ->
  abs_apply (key <$> accounts) op σ = Some σ' ->
  reaches (apply program_id accounts op) w σ σ'.
Proof.
  intros Hr Hb Hwf. destruct op; cbn [abs_apply apply]; try done.
  - intros Ha. eapply each_reaches; [done..|apply set_value_implements|done]. apply Hwf.
  - intros Ha. eapply each_reaches; [done..|apply add_value_implements|done].
  - intros Ha. eapply each_reaches; [done..| |exact Ha].
    intros h p h' p' Hh [= <- <-]. unfold set_payload. simpl. by rewrite fill_filled.
  - by apply write_payload_reaches.
  - intros (hashes & Hh & Ha)%bind_Some. unfold reaches.
    rewrite (bind_run_Ok _ _ w hashes w).
    + by apply write_payload_reaches.
    + eapply mapM_pure; [|done]. intros i x. by apply read_hash_spec.
  - destruct sources as [|s ss]; [done|]. by apply copy_all_reaches.
  - intros (sizes & Hs & Ha)%bind_Some. unfold reaches.
    rewrite (bind_run_Ok _ _ w (0 + sum_Z sizes) w) by (by eapply sum_sizes_spec).
    rewrite Z.add_0_l. unfold abs_write in Ha. cbn [abs_each] in Ha.
    apply bind_Some in Ha as (k & Hk & Ha). apply bind_Some in Ha as (σ1 & Hu & [= ->]).
    destruct (info_lookup _ _ _ Hk) as (a & Hia & <-).
    rewrite (bind_run_Ok _ _ w a w) by (unfold lift; by rewrite Hia).
    eapply update_reaches; [done| |apply set_payload_implements, put_bytes_overwritten|exact Hu].
    rewrite Hb. set_solver.
  - intros Ha. eapply each_reaches; [done..|apply set_outcome_implements|done].
  - intros [= <-]. exists (msg (LogMessage message) w).2. repeat split; auto.
Qed.

Lemma run_from_reaches program_id accounts ops step w σ σ' :
  represents σ w -> borrowed w = ∅ -> Forall Operation_wf ops ->
  abs_run (key <$> accounts) ops σ = Some σ' ->
  reaches (run_from program_id accounts step ops) w σ σ'.
Proof.
  revert step w σ. induction ops as [|op ops IH]; intros step w σ Hr Hb Hwf; cbn [abs_run].
  - intros [= <-]. by apply reaches_ret.
  - intros (σ1 & Ha & Hrun)%bind_Some. apply Forall_cons in Hwf as [Hop Hops].
    destruct (apply_reaches program_id accounts op w σ σ1) as (w1 & H1 & R1 & F1 & D1); [done..|].
    destruct (IH (S step) w1 σ1) as (w2 & H2 & R2 & F2 & D2);
      [done|by rewrite (proj1 F1)|done..|].
    exists w2. split; [cbn [run_from]; by rewrite H1|]. split; [done|].
    split; [by eapply framed_trans|congruence].
Qed.
End refinement.
