(* ===== verification/ExecuteFacts.v ===== *)
(** Facts of the executor beyond the refinement: what holds of every run, also
    of one that fails half way, and the behaviour of the guarded entry points. *)
From S2P Require Import Prelude World Cell Instr Settlement Execute CellSpec.

(** The operations that go through [update] or only read: everything except raw
    byte writes ([FillBytes], [ResizeBytes]) and calls into other programs. *)
Definition cell_operation (op : Operation) : bool :=
  match op with
  | OpFillBytes _ _ | OpResizeBytes _ _ _ | OpInvoke _ _ _ _ | OpSettle _
  | OpTransferFromEscrow _ _ _ => false
  | _ => true
  end.

Section invariant.
Context `{R : Runtime, !RuntimeLaws R, HC : HeaderCodec, !HeaderCodecLaws HC}.
Context `{C : InstructionCodec, K : IntentSdk}.

(** A cell keeps its identity and size, and its revision never goes back. *)
Definition cells_evolve (w w' : World) : Prop :=
  forall k h, CellHeader_try_decode (data (account w k)) = Some h ->
    exists h', CellHeader_try_decode (data (account w' k)) = Some h' /\
      id h' = id h /\ revision h <= revision h' /\
      length (data (account w' k)) = length (data (account w k)).

(** Accounts that are not cells are left alone; owners and balances never change. *)
Definition accounts_kept (w w' : World) : Prop :=
  borrowed w' = borrowed w /\
  forall k, owner (account w' k) = owner (account w k) /\
    lamports (account w' k) = lamports (account w k) /\
    (CellHeader_try_decode (data (account w k)) = None ->
     account w' k = account w k).

Definition evolves (w w' : World) : Prop := cells_evolve w w' /\ accounts_kept w w'.

#[export] Instance evolves_refl : Reflexive evolves.
Proof.
  intros w. split; [|by repeat split]. intros k h Hd. exists h. repeat split; auto. lia.
Qed.

#[export] Instance evolves_trans : Transitive evolves.
Proof.
  intros w1 w2 w3 [C1 [B1 K1]] [C2 [B2 K2]]. split; [|split; [congruence|]].
  - intros k h Hd. destruct (C1 k h Hd) as (h2 & D2 & I2 & R2 & L2).
    destruct (C2 k h2 D2) as (h3 & D3 & I3 & R3 & L3).
    exists h3. repeat split; [done|congruence|lia|congruence].
  - intros k. destruct (K1 k) as (O1 & L1 & N1), (K2 k) as (O2 & L2 & N2).
    split; [congruence|]. split; [congruence|]. intros Hn.
    rewrite N2; [by apply N1|]. by rewrite N1.
Qed.

Lemma evolves_set_data w k d d' h h' :
  data (account w k) = d -> CellHeader_try_decode d = Some h ->
  CellHeader_try_decode d' = Some h' -> id h' = id h -> revision h <= revision h' ->
  length d' = length d -> evolves w (set_data k d' w).
Proof.
  intros Hd Hh Hh' Hi Hrev Hlen. split.
  - intros k0 h0 H0. destruct (decide (k = k0)) as [<-|Hne].
    + autorewrite with world. exists h'.
      assert (h0 = h) as -> by congruence. repeat split; auto. congruence.
    + rewrite account_set_data_ne by done. exists h0. repeat split; auto. lia.
  - split; [done|]. intros k0. autorewrite with world. split; [done|]. split; [done|].
    intros Hn. apply account_set_data_ne. congruence.
Qed.

(** A closure that changes neither identity, revision nor the payload's length. *)
Definition gentle (f : CellHeader -> list Z -> Result (CellHeader * list Z) ProgramError) : Prop :=
  forall h p h' p', CellHeader_wf h -> f h p = Ok (h', p') ->
    id h' = id h /\ revision h' = revision h /\ length p' = length p /\ CellHeader_wf h'.

Lemma update_evolves a f : gentle f -> respects evolves (update a f).
Proof.
  intros Hf w. unfold update, try_borrow_mut_data, mbind, M_bind.
  case_bool_decide; [reflexivity|]. cbn.
  set (d := data (account w (key a))). unfold decode_cell, lift.
  destruct (CellHeader_try_decode d) as [h|] eqn:Hd; [|reflexivity]. cbn.
  pose proof (try_decode_size _ _ Hd) as Hlen.
  rewrite CellHeader_payload_Ok by done. cbn.
  destruct (f h (drop CellHeader_SIZE d)) as [[h' p']|] eqn:Ef; [|reflexivity]. cbn.
  destruct (Hf _ _ _ _ (try_decode_wf _ _ Hd) Ef) as (Hi & Hr & Hp & Hwf').
  set (d1 := take CellHeader_SIZE d ++ p').
  assert (length d1 = length d) as Hl1.
  { subst d1. rewrite length_app, length_take, Hp, length_drop. lia. }
  assert (CellHeader_try_decode d1 = Some h) as Hd1.
  { apply (try_decode_take d); [done|lia|]. subst d1.
    rewrite take_app_le by (rewrite length_take; lia). by rewrite take_take, Nat.min_id. }
  assert (evolves w (set_data (key a) d1 w)) as Hev.
  { eapply evolves_set_data; eauto; done. }
  unfold checked_add64. destruct (Z.ltb_spec (revision h' + 1) u64_bound) as [Hov|Hov]; [|exact Hev]. cbn.
  destruct (CellHeader_write_Ok (bump h') d1) as (d2 & Hw & Hl2 & _ & Hd2).
  { destruct Hwf' as (?&?&?&?). unfold is_u, u64_bound in *. repeat split; simpl; lia. }
  { lia. }
  fold (bump h'). rewrite Hw. cbn. rewrite set_data_set_data.
  eapply evolves_set_data; [done|exact Hd|exact Hd2|simpl; congruence|simpl; lia|by rewrite Hl2].
Qed.

Lemma gentle_set_value v : is_u 64 v -> gentle (set_value v).
Proof. intros Hv h p h' p' (?&?&?&?) [= <- <-]. unfold CellHeader_wf. by split_and!. Qed.

Lemma gentle_add_value c : gentle (add_value c).
Proof.
  intros h p h' p' (?&?&?&?). unfold add_value, checked_add_signed64.
  destruct ((0 <=? value h + c) && (value h + c <? u64_bound)) eqn:E; simpl; [|done].
  intros [= <- <-]. bools. unfold CellHeader_wf. split_and!; simpl; try done.
Qed.

Lemma gentle_set_outcome o : gentle (set_outcome o).
Proof. intros h p h' p' (?&?&?&?) [= <- <-]. unfold CellHeader_wf. by split_and!. Qed.

Lemma gentle_set_payload g :
  (forall p p', g p = Ok p' -> length p' = length p) -> gentle (set_payload g).
Proof.
  intros Hg h p h' p' Hwf. unfold set_payload. destruct (g p) eqn:E; simpl; [|done].
  intros [= <- <-]. split; [done|]. split; [done|]. split; [by apply Hg|done].
Qed.

Lemma gentle_touch : gentle (fun c p => Ok (c, p)).
Proof. intros h p h' p' Hwf [= <- <-]. by split_and!. Qed.

Lemma put_bytes_length bytes p p' : put_bytes bytes p = Ok p' -> length p' = length p.
Proof.
  unfold put_bytes. destruct (Nat.leb_spec (length bytes) (length p)); [|done].
  intros [= <-]. by apply length_write_prefix.
Qed.

Lemma copy_bytes_length src p : length (copy_bytes src p) = length p.
Proof. apply length_write_prefix. rewrite length_take. lia. Qed.

Lemma respects_holding {A} a (body : list Z -> M A) :
  (forall d, respects evolves (body d)) -> respects evolves (holding_data a body).
Proof.
  intros Hb w. unfold holding_data.
  specialize (Hb (data (account w (key a)))
    (mkWorld (cells w) ({[key a]} ∪ borrowed w) (logs w))).
  destruct (body _ _) as [r w']. simpl in *. destruct Hb as [Hc [_ Hk]].
  split; [exact Hc|]. split; [done|exact Hk].
Qed.

Lemma respects_msg l : respects evolves (msg l).
Proof.
  intros w. split; [|split; [done|done]]. intros k h Hd. exists h. repeat split; auto. lia.
Qed.

(** Reading computations do not move the world. *)
Lemma respects_read {A} (m : M A) : (forall w, (m w).2 = w) -> respects evolves m.
Proof. intros Hm w. rewrite Hm. reflexivity. Qed.

Lemma each_evolves accounts cells f :
  (forall a, respects evolves (f a)) -> respects evolves (each accounts cells f).
Proof.
  intros Hf. apply (respects_for_each _). intros i _.
  apply (respects_bind _); [by apply (respects_lift _)|done].
Qed.

Lemma mapM_read {A B} (f : A -> M B) l w :
  (forall x w, (f x w).2 = w) -> (mapM_ f l w).2 = w.
Proof.
  intros Hf. induction l as [|x l IH]; [done|]. cbn [mapM_]. unfold mbind, M_bind.
  specialize (Hf x w). destruct (f x w) as [[b|e] w1]; simpl in *; subst; [|done].
  destruct (mapM_ f l w) as [[bs|e] w2]; simpl in *; by subst.
Qed.

Lemma read_hash_read accounts i w : (read_hash accounts i w).2 = w.
Proof.
  unfold read_hash, mbind, M_bind, lift, try_borrow_data. destruct (info accounts i); simpl; [|done].
  by destruct (CellHeader_payload _).
Qed.

Lemma sum_sizes_read accounts inputs sum w : (sum_sizes accounts inputs sum w).2 = w.
Proof.
  revert sum. induction inputs as [|i inputs IH]; intros sum; [done|].
  cbn [sum_sizes]. unfold mbind, M_bind, lift, data_len.
  destruct (info accounts i); simpl; [apply IH|done].
Qed.

Lemma copy_one_evolves accounts sources position d :
  respects evolves (copy_one accounts sources position d).
Proof.
  unfold copy_one. destruct (sources !! _) as [s|]; [|by apply (respects_fail _)].
  apply (respects_bind _); [by apply (respects_lift _)|intros a].
  apply (respects_bind _); [by apply (respects_lift _)|intros b].
  destruct (key a =? key b); [apply update_evolves, gentle_touch|].
  apply respects_holding. intros dd.
  apply (respects_bind _); [by apply (respects_lift _)|intros src].
  apply update_evolves, gentle_set_payload. intros p p' [= <-]. apply copy_bytes_length.
Qed.

Lemma copy_all_evolves accounts sources position ds :
  respects evolves (copy_all accounts sources position ds).
Proof.
  revert position. induction ds as [|d ds IH]; intros position; cbn [copy_all].
  - by apply (respects_ret _).
  - apply (respects_bind _); [apply copy_one_evolves|done].
Qed.

Lemma write_payload_evolves a bytes : respects evolves (write_payload a bytes).
Proof. apply update_evolves, gentle_set_payload, put_bytes_length. Qed.

Lemma inspect_evolves hash a : respects evolves (inspect hash a).
Proof. intros w. unfold inspect, mbind, M_bind. destruct hash; apply respects_msg. Qed.

Lemma apply_evolves program_id accounts op :
  Operation_wf op -> cell_operation op = true ->
  respects evolves (apply program_id accounts op).
Proof.
  intros Hwf Hop. destruct op; try done; cbn [apply].
  - apply each_evolves. intros a. apply update_evolves, gentle_set_value, Hwf.
  - apply each_evolves. intros a. apply update_evolves, gentle_add_value.
  - apply each_evolves. intros a. apply update_evolves, gentle_set_payload.
    intros p p' [= <-]. apply length_CellHeader_fill.
  - apply each_evolves. intros a. apply write_payload_evolves.
  - apply (respects_bind _).
    + apply respects_read. intros w. apply mapM_read. intros. apply read_hash_read.
    + intros hashes. apply each_evolves. intros a. apply write_payload_evolves.
  - destruct sources; [by apply (respects_fail _)|apply copy_all_evolves].
  - apply (respects_bind _).
    + apply respects_read. intros w. apply sum_sizes_read.
    + intros sum. apply (respects_bind _); [by apply (respects_lift _)|].
      intros a. apply write_payload_evolves.
  - apply each_evolves. intros a. apply inspect_evolves.
  - apply each_evolves. intros a. apply update_evolves, gentle_set_outcome.
  - apply respects_msg.
  - by apply (respects_fail _).
Qed.

Lemma run_from_evolves program_id accounts ops step :
  Forall Operation_wf ops -> Forall (fun op => cell_operation op = true) ops ->
  respects evolves (run_from program_id accounts step ops).
Proof.
  revert step. induction ops as [|op ops IH]; intros step Hwf Hop w; cbn [run_from].
  - reflexivity.
  - apply Forall_cons in Hwf as [Hw Hwf]. apply Forall_cons in Hop as [Ho Hop].
    pose proof (apply_evolves program_id accounts op Hw Ho w) as Ha.
    destruct (apply program_id accounts op w) as [[[]|e] w1]; simpl in Ha.
    + etransitivity; [exact Ha|]. by apply IH.
    + etransitivity; [exact Ha|]. apply respects_msg.
Qed.
End invariant.
