(* ===== verification/Build.v ===== *)
(** The instruction builders: [programs/fixture/src/build.rs].

    [Batch] collects account metas and operations; an operation names accounts
    by their index in the final list, so [Batch_account] interns an address and
    merges the privileges requested for it.  Its [expect] is the only panic:
    the builders return [None] when it fires.  The SDK calls of the file are
    the record [BuildSdk]. *)
From S2P Require Import Prelude World Cell Instr.

Class BuildSdk := {
  magic_context_id : Pubkey;
  magic_program_id : Pubkey;
  (** [sdk::pda::magic_fee_vault_pda_from_validator] *)
  magic_fee_vault_pda : Pubkey -> Pubkey;
  (** [DelegateAccountMetas::from(DelegateAccounts::new(pda, owner))], in the
      order the instruction lists them. *)
  delegate_account_metas : Pubkey -> Pubkey -> list AccountMeta;
  (** [dlp_api::instruction_builder::request_undelegation] *)
  dlp_request_undelegation : Pubkey -> Pubkey -> Pubkey -> SolInstruction;
}.

Record Batch := mkBatch
  { b_program : Pubkey; b_accounts : list AccountMeta; b_operations : list Operation;
    b_nonce : Z }.

Record IntentBundle := mkIntentBundle
  { ib_payer : Pubkey; ib_validator : option Pubkey; ib_commits : list (Intent Pubkey);
    ib_actions : list Action }.

(** [Commit::new], [IntentBundle::new], [Action::new] and [Action::then] *)
Definition Commit_new (mode : SettlementMode) (cells : list Pubkey) : Intent Pubkey :=
  mkIntent mode cells [] [].
Definition IntentBundle_new (payer : Pubkey) : IntentBundle := mkIntentBundle payer None [] [].
Definition Action_new (authority : Pubkey) (ix : SolInstruction) (compute_units : Z) : Action :=
  mkAction authority ix compute_units 1 None.
Definition Action_then (a : Action) (callback : ResultCallback) : Action :=
  mkAction (act_authority a) (act_instruction a) (act_compute_units a) (act_escrow_index a)
    (Some callback).

Definition with_accounts (b : Batch) (accounts : list AccountMeta) : Batch :=
  mkBatch (b_program b) accounts (b_operations b) (b_nonce b).

(** [self.operations.push(op)] *)
Definition push (op : Operation) (b : Batch) : Batch :=
  mkBatch (b_program b) (b_accounts b) (b_operations b ++ [op]) (b_nonce b).

Definition Batch_nonce (nonce : Z) (b : Batch) : Batch :=
  mkBatch (b_program b) (b_accounts b) (b_operations b) nonce.

(** [is_signer |= ..] and [is_writable |= ..] *)
Definition merge_privileges (m entry : AccountMeta) : AccountMeta :=
  mkMeta (pubkey entry) (meta_signer entry || meta_signer m)
    (meta_writable entry || meta_writable m).

Definition Batch_account (m : AccountMeta) (b : Batch) : option (Z * Batch) :=
  match position (fun entry => pubkey entry =? pubkey m) (b_accounts b) with
  | Some i =>
      Some (Z.of_nat i mod u16_bound,
            with_accounts b (alter (merge_privileges m) i (b_accounts b)))
  | None =>
      let len := Z.of_nat (length (b_accounts b)) in
      if len <? u16_bound then Some (len, with_accounts b (b_accounts b ++ [m])) else None
  end.

(** [iter.map(|x| self.account(f(x))).collect()] *)
Fixpoint intern (metas : list AccountMeta) (b : Batch) : option (list Z * Batch) :=
  match metas with
  | [] => Some ([], b)
  | m :: metas =>
      '(i, b) ← Batch_account m b;
      '(ids, b) ← intern metas b;
      Some (i :: ids, b)
  end.

Definition Batch_cells (keys : list Pubkey) (writable : bool) (b : Batch)
  : option (list Z * Batch) :=
  intern ((fun k => mkMeta k false writable) <$> keys) b.

Definition Batch_set (cells : list Pubkey) (value : Z) (b : Batch) : option Batch :=
  '(cells, b) ← Batch_cells cells true b; Some (push (OpSet cells value) b).

Definition Batch_add (cells : list Pubkey) (change : Z) (b : Batch) : option Batch :=
  '(cells, b) ← Batch_cells cells true b; Some (push (OpAdd cells change) b).

Definition Batch_fill (cells : list Pubkey) (seed step : Z) (b : Batch) : option Batch :=
  '(cells, b) ← Batch_cells cells true b; Some (push (OpFill cells seed step) b).

Definition Batch_write (cells : list Pubkey) (value : Z) (b : Batch) : option Batch :=
  b ← Batch_set cells value b; Batch_fill cells value 0 b.

Definition Batch_hash (cells : list Pubkey) (initial : list Z) (rounds : Z) (b : Batch)
  : option Batch :=
  '(cells, b) ← Batch_cells cells true b; Some (push (OpHash cells initial rounds) b).

Definition Batch_fold_hashes (cells : list Pubkey) (salt rounds : Z) (b : Batch) : option Batch :=
  '(cells, b) ← Batch_cells cells true b; Some (push (OpFoldHashes cells salt rounds) b).

Definition Batch_copy (sources destinations : list Pubkey) (b : Batch) : option Batch :=
  '(sources, b) ← Batch_cells sources false b;
  '(destinations, b) ← Batch_cells destinations true b;
  Some (push (OpCopy sources destinations) b).

Definition Batch_sum_sizes (output : Pubkey) (inputs : list Pubkey) (b : Batch) : option Batch :=
  '(output, b) ← Batch_account (meta_new output false) b;
  '(inputs, b) ← Batch_cells inputs false b;
  Some (push (OpSumSizes output inputs) b).

Definition Batch_observations (accounts : list Pubkey) (hash : bool) (b : Batch) : option Batch :=
  '(accounts, b) ← Batch_cells accounts false b; Some (push (OpInspect accounts hash) b).
Definition Batch_inspect (accounts : list Pubkey) : Batch -> option Batch :=
  Batch_observations accounts false.
Definition Batch_observe (accounts : list Pubkey) : Batch -> option Batch :=
  Batch_observations accounts true.

Definition Batch_fill_bytes (k : Pubkey) (byte : Z) (b : Batch) : option Batch :=
  '(account, b) ← Batch_account (meta_new k false) b; Some (push (OpFillBytes account byte) b).

Definition Batch_resize_bytes (k : Pubkey) (length byte : Z) (b : Batch) : option Batch :=
  '(account, b) ← Batch_account (meta_new k false) b;
  Some (push (OpResizeBytes account length byte) b).

Definition Batch_undelegation (cells : list Pubkey) (outcome : UndelegationOutcome) (b : Batch)
  : option Batch :=
  '(cells, b) ← Batch_cells cells true b; Some (push (OpUndelegation cells outcome) b).

Definition Batch_log (message : string) (b : Batch) : Batch := push (OpLog message) b.
Definition Batch_fail (code : Z) (b : Batch) : Batch := push (OpFail code) b.

Definition Batch_require_signer (k : Pubkey) (b : Batch) : option Batch :=
  snd <$> Batch_account (meta_new_readonly k true) b.

Definition Batch_readonly (keys : list Pubkey) (b : Batch) : Batch :=
  with_accounts b ((fun m => if bool_decide (pubkey m ∈ keys)
                             then mkMeta (pubkey m) (meta_signer m) false else m)
                   <$> b_accounts b).

Definition Batch_writable (keys : list Pubkey) (b : Batch) : option Batch :=
  snd <$> Batch_cells keys true b.

Section builders.
Context `{R : Runtime, C : InstructionCodec, B : BuildSdk}.

(** The address a nested call signs for is not a signer of the outer call. *)
Definition unsigned_meta (signed : list Pubkey) (m : AccountMeta) : AccountMeta :=
  mkMeta (pubkey m) (meta_signer m && negb (bool_decide (pubkey m ∈ signed)))
    (meta_writable m).

Definition Batch_invoke_signed (ix : SolInstruction) (signers : list CellId) (b : Batch)
  : option Batch :=
  let signed := (fun i => (CellId_pda i (b_program b)).1) <$> signers in
  '(ids, b) ← intern (unsigned_meta signed <$> ix_accounts ix) b;
  let accounts := zip_with (fun i m => mkIndexed i (meta_signer m) (meta_writable m))
                    ids (ix_accounts ix) in
  '(program, b) ← Batch_account (meta_new_readonly (ix_program_id ix) false) b;
  Some (push (OpInvoke program accounts (ix_data ix) signers) b).

Definition Batch_invoke (ix : SolInstruction) : Batch -> option Batch :=
  Batch_invoke_signed ix [].

Definition Batch_transfer_from_escrow (destination : Pubkey) (amount : Z) (b : Batch)
  : option Batch :=
  '(destination, b) ← Batch_account (meta_new destination false) b;
  '(system, b) ← Batch_account (meta_new_readonly system_program_id false) b;
  Some (push (OpTransferFromEscrow destination system amount) b).

(** [for action in .. { self.account(new_readonly(action.authority, true)) }] *)
Definition intern_authorities (actions : list Action) (b : Batch) : option Batch :=
  snd <$> intern ((fun a => meta_new_readonly (act_authority a) true) <$> actions) b.

Fixpoint intern_commits (commits : list (Intent Pubkey)) (b : Batch)
  : option (list (Intent Z) * Batch) :=
  match commits with
  | [] => Some ([], b)
  | c :: commits =>
      '(cells, b) ← Batch_cells (it_cells c) true b;
      b ← intern_authorities (it_after_commit c ++ it_after_undelegate c) b;
      '(intents, b) ← intern_commits commits b;
      Some (mkIntent (it_mode c) cells (it_after_commit c) (it_after_undelegate c) :: intents, b)
  end.

Definition Batch_intents (bundle : IntentBundle) (b : Batch) : option Batch :=
  '(payer, b) ← Batch_account (meta_new (ib_payer bundle) true) b;
  '(context, b) ← Batch_account (meta_new magic_context_id false) b;
  '(magic, b) ← Batch_account (meta_new_readonly magic_program_id false) b;
  '(vault, b) ← match ib_validator bundle with
                | Some v => '(i, b) ← Batch_account (meta_new (magic_fee_vault_pda v) false) b;
                            Some (Some i, b)
                | None => Some (None, b)
                end;
  '(intents, b) ← intern_commits (ib_commits bundle) b;
  b ← intern_authorities (ib_actions bundle) b;
  Some (push (OpSettle (mkSettlement payer context magic vault intents (ib_actions bundle))) b).

Definition Batch_settle (payer : Pubkey) (cells : list Pubkey) (mode : SettlementMode)
  : Batch -> option Batch :=
  Batch_intents (mkIntentBundle payer None [Commit_new mode cells] []).

(** [Program::encode] *)
Definition Program_encode (program : Pubkey) (i : Instruction) (accounts : list AccountMeta)
  : SolInstruction := mkIx program accounts (Instruction_into_data i).

Definition Batch_build (b : Batch) : SolInstruction :=
  Program_encode (b_program b) (IxExecute (b_nonce b) (b_operations b)) (b_accounts b).

Definition Batch_action (cell owner : Pubkey) (b : Batch) : option SolInstruction :=
  '(_, b) ← Batch_account (meta_new_readonly cell false) b;
  Some (Program_encode (b_program b)
          (IxAction (b_nonce b) (mkGuard cell owner) (b_operations b)) (b_accounts b)).

(** * [Program] *)

Definition Program_batch (program : Pubkey) : Batch := mkBatch program [] [] 0.

Definition Program_pda (program : Pubkey) (i : CellId) : Pubkey * Z := CellId_pda i program.
Definition Program_primary (program : Pubkey) (authority : Pubkey) : Pubkey :=
  (Program_pda program (mkCellId authority 0)).1.
Definition Program_primaries (program : Pubkey) (authorities : list Pubkey) : list Pubkey :=
  Program_primary program <$> authorities.

Definition Program_create (program payer : Pubkey) (i : CellId) (space : Z)
  : SolInstruction * Pubkey :=
  let pda := (Program_pda program i).1 in
  (Program_encode program (IxCreate i space)
     [meta_new payer true; meta_new_readonly (authority i) true; meta_new pda false;
      meta_new_readonly system_program_id false], pda).

Definition Program_delegate (program payer : Pubkey) (i : CellId) (validator : option Pubkey)
    (commit_frequency_ms : Z) : SolInstruction :=
  Program_encode program (IxDelegate i validator commit_frequency_ms)
    (meta_new payer true :: delegate_account_metas (Program_pda program i).1 program ++
     [meta_new_readonly (authority i) true]).

Definition Program_resize (program payer cell : Pubkey) (space : Z) : SolInstruction :=
  Program_encode program (IxResize space)
    [meta_new payer true; meta_new cell false; meta_new_readonly system_program_id false].

Definition Program_request_undelegation (program payer : Pubkey) (i : CellId)
  : option SolInstruction :=
  Batch_build <$> Batch_invoke_signed
    (dlp_request_undelegation payer (Program_pda program i).1 program) [i]
    (Program_batch program).

Definition Program_write (program : Pubkey) (value : Z) (cells : list Pubkey)
  : option SolInstruction :=
  Batch_build <$> Batch_write cells value (Program_batch program).

Definition Program_hash (program : Pubkey) (value : Z) (initial : list Z) (rounds : Z)
    (cells : list Pubkey) : option SolInstruction :=
  b ← Batch_set cells value (Program_batch program);
  Batch_build <$> Batch_hash cells initial rounds b.

Definition Program_fold_hashes (program : Pubkey) (value rounds : Z) (cells : list Pubkey)
  : option SolInstruction :=
  b ← Batch_set cells value (Program_batch program);
  Batch_build <$> Batch_fold_hashes cells value rounds b.

Definition Program_copy (program : Pubkey) (value : Z) (sources destinations : list Pubkey)
  : option SolInstruction :=
  b ← Batch_set destinations value (Program_batch program);
  Batch_build <$> Batch_copy sources destinations b.

(** [copy_three]: a remainder by zero and an index out of range panic. *)
Definition Program_copy_three (program : Pubkey) (pool : list Pubkey) (value : Z)
  : option (SolInstruction * (Pubkey * Pubkey)) :=
  let len := Z.of_nat (length pool) in
  if len =? 0 then None
  else
    let first := wrapping_mul64 (wrapping_sub64 value 1) 3 mod len in
    source ← pool !! Z.to_nat first;
    d1 ← pool !! Z.to_nat ((first + 1) mod len);
    d2 ← pool !! Z.to_nat ((first + 2) mod len);
    ix ← Program_copy program value [source] [d1; d2];
    Some (ix, (d1, d2)).

Definition Program_sum_sizes (program : Pubkey) (value : Z) (output : Pubkey)
    (inputs : list Pubkey) : option SolInstruction :=
  b ← Batch_set [output] value (Program_batch program);
  Batch_build <$> Batch_sum_sizes output inputs b.

Definition Program_inspect (program : Pubkey) (accounts : list Pubkey) : option SolInstruction :=
  Batch_build <$> Batch_inspect accounts (Program_batch program).

Definition Program_log (program : Pubkey) (message : string) : SolInstruction :=
  Batch_build (Batch_log message (Program_batch program)).

Definition Program_settle (program payer : Pubkey) (cells : list Pubkey) (mode : SettlementMode)
  : option SolInstruction :=
  Batch_build <$> Batch_settle payer cells mode (Program_batch program).
End builders.
