(* ===== verification/BuildSpec.v ===== *)
(** What the builders promise: indices resolve to the addresses they were given,
    privileges are merged and never invented, and a built batch, serialised and
    processed by the program, does to the cells what its calls say. *)
From S2P Require Import Prelude World Cell Instr Settlement Execute CellSpec Build.

(** * Interning *)

Definition keys (b : Batch) : list Pubkey := pubkey <$> b_accounts b.

Definition interned (b : Batch) : Prop :=
  NoDup (keys b) /\ Z.of_nat (length (b_accounts b)) <= u16_bound.

(** Only accounts are added, only privileges gained. *)
Definition stronger (m m' : AccountMeta) : Prop :=
  pubkey m' = pubkey m /\ (meta_signer m = true -> meta_signer m' = true) /\
  (meta_writable m = true -> meta_writable m' = true).

Definition grows (b b' : Batch) : Prop :=
  b_program b' = b_program b /\ b_nonce b' = b_nonce b /\
  (exists more, keys b' = keys b ++ more) /\
  forall i m, b_accounts b !! i = Some m ->
    exists m', b_accounts b' !! i = Some m' /\ stronger m m'.

(** The index stands for the address in this and in every later batch. *)
Definition resolves (b : Batch) (i : Z) (k : Pubkey) : Prop :=
  is_u 16 i /\ keys b !! Z.to_nat i = Some k.

Lemma stronger_refl m : stronger m m.
Proof. by repeat split. Qed.

Lemma stronger_trans m1 m2 m3 : stronger m1 m2 -> stronger m2 m3 -> stronger m1 m3.
Proof. unfold stronger. intuition congruence. Qed.

#[export] Instance grows_preorder : PreOrder grows.
Proof.
  split.
  - intros b. repeat split; [exists []; by rewrite app_nil_r|]. intros i m Hm. exists m.
    split; [done|apply stronger_refl].
  - intros b1 b2 b3 (P1 & N1 & (m1 & K1) & A1) (P2 & N2 & (m2 & K2) & A2).
    split_and!; [congruence..| |].
    + exists (m1 ++ m2). by rewrite K2, K1, <-app_assoc.
    + intros i m (m' & Hm' & S1)%A1. apply A2 in Hm' as (m'' & ? & S2).
      exists m''. split; [done|by eapply stronger_trans].
Qed.

Lemma resolves_grows b b' i k : grows b b' -> resolves b i k -> resolves b' i k.
Proof.
  intros (_ & _ & (more & Hk) & _) [Hi Hl]. split; [done|].
  rewrite Hk. by apply lookup_app_l_Some.
Qed.

Lemma keys_alter m i b : keys (with_accounts b (alter (merge_privileges m) i (b_accounts b))) = keys b.
Proof.
  unfold keys. simpl. apply list_eq. intros j. rewrite !list_lookup_fmap.
  destruct (decide (i = j)) as [->|Hne].
  - rewrite list_lookup_alter_eq. by destruct (b_accounts b !! j).
  - by rewrite list_lookup_alter_ne.
Qed.

Lemma position_key m b i :
  position (fun e => pubkey e =? pubkey m) (b_accounts b) = Some i ->
  keys b !! i = Some (pubkey m) /\ (i < length (b_accounts b))%nat.
Proof.
  intros (e & He & Hk & _)%position_Some. apply Z.eqb_eq in Hk. split.
  - unfold keys. rewrite list_lookup_fmap, He. simpl. by rewrite Hk.
  - by eapply lookup_lt_Some.
Qed.

Lemma position_fresh m b :
  position (fun e => pubkey e =? pubkey m) (b_accounts b) = None -> pubkey m ∉ keys b.
Proof.
  rewrite position_None. intros Hn (e & He & Hin)%list_elem_of_fmap.
  specialize (Hn e Hin). rewrite <-He, Z.eqb_refl in Hn. done.
Qed.

Lemma Batch_account_spec m b i b' :
  interned b -> Batch_account m b = Some (i, b') ->
  interned b' /\ grows b b' /\ resolves b' i (pubkey m) /\ b_operations b' = b_operations b /\
  exists e, b_accounts b' !! Z.to_nat i = Some e /\ stronger m e.
Proof.
  intros [Hnd Hlen]. unfold Batch_account.
  destruct (position _ _) as [j|] eqn:Hp.
  - destruct (position_key _ _ _ Hp) as [Hk Hj]. intros [= <- <-].
    assert (Z.of_nat j mod u16_bound = Z.of_nat j) as -> by (apply Z.mod_small; lia).
    split_and!.
    + split; [by rewrite keys_alter|]. simpl. by rewrite length_alter.
    + split_and!; [done..|exists []; by rewrite keys_alter, app_nil_r|].
      intros l n Hn. simpl. destruct (decide (j = l)) as [->|Hne].
      * rewrite list_lookup_alter_eq, Hn. eexists. split; [done|].
        split_and!; simpl; [done| |]; intros ->; done.
      * rewrite list_lookup_alter_ne by done. exists n. split; [done|apply stronger_refl].
    + split; [unfold is_u; change (2 ^ 16) with u16_bound; lia|].
      by rewrite keys_alter, Nat2Z.id.
    + done.
    + rewrite Nat2Z.id. unfold keys in Hk. rewrite list_lookup_fmap in Hk.
      apply fmap_Some in Hk as (e & He & Hpk). simpl. rewrite list_lookup_alter_eq, He.
      eexists. split; [done|]. split_and!; simpl; [done| |]; intros ->; by rewrite orb_true_r.
  - destruct (Z.ltb_spec (Z.of_nat (length (b_accounts b))) u16_bound) as [Hlt|]; [|done].
    intros [= <- <-]. apply position_fresh in Hp.
    assert (keys (with_accounts b (b_accounts b ++ [m])) = keys b ++ [pubkey m]) as Hks
      by (unfold keys; simpl; by rewrite fmap_app).
    split_and!.
    + split; [|simpl; rewrite length_app; simpl; lia].
      rewrite Hks. apply NoDup_app. split_and!; [done| |apply NoDup_singleton].
      intros x Hx ->%list_elem_of_singleton. done.
    + split_and!; [done..|by eexists|]. intros l n Hn. exists n.
      split; [by apply lookup_app_l_Some|apply stronger_refl].
    + split; [unfold is_u; change (2 ^ 16) with u16_bound; lia|].
      rewrite Hks, Nat2Z.id. apply lookup_app_Some. right. unfold keys.
      rewrite length_fmap, Nat.sub_diag. by split; [lia|].
    + done.
    + exists m. split; [|apply stronger_refl]. simpl. rewrite Nat2Z.id.
      by apply list_lookup_middle.
Qed.

(** The panic is exactly the 65537th distinct account. *)
Lemma Batch_account_Some m b :
  interned b -> is_Some (Batch_account m b) <->
  pubkey m ∈ keys b \/ Z.of_nat (length (b_accounts b)) < u16_bound.
Proof.
  intros _. unfold Batch_account. destruct (position _ _) as [j|] eqn:Hp.
  - apply position_key in Hp as [Hk _]. split; [|by eexists]. intros _. left.
    by eapply list_elem_of_lookup_2.
  - apply position_fresh in Hp.
    destruct (Z.ltb_spec (Z.of_nat (length (b_accounts b))) u16_bound).
    + split; [by right|by eexists].
    + split; [by intros [? ?]|]. intros [?|?]; [done|lia].
Qed.

Lemma intern_spec ms b ids b' :
  interned b -> intern ms b = Some (ids, b') ->
  interned b' /\ grows b b' /\ Forall2 (resolves b') ids (pubkey <$> ms) /\
  b_operations b' = b_operations b.
Proof.
  revert b ids. induction ms as [|m ms IH]; intros b ids Hi; cbn [intern].
  - intros [= <- <-]. split_and!; [done|reflexivity|constructor|done].
  - intros ([i b1] & Ha & Hr)%bind_Some. apply bind_Some in Hr as ([is1 b2] & Hms & [= <- <-]).
    apply Batch_account_spec in Ha as (I1 & G1 & R1 & O1 & _); [|done].
    apply IH in Hms as (I2 & G2 & R2 & O2); [|done].
    split_and!; [done|by etransitivity| |congruence].
    constructor; [by eapply resolves_grows|done].
Qed.

Lemma Batch_cells_spec ks w b ids b' :
  interned b -> Batch_cells ks w b = Some (ids, b') ->
  interned b' /\ grows b b' /\ Forall2 (resolves b') ids ks /\ b_operations b' = b_operations b.
Proof.
  intros Hi Hc. apply intern_spec in Hc as (? & ? & Hr & ?); [|done].
  rewrite <-list_fmap_compose in Hr. split_and!; try done.
  by replace ks with ((pubkey ∘ (fun k => mkMeta k false w)) <$> ks) by apply list_fmap_id.
Qed.

(** Interning cannot panic while the accounts fit 16 bits. *)
Lemma intern_Some ms b :
  Z.of_nat (length (b_accounts b) + length ms) <= u16_bound ->
  exists ids b', intern ms b = Some (ids, b') /\
    (length (b_accounts b') <= length (b_accounts b) + length ms)%nat.
Proof.
  revert b. induction ms as [|m ms IH]; intros b Hl; cbn [intern length] in *.
  - exists [], b. split; [done|lia].
  - assert (exists i b1, Batch_account m b = Some (i, b1) /\
      (length (b_accounts b1) <= S (length (b_accounts b)))%nat) as (i & b1 & Ha & H1).
    { unfold Batch_account. destruct (position _ _) as [j|].
      - do 2 eexists. split; [done|]. simpl. rewrite length_alter. lia.
      - rewrite (proj2 (Z.ltb_lt _ _)) by lia. do 2 eexists. split; [done|].
        simpl. rewrite length_app. simpl. lia. }
    destruct (IH b1) as (ids & b2 & Hi & H2); [lia|].
    exists (i :: ids), b2. rewrite Ha. cbn. rewrite Hi. split; [done|lia].
Qed.

Lemma Batch_cells_Some ks w b :
  Z.of_nat (length (b_accounts b) + length ks) <= u16_bound ->
  exists ids b', Batch_cells ks w b = Some (ids, b') /\
    (length (b_accounts b') <= length (b_accounts b) + length ks)%nat.
Proof.
  intros Hl. destruct (intern_Some ((fun k => mkMeta k false w) <$> ks) b) as (ids & b' & ? & Hb).
  - by rewrite length_fmap.
  - exists ids, b'. rewrite length_fmap in Hb. done.
Qed.

(** ** Least privilege *)

(** Whether some request for the address asks for the privilege. *)
Definition requested (priv : AccountMeta -> bool) (ms : list AccountMeta) (k : Pubkey) : bool :=
  existsb (fun m => (pubkey m =? k) && priv m) ms.

(** The metas of a batch are the requests [ms], one entry per address. *)
Definition collected (ms : list AccountMeta) (b : Batch) : Prop :=
  (forall k, k ∈ keys b <-> k ∈ pubkey <$> ms) /\
  forall e, e ∈ b_accounts b ->
    meta_signer e = requested meta_signer ms (pubkey e) /\
    meta_writable e = requested meta_writable ms (pubkey e).

Lemma requested_snoc priv ms m k :
  requested priv (ms ++ [m]) k = requested priv ms k || ((pubkey m =? k) && priv m).
Proof. unfold requested. rewrite existsb_app. simpl. by rewrite orb_false_r. Qed.

Lemma requested_absent priv ms k : k ∉ pubkey <$> ms -> requested priv ms k = false.
Proof.
  intros Hn. apply not_true_iff_false. unfold requested. rewrite existsb_exists.
  intros (m & Hm & Hb). apply andb_true_iff in Hb as [Hk _]. apply Z.eqb_eq in Hk.
  apply Hn, list_elem_of_fmap. exists m. split; [done|]. by apply list_elem_of_In.
Qed.

Lemma requested_other priv ms m k :
  pubkey m <> k -> requested priv (ms ++ [m]) k = requested priv ms k.
Proof.
  intros Hk. rewrite requested_snoc. apply Z.eqb_neq in Hk. rewrite Hk. apply orb_false_r.
Qed.

Lemma requested_same priv ms m k :
  pubkey m = k -> requested priv (ms ++ [m]) k = requested priv ms k || priv m.
Proof. intros <-. by rewrite requested_snoc, Z.eqb_refl. Qed.

Lemma Batch_account_collects ms m b i b' :
  interned b -> collected ms b -> Batch_account m b = Some (i, b') -> collected (ms ++ [m]) b'.
Proof.
  intros Hi [Hk He]. unfold Batch_account. destruct (position _ _) as [j|] eqn:Hp.
  - destruct (position_key _ _ _ Hp) as [Hkj Hj]. intros [= <- <-]. split.
    + intros k. rewrite keys_alter, fmap_app, elem_of_app, <-Hk. cbn [fmap list_fmap].
      rewrite list_elem_of_singleton.
      split; [by left|]. intros [?| ->]; [done|]. by eapply list_elem_of_lookup_2.
    + intros e (l & Hl)%list_elem_of_lookup. simpl in Hl.
      destruct (decide (j = l)) as [<-|Hne].
      * rewrite list_lookup_alter_eq in Hl. apply fmap_Some in Hl as (e0 & He0 & ->).
        unfold keys in Hkj. rewrite list_lookup_fmap, He0 in Hkj.
        apply (inj Some) in Hkj. apply list_elem_of_lookup_2, He in He0 as [Hs Hw].
        cbn [merge_privileges meta_signer meta_writable pubkey].
        by rewrite !requested_same, Hs, Hw.
      * rewrite list_lookup_alter_ne in Hl by done.
        rewrite !requested_other; [by apply list_elem_of_lookup_2, He in Hl|..];
          intros Heq; apply Hne; apply (NoDup_lookup (keys b) j l (pubkey m)); try done;
          try apply Hi; unfold keys; rewrite list_lookup_fmap, Hl; simpl; by rewrite Heq.
  - destruct (Z.ltb_spec (Z.of_nat (length (b_accounts b))) u16_bound) as [Hlt|]; [|done].
    intros [= <- <-]. apply position_fresh in Hp. split.
    + intros k. unfold keys. simpl. rewrite !fmap_app, !elem_of_app. simpl.
      fold (keys b). by rewrite Hk.
    + intros e [Hin| ->%list_elem_of_singleton]%elem_of_app.
      * rewrite !requested_other; [by apply He| |];
          intros Heq; apply Hp; rewrite Heq; apply list_elem_of_fmap; by exists e.
      * rewrite !requested_same by done. rewrite Hk in Hp.
        by rewrite !(requested_absent _ _ _ Hp).
Qed.

Lemma intern_collects ms ms0 b ids b' :
  interned b -> collected ms0 b -> intern ms b = Some (ids, b') -> collected (ms0 ++ ms) b'.
Proof.
  revert ms0 b ids. induction ms as [|m ms IH]; intros ms0 b ids Hi Hc; cbn [intern].
  - intros [= <- <-]. by rewrite app_nil_r.
  - intros ([i b1] & Ha & Hr)%bind_Some. apply bind_Some in Hr as ([is1 b2] & Hms & [= <- <-]).
    pose proof (Batch_account_collects _ _ _ _ _ Hi Hc Ha) as Hc1.
    apply Batch_account_spec in Ha as (I1 & _); [|done].
    rewrite (cons_middle m ms0 ms), app_assoc. by eapply IH.
Qed.

(** * A batch of calls, at the level of addresses *)

(** The cell operations a caller can ask a [Batch] for. *)
Inductive Call :=
| CSet (cells : list Pubkey) (value : Z)
| CAdd (cells : list Pubkey) (change : Z)
| CFill (cells : list Pubkey) (seed step : Z)
| CHash (cells : list Pubkey) (initial : list Z) (rounds : Z)
| CFoldHashes (cells : list Pubkey) (salt rounds : Z)
| CCopy (sources destinations : list Pubkey)
| CSumSizes (output : Pubkey) (inputs : list Pubkey)
| CUndelegation (cells : list Pubkey) (outcome : UndelegationOutcome)
| CLog (message : string).

Definition call (c : Call) (b : Batch) : option Batch :=
  match c with
  | CSet cells v => Batch_set cells v b
  | CAdd cells change => Batch_add cells change b
  | CFill cells seed step => Batch_fill cells seed step b
  | CHash cells initial rounds => Batch_hash cells initial rounds b
  | CFoldHashes cells salt rounds => Batch_fold_hashes cells salt rounds b
  | CCopy sources destinations => Batch_copy sources destinations b
  | CSumSizes output inputs => Batch_sum_sizes output inputs b
  | CUndelegation cells o => Batch_undelegation cells o b
  | CLog message => Some (Batch_log message b)
  end.

Fixpoint calls (cs : list Call) (b : Batch) : option Batch :=
  match cs with
  | [] => Some b
  | c :: cs => b ← call c b; calls cs b
  end.

(** The effect of a call on the cells, without indices. *)
Fixpoint key_each (ks : list Pubkey) (f : Pubkey -> Abs -> option Abs) (σ : Abs) : option Abs :=
  match ks with
  | [] => Some σ
  | k :: ks => σ' ← f k σ; key_each ks f σ'
  end.

Definition overwrite (bytes : list Z) : Pubkey -> Abs -> option Abs :=
  abs_update (fun h p => p' ← overwritten bytes p; Some (h, p')).

Definition hash_at (σ : Abs) (k : Pubkey) : option (list Z) :=
  '(_, p) ← σ !! k; if bool_decide (32 <= length p)%nat then Some (take 32 p) else None.

Definition size_at (σ : Abs) (k : Pubkey) : option Z :=
  '(_, p) ← σ !! k; Some (Z.of_nat (CellHeader_SIZE + length p)).

Fixpoint key_copy (sources : list Pubkey) (position : nat) (destinations : list Pubkey) (σ : Abs)
  : option Abs :=
  match destinations with
  | [] => Some σ
  | kd :: ds =>
      ks ← sources !! (position mod length sources)%nat;
      '(_, src) ← σ !! ks;
      σ' ← abs_update (fun h p => Some (h, copied src p)) kd σ;
      key_copy sources (S position) ds σ'
  end.

Section calls.
Context `{R : Runtime}.

Definition effect (c : Call) (σ : Abs) : option Abs :=
  match c with
  | CSet cells v => key_each cells (abs_update (fun h p => Some (with_value v h, p))) σ
  | CAdd cells change =>
      key_each cells (abs_update (fun h p =>
        if bool_decide (0 <= value h + change < u64_bound)
        then Some (with_value (value h + change) h, p) else None)) σ
  | CFill cells seed step =>
      key_each cells (abs_update (fun h p => Some (h, filled seed step p))) σ
  | CHash cells initial rounds => key_each cells (overwrite (HashState_chain initial rounds)) σ
  | CFoldHashes cells salt rounds =>
      hashes ← mapM (hash_at σ) cells;
      key_each cells (overwrite (HashState_fold salt hashes rounds)) σ
  | CCopy sources destinations =>
      match sources with [] => None | _ :: _ => key_copy sources O destinations σ end
  | CSumSizes output inputs =>
      sizes ← mapM (size_at σ) inputs; overwrite (le_bytes 8 (sum_Z sizes)) output σ
  | CUndelegation cells o =>
      key_each cells (abs_update (fun h p => Some (with_outcome o h, p))) σ
  | CLog _ => Some σ
  end.

Fixpoint effects (cs : list Call) (σ : Abs) : option Abs :=
  match cs with
  | [] => Some σ
  | c :: cs => σ' ← effect c σ; effects cs σ'
  end.
End calls.

(** The arguments fit their types. *)
Definition fits {A} (l : list A) : Prop := Z.of_nat (length l) < 2 ^ 64.
Definition Call_wf (c : Call) : Prop :=
  match c with
  | CSet cells v => fits cells /\ is_u 64 v
  | CAdd cells change => fits cells /\ is_i64 change
  | CFill cells seed step => fits cells /\ is_u 64 seed /\ is_u 64 step
  | CHash cells initial rounds =>
      fits cells /\ (Forall (is_u 8) initial /\ length initial = 32%nat) /\ is_u 32 rounds
  | CFoldHashes cells salt rounds => fits cells /\ is_u 64 salt /\ is_u 32 rounds
  | CCopy sources destinations => fits sources /\ fits destinations
  | CSumSizes _ inputs => fits inputs
  | CUndelegation cells _ => fits cells
  | CLog message => Z.of_nat (String.length message) < 2 ^ 64
  end.

(** The operation a call left in the batch. *)
Definition means (b : Batch) (op : Operation) (c : Call) : Prop :=
  match op, c with
  | OpSet ids v, CSet ks v' => Forall2 (resolves b) ids ks /\ v = v'
  | OpAdd ids x, CAdd ks x' => Forall2 (resolves b) ids ks /\ x = x'
  | OpFill ids s t, CFill ks s' t' => Forall2 (resolves b) ids ks /\ s = s' /\ t = t'
  | OpHash ids i r, CHash ks i' r' => Forall2 (resolves b) ids ks /\ i = i' /\ r = r'
  | OpFoldHashes ids s r, CFoldHashes ks s' r' => Forall2 (resolves b) ids ks /\ s = s' /\ r = r'
  | OpCopy ids js, CCopy ks ls => Forall2 (resolves b) ids ks /\ Forall2 (resolves b) js ls
  | OpSumSizes i ids, CSumSizes k ks => resolves b i k /\ Forall2 (resolves b) ids ks
  | OpUndelegation ids o, CUndelegation ks o' => Forall2 (resolves b) ids ks /\ o = o'
  | OpLog m, CLog m' => m = m'
  | _, _ => False
  end.

Lemma Forall2_resolves_grows b b' ids ks :
  grows b b' -> Forall2 (resolves b) ids ks -> Forall2 (resolves b') ids ks.
Proof. intros Hg Hr. eapply Forall2_impl; [done|]. intros. by eapply resolves_grows. Qed.

Lemma means_grows b b' op c : grows b b' -> means b op c -> means b' op c.
Proof.
  intros Hg. destruct op, c; simpl; try done;
    intuition eauto using Forall2_resolves_grows, resolves_grows.
Qed.

Lemma grows_push op b : grows b (push op b).
Proof.
  split_and!; [done..|exists []; by rewrite app_nil_r|].
  intros i m Hm. exists m. split; [done|apply stronger_refl].
Qed.

(** A batch that holds exactly the calls made so far. *)
Definition holds (b : Batch) (cs : list Call) : Prop :=
  interned b /\ Forall2 (means b) (b_operations b) cs.

Lemma holds_push b0 b op c cs :
  holds b0 cs -> interned b -> grows b0 b -> b_operations b = b_operations b0 -> means b op c ->
  holds (push op b) (cs ++ [c]).
Proof.
  intros [_ Hc] Hi Hg Ho Hm. split; [exact Hi|]. simpl. rewrite Ho. apply Forall2_app.
  - eapply Forall2_impl; [done|]. intros. eapply means_grows; [|done]. by etransitivity; [|apply grows_push].
  - constructor; [|constructor]. eapply means_grows; [apply grows_push|done].
Qed.

Lemma call_holds c b b' cs : holds b cs -> call c b = Some b' -> holds b' (cs ++ [c]) /\ grows b b'.
Proof.
  intros Hh. pose proof (proj1 Hh) as Hi.
  assert (forall b1 op, interned b1 -> grows b b1 -> b_operations b1 = b_operations b ->
            means b1 op c -> holds (push op b1) (cs ++ [c]) /\ grows b (push op b1)) as Hpush.
  { intros b1 op I1 G1 O1 M1. split; [by eapply holds_push|].
    etransitivity; [done|apply grows_push]. }
  destruct c; cbn [call].
  6: { intros ([ids b1] & Ha & Hr)%bind_Some. apply bind_Some in Hr as ([js b2] & Hb & [= <-]).
       apply Batch_cells_spec in Ha as (I1 & G1 & R1 & O1); [|done].
       apply Batch_cells_spec in Hb as (I2 & G2 & R2 & O2); [|done].
       apply Hpush; [done|by etransitivity|congruence|]. split; [|done].
       by eapply Forall2_resolves_grows. }
  6: { intros ([i b1] & Ha & Hr)%bind_Some. apply bind_Some in Hr as ([js b2] & Hb & [= <-]).
       apply Batch_account_spec in Ha as (I1 & G1 & R1 & O1 & _); [|done].
       apply Batch_cells_spec in Hb as (I2 & G2 & R2 & O2); [|done].
       apply Hpush; [done|by etransitivity|congruence|]. split; [|done].
       by eapply resolves_grows. }
  7: { intros [= <-]. by apply Hpush. }
  all: intros ([ids b1] & Ha & [= <-])%bind_Some;
    apply Batch_cells_spec in Ha as (I1 & G1 & R1 & O1); [|done];
    apply Hpush; try done; by repeat split.
Qed.

Lemma calls_hold cs cs0 b b' :
  holds b cs0 -> calls cs b = Some b' -> holds b' (cs0 ++ cs) /\ grows b b'.
Proof.
  revert cs0 b. induction cs as [|c cs IH]; intros cs0 b Hh; cbn [calls].
  - intros [= <-]. rewrite app_nil_r. split; [done|reflexivity].
  - intros (b1 & Hc & Hr)%bind_Some. destruct (call_holds _ _ _ _ Hh Hc) as [H1 G1].
    destruct (IH _ _ H1 Hr) as [H2 G2]. split; [|by etransitivity].
    by rewrite <-app_assoc in H2.
Qed.

(** * From calls to effects *)

Section end_to_end.
Context `{R : Runtime, !RuntimeLaws R, HC : HeaderCodec, !HeaderCodecLaws HC}.
Context `{C : InstructionCodec, !InstructionCodecLaws R C, K : IntentSdk, B : BuildSdk}.

Lemma abs_each_keys b ids ks f σ :
  Forall2 (resolves b) ids ks -> abs_each (keys b) ids f σ = key_each ks f σ.
Proof.
  intros Hr. revert σ. induction Hr as [|i k ids ks [_ Hk] _ IH]; intros σ; [done|].
  cbn [abs_each key_each]. rewrite Hk. cbn. destruct (f k σ); [apply IH|done].
Qed.

Lemma mapM_resolved {A} b ids ks (f : Z -> option A) (g : Pubkey -> option A) :
  (forall i k, resolves b i k -> f i = g k) -> Forall2 (resolves b) ids ks ->
  mapM f ids = mapM g ks.
Proof.
  intros Hfg. induction 1 as [|i k ids ks Hk _ IH]; [done|].
  cbn [mapM]. by rewrite (Hfg _ _ Hk), IH.
Qed.

Lemma abs_copy_keys b ids ks js ls n σ :
  Forall2 (resolves b) ids ks -> Forall2 (resolves b) js ls ->
  abs_copy (keys b) ids n js σ = key_copy ks n ls σ.
Proof.
  intros Hs Hd. revert n σ. induction Hd as [|j l js ls [_ Hl] _ IH]; intros n σ; [done|].
  cbn [abs_copy key_copy]. rewrite (Forall2_length _ _ _ Hs).
  destruct (ids !! _) as [i|] eqn:Hi.
  - destruct (Forall2_lookup_l _ _ _ _ _ Hs Hi) as (k & Hk & [_ Hik]).
    rewrite Hk. cbn. rewrite Hik, Hl. cbn. destruct (σ !! k) as [[h p]|]; [|done]. cbn.
    destruct (abs_update _ _ _); [apply IH|done].
  - destruct (ks !! _) eqn:Hk; [|done].
    destruct (Forall2_lookup_r _ _ _ _ _ Hs Hk) as (? & ? & _). congruence.
Qed.

Lemma abs_hash_key b σ i k : resolves b i k -> abs_hash (keys b) σ i = hash_at σ k.
Proof. intros [_ Hk]. unfold abs_hash, hash_at. by rewrite Hk. Qed.

Lemma abs_size_key b σ i k : resolves b i k -> abs_size (keys b) σ i = size_at σ k.
Proof. intros [_ Hk]. unfold abs_size, size_at. by rewrite Hk. Qed.

Lemma abs_apply_effect b op c σ : means b op c -> abs_apply (keys b) op σ = effect c σ.
Proof.
  destruct op, c; simpl; try done.
  - intros [? ->]. by apply abs_each_keys.
  - intros [? ->]. by apply abs_each_keys.
  - intros (? & -> & ->). by apply abs_each_keys.
  - intros (? & -> & ->). by apply abs_each_keys.
  - intros (Hr & -> & ->).
    rewrite (mapM_resolved b _ _ _ (hash_at σ) (abs_hash_key b σ) Hr).
    destruct (mapM (hash_at σ) _); [|done]. by apply abs_each_keys.
  - intros [Hs Hd]. destruct Hs as [|i k ids ks Hik Hs]; [done|].
    apply (abs_copy_keys b (i :: ids) (k :: ks)); [by constructor|done].
  - intros [[_ Ho] Hr].
    rewrite (mapM_resolved b _ _ _ (size_at σ) (abs_size_key b σ) Hr).
    destruct (mapM (size_at σ) _) as [sizes|]; [|done]. cbn [mbind option_bind].
    unfold abs_write, overwrite. cbn [abs_each]. rewrite Ho. cbn.
    by destruct (abs_update _ _ _).
  - intros [? ->]. by apply abs_each_keys.
Qed.

Lemma abs_run_effects b ops cs σ :
  Forall2 (means b) ops cs -> abs_run (keys b) ops σ = effects cs σ.
Proof.
  intros Hm. revert σ. induction Hm as [|op c ops cs Hop _ IH]; intros σ; [done|].
  cbn [abs_run effects]. rewrite (abs_apply_effect _ _ _ _ Hop).
  destruct (effect c σ); [apply IH|done].
Qed.

Lemma resolves_indices b ids ks : Forall2 (resolves b) ids ks -> fits ks -> indices_wf ids.
Proof.
  intros Hr Hf. split.
  - apply Forall_forall. intros i (n & Hn)%list_elem_of_lookup.
    destruct (Forall2_lookup_l _ _ _ _ _ Hr Hn) as (k & _ & [? _]). done.
  - unfold fits in Hf. by rewrite (Forall2_length _ _ _ Hr).
Qed.

Lemma means_wf b op c : means b op c -> Call_wf c -> Operation_wf op.
Proof.
  destruct op, c; simpl; try done; intros Hm Hw; destruct_and?; subst;
    split_and?; try done; eauto using resolves_indices.
  match goal with H : resolves b _ _ |- _ => apply H end.
Qed.

Lemma holds_wf b cs : holds b cs -> Forall Call_wf cs -> Forall Operation_wf (b_operations b).
Proof.
  intros [_ Hm] Hw. apply Forall_forall. intros op (n & Hn)%list_elem_of_lookup.
  destruct (Forall2_lookup_l _ _ _ _ _ Hm Hn) as (c & Hc & Hop).
  eapply means_wf; [done|]. by eapply Forall_lookup_1.
Qed.

(** A well-formed instruction reaches the branch of [process] for it. *)
Lemma process_execute pid infos n ops w :
  is_u 64 n -> vec_wf Operation_wf ops ->
  process pid infos (Instruction_into_data (IxExecute n ops)) w = run pid infos ops w.
Proof.
  intros Hn Hops. unfold process, Instruction_into_data.
  rewrite <-(app_nil_r (instruction_serialize _)).
  assert (Instruction_wf (IxExecute n ops)) by done.
  by rewrite serialize_not_undelegate, get_serialize.
Qed.

Lemma holds_batch pid : holds (Program_batch pid) [].
Proof.
  split; [|constructor]. split; [constructor|]. simpl. unfold u16_bound. lia.
Qed.

Lemma calls_end_to_end pid cs b infos w σ σ' :
  calls cs (Program_batch pid) = Some b -> fits cs -> Forall Call_wf cs ->
  key <$> infos = pubkey <$> ix_accounts (Batch_build b) ->
  represents σ w -> borrowed w = ∅ -> effects cs σ = Some σ' ->
  reaches (process pid infos (ix_data (Batch_build b))) w σ σ'.
Proof.
  intros Hc Hfit Hwf Hinfos Hr Hb He.
  destruct (calls_hold cs [] _ _ (holds_batch pid) Hc) as [Hh (Hp & Hn & _)].
  pose proof (holds_wf _ _ Hh Hwf) as Hops. destruct Hh as [_ Hm]. simpl in Hm.
  cbn [Batch_build Program_encode ix_data ix_accounts] in *. unfold reaches.
  rewrite process_execute; [| rewrite Hn; done | split; [done|]].
  - apply run_from_reaches; [done..|]. rewrite Hinfos.
    fold (keys b). by rewrite (abs_run_effects _ _ _ _ Hm).
  - unfold fits in Hfit. by rewrite (Forall2_length _ _ _ Hm).
Qed.
End end_to_end.
