(* ===== verification/Fixture.v ===== *)
(** The guarded entry points of the fixture program ([create], [resize],
    [undelegate], [handle_result], [run_action] and [process] itself), and the
    builders that address them. *)
From S2P Require Import Prelude World Cell Instr Settlement SettlementFacts Execute CellSpec ExecuteFacts Build BuildSpec.

(** The account infos the runtime passes for the metas of an instruction. *)
Definition infos_of (metas : list AccountMeta) : list AccountInfo :=
  (fun m => mkInfo (pubkey m) (meta_signer m) (meta_writable m)) <$> metas.

Lemma keys_infos_of metas : key <$> infos_of metas = pubkey <$> metas.
Proof. unfold infos_of. rewrite <-list_fmap_compose. by apply list_fmap_ext. Qed.

Section entry_points.
Context `{R : Runtime, !RuntimeLaws R, HC : HeaderCodec, !HeaderCodecLaws HC}.
Context `{C : InstructionCodec, !InstructionCodecLaws R C, K : IntentSdk}.

(** ** [process] *)

Definition dispatch (pid : Pubkey) (infos : list AccountInfo) (i : Instruction)
    (rest : list Z) : M unit :=
  match i with
  | IxCreate i space => create pid infos i space
  | IxDelegate i validator freq => delegate pid infos i (mkDelegateConfig validator freq)
  | IxResize space => resize pid infos space
  | IxExecute _ ops => run pid infos ops
  | IxAction _ guard ops => run_action pid infos guard ops
  | IxHandleResult => handle_result infos rest
  end.

Lemma process_dispatch pid infos i rest w :
  Instruction_wf i ->
  process pid infos (Instruction_into_data i ++ rest) w =
  (if bool_decide (rest = []) || is_handle_result i then dispatch pid infos i rest w
   else (Err InvalidInstructionData, w)).
Proof.
  intros Hi. unfold process, Instruction_into_data.
  rewrite serialize_not_undelegate, get_serialize by done.
  case_bool_decide; [by destruct i|]. by destruct i.
Qed.

Lemma process_built pid infos i w :
  Instruction_wf i -> process pid infos (Instruction_into_data i) w = dispatch pid infos i [] w.
Proof.
  intros Hi. rewrite <-(app_nil_r (Instruction_into_data i)), process_dispatch by done.
  by rewrite bool_decide_eq_true_2.
Qed.

(** ** [create] *)

Lemma create_Ok pid payer auth cell system i space w w1 :
  CellId_wf i -> Z.of_nat CellHeader_SIZE <= space ->
  is_signer auth = true -> key auth = authority i -> key cell = (CellId_pda i pid).1 ->
  borrowed w = ∅ ->
  create_pda cell pid space [CellId_seeds i ++ [[(CellId_pda i pid).2]]] system payer true w
    = (Ok tt, w1) ->
  exists d, create pid [payer; auth; cell; system] i space w = (Ok tt, set_data (key cell) d w1) /\
    cell_of d = Some (CellHeader_new i, drop CellHeader_SIZE (data (account w1 (key cell)))) /\
    Z.of_nat (length d) = space.
Proof.
  intros Hi Hs Hsig Hauth Hcell Hb Hc.
  destruct (create_pda_ok _ _ _ _ _ _ _ _ _ Hc) as (Hlen & _ & Hb1).
  destruct (CellHeader_write_Ok (CellHeader_new i) (data (account w1 (key cell))))
    as (d & Hw & Hl & Hp & Hd).
  { destruct Hi. unfold CellHeader_wf. split_and!; simpl; [done..| |]; unfold is_u; lia. }
  { lia. }
  exists d. split_and!.
  - unfold create. rewrite Hsig, Hauth, Z.eqb_refl, (proj2 (Z.ltb_ge _ _)) by done.
    cbn [negb orb]. destruct (CellId_pda i pid) as [pda bump] eqn:Ep. cbn [fst snd] in *.
    rewrite Hcell, Z.eqb_refl. cbn [negb].
    rewrite (bind_run_Ok _ _ _ _ _ Hc).
    rewrite (bind_run_Ok _ _ _ _ _ (try_borrow_mut_free cell w1 ltac:(rewrite Hb1, Hb; set_solver))).
    rewrite Hw. mrun. by rewrite Hcell.
  - apply cell_of_Some. by split.
  - rewrite Hl, Hlen. lia.
Qed.

Lemma create_guarded pid payer auth cell system i space w w' :
  create pid [payer; auth; cell; system] i space w = (Ok tt, w') ->
  is_signer auth = true /\ key auth = authority i /\ Z.of_nat CellHeader_SIZE <= space /\
  key cell = (CellId_pda i pid).1.
Proof.
  unfold create. destruct (is_signer auth), (Z.eqb_spec (key auth) (authority i)); simpl; try done.
  destruct (Z.ltb_spec space (Z.of_nat CellHeader_SIZE)); [done|].
  destruct (CellId_pda i pid) as [pda bump]. simpl.
  by destruct (Z.eqb_spec (key cell) pda).
Qed.

(** ** [resize] *)

(** The funding step of [resize]. *)
Definition fund (payer cell system : AccountInfo) (required : Z) : M unit :=
  lams ← get_lamports cell;
  if lams <? required
  then invoke (system_transfer (key payer) (key cell) (required - lams)) [payer; cell; system]
  else mret tt.

(** The payload after a resize: truncated, or extended with zeros. *)
Definition resized (space : Z) (p : list Z) : list Z :=
  let n := (Z.to_nat space - CellHeader_SIZE)%nat in
  take n p ++ replicate (n - length p) 0.

Lemma cell_of_resized d h p space :
  cell_of d = Some (h, p) -> Z.of_nat CellHeader_SIZE <= space ->
  cell_of (take (Z.to_nat space) d ++ replicate (Z.to_nat space - length d) 0) =
    Some (h, resized space p).
Proof.
  intros [Hd ->]%cell_of_Some Hs. pose proof (try_decode_size _ _ Hd) as Hl.
  apply cell_of_Some. split.
  - apply (try_decode_take d); [done| |].
    + rewrite length_app, length_take, length_replicate. lia.
    + rewrite take_app_le by (rewrite length_take; lia). by rewrite take_take, Nat.min_l by lia.
  - unfold resized. rewrite drop_app_le by (rewrite length_take; lia).
    rewrite skipn_firstn_comm, length_drop. do 2 f_equal. lia.
Qed.

Lemma resize_Ok pid payer cell system space required w w1 w2 h p :
  is_signer payer = true -> Z.of_nat CellHeader_SIZE <= space ->
  cell_of (data (account w (key cell))) = Some (h, p) ->
  key cell = (CellId_pda (id h) pid).1 -> revision h < u64_max ->
  rent_minimum_balance space w = (Ok required, w) ->
  fund payer cell system required w = (Ok tt, w1) ->
  data (account w1 (key cell)) = data (account w (key cell)) -> borrowed w1 = ∅ ->
  account_resize cell space w1 = (Ok tt, w2) ->
  exists d, resize pid [payer; cell; system] space w = (Ok tt, set_data (key cell) d w1) /\
    cell_of d = Some (bump h, resized space p).
Proof.
  intros Hsig Hs Hc Hpda Hrev Hrent Hfund Hdata Hb Hrs.
  pose proof Hc as Hc'. apply cell_of_Some in Hc' as [Hdec _].
  pose proof (resize_ok _ _ _ _ Hrs) as Hw2. rewrite Hdata in Hw2.
  pose proof (cell_of_resized _ _ _ _ Hc Hs) as Hc2.
  set (d2 := take (Z.to_nat space) (data (account w (key cell))) ++ _) in *.
  destruct (update_Ok cell (fun c payload => Ok (c, payload)) w2 h (resized space p) h
    (resized space p)) as (d & Hup & Hd); subst w2; [cbn; rewrite Hb; set_solver|
    by autorewrite with world|done|done|by eapply try_decode_wf|].
  exists d. split; [|done]. rewrite set_data_set_data in Hup. rewrite <-Hup.
  unfold resize. rewrite Hsig, (proj2 (Z.ltb_ge _ _)) by done. cbn [negb].
  rewrite (bind_run_Ok (try_borrow_data cell) _ w _ w eq_refl).
  rewrite (bind_run_Ok (lift (decode_cell _)) _ w h w)
    by (unfold lift, decode_cell; by rewrite Hdec).
  rewrite <-Hpda, Z.eqb_refl. cbn [negb]. rewrite (bind_run_Ok _ _ _ _ _ Hrent).
  unfold fund in Hfund. rewrite (bind_run_Ok (get_lamports cell) _ w _ w eq_refl) in Hfund.
  rewrite (bind_run_Ok (get_lamports cell) _ w _ w eq_refl).
  by rewrite (bind_run_Ok _ _ _ _ _ Hfund), (bind_run_Ok _ _ _ _ _ Hrs).
Qed.

(** ** [undelegate] *)

Lemma undelegate_outcome pid cell buffer payer system more data seeds w w1 h :
  decode_seeds data = Some seeds ->
  undelegate_account cell pid buffer payer system seeds w = (Ok tt, w1) ->
  CellHeader_try_decode (World.data (account w1 (key cell))) = Some h ->
  undelegate pid (cell :: buffer :: payer :: system :: more) data w =
    (if bool_decide (undelegation h = Reject) then Err (Custom 111) else Ok tt, w1).
Proof.
  intros Hs Hu Hd. unfold undelegate. rewrite Hs.
  rewrite (bind_run_Ok (lift (ok_or (Some seeds) InvalidInstructionData)) _ w seeds w) by done.
  rewrite (bind_run_Ok _ _ _ _ _ Hu). unfold decode_cell. mrun. rewrite Hd.
  by case_bool_decide.
Qed.

(** ** [handle_result] *)

(** A callback that passes the checks is the refund followed by [adjust]. *)
Lemma handle_result_checked signer cell remaining data ok payload effect w :
  key signer = callback_signer -> is_signer signer = true ->
  magic_response data = Some (ok, payload) -> callback_deserialize payload = Some effect ->
  key cell = rc_cell effect ->
  handle_result (signer :: cell :: remaining) data w =
    (apply_refund ok effect cell remaining;; adjust cell (Z.b2z (negb ok))) w.
Proof.
  intros Hk Hs Hm Hc Hcell. unfold handle_result.
  rewrite Hk, Hs, Z.eqb_refl. cbn [negb orb]. rewrite Hm. mrun. rewrite Hc.
  rewrite Hcell, Z.eqb_refl. done.
Qed.

Lemma adjust_Ok cell change w h p :
  borrowed w = ∅ -> cell_of (data (account w (key cell))) = Some (h, p) ->
  0 <= value h + change < u64_bound -> revision h < u64_max ->
  exists d, adjust cell change w = (Ok tt, set_data (key cell) d w) /\
    cell_of d = Some (bump (with_value (value h + change) h), p).
Proof.
  intros Hb Hc Hv Hrev. pose proof Hc as [Hdec _]%cell_of_Some.
  destruct (add_value_implements change h p (with_value (value h + change) h) p) as [Hf Hwf].
  { by eapply try_decode_wf. }
  { by rewrite bool_decide_eq_true_2. }
  apply (update_Ok cell _ w h p); [rewrite Hb; set_solver|done..].
Qed.

(** What the refund leaves of the balances, the two accounts possibly equal. *)
Lemma apply_refund_Ok effect r cell rcpt w :
  rc_refund effect = Some r -> key rcpt = recipient r ->
  amount r <= lamports (account w (key cell)) ->
  lamports (account w (key rcpt)) + amount r < u64_bound ->
  apply_refund false effect cell [rcpt] w =
    (Ok tt, set_lamports (key rcpt) (lamports (account w (key rcpt)) + amount r)
              (set_lamports (key cell) (lamports (account w (key cell)) - amount r) w)).
Proof.
  intros Hr Hk Hle Hlt. unfold apply_refund. rewrite Hr, (proj2 (Z.eqb_eq _ _) Hk). cbn [negb].
  mrun. unfold checked_sub64, checked_add64.
  by rewrite (proj2 (Z.leb_le _ _) Hle), (proj2 (Z.ltb_lt _ _) Hlt).
Qed.

Lemma handle_result_failed signer cell rcpt data payload effect r w h p :
  key signer = callback_signer -> is_signer signer = true ->
  magic_response data = Some (false, payload) -> callback_deserialize payload = Some effect ->
  key cell = rc_cell effect -> rc_refund effect = Some r -> key rcpt = recipient r ->
  amount r <= lamports (account w (key cell)) ->
  lamports (account w (key rcpt)) + amount r < u64_bound ->
  borrowed w = ∅ -> cell_of (World.data (account w (key cell))) = Some (h, p) ->
  value h < u64_max -> revision h < u64_max ->
  exists d, handle_result [signer; cell; rcpt] data w =
    (Ok tt, set_data (key cell) d
      (set_lamports (key rcpt) (lamports (account w (key rcpt)) + amount r)
        (set_lamports (key cell) (lamports (account w (key cell)) - amount r) w))) /\
    cell_of d = Some (bump (with_value (value h + 1) h), p).
Proof.
  intros Hk Hs Hm Hc Hcell Hr Hrk Hle Hlt Hb Hd Hv Hrev.
  rewrite (handle_result_checked _ _ _ _ _ _ _ _ Hk Hs Hm Hc Hcell).
  rewrite (bind_run_Ok _ _ _ _ _ (apply_refund_Ok _ _ cell _ _ Hr Hrk Hle Hlt)).
  pose proof Hd as [Hdec _]%cell_of_Some. apply try_decode_wf in Hdec as (_ & _ & [? _] & _).
  apply adjust_Ok; [done|by autorewrite with world|unfold u64_max in Hv; lia|done].
Qed.

Lemma handle_result_unauthorised signer cell remaining data w :
  key signer <> callback_signer \/ is_signer signer = false ->
  handle_result (signer :: cell :: remaining) data w = (Err MissingRequiredSignature, w).
Proof.
  intros [Hk%Z.eqb_neq|Hs]; unfold handle_result; [by rewrite Hk|].
  by rewrite Hs, orb_true_r.
Qed.

(** ** [run_action] *)

Definition action_guard (pid : Pubkey) (accounts : list AccountInfo) (g : ActionGuard)
    (w : World) : bool :=
  match action_tail accounts with
  | None => false
  | Some (source, escrow) =>
      (key source =? pid) && is_signer escrow &&
      match find_first (fun a => key a =? g_cell g) accounts with
      | None => false
      | Some cell => owner (account w (key cell)) =? g_owner g
      end
  end.

Lemma run_action_guarded pid accounts g ops w :
  if action_guard pid accounts g w
  then run_action pid accounts g ops w = run pid accounts ops w
  else exists e, run_action pid accounts g ops w = (Err e, w).
Proof.
  unfold action_guard, run_action. destruct (action_tail accounts) as [[source escrow]|]; [|by eexists].
  destruct (key source =? pid); simpl; [|by eexists].
  destruct (is_signer escrow); simpl; [|by eexists]. unfold mbind, M_bind, lift.
  destruct (find_first _ accounts) as [cell|]; simpl; [|by eexists].
  destruct (owner _ =? _); simpl; [done|by eexists].
Qed.
End entry_points.
