(* ===== verification/FixtureProps.v ===== *)
(** The properties of the fixture program: executor, settlement, builders. *)
From S2P Require Import Prelude World Cell Instr Settlement RefCodec SettlementFacts Execute CellSpec ExecuteFacts Build BuildSpec Fixture.

(** * A concrete world for the witnesses *)

#[export] Instance ref_build_sdk : BuildSdk := {|
  magic_context_id := 501;
  magic_program_id := 502;
  magic_fee_vault_pda v := v + 1000;
  delegate_account_metas pda owner :=
    [meta_new pda false; meta_new_readonly owner false; meta_new 601 false; meta_new 602 false;
     meta_new 603 false; meta_new_readonly 604 false; meta_new_readonly 0 false];
  dlp_request_undelegation payer pda owner :=
    mkIx 604 [meta_new payer true; meta_new pda true; meta_new_readonly owner false] [9];
|}.

Definition demo_header (a : Pubkey) (v rev : Z) : CellHeader :=
  mkHeader (mkCellId a 0) v rev Accept.
Definition demo_data (h : CellHeader) (payload : list Z) : list Z := header_bytes h ++ payload.
Definition demo_payload : list Z := seqZ 0 40.
Definition demo_world : World :=
  mkWorld {[ 11 := mkCell 42 1000 (demo_data (demo_header 5 3 0) demo_payload);
             12 := mkCell 42 2000 (demo_data (demo_header 6 4 7) (replicate 48 1)) ]} ∅ [].
Definition demo_state : Abs :=
  {[ 11 := (demo_header 5 3 0, demo_payload); 12 := (demo_header 6 4 7, replicate 48 1) ]}.

Lemma demo_represents : represents demo_state demo_world.
Proof.
  intros k c. unfold demo_state. rewrite lookup_insert_Some, lookup_singleton_Some.
  intros [[<- <-]|[_ [<- <-]]]; by vm_compute.
Qed.

Definition demo_infos : list AccountInfo := [mkInfo 11 false true; mkInfo 12 false true].

Definition demo_calls : list Call :=
  [CSet [11; 12] 9; CFoldHashes [11; 12] 9 2; CCopy [11] [12; 11]; CSumSizes 12 [11; 12]].

Section executor.
Context `{R : Runtime, !RuntimeLaws R, HC : HeaderCodec, !HeaderCodecLaws HC}.
Context `{C : InstructionCodec, !InstructionCodecLaws R C, K : IntentSdk, B : BuildSdk}.

(** C1: end to end.  Take any sequence of cell calls on a fresh [Batch] (set, add, fill,
    hash, fold hashes, copy, sum sizes, undelegation outcome, log), build and serialise
    the instruction, and process the bytes with the accounts the built metas name.  If
    the calls have an effect on the abstract cells, [process] returns [Ok] and leaves
    exactly that effect in the accounts: values, payloads and revisions of the named
    cells change as specified, and owners, balances, borrows and all other accounts stay. *)
Theorem built_batch_refines_calls pid cs b infos w σ σ' :
  calls cs (Program_batch pid) = Some b -> fits cs -> Forall Call_wf cs ->
  key <$> infos = pubkey <$> ix_accounts (Batch_build b) ->
  represents σ w -> borrowed w = ∅ -> effects cs σ = Some σ' ->
  reaches (process pid infos (ix_data (Batch_build b))) w σ σ'.
Proof. apply calls_end_to_end. Qed.

(** C2: the executor refines the cell specification.  Whenever the specification gives
    the operations an outcome, [run] returns [Ok] (in particular no copy trips over its
    own shared borrow), the outcome is what the accounts then hold, and nothing else
    changed. *)
Theorem run_refines_spec pid infos ops w σ σ' :
  represents σ w -> borrowed w = ∅ -> Forall Operation_wf ops ->
  abs_run (key <$> infos) ops σ = Some σ' ->
  reaches (run pid infos ops) w σ σ'.
Proof. apply run_from_reaches. Qed.

(** C3: a run of cell operations, also one that fails half way and returns an error,
    keeps every cell a cell with the same identity and size, never decreases a revision,
    and leaves non-cell accounts, owners, balances and borrows alone. *)
Theorem run_preserves_cells pid infos ops w :
  Forall (fun op => cell_operation op = true) ops -> Forall Operation_wf ops ->
  evolves w (run pid infos ops w).2.
Proof. intros Hc Hw. by apply run_from_evolves. Qed.

(** trailing bytes after any instruction other than [HandleResult] are rejected
    before anything runs. *)
Theorem process_rejects_trailing pid infos i rest w :
  Instruction_wf i -> is_handle_result i = false -> rest <> [] ->
  process pid infos (Instruction_into_data i ++ rest) w = (Err InvalidInstructionData, w).
Proof.
  intros Hi Hh Hr. rewrite process_dispatch by done. by rewrite bool_decide_eq_false_2, Hh.
Qed.

(** creating a cell, end to end.  The instruction [Program::create] builds, processed
    with the accounts it names, leaves at the derived address a zero-value cell of
    revision 0 with the requested identity and size, once the system call that allocates
    the account succeeds. *)
Theorem create_end_to_end pid payer i space w w1 :
  CellId_wf i -> Z.of_nat CellHeader_SIZE <= space -> is_u 32 space -> borrowed w = ∅ ->
  let pda := (Program_pda pid i).1 in
  let ix := (Program_create pid payer i space).1 in
  create_pda (mkInfo pda false true) pid space
    [CellId_seeds i ++ [[(CellId_pda i pid).2]]]
    (mkInfo system_program_id false false) (mkInfo payer true true) true w = (Ok tt, w1) ->
  exists d, process pid (infos_of (ix_accounts ix)) (ix_data ix) w = (Ok tt, set_data pda d w1) /\
    cell_of d = Some (CellHeader_new i, drop CellHeader_SIZE (data (account w1 pda))) /\
    Z.of_nat (length d) = space.
Proof.
  intros Hi Hs Hu Hb pda ix Hc.
  destruct (create_Ok pid (mkInfo payer true true) (mkInfo (authority i) true false)
    (mkInfo pda false true) (mkInfo system_program_id false false) i space w w1)
    as (d & Hd & ? & ?); [done..|].
  exists d. split; [|done]. subst ix. cbn [Program_create fst Program_encode ix_data].
  rewrite process_built by done. exact Hd.
Qed.

(** resizing keeps the cell.  After the rent top-up and the runtime's resize succeed,
    [resize] returns [Ok] and the cell has the same header with its revision one higher
    and its payload truncated or extended with zeros. *)
Theorem resize_preserves_cell pid payer cell system space required w w1 w2 h p :
  is_signer payer = true -> Z.of_nat CellHeader_SIZE <= space ->
  cell_of (data (account w (key cell))) = Some (h, p) ->
  key cell = (CellId_pda (id h) pid).1 -> revision h < u64_max ->
  rent_minimum_balance space w = (Ok required, w) ->
  fund payer cell system required w = (Ok tt, w1) ->
  data (account w1 (key cell)) = data (account w (key cell)) -> borrowed w1 = ∅ ->
  account_resize cell space w1 = (Ok tt, w2) ->
  exists d, resize pid [payer; cell; system] space w = (Ok tt, set_data (key cell) d w1) /\
    cell_of d = Some (bump h, resized space p).
Proof. apply resize_Ok. Qed.

(** a deferred action reaches the executor only through its guard.  When the source
    program, the escrow signature or the guarded cell's owner is wrong, processing an
    [Action] instruction fails and changes nothing; otherwise it is [run] on its
    operations. *)
Theorem action_is_guarded pid infos nonce g ops w :
  Instruction_wf (IxAction nonce g ops) ->
  if action_guard pid infos g w
  then process pid infos (Instruction_into_data (IxAction nonce g ops)) w = run pid infos ops w
  else exists e, process pid infos (Instruction_into_data (IxAction nonce g ops)) w = (Err e, w).
Proof. intros Hi. rewrite !process_built by done. apply run_action_guarded. Qed.

(** a result callback that is not signed by the callback signer is refused and
    changes nothing, whatever payload follows the instruction. *)
Theorem callback_is_authenticated pid signer cell remaining payload w :
  key signer <> callback_signer \/ is_signer signer = false ->
  process pid (signer :: cell :: remaining) (Instruction_into_data IxHandleResult ++ payload) w
    = (Err MissingRequiredSignature, w).
Proof.
  intros Hs. rewrite process_dispatch by done. rewrite orb_true_r.
  by apply handle_result_unauthorised.
Qed.

(** C22: the callback of a failed action refunds.  With a recipient other than the cell,
    [handle_result] moves exactly the refund from the cell to the recipient, keeps the
    total and every other balance, and counts the failure in the cell's value. *)
Theorem failed_callback_refunds signer cell rcpt data payload effect r w h p :
  key signer = callback_signer -> is_signer signer = true ->
  magic_response data = Some (false, payload) -> callback_deserialize payload = Some effect ->
  key cell = rc_cell effect -> rc_refund effect = Some r -> key rcpt = recipient r ->
  amount r <= lamports (account w (key cell)) ->
  lamports (account w (key rcpt)) + amount r < u64_bound ->
  borrowed w = ∅ -> cell_of (World.data (account w (key cell))) = Some (h, p) ->
  value h < u64_max -> revision h < u64_max ->
  key rcpt <> key cell ->
  exists w', handle_result [signer; cell; rcpt] data w = (Ok tt, w') /\
    cell_of (World.data (account w' (key cell))) = Some (bump (with_value (value h + 1) h), p) /\
    lamports (account w' (key cell)) = lamports (account w (key cell)) - amount r /\
    lamports (account w' (key rcpt)) = lamports (account w (key rcpt)) + amount r /\
    forall k, k <> key cell -> k <> key rcpt -> account w' k = account w k.
Proof.
  intros Hk Hs Hm Hc Hcell Hr Hrk Hle Hlt Hb Hd Hv Hrev Hne.
  destruct (handle_result_failed signer cell rcpt data payload effect r w h p)
    as (d & Hres & Hd'); [done..|].
  eexists. split; [exact Hres|]. autorewrite with world. split_and!; [done| |done|].
  - rewrite account_set_lamports_ne by done. by autorewrite with world.
  - intros k Hk1 Hk2. rewrite account_set_data_ne by done.
    by rewrite !account_set_lamports_ne by done.
Qed.

(** C23: the same callback whose refund names the cell itself as recipient does not leave
    the balance alone: both new balances are computed before either is stored, so the
    cell ends with the refund added, lamports that no account was debited for. *)
Theorem aliased_refund_mints signer cell rcpt data payload effect r w h p :
  key signer = callback_signer -> is_signer signer = true ->
  magic_response data = Some (false, payload) -> callback_deserialize payload = Some effect ->
  key cell = rc_cell effect -> rc_refund effect = Some r -> key rcpt = recipient r ->
  amount r <= lamports (account w (key cell)) ->
  lamports (account w (key rcpt)) + amount r < u64_bound ->
  borrowed w = ∅ -> cell_of (World.data (account w (key cell))) = Some (h, p) ->
  value h < u64_max -> revision h < u64_max ->
  key rcpt = key cell ->
  exists w', handle_result [signer; cell; rcpt] data w = (Ok tt, w') /\
    lamports (account w' (key cell)) = lamports (account w (key cell)) + amount r /\
    forall k, k <> key cell -> account w' k = account w k.
Proof.
  intros Hk Hs Hm Hc Hcell Hr Hrk Hle Hlt Hb Hd Hv Hrev Heq.
  destruct (handle_result_failed signer cell rcpt data payload effect r w h p)
    as (d & Hres & Hd'); [done..|].
  eexists. split; [exact Hres|]. rewrite Heq. autorewrite with world. split; [done|].
  intros k Hk1. rewrite account_set_data_ne by done.
  by rewrite !account_set_lamports_ne by done.
Qed.

(** undelegation hands the account back and then honours the recorded outcome: error
    111 exactly when the cell asked to reject. *)
Theorem undelegation_honours_outcome pid cell buffer payer system more data seeds w w1 h :
  decode_seeds data = Some seeds ->
  undelegate_account cell pid buffer payer system seeds w = (Ok tt, w1) ->
  CellHeader_try_decode (World.data (account w1 (key cell))) = Some h ->
  undelegate pid (cell :: buffer :: payer :: system :: more) data w =
    (if bool_decide (undelegation h = Reject) then Err (Custom 111) else Ok tt, w1).
Proof. apply undelegate_outcome. Qed.
End executor.

Section settlement_props.
Context `{R : Runtime, C : InstructionCodec, K : IntentSdk}.

(** settling succeeds in building its bundle exactly when every account index is in
    range, every action's authority is among the accounts and every callback
    serialises; otherwise it returns an error before calling anything and the world is
    untouched. *)
Theorem settlement_is_all_or_nothing pid accounts s w :
  if settlement_resolves accounts s
  then exists b, build_bundle pid accounts s = Ok b /\
         settlement_invoke pid accounts s w = build_and_invoke b w
  else exists e, settlement_invoke pid accounts s w = (Err e, w).
Proof.
  rewrite <-(build_bundle_is_ok pid). unfold settlement_invoke, mbind, M_bind, lift.
  destruct (build_bundle pid accounts s); simpl; by eexists.
Qed.
End settlement_props.

Section recorded_props.
Context `{R : Runtime, C : InstructionCodec}.

(** what the SDK's builder is told.  Recording the calls made on it, the bundle of a
    settlement is: payer, context and program; the vault when there is one; the intents
    in order, each with its resolved cells and its actions after commit and after
    undelegation in order, with their callbacks; then the standalone actions. *)
Theorem settlement_bundle_is_described pid accounts s :
  @build_bundle R C ref_sdk pid accounts s = record_settlement pid accounts s.
Proof. apply build_bundle_records. Qed.
End recorded_props.

(** the accounts of a batch are exactly the addresses asked for, each once, and an
    account is a signer or writable exactly when some request for it asked so. *)
Theorem intern_is_least_privilege pid ms ids b :
  intern ms (Program_batch pid) = Some (ids, b) ->
  NoDup (keys b) /\ (forall k, k ∈ keys b <-> k ∈ pubkey <$> ms) /\
  forall e, e ∈ b_accounts b ->
    meta_signer e = requested meta_signer ms (pubkey e) /\
    meta_writable e = requested meta_writable ms (pubkey e).
Proof.
  intros Hi. assert (interned (Program_batch pid)) as H0.
  { split; [constructor|]. simpl. unfold u16_bound. lia. }
  assert (collected [] (Program_batch pid)) as Hc.
  { split; [done|]. intros e He. by apply elem_of_nil in He. }
  pose proof (intern_collects ms [] _ _ _ H0 Hc Hi) as [Hk He].
  apply intern_spec in Hi as ([Hnd _] & _); [|done]. by split_and!.
Qed.

(** an index handed out by a batch fits 16 bits, names the address it was asked for,
    and keeps naming it, with at least the same privileges, after any later calls. *)
Theorem batch_index_is_stable m b i b1 cs b2 made :
  holds b made -> Batch_account m b = Some (i, b1) -> calls cs b1 = Some b2 ->
  is_u 16 i /\ exists e, b_accounts b2 !! Z.to_nat i = Some e /\ pubkey e = pubkey m /\
    (meta_signer m = true -> meta_signer e = true) /\
    (meta_writable m = true -> meta_writable e = true).
Proof.
  intros [Hi Hm] Ha Hc.
  destruct (Batch_account_spec _ _ _ _ Hi Ha) as (I1 & G1 & [Hu _] & O1 & e & He & Hs).
  assert (holds b1 made) as H1.
  { split; [done|]. rewrite O1. eapply Forall2_impl; [done|]. intros. by eapply means_grows. }
  destruct (calls_hold _ _ _ _ H1 Hc) as [_ (_ & _ & _ & Hg)].
  destruct (Hg _ _ He) as (e' & He' & Hs'). split; [done|]. exists e'.
  split; [done|]. by eapply stronger_trans.
Qed.

(** * Witnesses *)

Definition demo_batch : Batch := default (Program_batch 42) (calls demo_calls (Program_batch 42)).
Definition demo_after : Abs := default ∅ (effects demo_calls demo_state).

Lemma built_batch_refines_calls_witness :
  reaches (process 42 demo_infos (ix_data (Batch_build demo_batch))) demo_world demo_state demo_after.
Proof.
  apply (built_batch_refines_calls 42 demo_calls demo_batch).
  - by vm_compute.
  - by vm_compute.
  - repeat constructor; by vm_compute.
  - by vm_compute.
  - exact demo_represents.
  - done.
  - by vm_compute.
Defined.

Definition demo_ops : list Operation := [OpAdd [0; 1] (-3); OpFill [0] 7 1; OpCopy [0] [0; 1]].

Lemma run_refines_spec_witness :
  reaches (run 42 demo_infos demo_ops) demo_world demo_state
    (default ∅ (abs_run [11; 12] demo_ops demo_state)).
Proof.
  apply (run_refines_spec 42 demo_infos demo_ops).
  - exact demo_represents.
  - done.
  - repeat constructor; by vm_compute.
  - by vm_compute.
Defined.

(** The second operation fails: [Add] below zero. *)
Lemma run_preserves_cells_witness :
  is_ok (run 42 demo_infos [OpSet [0] 1; OpAdd [0; 1] (-2)] demo_world).1 = false /\
  evolves demo_world (run 42 demo_infos [OpSet [0] 1; OpAdd [0; 1] (-2)] demo_world).2.
Proof.
  split; [by vm_compute|]. apply (run_preserves_cells 42 demo_infos).
  - repeat constructor.
  - repeat constructor; by vm_compute.
Defined.

Lemma process_rejects_trailing_witness :
  process 42 demo_infos (Instruction_into_data (IxExecute 0 [OpSet [0] 1]) ++ [0]) demo_world =
  (Err InvalidInstructionData, demo_world).
Proof.
  apply (process_rejects_trailing 42 demo_infos (IxExecute 0 [OpSet [0] 1]) [0]).
  - split; [by vm_compute|]. split; [|by vm_compute]. repeat constructor; by vm_compute.
  - done.
  - done.
Defined.

Definition demo_id : CellId := mkCellId 5 1.
Definition demo_pda : Pubkey := (CellId_pda demo_id 42).1.

Lemma create_end_to_end_witness :
  exists d w1, process 42 (infos_of (ix_accounts (Program_create 42 5 demo_id 80).1))
      (ix_data (Program_create 42 5 demo_id 80).1) demo_world = (Ok tt, set_data demo_pda d w1) /\
    Z.of_nat (length d) = 80.
Proof.
  destruct (create_end_to_end 42 5 demo_id 80 demo_world
    (set_account demo_pda (mkCell 42 0 (replicate 80 0)) demo_world)) as (d & Hd & _ & Hl).
  - split; by vm_compute.
  - by vm_compute.
  - by vm_compute.
  - done.
  - by vm_compute.
  - eexists d, _. split; [exact Hd|exact Hl].
Defined.

Definition demo_cell_world : World :=
  mkWorld {[ demo_pda := mkCell 42 9999999 (demo_data (CellHeader_new demo_id) [1; 2; 3]) ]} ∅ [].

Lemma resize_preserves_cell_witness :
  exists d w1, resize 42 [mkInfo 5 true true; mkInfo demo_pda false true; mkInfo 0 false false] 70
      demo_cell_world = (Ok tt, set_data demo_pda d w1) /\
    cell_of d = Some (bump (CellHeader_new demo_id), [1; 2; 3; 0; 0; 0]).
Proof.
  destruct (resize_preserves_cell 42 (mkInfo 5 true true) (mkInfo demo_pda false true)
    (mkInfo 0 false false) 70 ((128 + 70) * 6960) demo_cell_world demo_cell_world
    (account_resize (mkInfo demo_pda false true) 70 demo_cell_world).2
    (CellHeader_new demo_id) [1; 2; 3]) as (d & Hd & Hc).
  - done.
  - by vm_compute.
  - by vm_compute.
  - by vm_compute.
  - by vm_compute.
  - done.
  - by vm_compute.
  - done.
  - done.
  - by vm_compute.
  - exists d, demo_cell_world. split; [exact Hd|]. rewrite Hc. by vm_compute.
Defined.

Lemma action_is_guarded_witness :
  exists e, process 42 demo_infos
    (Instruction_into_data (IxAction 1 (mkGuard 11 42) [OpSet [0] 1])) demo_world
    = (Err e, demo_world).
Proof.
  pose proof (action_is_guarded 42 demo_infos 1 (mkGuard 11 42) [OpSet [0] 1] demo_world) as Ha.
  apply Ha. split; [by vm_compute|]. split; [by vm_compute|].
  split; [|by vm_compute]. repeat constructor; by vm_compute.
Defined.

Lemma callback_is_authenticated_witness :
  process 42 [mkInfo 77 false false; mkInfo 11 false true]
    (Instruction_into_data IxHandleResult ++ [1; 2]) demo_world
    = (Err MissingRequiredSignature, demo_world).
Proof. apply (callback_is_authenticated 42 (mkInfo 77 false false)). by right. Defined.

Definition demo_callback (rcpt : Pubkey) : ResultCallback :=
  mkResultCallback 11 (Some (mkRefund rcpt 100)) 5000.
Definition demo_response (rcpt : Pubkey) : list Z :=
  0 :: default [] (callback_serialize (demo_callback rcpt)).

Lemma failed_callback_refunds_witness :
  exists w', handle_result [mkInfo 77 true false; mkInfo 11 false true; mkInfo 12 false true]
      (demo_response 12) demo_world = (Ok tt, w') /\
    lamports (account w' 11) = 900 /\ lamports (account w' 12) = 2100.
Proof.
  destruct (failed_callback_refunds (mkInfo 77 true false) (mkInfo 11 false true)
    (mkInfo 12 false true) (demo_response 12) (default [] (callback_serialize (demo_callback 12)))
    (demo_callback 12) (mkRefund 12 100) demo_world (demo_header 5 3 0) demo_payload)
    as (w' & Hr & _ & H1 & H2 & _); try done; try (by vm_compute).
  exists w'. split; [exact Hr|]. split; [exact H1|exact H2].
Defined.

Lemma aliased_refund_mints_witness :
  exists w', handle_result [mkInfo 77 true false; mkInfo 11 false true; mkInfo 11 false true]
      (demo_response 11) demo_world = (Ok tt, w') /\ lamports (account w' 11) = 1100.
Proof.
  destruct (aliased_refund_mints (mkInfo 77 true false) (mkInfo 11 false true)
    (mkInfo 11 false true) (demo_response 11) (default [] (callback_serialize (demo_callback 11)))
    (demo_callback 11) (mkRefund 11 100) demo_world (demo_header 5 3 0) demo_payload)
    as (w' & Hr & H1 & _); try done; try (by vm_compute).
  exists w'. split; [exact Hr|exact H1].
Defined.

Definition reject_world : World :=
  mkWorld {[ 11 := mkCell 42 0 (header_bytes (mkHeader (mkCellId 5 0) 1 1 Reject)) ]} ∅ [].
Definition demo_seeds : list Z := put (vec_c bytes_c) [[99]].

Lemma undelegation_honours_outcome_witness :
  undelegate 42 [mkInfo 11 false true; mkInfo 1 false true; mkInfo 2 true true; mkInfo 0 false false]
    demo_seeds reject_world = (Err (Custom 111), reject_world).
Proof.
  apply (undelegation_honours_outcome 42 (mkInfo 11 false true) (mkInfo 1 false true)
    (mkInfo 2 true true) (mkInfo 0 false false) [] demo_seeds [[99]] reject_world reject_world
    (mkHeader (mkCellId 5 0) 1 1 Reject)); by vm_compute.
Defined.

Definition demo_metas : list AccountMeta :=
  [meta_new 7 false; meta_new_readonly 8 true; meta_new_readonly 7 true].
Definition demo_interned : list Z * Batch :=
  default ([], Program_batch 42) (intern demo_metas (Program_batch 42)).

Lemma intern_is_least_privilege_witness :
  NoDup (keys demo_interned.2) /\ b_accounts demo_interned.2 = [meta_new 7 true; meta_new_readonly 8 true].
Proof.
  destruct (intern_is_least_privilege 42 demo_metas demo_interned.1 demo_interned.2) as [Hn _];
    [by vm_compute|]. split; [exact Hn|by vm_compute].
Defined.

Lemma batch_index_is_stable_witness :
  exists e, b_accounts (default (Program_batch 42)
    (calls [CSet [11; 12] 1] (mkBatch 42 [meta_new_readonly 12 true] [] 0))) !! 0%nat = Some e /\
    pubkey e = 12 /\ meta_signer e = true.
Proof.
  destruct (batch_index_is_stable (meta_new_readonly 12 true) (Program_batch 42) 0
    (mkBatch 42 [meta_new_readonly 12 true] [] 0) [CSet [11; 12] 1]
    (default (Program_batch 42)
      (calls [CSet [11; 12] 1] (mkBatch 42 [meta_new_readonly 12 true] [] 0))) [])
    as (_ & e & He & Hk & Hs & _).
  - apply (holds_batch 42).
  - by vm_compute.
  - by vm_compute.
  - exists e. split; [exact He|]. split; [exact Hk|by apply Hs].
Defined.
