(* ===== verification/Causal.v ===== *)
(** Causal chains: [core/src/redline/causal.rs].

    A pair of cells A and B is driven by three kinds of step, and a local
    [PairModel] predicts what the cells hold.  The prediction is compared with
    the accounts read back; here it is related to the executor itself. *)
From S2P Require Import Prelude World Cell Instr Settlement Execute CellSpec Build BuildSpec Fixture.

Inductive Step := StepX | StepY | StepZ.

Definition Step_ALL : list Step := [StepX; StepY; StepZ].
Definition Step_index (s : Step) : nat := match s with StepX => 0 | StepY => 1 | StepZ => 2 end.
Definition Step_label (s : Step) : string :=
  match s with StepX => "X(A)" | StepY => "Y(A,B)" | StepZ => "Z(B)" end.
Definition Step_accounts (s : Step) (a b : Pubkey) : list Pubkey :=
  match s with StepX => [a] | StepY => [a; b] | StepZ => [b] end.

Record PairModel := mkPair { pm_a : list Z; pm_b : list Z; pm_a_id : Z; pm_b_id : Z }.

Definition PairModel_default : PairModel := mkPair (replicate 32 0) (replicate 32 0) 0 0.

Definition CU_LIMIT : Z := 1400000.
Definition HASH_INIT : list Z := replicate 32 7.

(** What [compare] reports, for the account labelled A ([false]) or B ([true]). *)
Inductive CompareError :=
| AccountMissing (label : bool)
| HeaderInvalid (label : bool)
| PayloadInvalid (label : bool)
| HashMissing (label : bool)
| Mismatch (label : bool).

(** Lower-case hex, two digits a byte. *)
Definition hex_digit (n : Z) : Ascii.ascii :=
  Ascii.ascii_of_nat (Z.to_nat (if n <? 10 then 48 + n else 87 + n)).
Fixpoint hex (bytes : list Z) : string :=
  match bytes with
  | [] => EmptyString
  | b :: bytes => String (hex_digit (b / 16)) (String (hex_digit (b mod 16)) (hex bytes))
  end.

Section causal.
Context `{R : Runtime, HC : HeaderCodec, C : InstructionCodec}.
(** The program id of the Redline fixture and of the compute budget program. *)
Context (redline compute_budget : Pubkey).

Definition PairModel_apply (m : PairModel) (s : Step) (id iters : Z) : PairModel :=
  match s with
  | StepX => mkPair (HashState_fold id [pm_a m] iters) (pm_b m) id (pm_b_id m)
  | StepY => let merged := HashState_fold id [pm_a m; pm_b m] iters in
             mkPair merged merged id id
  | StepZ => mkPair (pm_a m) (HashState_fold id [pm_b m] iters) (pm_a_id m) id
  end.

(** One turn of the loop in [compare]. *)
Definition compare_one (label : bool) (acc : option (list Z)) (hash : list Z) (id : Z)
  : Result unit CompareError :=
  let? d := ok_or acc (AccountMissing label) in
  let? h := ok_or (CellHeader_try_decode d) (HeaderInvalid label) in
  let? payload := match CellHeader_payload d with
                  | Ok p => Ok p
                  | Err _ => Err (PayloadInvalid label)
                  end in
  ensure! (layout_HASH_SIZE <=? length payload)%nat else HashMissing label in
  ensure! bool_decide (take layout_HASH_SIZE payload = hash) && (value h =? id)
    else Mismatch label in
  Ok tt.

Definition PairModel_compare (m : PairModel) (accounts : option (list Z) * option (list Z))
  : Result unit CompareError :=
  let? _ := compare_one false accounts.1 (pm_a m) (pm_a_id m) in
  compare_one true accounts.2 (pm_b m) (pm_b_id m).

Definition compute_unit_limit (limit : Z) : SolInstruction :=
  mkIx compute_budget [] (2 :: le_bytes 4 limit).

Definition chain_ixs (id iters : Z) (accounts : list Pubkey) : option (list SolInstruction) :=
  fold ← Program_fold_hashes redline id iters accounts;
  Some (if 0 <? iters then [compute_unit_limit CU_LIMIT; fold] else [fold]).

Definition independent_ixs (id : Z) (acc : Pubkey) (iters : Z) : option (list SolInstruction) :=
  hash ← Program_hash redline id HASH_INIT iters [acc];
  Some [compute_unit_limit CU_LIMIT; hash].
End causal.

(** * The pair as the driver keeps it *)

Record CausalPair := mkCausalPair
  { cp_a : Pubkey; cp_b : Pubkey; cp_model : PairModel; cp_last_signature : option Z }.

Definition CausalPair_new (a b : Pubkey) : CausalPair := mkCausalPair a b PairModel_default None.

Section pair.
Context `{R : Runtime, HC : HeaderCodec, C : InstructionCodec}.
Context (redline compute_budget : Pubkey).
(** [senders[i].prepare] and [submit_prepared] against the validator. *)
Context {Error : Type} (submit : nat -> list SolInstruction -> Result Z Error) (panic : Error).

Definition CausalPair_send (c : CausalPair) (s : Step) (id iters : Z)
  : Result Z Error * CausalPair :=
  match chain_ixs redline compute_budget id iters (Step_accounts s (cp_a c) (cp_b c)) with
  | None => (Err panic, c)
  | Some ixs =>
      match submit (Step_index s) ixs with
      | Err e => (Err e, c)
      | Ok signature =>
          (Ok signature,
           mkCausalPair (cp_a c) (cp_b c) (PairModel_apply (cp_model c) s id iters)
             (Some signature))
      end
  end.

Definition CausalPair_compare (c : CausalPair) (accounts : option (list Z) * option (list Z))
  : Result unit CompareError := PairModel_compare (cp_model c) accounts.

(** [verify]: read both accounts, then compare. *)
Definition CausalPair_verify (c : CausalPair) (read : Pubkey -> option (list Z))
  : Result unit CompareError := CausalPair_compare c (read (cp_a c), read (cp_b c)).
End pair.

(** * The prediction against the executor *)

(** One call of the driver: a step, its id and its iterations. *)
Record Drive := mkDrive { dr_step : Step; dr_id : Z; dr_iters : Z }.
Definition Drive_wf (d : Drive) : Prop := is_u 64 (dr_id d) /\ is_u 32 (dr_iters d).

Section agreement.
Context `{R : Runtime, !RuntimeLaws R, HC : HeaderCodec, !HeaderCodecLaws HC}.
Context `{C : InstructionCodec, !InstructionCodecLaws R C, K : IntentSdk, B : BuildSdk}.
Context (redline : Pubkey) (a b : Pubkey) (Hab : a <> b).

(** The fixture instruction of a step, processed with the accounts it names. *)
Definition drive_one (d : Drive) : M unit := fun w =>
  match Program_fold_hashes redline (dr_id d) (dr_iters d) (Step_accounts (dr_step d) a b) with
  | Some ix => process redline (infos_of (ix_accounts ix)) (ix_data ix) w
  | None => (Err InvalidArgument, w)
  end.

Definition predict (m : PairModel) (ds : list Drive) : PairModel :=
  foldl (fun m d => PairModel_apply m (dr_step d) (dr_id d) (dr_iters d)) m ds.

(** A cell holds a hash and an id, with room for [n] more revisions. *)
Definition cell_agrees (σ : Abs) (k : Pubkey) (hash : list Z) (v : Z) (n : nat) : Prop :=
  exists h p, σ !! k = Some (h, p) /\ value h = v /\ (32 <= length p)%nat /\ take 32 p = hash /\
    revision h + 2 * Z.of_nat n <= u64_max.

Definition agrees (σ : Abs) (m : PairModel) (n : nat) : Prop :=
  cell_agrees σ a (pm_a m) (pm_a_id m) n /\ cell_agrees σ b (pm_b m) (pm_b_id m) n.

Lemma cell_agrees_weaken σ k hash v n : cell_agrees σ k hash v (S n) -> cell_agrees σ k hash v n.
Proof. intros (h & p & ? & ? & ? & ? & ?). exists h, p. split_and!; try done. lia. Qed.

Lemma cell_agrees_insert_ne σ k k' c hash v n :
  k' <> k -> cell_agrees σ k hash v n -> cell_agrees (<[k' := c]> σ) k hash v n.
Proof. intros Hk (h & p & Hl & ?). exists h, p. by rewrite lookup_insert_ne. Qed.

Lemma cell_agrees_insert σ k h p bytes v n :
  value h = v -> length bytes = 32%nat -> (32 <= length p)%nat ->
  revision h + 2 * Z.of_nat n <= u64_max ->
  cell_agrees (<[k := (h, bytes ++ drop 32 p)]> σ) k bytes v n.
Proof.
  intros Hv Hb Hp Hr. eexists _, _. rewrite lookup_insert_eq. split_and!; [done|done| | |done].
  - rewrite length_app, length_drop. lia.
  - by rewrite take_app_length'.
Qed.

(** Setting a value and overwriting the hash of the cells [ks], one call each. *)
Lemma hash_at_agrees σ k hash v n : cell_agrees σ k hash v n -> hash_at σ k = Some hash.
Proof.
  intros (h & p & Hl & _ & Hp & Ht & _). unfold hash_at. rewrite Hl. cbn.
  rewrite bool_decide_eq_true_2 by done. by rewrite Ht.
Qed.

Lemma abs_update_Some g k σ h p h' p' :
  σ !! k = Some (h, p) -> g h p = Some (h', p') -> revision h' < u64_max ->
  abs_update g k σ = Some (<[k := (bump h', p')]> σ).
Proof.
  intros Hl Hg Hr. unfold abs_update. rewrite Hl. cbn. rewrite Hg. cbn.
  by rewrite bool_decide_eq_true_2.
Qed.

Lemma overwrite_Some bytes k σ h p :
  σ !! k = Some (h, p) -> length bytes = 32%nat -> (32 <= length p)%nat ->
  revision h < u64_max ->
  overwrite bytes k σ = Some (<[k := (bump h, bytes ++ drop 32 p)]> σ).
Proof.
  intros Hl Hb Hp Hr. eapply abs_update_Some; [done| |done].
  unfold overwritten. rewrite bool_decide_eq_true_2 by lia. cbn. by rewrite Hb.
Qed.

(** Both calls of [fold_hashes] on one cell. *)
Lemma fold_one_effect σ k hash v n id iters :
  cell_agrees σ k hash v (S n) ->
  exists h p, effects [CSet [k] id; CFoldHashes [k] id iters] σ =
      Some (<[k := (h, HashState_fold id [hash] iters ++ drop 32 p)]> σ) /\
    value h = id /\ (32 <= length p)%nat /\ revision h + 2 * Z.of_nat n <= u64_max.
Proof.
  intros (h & p & Hl & Hv & Hp & Ht & Hr). exists (bump (bump (with_value id h))), p.
  split_and!; [|done|done|simpl; lia].
  cbn [effects effect key_each].
  rewrite (abs_update_Some _ k σ h p (with_value id h) p) by (done || (simpl; lia)). cbn.
  unfold hash_at. rewrite lookup_insert_eq. cbn. rewrite bool_decide_eq_true_2 by done. cbn.
  rewrite (overwrite_Some _ k _ (bump (with_value id h)) p); [|by rewrite lookup_insert_eq|
    by apply length_HashState_fold|done|simpl; lia].
  cbn. by rewrite insert_insert_eq, Ht.
Qed.

Lemma fold_two_effect σ ha hb va vb n id iters :
  cell_agrees σ a ha va (S n) -> cell_agrees σ b hb vb (S n) ->
  let bytes := HashState_fold id [ha; hb] iters in
  exists h p h' p', effects [CSet [a; b] id; CFoldHashes [a; b] id iters] σ =
      Some (<[b := (h', bytes ++ drop 32 p')]> (<[a := (h, bytes ++ drop 32 p)]> σ)) /\
    value h = id /\ value h' = id /\ (32 <= length p)%nat /\ (32 <= length p')%nat /\
    revision h + 2 * Z.of_nat n <= u64_max /\ revision h' + 2 * Z.of_nat n <= u64_max.
Proof.
  intros (h & p & Hl & Hv & Hp & Ht & Hr) (h' & p' & Hl' & Hv' & Hp' & Ht' & Hr') bytes.
  exists (bump (bump (with_value id h))), p, (bump (bump (with_value id h'))), p'.
  split_and!; try done; try (simpl; lia).
  cbn [effects effect key_each].
  rewrite (abs_update_Some _ a σ h p (with_value id h) p) by (done || (simpl; lia)). cbn.
  rewrite (abs_update_Some _ b _ h' p' (with_value id h') p')
    by (rewrite ?lookup_insert_ne by done; done || (simpl; lia)). cbn.
  set (σ1 := <[b := _]> (<[a := _]> σ)).
  assert (σ1 !! a = Some (bump (with_value id h), p)) as Ha
    by (subst σ1; by rewrite lookup_insert_ne, lookup_insert_eq).
  assert (σ1 !! b = Some (bump (with_value id h'), p')) as Hb
    by (subst σ1; by rewrite lookup_insert_eq).
  unfold hash_at. rewrite Ha, Hb. cbn. rewrite !bool_decide_eq_true_2 by done. cbn.
  rewrite Ht, Ht'. fold bytes.
  assert (length bytes = 32%nat) as Hbl by apply length_HashState_fold.
  rewrite (overwrite_Some bytes a σ1 _ _ Ha) by (done || (simpl; lia)). cbn.
  rewrite (overwrite_Some bytes b _ (bump (with_value id h')) p')
    by (rewrite ?lookup_insert_ne by done; done || (simpl; lia)). cbn. f_equal.
  subst σ1. rewrite (insert_insert_ne _ b a) by done.
  rewrite !insert_insert_eq. rewrite (insert_insert_ne _ a b) by done.
  by rewrite insert_insert_eq.
Qed.

Definition drive_calls (d : Drive) : list Call :=
  let ks := Step_accounts (dr_step d) a b in
  [CSet ks (dr_id d); CFoldHashes ks (dr_id d) (dr_iters d)].

Lemma drive_effect σ m n d :
  agrees σ m (S n) ->
  exists σ', effects (drive_calls d) σ = Some σ' /\
    agrees σ' (PairModel_apply m (dr_step d) (dr_id d) (dr_iters d)) n /\
    forall k, k <> a -> k <> b -> σ' !! k = σ !! k.
Proof.
  intros [Ha Hb]. destruct d as [s id iters]. unfold drive_calls. cbn [dr_step dr_id dr_iters].
  destruct s; cbn [Step_accounts PairModel_apply].
  - destruct (fold_one_effect σ a _ _ n id iters Ha) as (h & p & He & ? & ? & ?).
    eexists. split; [exact He|]. split; [|by intros; rewrite !lookup_insert_ne]. split; cbn [pm_a pm_b pm_a_id pm_b_id].
    + by apply cell_agrees_insert; [|apply length_HashState_fold|..].
    + by apply cell_agrees_insert_ne, cell_agrees_weaken.
  - destruct (fold_two_effect σ _ _ _ _ n id iters Ha Hb)
      as (h & p & h' & p' & He & ? & ? & ? & ? & ? & ?).
    eexists. split; [exact He|]. split; [|by intros; rewrite !lookup_insert_ne]. split; cbn [pm_a pm_b pm_a_id pm_b_id].
    + apply cell_agrees_insert_ne; [done|].
      by apply cell_agrees_insert; [|apply length_HashState_fold|..].
    + by apply cell_agrees_insert; [|apply length_HashState_fold|..].
  - destruct (fold_one_effect σ b _ _ n id iters Hb) as (h & p & He & ? & ? & ?).
    eexists. split; [exact He|]. split; [|by intros; rewrite !lookup_insert_ne]. split; cbn [pm_a pm_b pm_a_id pm_b_id].
    + by apply cell_agrees_insert_ne, cell_agrees_weaken.
    + by apply cell_agrees_insert; [|apply length_HashState_fold|..].
Qed.

(** [fold_hashes] is those two calls, and never runs out of account indices. *)
Lemma fold_hashes_calls d :
  exists bt, calls (drive_calls d) (Program_batch redline) = Some bt /\
    Program_fold_hashes redline (dr_id d) (dr_iters d) (Step_accounts (dr_step d) a b)
      = Some (Batch_build bt).
Proof.
  unfold drive_calls. set (ks := Step_accounts (dr_step d) a b).
  assert (length ks <= 2)%nat as Hks by (subst ks; destruct (dr_step d); simpl; lia).
  cbn [calls call]. unfold Program_fold_hashes, Batch_set, Batch_fold_hashes.
  destruct (Batch_cells_Some ks true (Program_batch redline)) as (i1 & b1 & H1 & L1).
  { simpl. unfold u16_bound. lia. }
  rewrite H1. cbn. simpl in L1.
  destruct (Batch_cells_Some ks true (push (OpSet i1 (dr_id d)) b1)) as (i2 & b2 & H2 & L2).
  { simpl. unfold u16_bound. lia. }
  rewrite H2. cbn. by eexists.
Qed.

Lemma drive_one_reaches d w σ m n :
  Drive_wf d -> represents σ w -> borrowed w = ∅ -> agrees σ m (S n) ->
  exists σ', reaches (drive_one d) w σ σ' /\
    agrees σ' (PairModel_apply m (dr_step d) (dr_id d) (dr_iters d)) n /\
    forall k, k <> a -> k <> b -> σ' !! k = σ !! k.
Proof.
  intros [Hid Hit] Hr Hb Hag. destruct (drive_effect _ _ _ d Hag) as (σ' & He & Hag' & Hfr).
  exists σ'. split; [|done]. destruct (fold_hashes_calls d) as (bt & Hc & Hf).
  unfold reaches, drive_one. rewrite Hf.
  apply (calls_end_to_end redline (drive_calls d)); try done.
  - assert (fits (Step_accounts (dr_step d) a b)) by (by destruct (dr_step d)).
    unfold drive_calls. by do 2 (apply Forall_cons; split; [by split_and!|]).
  - apply keys_infos_of.
Qed.

Lemma drive_all_reaches ds w σ m :
  Forall Drive_wf ds -> represents σ w -> borrowed w = ∅ -> agrees σ m (length ds) ->
  exists σ', reaches (for_each drive_one ds) w σ σ' /\ agrees σ' (predict m ds) 0.
Proof.
  intros Hds. revert w σ m. induction Hds as [|d ds Hd _ IH]; intros w σ m Hr Hb Hag.
  - exists σ. split; [by apply reaches_ret|exact Hag].
  - destruct (drive_one_reaches d w σ m (length ds)) as (σ1 & (w1 & H1 & R1 & F1 & D1) & Hag1 & _);
      [done..|].
    edestruct (IH w1 σ1) as (σ2 & (w2 & H2 & R2 & F2 & D2) & Hag2);
      [done|by rewrite (proj1 F1)|done|].
    exists σ2. split; [|done]. exists w2. cbn [for_each].
    split; [by rewrite (bind_run_Ok _ _ _ _ _ H1)|].
    split; [done|]. split; [by eapply framed_trans|congruence].
Qed.

Lemma compare_one_Ok σ w label k hash v n :
  represents σ w -> cell_agrees σ k hash v n ->
  compare_one label (Some (data (account w k))) hash v = Ok tt.
Proof.
  intros Hr (h & p & Hl & Hv & Hp & Ht & _). apply Hr in Hl.
  apply cell_of_Some in Hl as [Hd ->]. unfold compare_one. cbn [ok_or res_bind]. rewrite Hd.
  cbn [ok_or res_bind]. rewrite CellHeader_payload_Ok by (by eapply try_decode_size).
  cbn [res_bind]. unfold layout_HASH_SIZE, HashState_SIZE.
  rewrite (proj2 (Nat.leb_le _ _) Hp), bool_decide_eq_true_2, Hv, Z.eqb_refl by done. done.
Qed.

Lemma compare_Ok σ w m n :
  represents σ w -> agrees σ m n ->
  PairModel_compare m (Some (data (account w a)), Some (data (account w b))) = Ok tt.
Proof.
  intros Hr [Ha Hb]. unfold PairModel_compare. cbn [fst snd].
  rewrite (compare_one_Ok σ w false a _ _ n Hr Ha). cbn [res_bind].
  by apply (compare_one_Ok σ w true b _ _ n).
Qed.
End agreement.

Section causal_props.
Context `{R : Runtime, !RuntimeLaws R, HC : HeaderCodec, !HeaderCodecLaws HC}.
Context `{C : InstructionCodec, !InstructionCodecLaws R C, K : IntentSdk}.

(** C11: the local model of a causal pair predicts the chain.  Drive two cells through any
    sequence of X, Y and Z steps, each processed by the fixture program from its built
    and serialised instruction; then every step succeeds and [compare] accepts the two
    accounts against the model advanced by the same steps. *)
Theorem pair_model_predicts_cells redline a b ds w σ m :
  a <> b -> Forall Drive_wf ds -> represents σ w -> borrowed w = ∅ ->
  agrees a b σ m (length ds) ->
  exists w', for_each (drive_one redline a b) ds w = (Ok tt, w') /\
    PairModel_compare (predict m ds) (Some (data (account w' a)), Some (data (account w' b)))
      = Ok tt.
Proof.
  intros Hab Hds Hr Hb Hag.
  destruct (drive_all_reaches redline a b Hab ds w σ m) as (σ' & (w' & Hw & Hr' & _) & Hag');
    [done..|].
  exists w'. split; [done|]. by eapply compare_Ok.
Qed.
End causal_props.
