(* ===== verification/Upgrade.v ===== *)
(** The upgrade probe: [programs/upgrade/program/src/lib.rs].

    A second program, deployed in two versions, that writes a version-dependent
    value and its complement into two Redline cells through nested calls. *)
From S2P Require Import Prelude World Cell Instr Settlement RefCodec SettlementFacts Execute CellSpec Build BuildSpec Fixture FixtureProps Causal.

Definition FAILURE_CODE : Z := 7.

(** [!value] on [u64]. *)
Definition complement64 (v : Z) : Z := u64_max - v.

Record VersionedWrite := mkVersionedWrite { vw_id : Z; vw_fail : bool }.

Section upgrade.
Context `{R : Runtime, C : InstructionCodec}.
(** [redline_interface::ID], the [upgraded] feature, and Wincode on [VersionedWrite]. *)
Context (redline : Pubkey) (upgraded : bool).
Context (versioned_serialize : VersionedWrite -> list Z)
        (versioned_deserialize_exact : list Z -> option VersionedWrite).

Definition Upgrade_write (program : Pubkey) (id : Z) (fail : bool) (a b : Pubkey)
  : SolInstruction :=
  mkIx program [meta_new a false; meta_new b false; meta_new_readonly redline false]
    (versioned_serialize (mkVersionedWrite id fail)).

Definition version : Z := if upgraded then 2 else 1.
Definition probe_value (id : Z) : Z := wrapping_add64 (wrapping_mul64 id 10) version.

(** [invoke(&REDLINE.write(value, &[key]), accounts)?] *)
Definition probe_write (accounts : list AccountInfo) (k : Pubkey) (v : Z) : M unit :=
  match Program_write redline v [k] with
  | Some ix => invoke ix accounts
  | None => fail InvalidArgument
  end.

Definition process_instruction (accounts : list AccountInfo) (data : list Z) : M unit :=
  match versioned_deserialize_exact data with
  | None => msg LogInvalidProbe;; World.fail InvalidInstructionData
  | Some w =>
      let value := probe_value (vw_id w) in
      msg (LogUpgrade version);;
      match accounts with
      | x :: y :: _ =>
          for_each (fun '(k, v) => probe_write accounts k v)
            [(key x, value); (key y, complement64 value)];;
          if vw_fail w then World.fail (Custom FAILURE_CODE) else mret tt
      | _ => World.fail NotEnoughAccountKeys
      end
  end.
End upgrade.

Section upgrade_spec.
Context `{R : Runtime, !RuntimeLaws R, HC : HeaderCodec, !HeaderCodecLaws HC}.
Context `{C : InstructionCodec, !InstructionCodecLaws R C, K : IntentSdk}.
Context (redline : Pubkey).

(** A nested call of the Redline program runs it on the accounts its metas name. *)
Definition nested_calls_run : Prop :=
  forall ix infos v k w, is_u 64 v -> Program_write redline v [k] = Some ix ->
    invoke ix infos w = process redline (infos_of (ix_accounts ix)) (ix_data ix) w.

(** The cell after a write of [v]: value and every word of the payload. *)
Definition written (v : Z) (c : CellHeader * list Z) : CellHeader * list Z :=
  (bump (bump (with_value v c.1)), filled v 0 c.2).

Lemma write_calls v k :
  exists bt, calls [CSet [k] v; CFill [k] v 0] (Program_batch redline) = Some bt /\
    Program_write redline v [k] = Some (Batch_build bt).
Proof.
  cbn [calls call]. unfold Program_write, Batch_write, Batch_set, Batch_fill.
  remember [k] as ks eqn:Hks. assert (length ks = 1%nat) as Hl by (by subst). clear Hks.
  destruct (Batch_cells_Some ks true (Program_batch redline)) as (i1 & b1 & H1 & L1).
  { simpl. unfold u16_bound. lia. }
  rewrite H1. cbn. simpl in L1.
  destruct (Batch_cells_Some ks true (push (OpSet i1 v) b1)) as (i2 & b2 & H2 & L2).
  { simpl. unfold u16_bound. lia. }
  rewrite H2. cbn. by eexists.
Qed.

Lemma write_effect v k σ h p :
  σ !! k = Some (h, p) -> revision h + 2 <= u64_max ->
  effects [CSet [k] v; CFill [k] v 0] σ = Some (<[k := written v (h, p)]> σ).
Proof.
  intros Hl Hr. cbn [effects effect key_each].
  rewrite (abs_update_Some _ k σ h p (with_value v h) p) by (done || (simpl; lia)). cbn.
  rewrite (abs_update_Some _ k _ (bump (with_value v h)) p (bump (with_value v h)) (filled v 0 p));
    [|by rewrite lookup_insert_eq|done|simpl; lia].
  cbn. by rewrite insert_insert_eq.
Qed.

Lemma probe_write_reaches infos k v w σ h p :
  nested_calls_run -> is_u 64 v -> represents σ w -> borrowed w = ∅ ->
  σ !! k = Some (h, p) -> revision h + 2 <= u64_max ->
  reaches (probe_write redline infos k v) w σ (<[k := written v (h, p)]> σ).
Proof.
  intros Hrun Hv Hr Hb Hl Hrev. destruct (write_calls v k) as (bt & Hc & Hw).
  unfold reaches, probe_write. rewrite Hw, (Hrun _ _ _ _ _ Hv Hw).
  apply (calls_end_to_end redline [CSet [k] v; CFill [k] v 0]); try done.
  - by do 2 (apply Forall_cons; split; [by split_and!|]).
  - apply keys_infos_of.
  - by apply write_effect.
Qed.

Lemma complement64_u v : is_u 64 v -> is_u 64 (complement64 v).
Proof. unfold complement64, is_u, u64_max, u64_bound. lia. Qed.

Lemma complement64_ne v : complement64 v <> v.
Proof. unfold complement64, u64_max, u64_bound. lia. Qed.

Lemma probe_value_u upgraded id : is_u 64 (probe_value upgraded id).
Proof. unfold probe_value, wrapping_add64. apply Z.mod_pos_bound. done. Qed.

(** The two versions never write the same value for one id. *)
Lemma probe_value_versions id id' :
  is_u 64 id -> is_u 64 id' -> id < 2 ^ 60 -> id' < 2 ^ 60 ->
  probe_value false id <> probe_value true id'.
Proof.
  intros [? _] [? _] ? ?. unfold probe_value, wrapping_add64, wrapping_mul64, version, u64_bound.
  rewrite !(Z.mod_small (_ * 10)) by lia. rewrite !Z.mod_small by lia. lia.
Qed.

(** the upgrade probe writes its version's value into the first cell and the
    complement into the second, filling both payloads, and then fails with code 7
    exactly when asked to; value and complement always differ. *)
Theorem probe_writes_pair upgraded deser data infos x y id fail w σ hx px hy py :
  nested_calls_run -> deser data = Some (mkVersionedWrite id fail) ->
  represents σ w -> borrowed w = ∅ -> key x <> key y ->
  σ !! key x = Some (hx, px) -> σ !! key y = Some (hy, py) ->
  revision hx + 2 <= u64_max -> revision hy + 2 <= u64_max ->
  let v := probe_value upgraded id in
  exists w', process_instruction redline upgraded deser (x :: y :: infos) data w =
      (if fail then Err (Custom FAILURE_CODE) else Ok tt, w') /\
    represents (<[key y := written (complement64 v) (hy, py)]> (<[key x := written v (hx, px)]> σ)) w' /\
    complement64 v <> v.
Proof.
  intros Hrun Hd Hr Hb Hxy Hx Hy Rx Ry v.
  set (w0 := (msg (LogUpgrade (version upgraded)) w).2).
  set (infos0 := x :: y :: infos).
  destruct (probe_write_reaches infos0 (key x) v w0 σ hx px) as (w1 & H1 & R1 & F1 & _);
    [done|apply probe_value_u|done..|].
  destruct (probe_write_reaches infos0 (key y) (complement64 v) w1
    (<[key x := written v (hx, px)]> σ) hy py) as (w2 & H2 & R2 & _);
    [done|apply complement64_u, probe_value_u|done|by rewrite (proj1 F1)|
     by rewrite lookup_insert_ne|done|].
  exists w2. split_and!; [|done|apply complement64_ne].
  unfold process_instruction. rewrite Hd. cbn [vw_id vw_fail].
  rewrite (bind_run_Ok (msg _) _ w tt w0 eq_refl). subst infos0. fold v.
  assert (for_each (fun '(k, v) => probe_write redline (x :: y :: infos) k v)
            [(key x, v); (key y, complement64 v)] w0 = (Ok tt, w2)) as Hp.
  { cbn [for_each]. by rewrite (bind_run_Ok _ _ _ _ _ H1), (bind_run_Ok _ _ _ _ _ H2). }
  cbv iota. rewrite (bind_run_Ok _ _ _ _ _ Hp). by destruct fail.
Qed.
End upgrade_spec.

(** * Witnesses *)

Definition causal_world : World :=
  mkWorld {[ 11 := mkCell 42 0 (demo_data (demo_header 5 0 0) (replicate 40 0));
             12 := mkCell 42 0 (demo_data (demo_header 6 0 0) (replicate 40 0)) ]} ∅ [].
Definition causal_state : Abs :=
  {[ 11 := (demo_header 5 0 0, replicate 40 0); 12 := (demo_header 6 0 0, replicate 40 0) ]}.

Lemma causal_represents : represents causal_state causal_world.
Proof.
  intros k c. unfold causal_state. rewrite lookup_insert_Some, lookup_singleton_Some.
  intros [[<- <-]|[_ [<- <-]]]; by vm_compute.
Qed.

Definition causal_drives : list Drive := [mkDrive StepX 1 0; mkDrive StepY 2 1; mkDrive StepZ 3 0].

Lemma pair_model_predicts_cells_witness :
  exists w', for_each (drive_one 42 11 12) causal_drives causal_world = (Ok tt, w') /\
    PairModel_compare (predict PairModel_default causal_drives)
      (Some (data (account w' 11)), Some (data (account w' 12))) = Ok tt.
Proof.
  apply (pair_model_predicts_cells 42 11 12 causal_drives causal_world causal_state).
  - done.
  - repeat constructor; by vm_compute.
  - exact causal_represents.
  - done.
  - split; eexists _, _; (split_and!; [by vm_compute..|vm_compute; lia| by vm_compute|by vm_compute]).
Defined.

(** A runtime whose nested calls run the fixture program. *)
#[local] Instance nested_runtime : Runtime := {|
  sha256 := @sha256 ref_runtime;
  find_program_address := @find_program_address ref_runtime;
  invoke_signed ix _ _ :=
    @process ref_runtime _ _ ref_sdk 42 (infos_of (ix_accounts ix)) (ix_data ix);
  system_transfer := @system_transfer ref_runtime;
  system_program_id := @system_program_id ref_runtime;
  create_pda := @create_pda ref_runtime;
  delegate_account := @delegate_account ref_runtime;
  delegate_account_with_any_validator := @delegate_account_with_any_validator ref_runtime;
  undelegate_account := @undelegate_account ref_runtime;
  rent_minimum_balance := @rent_minimum_balance ref_runtime;
  account_resize := @account_resize ref_runtime;
  external_undelegate_discriminator := @external_undelegate_discriminator ref_runtime;
  decode_seeds := @decode_seeds ref_runtime;
  callback_signer := @callback_signer ref_runtime;
|}.

#[local] Instance nested_laws : RuntimeLaws nested_runtime.
Proof. destruct ref_runtime_laws. by split. Qed.
#[local] Instance nested_codec_laws : InstructionCodecLaws nested_runtime ref_instruction_codec.
Proof. destruct ref_instruction_laws. by split. Qed.

(** What [write] builds for one cell. *)
Lemma write_one `{InstructionCodec} v k :
  Program_write 42 v [k] = Some (mkIx 42 [meta_new k false]
    (Instruction_into_data (IxExecute 0 [OpSet [0] v; OpFill [0] v 0]))).
Proof.
  assert (Batch_account (mkMeta k false true) (Program_batch 42) =
    Some (0, mkBatch 42 [mkMeta k false true] [] 0)) as E1 by reflexivity.
  assert (Batch_account (mkMeta k false true) (mkBatch 42 [mkMeta k false true] [OpSet [0] v] 0) =
    Some (0, mkBatch 42 [mkMeta k false true] [OpSet [0] v] 0)) as E2.
  { unfold Batch_account. cbn. by rewrite Z.eqb_refl. }
  unfold Program_write, Batch_write, Batch_set, Batch_fill, Batch_cells.
  cbn [fmap list_fmap intern]. rewrite E1. cbn -[Batch_account]. unfold push. cbn -[Batch_account].
  by rewrite E2.
Qed.

Lemma nested_runtime_runs : @nested_calls_run nested_runtime _ _ ref_sdk 42.
Proof.
  intros ix infos v k w Hv Hix. rewrite write_one in Hix. apply (inj Some) in Hix as <-.
  unfold invoke. cbn [invoke_signed nested_runtime ix_data].
  assert (vec_wf Operation_wf [OpSet [0] v; OpFill [0] v 0]) as Hops.
  { assert (indices_wf [0]) by (split; [repeat constructor; lia|done]).
    split; [|done]. do 2 (apply Forall_cons; split; [by split_and!|]). constructor. }
  by rewrite !process_execute.
Qed.

Lemma probe_writes_pair_witness :
  exists w', @process_instruction nested_runtime _ 42 true
      (fun _ => Some (mkVersionedWrite 3 true)) demo_infos [0] demo_world = (Err (Custom 7), w').
Proof.
  destruct (@probe_writes_pair nested_runtime _ _ _ _ _ ref_sdk 42 true
    (fun _ => Some (mkVersionedWrite 3 true)) [0] [] (mkInfo 11 false true) (mkInfo 12 false true)
    3 true demo_world demo_state (demo_header 5 3 0) demo_payload (demo_header 6 4 7)
    (replicate 48 1)) as (w' & Hw & _).
  - exact nested_runtime_runs.
  - done.
  - exact demo_represents.
  - done.
  - done.
  - by vm_compute.
  - by vm_compute.
  - by vm_compute.
  - by vm_compute.
  - exists w'. exact Hw.
Defined.
