(* ===== verification/Float64.v ===== *)
(** [f64] arithmetic, on the Standard Library's specification of IEEE 754
    (53 bits of precision, exponents up to 1024), and the casts between floats
    and integers the source uses.  Rust's [as] truncates and saturates. *)
From Stdlib Require Import Floats.SpecFloat.
From S2P Require Import Prelude.

Definition f64 : Type := spec_float.
Definition f64_add (x y : f64) : f64 := SFadd 53 1024 x y.
Definition f64_sub (x y : f64) : f64 := SFsub 53 1024 x y.
Definition f64_mul (x y : f64) : f64 := SFmul 53 1024 x y.
Definition f64_div (x y : f64) : f64 := SFdiv 53 1024 x y.
Definition f64_sqrt (x : f64) : f64 := SFsqrt 53 1024 x.
Definition f64_lt (x y : f64) : bool := SFltb x y.

(** [n as f64]: round to nearest, ties to even. *)
Definition f64_of (n : Z) : f64 := binary_normalize 53 1024 n 0 false.

Definition f64_zero : f64 := S754_zero false.

Definition clamp (lo hi x : Z) : Z := Z.max lo (Z.min hi x).

(** The integer part of a finite float, towards zero. *)
Definition trunc_finite (m : positive) (e : Z) : Z :=
  if 0 <=? e then Z.pos m * 2 ^ e else Z.pos m / 2 ^ (- e).

(** [x as T] for an integer type with bounds [lo] and [hi]. *)
Definition f64_as (lo hi : Z) (x : f64) : Z :=
  match x with
  | S754_zero _ | S754_nan => 0
  | S754_infinity s => if s then lo else hi
  | S754_finite s m e => clamp lo hi (if s then - trunc_finite m e else trunc_finite m e)
  end.
Definition f64_as_i32 : f64 -> Z := f64_as (- 2 ^ 31) (2 ^ 31 - 1).
Definition f64_as_u32 : f64 -> Z := f64_as 0 u32_max.
Definition f64_as_i64 : f64 -> Z := f64_as (- 2 ^ 63) (2 ^ 63 - 1).

(** [x.ceil() as usize]; the ceiling of a float is a float. *)
Definition ceil_finite (s : bool) (m : positive) (e : Z) : Z :=
  if s then - trunc_finite m e
  else if 0 <=? e then Z.pos m * 2 ^ e else - (- Z.pos m / 2 ^ (- e)).
Definition f64_ceil_as_usize (x : f64) : Z :=
  match x with
  | S754_zero _ | S754_nan => 0
  | S754_infinity s => if s then 0 else u64_max
  | S754_finite s m e => clamp 0 u64_max (ceil_finite s m e)
  end.

(** A [Duration] is a number of nanoseconds. *)
Abbreviation Duration := Z (only parsing).
Definition NANOS_PER_SEC : Z := 1000000000.
Definition as_secs (d : Duration) : Z := d / NANOS_PER_SEC.
Definition as_micros (d : Duration) : Z := d / 1000.
Definition as_secs_f64 (d : Duration) : f64 :=
  f64_add (f64_of (d / NANOS_PER_SEC)) (f64_div (f64_of (d mod NANOS_PER_SEC)) (f64_of NANOS_PER_SEC)).

Lemma clamp_bounds lo hi x : lo <= hi -> lo <= clamp lo hi x <= hi.
Proof. unfold clamp. lia. Qed.

Lemma f64_ceil_nonneg x : 0 <= f64_ceil_as_usize x.
Proof.
  destruct x as [|[]| |]; simpl; unfold u64_max, u64_bound; try lia.
  apply (clamp_bounds 0). lia.
Qed.

(** ** Integers of 53 bits are floats *)

Lemma digits2_shift p d : digits2_pos (Pos.iter xO p d) = (digits2_pos p + d)%positive.
Proof.
  induction d as [|d IH] using Pos.peano_ind; [cbn; lia|]. rewrite Pos.iter_succ. cbn [digits2_pos]. rewrite IH. lia.
Qed.

Lemma pos_iter_xO p d : Z.pos (Pos.iter xO p d) = Z.pos p * 2 ^ Z.pos d.
Proof.
  induction d as [|d IH] using Pos.peano_ind; [cbn; lia|]. rewrite Pos.iter_succ.
  rewrite Pos2Z.inj_succ, Z.pow_succ_r by lia. rewrite (Pos2Z.inj_xO (Pos.iter xO p d)), IH. lia.
Qed.

Lemma digits2_bound p n : Z.pos p < 2 ^ n -> 0 <= n -> Z.pos (digits2_pos p) <= n.
Proof.
  revert n. induction p as [p IH|p IH|]; intros n H Hn; cbn [digits2_pos].
  3: destruct (Z.eq_dec n 0) as [->|]; cbn in H; lia.
  all: assert (0 < n) by (destruct (Z.eq_dec n 0) as [->|]; cbn in H; lia).
  all: rewrite Pos2Z.inj_succ; specialize (IH (n - 1)); replace n with (Z.succ (n - 1)) in H by lia; rewrite Z.pow_succ_r in H by lia; lia.
Qed.

(** A mantissa of all 53 bits is not rounded. *)
Lemma binary_round_aux_exact m e :
  Z.pos (digits2_pos m) = 53 -> -1074 <= e <= 971 -> binary_round_aux 53 1024 false (Z.pos m) e loc_Exact = S754_finite false m e.
Proof.
  intros Hd He. unfold binary_round_aux, shr_fexp, fexp, emin. cbn [Zdigits2 shr_record_of_loc]. rewrite Hd.
  assert (Hz : Z.max (53 + e - 53) (3 - 1024 - 53) - e = 0) by lia. rewrite Hz. cbn [shr loc_of_shr_record round_nearest_even shr_m shr_r shr_s Zdigits2 shr_record_of_loc].
  rewrite Hd, Hz. cbn [shr shr_m]. by rewrite (proj2 (Z.leb_le _ _)) by lia.
Qed.

Lemma f64_as_of n : 0 <= n < 2 ^ 53 -> f64_as 0 u64_max (f64_of n) = n.
Proof.
  intros Hn. destruct n as [|p|p]; [done| |lia]. unfold f64_of, binary_normalize, binary_round, shl_align, fexp, emin.
  pose proof (digits2_bound p 53 (proj2 Hn) ltac:(lia)) as Hd.
  set (k := Z.max (Z.pos (digits2_pos p) + 0 - 53) (3 - 1024 - 53) - 0).
  assert (Hk : k = Z.pos (digits2_pos p) - 53) by (subst k; lia).
  assert (Hm : Z.max (Z.pos (digits2_pos p) + 0 - 53) (3 - 1024 - 53) = k) by lia. rewrite Hm.
  destruct k as [|d|d] eqn:Ek; [| lia|].
  - rewrite binary_round_aux_exact by lia. cbn -[u64_max]. rewrite Z.mul_1_r. unfold clamp, u64_max, u64_bound. lia.
  - rewrite binary_round_aux_exact; [|rewrite digits2_shift; lia|lia].
    unfold f64_as, trunc_finite. rewrite (proj2 (Z.leb_gt _ _)) by lia. rewrite pos_iter_xO. cbn [Z.opp].
    rewrite Z.div_mul by (apply Z.pow_nonzero; lia). unfold clamp, u64_max, u64_bound. lia.
Qed.

Example f64_quarter : f64_as_i32 (f64_mul (f64_of 10) (f64_div (f64_of 1) (f64_of 4))) = 2.
Proof. by vm_compute. Qed.
Example f64_ceil_95 :
  f64_ceil_as_usize (f64_mul (f64_of 10) (f64_div (f64_of 95) (f64_of 100))) = 10.
Proof. by vm_compute. Qed.
