(* ===== verification/Stats.v ===== *)
(** Streaming statistics: [core/src/stats.rs].

    Welford's mean and variance in [f64], exact minimum and maximum, and a
    bounded reservoir sample for the quantiles.  The random generator is outside
    the repository: [RandSource] is what the code draws from it. *)
From S2P Require Import Prelude Float64.

Class RandSource := {
  Rng : Type;
  (** [rng.gen_range(0..n)] on [usize] *)
  gen_range : Z -> Rng -> Z * Rng;
  (** [rng.gen_range(0.0..x)] on [f64] *)
  gen_range_f64 : f64 -> Rng -> f64 * Rng;
}.

Class RandLaws (G : RandSource) : Prop := {
  gen_range_bounds : forall n g, 0 < n -> 0 <= (gen_range n g).1 < n;
}.

Record ObservationsStats := mkObs
  { o_count : Z; o_median : Z; o_min : Z; o_max : Z; o_avg : Z; o_quantile95 : Z; o_stddev : Z }.

Definition ObservationsStats_default : ObservationsStats := mkObs 0 0 0 0 0 0 0.

(** The sums of [add_rates]; [None] is the overflow panic of [i32] and [u32] addition. *)
Definition add_i32 (a b : Z) : option Z :=
  if (- 2 ^ 31 <=? a + b) && (a + b <? 2 ^ 31) then Some (a + b) else None.
Definition add_u32 (a b : Z) : option Z := if a + b <? u32_bound then Some (a + b) else None.

Definition add_rates (x y : ObservationsStats) : option ObservationsStats :=
  median ← add_i32 (o_median x) (o_median y);
  min ← add_u32 (o_min x) (o_min y);
  max ← add_u32 (o_max x) (o_max y);
  avg ← add_i32 (o_avg x) (o_avg y);
  quantile95 ← add_i32 (o_quantile95 x) (o_quantile95 y);
  stddev ← add_u32 (o_stddev x) (o_stddev y);
  Some (mkObs (o_count x + o_count y) median min max avg quantile95 stddev).

(** [v as i32] for a [u32]: the same 32 bits. *)
Definition u32_as_i32 (v : Z) : Z := if v <? 2 ^ 31 then v else v - 2 ^ 32.

(** [slice::sort_unstable] on integers. *)
Definition sort_unstable (l : list Z) : list Z := merge_sort Z.le l.

(** [Vec::swap_remove]: the last element takes the place of the removed one. *)
Definition swap_remove (l : list Z) (i : nat) : option (Z * list Z) :=
  x ← l !! i;
  y ← last l;
  Some (x, take (length l - 1) (<[i := y]> l)).

Section stats.
Context `{G : RandSource}.

Record StreamingStats := mkStats
  { ss_count : Z; ss_mean : f64; ss_m2 : f64; ss_min : Z; ss_max : Z;
    ss_reservoir : list Z; ss_reservoir_size : Z; ss_rng : Rng }.

Definition DEFAULT_RESERVOIR_SIZE : Z := 10000.

Definition with_reservoir_size (size : Z) (rng : Rng) : StreamingStats :=
  mkStats 0 f64_zero f64_zero u32_max 0 [] size rng.
Definition StreamingStats_new (rng : Rng) : StreamingStats :=
  with_reservoir_size DEFAULT_RESERVOIR_SIZE rng.

Definition stats_push (s : StreamingStats) (value : Z) : StreamingStats :=
  let count := ss_count s + 1 in
  let delta := f64_sub (f64_of value) (ss_mean s) in
  let mean := f64_add (ss_mean s) (f64_div delta (f64_of count)) in
  let m2 := f64_add (ss_m2 s) (f64_mul delta (f64_sub (f64_of value) mean)) in
  let min := Z.min (ss_min s) value in
  let max := Z.max (ss_max s) value in
  if Z.of_nat (length (ss_reservoir s)) <? ss_reservoir_size s
  then mkStats count mean m2 min max (ss_reservoir s ++ [value]) (ss_reservoir_size s) (ss_rng s)
  else
    let (j, rng) := gen_range count (ss_rng s) in
    mkStats count mean m2 min max
      (if j <? ss_reservoir_size s then <[Z.to_nat j := value]> (ss_reservoir s)
       else ss_reservoir s)
      (ss_reservoir_size s) rng.

(** Which reservoir the next merged value comes from: [true] is the other one. *)
Definition pick_source (own other : list Z) (own_weight other_weight : f64) (rng : Rng)
  : bool * Rng :=
  if bool_decide (own = []) then (true, rng)
  else if bool_decide (other = []) then (false, rng)
  else
    let own_remaining := f64_mul (f64_of (Z.of_nat (length own))) own_weight in
    let other_remaining := f64_mul (f64_of (Z.of_nat (length other))) other_weight in
    let (draw, rng) := gen_range_f64 (f64_add own_remaining other_remaining) rng in
    (negb (f64_lt draw own_remaining), rng).

(** The loop of [merge_reservoir].  Every turn moves one element, so the
    number of elements is enough fuel; [None] is an index panic. *)
Fixpoint merge_loop (fuel : nat) (size : Z) (own_weight other_weight : f64)
    (own other merged : list Z) (rng : Rng) : option (list Z * Rng) :=
  if (Z.of_nat (length merged) <? size) && negb (bool_decide (own = []) && bool_decide (other = []))
  then
    match fuel with
    | O => None
    | S fuel =>
        let (from_other, rng) := pick_source own other own_weight other_weight rng in
        let source := if from_other : bool then other else own in
        let (picked, rng) := gen_range (Z.of_nat (length source)) rng in
        '(x, rest) ← swap_remove source (Z.to_nat picked);
        if from_other
        then merge_loop fuel size own_weight other_weight own rest (merged ++ [x]) rng
        else merge_loop fuel size own_weight other_weight rest other (merged ++ [x]) rng
    end
  else Some (merged, rng).

Definition merge_reservoir (s : StreamingStats) (other : list Z) (other_count : Z)
  : option (list Z * Rng) :=
  let own := ss_reservoir s in
  if Z.of_nat (length own) + Z.of_nat (length other) <=? ss_reservoir_size s
  then Some (own ++ other, ss_rng s)
  else
    merge_loop (length own + length other) (ss_reservoir_size s)
      (f64_div (f64_of (ss_count s)) (f64_of (Z.of_nat (length own))))
      (f64_div (f64_of other_count) (f64_of (Z.of_nat (length other))))
      own other [] (ss_rng s).

Definition stats_merge (s other : StreamingStats) : option StreamingStats :=
  if ss_count other =? 0 then Some s
  else
    let own_weight := f64_of (ss_count s) in
    let other_weight := f64_of (ss_count other) in
    let combined := f64_add own_weight other_weight in
    let delta := f64_sub (ss_mean other) (ss_mean s) in
    let mean := f64_add (ss_mean s) (f64_div (f64_mul delta other_weight) combined) in
    let m2 := f64_add (ss_m2 s)
                (f64_add (ss_m2 other)
                   (f64_div (f64_mul (f64_mul (f64_mul delta delta) own_weight) other_weight)
                      combined)) in
    '(reservoir, rng) ← merge_reservoir s (ss_reservoir other) (ss_count other);
    Some (mkStats (ss_count s + ss_count other) mean m2
            (Z.min (ss_min s) (ss_min other)) (Z.max (ss_max s) (ss_max other))
            reservoir (ss_reservoir_size s) rng).

(** [None] is a panic: the index, or [len() - 1] on an empty reservoir. *)
Definition stats_finalize (s : StreamingStats) (invertedq : bool) : option ObservationsStats :=
  if ss_count s =? 0 then Some ObservationsStats_default
  else
    let r := sort_unstable (ss_reservoir s) in
    let len := Z.of_nat (length r) in
    let avg := f64_as_i32 (ss_mean s) in
    median ← (if bool_decide (r = []) then Some avg
              else u32_as_i32 <$> r !! Z.to_nat (len / 2));
    let q95_count :=
      f64_ceil_as_usize (f64_mul (f64_of len) (f64_div (f64_of 95) (f64_of 100))) in
    p95_idx ← (if invertedq then Some (saturating_sub len (q95_count + 1))
               else last ← checked_sub64 len 1;
                    Some (Z.min (saturating_sub q95_count 1) last));
    quantile95 ← (if bool_decide (r = []) then Some avg
                  else u32_as_i32 <$> r !! Z.to_nat p95_idx);
    let variance := if 1 <? ss_count s then f64_div (ss_m2 s) (f64_of (ss_count s)) else f64_zero in
    Some (mkObs (ss_count s) median (ss_min s) (ss_max s) avg quantile95
            (f64_as_u32 (f64_sqrt variance))).
End stats.
#[global] Arguments StreamingStats G : clear implicits.
#[global] Arguments StreamingStats {G}.

(** * What the statistics promise *)

Definition list_min (l : list Z) : Z := foldr Z.min u32_max l.
Definition list_max (l : list Z) : Z := foldr Z.max 0 l.

Lemma list_min_u32 l : list_min l <= u32_max.
Proof. unfold list_min. induction l; simpl; lia. Qed.

Lemma list_max_nonneg l : 0 <= list_max l.
Proof. unfold list_max. induction l; simpl; lia. Qed.

Lemma list_min_app l k : list_min (l ++ k) = Z.min (list_min l) (list_min k).
Proof.
  pose proof (list_min_u32 k). unfold list_min in *. induction l as [|x l IH]; simpl; lia.
Qed.

Lemma list_max_app l k : list_max (l ++ k) = Z.max (list_max l) (list_max k).
Proof.
  pose proof (list_max_nonneg k). unfold list_max in *. induction l as [|x l IH]; simpl; lia.
Qed.

Lemma list_min_le l x : x ∈ l -> list_min l <= x.
Proof. induction 1 as [|x y l _ IH]; unfold list_min in *; simpl; lia. Qed.

Lemma list_max_ge l x : x ∈ l -> x <= list_max l.
Proof. induction 1 as [|x y l _ IH]; unfold list_max in *; simpl; lia. Qed.

(** Sorting a permutation gives the same list. *)
Lemma sort_unstable_perm l : sort_unstable l ≡ₚ l.
Proof. apply merge_sort_Permutation. Qed.

Lemma sort_unstable_sorted l : Sorted Z.le (sort_unstable l).
Proof. apply Sorted_merge_sort. intros x y. lia. Qed.

#[export] Instance sort_unstable_Proper : Proper (Permutation ==> eq) sort_unstable.
Proof.
  intros l k Hlk. eapply (Sorted_unique Z.le); try apply sort_unstable_sorted.
  by rewrite !sort_unstable_perm.
Qed.

Lemma length_sort_unstable l : length (sort_unstable l) = length l.
Proof. by rewrite sort_unstable_perm. Qed.

(** Removing by swapping with the last element removes one occurrence. *)
Lemma swap_remove_Some l i :
  (i < length l)%nat -> exists x k, swap_remove l i = Some (x, k) /\ x :: k ≡ₚ l /\
    length l = S (length k).
Proof.
  intros Hi. destruct (lookup_lt_is_Some_2 l i Hi) as [x Hx].
  destruct l as [|z l' _] using rev_ind; [simpl in Hi; lia|].
  exists x, (take (length l') (<[i := z]> (l' ++ [z]))). unfold swap_remove.
  rewrite Hx, last_snoc. cbn. rewrite length_app in *. cbn in *.
  replace (length l' + 1 - 1)%nat with (length l') by lia. split; [done|].
  assert (length (take (length l') (<[i := z]> (l' ++ [z]))) = length l') as Hl.
  { rewrite length_take, length_insert, length_app. cbn. lia. }
  split; [|lia]. destruct (decide (i < length l')%nat) as [Hlt|Hge].
  - rewrite insert_app_l, take_app_length' by (rewrite ?length_insert; lia).
    rewrite lookup_app_l in Hx by done. rewrite insert_take_drop by done.
    rewrite <-(take_drop_middle l' i x Hx) at 3. solve_Permutation.
  - assert (i = length l') as -> by lia. rewrite list_lookup_middle in Hx by done.
    injection Hx as <-. rewrite take_insert_ge, take_app_length by lia. solve_Permutation.
Qed.

Section stats_facts.
Context `{G : RandSource, !RandLaws G}.

(** [s] has seen the values [vs]: exact count and extremes, and a sample
    without repetition that is everything as long as it fits. *)
Definition sampled (s : StreamingStats) (vs : list Z) : Prop :=
  0 < ss_reservoir_size s /\
  ss_count s = Z.of_nat (length vs) /\ ss_min s = list_min vs /\ ss_max s = list_max vs /\
  ss_reservoir s ⊆+ vs /\
  Z.of_nat (length (ss_reservoir s)) = Z.min (Z.of_nat (length vs)) (ss_reservoir_size s).

Lemma sampled_new size rng : 0 < size -> sampled (with_reservoir_size size rng) [].
Proof. intros. unfold sampled. simpl. split_and!; try done. lia. Qed.

Lemma submseteq_replace (l k : list Z) i v : l ⊆+ k -> <[i := v]> l ⊆+ k ++ [v].
Proof.
  intros Hl. destruct (decide (i < length l)%nat) as [Hi|Hi].
  - rewrite insert_take_drop by done.
    transitivity (v :: (take i l ++ drop (S i) l)).
    { apply Permutation_submseteq. solve_Permutation. }
    rewrite (Permutation_app_comm k [v]). cbn. apply submseteq_skip.
    etransitivity; [|exact Hl]. rewrite <-(take_drop i l) at 3.
    apply submseteq_app; [done|].
    replace (S i) with (i + 1)%nat by lia. rewrite <-drop_drop. apply sublist_submseteq, sublist_drop.
  - rewrite list_insert_ge by lia. etransitivity; [exact Hl|]. by apply submseteq_inserts_r.
Qed.

Lemma stats_push_sampled s vs v : sampled s vs -> sampled (stats_push s v) (vs ++ [v]).
Proof.
  intros (Hpos & Hc & Hmin & Hmax & Hsub & Hlen). unfold stats_push, sampled.
  rewrite list_min_app, list_max_app, length_app.
  assert (list_min [v] = Z.min v u32_max) as Hmv by done.
  pose proof (list_min_u32 vs). pose proof (list_max_nonneg vs).
  assert (list_max [v] = Z.max v 0) as Hxv by done.
  destruct (Z.ltb_spec (Z.of_nat (length (ss_reservoir s))) (ss_reservoir_size s)).
  - cbn. split_and!; try lia; [by apply submseteq_app|rewrite length_app; cbn; lia].
  - destruct (gen_range _ _) as [j rng]. cbn. split_and!; try lia.
    + case_match; [by apply submseteq_replace|by apply submseteq_inserts_r].
    + case_match; rewrite ?length_insert; lia.
Qed.

Lemma stats_pushes_sampled s vs ws :
  sampled s vs -> sampled (foldl stats_push s ws) (vs ++ ws).
Proof.
  revert s vs. induction ws as [|v ws IH]; intros s vs Hs; cbn [foldl].
  - by rewrite app_nil_r.
  - rewrite (cons_middle v vs ws), app_assoc. by apply IH, stats_push_sampled.
Qed.

(** ** Merging *)

Lemma merge_loop_Some fuel size w1 w2 own other merged rng :
  (length own + length other <= fuel)%nat ->
  exists out rng', merge_loop fuel size w1 w2 own other merged rng = Some (out, rng') /\
    out ⊆+ merged ++ own ++ other /\
    Z.of_nat (length out) =
      Z.max (Z.of_nat (length merged))
        (Z.min size (Z.of_nat (length merged + length own + length other))).
Proof.
  revert own other merged rng. induction fuel as [|fuel IH]; intros own other merged rng Hf.
  { destruct own, other; cbn in Hf; try lia. cbn. rewrite andb_false_r.
    do 2 eexists. split; [done|]. split; [by rewrite app_nil_r|]. cbn. lia. }
  cbn [merge_loop].
  destruct (Z.ltb_spec (Z.of_nat (length merged)) size) as [Hlt|Hge]; cbn [andb].
  2:{ do 2 eexists. split; [done|]. split; [by apply submseteq_inserts_r|]. lia. }
  destruct (decide (own = [] /\ other = [])) as [[-> ->]|Hne]; cbn [negb].
  { do 2 eexists. split; [done|]. split; [by rewrite app_nil_r|]. cbn. lia. }
  rewrite <-bool_decide_and, bool_decide_eq_false_2 by done. cbn [negb].
  destruct (pick_source own other w1 w2 rng) as [fo rng1] eqn:Hp.
  assert ((if fo : bool then other else own) <> []) as Hsrc.
  { revert Hp. unfold pick_source. repeat case_bool_decide; intros; simplify_eq; try tauto.
    destruct (gen_range_f64 _ _). simplify_eq. by case_match. }
  destruct (gen_range _ rng1) as [j rng2] eqn:Hj.
  pose proof (gen_range_bounds (Z.of_nat (length (if fo : bool then other else own))) rng1) as Hb.
  rewrite Hj in Hb. cbn [fst] in Hb.
  assert (0 < Z.of_nat (length (if fo : bool then other else own))) as Hpos
    by (destruct (if fo then other else own); cbn; [done|lia]).
  destruct (swap_remove_Some (if fo : bool then other else own) (Z.to_nat j))
    as (x & rest & Hsw & Hperm & Hlen); [specialize (Hb Hpos); lia|].
  rewrite Hsw. cbn [mbind option_bind]. destruct fo.
  - destruct (IH own rest (merged ++ [x]) rng2) as (out & rng' & Ho & Hsub & Hl); [lia|].
    exists out, rng'. split; [done|]. split.
    + etransitivity; [exact Hsub|]. rewrite <-Hperm. apply Permutation_submseteq. solve_Permutation.
    + rewrite Hl, length_app. cbn. lia.
  - destruct (IH rest other (merged ++ [x]) rng2) as (out & rng' & Ho & Hsub & Hl); [lia|].
    exists out, rng'. split; [done|]. split.
    + etransitivity; [exact Hsub|]. rewrite <-Hperm. apply Permutation_submseteq. solve_Permutation.
    + rewrite Hl, length_app. cbn. lia.
Qed.

Lemma stats_merge_sampled s t vs ws :
  sampled s vs -> sampled t ws -> ss_reservoir_size t = ss_reservoir_size s ->
  exists u, stats_merge s t = Some u /\ sampled u (vs ++ ws) /\
    ss_reservoir_size u = ss_reservoir_size s.
Proof.
  intros Hs (Hpos' & Hc' & Hmin' & Hmax' & Hsub' & Hlen') Hsize. pose proof Hs as Hs0.
  destruct Hs as (Hpos & Hc & Hmin & Hmax & Hsub & Hlen).
  unfold stats_merge. rewrite Hc'. destruct (Z.eqb_spec (Z.of_nat (length ws)) 0) as [H0|H0].
  { exists s. destruct ws; [|cbn in H0; lia]. by rewrite app_nil_r. }
  assert (exists r rng, merge_reservoir s (ss_reservoir t) (Z.of_nat (length ws)) = Some (r, rng) /\
    r ⊆+ vs ++ ws /\
    Z.of_nat (length r) = Z.min (Z.of_nat (length (vs ++ ws))) (ss_reservoir_size s))
    as (r & rng & Hr & Hrs & Hrl).
  { unfold merge_reservoir. rewrite length_app.
    destruct (Z.leb_spec (Z.of_nat (length (ss_reservoir s)) + Z.of_nat (length (ss_reservoir t)))
      (ss_reservoir_size s)).
    - do 2 eexists. split; [done|]. split; [by apply submseteq_app|]. rewrite length_app. lia.
    - destruct (merge_loop_Some (length (ss_reservoir s) + length (ss_reservoir t))
        (ss_reservoir_size s)
        (f64_div (f64_of (ss_count s)) (f64_of (Z.of_nat (length (ss_reservoir s)))))
        (f64_div (f64_of (Z.of_nat (length ws))) (f64_of (Z.of_nat (length (ss_reservoir t)))))
        (ss_reservoir s) (ss_reservoir t) [] (ss_rng s)) as (out & rng & Ho & Hosub & Hol); [lia|].
      exists out, rng. split; [done|]. split.
      + etransitivity; [exact Hosub|]. cbn [app]. by apply submseteq_app.
      + rewrite Hol. cbn. lia. }
  rewrite Hr. cbn. eexists. split; [done|]. split; [|done]. unfold sampled. cbn.
  rewrite list_min_app, list_max_app, length_app, Hmin, Hmax, Hmin', Hmax'.
  rewrite length_app in Hrl. split_and!; try done; lia.
Qed.

(** ** Finalizing *)

Lemma stats_finalize_Some s vs inv :
  sampled s vs -> vs <> [] ->
  exists o m q, stats_finalize s inv = Some o /\
    o_count o = Z.of_nat (length vs) /\ o_min o = list_min vs /\ o_max o = list_max vs /\
    sort_unstable (ss_reservoir s) !! (length (ss_reservoir s) / 2)%nat = Some m /\
    o_median o = u32_as_i32 m /\ m ∈ vs /\ o_quantile95 o = u32_as_i32 q /\ q ∈ vs.
Proof.
  intros (Hpos & Hc & Hmin & Hmax & Hsub & Hlen) Hne.
  set (r := sort_unstable (ss_reservoir s)).
  assert (length r = length (ss_reservoir s)) as Hlr by apply length_sort_unstable.
  assert (0 < length r)%nat as Hr0 by (destruct vs; [done|cbn in Hlen; lia]).
  assert (forall i x, r !! i = Some x -> x ∈ vs) as Hin.
  { intros i x Hx%list_elem_of_lookup_2. eapply elem_of_submseteq; [|exact Hsub].
    by rewrite <-(sort_unstable_perm (ss_reservoir s)). }
  assert (r <> []) as Hrne by (by destruct r; [cbn in Hr0; lia|]).
  destruct (lookup_lt_is_Some_2 r (length r / 2)) as [m Hm].
  { apply Nat.div_lt; lia. }
  set (q95 := f64_ceil_as_usize (f64_mul (f64_of (Z.of_nat (length r)))
                (f64_div (f64_of 95) (f64_of 100)))).
  set (idx := if inv then saturating_sub (Z.of_nat (length r)) (q95 + 1)
              else Z.min (saturating_sub q95 1) (Z.of_nat (length r) - 1)).
  pose proof (f64_ceil_nonneg (f64_mul (f64_of (Z.of_nat (length r)))
                (f64_div (f64_of 95) (f64_of 100)))) as Hq0. fold q95 in Hq0.
  destruct (lookup_lt_is_Some_2 r (Z.to_nat idx)) as [q Hq].
  { subst idx. unfold saturating_sub. destruct inv; lia. }
  unfold stats_finalize. rewrite Hc.
  destruct (Z.eqb_spec (Z.of_nat (length vs)) 0); [destruct vs; [done|cbn in *; lia]|].
  fold r. rewrite !(bool_decide_eq_false_2 (r = [])) by done.
  replace (Z.to_nat (Z.of_nat (length r) / 2)) with (length r / 2)%nat
    by (rewrite Z2Nat.inj_div, !Nat2Z.id by lia; done).
  rewrite Hm. cbn [fmap option_fmap option_map mbind option_bind]. fold q95.
  unfold checked_sub64. rewrite (proj2 (Z.leb_le 1 _)) by lia. cbn [mbind option_bind].
  assert (forall A (f : Z -> option A),
    ((if inv then Some (saturating_sub (Z.of_nat (length r)) (q95 + 1))
      else Some (Z.min (saturating_sub q95 1) (Z.of_nat (length r) - 1))) ≫= f) = f idx) as Hidx
    by (intros; subst idx; by destruct inv).
  rewrite Hidx, Hq. cbn [fmap option_fmap option_map mbind option_bind].
  eexists _, m, q. split; [done|]. cbn. rewrite <-Hlr. eauto 10.
Qed.
End stats_facts.
