(* ===== verification/Rate.v ===== *)
(** Offered rates and pacing: [core/src/transport/rate.rs].

    Instants and durations are nanoseconds; every reading of the clock is an
    argument of the operation that reads it. *)
From S2P Require Import Prelude Float64 Stats.

Abbreviation Instant := Z (only parsing).
Definition ONESEC : Duration := NANOS_PER_SEC.
Definition TIMER_RESOLUTION : Duration := 1000000.
Definition RESYNC_SLACK : Duration := 5000000.
Definition TAIL_BUCKET_MIN : Duration := 500000000.

Inductive Pacing := Unlimited | PerSecond (rate : Z).

#[export] Instance Pacing_eq_dec : EqDecision Pacing.
Proof. solve_decision. Defined.

Inductive RateError := RateZero | RateUnsplittable (rate workers : Z) | ConcurrencyZero.

Definition Pacing_interval (p : Pacing) : Result (option Duration) RateError :=
  match p with
  | Unlimited => Ok None
  | PerSecond rate => if rate =? 0 then Err RateZero else Ok (Some (ONESEC / rate))
  end.

Definition split_budget (total : Z) (parts : Z) : list Z :=
  let base := total / Z.max parts 1 in
  let remainder := total mod Z.max parts 1 in
  (fun i => base + (if i <? remainder then 1 else 0)) <$> seqZ 0 parts.

Definition Pacing_partition (p : Pacing) (workers : Z) : Result (list Pacing) RateError :=
  match p with
  | Unlimited => Ok (replicate (Z.to_nat workers) Unlimited)
  | PerSecond rate =>
      let? _ := Pacing_interval p in
      ensure! (workers <=? rate) else RateUnsplittable rate workers in
      Ok ((fun share => PerSecond (share mod u32_bound)) <$> split_budget rate workers)
  end.

Definition Pacing_combine (p q : Pacing) : Pacing :=
  match p, q with
  | PerSecond own, PerSecond other => PerSecond (saturating_add32 own other)
  | _, _ => Unlimited
  end.

Record Pacer := mkPacer { p_interval : option Duration; p_next : Instant }.

Definition Pacer_new (pacing : Pacing) (now : Instant) : Result Pacer RateError :=
  let? interval := Pacing_interval pacing in Ok (mkPacer interval now).

(** [wait] read the clock at [now]; it sleeps until the returned instant, if
    any, and leaves the returned state. *)
Definition Pacer_wait (p : Pacer) (now : Instant) : option Instant * Pacer :=
  match p_interval p with
  | None => (None, p)
  | Some interval =>
      let sleep := if now <? p_next p
                   then if TIMER_RESOLUTION <=? p_next p - now then Some (p_next p) else None
                   else None in
      let next := if now <? p_next p then p_next p
                  else if RESYNC_SLACK <? now - p_next p then now else p_next p in
      (sleep, mkPacer (Some interval) (next + interval))
  end.

Section admission.
Context `{G : RandSource}.

Record AdmissionStats := mkAdmission
  { a_origin : Instant; a_bucket : Z; a_count : Z; a_rps : StreamingStats }.

Definition AdmissionStats_new (now : Instant) (rng : Rng) : AdmissionStats :=
  mkAdmission now 0 0 (StreamingStats_new rng).

(** One turn of the [while] loop of [record]. *)
Definition close_bucket (a : AdmissionStats) : AdmissionStats :=
  mkAdmission (a_origin a) (a_bucket a + 1) 0 (stats_push (a_rps a) (a_count a)).

(** [while self.bucket < bucket]: one bucket closes per turn. *)
Fixpoint close_buckets (fuel : nat) (bucket : Z) (a : AdmissionStats) : AdmissionStats :=
  match fuel with
  | O => a
  | S fuel => if a_bucket a <? bucket then close_buckets fuel bucket (close_bucket a) else a
  end.

Definition admission_record (a : AdmissionStats) (now : Instant) : AdmissionStats :=
  let bucket := as_secs (now - a_origin a) in
  let a := close_buckets (Z.to_nat (bucket - a_bucket a)) bucket a in
  mkAdmission (a_origin a) (a_bucket a) (a_count a + 1) (a_rps a).

Definition admission_finish (a : AdmissionStats) (now : Instant) : option ObservationsStats :=
  let tail := now - a_origin a - a_bucket a * NANOS_PER_SEC in
  let rps := if (0 <? a_count a) && ((a_bucket a =? 0) || (TAIL_BUCKET_MIN <=? tail))
             then stats_push (a_rps a)
                    (f64_as_u32 (f64_div (f64_of (a_count a)) (as_secs_f64 tail)))
             else a_rps a in
  stats_finalize rps true.
End admission.
#[global] Arguments AdmissionStats G : clear implicits.
#[global] Arguments AdmissionStats {G}.

(** * Splitting a budget *)

Lemma length_split_budget total parts : length (split_budget total parts) = Z.to_nat parts.
Proof. unfold split_budget. rewrite length_fmap, length_seqZ. done. Qed.

Lemma split_budget_lookup total parts i x :
  split_budget total parts !! i = Some x ->
  x = total / Z.max parts 1 + (if Z.of_nat i <? total mod Z.max parts 1 then 1 else 0).
Proof.
  unfold split_budget. rewrite list_lookup_fmap. intros (y & Hy & ->)%fmap_Some.
  apply lookup_seqZ in Hy as [-> _]. by rewrite Z.add_0_l.
Qed.

(** How many of the first [n] shares carry the extra unit. *)
Lemma sum_shares base rem n :
  0 <= rem -> 0 <= n ->
  sum_Z ((fun i => base + (if i <? rem then 1 else 0)) <$> seqZ 0 n) = n * base + Z.min n rem.
Proof.
  intros Hr Hn. pattern n. apply natlike_ind; [|clear n Hn; intros n Hn IH|done].
  - rewrite Z.min_l by done. done.
  - replace (Z.succ n) with (n + 1) by lia. rewrite seqZ_app, fmap_app, sum_Z_app, IH by lia.
    rewrite Z.add_0_l, (seqZ_cons n 1), seqZ_nil by lia.
    unfold sum_Z. cbn [fmap list_fmap foldr]. destruct (Z.ltb_spec n rem); lia.
Qed.

Lemma split_budget_sum total parts :
  0 <= total -> 0 < parts -> sum_Z (split_budget total parts) = total.
Proof.
  intros Ht Hp. unfold split_budget. rewrite Z.max_l by lia.
  pose proof (Z.mod_pos_bound total parts Hp). pose proof (Z.div_mod total parts ltac:(lia)).
  rewrite sum_shares by lia. lia.
Qed.

Lemma split_budget_fair total parts x y :
  x ∈ split_budget total parts -> y ∈ split_budget total parts -> x <= y + 1.
Proof.
  intros (i & Hi)%list_elem_of_lookup (j & Hj)%list_elem_of_lookup.
  apply split_budget_lookup in Hi as ->. apply split_budget_lookup in Hj as ->.
  repeat case_match; lia.
Qed.

Lemma split_budget_bounds total parts x :
  0 <= total -> x ∈ split_budget total parts -> 0 <= x <= total.
Proof.
  intros Ht (i & Hi)%list_elem_of_lookup. pose proof Hi as Hl.
  apply lookup_lt_Some in Hl. rewrite length_split_budget in Hl.
  apply split_budget_lookup in Hi as ->. assert (0 < Z.max parts 1) as Hm by lia.
  pose proof (Z.div_pos total _ Ht Hm). pose proof (Z.div_mod total (Z.max parts 1) ltac:(lia)).
  pose proof (Z.mod_pos_bound total _ Hm). case_match; bools; nia.
Qed.

(** Every worker gets at least one unit when there are enough. *)
Lemma split_budget_positive total parts x :
  0 < parts <= total -> x ∈ split_budget total parts -> 0 < x.
Proof.
  intros [Hp Hle] (i & ->%split_budget_lookup)%list_elem_of_lookup. rewrite Z.max_l by lia.
  pose proof (Z.div_le_lower_bound total parts 1 ltac:(lia) ltac:(lia)). case_match; lia.
Qed.

(** * Pacing *)

(** The slot [wait] takes: the scheduled instant, or [now] after a resync. *)
Definition slot (p : Pacer) (now : Instant) : Instant :=
  if now <? p_next p then p_next p
  else if RESYNC_SLACK <? now - p_next p then now else p_next p.

(** A run of [wait] calls: each reads the clock at [now] and returns at [back],
    no earlier than it started or than the sleep it asked for. *)
Inductive paced (p : Pacer) : list (Instant * Instant) -> Pacer -> Prop :=
| paced_nil : paced p [] p
| paced_cons now back more p' :
    now <= back -> (forall t, (Pacer_wait p now).1 = Some t -> t <= back) ->
    paced (Pacer_wait p now).2 more p' -> paced p ((now, back) :: more) p'.

Lemma Pacer_wait_slot p now interval :
  p_interval p = Some interval ->
  (Pacer_wait p now).2 = mkPacer (Some interval) (slot p now + interval).
Proof. intros Hi. unfold Pacer_wait, slot. by rewrite Hi. Qed.

Lemma Pacer_wait_back p now back interval :
  p_interval p = Some interval -> now <= back ->
  (forall t, (Pacer_wait p now).1 = Some t -> t <= back) ->
  slot p now - TIMER_RESOLUTION <= back.
Proof.
  intros Hi Hb Hs. unfold Pacer_wait in Hs. rewrite Hi in Hs. cbn [fst] in Hs.
  unfold slot, TIMER_RESOLUTION, RESYNC_SLACK in *.
  destruct (Z.ltb_spec now (p_next p)).
  - destruct (Z.leb_spec 1000000 (p_next p - now)); [specialize (Hs _ eq_refl)|]; lia.
  - destruct (Z.ltb_spec 5000000 (now - p_next p)); lia.
Qed.

Lemma slot_bounds p now : p_next p <= slot p now /\ now - RESYNC_SLACK <= slot p now.
Proof.
  unfold slot, RESYNC_SLACK. destruct (Z.ltb_spec now (p_next p)); [lia|].
  destruct (Z.ltb_spec 5000000 (now - p_next p)); lia.
Qed.

(** The [j]th call of a run comes back no earlier than [j] intervals after the
    scheduled instant the run started from, up to the timer's resolution. *)
Lemma paced_schedule p run p' interval j (now back : Instant) :
  paced p run p' -> p_interval p = Some interval -> 0 <= interval ->
  run !! j = Some (now, back) ->
  p_next p + Z.of_nat j * interval - TIMER_RESOLUTION <= back.
Proof.
  intros Hp. revert j. induction Hp as [|p n0 b0 more p' Hnb Hs _ IH]; intros j Hi Hpos Hj; [done|].
  pose proof (slot_bounds p n0) as [Hslot _]. destruct j as [|j].
  - injection Hj as -> ->. pose proof (Pacer_wait_back p now back interval Hi Hnb Hs). lia.
  - specialize (IH j). rewrite (Pacer_wait_slot _ _ _ Hi) in IH. cbn in IH.
    specialize (IH eq_refl Hpos Hj). lia.
Qed.

Lemma paced_drop p run p' i n0 b0 interval :
  paced p run p' -> p_interval p = Some interval -> run !! i = Some (n0, b0) ->
  exists q, p_interval q = Some interval /\ paced q (drop i run) p'.
Proof.
  intros Hp. revert i. induction Hp as [|p now back more p' ? ? Hp IH]; intros i Hi Hl; [done|].
  destruct i as [|i].
  - exists p. split; [done|]. by constructor.
  - destruct (IH i) as (q & Hq & Hpq); [by rewrite (Pacer_wait_slot _ _ _ Hi)|done|].
    by exists q.
Qed.

(** No burst: between the start of one call and the return of the [k]th after
    it at least [k] intervals pass, up to the resync slack and the timer. *)
Lemma paced_window p run p' interval i k (now0 back0 now back : Instant) :
  paced p run p' -> p_interval p = Some interval -> 0 <= interval ->
  run !! i = Some (now0, back0) -> run !! (i + k)%nat = Some (now, back) ->
  now0 + Z.of_nat k * interval - RESYNC_SLACK - TIMER_RESOLUTION <= back.
Proof.
  intros Hp Hi Hpos H0 Hk. destruct (paced_drop _ _ _ _ _ _ _ Hp Hi H0) as (q & Hq & Hpq).
  rewrite <-lookup_drop in Hk. rewrite (drop_S _ _ _ H0) in Hk, Hpq.
  inversion Hpq as [|? ? ? ? Hnb Hs Hmore]; subst.
  pose proof (slot_bounds q now0) as [_ Hsl]. destruct k as [|k].
  - injection Hk as -> ->. pose proof (Pacer_wait_back _ _ _ _ Hq Hnb Hs). lia.
  - pose proof (paced_schedule _ _ _ interval k now back Hmore) as Hsch.
    rewrite (Pacer_wait_slot _ _ _ Hq) in Hsch. specialize (Hsch eq_refl Hpos Hk). cbn in Hsch. lia.
Qed.

(** * Admission counts per second *)

Section admission_facts.
Context `{G : RandSource, !RandLaws G}.

(** How many of the instants fall into second [k] after the origin. *)
Definition in_second (origin : Instant) (k : Z) (ts : list Instant) : Z :=
  Z.of_nat (length (filter (fun t => as_secs (t - origin) = k) ts)).

Definition per_second (origin : Instant) (ts : list Instant) (n : Z) : list Z :=
  (fun k => in_second origin k ts) <$> seqZ 0 n.

(** The statistics have closed the seconds before [a_bucket] and are counting
    that one. *)
Definition counted (a : AdmissionStats) (ts : list Instant) : Prop :=
  0 <= a_bucket a /\ sampled (a_rps a) (per_second (a_origin a) ts (a_bucket a)) /\
  a_count a = in_second (a_origin a) (a_bucket a) ts /\
  Forall (fun t => 0 <= as_secs (t - a_origin a) <= a_bucket a) ts.

Lemma in_second_snoc o k ts t :
  in_second o k (ts ++ [t]) = in_second o k ts + (if as_secs (t - o) =? k then 1 else 0).
Proof.
  unfold in_second. rewrite filter_app, length_app.
  destruct (Z.eqb_spec (as_secs (t - o)) k);
    [rewrite (filter_cons_True _ t []) by done|rewrite (filter_cons_False _ t []) by done];
    rewrite filter_nil; cbn [length]; lia.
Qed.

Lemma in_second_future o k n ts :
  Forall (fun t => 0 <= as_secs (t - o) <= n) ts -> n < k -> in_second o k ts = 0.
Proof.
  intros Hts Hk. unfold in_second. induction Hts as [|t ts Ht _ IH]; [done|].
  by rewrite filter_cons_False by lia.
Qed.

Lemma per_second_succ o ts n :
  0 <= n -> per_second o ts (n + 1) = per_second o ts n ++ [in_second o n ts].
Proof. intros. unfold per_second. rewrite seqZ_app, fmap_app by lia. done. Qed.

Lemma close_bucket_counted a ts : counted a ts -> counted (close_bucket a) ts.
Proof.
  intros (H0 & Hs & Hc & Hts). unfold counted. cbn. split_and!; [lia| | |].
  - rewrite per_second_succ, <-Hc by done. by apply stats_push_sampled.
  - symmetry. eapply in_second_future; [done|lia].
  - eapply Forall_impl; [done|]. intros t. cbn. lia.
Qed.

Lemma close_buckets_counted n b a ts :
  counted a ts -> n = Z.to_nat (b - a_bucket a) ->
  counted (close_buckets n b a) ts /\ a_origin (close_buckets n b a) = a_origin a /\
  a_bucket (close_buckets n b a) = Z.max b (a_bucket a).
Proof.
  revert a. induction n as [|n IH]; intros a Ha Hn; cbn [close_buckets].
  - split_and!; [done..|lia].
  - destruct (Z.ltb_spec (a_bucket a) b); [|lia].
    destruct (IH (close_bucket a)) as (? & Ho & Hb); [by apply close_bucket_counted|cbn; lia|].
    split_and!; [done|exact Ho|]. rewrite Hb. cbn. lia.
Qed.

Lemma admission_record_counted a ts now :
  counted a ts -> a_bucket a <= as_secs (now - a_origin a) ->
  counted (admission_record a now) (ts ++ [now]) /\
  a_origin (admission_record a now) = a_origin a.
Proof.
  intros Ha Hb. set (b := as_secs (now - a_origin a)) in *.
  destruct (close_buckets_counted (Z.to_nat (b - a_bucket a)) b a ts Ha eq_refl)
    as ((H0 & Hs & Hc & Hts) & Ho & Hbk).
  unfold admission_record. fold b. set (a' := close_buckets _ b a) in *.
  rewrite Z.max_l in Hbk by done. split; [|exact Ho].
  assert (as_secs (now - a_origin a') = b) as Hnb by (by rewrite Ho).
  unfold counted. cbn. split_and!; [done| | |].
  - replace (per_second (a_origin a') (ts ++ [now]) (a_bucket a'))
      with (per_second (a_origin a') ts (a_bucket a')); [done|].
    apply list_fmap_ext. intros i k Hk. apply lookup_seqZ in Hk as [-> Hk].
    rewrite in_second_snoc, Hnb. rewrite (proj2 (Z.eqb_neq _ _)); lia.
  - rewrite in_second_snoc, Hnb, Hbk, Z.eqb_refl, Hc, Hbk. lia.
  - apply Forall_app. split; [done|]. apply Forall_singleton. rewrite Hnb, Hbk. lia.
Qed.
End admission_facts.
