(* ===== verification/Clock.v ===== *)
(** Send clocks: [core/src/transport/clock.rs].

    One slot per id of a bounded window, shared between the sender that stamps
    it and the observer that reads it.  A slot holds the microsecond of the send
    plus one, so that zero means "not sent".  [reset_states] lists the states
    other threads can observe while [reset] runs. *)
From S2P Require Import Prelude Float64 Rate.

Record SendClock := mkClock { c_epoch : Instant; c_first_id : Z; c_sent : list Z }.

Definition SendClock_new (now : Instant) (first_id : Z) (capacity : nat) : SendClock :=
  mkClock now first_id (replicate capacity 0).

(** [slot_of]: the index of the id's slot. *)
Definition slot_of (c : SendClock) (id : Z) : option nat :=
  i ← checked_sub64 id (c_first_id c);
  if bool_decide (Z.to_nat i < length (c_sent c))%nat then Some (Z.to_nat i) else None.

(** [stamp]: [None] is the panic on an id outside the window. *)
Definition clock_stamp (c : SendClock) (id : Z) (at_ : Instant) : option SendClock :=
  i ← slot_of c id;
  let stamp := as_micros (at_ - c_epoch c) mod u64_bound + 1 in
  Some (mkClock (c_epoch c) (c_first_id c) (<[i := stamp]> (c_sent c))).

Definition clock_start (c : SendClock) (id : Z) (now : Instant) : option (Instant * SendClock) :=
  c ← clock_stamp c id now; Some (now, c).

Definition elapsed_micros (c : SendClock) (id : Z) (now : Instant) : option Z :=
  i ← slot_of c id;
  stamp ← c_sent c !! i;
  if stamp =? 0 then None
  else
    let now := as_micros (now - c_epoch c) mod u64_bound in
    Some (Z.min (saturating_sub now (stamp - 1)) u32_max).

(** [reset] is a sequence of stores: close the window, clear every slot, open
    the new window.  The states after each store, in order. *)
Definition clear_slot (c : SendClock) (i : nat) : SendClock :=
  mkClock (c_epoch c) (c_first_id c) (<[i := 0]> (c_sent c)).

Fixpoint clear_states (c : SendClock) (slots : list nat) : list SendClock :=
  match slots with
  | [] => []
  | i :: slots => let c := clear_slot c i in c :: clear_states c slots
  end.

Definition with_first_id (c : SendClock) (first : Z) : SendClock :=
  mkClock (c_epoch c) first (c_sent c).

Definition clock_reset (c : SendClock) (first_id : Z) : SendClock :=
  let c := with_first_id c u64_max in
  let c := foldl clear_slot c (seq 0 (length (c_sent c))) in
  with_first_id c first_id.

(** What a concurrent observer can see before the last store. *)
Definition reset_states (c : SendClock) : list SendClock :=
  let c := with_first_id c u64_max in
  c :: clear_states c (seq 0 (length (c_sent c))).

(** [Stamped::deliver]: stamps, when there is a clock, then hands the send on. *)
Definition Stamped_deliver {A} (clock : option SendClock) (id : Z) (inner : Instant -> A)
    (sent : Instant) : option (A * option SendClock) :=
  match clock with
  | Some c => c ← clock_stamp c id sent; Some (inner sent, Some c)
  | None => Some (inner sent, None)
  end.

(** * Facts *)

Lemma slot_of_Some c id i :
  slot_of c id = Some i <->
  c_first_id c <= id /\ i = Z.to_nat (id - c_first_id c) /\ (i < length (c_sent c))%nat.
Proof.
  unfold slot_of, checked_sub64.
  destruct (Z.leb_spec (c_first_id c) id); cbn; [|split; [done|lia]].
  case_bool_decide; (split; [intros [= <-] || done|intros (_ & -> & ?)]); done || lia.
Qed.

(** Different ids of the window have different slots. *)
Lemma slot_of_inj c id id' i : slot_of c id = Some i -> slot_of c id' = Some i -> id = id'.
Proof. rewrite !slot_of_Some. intros (? & ? & _) (? & ? & _). lia. Qed.

Lemma slot_of_stamp c id at_ c' id' :
  clock_stamp c id at_ = Some c' -> slot_of c' id' = slot_of c id'.
Proof.
  unfold clock_stamp. intros (i & _ & [= <-])%bind_Some. unfold slot_of. cbn.
  by rewrite length_insert.
Qed.

Lemma elapsed_stamp_eq c id at_ c' now :
  clock_stamp c id at_ = Some c' -> c_epoch c <= at_ <= now ->
  as_micros (now - c_epoch c) < u64_bound ->
  elapsed_micros c' id now =
    Some (Z.min (as_micros (now - c_epoch c) - as_micros (at_ - c_epoch c)) u32_max).
Proof.
  intros Hs Hle Hb. unfold elapsed_micros. rewrite (slot_of_stamp _ _ _ _ _ Hs).
  unfold clock_stamp in Hs. apply bind_Some in Hs as (i & Hi & [= <-]). rewrite Hi. cbn.
  apply slot_of_Some in Hi as (_ & _ & Hlt). rewrite list_lookup_insert_eq by done. cbn.
  assert (0 <= as_micros (at_ - c_epoch c) <= as_micros (now - c_epoch c)) as Hm.
  { unfold as_micros. split; [apply Z.div_pos; lia|apply Z.div_le_mono; lia]. }
  rewrite !Z.mod_small by lia.
  destruct (Z.eqb_spec (as_micros (at_ - c_epoch c) + 1) 0); [lia|].
  f_equal. unfold saturating_sub. lia.
Qed.

Lemma elapsed_stamp_ne c id at_ c' id' now :
  clock_stamp c id at_ = Some c' -> id' <> id -> elapsed_micros c' id' now = elapsed_micros c id' now.
Proof.
  intros Hs Hne. unfold elapsed_micros. rewrite (slot_of_stamp _ _ _ _ _ Hs).
  unfold clock_stamp in Hs. apply bind_Some in Hs as (i & Hi & [= <-]).
  destruct (slot_of c id') as [j|] eqn:Hj; [|done]. cbn.
  rewrite list_lookup_insert_ne; [done|]. intros ->. by eapply Hne, slot_of_inj.
Qed.

(** A slot that is clear stays unread. *)
Lemma elapsed_clear c id now :
  (forall i x, c_sent c !! i = Some x -> x = 0) -> elapsed_micros c id now = None.
Proof.
  intros Hz. unfold elapsed_micros. destruct (slot_of c id) as [i|]; [|done]. cbn.
  destruct (c_sent c !! i) eqn:Hi; [|done]. cbn. by rewrite (Hz _ _ Hi).
Qed.

Lemma elapsed_closed c id now :
  c_first_id c = u64_max -> id < u64_max -> elapsed_micros c id now = None.
Proof.
  intros Hf Hid. unfold elapsed_micros, slot_of, checked_sub64. rewrite Hf.
  by rewrite (proj2 (Z.leb_gt _ _)).
Qed.

Lemma clear_states_closed c slots c' :
  c_first_id c = u64_max -> c' ∈ clear_states c slots -> c_first_id c' = u64_max.
Proof.
  revert c. induction slots as [|i slots IH]; intros c Hc; cbn [clear_states].
  - by intros ?%elem_of_nil.
  - intros [->|Hin]%elem_of_cons; [done|]. by eapply (IH (clear_slot c i)).
Qed.

Lemma reset_states_closed c c' id now :
  c' ∈ reset_states c -> id < u64_max -> elapsed_micros c' id now = None.
Proof.
  intros Hin Hid. apply elapsed_closed; [|done].
  apply elem_of_cons in Hin as [->|Hin]; [done|]. by eapply clear_states_closed in Hin.
Qed.

Lemma clear_fold c slots j x :
  c_sent (foldl clear_slot c slots) !! j = Some x ->
  (j ∈ slots -> x = 0) /\ (j ∉ slots -> c_sent c !! j = Some x) /\
  length (c_sent (foldl clear_slot c slots)) = length (c_sent c).
Proof.
  revert c. induction slots as [|i slots IH]; intros c; cbn [foldl].
  - intros Hx. split; [by intros ?%elem_of_nil|]. done.
  - intros Hx. destruct (IH _ Hx) as (H1 & H2 & H3). cbn in H3. rewrite length_insert in H3.
    assert (j ∉ slots -> (j = i -> x = 0) /\ (j <> i -> c_sent c !! j = Some x)) as Hj.
    { intros Hn. specialize (H2 Hn). cbn in H2. split.
      - intros ->. pose proof (lookup_lt_Some _ _ _ H2) as Hl. rewrite length_insert in Hl.
        rewrite list_lookup_insert_eq in H2 by done. congruence.
      - intros Hne. by rewrite list_lookup_insert_ne in H2. }
    split; [|split; [|done]].
    + intros [->|Hin]%elem_of_cons; [|by apply H1].
      destruct (decide (i ∈ slots)) as [Hi|Hi]; [by apply H1|]. by apply Hj.
    + intros [Hne Hn]%not_elem_of_cons. by apply Hj.
Qed.

Lemma clock_reset_clear c first i x : c_sent (clock_reset c first) !! i = Some x -> x = 0.
Proof.
  unfold clock_reset. cbn. intros Hx. pose proof (lookup_lt_Some _ _ _ Hx) as Hl.
  destruct (clear_fold _ _ _ _ Hx) as (H1 & _ & Hlen). apply H1.
  rewrite Hlen in Hl. cbn in Hl. apply elem_of_seq. lia.
Qed.

(** a stamp is read back as the time since it, in whole microseconds capped at 32
    bits, by its own id only: the readings of every other id stay what they were. *)
Theorem stamp_is_read_back c id at_ c' now :
  clock_stamp c id at_ = Some c' -> c_epoch c <= at_ <= now ->
  as_micros (now - c_epoch c) < u64_bound ->
  elapsed_micros c' id now =
    Some (Z.min (as_micros (now - c_epoch c) - as_micros (at_ - c_epoch c)) u32_max) /\
  forall id', id' <> id -> elapsed_micros c' id' now = elapsed_micros c id' now.
Proof.
  intros Hs Hle Hb. split; [by eapply elapsed_stamp_eq|].
  intros id' Hne. by eapply elapsed_stamp_ne.
Qed.

(** while [reset] runs, and after it, no observer sees a stamp of the old window: at
    every intermediate store and in the final state every id reads as not sent, so old
    stamps are never attributed to ids of the new window. *)
Theorem reset_hides_old_stamps c first id now :
  id < u64_max ->
  (forall c', c' ∈ reset_states c -> elapsed_micros c' id now = None) /\
  elapsed_micros (clock_reset c first) id now = None.
Proof.
  intros Hid. split; [intros; by eapply reset_states_closed|].
  apply elapsed_clear. intros i x. apply clock_reset_clear.
Qed.

Lemma stamp_is_read_back_witness :
  elapsed_micros (default (SendClock_new 0 5 3) (clock_stamp (SendClock_new 0 5 3) 6 2000)) 6 9500
  = Some 7.
Proof.
  destruct (stamp_is_read_back (SendClock_new 0 5 3) 6 2000
    (default (SendClock_new 0 5 3) (clock_stamp (SendClock_new 0 5 3) 6 2000)) 9500) as [He _].
  - done.
  - cbn. lia.
  - done.
  - exact He.
Defined.

Lemma reset_hides_old_stamps_witness :
  elapsed_micros (clock_reset (mkClock 0 5 [3; 0; 9]) 7) 8 9500 = None.
Proof. apply (reset_hides_old_stamps (mkClock 0 5 [3; 0; 9]) 7 8 9500). done. Defined.
