(* ===== verification/Runner.v ===== *)
(** The load driver: [core/src/runner/mod.rs] and [core/src/runner/workers.rs].

    [execute_inner] is an event loop: it admits requests under a concurrency
    budget, records completions, watches for a stop or a stall, then drains.
    Here each arm of its [select!] is an event, and [loop_step] is what the loop
    does on it; an event that [select!] could not take has no successor.  The
    order in which ready arms win is left open, so what holds of every sequence
    of events holds of the biased loop. *)
From S2P Require Import Prelude Float64 Stats Rate.

Definition NETWORK_TIMEOUT : Duration := 60 * NANOS_PER_SEC.

(** * Jobs *)

Record Job := mkJob
  { j_scheduling : Z; j_delivery : option Z; j_sync : option Z; j_outcome : Result unit string }.

(** [elapsed().as_micros() as u32] *)
Definition micros_u32 (d : Duration) : Z := as_micros d mod u32_bound.

(** [Job::run]: what the request, the delivery and the optional sync returned,
    with the time measured at that point. *)
Definition Job_run (scheduling : Duration) (request : Result unit string)
    (deliver : Result Duration string) (sync : option (Result Duration string)) : Job :=
  let s := micros_u32 scheduling in
  match request with
  | Err e => mkJob s None None (Err e)
  | Ok _ =>
      match deliver with
      | Err e => mkJob s None None (Err e)
      | Ok d =>
          match sync with
          | None => mkJob s (Some (micros_u32 d)) None (Ok tt)
          | Some (Ok t) => mkJob s (Some (micros_u32 d)) (Some (micros_u32 t)) (Ok tt)
          | Some (Err e) => mkJob s (Some (micros_u32 d)) None (Err ("sync: " +:+ e))
          end
      end
  end.

(** * Outcomes *)

Record RunOutcome (S : Type) := mkOutcome
  { delivered : Z; failed : Z; first_error : option string; delivery : S; scheduling : S;
    origin : string; sync : option S; offered : Pacing; rps : ObservationsStats;
    wall : Duration; admission_wall : Duration }.
Arguments mkOutcome {S} _ _ _ _ _ _ _ _ _ _ _.
Arguments delivered {S} _. Arguments failed {S} _. Arguments first_error {S} _.
Arguments delivery {S} _. Arguments scheduling {S} _. Arguments origin {S} _.
Arguments sync {S} _. Arguments offered {S} _. Arguments rps {S} _.
Arguments wall {S} _. Arguments admission_wall {S} _.

Definition RunOutcome_default : RunOutcome ObservationsStats :=
  mkOutcome 0 0 None ObservationsStats_default ObservationsStats_default EmptyString None Unlimited
    ObservationsStats_default 0 0.

Definition check_failures {S} (o : RunOutcome S) : Result unit (Z * option string) :=
  if failed o =? 0 then Ok tt else Err (failed o, first_error o).

Definition achieved_rps {S} (o : RunOutcome S) : f64 :=
  f64_div (f64_of (delivered o)) (as_secs_f64 (wall o)).

Inductive Flag :=
| ClientSaturated (p95 interval_micros : Z) (paced : bool)
| RateNotSustained (achieved : f64) (offered : Z).

Definition SUSTAINED_FRACTION : f64 := f64_div (f64_of 9) (f64_of 10).

Definition flags (o : RunOutcome ObservationsStats) : list Flag :=
  let achieved := achieved_rps o in
  let rate := match offered o with PerSecond offered => f64_of offered | Unlimited => achieved end in
  (if f64_lt f64_zero rate then
     let interval_micros := f64_as_i64 (f64_div (f64_of 1000000) rate) in
     if interval_micros <? o_quantile95 (scheduling o)
     then [ClientSaturated (o_quantile95 (scheduling o)) interval_micros
             (match offered o with PerSecond _ => true | Unlimited => false end)]
     else []
   else []) ++
  match offered o with
  | PerSecond offered =>
      if f64_lt achieved (f64_mul (f64_of offered) SUSTAINED_FRACTION)
      then [RateNotSustained achieved offered] else []
  | Unlimited => []
  end.

Section outcomes.
Context `{G : RandSource}.

Abbreviation RawRunOutcome := (RunOutcome StreamingStats).

Definition sync_merge (own other : option StreamingStats) : option (option StreamingStats) :=
  match own, other with
  | Some own, Some other => s ← stats_merge own other; Some (Some s)
  | Some own, None => Some (Some own)
  | None, other => Some other
  end.

(** [RawRunOutcome::merge]; [None] is a panic of one of its parts. *)
Definition outcome_merge (o other : RawRunOutcome) : option RawRunOutcome :=
  delivery ← stats_merge (delivery o) (delivery other);
  scheduling ← stats_merge (scheduling o) (scheduling other);
  sync ← sync_merge (sync o) (sync other);
  rps ← add_rates (rps o) (rps other);
  Some (mkOutcome (delivered o + delivered other) (failed o + failed other)
          (match first_error o with None => first_error other | e => e end)
          delivery scheduling
          (if String.eqb (origin o) EmptyString then origin other else origin o)
          sync (Pacing_combine (offered o) (offered other)) rps
          (Z.max (wall o) (wall other)) (Z.max (admission_wall o) (admission_wall other))).

Definition outcome_finalize (o : RawRunOutcome) : option (RunOutcome ObservationsStats) :=
  delivery ← stats_finalize (delivery o) false;
  scheduling ← stats_finalize (scheduling o) false;
  sync ← match sync o with
         | Some s => s ← stats_finalize s false; Some (Some s)
         | None => Some None
         end;
  Some (mkOutcome (delivered o) (failed o) (first_error o) delivery scheduling (origin o) sync
          (offered o) (rps o) (wall o) (admission_wall o)).

Definition outcome_record (o : RawRunOutcome) (job : Job) : RawRunOutcome :=
  let scheduling := stats_push (scheduling o) (j_scheduling job) in
  let delivery := match j_delivery job with
                  | Some micros => stats_push (delivery o) micros
                  | None => delivery o
                  end in
  let sync := match sync o, j_sync job with
              | Some stats, Some micros => Some (stats_push stats micros)
              | sync, _ => sync
              end in
  match j_outcome job with
  | Ok _ => mkOutcome (delivered o + 1) (failed o) (first_error o) delivery scheduling (origin o)
              sync (offered o) (rps o) (wall o) (admission_wall o)
  | Err e => mkOutcome (delivered o) (failed o + 1)
               (match first_error o with None => Some e | first => first end)
               delivery scheduling (origin o) sync (offered o) (rps o) (wall o) (admission_wall o)
  end.

(** [merge_outcomes]: [reduce], then [finalize]. *)
Fixpoint merge_all (o : RawRunOutcome) (more : list RawRunOutcome) : option RawRunOutcome :=
  match more with
  | [] => Some o
  | x :: more => o ← outcome_merge o x; merge_all o more
  end.
Definition merge_outcomes (outcomes : list RawRunOutcome)
  : option (RunOutcome ObservationsStats) :=
  match outcomes with
  | [] => Some RunOutcome_default
  | o :: more => o ← merge_all o more; outcome_finalize o
  end.
End outcomes.
Abbreviation RawRunOutcome := (RunOutcome StreamingStats).

(** * Completion *)

(** A [watch::Receiver<bool>] at one moment: its value, and whether the sender
    is gone. *)
Record Watch := mkWatch { stop_value : bool; stop_closed : bool }.

Inductive Completion :=
| Iterations (total : Z) (until : option Instant)
| Until (deadline : option Instant).

(** [Completion::done], with the clock and the stop channel it reads. *)
Definition Completion_done (c : Completion) (admitted : Z) (now : Instant) (stop : Watch) : bool :=
  match c with
  | Iterations total until =>
      (total <=? admitted) ||
      match until with
      | Some deadline => (deadline <=? now) || stop_value stop || stop_closed stop
      | None => false
      end
  | Until deadline =>
      (match deadline with Some deadline => deadline <=? now | None => false end) ||
      stop_value stop || stop_closed stop
  end.

(** [Completion::stopped] can resolve: not for a plain iteration count. *)
Definition Completion_can_stop (c : Completion) : bool :=
  match c with Iterations _ None => false | _ => true end.

(** * The loop *)

Inductive RunError := RunRate (e : RateError) | DidNotDrain | StoppedCompleting.

Section execute.
Context `{G : RandSource}.

(** One reading of the clock and of the stop channel. *)
Record Env := mkEnv { e_now : Instant; e_stop : Watch }.

Inductive Phase :=
| Admitting
| Draining (admission_wall : Duration) (rps : ObservationsStats)
| Finished (result : Result RawRunOutcome RunError).

Record LoopState := mkLoop
  { l_phase : Phase; l_admitted : Z; l_jobs : list Z; l_tally : RawRunOutcome;
    l_stats : AdmissionStats; l_window : StreamingStats; l_last_completion : Instant;
    l_stalled : bool; l_started : Instant }.

Inductive Event :=
| EvStopped (now : Instant)
| EvCompleted (id : Z) (job : Job) (now : Instant)
| EvInterval (now : Instant) (fresh : Rng)
| EvTick (before after : Env)
| EvDrained (id : Z) (job : Job) (now : Instant)
| EvDrainTimeout.

(** The parameters of the run. *)
Record RunParams := mkParams { r_completion : Completion; r_pacing : Pacing; r_concurrency : Z }.

Definition set_phase (s : LoopState) (p : Phase) : LoopState :=
  mkLoop p (l_admitted s) (l_jobs s) (l_tally s) (l_stats s) (l_window s) (l_last_completion s)
    (l_stalled s) (l_started s).

(** After the drain loop: [ensure!(!stalled)], then the outcome. *)
Definition conclude (r : RunParams) (admission_wall : Duration) (rps : ObservationsStats)
    (now : Instant) (s : LoopState) : LoopState :=
  set_phase s (Finished (
    if l_stalled s then Err StoppedCompleting
    else let t := l_tally s in
         Ok (mkOutcome (delivered t) (failed t) (first_error t) (delivery t) (scheduling t)
               (origin t) (sync t) (r_pacing r) rps (now - l_started s) admission_wall))).

(** Leaving ['admit]: [stats.finish()], then drain what is in flight.  [None]
    is the panic of the statistics. *)
Definition leave_admission (r : RunParams) (now : Instant) (s : LoopState) : option LoopState :=
  rps ← admission_finish (l_stats s) now;
  let admission_wall := now - l_started s in
  Some (if bool_decide (l_jobs s = []) then conclude r admission_wall rps now s
        else set_phase s (Draining admission_wall rps)).

(** The job with this id leaves the set of futures. *)
Definition remove_job (id : Z) (jobs : list Z) : list Z := filter (fun j => j <> id) jobs.

Definition record_job (s : LoopState) (id : Z) (job : Job) (window : StreamingStats)
    (last_completion : Instant) : LoopState :=
  mkLoop (l_phase s) (l_admitted s) (remove_job id (l_jobs s)) (outcome_record (l_tally s) job)
    (l_stats s) window last_completion (l_stalled s) (l_started s).

Definition on_completed (s : LoopState) (id : Z) (job : Job) (now : Instant) : LoopState :=
  record_job s id job
    (match j_delivery job with Some d => stats_push (l_window s) d | None => l_window s end) now.

(** The progress tick: log the window, start a new one, notice a stall. *)
Definition on_interval (r : RunParams) (s : LoopState) (now : Instant) (fresh : Rng)
  : option LoopState :=
  _ ← stats_finalize (l_window s) false;
  let stalled := negb (bool_decide (l_jobs s = [])) &&
                 (NETWORK_TIMEOUT <=? now - l_last_completion s) in
  let s := mkLoop (l_phase s) (l_admitted s) (l_jobs s) (l_tally s) (l_stats s)
             (StreamingStats_new fresh) (l_last_completion s) (l_stalled s || stalled)
             (l_started s) in
  if stalled then leave_admission r now s else Some s.

(** The pacer's tick: one more admission, unless the run is done; then the
    loop head checks again. *)
Definition admit_request (s : LoopState) (now : Instant) : LoopState :=
  let admitted := l_admitted s + 1 in
  mkLoop (l_phase s) admitted (l_jobs s ++ [admitted]) (l_tally s)
    (admission_record (l_stats s) now) (l_window s)
    (if bool_decide (l_jobs s = []) then now else l_last_completion s)
    (l_stalled s) (l_started s).

Definition on_tick (r : RunParams) (s : LoopState) (before after : Env) : option LoopState :=
  if Completion_done (r_completion r) (l_admitted s) (e_now before) (e_stop before)
  then leave_admission r (e_now before) s
  else
    let s := admit_request s (e_now before) in
    if Completion_done (r_completion r) (l_admitted s) (e_now after) (e_stop after)
    then leave_admission r (e_now after) s
    else Some s.

Definition loop_step (r : RunParams) (s : LoopState) (e : Event) : option LoopState :=
  match l_phase s, e with
  | Admitting, EvStopped now =>
      if Completion_can_stop (r_completion r) then leave_admission r now s else None
  | Admitting, EvCompleted id job now =>
      if bool_decide (id ∈ l_jobs s) then Some (on_completed s id job now) else None
  | Admitting, EvInterval now fresh => on_interval r s now fresh
  | Admitting, EvTick before after =>
      if Z.of_nat (length (l_jobs s)) <? r_concurrency r then on_tick r s before after else None
  | Draining aw rps, EvDrained id job now =>
      if bool_decide (id ∈ l_jobs s)
      then let s := record_job s id job (l_window s) (l_last_completion s) in
           Some (if bool_decide (l_jobs s = []) then conclude r aw rps now s else s)
      else None
  | Draining _ _, EvDrainTimeout => Some (set_phase s (Finished (Err DidNotDrain)))
  | _, _ => None
  end.

(** The state at the head of the loop, and its first check. *)
Definition initial_tally (origin : string) (synced : bool) (rngs : Rng * Rng * Rng)
  : RawRunOutcome :=
  let '(r1, r2, r3) := rngs in
  mkOutcome 0 0 None (StreamingStats_new r1) (StreamingStats_new r2) origin
    (if synced then Some (StreamingStats_new r3) else None) Unlimited ObservationsStats_default
    0 0.

Definition execute_start (r : RunParams) (origin : string) (synced : bool)
    (rngs : Rng * Rng * Rng) (admission_rng window_rng : Rng) (env : Env)
  : option LoopState :=
  let now := e_now env in
  let fail e := mkLoop (Finished (Err (RunRate e))) 0 [] (initial_tally origin synced rngs)
                  (AdmissionStats_new now admission_rng) (StreamingStats_new window_rng) now false
                  now in
  if r_concurrency r =? 0 then Some (fail ConcurrencyZero)
  else
    match Pacer_new (r_pacing r) now with
    | Err e => Some (fail e)
    | Ok _ =>
        let s := mkLoop Admitting 0 [] (initial_tally origin synced rngs)
                   (AdmissionStats_new now admission_rng) (StreamingStats_new window_rng) now
                   false now in
        if Completion_done (r_completion r) 0 now (e_stop env) then leave_admission r now s
        else Some s
    end.

Fixpoint loop_run (r : RunParams) (s : LoopState) (es : list Event) : option LoopState :=
  match es with
  | [] => Some s
  | e :: es => s ← loop_step r s e; loop_run r s es
  end.
End execute.

(** * Workers *)

Fixpoint spans (first_id : Z) (counts : list Z) : list (Z * Z) :=
  match counts with
  | [] => []
  | count :: counts =>
      if 0 <? count then (first_id, count) :: spans (first_id + count) counts else []
  end.

Definition split_iterations (iterations workers : Z) : list (Z * Z) :=
  spans 0 (split_budget iterations workers).

Record WorkerBudgets := mkBudgets
  { wb_iterations : list (Z * Z); wb_rate : list Pacing; wb_concurrency : list Z }.

Definition WorkerBudgets_partition (threads iterations : Z) (rate : Pacing) (concurrency : Z)
  : Result WorkerBudgets RateError :=
  let? _ := Pacing_interval rate in
  ensure! negb (concurrency =? 0) else ConcurrencyZero in
  let workers := Z.min (Z.max threads 1) concurrency in
  let workers := match rate with PerSecond rate => Z.min workers rate | Unlimited => workers end in
  let iterations := split_iterations iterations workers in
  let workers := Z.of_nat (length iterations) in
  let? rates := Pacing_partition rate workers in
  Ok (mkBudgets iterations rates (split_budget concurrency workers)).

Definition wb_workers (b : WorkerBudgets) : Z := Z.of_nat (length (wb_iterations b)).

(** [join]: every worker's result is collected before the first error is returned. *)
Definition join_workers {A} (results : list (Result A string)) : Result (list A) string :=
  collect_results (fun r => r) results.

(** [execute_threaded]: worker [i] runs its share with ids offset by its span. *)
Definition execute_threaded `{G : RandSource} (threads iterations : Z) (rate : Pacing)
    (concurrency : Z)
    (execute_raw : nat -> Z -> Z -> Pacing -> Z -> Result RawRunOutcome string)
    (rate_error : RateError -> string)
  : Result (option (RunOutcome ObservationsStats)) string :=
  match WorkerBudgets_partition threads iterations rate concurrency with
  | Err e => Err (rate_error e)
  | Ok b =>
      let? outcomes := join_workers (imap (fun i '((first_id, count), (rate, concurrency)) =>
                         execute_raw i first_id count rate concurrency)
                         (zip (wb_iterations b) (zip (wb_rate b) (wb_concurrency b)))) in
      Ok (merge_outcomes outcomes)
  end.
