(* ===== verification/RunnerFacts.v ===== *)
(** The load driver accounts for every request it admits, and its budgets add
    up across workers. *)
From S2P Require Import Prelude Float64 Stats Rate Runner.

Section loop.
Context `{G : RandSource, !RandLaws G}.

(** Statistics in a state the code can produce. *)
Definition sane (s : StreamingStats) : Prop := exists vs, sampled s vs.

Lemma sane_new rng : sane (StreamingStats_new rng).
Proof. exists []. by apply sampled_new. Qed.

Lemma sane_push s v : sane s -> sane (stats_push s v).
Proof. intros [vs Hs]. exists (vs ++ [v]). by apply stats_push_sampled. Qed.

Lemma sane_finalize s inv : sane s -> exists o, stats_finalize s inv = Some o.
Proof.
  intros [vs Hs]. destruct (decide (vs = [])) as [->|Hne].
  - destruct Hs as (_ & Hc & _). unfold stats_finalize. rewrite Hc. by eexists.
  - destruct (stats_finalize_Some s vs inv Hs Hne) as (o & _ & _ & Ho & _). by exists o.
Qed.

Lemma sane_close_buckets n b a : sane (a_rps a) -> sane (a_rps (close_buckets n b a)).
Proof.
  revert a. induction n as [|n IH]; intros a Ha; cbn [close_buckets]; [done|].
  case_match; [|done]. by apply IH, sane_push.
Qed.

Lemma sane_admission_record a now : sane (a_rps a) -> sane (a_rps (admission_record a now)).
Proof. intros Ha. by apply sane_close_buckets. Qed.

Lemma admission_finish_Some a now : sane (a_rps a) -> exists o, admission_finish a now = Some o.
Proof.
  intros Ha. unfold admission_finish. apply sane_finalize. case_match; [by apply sane_push|done].
Qed.

(** * The invariant of the loop *)

Definition bounded (c : Completion) (admitted : Z) : Prop :=
  match c with Iterations total _ => admitted <= Z.max total 0 | Until _ => True end.

(** Admission can only have ended because the count was reached. *)
Definition exhausted (c : Completion) (admitted : Z) : Prop :=
  match c with Iterations total None => total <= admitted | _ => True end.

Record loop_inv (r : RunParams) (s : LoopState) : Prop := {
  inv_nodup : NoDup (l_jobs s);
  inv_ids : Forall (fun id => 1 <= id <= l_admitted s) (l_jobs s);
  inv_count : delivered (l_tally s) + failed (l_tally s) + Z.of_nat (length (l_jobs s))
              = l_admitted s;
  inv_nonneg : 0 <= delivered (l_tally s) /\ 0 <= failed (l_tally s);
  inv_budget : Z.of_nat (length (l_jobs s)) <= Z.max (r_concurrency r) 0;
  inv_bounded : bounded (r_completion r) (l_admitted s);
  inv_window : sane (l_window s);
  inv_stats : sane (a_rps (l_stats s));
  inv_scheduled : exists vs, sampled (scheduling (l_tally s)) vs /\
    Z.of_nat (length vs) = delivered (l_tally s) + failed (l_tally s);
  inv_error : failed (l_tally s) = 0 <-> first_error (l_tally s) = None;
  inv_phase : match l_phase s with
              | Admitting => l_stalled s = false
              | Draining _ _ => l_stalled s = false -> exhausted (r_completion r) (l_admitted s)
              | Finished (Ok o) =>
                  l_jobs s = [] /\ l_stalled s = false /\
                  exhausted (r_completion r) (l_admitted s) /\
                  delivered o = delivered (l_tally s) /\ failed o = failed (l_tally s) /\
                  first_error o = first_error (l_tally s) /\
                  scheduling o = scheduling (l_tally s) /\ offered o = r_pacing r
              | Finished (Err _) => True
              end;
}.

Lemma remove_job_length id jobs :
  NoDup jobs -> id ∈ jobs -> length jobs = S (length (remove_job id jobs)).
Proof.
  induction 1 as [|j jobs Hj Hnd IH]; [by intros ?%elem_of_nil|].
  unfold remove_job in *. intros [->|Hin]%elem_of_cons.
  - rewrite filter_cons_False by tauto. cbn. f_equal. symmetry.
    assert (filter (fun x => x <> j) jobs = jobs) as ->; [|done].
    clear -Hj. induction jobs as [|x jobs IHj]; [done|]. apply not_elem_of_cons in Hj as [Hne Hj].
    rewrite filter_cons_True by congruence. by rewrite IHj.
  - rewrite filter_cons_True by (intros ->; done). cbn. f_equal. by apply IH.
Qed.

(** Leaving admission, once it is allowed, keeps the invariant. *)
Lemma leave_admission_inv r s now :
  loop_inv r s -> l_phase s = Admitting \/ l_stalled s = true ->
  (l_stalled s = false -> exhausted (r_completion r) (l_admitted s)) ->
  exists s', leave_admission r now s = Some s' /\ loop_inv r s'.
Proof.
  intros Hi _ Hex. unfold leave_admission.
  destruct (admission_finish_Some (l_stats s) now (inv_stats _ _ Hi)) as [o Ho].
  rewrite Ho. cbn. eexists. split; [done|]. destruct Hi.
  case_bool_decide as Hj; [|by split].
  unfold conclude. split; cbn; try done. destruct (l_stalled s) eqn:Hs; [done|].
  cbn. eauto 10.
Qed.

Lemma record_job_inv r s id job window now :
  loop_inv r s -> id ∈ l_jobs s -> sane window ->
  (l_phase s = Admitting \/ exists aw rps, l_phase s = Draining aw rps) ->
  loop_inv r (record_job s id job window now).
Proof.
  intros Hi Hin Hw Hph. pose proof (remove_job_length _ _ (inv_nodup _ _ Hi) Hin) as Hlen.
  destruct Hi as [Hnd Hids Hcount [Hd Hf] Hbud Hbnd _ Hst (vs & Hvs & Hvl) Herr Hphase].
  unfold record_job. split; cbn; try done.
  - by apply NoDup_filter.
  - apply Forall_forall. intros x [_ Hx]%list_elem_of_filter. by eapply Forall_forall in Hids.
  - unfold outcome_record. destruct (j_outcome job); cbn; lia.
  - unfold outcome_record. destruct (j_outcome job); cbn; lia.
  - lia.
  - exists (vs ++ [j_scheduling job]). rewrite length_app. cbn.
    assert (scheduling (outcome_record (l_tally s) job) =
            stats_push (scheduling (l_tally s)) (j_scheduling job)) as ->
      by (unfold outcome_record; by destruct (j_outcome job)).
    split; [by apply stats_push_sampled|].
    unfold outcome_record. destruct (j_outcome job); cbn; lia.
  - unfold outcome_record. destruct (j_outcome job); cbn; [done|].
    split; [lia|]. destruct (first_error (l_tally s)); done.
  - destruct Hph as [E|(aw & rps & E)]; by rewrite E in Hphase |- *.
Qed.

Lemma admit_inv r s now :
  loop_inv r s -> l_phase s = Admitting ->
  Z.of_nat (length (l_jobs s)) < r_concurrency r ->
  bounded (r_completion r) (l_admitted s + 1) -> loop_inv r (admit_request s now).
Proof.
  intros [Hnd Hids Hcount [Hd Hf] Hbud Hbnd Hw Hst Hsch Herr Hphase] Hph Hlt Hb.
  unfold admit_request. split; cbn; try done.
  - apply NoDup_app. split_and!; [done| |apply NoDup_singleton].
    intros x Hx ->%list_elem_of_singleton. eapply Forall_forall in Hids; [|done].
    cbn in Hids. lia.
  - apply Forall_app. split; [|apply Forall_singleton; lia].
    eapply Forall_impl; [done|]. intros x. cbn. lia.
  - rewrite length_app. cbn. lia.
  - rewrite length_app. cbn. lia.
  - by apply sane_admission_record.
  - by rewrite Hph in *.
Qed.

Lemma done_exhausted c admitted now stop :
  Completion_done c admitted now stop = true -> exhausted c admitted.
Proof.
  destruct c as [total [until|]|]; cbn; [done| |done]. rewrite orb_false_r. intros. by bools.
Qed.

Lemma not_done_bounded c admitted now stop :
  0 <= admitted -> Completion_done c admitted now stop = false -> bounded c (admitted + 1).
Proof. destruct c; cbn; [|done]. intros ? [Ha _]%orb_false_iff. bools. lia. Qed.

Lemma admitted_nonneg r s : loop_inv r s -> 0 <= l_admitted s.
Proof. intros Hi. pose proof (inv_count _ _ Hi). destruct (inv_nonneg _ _ Hi). lia. Qed.

(** Every event the loop can take is taken without a panic and keeps the invariant. *)
Definition enabled (r : RunParams) (s : LoopState) (e : Event) : Prop :=
  match l_phase s, e with
  | Admitting, EvStopped _ => Completion_can_stop (r_completion r) = true
  | Admitting, EvCompleted id _ _ => id ∈ l_jobs s
  | Admitting, EvInterval _ _ => True
  | Admitting, EvTick _ _ => Z.of_nat (length (l_jobs s)) < r_concurrency r
  | Draining _ _, EvDrained id _ _ => id ∈ l_jobs s
  | Draining _ _, EvDrainTimeout => True
  | _, _ => False
  end.

Lemma on_tick_inv r s before after :
  loop_inv r s -> l_phase s = Admitting -> Z.of_nat (length (l_jobs s)) < r_concurrency r ->
  exists s', on_tick r s before after = Some s' /\ loop_inv r s'.
Proof.
  intros Hi Hph Hlt. unfold on_tick. pose proof (admitted_nonneg _ _ Hi).
  destruct (Completion_done _ _ (e_now before) _) eqn:Hd1.
  { apply leave_admission_inv; [done|by left|]. intros _. by eapply done_exhausted. }
  assert (loop_inv r (admit_request s (e_now before))) as Hi'.
  { apply admit_inv; try done. by eapply not_done_bounded. }
  destruct (Completion_done _ _ (e_now after) _) eqn:Hd2.
  - apply leave_admission_inv; [done|by left|]. intros _. by eapply done_exhausted.
  - by eexists.
Qed.

Lemma on_interval_inv r s now fresh :
  loop_inv r s -> l_phase s = Admitting ->
  exists s', on_interval r s now fresh = Some s' /\ loop_inv r s'.
Proof.
  intros Hi Hph. unfold on_interval.
  destruct (sane_finalize (l_window s) false (inv_window _ _ Hi)) as [o ->]. cbn.
  pose proof (inv_phase _ _ Hi) as Hns. rewrite Hph in Hns.
  set (st := negb (bool_decide (l_jobs s = [])) && _).
  assert (st = true -> exists s', leave_admission r now
    (mkLoop (l_phase s) (l_admitted s) (l_jobs s) (l_tally s) (l_stats s)
      (StreamingStats_new fresh) (l_last_completion s) (l_stalled s || st) (l_started s)) = Some s' /\
    loop_inv r s') as Hleave.
  { intros Hst. unfold leave_admission. cbn.
    destruct (admission_finish_Some (l_stats s) now (inv_stats _ _ Hi)) as [o' ->]. cbn.
    rewrite Hst, orb_true_r. eexists. split; [done|].
    destruct Hi. case_bool_decide; unfold conclude; split; cbn; try done; apply sane_new. }
  destruct st eqn:Hst; [by apply Hleave|]. rewrite orb_false_r.
  eexists. split; [done|]. destruct Hi. split; cbn; try done; apply sane_new.
Qed.

Lemma loop_step_inv r s e :
  loop_inv r s -> enabled r s e -> exists s', loop_step r s e = Some s' /\ loop_inv r s'.
Proof.
  intros Hi He. unfold enabled in He. unfold loop_step.
  destruct (l_phase s) as [|aw o|res] eqn:Hph, e; try done.
  - rewrite He. apply leave_admission_inv; [done|by left|]. intros _.
    by destruct (r_completion r) as [? []|].
  - rewrite bool_decide_eq_true_2 by done. eexists. split; [done|].
    apply record_job_inv; [done|done| |by left].
    destruct (j_delivery job); [apply sane_push|]; apply Hi.
  - by apply on_interval_inv.
  - rewrite (proj2 (Z.ltb_lt _ _) He). by apply on_tick_inv.
  - rewrite bool_decide_eq_true_2 by done. eexists. split; [done|].
    assert (loop_inv r (record_job s id job (l_window s) (l_last_completion s))) as Hi'.
    { apply record_job_inv; [done|done|apply Hi|]. right. eauto. }
    case_bool_decide as Hj; [|done]. pose proof (inv_phase _ _ Hi') as Hpd. cbn in Hpd.
    rewrite Hph in Hpd. destruct Hi'. unfold conclude. split; cbn; try done.
    destruct (l_stalled s); [done|]. cbn. eauto 10.
  - eexists. split; [done|]. destruct Hi. by split.
Qed.

(** Only enabled events have a successor. *)
Lemma loop_step_enabled r s e s' : loop_step r s e = Some s' -> enabled r s e.
Proof.
  unfold loop_step, enabled. destruct (l_phase s), e; try done.
  - by destruct (Completion_can_stop _).
  - by case_bool_decide.
  - destruct (Z.ltb_spec (Z.of_nat (length (l_jobs s))) (r_concurrency r)); done.
  - by case_bool_decide.
Qed.

Lemma loop_run_inv r s es s' : loop_inv r s -> loop_run r s es = Some s' -> loop_inv r s'.
Proof.
  revert s. induction es as [|e es IH]; intros s Hi; cbn [loop_run]; [by intros [= <-]|].
  intros (s1 & H1 & H2)%bind_Some. pose proof (loop_step_enabled _ _ _ _ H1) as He.
  destruct (loop_step_inv r s e Hi He) as (s2 & Hs2 & Hi2). simplify_eq. by eapply IH.
Qed.

Lemma execute_start_inv r orig synced rngs arng wrng env :
  0 <= r_concurrency r ->
  exists s, execute_start r orig synced rngs arng wrng env = Some s /\ loop_inv r s.
Proof.
  intros Hc. unfold execute_start. destruct rngs as [[r1 r2] r3]. cbn [initial_tally].
  assert (forall ph, (ph = Admitting \/ exists e, ph = Finished (Err e)) ->
    loop_inv r (mkLoop ph 0 [] (initial_tally orig synced (r1, r2, r3))
      (AdmissionStats_new (e_now env) arng) (StreamingStats_new wrng) (e_now env) false (e_now env)))
    as Hi.
  { intros ph Hph. split; cbn; try done; try lia; try apply sane_new; try (by constructor).
    - destruct (r_completion r); cbn; [lia|done].
    - exists []. split; [by apply sampled_new|done].
    - by destruct Hph as [->|[e ->]]. }
  destruct (r_concurrency r =? 0); [eexists; split; [done|]; apply Hi; eauto|].
  destruct (Pacer_new _ _); [|eexists; split; [done|]; apply Hi; eauto].
  destruct (Completion_done _ _ _ _) eqn:Hd.
  - apply leave_admission_inv; [apply Hi; by left|by left|]. intros _. by eapply done_exhausted.
  - eexists. split; [done|]. apply Hi. by left.
Qed.

(** * Draining finishes *)

Lemma drain_all r s aw o outs :
  loop_inv r s -> l_phase s = Draining aw o -> l_jobs s <> [] ->
  outs.*1.*1 ≡ₚ l_jobs s ->
  exists s', loop_run r s ((fun '(id, job, now) => EvDrained id job now) <$> outs) = Some s' /\
    exists res, l_phase s' = Finished res /\ is_ok res = negb (l_stalled s).
Proof.
  revert s. induction outs as [|[[id job] now] outs IH]; intros s Hi Hph Hne Hperm.
  { cbn in Hperm. by apply Permutation_nil in Hperm. }
  cbn [fmap list_fmap fst snd] in Hperm.
  assert (id ∈ l_jobs s) as Hin by (rewrite <-Hperm; left).
  pose proof (remove_job_length _ _ (inv_nodup _ _ Hi) Hin) as Hlen.
  cbn [fmap list_fmap loop_run]. unfold loop_step at 1. rewrite Hph.
  rewrite bool_decide_eq_true_2 by done. cbn [mbind option_bind].
  set (s1 := record_job s id job (l_window s) (l_last_completion s)).
  assert (outs.*1.*1 ≡ₚ l_jobs s1) as Hp1.
  { pose proof (inv_nodup _ _ Hi) as Hnd. rewrite <-Hperm in Hnd. apply NoDup_cons in Hnd as [Hnin _].
    subst s1. cbn. unfold remove_job. rewrite <-Hperm.
    rewrite filter_cons_False by tauto. clear -Hnin.
    induction (outs.*1.*1) as [|x l IHl]; [done|]. apply not_elem_of_cons in Hnin as [? ?].
    rewrite filter_cons_True by congruence. by rewrite <-IHl. }
  case_bool_decide as Hj.
  - destruct outs as [|]; [|rewrite Hj in Hp1; symmetry in Hp1; by apply Permutation_nil in Hp1].
    cbn. eexists. split; [done|]. eexists. split; [done|]. change (l_stalled s1) with (l_stalled s). by destruct (l_stalled s).
  - destruct (IH s1) as (s' & Hr & res & Hres & Hok); [|exact Hph|done|done|].
    { apply record_job_inv; [done|done|apply Hi|]. right. eauto. }
    exists s'. split; [done|]. by exists res.
Qed.
End loop.

(** * Budgets *)

Lemma spans_cover first counts :
  (forall i j x y, (i < j)%nat -> counts !! i = Some x -> counts !! j = Some y -> y <= x) ->
  Forall (fun c => 0 <= c) counts ->
  concat ((fun '(f, c) => seqZ (f + 1) c) <$> spans first counts)
    = seqZ (first + 1) (sum_Z counts) /\
  Forall (fun '(_, c) => 0 < c) (spans first counts) /\
  sum_Z (spans first counts).*2 = sum_Z counts.
Proof.
  intros Hmono Hpos. revert first. induction Hpos as [|c counts Hc Hpos IH]; intros first; [done|].
  assert (forall first, concat ((fun '(f, c) => seqZ (f + 1) c) <$> spans first counts)
    = seqZ (first + 1) (sum_Z counts) /\ Forall (fun '(_, c) => 0 < c) (spans first counts) /\
    sum_Z (spans first counts).*2 = sum_Z counts) as IH'.
  { intros f. apply IH. intros i j x y Hij Hi Hj. apply (Hmono (S i) (S j) x y); try done. lia. }
  assert (0 <= sum_Z counts) as Hs.
  { clear -Hpos. unfold sum_Z. induction Hpos; cbn; lia. }
  cbn [spans]. destruct (Z.ltb_spec 0 c) as [Hlt|Hle].
  - destruct (IH' (first + c)) as (H1 & H2 & H3). cbn [fmap list_fmap concat]. rewrite H1.
    unfold sum_Z in *. cbn [foldr]. split_and!.
    + rewrite seqZ_app by lia. do 2 f_equal. lia.
    + by constructor.
    + cbn [fmap list_fmap foldr snd]. lia.
  - assert (sum_Z counts = 0) as H0.
    { clear IH IH' Hs. unfold sum_Z. induction Hpos as [|d counts Hd Hpos IHc]; [done|]. cbn.
      assert (d <= c) by (apply (Hmono 0%nat 1%nat); [lia|done|done]).
      rewrite IHc; [lia|]. intros [|i] [|j] x y Hij Hi Hj; try lia.
      - apply (Hmono 0%nat (S (S j))); [lia|done|done].
      - apply (Hmono (S (S i)) (S (S j))); [lia|done|done]. }
    assert (c = 0) as -> by lia. unfold sum_Z in *. cbn [foldr]. rewrite H0. by split_and!.
Qed.

Lemma split_budget_mono total parts i j x y :
  (i < j)%nat -> split_budget total parts !! i = Some x -> split_budget total parts !! j = Some y ->
  y <= x.
Proof. intros Hij ->%split_budget_lookup ->%split_budget_lookup. repeat case_match; bools; lia. Qed.

Lemma split_iterations_cover iterations workers :
  0 <= iterations -> 0 < workers ->
  concat ((fun '(f, c) => seqZ (f + 1) c) <$> split_iterations iterations workers)
    = seqZ 1 iterations /\
  Forall (fun '(_, c) => 0 < c) (split_iterations iterations workers) /\
  sum_Z (split_iterations iterations workers).*2 = iterations.
Proof.
  intros Hit Hw. unfold split_iterations.
  destruct (spans_cover 0 (split_budget iterations workers)) as (H1 & H2 & H3).
  - intros i j x y. apply split_budget_mono.
  - apply Forall_forall. intros x Hx. by apply split_budget_bounds in Hx as [? _].
  - rewrite split_budget_sum in H1, H3 by lia. by rewrite Z.add_0_l in H1.
Qed.

Lemma length_spans f counts : (length (spans f counts) <= length counts)%nat.
Proof.
  revert f. induction counts as [|c counts IH]; intros f; cbn [spans]; [done|].
  case_match; cbn; [|lia]. specialize (IH (f + c)). lia.
Qed.

(** Combining the workers' rates gives the offered rate back. *)
Lemma combine_rates r rates :
  0 <= r -> Forall (fun x => 0 <= x) rates -> r + sum_Z rates <= u32_max ->
  foldl Pacing_combine (PerSecond r) (PerSecond <$> rates) = PerSecond (r + sum_Z rates).
Proof.
  intros Hr Hpos. revert r Hr. unfold sum_Z.
  induction Hpos as [|x rates Hx Hpos IH]; intros r Hr Hle; cbn in *.
  - by rewrite Z.add_0_r.
  - assert (0 <= foldr Z.add 0 rates) by (clear -Hpos; induction Hpos; cbn; lia).
    unfold saturating_add32. rewrite Z.min_r by lia. rewrite IH by lia. f_equal. lia.
Qed.

(** A rate that is at least one per worker splits into rates that combine to it. *)
Lemma partition_rates rate n :
  0 < n -> (forall r, rate = PerSecond r -> n <= r <= u32_max) ->
  exists rs, Pacing_partition rate n = Ok rs /\ length rs = Z.to_nat n /\
    match rs with [] => False | r :: rs => foldl Pacing_combine r rs = rate end.
Proof.
  intros Hn Hrate. destruct rate as [|r]; cbn [Pacing_partition].
  { eexists. split; [done|]. rewrite length_replicate. split; [done|].
    destruct (Z.to_nat n) as [|k] eqn:Hk; [lia|]. cbn. clear. by induction k. }
  specialize (Hrate r eq_refl). unfold Pacing_interval.
  rewrite (proj2 (Z.eqb_neq r 0)), (proj2 (Z.leb_le n r)) by lia. cbn [res_bind].
  eexists. split; [done|]. rewrite length_fmap, length_split_budget. split; [done|].
  assert ((fun share => PerSecond (share mod u32_bound)) <$> split_budget r n =
          PerSecond <$> split_budget r n) as ->.
  { apply list_fmap_ext. intros j x Hx%list_elem_of_lookup_2. apply split_budget_bounds in Hx; [|lia].
    rewrite Z.mod_small; [done|]. unfold u32_max in Hrate. lia. }
  assert (sum_Z (split_budget r n) = r) as Hsr by (apply split_budget_sum; lia).
  assert (Forall (fun x => 0 <= x) (split_budget r n)) as Hsp.
  { apply Forall_forall. intros x Hx. by apply split_budget_bounds in Hx as [? _]; [|lia]. }
  pose proof (length_split_budget r n) as Hl.
  destruct (split_budget r n) as [|x xs]; [cbn in Hl; lia|]. cbn [fmap list_fmap].
  apply Forall_cons in Hsp as [Hx Hxs]. unfold sum_Z in Hsr. cbn in Hsr.
  rewrite combine_rates; [by unfold sum_Z; rewrite Hsr|done..|unfold sum_Z; lia].
Qed.

(** * Merging the workers' outcomes *)

Section merging.
Context `{G : RandSource, !RandLaws G}.

(** Statistics with the default reservoir that have seen [vs]. *)
Definition standard (s : StreamingStats) (vs : list Z) : Prop :=
  sampled s vs /\ ss_reservoir_size s = DEFAULT_RESERVOIR_SIZE.

Definition tallied (o : RawRunOutcome) (sched deliv : list Z) : Prop :=
  standard (scheduling o) sched /\ standard (delivery o) deliv /\
  forall s, sync o = Some s -> exists vs, standard s vs.

Lemma standard_merge s t vs ws :
  standard s vs -> standard t ws -> exists u, stats_merge s t = Some u /\ standard u (vs ++ ws).
Proof.
  intros [Hs Zs] [Ht Zt]. destruct (stats_merge_sampled s t vs ws Hs Ht) as (u & Hu & Hsu & Hz);
    [congruence|]. exists u. split; [done|]. split; [done|congruence].
Qed.

Lemma sync_merge_Some a b :
  (forall s, a = Some s -> exists vs, standard s vs) ->
  (forall s, b = Some s -> exists vs, standard s vs) ->
  exists c, sync_merge a b = Some c /\ forall s, c = Some s -> exists vs, standard s vs.
Proof.
  intros Ha Hb. destruct a as [s|]; cbn; [|by exists b]. destruct b as [t|]; cbn; [|by exists (Some s)].
  destruct (Ha s eq_refl) as [vs Hs], (Hb t eq_refl) as [ws Ht].
  destruct (standard_merge s t vs ws Hs Ht) as (u & -> & Hu). exists (Some u). split; [done|].
  intros ? [= <-]. by eexists.
Qed.

Lemma outcome_merge_Some o x vs ds ws es rates :
  tallied o vs ds -> tallied x ws es -> add_rates (rps o) (rps x) = Some rates ->
  exists m, outcome_merge o x = Some m /\ tallied m (vs ++ ws) (ds ++ es) /\
    delivered m = delivered o + delivered x /\ failed m = failed o + failed x /\
    first_error m = match first_error o with None => first_error x | e => e end /\
    rps m = rates /\ wall m = Z.max (wall o) (wall x).
Proof.
  intros (Hs & Hd & Hy) (Hs' & Hd' & Hy') Hr. unfold outcome_merge.
  destruct (standard_merge _ _ _ _ Hd Hd') as (d & -> & Hd2).
  destruct (standard_merge _ _ _ _ Hs Hs') as (s & -> & Hs2).
  destruct (sync_merge_Some _ _ Hy Hy') as (y & Ey & Hy2). cbn. rewrite Ey. cbn. rewrite Hr. cbn.
  eexists. split; [done|]. by split_and!.
Qed.

(** The rates of all workers, added up in order. *)
Fixpoint rates_sum (r : ObservationsStats) (more : list ObservationsStats)
  : option ObservationsStats :=
  match more with
  | [] => Some r
  | x :: more => r ← add_rates r x; rates_sum r more
  end.

Definition first_of (errors : list (option string)) : option string :=
  find_map (fun e => e) errors.

Lemma merge_all_Some o more vs ds seen rates :
  tallied o vs ds -> Forall2 (fun x '(ws, es) => tallied x ws es) more seen ->
  rates_sum (rps o) (rps <$> more) = Some rates ->
  exists m, merge_all o more = Some m /\
    tallied m (vs ++ concat seen.*1) (ds ++ concat seen.*2) /\
    delivered m = delivered o + sum_Z (delivered <$> more) /\
    failed m = failed o + sum_Z (failed <$> more) /\
    first_error m = first_of (first_error o :: (first_error <$> more)) /\ rps m = rates.
Proof.
  revert o vs ds seen. induction more as [|x more IH]; intros o vs ds seen Ho Hm Hr.
  - inversion Hm; subst. exists o. cbn in *. rewrite !app_nil_r. simplify_eq.
    split_and!; try done; try (unfold sum_Z; cbn; lia). by destruct (first_error o).
  - apply Forall2_cons_inv_l in Hm as ([ws es] & seen' & Hx & Hm & ->).
    cbn in Hr. apply bind_Some in Hr as (r1 & Hr1 & Hr).
    destruct (outcome_merge_Some o x vs ds ws es r1 Ho Hx Hr1)
      as (m1 & Hm1 & Ht & Hdel & Hfail & Herr & Hrps & _).
    rewrite <-Hrps in Hr. destruct (IH m1 _ _ seen' Ht Hm Hr) as (m & Hm2 & Ht2 & Hd2 & Hf2 & He2 & Hr2).
    exists m. cbn [merge_all]. rewrite Hm1. cbn. split_and!; try done.
    + by rewrite <-!app_assoc in Ht2.
    + unfold sum_Z in *. cbn. lia.
    + unfold sum_Z in *. cbn. lia.
    + rewrite He2, Herr. unfold first_of. cbn. by destruct (first_error o).
Qed.

Lemma standard_finalize s vs inv :
  standard s vs -> exists o, stats_finalize s inv = Some o /\ o_count o = Z.of_nat (length vs).
Proof.
  intros [Hs _]. destruct (decide (vs = [])) as [->|Hne].
  - destruct Hs as (_ & Hc & _). unfold stats_finalize. rewrite Hc. by eexists.
  - destruct (stats_finalize_Some s vs inv Hs Hne) as (o & _ & _ & Ho & Hc & _). by exists o.
Qed.

Lemma merge_outcomes_Some o more vs ds seen rates :
  tallied o vs ds -> Forall2 (fun x '(ws, es) => tallied x ws es) more seen ->
  rates_sum (rps o) (rps <$> more) = Some rates ->
  exists m, merge_outcomes (o :: more) = Some m /\
    delivered m = sum_Z (delivered <$> o :: more) /\ failed m = sum_Z (failed <$> o :: more) /\
    o_count (scheduling m) = Z.of_nat (length (vs ++ concat seen.*1)) /\
    o_count (delivery m) = Z.of_nat (length (ds ++ concat seen.*2)) /\
    first_error m = first_of (first_error <$> o :: more) /\ rps m = rates.
Proof.
  intros Ho Hm Hr. destruct (merge_all_Some o more vs ds seen rates Ho Hm Hr)
    as (m & Hma & (Hs & Hd & Hy) & Hdel & Hfail & Herr & Hrps).
  cbn [merge_outcomes]. rewrite Hma. cbn [mbind option_bind]. unfold outcome_finalize.
  destruct (standard_finalize _ _ false Hd) as (d & -> & Hdc).
  destruct (standard_finalize _ _ false Hs) as (s & -> & Hsc). cbn [mbind option_bind].
  assert (exists y, match sync m with
           | Some s => s ← stats_finalize s false; Some (Some s)
           | None => Some None end = Some y) as [y ->].
  { destruct (sync m) as [t|]; [|by eexists]. destruct (Hy t eq_refl) as [ws Ht].
    destruct (standard_finalize _ _ false Ht) as (z & -> & _). by eexists. }
  cbn [mbind option_bind]. eexists. split; [done|]. by split_and!.
Qed.
End merging.
