(* ===== verification/LoadProps.v ===== *)
(** The properties of measurement and load generation: statistics, pacing, the
    driver loop and the workers' budgets. *)
From S2P Require Import Prelude Float64 Stats Rate Runner RunnerFacts.

(** A concrete random source for the witnesses: a counter. *)
#[export] Instance ref_rand : RandSource := {|
  Rng := Z;
  gen_range n g := (g mod n, g + 1);
  gen_range_f64 x g := (f64_zero, g + 1);
|}.
#[export] Instance ref_rand_laws : RandLaws ref_rand.
Proof. split. intros n g Hn. cbn. by apply Z.mod_pos_bound. Qed.

Definition seed (n : Z) : @Rng ref_rand := n.

(** An empty reservoir makes [finalize] subtract one from a zero length; the
    reservoir of [with_reservoir_size(0)] stays empty. *)
Lemma finalize_empty_reservoir `{G : RandSource} s :
  ss_count s <> 0 -> ss_reservoir s = [] -> stats_finalize s false = None.
Proof.
  intros Hc Hr. unfold stats_finalize. rewrite (proj2 (Z.eqb_neq _ _) Hc), Hr. done.
Qed.

Lemma finalize_empty_reservoir_panics `{G : RandSource} rng v :
  stats_finalize (stats_push (with_reservoir_size 0 rng) v) false = None.
Proof.
  apply finalize_empty_reservoir; unfold stats_push; cbn [with_reservoir_size ss_reservoir
    ss_reservoir_size length Z.of_nat Z.ltb Z.compare ss_count ss_rng];
    destruct (gen_range _ rng) as [j rng'] eqn:E; cbn; [done|by destruct (j <? 0)].
Qed.

Section statistics.
Context `{G : RandSource, !RandLaws G}.

(** whatever the random draws, the statistics of a non-empty run of pushes report the
    exact count, minimum and maximum; median and 95th percentile are values that were
    pushed; and while everything fits the reservoir the median is the middle of the
    sorted values. *)
Theorem statistics_summarise_values size rng vs inv :
  0 < size -> vs <> [] ->
  exists o m q, stats_finalize (foldl stats_push (with_reservoir_size size rng) vs) inv = Some o /\
    o_count o = Z.of_nat (length vs) /\ o_min o = list_min vs /\ o_max o = list_max vs /\
    o_median o = u32_as_i32 m /\ m ∈ vs /\ o_quantile95 o = u32_as_i32 q /\ q ∈ vs /\
    (Z.of_nat (length vs) <= size -> sort_unstable vs !! (length vs / 2)%nat = Some m).
Proof.
  intros Hsize Hne. set (s := foldl stats_push _ vs).
  assert (sampled s vs) as Hs by apply (stats_pushes_sampled _ [] vs), sampled_new, Hsize.
  destruct (stats_finalize_Some s vs inv Hs Hne) as (o & m & q & Ho & Hc & Hmin & Hmax & Hm & Hmed & Hin & Hq & Hqin).
  exists o, m, q. split_and!; try done. intros Hfit.
  assert (ss_reservoir_size s = size) as Hsz.
  { subst s. clear. revert rng. assert (forall s, ss_reservoir_size s = size ->
      ss_reservoir_size (foldl stats_push s vs) = size) as Hgen; [|intros; by apply Hgen].
    induction vs as [|v vs IH]; intros s Hs; cbn; [done|]. apply IH.
    unfold stats_push. case_match; [done|]. by destruct (gen_range _ _). }
  destruct Hs as (_ & _ & _ & _ & Hsub & Hlen).
  assert (ss_reservoir s ≡ₚ vs) as Hp by (apply submseteq_length_Permutation; [done|lia]).
  by rewrite Hp in Hm.
Qed.

(** merging two collectors is collecting both runs: exact total count and extremes,
    a reservoir of values of the two runs that is full exactly when it should be, and the
    merging loop always terminates. *)
Theorem merge_summarises_both s t vs ws :
  sampled s vs -> sampled t ws -> ss_reservoir_size t = ss_reservoir_size s ->
  exists u, stats_merge s t = Some u /\ sampled u (vs ++ ws).
Proof.
  intros Hs Ht Hz. destruct (stats_merge_sampled s t vs ws Hs Ht Hz) as (u & ? & ? & _).
  by exists u.
Qed.

(** the admission statistics hold, for every second before the current one, how many
    admissions fell into it, zero for the idle ones, and the running count of the current
    second. *)
Theorem admissions_are_counted_per_second origin rng ts now :
  Sorted Z.le (origin :: ts ++ [now]) ->
  let a := foldl admission_record (AdmissionStats_new origin rng) (ts ++ [now]) in
  a_bucket a = as_secs (now - origin) /\
  sampled (a_rps a) (per_second origin (ts ++ [now]) (a_bucket a)) /\
  a_count a = in_second origin (a_bucket a) (ts ++ [now]).
Proof.
  intros Hsort a.
  assert (forall ts a0 seen, counted a0 seen -> a_origin a0 = origin ->
    (forall t, last seen = Some t -> a_bucket a0 = as_secs (t - origin)) ->
    (seen = [] -> a_bucket a0 = 0) ->
    Sorted Z.le (default origin (last seen) :: ts) ->
    let a' := foldl admission_record a0 ts in
    counted a' (seen ++ ts) /\ a_origin a' = origin /\
    (forall t, last (seen ++ ts) = Some t -> a_bucket a' = as_secs (t - origin))) as Hgen.
  { clear. induction ts as [|t ts IH]; intros a0 seen Ha Ho Hl Hn Hs; cbn [foldl].
    - rewrite app_nil_r. done.
    - apply Sorted_inv in Hs as [Hs Hhd]. apply HdRel_inv in Hhd.
      assert (a_bucket a0 <= as_secs (t - a_origin a0)) as Hle.
      { rewrite Ho. destruct (last seen) as [t0|] eqn:Hlast; cbn in Hhd.
        - rewrite (Hl _ eq_refl). apply Z.div_le_mono; [done|lia].
        - apply last_None in Hlast as ->. rewrite Hn by done. apply Z.div_pos; [lia|done]. }
      destruct (admission_record_counted _ _ t Ha Hle) as [Hc Ho'].
      rewrite (cons_middle t seen ts), app_assoc. apply IH; [done|congruence| | |].
      + intros t'. rewrite last_snoc. intros [= <-]. unfold admission_record. cbn.
        destruct (close_buckets_counted (Z.to_nat (as_secs (t - a_origin a0) - a_bucket a0))
          (as_secs (t - a_origin a0)) a0 seen Ha eq_refl) as (_ & _ & Hb).
        rewrite Hb, <-Ho. lia.
      + intros Hnil. by apply app_nil in Hnil as [_ ?].
      + rewrite last_snoc. exact Hs. }
  destruct (Hgen (ts ++ [now]) (AdmissionStats_new origin rng) []) as ((_ & Hs & Hc & _) & Ho & Hb).
  - split_and!; [done|by apply sampled_new|done|constructor].
  - done.
  - done.
  - done.
  - exact Hsort.
  - fold a in Hs, Hc, Ho, Hb. cbn [app] in *. rewrite Ho in *.
    split_and!; [apply Hb; by rewrite last_snoc|done..].
Qed.
End statistics.

(** C25: the pacer bounds bursts.  However late its caller is polled, between the moment one
    [wait] reads the clock and the return of the [k]th wait after it, [k] pacing intervals
    pass, less at most the 5 ms of resync slack and the 1 ms of timer resolution. *)
Theorem pacer_bounds_bursts p run p' interval i k (now0 back0 now back : Instant) :
  paced p run p' -> p_interval p = Some interval -> 0 <= interval ->
  run !! i = Some (now0, back0) -> run !! (i + k)%nat = Some (now, back) ->
  now0 + Z.of_nat k * interval - RESYNC_SLACK - TIMER_RESOLUTION <= back.
Proof. apply paced_window. Qed.

Section driver.
Context `{G : RandSource, !RandLaws G}.

(** C4: at every point of a run the driver accounts for what it admitted: delivered plus
    failed plus in flight is the number admitted; the requests in flight have distinct
    ids among those admitted and stay within the concurrency; an iteration count is never
    exceeded; every finished request has been measured; and an error is kept exactly when
    something failed. *)
Theorem driver_accounts_for_requests r orig synced rngs arng wrng env s0 es s :
  0 <= r_concurrency r ->
  execute_start r orig synced rngs arng wrng env = Some s0 -> loop_run r s0 es = Some s ->
  delivered (l_tally s) + failed (l_tally s) + Z.of_nat (length (l_jobs s)) = l_admitted s /\
  NoDup (l_jobs s) /\ Forall (fun id => 1 <= id <= l_admitted s) (l_jobs s) /\
  Z.of_nat (length (l_jobs s)) <= r_concurrency r /\
  bounded (r_completion r) (l_admitted s) /\
  (exists vs, sampled (scheduling (l_tally s)) vs /\
     Z.of_nat (length vs) = delivered (l_tally s) + failed (l_tally s)) /\
  (failed (l_tally s) = 0 <-> first_error (l_tally s) = None).
Proof.
  intros Hc H0 Hr. destruct (execute_start_inv r orig synced rngs arng wrng env Hc) as (s' & H1 & Hi).
  simplify_eq. apply (loop_run_inv _ _ _ _ Hi) in Hr. destruct Hr.
  split_and!; try done. lia.
Qed.

(** C9: a run that returns an outcome has finished everything it admitted, and a stalled run is
    never reported as an outcome.  A run of an iteration count finishes at most that many; when it
    has no deadline, so that neither the clock nor a stop can end it early, delivered plus failed is
    exactly the requested number of iterations. *)
Theorem finished_run_is_exact r orig synced rngs arng wrng env s0 es s o :
  0 <= r_concurrency r ->
  execute_start r orig synced rngs arng wrng env = Some s0 -> loop_run r s0 es = Some s ->
  l_phase s = Finished (Ok o) ->
  delivered o + failed o = l_admitted s /\ l_jobs s = [] /\ l_stalled s = false /\
  offered o = r_pacing r /\
  forall total until, 0 <= total -> r_completion r = Iterations total until ->
    delivered o + failed o <= total /\ (until = None -> delivered o + failed o = total).
Proof.
  intros Hc H0 Hr Hp. destruct (execute_start_inv r orig synced rngs arng wrng env Hc) as (s' & H1 & Hi).
  simplify_eq. apply (loop_run_inv _ _ _ _ Hi) in Hr.
  destruct Hr as [_ _ Hcount _ _ Hb _ _ _ _ Hph]. rewrite Hp in Hph.
  destruct Hph as (Hj & Hst & Hex & Hd & Hf & _ & _ & Ho). rewrite Hj in Hcount. cbn in Hcount.
  split_and!; try done; [lia|]. intros total until Ht Hcomp. rewrite Hcomp in Hb, Hex. cbn in Hb, Hex.
  split; [lia|]. intros ->. lia.
Qed.

(** C10: draining finishes.  From any reachable draining state, once the jobs in flight
    complete, in any order and with any results, the run ends, with an outcome unless it
    had stalled; and before that no event the loop waits for can make it panic. *)
Theorem drain_terminates r orig synced rngs arng wrng env s0 es s aw rps outs :
  0 <= r_concurrency r ->
  execute_start r orig synced rngs arng wrng env = Some s0 -> loop_run r s0 es = Some s ->
  l_phase s = Draining aw rps -> l_jobs s <> [] -> outs.*1.*1 ≡ₚ l_jobs s ->
  (exists s' res, loop_run r s ((fun '(id, job, now) => EvDrained id job now) <$> outs) = Some s' /\
    l_phase s' = Finished res /\ is_ok res = negb (l_stalled s)) /\
  forall e, enabled r s e -> exists s', loop_step r s e = Some s'.
Proof.
  intros Hc H0 Hr Hp Hne Hperm.
  destruct (execute_start_inv r orig synced rngs arng wrng env Hc) as (s' & H1 & Hi).
  simplify_eq. apply (loop_run_inv _ _ _ _ Hi) in Hr. split.
  - destruct (drain_all r s aw rps outs Hr Hp Hne Hperm) as (s1 & ? & res & ? & ?). by exists s1, res.
  - intros e He. destruct (loop_step_inv r s e Hr He) as (s1 & ? & _). by exists s1.
Qed.
End driver.

(** C29: The workers' budgets partition the run.  With an iteration, a rate and a concurrency above
    zero partitioning succeeds: the id ranges of the workers, in order, are exactly the ids 1 to the
    iteration count, every worker has work, a rate and a concurrency of its own, the concurrencies
    add up and differ by at most one, and combining the workers' rates gives back the offered rate. *)
Theorem worker_budgets_partition threads iterations rate concurrency :
  0 <= threads -> 0 < iterations -> 0 < concurrency ->
  (forall r, rate = PerSecond r -> 0 < r <= u32_max) ->
  exists b, WorkerBudgets_partition threads iterations rate concurrency = Ok b /\
    concat ((fun '(f, c) => seqZ (f + 1) c) <$> wb_iterations b) = seqZ 1 iterations /\
    Forall (fun '(_, c) => 0 < c) (wb_iterations b) /\
    length (wb_rate b) = length (wb_iterations b) /\
    length (wb_concurrency b) = length (wb_iterations b) /\
    sum_Z (wb_concurrency b) = concurrency /\ Forall (fun c => 0 < c) (wb_concurrency b) /\
    (forall x y, x ∈ wb_concurrency b -> y ∈ wb_concurrency b -> x <= y + 1) /\
    match wb_rate b with
    | [] => False
    | r :: rs => foldl Pacing_combine r rs = rate
    end.
Proof.
  intros Hth Hit Hcc Hrate. unfold WorkerBudgets_partition.
  assert (exists i, Pacing_interval rate = Ok i) as [i ->].
  { destruct rate as [|r]; cbn; [by eexists|]. specialize (Hrate r eq_refl).
    rewrite (proj2 (Z.eqb_neq _ _)) by lia. by eexists. }
  cbn [res_bind]. rewrite (proj2 (Z.eqb_neq concurrency 0)) by lia. cbn [negb].
  set (w := match rate with PerSecond r => _ | Unlimited => _ end).
  assert (0 < w <= concurrency /\ forall r, rate = PerSecond r -> w <= r) as [Hw Hwr].
  { subst w. destruct rate as [|r]; [split; [lia|done]|]. specialize (Hrate r eq_refl).
    split; [lia|]. intros ? [= <-]. lia. }
  destruct (split_iterations_cover iterations w) as (Hcov & Hpos & Hsum); [lia..|].
  set (its := split_iterations iterations w) in *. set (n := Z.of_nat (length its)).
  assert (0 < n <= w) as Hn.
  { subst n. split.
    - destruct its; [cbn in Hsum; lia|cbn; lia].
    - subst its. unfold split_iterations. pose proof (length_spans 0 (split_budget iterations w)) as Hl.
      rewrite length_split_budget in Hl. lia. }
  assert (length (split_budget concurrency n) = length its) as Hlen
    by (rewrite length_split_budget; subst n; lia).
  assert (Forall (fun c => 0 < c) (split_budget concurrency n)) as Hcpos.
  { apply Forall_forall. intros x. apply split_budget_positive. lia. }
  destruct (partition_rates rate n) as (rs & -> & Hrl & Hcomb); [lia| |].
  { intros r ->. specialize (Hrate r eq_refl). specialize (Hwr r eq_refl). lia. }
  eexists. split; [done|]. cbn. split_and!; try done; [subst n; lia|apply split_budget_sum; lia|].
  intros x y. apply split_budget_fair.
Qed.

Section merging_props.
Context `{G : RandSource, !RandLaws G}.

(** merging the workers' outcomes adds them up: delivered, failed and the numbers of
    measured requests are sums, the first error is the first worker's that has one, and
    the rates are added field by field; merging and finalizing cannot panic while the
    summed rates fit their widths. *)
Theorem merged_outcomes_add_up o more vs ds seen rates :
  tallied o vs ds -> Forall2 (fun x '(ws, es) => tallied x ws es) more seen ->
  rates_sum (rps o) (rps <$> more) = Some rates ->
  exists m, merge_outcomes (o :: more) = Some m /\
    delivered m = sum_Z (delivered <$> o :: more) /\ failed m = sum_Z (failed <$> o :: more) /\
    o_count (scheduling m) = Z.of_nat (length (vs ++ concat seen.*1)) /\
    o_count (delivery m) = Z.of_nat (length (ds ++ concat seen.*2)) /\
    first_error m = first_of (first_error <$> o :: more) /\ rps m = rates.
Proof. apply merge_outcomes_Some. Qed.
End merging_props.

(** * Witnesses *)

Lemma statistics_summarise_values_witness :
  exists o m q, stats_finalize (foldl stats_push (with_reservoir_size 5 (seed 3)) [9; 2; 7]) false = Some o /\
    o_count o = 3 /\ o_min o = 2 /\ o_max o = 9 /\ o_median o = u32_as_i32 m /\
    o_quantile95 o = u32_as_i32 q.
Proof.
  destruct (statistics_summarise_values 5 (seed 3) [9; 2; 7] false)
    as (o & m & q & H1 & H2 & H3 & H4 & H5 & _ & H6 & _).
  - done.
  - done.
  - exists o, m, q. repeat split; assumption.
Defined.

Definition demo_stats (vs : list Z) : StreamingStats :=
  foldl stats_push (with_reservoir_size 2 (seed 7)) vs.

Lemma merge_summarises_both_witness :
  exists u, stats_merge (demo_stats [4; 8; 1]) (demo_stats [6; 3]) = Some u /\
    sampled u [4; 8; 1; 6; 3].
Proof.
  apply (merge_summarises_both (demo_stats [4; 8; 1]) (demo_stats [6; 3]) [4; 8; 1] [6; 3]).
  - by apply (stats_pushes_sampled _ [] [4; 8; 1]), sampled_new.
  - by apply (stats_pushes_sampled _ [] [6; 3]), sampled_new.
  - done.
Defined.

Lemma admissions_are_counted_per_second_witness :
  a_bucket (foldl admission_record (AdmissionStats_new 100 (seed 1)) [100; 200; 3000000100]) = 3.
Proof.
  apply (admissions_are_counted_per_second 100 (seed 1) [100; 200] 3000000100).
  repeat constructor; lia.
Defined.

Definition demo_pacer : Pacer := mkPacer (Some 10000000) 0.

Lemma pacer_bounds_bursts_witness :
  20000000 + Z.of_nat 1 * 10000000 - RESYNC_SLACK - TIMER_RESOLUTION <= 30000000.
Proof.
  apply (pacer_bounds_bursts demo_pacer [(20000000, 20000000); (21000000, 30000000)]
    (mkPacer (Some 10000000) 40000000) 10000000 0 1 20000000 20000000 21000000 30000000).
  - apply paced_cons; [lia|by intros t|]. apply paced_cons; [lia| |apply paced_nil].
    intros t [= <-]. lia.
  - done.
  - lia.
  - done.
  - done.
Defined.

Definition demo_params : RunParams := mkParams (Iterations 2 None) Unlimited 1.
Definition quiet (now : Z) : Env := mkEnv now (mkWatch false false).
Definition demo_start : LoopState :=
  default (mkLoop Admitting 0 [] (initial_tally EmptyString false (seed 1, seed 2, seed 3)) (AdmissionStats_new 0 (seed 4))
    (StreamingStats_new (seed 5)) 0 false 0)
    (execute_start demo_params "origin" false (seed 1, seed 2, seed 3) (seed 4) (seed 5) (quiet 0)).
Definition good_job : Job := Job_run 2000 (Ok tt) (Ok 5000) None.
Definition bad_job : Job := Job_run 3000 (Ok tt) (Err "refused") None.
Definition demo_events : list Event :=
  [EvTick (quiet 1000) (quiet 1000); EvCompleted 1 good_job 9000; EvInterval 10000 (seed 7);
   EvTick (quiet 20000) (quiet 20000)].
Definition demo_draining : LoopState := default demo_start (loop_run demo_params demo_start demo_events).
Definition demo_finished : LoopState :=
  default demo_start (loop_run demo_params demo_start (demo_events ++ [EvDrained 2 bad_job 30000])).

Lemma driver_accounts_for_requests_witness :
  delivered (l_tally demo_draining) + failed (l_tally demo_draining) +
    Z.of_nat (length (l_jobs demo_draining)) = l_admitted demo_draining /\
  l_admitted demo_draining = 2.
Proof.
  split; [|by vm_compute].
  apply (driver_accounts_for_requests demo_params "origin" false (seed 1, seed 2, seed 3) (seed 4) (seed 5) (quiet 0) demo_start
    demo_events demo_draining).
  - done.
  - by vm_compute.
  - by vm_compute.
Defined.

Lemma finished_run_is_exact_witness :
  exists o, l_phase demo_finished = Finished (Ok o) /\ delivered o + failed o = 2.
Proof.
  destruct (l_phase demo_finished) as [| |[o|]] eqn:E; try (vm_compute in E; discriminate).
  exists o. split; [done|].
  destruct (finished_run_is_exact demo_params "origin" false (seed 1, seed 2, seed 3) (seed 4) (seed 5) (quiet 0) demo_start
    (demo_events ++ [EvDrained 2 bad_job 30000]) demo_finished o) as (_ & _ & _ & _ & H); [done|by vm_compute|by vm_compute|exact E|].
  by apply (H 2 None).
Defined.

Lemma drain_terminates_witness :
  exists s' res, loop_run demo_params demo_draining [EvDrained 2 bad_job 30000] = Some s' /\
    l_phase s' = Finished res /\ is_ok res = true.
Proof.
  destruct (l_phase demo_draining) as [|aw rps|] eqn:E; try (vm_compute in E; discriminate).
  apply (drain_terminates demo_params "origin" false (seed 1, seed 2, seed 3) (seed 4) (seed 5) (quiet 0) demo_start demo_events
    demo_draining aw rps [(2, bad_job, 30000)]).
  - done.
  - by vm_compute.
  - by vm_compute.
  - exact E.
  - by vm_compute.
  - by vm_compute.
Defined.

Lemma worker_budgets_partition_witness :
  exists b, WorkerBudgets_partition 4 10 (PerSecond 7) 9 = Ok b /\
    concat ((fun '(f, c) => seqZ (f + 1) c) <$> wb_iterations b) = seqZ 1 10.
Proof.
  destruct (worker_budgets_partition 4 10 (PerSecond 7) 9) as (b & Hb & Hc & _).
  - lia.
  - lia.
  - lia.
  - intros r [= <-]. by vm_compute.
  - exists b. split; assumption.
Defined.

Definition demo_outcome (delivered failed : Z) (e : option string) (vs : list Z) : RawRunOutcome :=
  mkOutcome delivered failed e (foldl stats_push (StreamingStats_new (seed 1)) vs)
    (foldl stats_push (StreamingStats_new (seed 2)) vs) "o" None Unlimited (mkObs 1 5 5 5 5 5 0) 10 9.

Lemma demo_tallied d f e vs : tallied (demo_outcome d f e vs) vs vs.
Proof.
  assert (forall rng, standard (foldl stats_push (StreamingStats_new rng) vs) vs) as Hs.
  { intros rng. split; [by apply (stats_pushes_sampled _ [] vs), sampled_new|].
    assert (forall s, ss_reservoir_size s = DEFAULT_RESERVOIR_SIZE ->
      ss_reservoir_size (foldl stats_push s vs) = DEFAULT_RESERVOIR_SIZE) as Hgen; [|by apply Hgen].
    induction vs as [|v l IH]; intros s Hs; cbn; [done|]. apply IH. unfold stats_push.
    case_match; [done|]. by destruct (gen_range _ _). }
  split_and!; [apply Hs|apply Hs|done].
Qed.

Lemma merged_outcomes_add_up_witness :
  exists m, merge_outcomes [demo_outcome 3 0 None [1; 2; 3]; demo_outcome 1 1 (Some "late") [4; 5]] = Some m /\
    delivered m = 4 /\ failed m = 1 /\ first_error m = Some "late"%string.
Proof.
  destruct (merged_outcomes_add_up (demo_outcome 3 0 None [1; 2; 3])
    [demo_outcome 1 1 (Some "late") [4; 5]] [1; 2; 3] [1; 2; 3] [([4; 5], [4; 5])]
    (mkObs 2 10 10 10 10 10 0)) as (m & Hm & Hd & Hf & _ & _ & He & _).
  - apply demo_tallied.
  - constructor; [apply demo_tallied|constructor].
  - by vm_compute.
  - exists m. repeat split; assumption.
Defined.
