(* ===== verification/Netfault.v ===== *)
(** Fault injection on the base-chain proxy: [core/src/netfault/mod.rs].

    The proxy asks [gate] about every request, response and notification.  A
    scenario's scope holds persistent rules (observe, reject, stall) and one-shot
    traps; what is held back is released by a decision, by removing the rule, or
    by restoring the scope.

    Shared reference-counted objects become identities: a rule is identified by
    its hit counter, a trap by a number, an operation held back by a ticket.  The
    [reset] watch is a counter of its notifications. *)
From S2P Require Import Prelude.

Inductive Transport := Http | Ws.
Inductive Stage := StRequest | StResponse | StNotification.

#[export] Instance Transport_eq_dec : EqDecision Transport.
Proof. solve_decision. Defined.
#[export] Instance Stage_eq_dec : EqDecision Stage.
Proof. solve_decision. Defined.

Record NetOp := mkNetOp
  { op_transport : Transport; op_stage : Stage; op_method : string;
    op_signatures : list string; op_accounts : list string }.

#[export] Instance NetOp_eq_dec : EqDecision NetOp.
Proof. solve_decision. Defined.

Record Selector := mkSelector
  { sel_transport : option Transport; sel_stages : list Stage; sel_methods : list string;
    sel_signature : option string; sel_account : option string }.

#[export] Instance Selector_eq_dec : EqDecision Selector.
Proof. solve_decision. Defined.

Definition Selector_methods (names : list string) : Selector := mkSelector None [] names None None.
Definition Selector_method (name : string) : Selector := Selector_methods [name].
Definition Selector_http (s : Selector) : Selector :=
  mkSelector (Some Http) (sel_stages s) (sel_methods s) (sel_signature s) (sel_account s).
Definition Selector_ws (s : Selector) : Selector :=
  mkSelector (Some Ws) (sel_stages s) (sel_methods s) (sel_signature s) (sel_account s).
Definition Selector_stage (st : Stage) (s : Selector) : Selector :=
  mkSelector (sel_transport s) (sel_stages s ++ [st]) (sel_methods s) (sel_signature s) (sel_account s).
Definition Selector_signature (sg : string) (s : Selector) : Selector :=
  mkSelector (sel_transport s) (sel_stages s) (sel_methods s) (Some sg) (sel_account s).
Definition Selector_account (a : string) (s : Selector) : Selector :=
  mkSelector (sel_transport s) (sel_stages s) (sel_methods s) (sel_signature s) (Some a).

(** [Option::is_none_or] *)
Definition is_none_or {A} (o : option A) (p : A -> bool) : bool :=
  match o with Some a => p a | None => true end.

Definition Selector_matches (s : Selector) (op : NetOp) : bool :=
  is_none_or (sel_transport s) (fun t => bool_decide (t = op_transport op)) &&
  (bool_decide (sel_stages s = []) || bool_decide (op_stage op ∈ sel_stages s)) &&
  (bool_decide (sel_methods s = []) || bool_decide (op_method op ∈ sel_methods s)) &&
  is_none_or (sel_signature s) (fun sg => bool_decide (sg ∈ op_signatures op)) &&
  is_none_or (sel_account s) (fun a => bool_decide (a ∈ op_accounts op)).

Inductive Decision := Release | Discard | RejectWith (message : string).
Inductive Effect := EffObserve | EffReject (message : string) | EffStall.

#[export] Instance Decision_eq_dec : EqDecision Decision.
Proof. solve_decision. Defined.

Record Interception := mkInterception { tr_id : nat; tr_selector : Selector; tr_armed : bool }.
Record Rule := mkRule { ru_selector : Selector; ru_effect : Effect; ru_hits : nat }.

(** The scope's state; [fs_hits] are the counters the rule handles share. *)
Record FaultState := mkFaults
  { fs_traps : list Interception; fs_rules : list Rule; fs_unfired : list Selector;
    fs_observed : Z * Z * Z; fs_holding : Z; fs_sequence : Z; fs_reset : nat;
    fs_hits : gmap nat Z; fs_next : nat }.

Definition FaultState_new : FaultState := mkFaults [] [] [] (0, 0, 0) 0 0 0 ∅ 0.

Inductive Gate :=
| Decided (d : Decision)
| GHeld (trap : nat) (op : NetOp) (sequence : Z) (since : nat)
| GStalled (rule : nat).

Definition is_observe (e : Effect) : bool := match e with EffObserve => true | _ => false end.

(** [Hits::record] *)
Definition record_hit (id : nat) (hits : gmap nat Z) : gmap nat Z :=
  <[id := default 0 (hits !! id) + 1]> hits.

Definition observe_stage (st : Stage) (o : Z * Z * Z) : Z * Z * Z :=
  let '(a, b, c) := o in
  match st with StRequest => (a + 1, b, c) | StResponse => (a, b + 1, c) | StNotification => (a, b, c + 1) end.

(** The observers that see the operation, each recording a hit. *)
Definition observers_hit (rules : list Rule) (op : NetOp) (hits : gmap nat Z) : gmap nat Z :=
  foldl (fun hits r => if is_observe (ru_effect r) && Selector_matches (ru_selector r) op
                       then record_hit (ru_hits r) hits else hits) hits rules.

Definition decisive (op : NetOp) (r : Rule) : bool :=
  negb (is_observe (ru_effect r)) && Selector_matches (ru_selector r) op.

Definition trap_ready (op : NetOp) (t : Interception) : bool :=
  tr_armed t && Selector_matches (tr_selector t) op.

Definition disarm (t : Interception) : Interception := mkInterception (tr_id t) (tr_selector t) false.

(** [gate], for an active scope. *)
Definition scope_gate (s : FaultState) (op : NetOp) : Gate * FaultState :=
  let observed := observe_stage (op_stage op) (fs_observed s) in
  let hits := observers_hit (fs_rules s) op (fs_hits s) in
  match find_first (decisive op) (fs_rules s) with
  | Some rule =>
      let hits := record_hit (ru_hits rule) hits in
      match ru_effect rule with
      | EffReject message =>
          (Decided (RejectWith message),
           mkFaults (fs_traps s) (fs_rules s) (fs_unfired s) observed (fs_holding s) (fs_sequence s)
             (fs_reset s) hits (fs_next s))
      | _ =>
          (GStalled (ru_hits rule),
           mkFaults (fs_traps s) (fs_rules s) (fs_unfired s) observed (fs_holding s + 1)
             (fs_sequence s) (fs_reset s) hits (fs_next s))
      end
  | None =>
      match position (trap_ready op) (fs_traps s) with
      | None =>
          (Decided Release,
           mkFaults (fs_traps s) (fs_rules s) (fs_unfired s) observed (fs_holding s) (fs_sequence s)
             (fs_reset s) hits (fs_next s))
      | Some i =>
          let sequence := fs_sequence s + 1 in
          (GHeld (default 0%nat (tr_id <$> fs_traps s !! i)) op sequence (fs_reset s),
           mkFaults (alter disarm i (fs_traps s)) (fs_rules s) (fs_unfired s) observed
             (fs_holding s + 1) sequence (fs_reset s) hits (fs_next s))
      end
  end.

(** [gate]: without a scope everything is released. *)
Definition gate (active : option FaultState) (op : NetOp) : Gate * option FaultState :=
  match active with
  | None => (Decided Release, None)
  | Some s => let (g, s) := scope_gate s op in (g, Some s)
  end.

(** [State::restore] *)
Definition State_restore (s : FaultState) : FaultState :=
  mkFaults [] [] (fs_unfired s ++ (tr_selector <$> filter (fun t => tr_armed t = true) (fs_traps s)))
    (fs_observed s) (fs_holding s) (fs_sequence s) (S (fs_reset s)) (fs_hits s) (fs_next s).

(** [Faults::intercept]: the trap's identity and the new state. *)
Definition Faults_intercept (sel : Selector) (s : FaultState) : nat * FaultState :=
  (fs_next s, mkFaults (fs_traps s ++ [mkInterception (fs_next s) sel true]) (fs_rules s)
                (fs_unfired s) (fs_observed s) (fs_holding s) (fs_sequence s) (fs_reset s)
                (fs_hits s) (S (fs_next s))).

(** [Faults::rule], behind [observe], [reject] and [stall]. *)
Definition Faults_rule (sel : Selector) (e : Effect) (s : FaultState) : nat * FaultState :=
  (fs_next s, mkFaults (fs_traps s) (fs_rules s ++ [mkRule sel e (fs_next s)]) (fs_unfired s)
                (fs_observed s) (fs_holding s) (fs_sequence s) (fs_reset s)
                (<[fs_next s := 0]> (fs_hits s)) (S (fs_next s))).
Definition Faults_observe (sel : Selector) : FaultState -> nat * FaultState := Faults_rule sel EffObserve.
Definition Faults_reject (sel : Selector) (m : string) : FaultState -> nat * FaultState :=
  Faults_rule sel (EffReject m).
Definition Faults_stall (sel : Selector) : FaultState -> nat * FaultState := Faults_rule sel EffStall.

(** [RuleHandle::hits] and [RuleHandle::remove] *)
Definition RuleHandle_hits (id : nat) (s : FaultState) : Z := default 0 (fs_hits s !! id).
Definition RuleHandle_remove (id : nat) (s : FaultState) : FaultState :=
  mkFaults (fs_traps s) (filter (fun r => ru_hits r <> id) (fs_rules s)) (fs_unfired s) (fs_observed s)
    (fs_holding s) (fs_sequence s) (fs_reset s) (fs_hits s) (fs_next s).

(** [Drop for Holding] *)
Definition Holding_drop (s : FaultState) : FaultState :=
  mkFaults (fs_traps s) (fs_rules s) (fs_unfired s) (fs_observed s) (fs_holding s - 1) (fs_sequence s)
    (fs_reset s) (fs_hits s) (fs_next s).

(** The end of [Faults::reset], once nothing is held any more. *)
Definition reset_verdict (s : FaultState) : Result unit (list Selector) * FaultState :=
  let s' := mkFaults (fs_traps s) (fs_rules s) [] (fs_observed s) (fs_holding s) (fs_sequence s)
              (fs_reset s) (fs_hits s) (fs_next s) in
  (if bool_decide (fs_unfired s = []) then Ok tt else Err (fs_unfired s), s').

(** [Gate::resolve], as far as it has got: [decision] is what the holder of the
    operation sent ([Some None] when it was dropped), the state what rules and
    resets there are now.  [None] is still waiting. *)
Definition Gate_resolve (g : Gate) (decision : option (option Decision)) (s : FaultState)
  : option Decision :=
  match g with
  | Decided d => Some d
  | GHeld _ _ _ since =>
      match decision with
      | Some d => Some (default Release d)
      | None => if (since <? fs_reset s)%nat then Some Release else None
      end
  | GStalled rule =>
      if existsb (fun r => Nat.eqb (ru_hits r) rule) (fs_rules s) then None else Some Release
  end.

(** [Proxy::scope] and [Drop for Faults] on the runtime's active scope. *)
Definition Proxy_scope (active : option FaultState) : Result FaultState string :=
  match active with
  | Some _ => Err "proxy already has an active fault scope"%string
  | None => Ok FaultState_new
  end.

(** * A scope at work *)

(** The scope with the operations it holds back, by ticket. *)
Record Net := mkNet { n_scope : FaultState; n_held : gmap nat Gate; n_ticket : nat }.
Definition Net_new : Net := mkNet FaultState_new ∅ 0.

Inductive NetAction :=
| ActGate (op : NetOp)
| ActIntercept (sel : Selector)
| ActRule (sel : Selector) (e : Effect)
| ActRemove (rule : nat)
| ActForward (ticket : nat) (decision : option (option Decision))
| ActRestore.

Definition is_decided (g : Gate) : bool := match g with Decided _ => true | _ => false end.

(** What an action does; forwarding a ticket needs its gate to have resolved,
    and drops its [Holding]. *)
Definition net_step (n : Net) (a : NetAction) : option Net :=
  match a with
  | ActGate op =>
      let (g, s) := scope_gate (n_scope n) op in
      Some (if is_decided g then mkNet s (n_held n) (n_ticket n)
            else mkNet s (<[n_ticket n := g]> (n_held n)) (S (n_ticket n)))
  | ActIntercept sel => Some (mkNet (Faults_intercept sel (n_scope n)).2 (n_held n) (n_ticket n))
  | ActRule sel e => Some (mkNet (Faults_rule sel e (n_scope n)).2 (n_held n) (n_ticket n))
  | ActRemove rule => Some (mkNet (RuleHandle_remove rule (n_scope n)) (n_held n) (n_ticket n))
  | ActForward ticket decision =>
      g ← n_held n !! ticket;
      _ ← Gate_resolve g decision (n_scope n);
      Some (mkNet (Holding_drop (n_scope n)) (delete ticket (n_held n)) (n_ticket n))
  | ActRestore => Some (mkNet (State_restore (n_scope n)) (n_held n) (n_ticket n))
  end.

Fixpoint net_run (n : Net) (actions : list NetAction) : option Net :=
  match actions with
  | [] => Some n
  | a :: actions => n ← net_step n a; net_run n actions
  end.
