(* ===== verification/NetfaultFacts.v ===== *)
(** What a fault scope guarantees, over every sequence of uses. *)
From S2P Require Import Prelude Netfault.

(** * The invariant *)

Definition gate_known (n : Net) (g : Gate) : Prop :=
  match g with
  | Decided _ => False
  | GHeld _ _ seq since => (since <= fs_reset (n_scope n))%nat /\ 1 <= seq <= fs_sequence (n_scope n)
  | GStalled r => (r < fs_next (n_scope n))%nat
  end.

Record net_inv (n : Net) : Prop := {
  ni_holding : fs_holding (n_scope n) = Z.of_nat (size (n_held n));
  ni_held : forall t g, n_held n !! t = Some g -> (t < n_ticket n)%nat /\ gate_known n g;
  ni_rules : Forall (fun r => (ru_hits r < fs_next (n_scope n))%nat) (fs_rules (n_scope n));
  ni_rules_nodup : NoDup (ru_hits <$> fs_rules (n_scope n));
  ni_traps : Forall (fun t => (tr_id t < fs_next (n_scope n))%nat) (fs_traps (n_scope n));
  ni_traps_nodup : NoDup (tr_id <$> fs_traps (n_scope n));
  ni_sequence : 0 <= fs_sequence (n_scope n);
}.

(** What no action ever takes back. *)
Definition scope_grows (s s' : FaultState) : Prop :=
  (fs_reset s <= fs_reset s')%nat /\ (fs_next s <= fs_next s')%nat /\
  fs_sequence s <= fs_sequence s'.

Lemma gate_known_grows n n' g :
  scope_grows (n_scope n) (n_scope n') -> gate_known n g -> gate_known n' g.
Proof. intros (? & ? & ?). destruct g; cbn; [done| |]; intros; lia. Qed.

Lemma tr_id_alter i (l : list Interception) : tr_id <$> alter disarm i l = tr_id <$> l.
Proof.
  apply list_eq. intros j. rewrite !list_lookup_fmap. destruct (decide (i = j)) as [->|Hne].
  - rewrite list_lookup_alter_eq. by destruct (l !! j).
  - by rewrite list_lookup_alter_ne.
Qed.

(** What [scope_gate] does to the state, summed up. *)
Lemma scope_gate_shape s op g s' :
  scope_gate s op = (g, s') ->
  fs_rules s' = fs_rules s /\ fs_unfired s' = fs_unfired s /\ fs_reset s' = fs_reset s /\
  fs_next s' = fs_next s /\ tr_id <$> fs_traps s' = tr_id <$> fs_traps s /\
  match g with
  | Decided _ => fs_holding s' = fs_holding s /\ fs_sequence s' = fs_sequence s /\
                 fs_traps s' = fs_traps s
  | GHeld tr o seq since =>
      fs_holding s' = fs_holding s + 1 /\ seq = fs_sequence s + 1 /\ fs_sequence s' = seq /\
      since = fs_reset s /\ o = op /\
      exists i t, fs_traps s !! i = Some t /\ tr_id t = tr /\ tr_armed t = true /\
        Selector_matches (tr_selector t) op = true /\ fs_traps s' = alter disarm i (fs_traps s)
  | GStalled r =>
      fs_holding s' = fs_holding s + 1 /\ fs_sequence s' = fs_sequence s /\
      fs_traps s' = fs_traps s /\
      exists rule, rule ∈ fs_rules s /\ ru_hits rule = r /\ decisive op rule = true
  end.
Proof.
  unfold scope_gate. destruct (find_first (decisive op) (fs_rules s)) as [rule|] eqn:Hf.
  - apply find_first_Some in Hf as [Hin Hd].
    destruct (ru_effect rule); intros [= <- <-]; cbn; split_and!; try done; eauto.
  - destruct (position (trap_ready op) (fs_traps s)) as [i|] eqn:Hp.
    + apply position_Some in Hp as (t & Ht & Hr & _). apply andb_true_iff in Hr as [Ha Hm].
      intros [= <- <-]. cbn. rewrite Ht. cbn. rewrite tr_id_alter.
      split_and!; try done. exists i, t. split_and!; done.
    + intros [= <- <-]. by split_and!.
Qed.

Lemma net_inv_new : net_inv Net_new.
Proof. split; cbn; try done; constructor. Qed.

Lemma Forall_weaken {A} (f : A -> nat) l n m :
  (n <= m)%nat -> Forall (fun x => (f x < n)%nat) l -> Forall (fun x => (f x < m)%nat) l.
Proof. intros Hle Hl. eapply Forall_impl; [done|]. intros x Hx. cbn in *. lia. Qed.

Lemma NoDup_fmap_snoc {A} (f : A -> nat) l x n :
  NoDup (f <$> l) -> Forall (fun x => (f x < n)%nat) l -> f x = n -> NoDup (f <$> l ++ [x]).
Proof.
  intros Hnd Hlt Hx. rewrite fmap_app. apply NoDup_app. split_and!; [done| |apply NoDup_singleton].
  intros y (z & -> & Hz)%list_elem_of_fmap Heq%list_elem_of_singleton.
  rewrite Forall_forall in Hlt. specialize (Hlt z Hz). rewrite Hx in Heq. lia.
Qed.

Lemma net_step_grows n a n' : net_step n a = Some n' -> scope_grows (n_scope n) (n_scope n').
Proof.
  unfold scope_grows. destruct a; cbn [net_step].
  - destruct (scope_gate (n_scope n) op) as [g s] eqn:Hg. apply scope_gate_shape in Hg as (_ & _ & Hr & Hn & _ & Hg).
    intros [= <-]. assert (fs_sequence (n_scope n) <= fs_sequence s) by (destruct g; destruct_and?; lia).
    destruct (is_decided g); cbn; lia.
  - intros [= <-]. cbn. lia.
  - intros [= <-]. cbn. lia.
  - intros [= <-]. cbn. lia.
  - intros (g & _ & Hx)%bind_Some. apply bind_Some in Hx as (d & _ & [= <-]). cbn. lia.
  - intros [= <-]. cbn. lia.
Qed.

(** An operation that passes the gate keeps the invariant. *)
Lemma net_gate_inv n op n' : net_inv n -> net_step n (ActGate op) = Some n' -> net_inv n'.
Proof.
  intros Hi Hs. pose proof (net_step_grows _ _ _ Hs) as Hg. pose proof Hg as (Hr & Hn & Hq).
  destruct Hi as [Hhold Hheld Hrules Hrnd Htraps Htnd Hseq].
  assert (forall t g, n_held n !! t = Some g -> (t < n_ticket n)%nat /\ gate_known n' g) as Hheld'.
  { intros t g Ht. destruct (Hheld t g Ht). split; [done|]. by eapply gate_known_grows. }
  revert Hs. cbn [net_step].
  destruct (scope_gate (n_scope n) op) as [g s] eqn:Hgate.
  apply scope_gate_shape in Hgate as (Er & _ & Erst & En & Etr & Hsh). intros [= <-].
  assert (Forall (fun t => (tr_id t < fs_next (n_scope n))%nat) (fs_traps s)) as Htraps'.
  { by rewrite <-(Forall_fmap tr_id (fun i => (i < fs_next (n_scope n))%nat)), Etr, Forall_fmap. }
  destruct (is_decided g) eqn:Hdec.
  + destruct g; try done. destruct Hsh as (Eh & Es & Et).
    split; cbn in *; rewrite ?Er, ?En, ?Etr, ?Eh; try done; lia.
  + assert (n_held n !! n_ticket n = None) as Hfresh.
    { apply eq_None_not_Some. intros [g' Hg']. apply Hheld in Hg' as [? _]. lia. }
    split; cbn in *; rewrite ?Er, ?En, ?Etr; try done.
    * rewrite map_size_insert_None by done. destruct g; cbn in *; [done|..];
        destruct Hsh as (-> & _); lia.
    * intros t g'. destruct (decide (t = n_ticket n)) as [->|Hne].
      -- rewrite lookup_insert_eq. intros [= <-]. split; [lia|].
         destruct g; cbn in *; [done| |].
         ++ destruct Hsh as (_ & -> & -> & -> & _). lia.
         ++ destruct Hsh as (_ & _ & _ & ru0 & Hin & <- & _). rewrite En.
            rewrite Forall_forall in Hrules. by apply Hrules.
      -- rewrite lookup_insert_ne by done. intros Ht. destruct (Hheld' t g' Ht). split; [lia|done].
    * lia.
Qed.

Lemma net_step_inv n a n' : net_inv n -> net_step n a = Some n' -> net_inv n'.
Proof.
  intros Hi Hs. destruct a as [op|sel|sel e|rule|ticket decision|]; [by eapply net_gate_inv|..].
  all: pose proof (net_step_grows _ _ _ Hs) as Hg; pose proof Hg as (Hr & Hn & Hq).
  all: destruct Hi as [Hhold Hheld Hrules Hrnd Htraps Htnd Hseq].
  all: assert (forall t g, n_held n !! t = Some g -> (t < n_ticket n)%nat /\ gate_known n' g) as Hheld'
    by (intros t g Ht; destruct (Hheld t g Ht); split; [done|]; by eapply gate_known_grows).
  all: revert Hs; cbn [net_step].
  - intros [= <-]. split; cbn in *; try done.
    + eapply Forall_weaken; [|done]. lia.
    + apply Forall_app. split; [eapply Forall_weaken; [|done]; lia|]. apply Forall_singleton. cbn. lia.
    + by eapply NoDup_fmap_snoc.
  - intros [= <-]. split; cbn in *; try done.
    + apply Forall_app. split; [eapply Forall_weaken; [|done]; lia|]. apply Forall_singleton. cbn. lia.
    + by eapply NoDup_fmap_snoc.
    + eapply Forall_weaken; [|done]. lia.
  - intros [= <-]. split; cbn in *; try done.
    + apply Forall_forall. intros r [_ Hr']%list_elem_of_filter. rewrite Forall_forall in Hrules. by apply Hrules.
    + eapply sublist_NoDup; [exact Hrnd|]. apply (fmap_sublist ru_hits), sublist_filter.
  - intros (g & Hg' & Hx)%bind_Some. apply bind_Some in Hx as (d & _ & [= <-]). split; cbn in *; try done.
    + rewrite map_size_delete, Hg'. cbn.
      assert (size (n_held n) <> 0)%nat by (intros He%map_size_empty_inv; by rewrite He, lookup_empty in Hg').
      lia.
    + intros t g' [_ Ht]%lookup_delete_Some. by apply Hheld'.
  - intros [= <-]. split; cbn in *; try done; constructor.
Qed.

Lemma net_run_inv n acts n' : net_inv n -> net_run n acts = Some n' -> net_inv n'.
Proof.
  revert n. induction acts as [|a acts IH]; intros n Hi; cbn [net_run]; [by intros [= <-]|].
  intros (n1 & H1 & H2)%bind_Some. eapply IH; [|done]. by eapply net_step_inv.
Qed.

(** * Restoring *)

(** Rules installed after [base] identities were handed out. *)
Definition rules_from (base : nat) (s : FaultState) : Prop :=
  (base <= fs_next s)%nat /\ Forall (fun r => (base <= ru_hits r)%nat) (fs_rules s).

Lemma net_step_rules_from base n a n' :
  rules_from base (n_scope n) -> net_step n a = Some n' -> rules_from base (n_scope n').
Proof.
  intros [Hb Hr]. destruct a; cbn [net_step].
  - destruct (scope_gate (n_scope n) op) as [g s] eqn:Hg. apply scope_gate_shape in Hg as (Er & _ & _ & En & _).
    intros [= <-]. unfold rules_from. destruct (is_decided g); cbn; by rewrite Er, En.
  - intros [= <-]. split; cbn; [lia|done].
  - intros [= <-]. split; cbn; [lia|]. apply Forall_app. split; [done|]. by apply Forall_singleton.
  - intros [= <-]. split; cbn; [done|]. apply Forall_forall. intros r [_ Hin]%list_elem_of_filter.
    rewrite Forall_forall in Hr. by apply Hr.
  - intros (g & _ & Hx)%bind_Some. apply bind_Some in Hx as (d & _ & [= <-]). by split.
  - intros [= <-]. split; cbn; [done|constructor].
Qed.

Lemma net_run_after base since n acts n' :
  rules_from base (n_scope n) -> (since < fs_reset (n_scope n))%nat ->
  net_run n acts = Some n' ->
  rules_from base (n_scope n') /\ (since < fs_reset (n_scope n'))%nat.
Proof.
  revert n. induction acts as [|a acts IH]; intros n Hr Hs; cbn [net_run]; [by intros [= <-]|].
  intros (n1 & H1 & H2)%bind_Some. eapply IH; [by eapply net_step_rules_from| |done].
  apply net_step_grows in H1 as (? & _). lia.
Qed.

Lemma restored_resolves n acts n' t g :
  net_inv n -> n_held n !! t = Some g ->
  net_run (mkNet (State_restore (n_scope n)) (n_held n) (n_ticket n)) acts = Some n' ->
  exists d, Gate_resolve g None (n_scope n') = Some d.
Proof.
  intros Hi Hg Hrun. destruct (ni_held _ Hi t g Hg) as [_ Hk].
  apply (net_run_after (fs_next (n_scope n)) (fs_reset (n_scope n))) in Hrun as [[_ Hr] Hs];
    [|split; cbn; [done|constructor]|cbn; lia].
  destruct g as [|tr o seq since|r]; cbn [gate_known] in Hk; cbn [Gate_resolve]; [done| |].
  - rewrite (proj2 (Nat.ltb_lt _ _)) by lia. by eexists.
  - destruct (existsb _ _) eqn:He; [|by eexists]. apply existsb_exists in He as (x & Hx & Heq).
    apply list_elem_of_In in Hx. rewrite Forall_forall in Hr. specialize (Hr x Hx).
    apply Nat.eqb_eq in Heq. lia.
Qed.

(** * Interceptions *)

(** The interceptions a run performs: trap, operation and sequence number. *)
Fixpoint catches (n : Net) (acts : list NetAction) : list (nat * NetOp * Z) :=
  match acts with
  | [] => []
  | a :: acts =>
      match net_step n a with
      | None => []
      | Some n' =>
          match a with
          | ActGate op =>
              match (scope_gate (n_scope n) op).1 with
              | GHeld tr o seq _ => (tr, o, seq) :: catches n' acts
              | _ => catches n' acts
              end
          | _ => catches n' acts
          end
      end
  end.

(** A trap that may still catch something. *)
Definition armed_ids (n : Net) : list nat :=
  tr_id <$> filter (fun t => tr_armed t = true) (fs_traps (n_scope n)).

Lemma armed_alter (l : list Interception) i t :
  NoDup (tr_id <$> l) -> l !! i = Some t -> tr_armed t = true ->
  forall k, k ∈ tr_id <$> filter (fun t => tr_armed t = true) (alter disarm i l) <->
    k ∈ tr_id <$> filter (fun t => tr_armed t = true) l /\ k <> tr_id t.
Proof.
  intros Hnd Hi Ha k. rewrite !list_elem_of_fmap. split.
  - intros (x & -> & [Hx (j & Hj)%list_elem_of_lookup]%list_elem_of_filter).
    destruct (decide (i = j)) as [<-|Hne].
    { rewrite list_lookup_alter_eq, Hi in Hj. injection Hj as <-. done. }
    rewrite list_lookup_alter_ne in Hj by done. split.
    + exists x. split; [done|]. apply list_elem_of_filter. split; [done|]. by eapply list_elem_of_lookup_2.
    + intros Heq. apply Hne. apply (NoDup_lookup _ i j (tr_id t) Hnd);
        rewrite list_lookup_fmap; [by rewrite Hi|by rewrite Hj, <-Heq].
  - intros [(x & -> & [Hx (j & Hj)%list_elem_of_lookup]%list_elem_of_filter) Hne].
    exists x. split; [done|]. apply list_elem_of_filter. split; [done|].
    apply (list_elem_of_lookup_2 _ j). rewrite list_lookup_alter_ne; [done|].
    intros ->. congruence.
Qed.

(** Catches come from traps that are armed now or installed later. *)
(** What the traps caught in a state: traps armed there or installed later, with
    sequence numbers still to come. *)
Definition catchable (n : Net) (c : nat * NetOp * Z) : Prop :=
  let '(tr, _, seq) := c in
  (tr ∈ armed_ids n \/ (fs_next (n_scope n) <= tr)%nat) /\ fs_sequence (n_scope n) < seq.

Lemma catchable_weaken n n' l :
  (fs_next (n_scope n) <= fs_next (n_scope n'))%nat ->
  fs_sequence (n_scope n) <= fs_sequence (n_scope n') ->
  (forall k, k ∈ armed_ids n' -> k ∈ armed_ids n \/ (fs_next (n_scope n) <= k)%nat) ->
  Forall (catchable n') l -> Forall (catchable n) l.
Proof.
  intros Hnx Hsq Hsub Hl. eapply Forall_impl; [exact Hl|]. intros [[tr o] q] [[?|?] ?]; (split; [|lia]); [by apply Hsub|lia].
Qed.

(** One more catch, by a trap that is disarmed with it. *)
Lemma catches_cons n n' tr op seq l :
  tr ∈ armed_ids n -> (tr < fs_next (n_scope n'))%nat -> tr ∉ armed_ids n' ->
  fs_sequence (n_scope n) < seq <= fs_sequence (n_scope n') ->
  Forall (catchable n) l -> Forall (catchable n') l -> NoDup l.*1.*1 -> Sorted Z.lt l.*2 ->
  let l' := (tr, op, seq) :: l in
  Forall (catchable n) l' /\ NoDup l'.*1.*1 /\ Sorted Z.lt l'.*2.
Proof.
  intros Hin Hlt Hout Hseq Hl Hl' Hnd Hst l'. subst l'. split_and!.
  - apply Forall_cons. split; [split; [by left|lia]|done].
  - cbn. apply NoDup_cons. split; [|done]. intros Hbad.
    apply list_elem_of_fmap in Hbad as ([k o'] & Hk & Hbad). cbn in Hk. subst k.
    apply list_elem_of_fmap in Hbad as ([[k o''] q] & Hk & Hbad). cbn in Hk. injection Hk as <- <-.
    rewrite Forall_forall in Hl'. apply Hl' in Hbad as [[Hx|Hx] _]; [done|lia].
  - cbn. apply Sorted_cons; [done|]. destruct l as [|[[k o'] q] l]; constructor.
    apply Forall_cons in Hl' as [[_ Hq] _]. cbn. lia.
Qed.

Lemma catches_spec n acts :
  net_inv n ->
  Forall (catchable n) (catches n acts) /\
  NoDup (catches n acts).*1.*1 /\ Sorted Z.lt (catches n acts).*2.
Proof.
  revert n. induction acts as [|a acts IH]; intros n Hi; cbn [catches].
  { split_and!; constructor. }
  destruct (net_step n a) as [n'|] eqn:Hs; [|split_and!; constructor].
  pose proof (net_step_inv _ _ _ Hi Hs) as Hi'. pose proof (net_step_grows _ _ _ Hs) as (_ & Hnx & Hsq).
  destruct (IH n' Hi') as (Hc & Hnd & Hst).
  pose proof (fun H => catchable_weaken n n' _ Hnx Hsq H Hc) as Hweak.
  destruct a.
  - cbn [net_step] in Hs. destruct (scope_gate (n_scope n) op) as [g s] eqn:Hg. cbn [fst].
    apply scope_gate_shape in Hg as (_ & _ & _ & En & _ & Hsh). injection Hs as <-.
    destruct g as [d|tr o seq since|r]; cbn [is_decided] in *.
    + destruct Hsh as (_ & _ & Et). split_and!; [|done..]. apply Hweak. unfold armed_ids. cbn.
      rewrite Et. by left.
    + destruct Hsh as (_ & Eq & Es & _ & _ & i & t & Hit & <- & Ha & _ & Et).
      pose proof (armed_alter _ i t (ni_traps_nodup _ Hi) Hit Ha) as Harm. rewrite <-Et in Harm.
      apply list_elem_of_lookup_2 in Hit.
      assert (tr_id t ∈ armed_ids n) as Hin.
      { apply list_elem_of_fmap. exists t. split; [done|]. by apply list_elem_of_filter. }
      pose proof (ni_traps _ Hi) as Htr. rewrite Forall_forall in Htr. specialize (Htr t Hit).
      eapply catches_cons; [done|..|exact Hc|done|done].
      * cbn in *. lia.
      * intros Hx. by apply Harm in Hx as [_ Hx].
      * cbn in *. lia.
      * apply Hweak. intros k [? _]%Harm. by left.
    + destruct Hsh as (_ & _ & Et & _). split_and!; [|done..]. apply Hweak. unfold armed_ids. cbn.
      rewrite Et. by left.
  - injection Hs as <-. split_and!; [|done..]. apply Hweak. unfold armed_ids. cbn.
    intros k. rewrite filter_app, fmap_app, elem_of_app. intros [?|Hk]; [by left|]. right.
    cbn in Hk. apply list_elem_of_singleton in Hk as ->. done.
  - injection Hs as <-. split_and!; [|done..]. apply Hweak. by left.
  - injection Hs as <-. split_and!; [|done..]. apply Hweak. by left.
  - cbn [net_step] in Hs. apply bind_Some in Hs as (g & _ & Hx). apply bind_Some in Hx as (d & _ & [= <-]).
    split_and!; [|done..]. apply Hweak. by left.
  - injection Hs as <-. split_and!; [|done..]. apply Hweak. unfold armed_ids. cbn.
    intros k Hk. by apply elem_of_nil in Hk.
Qed.

(** * Observers *)

Definition without_observers (s : FaultState) : FaultState :=
  mkFaults (fs_traps s) (filter (fun r => is_observe (ru_effect r) = false) (fs_rules s))
    (fs_unfired s) (fs_observed s) (fs_holding s) (fs_sequence s) (fs_reset s) (fs_hits s) (fs_next s).

Lemma find_decisive_filter op rules :
  find_first (decisive op) (filter (fun r => is_observe (ru_effect r) = false) rules)
  = find_first (decisive op) rules.
Proof.
  induction rules as [|r rules IH]; [done|]. destruct (is_observe (ru_effect r)) eqn:Ho.
  - rewrite filter_cons_False by congruence. cbn. unfold decisive at 2. by rewrite Ho.
  - rewrite filter_cons_True by done. cbn. by rewrite IH.
Qed.

Lemma observers_do_not_decide s op :
  (scope_gate s op).1 = (scope_gate (without_observers s) op).1.
Proof.
  unfold scope_gate. cbn [fs_rules fs_traps without_observers fs_sequence fs_reset].
  rewrite find_decisive_filter. destruct (find_first _ _) as [r|]; [by destruct (ru_effect r)|].
  by destruct (position _ _).
Qed.

(** An observer's counter counts the operations that match it. *)
Lemma record_hit_eq id hits : default 0 (record_hit id hits !! id) = default 0 (hits !! id) + 1.
Proof. unfold record_hit. by rewrite lookup_insert_eq. Qed.
Lemma record_hit_ne id id' hits : id <> id' -> record_hit id hits !! id' = hits !! id'.
Proof. intros. unfold record_hit. by rewrite lookup_insert_ne. Qed.

Lemma observers_hit_other rules op hits id :
  id ∉ ru_hits <$> rules -> observers_hit rules op hits !! id = hits !! id.
Proof.
  unfold observers_hit. revert hits. induction rules as [|r rules IH]; intros hits Hn; [done|].
  cbn in *. apply not_elem_of_cons in Hn as [Hne Hn]. rewrite IH by done.
  case_match; [|done]. by apply record_hit_ne.
Qed.

Lemma observers_hit_eq rules op hits r :
  NoDup (ru_hits <$> rules) -> r ∈ rules -> ru_effect r = EffObserve ->
  default 0 (observers_hit rules op hits !! ru_hits r) =
  default 0 (hits !! ru_hits r) + Z.b2z (Selector_matches (ru_selector r) op).
Proof.
  revert hits. induction rules as [|x rules IH]; intros hits Hnd Hr He; [by apply elem_of_nil in Hr|].
  cbn in Hnd. apply NoDup_cons in Hnd as [Hx Hnd].
  change (observers_hit (x :: rules) op hits) with
    (observers_hit rules op (if is_observe (ru_effect x) && Selector_matches (ru_selector x) op
                             then record_hit (ru_hits x) hits else hits)).
  apply elem_of_cons in Hr as [->|Hr].
  - rewrite observers_hit_other by done. rewrite He. cbn [is_observe andb].
    destruct (Selector_matches _ _); [by rewrite record_hit_eq|cbn; lia].
  - rewrite IH by done. assert (ru_hits x <> ru_hits r) as Hne.
    { intros Heq. apply Hx. rewrite Heq. apply list_elem_of_fmap. by exists r. }
    case_match; [by rewrite record_hit_ne|done].
Qed.

(** * Counting interceptions *)

Definition is_restore (a : NetAction) : bool := match a with ActRestore => true | _ => false end.
Definition is_intercept (a : NetAction) : bool := match a with ActIntercept _ => true | _ => false end.

Definition armed_count (s : FaultState) : nat :=
  length (filter (fun t => tr_armed t = true) (fs_traps s)).

Lemma armed_count_alter (l : list Interception) i t :
  l !! i = Some t -> tr_armed t = true ->
  length (filter (fun t => tr_armed t = true) l) =
  S (length (filter (fun t => tr_armed t = true) (alter disarm i l))).
Proof.
  revert i. induction l as [|x l IH]; intros [|i] Hi Ha; try done; cbn in Hi.
  - injection Hi as ->. cbn [alter list_alter].
    by rewrite filter_cons_True, filter_cons_False by done.
  - cbn [alter list_alter]. specialize (IH i Hi Ha). destruct (decide (tr_armed x = true)).
    + rewrite !filter_cons_True by done. cbn. by rewrite IH.
    + by rewrite !filter_cons_False by done.
Qed.

(** Without a restore, the armed traps are those installed less those that
    caught something. *)
Lemma armed_accounting n acts n' :
  net_run n acts = Some n' -> Forall (fun a => is_restore a = false) acts ->
  (armed_count (n_scope n') + length (catches n acts) =
     armed_count (n_scope n) + length (filter (fun a => is_intercept a = true) acts))%nat /\
  fs_unfired (n_scope n') = fs_unfired (n_scope n).
Proof.
  intros Hrun Hnr. revert n Hrun. induction Hnr as [|a acts Ha _ IH]; intros n; cbn [net_run catches].
  { intros [= <-]. cbn. split; [lia|done]. }
  destruct (net_step n a) as [n1|] eqn:Hs; cbn [mbind option_bind]; [|done]. intros Hrun.
  destruct (IH n1 Hrun) as [IH1 IH2]. rewrite IH2. destruct a; try done.
  - rewrite filter_cons_False by done. cbn [net_step] in Hs.
    destruct (scope_gate (n_scope n) op) as [g s] eqn:Hg. cbn [fst].
    apply scope_gate_shape in Hg as (_ & Eu & _ & _ & _ & Hsh). injection Hs as <-.
    destruct g as [d|tr o seq since|r]; cbn in *.
    + destruct Hsh as (_ & _ & Et). unfold armed_count in *. rewrite Et in IH1. split; [lia|done].
    + destruct Hsh as (_ & _ & _ & _ & _ & i & t & Hit & _ & Har & _ & Et).
      unfold armed_count in *. rewrite Et in IH1. rewrite (armed_count_alter _ i t Hit Har).
      split; [lia|done].
    + destruct Hsh as (_ & _ & Et & _). unfold armed_count in *. rewrite Et in IH1. split; [lia|done].
  - rewrite filter_cons_True by done. cbn [net_step] in Hs. injection Hs as <-.
    unfold armed_count in *. cbn [n_scope Faults_intercept snd fs_traps fs_unfired length] in *.
    rewrite filter_app, filter_cons_True, filter_nil, length_app in IH1 by done.
    cbn [length] in IH1. split; [lia|done].
  - rewrite filter_cons_False by done. injection Hs as <-. by split.
  - rewrite filter_cons_False by done. injection Hs as <-. by split.
  - rewrite filter_cons_False by done. cbn [net_step] in Hs.
    apply bind_Some in Hs as (g & _ & Hx). apply bind_Some in Hx as (d & _ & [= <-]). by split.
Qed.
