(* ===== verification/Relay.v ===== *)
(** The proxy's relays: [core/src/netfault/rpc.rs], [ws.rs] and [http.rs].

    JSON parsing, printing and transaction decoding are outside the model:
    [JsonText] is what the code calls.  Heads of HTTP requests are byte lists
    read as ASCII text. *)
From Stdlib Require Import Ascii String.
From S2P Require Import Prelude Netfault.

(** * JSON values *)

#[local] Set Warnings "-register-all".

Inductive Json :=
| JNull
| JBool (b : bool)
| JNum (n : Z)
| JStr (s : string)
| JArr (items : list Json)
| JObj (fields : list (string * Json)).

(** [value.get(key)]; [value[key]] is null when there is none. *)
Definition j_get (k : string) (v : Json) : option Json :=
  match v with
  | JObj fields => find_map (fun '(k', v') => if String.eqb k' k then Some v' else None) fields
  | _ => None
  end.
Definition j_field (k : string) (v : Json) : Json := default JNull (j_get k v).
Definition j_item (i : nat) (v : Json) : Json :=
  match v with JArr items => default JNull (items !! i) | _ => JNull end.
Definition as_str (v : Json) : option string := match v with JStr s => Some s | _ => None end.
Definition as_u64 (v : Json) : option Z :=
  match v with JNum n => if (0 <=? n) && (n <? u64_bound) then Some n else None | _ => None end.
Definition as_bool (v : Json) : option bool := match v with JBool b => Some b | _ => None end.
Definition as_array (v : Json) : option (list Json) := match v with JArr l => Some l | _ => None end.

Class JsonText := {
  json_parse : string -> option Json;
  json_print : Json -> string;
  (** [api::decode_transaction]: the signatures and the static account keys. *)
  decode_transaction : string -> option (list string * list string);
}.

(** * JSON-RPC metadata *)

Section rpc.
Context `{J : JsonText}.

Definition rpc_id (v : Json) : option string := json_print <$> j_get "id" v.

Definition rpc_subscription (v : Json) : option Z :=
  as_u64 (j_field "subscription" (j_field "params" v)).

(** The addresses and signatures a request names, by method. *)
Definition request_targets (method : string) (first : Json) : list string * list string :=
  let one := match as_str first with Some s => [s] | None => [] end in
  let many := match as_array first with Some l => omap as_str l | None => [] end in
  if (String.eqb method "getAccountInfo" || String.eqb method "accountSubscribe"
      || String.eqb method "programSubscribe")%bool then ([], one)
  else if (String.eqb method "signatureSubscribe" || String.eqb method "getTransaction")%bool
  then (one, [])
  else if String.eqb method "getMultipleAccounts" then ([], many)
  else if String.eqb method "getSignatureStatuses" then (many, [])
  else if String.eqb method "sendTransaction"
  then match as_str first with
       | Some text => default ([], []) (decode_transaction text)
       | None => ([], [])
       end
  else ([], []).

Definition rpc_request (transport : Transport) (v : Json) : NetOp :=
  let method := default "?"%string (as_str (j_field "method" v)) in
  let (signatures, accounts) := request_targets method (j_item 0 (j_field "params" v)) in
  mkNetOp transport StRequest method signatures accounts.

Definition rpc_notification (v : Json) (base : option NetOp) : NetOp :=
  let base := default (rpc_request Ws JNull) base in
  let method := default "?"%string (as_str (j_field "method" v)) in
  let extra := if String.eqb method "programNotification"
               then match as_str (j_field "pubkey" (j_field "value" (j_field "result"
                                   (j_field "params" v)))) with
                    | Some k => [k]
                    | None => []
                    end
               else [] in
  mkNetOp (op_transport base) StNotification method (op_signatures base)
    (op_accounts base ++ extra).

Definition rpc_rejection (v : Json) (message : string) : Json :=
  JObj [("jsonrpc", JStr "2.0");
        ("error", JObj [("code", JNum (-32000)); ("message", JStr message)]);
        ("id", j_field "id" v)]%string.

(** * The WebSocket relay *)

Inductive Frame := Text (text : string) | CloseFrame | OtherFrame (payload : list Z).

(** Frames the relay sends on; an error closes the connection. *)
Inductive Relayed := ToServer (f : Frame) | ToClient (f : Frame) | Nothing | Waiting.

Record WsRelay := mkRelay
  { r_pending : gmap string (NetOp * option Z); r_subscriptions : gmap Z NetOp }.

Definition WsRelay_new : WsRelay := mkRelay ∅ ∅.

(** [str::ends_with] *)
Definition ends_with (s suffix : string) : bool :=
  let n := String.length s in let k := String.length suffix in
  (k <=? n)%nat && String.eqb (String.substring (n - k) k s) suffix.

(** [WsRelay::request], with what the gate decided. *)
Definition relay_request (r : WsRelay) (frame : Frame) (decide : NetOp -> Decision)
  : Result Relayed unit * WsRelay :=
  match frame with
  | CloseFrame => (Err tt, r)
  | OtherFrame _ => (Ok (ToServer frame), r)
  | Text text =>
      let parsed := default JNull (json_parse text) in
      let request := rpc_request Ws parsed in
      match decide request with
      | Discard => (Err tt, r)
      | RejectWith message => (Ok (ToClient (Text (json_print (rpc_rejection parsed message)))), r)
      | Release =>
          let unsubscribe := if ends_with (op_method request) "Unsubscribe"
                             then as_u64 (j_item 0 (j_field "params" parsed)) else None in
          (Ok (ToServer frame),
           match rpc_id parsed with
           | Some id => mkRelay (<[id := (request, unsubscribe)]> (r_pending r)) (r_subscriptions r)
           | None => r
           end)
      end
  end.

Definition with_stage (st : Stage) (op : NetOp) : NetOp :=
  mkNetOp (op_transport op) st (op_method op) (op_signatures op) (op_accounts op).

Definition response_operation (r : WsRelay) (parsed : Json) : NetOp * WsRelay :=
  match rpc_subscription parsed with
  | Some sub => (rpc_notification parsed (r_subscriptions r !! sub), r)
  | None =>
      let found := id ← rpc_id parsed; entry ← r_pending r !! id; Some (id, entry) in
      let '(request, unsubscribe) := match found with
                                     | Some (_, entry) => entry
                                     | None => (rpc_request Ws JNull, None)
                                     end in
      let pending := match found with
                     | Some (id, _) => delete id (r_pending r)
                     | None => r_pending r
                     end in
      let subs := match as_u64 (j_field "result" parsed) with
                  | Some id => if ends_with (op_method request) "Subscribe"
                               then <[id := request]> (r_subscriptions r) else r_subscriptions r
                  | None => r_subscriptions r
                  end in
      let subs := match as_bool (j_field "result" parsed), unsubscribe with
                  | Some true, Some id => delete id subs
                  | _, _ => subs
                  end in
      (with_stage StResponse request, mkRelay pending subs)
  end.

(** [deliver] *)
Definition relay_deliver (d : Decision) (text : string) (parsed : Json) : Relayed :=
  match d with
  | Discard => Nothing
  | RejectWith message =>
      if bool_decide (is_Some (rpc_subscription parsed)) then Nothing
      else ToClient (Text (json_print (rpc_rejection parsed message)))
  | Release => ToClient (Text text)
  end.

(** [WsRelay::response]: a gate that has not decided leaves the frame waiting
    while later frames go on. *)
Definition relay_response (r : WsRelay) (frame : Frame) (ask : NetOp -> option Decision)
  : Result Relayed unit * WsRelay :=
  match frame with
  | CloseFrame => (Err tt, r)
  | OtherFrame _ => (Ok (ToClient frame), r)
  | Text text =>
      match json_parse text with
      | None => (Ok (ToClient frame), r)
      | Some parsed =>
          let (op, r) := response_operation r parsed in
          match ask op with
          | Some d => (Ok (relay_deliver d text parsed), r)
          | None => (Ok Waiting, r)
          end
      end
  end.

(** * One HTTP exchange *)

(** [http::post_json]: the body, or the failure it is answered with. *)
Inductive PostResult := Posted (text : string) | PostStatus (status : Z) (body : string)
                      | PostFailed (error : string).

(** The body of the loop in [serve_http]: the status and text to write, unless
    the exchange is discarded. *)
Definition http_exchange (body : string) (decide : NetOp -> Decision) (post : string -> PostResult)
  : option (Z * string) :=
  let parsed := default JNull (json_parse body) in
  let op := rpc_request Http parsed in
  match decide op with
  | Discard => None
  | RejectWith message => Some (200, json_print (rpc_rejection parsed message))
  | Release =>
      let '(status, text) := match post body with
                             | Posted text => (200, text)
                             | PostStatus status body => (status, body)
                             | PostFailed error => (502, error)
                             end in
      match decide (with_stage StResponse op) with
      | Discard => None
      | RejectWith message => Some (200, json_print (rpc_rejection parsed message))
      | Release => Some (status, text)
      end
  end.
End rpc.

(** * Reading an HTTP request *)

Definition MAX_HEAD : Z := 64 * 1024.
Definition MAX_BODY : Z := 16 * 1024 * 1024.

(** [buffer.windows(4).position(|w| w == b"\r\n\r\n")] *)
Fixpoint find_blank_line (b : list Z) : option nat :=
  match b with
  | [] => None
  | c :: b' => if bool_decide (take 4 b = [13; 10; 13; 10]) then Some O
               else S <$> find_blank_line b'
  end.

Definition is_space (c : Z) : bool :=
  (c =? 32) || ((9 <=? c) && (c <=? 13)).
Fixpoint trim_start (l : list Z) : list Z :=
  match l with c :: l' => if is_space c then trim_start l' else l | [] => [] end.
Definition trim (l : list Z) : list Z := reverse (trim_start (reverse (trim_start l))).
Definition lower (c : Z) : Z := if (65 <=? c) && (c <=? 90) then c + 32 else c.
Definition eq_ignore_case (a b : list Z) : bool := bool_decide (lower <$> a = lower <$> b).
Definition ascii_bytes (s : string) : list Z :=
  (fun c => Z.of_nat (nat_of_ascii c)) <$> list_ascii_of_string s.

(** [str::lines]: split at line feeds, a carriage return before one dropped. *)
Definition strip_cr (l : list Z) : list Z :=
  match reverse l with 13 :: r => reverse r | _ => l end.
Fixpoint split_lines (cur : list Z) (l : list Z) : list (list Z) :=
  match l with
  | [] => if bool_decide (cur = []) then [] else [reverse cur]
  | c :: l => if c =? 10 then strip_cr (reverse cur) :: split_lines [] l
              else split_lines (c :: cur) l
  end.
Definition lines (l : list Z) : list (list Z) := split_lines [] l.

Definition split_once (sep : Z) (l : list Z) : option (list Z * list Z) :=
  i ← position (fun c => c =? sep) l; Some (take i l, drop (S i) l).

(** [parse::<usize>]: an optional plus sign, then digits, without overflow. *)
Fixpoint digits (acc : Z) (l : list Z) : option Z :=
  match l with
  | [] => Some acc
  | c :: l => if (48 <=? c) && (c <=? 57) && (acc * 10 + (c - 48) <? u64_bound)
              then digits (acc * 10 + (c - 48)) l else None
  end.
Definition parse_usize (l : list Z) : option Z :=
  match l with
  | [] => None
  | 43 :: [] => None
  | 43 :: l => digits 0 l
  | l => digits 0 l
  end.

Definition content_length (head : list Z) : Z :=
  default 0 (find_map (fun line =>
    '(name, value) ← split_once 58 line;
    if eq_ignore_case (trim name) (ascii_bytes "content-length") then parse_usize (trim value)
    else None) (lines head)).

Definition keep_alive (head : list Z) : bool :=
  negb (existsb (fun line =>
    match split_once 58 line with
    | Some (name, value) => eq_ignore_case (trim name) (ascii_bytes "connection") &&
                            eq_ignore_case (trim value) (ascii_bytes "close")
    | None => false
    end) (lines head)).

(** The socket is the list of chunks its reads will return; an empty chunk or
    the end of the list is a closed or failed socket. *)
Fixpoint read_body (buffer : list Z) (need : nat) (chunks : list (list Z))
  : option (list Z * list (list Z)) :=
  if (need <=? length buffer)%nat then Some (buffer, chunks)
  else match chunks with
       | [] | [] :: _ => None
       | chunk :: chunks => read_body (buffer ++ chunk) need chunks
       end.

(** [read_request]: head, body, and what stays in the buffer and the socket. *)
Fixpoint read_request (buffer : list Z) (chunks : list (list Z))
  : option (list Z * list Z * list Z * list (list Z)) :=
  match find_blank_line buffer with
  | Some split =>
      let head := take split buffer in
      let n := content_length head in
      if MAX_BODY <? n then None
      else
        let body_start := (split + 4)%nat in
        let need := (body_start + Z.to_nat n)%nat in
        '(buffer, chunks) ← read_body buffer need chunks;
        Some (head, take (Z.to_nat n) (drop body_start buffer), drop need buffer, chunks)
  | None =>
      if MAX_HEAD <? Z.of_nat (length buffer) then None
      else match chunks with
           | [] | [] :: _ => None
           | chunk :: chunks => read_request (buffer ++ chunk) chunks
           end
  end.

(** * Facts: framing does not depend on how the bytes arrive *)

Lemma find_blank_line_bound b i : find_blank_line b = Some i -> (i + 4 <= length b)%nat.
Proof.
  revert i. induction b as [|c b IH]; intros i; cbn [find_blank_line]; [done|].
  case_bool_decide as Ht.
  - intros [= <-]. assert (length (take 4 (c :: b)) = 4%nat) as Hl by (by rewrite Ht).
    rewrite length_take in Hl. lia.
  - intros (j & Hj & ->)%fmap_Some. apply IH in Hj. cbn. lia.
Qed.

Lemma find_blank_line_app b c i : find_blank_line b = Some i -> find_blank_line (b ++ c) = Some i.
Proof.
  revert i. induction b as [|x b IH]; intros i H; pose proof (find_blank_line_bound _ _ H) as Hb; [done|].
  revert H. cbn [app find_blank_line]. change (x :: b ++ c) with ((x :: b) ++ c).
  case_bool_decide as Ht.
  - intros [= <-]. rewrite take_app_le by (cbn in *; lia). by rewrite bool_decide_eq_true_2.
  - intros (j & Hj & ->)%fmap_Some. rewrite (IH j Hj).
    pose proof (find_blank_line_bound _ _ Hj). rewrite take_app_le by (cbn; lia).
    by rewrite bool_decide_eq_false_2.
Qed.

Lemma find_blank_line_prefix b c i :
  find_blank_line (b ++ c) = Some i ->
  find_blank_line b = if (i + 4 <=? length b)%nat then Some i else None.
Proof.
  intros H. destruct (Nat.leb_spec (i + 4) (length b)) as [Hle|Hgt].
  - revert i H Hle. induction b as [|x b IH]; intros i H Hle; [cbn in Hle; lia|].
    revert H. cbn [app find_blank_line]. change (x :: b ++ c) with ((x :: b) ++ c).
    rewrite take_app_le by (cbn in *; lia). case_bool_decide; [done|].
    intros (j & Hj & ->)%fmap_Some. rewrite (IH j Hj); [done|]. cbn in Hle. lia.
  - destruct (find_blank_line b) as [j|] eqn:Hb; [|done].
    pose proof (find_blank_line_bound _ _ Hb). apply (find_blank_line_app _ c) in Hb.
    rewrite H in Hb. injection Hb as ->. lia.
Qed.

Lemma read_body_Some buffer need chunks :
  Forall (fun c => c <> []) chunks -> (need <= length (buffer ++ concat chunks))%nat ->
  exists b' cs', read_body buffer need chunks = Some (b', cs') /\
    b' ++ concat cs' = buffer ++ concat chunks /\ (need <= length b')%nat /\
    exists more, b' = buffer ++ more.
Proof.
  intros Hne. revert buffer. induction Hne as [|c cs Hc Hcs IH]; intros buffer Hn; cbn [read_body].
  - cbn in *. rewrite app_nil_r in Hn. rewrite (proj2 (Nat.leb_le _ _) Hn).
    exists buffer, []. split_and!; [done|done|done|]. exists []. by rewrite app_nil_r.
  - destruct (Nat.leb_spec need (length buffer)).
    + exists buffer, (c :: cs). split_and!; [done|done|done|]. exists []. by rewrite app_nil_r.
    + destruct c as [|x c]; [done|]. cbn [concat] in *.
      destruct (IH (buffer ++ x :: c)) as (b' & cs' & Hr & Hb & Hl & more & Hm).
      { by rewrite <-app_assoc. }
      exists b', cs'. split_and!; [done| |done|].
      * by rewrite Hb, <-app_assoc.
      * exists ((x :: c) ++ more). by rewrite Hm, <-app_assoc.
Qed.

Section framing.
Context (head body rest : list Z).
Let sep : list Z := [13; 10; 13; 10].
Context (Hfind : find_blank_line (head ++ sep ++ body ++ rest) = Some (length head))
  (Hlen : content_length head = Z.of_nat (length body))
  (Hhead : Z.of_nat (length head) + 3 <= MAX_HEAD)
  (Hbody : Z.of_nat (length body) <= MAX_BODY).

(** The blank line has arrived: only the body is waited for. *)
Lemma read_request_ready buffer chunks :
  Forall (fun c => c <> []) chunks ->
  buffer ++ concat chunks = head ++ sep ++ body ++ rest ->
  (length head + 4 <= length buffer)%nat ->
  exists buffer' chunks', read_request buffer chunks = Some (head, body, buffer', chunks') /\
    buffer' ++ concat chunks' = rest.
Proof.
  intros Hne Heq Hle. rewrite <-Heq in Hfind.
  pose proof (find_blank_line_prefix _ _ _ Hfind) as Hp.
  rewrite (proj2 (Nat.leb_le _ _) Hle) in Hp.
  assert (take (length head) buffer = head) as Ht.
  { rewrite <-(take_app_le buffer (concat chunks)), Heq by lia. apply take_app_length. }
  destruct (read_body_Some buffer (length head + 4 + length body) chunks)
    as (b' & cs' & Hr & Hb' & Hl & _); [done|rewrite Heq, !length_app; cbn; lia|].
  assert (drop (length head + 4) b' ++ concat cs' = body ++ rest) as Hd.
  { rewrite <-drop_app_le by lia. rewrite Hb', Heq, app_assoc.
    apply drop_app_length'. rewrite length_app. done. }
  assert (length body <= length (drop (length head + 4) b'))%nat as Hdl by (rewrite length_drop; lia).
  exists (drop (length head + 4 + length body) b'), cs'. split.
  - destruct chunks; cbn [read_request]; rewrite Hp, Ht, Hlen, (proj2 (Z.ltb_ge _ _)), Nat2Z.id by lia;
      rewrite Hr; cbn [mbind option_bind]; do 4 f_equal;
      by rewrite <-(take_app_le _ (concat cs')), Hd, take_app_length by done.
  - rewrite <-drop_drop, <-drop_app_le by done. by rewrite Hd, drop_app_length.
Qed.

Lemma read_request_frames buffer chunks :
  Forall (fun c => c <> []) chunks ->
  buffer ++ concat chunks = head ++ sep ++ body ++ rest ->
  exists buffer' chunks', read_request buffer chunks = Some (head, body, buffer', chunks') /\
    buffer' ++ concat chunks' = rest.
Proof.
  intros Hne. revert buffer. induction Hne as [|c cs Hc Hcs IH]; intros buffer Heq.
  all: destruct (decide (length head + 4 <= length buffer)%nat) as [Hle|Hgt];
    [by apply read_request_ready; [constructor| |]|].
  - exfalso. apply (f_equal length) in Heq. rewrite !length_app in Heq. cbn in Heq. lia.
  - rewrite <-Heq in Hfind. pose proof (find_blank_line_prefix _ _ _ Hfind) as Hp.
    rewrite (proj2 (Nat.leb_gt _ _)) in Hp by lia. cbn [read_request].
    rewrite Hp, (proj2 (Z.ltb_ge _ _)) by lia. destruct c as [|x c]; [done|].
    apply IH. rewrite <-app_assoc. exact Heq.
Qed.
End framing.
