(* ===== verification/NetProps.v ===== *)
(** The properties of the fault-injecting proxy. *)
From S2P Require Import Prelude Netfault NetfaultFacts Relay.

(** C7: restoring a scope lets everything through.  Whatever was held or stalled when the
    scope is restored resolves without any further decision, and keeps doing so whatever
    rules and traps are installed afterwards. *)
Theorem restore_releases_held acts n t g later n' :
  net_run Net_new acts = Some n -> n_held n !! t = Some g ->
  net_run (mkNet (State_restore (n_scope n)) (n_held n) (n_ticket n)) later = Some n' ->
  exists d, Gate_resolve g None (n_scope n') = Some d.
Proof.
  intros Hrun. apply restored_resolves. eapply net_run_inv; [apply net_inv_new|exact Hrun].
Qed.

(** the holding count is the number of operations held back, at every point of every
    use of a scope; so [reset], which waits for it to reach zero, waits for exactly them. *)
Theorem holding_counts_held acts n :
  net_run Net_new acts = Some n ->
  fs_holding (n_scope n) = Z.of_nat (size (n_held n)) /\
  (fs_holding (n_scope n) = 0 <-> n_held n = ∅).
Proof.
  intros Hrun. pose proof (ni_holding _ (net_run_inv _ _ _ net_inv_new Hrun)) as Hh.
  split; [done|]. rewrite Hh. split.
  - intros Hz. apply map_size_empty_inv. lia.
  - by intros ->.
Qed.

(** an interception is one-shot.  Over any use of a scope no trap catches two operations,
    and the caught operations are numbered in the order they were caught. *)
Theorem interceptions_are_one_shot acts :
  NoDup (catches Net_new acts).*1.*1 /\ Sorted Z.lt (catches Net_new acts).*2.
Proof. apply (catches_spec Net_new acts net_inv_new). Qed.

(** [reset] demands that every requested interception happened: after any use of a scope
    without a restore, the verdict at the end of [reset] is [Ok] iff as many operations were
    caught as traps were installed, which, traps being one-shot, is every trap once. *)
Theorem reset_demands_every_interception acts n :
  net_run Net_new acts = Some n -> Forall (fun a => is_restore a = false) acts ->
  (reset_verdict (State_restore (n_scope n))).1 = Ok tt <->
  length (catches Net_new acts) = length (filter (fun a => is_intercept a = true) acts).
Proof.
  intros Hrun Hnr. destruct (armed_accounting _ _ _ Hrun Hnr) as [Hc Hu]. cbn in Hc, Hu.
  unfold armed_count in Hc. unfold reset_verdict, State_restore. cbn [fs_unfired fst]. rewrite Hu.
  cbn [app]. case_bool_decide as Hm.
  - apply fmap_nil_inv in Hm. rewrite Hm in Hc. cbn in Hc. split; [lia|done].
  - split; [done|]. intros Heq. exfalso. apply Hm. destruct (filter _ (fs_traps _)); [done|cbn in Hc; lia].
Qed.

(** observers watch without interfering: the decision on an operation is the one the
    scope would make without any observer, and each observer's counter goes up by one
    exactly when the operation matches its selector. *)
Theorem observers_count_and_never_decide acts n op r :
  net_run Net_new acts = Some n -> r ∈ fs_rules (n_scope n) -> ru_effect r = EffObserve ->
  (scope_gate (n_scope n) op).1 = (scope_gate (without_observers (n_scope n)) op).1 /\
  RuleHandle_hits (ru_hits r) (scope_gate (n_scope n) op).2 =
    RuleHandle_hits (ru_hits r) (n_scope n) + Z.b2z (Selector_matches (ru_selector r) op).
Proof.
  intros Hrun Hr He. split; [apply observers_do_not_decide|].
  pose proof (ni_rules_nodup _ (net_run_inv _ _ _ net_inv_new Hrun)) as Hnd.
  pose proof (observers_hit_eq _ op (fs_hits (n_scope n)) r Hnd Hr He) as Hobs.
  unfold RuleHandle_hits, scope_gate.
  destruct (find_first (decisive op) (fs_rules (n_scope n))) as [d|] eqn:Hf.
  - apply find_first_Some in Hf as [Hd Hdec].
    assert (ru_hits d <> ru_hits r) as Hne.
    { intros Heq. apply list_elem_of_lookup in Hd as (i & Hi). apply list_elem_of_lookup in Hr as (j & Hj).
      assert (i = j) as ->.
      { apply (NoDup_lookup _ i j (ru_hits r) Hnd); rewrite list_lookup_fmap; [by rewrite Hi, <-Heq|by rewrite Hj]. }
      simplify_eq. unfold decisive in Hdec. by rewrite He in Hdec. }
    destruct (ru_effect d); cbn; by rewrite record_hit_ne.
  - by destruct (position _ _).
Qed.

(** HTTP framing does not depend on how the bytes arrive.  However the stream is cut into
    reads, [read_request] returns the head up to the first blank line and the body its
    content-length announces, and leaves the rest for the next request. *)
Theorem http_framing_ignores_chunks head body rest buffer chunks :
  find_blank_line (head ++ [13; 10; 13; 10] ++ body ++ rest) = Some (length head) ->
  content_length head = Z.of_nat (length body) ->
  Z.of_nat (length head) + 3 <= MAX_HEAD -> Z.of_nat (length body) <= MAX_BODY ->
  Forall (fun c => c <> []) chunks ->
  buffer ++ concat chunks = head ++ [13; 10; 13; 10] ++ body ++ rest ->
  exists buffer' chunks', read_request buffer chunks = Some (head, body, buffer', chunks') /\
    buffer' ++ concat chunks' = rest.
Proof. intros. by apply read_request_frames. Qed.

(** * Attribution of notifications *)

Section attribution.
Context `{J : JsonText}.

(** What crosses the relay: a client's request with the decision on it, or a
    message of the server. *)
Inductive Crossing := FromClient (request : Json) (d : Decision) | FromServer (reply : Json).

Definition unsubscribes (v : Json) : option Z :=
  if ends_with (op_method (rpc_request Ws v)) "Unsubscribe"
  then as_u64 (j_item 0 (j_field "params" v)) else None.

Definition crossing (r : WsRelay) (c : Crossing) : WsRelay :=
  match c with
  | FromClient v Release =>
      match rpc_id v with
      | Some id => mkRelay (<[id := (rpc_request Ws v, unsubscribes v)]> (r_pending r)) (r_subscriptions r)
      | None => r
      end
  | FromClient _ _ => r
  | FromServer v => (response_operation r v).2
  end.

(** [crossing] is what the relay does to its tables. *)
Lemma relay_request_crossing r text v decide :
  json_parse text = Some v ->
  (relay_request r (Text text) decide).2 = crossing r (FromClient v (decide (rpc_request Ws v))).
Proof.
  intros Hp. cbn [relay_request]. rewrite Hp. change (default JNull (Some v)) with v.
  cbn [crossing]. unfold unsubscribes. by destruct (decide (rpc_request Ws v)).
Qed.

Lemma relay_response_crossing r text v ask :
  json_parse text = Some v ->
  (relay_response r (Text text) ask).2 = crossing r (FromServer v).
Proof.
  intros Hp. cbn [relay_response crossing]. rewrite Hp.
  destruct (response_operation r v) as [op r']. by destruct (ask op).
Qed.

Definition message (c : Crossing) : Json :=
  match c with FromClient v _ => v | FromServer v => v end.

(** No request waits that would cancel subscription [n]. *)
Definition no_cancel (n : Z) (r : WsRelay) : Prop :=
  forall id op, r_pending r !! id <> Some (op, Some n).

Definition keeps (n : Z) (c : Crossing) : Prop :=
  match c with FromClient v _ => unsubscribes v <> Some n | FromServer _ => True end.

Lemma response_pending r v :
  r_pending (response_operation r v).2 ⊆ r_pending r /\
  forall id, rpc_id v <> Some id -> r_pending (response_operation r v).2 !! id = r_pending r !! id.
Proof.
  unfold response_operation. destruct (rpc_subscription v); [by split|].
  destruct (rpc_id v) as [i|]; cbn; [|by split]. destruct (r_pending r !! i) as [[q u]|]; cbn; [|by split].
  split; [apply delete_subseteq|]. intros id Hid. apply lookup_delete_ne. congruence.
Qed.

Lemma crossing_no_cancel n r c : no_cancel n r -> keeps n c -> no_cancel n (crossing r c).
Proof.
  intros Hn Hk id op Hl. destruct c as [v d|v]; cbn in *.
  - destruct d; try (by eapply Hn). destruct (rpc_id v) as [i|]; [|by eapply Hn].
    cbn in Hl. apply lookup_insert_Some in Hl as [[_ Heq]|[_ Hl]]; [|by eapply Hn].
    injection Heq as _ Heq. done.
  - destruct (response_pending r v) as [Hsub _]. eapply Hn, lookup_weaken; done.
Qed.

Lemma crossings_no_cancel n r cs :
  no_cancel n r -> Forall (keeps n) cs -> no_cancel n (foldl crossing r cs).
Proof.
  intros Hn Hcs. revert r Hn. induction Hcs as [|c cs Hc _ IH]; intros r Hn; [done|].
  cbn. by apply IH, crossing_no_cancel.
Qed.

(** A waiting request stays while other ids are used. *)
Lemma crossings_pending i e r cs :
  r_pending r !! i = Some e -> Forall (fun c => rpc_id (message c) <> Some i) cs ->
  r_pending (foldl crossing r cs) !! i = Some e.
Proof.
  intros He Hcs. revert r He. induction Hcs as [|c cs Hc _ IH]; intros r He; [done|]. cbn. apply IH.
  destruct c as [v d|v]; cbn in *.
  - destruct d; try done. destruct (rpc_id v) as [k|]; [|done]. cbn. rewrite lookup_insert_ne; [done|congruence].
  - by rewrite (proj2 (response_pending r v)).
Qed.

(** A subscription stays until it is cancelled or its number is reused. *)
Lemma crossings_subscription n op r cs :
  no_cancel n r -> r_subscriptions r !! n = Some op -> Forall (keeps n) cs ->
  Forall (fun c => as_u64 (j_field "result" (message c)) <> Some n) cs ->
  r_subscriptions (foldl crossing r cs) !! n = Some op.
Proof.
  intros Hn Hs Hk. revert r Hn Hs. induction Hk as [|c cs Hc _ IH]; intros r Hn Hs Hr; [done|].
  apply Forall_cons in Hr as [Hrc Hr]. cbn. apply IH; [by apply crossing_no_cancel| |done].
  destruct c as [v d|v]; cbn in *.
  - destruct d; try done. by destruct (rpc_id v).
  - unfold response_operation. destruct (rpc_subscription v); [done|].
    set (found := id ← rpc_id v; entry ← r_pending r !! id; Some (id, entry)).
    destruct (match found with Some (_, entry) => entry | None => (rpc_request Ws JNull, None) end)
      as [request unsub] eqn:Hf. cbn.
    assert (forall k, unsub = Some k -> k <> n) as Hun.
    { intros k -> ->. subst found. destruct (rpc_id v) as [i|]; cbn in Hf; [|done].
      destruct (r_pending r !! i) as [e|] eqn:He; cbn in Hf; [|done]. subst e. by eapply Hn. }
    assert (match as_u64 (j_field "result" v) with
            | Some id => if ends_with (op_method request) "Subscribe"
                         then <[id := request]> (r_subscriptions r) else r_subscriptions r
            | None => r_subscriptions r end !! n = Some op) as Hsub.
    { destruct (as_u64 _) as [k|]; [|done]. destruct (ends_with _ _); [|done]. rewrite lookup_insert_ne; [done|congruence]. }
    destruct (as_bool _) as [[]|]; [|done..]. destruct unsub as [k|]; [|done].
    rewrite lookup_delete_ne; [done|]. intros ->. by eapply Hun.
Qed.

(** notifications are attributed to the request that subscribed.  Let a client's
    subscribe request pass the relay, other traffic follow under other ids, and the
    server answer it with subscription [n]; then, until [n] is cancelled or handed out
    again, a notification for [n] is matched against the fault rules with the
    signatures and accounts of that request. *)
Theorem notifications_are_attributed before req between reply after note i n :
  rpc_id req = Some i -> ends_with (op_method (rpc_request Ws req)) "Subscribe" = true ->
  rpc_id reply = Some i -> rpc_subscription reply = None ->
  as_u64 (j_field "result" reply) = Some n ->
  Forall (keeps n) (before ++ [FromClient req Release] ++ between ++ [FromServer reply] ++ after) ->
  Forall (fun c => rpc_id (message c) <> Some i) between ->
  Forall (fun c => as_u64 (j_field "result" (message c)) <> Some n) after ->
  rpc_subscription note = Some n ->
  let r := foldl crossing WsRelay_new
             (before ++ [FromClient req Release] ++ between ++ [FromServer reply] ++ after) in
  let op := (response_operation r note).1 in
  op_stage op = StNotification /\ op_signatures op = op_signatures (rpc_request Ws req) /\
  exists extra, op_accounts op = op_accounts (rpc_request Ws req) ++ extra.
Proof.
  intros Hid Hm Hrid Hrs Hres Hk Hb Ha Hnote r op.
  assert (r_subscriptions r !! n = Some (rpc_request Ws req)) as Hsub.
  { subst r. rewrite !Forall_app in Hk. destruct Hk as (K1 & K2 & K3 & K4 & K5).
    rewrite !foldl_app. set (r1 := foldl crossing WsRelay_new before).
    set (r2 := foldl crossing r1 [FromClient req Release]).
    set (r3 := foldl crossing r2 between).
    assert (no_cancel n r3) as N3.
    { apply crossings_no_cancel; [|done]. apply crossings_no_cancel; [|done].
      apply crossings_no_cancel; [|done]. intros ? ?. cbn. by rewrite lookup_empty. }
    assert (r_pending r3 !! i = Some (rpc_request Ws req, unsubscribes req)) as P3.
    { apply crossings_pending; [|done]. subst r2. cbn. rewrite Hid. cbn. apply lookup_insert_eq. }
    apply crossings_subscription; [by apply crossings_no_cancel| |done|done].
    cbn [foldl crossing]. unfold response_operation. rewrite Hrs, Hrid. cbn. rewrite P3. cbn.
    rewrite Hres, Hm. destruct (j_field "result" reply); cbn in Hres; try done. apply lookup_insert_eq. }
  subst op. unfold response_operation. rewrite Hnote, Hsub. cbn. split_and!; [done|done|by eexists].
Qed.
End attribution.

(** * Witnesses *)

Definition demo_op (m : string) : NetOp := mkNetOp Http StRequest m [] ["acct"%string].
Definition demo_acts : list NetAction :=
  [ActRule (Selector_method "getSlot") EffObserve; ActIntercept (Selector_method "sendTransaction");
   ActRule (Selector_http (Selector_method "getAccountInfo")) EffStall;
   ActGate (demo_op "sendTransaction"); ActGate (demo_op "getAccountInfo"); ActGate (demo_op "getSlot")].
Definition demo_net : Net := default Net_new (net_run Net_new demo_acts).

Lemma restore_releases_held_witness :
  exists d, Gate_resolve (GStalled 2) None
    (State_restore (n_scope demo_net)) = Some d.
Proof.
  apply (restore_releases_held demo_acts demo_net 1 (GStalled 2) []
    (mkNet (State_restore (n_scope demo_net)) (n_held demo_net) (n_ticket demo_net)));
    by vm_compute.
Defined.

Lemma holding_counts_held_witness : fs_holding (n_scope demo_net) = 2 /\ fs_holding (n_scope demo_net) = Z.of_nat (size (n_held demo_net)).
Proof. split; [by vm_compute|]. apply (holding_counts_held demo_acts demo_net). by vm_compute. Defined.

Lemma reset_demands_every_interception_witness :
  (reset_verdict (State_restore (n_scope demo_net))).1 = Ok tt <->
  length (catches Net_new demo_acts) = length (filter (fun a => is_intercept a = true) demo_acts).
Proof.
  apply (reset_demands_every_interception demo_acts demo_net); [by vm_compute|].
  repeat constructor.
Defined.

Lemma observers_count_and_never_decide_witness :
  RuleHandle_hits 0 (scope_gate (n_scope demo_net) (demo_op "getSlot")).2 =
  RuleHandle_hits 0 (n_scope demo_net) + 1.
Proof.
  apply (observers_count_and_never_decide demo_acts demo_net (demo_op "getSlot")
    (mkRule (Selector_method "getSlot") EffObserve 0)).
  - by vm_compute.
  - left.
  - done.
Defined.

Definition demo_head : list Z := ascii_bytes "POST / HTTP/1.1" ++ [13; 10] ++ ascii_bytes "Content-Length: 3".

Lemma http_framing_ignores_chunks_witness :
  exists buffer' chunks',
    read_request (take 20 demo_head) [drop 20 demo_head ++ [13]; [10; 13; 10; 97]; [98; 99; 7; 8]]
      = Some (demo_head, [97; 98; 99], buffer', chunks') /\ buffer' ++ concat chunks' = [7; 8].
Proof.
  apply (http_framing_ignores_chunks demo_head [97; 98; 99] [7; 8]).
  - by vm_compute.
  - by vm_compute.
  - by vm_compute.
  - by vm_compute.
  - repeat constructor; done.
  - by vm_compute.
Defined.

#[local] Instance ref_json : JsonText := {|
  json_parse _ := None;
  json_print v := match v with JNum n => String (Ascii.ascii_of_nat (Z.to_nat n)) EmptyString | _ => "?"%string end;
  decode_transaction _ := None;
|}.

Definition demo_subscribe : Json :=
  JObj [("id", JNum 7); ("method", JStr "accountSubscribe"); ("params", JArr [JStr "acct"])]%string.
Definition demo_reply : Json := JObj [("id", JNum 7); ("result", JNum 40)]%string.
Definition demo_note : Json :=
  JObj [("method", JStr "accountNotification"); ("params", JObj [("subscription", JNum 40)])]%string.
Definition demo_other : Json := JObj [("id", JNum 8); ("method", JStr "getSlot")]%string.

Definition demo_crossings : list Crossing :=
  [] ++ [FromClient demo_subscribe Release] ++ [FromClient demo_other Release] ++
  [FromServer demo_reply] ++ [FromServer demo_other].

Lemma notifications_are_attributed_witness :
  exists extra, op_accounts (response_operation (foldl crossing WsRelay_new demo_crossings) demo_note).1
    = op_accounts (rpc_request Ws demo_subscribe) ++ extra.
Proof.
  destruct (notifications_are_attributed [] demo_subscribe [FromClient demo_other Release] demo_reply
    [FromServer demo_other] demo_note (json_print (JNum 7)) 40) as (_ & _ & extra & He).
  - reflexivity.
  - reflexivity.
  - reflexivity.
  - reflexivity.
  - reflexivity.
  - repeat (apply Forall_cons; split; [discriminate || exact I|]). apply Forall_nil_2.
  - apply Forall_cons; split; [discriminate|apply Forall_nil_2].
  - apply Forall_cons; split; [discriminate|apply Forall_nil_2].
  - reflexivity.
  - exists extra. exact He.
Defined.
