(* ===== verification/Subscription.v ===== *)
(** WebSocket subscriptions: [core/src/transport/socket.rs] and
    [core/src/transport/subscription.rs].

    A connection is driven by one reader task, which parses each text message
    into a [SocketFrame] and dispatches it to the [Router], and by client calls that
    run between two messages.  [c_reader] says whether the reader still runs,
    [c_sink] lists the requests handed to the sink, [r_changed] counts the calls of
    [notify_waiters].  JSON is outside the model: [SocketJson] is what the code
    calls.  [None] is a panic of the notification callback. *)
From Stdlib Require Import String.
From S2P Require Import Prelude.

(** * Frames *)

(** [jsonrpc_core::ErrorCode] and [Error], as far as the router looks at them. *)
Inductive ErrorCode :=
| ParseError | InvalidRequest | MethodNotFound | InvalidParams | InternalError
| ServerErrorCode (code : Z).

#[export] Instance ErrorCode_eq_dec : EqDecision ErrorCode.
Proof. solve_decision. Defined.

Record RpcError := mkRpcError { e_code : ErrorCode; e_message : string }.

(** A [LazyValue] is the raw text of a JSON value. *)
Abbreviation LazyValue := string (only parsing).

Inductive CloseReason :=
| ServerClose (frame : option string)
| StreamEnded
| TransportError (error : string)
| ServerError (error : RpcError)
| InvalidReply (error : string).

Record Notification := mkNotification { n_subscription : Z; n_result : LazyValue }.

Record Envelope := mkEnvelope
  { en_method : option string; en_id : option Z; en_result : option LazyValue;
    en_error : option RpcError; en_params : option Notification }.

Inductive SocketFrame :=
| Reply (id : Z) (result : Result LazyValue RpcError)
| Notify (method : string) (params : Notification)
| Malformed.

(** What the code asks of the JSON library. *)
Class SocketJson := {
  parse_envelope : string -> option Envelope;
  json_u64 : LazyValue -> Result Z string;
}.

Section socket.
Context `{J : SocketJson}.

Definition parse (text : string) : Result (option SocketFrame) CloseReason :=
  match parse_envelope text with
  | None => Ok (Some Malformed)
  | Some e =>
      match en_error e with
      | Some error =>
          match en_id e with
          | Some id => Ok (Some (Reply id (Err error)))
          | None => Err (ServerError error)
          end
      | None =>
          match en_method e, en_params e, en_id e, en_result e with
          | Some method, Some params, _, _ => Ok (Some (Notify method params))
          | None, _, Some id, Some result => Ok (Some (Reply id (Ok result)))
          | _, _, _, _ => Ok None
          end
      end
  end.
End socket.

(** Messages of a WebSocket stream; the end of the list is the end of the stream. *)
Inductive Message := TextMessage (text : string) | CloseMessage (frame : option string) | OtherMessage.

Abbreviation Stream := (list (Result Message string)) (only parsing).

(** [receive]: the next text and the rest of the stream. *)
Fixpoint receive (stream : Stream) : Result (string * Stream) CloseReason :=
  match stream with
  | Ok (TextMessage text) :: rest => Ok (text, rest)
  | Ok (CloseMessage frame) :: _ => Err (ServerClose frame)
  | Ok OtherMessage :: rest => receive rest
  | Err error :: _ => Err (TransportError error)
  | [] => Err StreamEnded
  end.

(** [drive]: one iteration reads at least one message, so that the length of
    the stream plus one is fuel enough; [None] is a panic of [dispatch]. *)
Fixpoint drive {St} `{SocketJson} (dispatch : SocketFrame -> St -> option (Result unit CloseReason * St))
    (fuel : nat) (stream : Stream) (st : St) : option (CloseReason * St) :=
  match fuel with
  | O => None
  | S fuel =>
      match receive stream with
      | Err reason => Some (reason, st)
      | Ok (text, rest) =>
          match parse text with
          | Err reason => Some (reason, st)
          | Ok None => drive dispatch fuel rest st
          | Ok (Some frame) =>
              r ← dispatch frame st;
              match r.1 with
              | Err reason => Some (reason, r.2)
              | Ok _ => drive dispatch fuel rest r.2
              end
          end
      end
  end.

(** * Topics *)

Inductive Topic := Account | Failure | Logs | Program_ | Signature | Slot.

#[export] Instance Topic_eq_dec : EqDecision Topic.
Proof. solve_decision. Defined.

Definition methods (t : Topic) : string * string :=
  match t with
  | Account => ("accountSubscribe", "accountUnsubscribe")
  | Failure => ("transactionFailureSubscribe", "transactionFailureUnsubscribe")
  | Logs => ("logsSubscribe", "logsUnsubscribe")
  | Program_ => ("programSubscribe", "programUnsubscribe")
  | Signature => ("signatureSubscribe", "signatureUnsubscribe")
  | Slot => ("slotSubscribe", "slotUnsubscribe")
  end%string.

Definition topic_subscribe (t : Topic) : string := (methods t).1.
Definition topic_unsubscribe (t : Topic) : string := (methods t).2.

(** * The router *)

(** The trait [SubscriptionState]; a method a state does not override is the identity. *)
Class SubscriptionState (S Key : Type) := {
  on_subscribed : Z -> S -> S;
  on_malformed : S -> S;
  on_close : CloseReason -> S -> S;
}.

Inductive Request (K : Type) := Subscribe (key : K) | Unsubscribe.
Arguments Subscribe {K} key.
Arguments Unsubscribe {K}.

#[export] Instance Request_eq_dec {K} `{EqDecision K} : EqDecision (Request K).
Proof. solve_decision. Defined.

Record Router (S Key : Type) := mkRouter
  { r_state : S; r_requests : gmap Z (Request Key); r_subscriptions : gmap Z Key;
    r_subscribed : Z; r_last_reply : option Z; r_error : option CloseReason; r_changed : Z }.
Arguments mkRouter {S Key} _ _ _ _ _ _ _.
Arguments r_state {S Key} _.
Arguments r_requests {S Key} _.
Arguments r_subscriptions {S Key} _.
Arguments r_subscribed {S Key} _.
Arguments r_last_reply {S Key} _.
Arguments r_error {S Key} _.
Arguments r_changed {S Key} _.

Inductive Flow := Continue_ | Break_.

Inductive ConnError := StreamFailed (reason : CloseReason) | ReaderStopped | SendFailed (error : string)
  | TimedOut.

Section router.
Context {S Key : Type} `{!EqDecision Key, !SubscriptionState S Key, !SocketJson}.

Definition Router_new (state : S) : Router S Key := mkRouter state ∅ ∅ 0 None None 0.

Definition with_state (st : S) (r : Router S Key) : Router S Key :=
  mkRouter st (r_requests r) (r_subscriptions r) (r_subscribed r) (r_last_reply r) (r_error r)
    (r_changed r).
Definition with_requests (m : gmap Z (Request Key)) (r : Router S Key) : Router S Key :=
  mkRouter (r_state r) m (r_subscriptions r) (r_subscribed r) (r_last_reply r) (r_error r)
    (r_changed r).
Definition with_subscriptions (m : gmap Z Key) (r : Router S Key) : Router S Key :=
  mkRouter (r_state r) (r_requests r) m (r_subscribed r) (r_last_reply r) (r_error r) (r_changed r).
Definition notify_waiters (r : Router S Key) : Router S Key :=
  mkRouter (r_state r) (r_requests r) (r_subscriptions r) (r_subscribed r) (r_last_reply r)
    (r_error r) (r_changed r + 1).

Definition register (request : Z) (key : Key) (r : Router S Key) : Router S Key :=
  with_requests (<[request := Subscribe key]> (r_requests r)) r.

(** The [Frame::Reply] arm of [dispatch]. *)
Definition dispatch_reply (id : Z) (result : Result LazyValue RpcError) (r : Router S Key) :
    Result unit CloseReason * Router S Key :=
  let request := r_requests r !! id in
  let r := mkRouter (r_state r) (delete id (r_requests r)) (r_subscriptions r) (r_subscribed r)
             (Some id) (r_error r) (r_changed r) in
  match request, result with
  | Some (Subscribe key), Ok result =>
      match json_u64 result with
      | Err e => (Err (InvalidReply e), r)
      | Ok subscription =>
          let subscribed := r_subscribed r + 1 in
          (Ok tt,
           notify_waiters
             (mkRouter (on_subscribed subscribed (r_state r)) (r_requests r)
                (<[subscription := key]> (r_subscriptions r)) subscribed (r_last_reply r) (r_error r)
                (r_changed r)))
      end
  | Some Unsubscribe, Err error =>
      if (bool_decide (e_code error = InvalidParams)
          && String.eqb (e_message error) "Invalid subscription id.")%bool
      then (Ok tt, notify_waiters r)
      else (Err (ServerError error), r)
  | _, Err error => (Err (ServerError error), r)
  | _, _ => (Ok tt, notify_waiters r)
  end.

Definition dispatch (on_notification : S -> Key -> LazyValue -> option (S * Flow))
    (frame : SocketFrame) (r : Router S Key) : option (Result unit CloseReason * Router S Key) :=
  match frame with
  | Reply id result => Some (dispatch_reply id result r)
  | Notify _ params =>
      match r_subscriptions r !! n_subscription params with
      | None => Some (Ok tt, r)
      | Some key =>
          o ← on_notification (r_state r) key (n_result params);
          let r := with_state o.1 r in
          let r := match o.2 with
                   | Break_ =>
                       with_subscriptions (delete (n_subscription params) (r_subscriptions r)) r
                   | Continue_ => r
                   end in
          Some (Ok tt, notify_waiters r)
      end
  | Malformed => Some (Ok tt, notify_waiters (with_state (on_malformed (r_state r)) r))
  end.

Definition close (reason : CloseReason) (r : Router S Key) : Router S Key :=
  notify_waiters
    (mkRouter (on_close reason (r_state r)) (r_requests r) (r_subscriptions r) (r_subscribed r)
       (r_last_reply r) (Some reason) (r_changed r)).

Definition router_check_error (r : Router S Key) : Result unit ConnError :=
  match r_error r with Some error => Err (StreamFailed error) | None => Ok tt end.

(** The reader task of [Connection::connect]: drives the stream, then closes the router. *)
Definition reader (on_notification : S -> Key -> LazyValue -> option (S * Flow))
    (stream : Stream) (r : Router S Key) : option (Router S Key) :=
  o ← drive (dispatch on_notification) (Datatypes.S (length stream)) stream r;
  Some (close o.1 o.2).
End router.

(** * Connections *)

Record Connection (S Key : Type) := mkConnection
  { c_sink : list (Z * string * string); c_next_id : Z; c_last_sent : Z; c_router : Router S Key;
    c_reader : bool }.
Arguments mkConnection {S Key} _ _ _ _ _.
Arguments c_sink {S Key} _.
Arguments c_next_id {S Key} _.
Arguments c_last_sent {S Key} _.
Arguments c_router {S Key} _.
Arguments c_reader {S Key} _.

Section connection.
Context {S Key : Type} `{!EqDecision Key, !SubscriptionState S Key, !SocketJson}.

Definition connect (state : S) : Connection S Key := mkConnection [] 1 0 (Router_new state) true.

Definition with_router (f : Router S Key -> Router S Key) (c : Connection S Key) : Connection S Key :=
  mkConnection (c_sink c) (c_next_id c) (c_last_sent c) (f (c_router c)) (c_reader c).
Definition state_mut (f : S -> S) : Connection S Key -> Connection S Key :=
  with_router (fun r => with_state (f (r_state r)) r).

(** [next_id.replace(next_id + 1)]. *)
Definition fresh_id (c : Connection S Key) : Z * Connection S Key :=
  (c_next_id c, mkConnection (c_sink c) (c_next_id c + 1) (c_last_sent c) (c_router c) (c_reader c)).

(** [subscribe], up to the first point where it can yield: the request is
    registered before it is sent. *)
Definition subscribe_register (key : Key) (c : Connection S Key) : Z * Connection S Key :=
  let '(id, c) := fresh_id c in (id, with_router (register id key) c).

(** The rest of [subscribe]: the outcome of [socket::send] is given. *)
Definition send_request (id : Z) (method params : string) (sent : Result unit string)
    (c : Connection S Key) : Result unit ConnError * Connection S Key :=
  match sent with
  | Err e => (Err (SendFailed e), c)
  | Ok _ => (Ok tt, mkConnection (c_sink c ++ [(id, method, params)]) (c_next_id c) id (c_router c)
                      (c_reader c))
  end.

Definition subscribe (topic : Topic) (params : string) (key : Key) (sent : Result unit string)
    (c : Connection S Key) : Result unit ConnError * Connection S Key :=
  let '(id, c) := subscribe_register key c in
  send_request id (topic_subscribe topic) params sent c.

Definition check_error (c : Connection S Key) : Result unit ConnError :=
  let? _ := router_check_error (c_router c) in
  ensure! c_reader c else ReaderStopped in Ok tt.

(** One observation of [wait]: an error of the connection ends the wait. *)
Definition wait_poll {T} (observe : Connection S Key -> Result (option T) ConnError)
    (c : Connection S Key) : Result (option T) ConnError :=
  let? _ := check_error c in observe c.

Definition wait_for_poll (done_ : S -> bool) : Connection S Key -> Result (option unit) ConnError :=
  wait_poll (fun c => Ok (if done_ (r_state (c_router c)) then Some tt else None)).
Definition await_subscribed_poll (count : Z) : Connection S Key -> Result (option unit) ConnError :=
  wait_poll (fun c => Ok (if count <=? r_subscribed (c_router c) then Some tt else None)).

Definition awaits_ack (key : Key) (c : Connection S Key) : bool :=
  existsb (fun '(_, request) => bool_decide (request = Subscribe key))
    (map_to_list (r_requests (c_router c))).
Definition await_ack_poll (key : Key) : Connection S Key -> Result (option unit) ConnError :=
  wait_poll (fun c => Ok (if awaits_ack key c then None else Some tt)).

(** [unsubscribe] from the moment its [await_ack] ends, with the error it ended in. *)
Definition unsubscribe (key : Key) (topic : Topic) (acked : Result unit ConnError)
    (print_id : Z -> string) (sent : Result unit string) (c : Connection S Key) :
    Result unit ConnError * Connection S Key :=
  match acked with
  | Err error =>
      (Err error,
       with_router
         (fun r => with_requests (filter (fun '(_, request) => request <> Subscribe key) (r_requests r)) r) c)
  | Ok _ =>
      match find_map (fun '(id, active) => if bool_decide (active = key) then Some id else None)
              (map_to_list (r_subscriptions (c_router c))) with
      | None => (Ok tt, c)
      | Some subscription =>
          let c := with_router
                     (fun r => with_subscriptions (delete subscription (r_subscriptions r)) r) c in
          let '(id, c) := fresh_id c in
          let c := with_router (fun r => with_requests (<[id := Unsubscribe]> (r_requests r)) r) c in
          send_request id (topic_unsubscribe topic) (print_id subscription) sent c
      end
  end.

Definition stop (c : Connection S Key) : Connection S Key :=
  let c := mkConnection (c_sink c) (c_next_id c) (c_last_sent c) (c_router c) false in
  with_router (close StreamEnded) c.

(** The reader handles one frame; an error of the dispatch ends the reader, which
    closes the router. *)
Definition read_frame (on_notification : S -> Key -> LazyValue -> option (S * Flow))
    (frame : SocketFrame) (c : Connection S Key) : option (Connection S Key) :=
  if c_reader c then
    o ← dispatch on_notification frame (c_router c);
    match o.1 with
    | Ok _ => Some (with_router (fun _ => o.2) c)
    | Err reason =>
        Some (mkConnection (c_sink c) (c_next_id c) (c_last_sent c) (close reason o.2) false)
    end
  else Some c.
End connection.
