(* ===== verification/Updates.v ===== *)
(** The states behind the subscriptions: [core/src/transport/ws.rs] (account
    updates and signature confirmations) and [core/src/transport/events.rs]
    (event buffers).

    A parked task is a token: [waiters] maps an id to the token of the task
    that waits for it, [woken] lists the tokens whose sender was used and
    [dropped] the tokens whose sender was dropped, which the task sees as an
    error.  A [HashMap] is a [gmap], a [BTreeSet] a [gset] whose [first] is its
    least element.  Counters are unbounded. *)
From Stdlib Require Import String.
From S2P Require Import Prelude World Float64 Stats Rate Clock Subscription.

(** [BTreeSet::first]. *)
Definition btree_first (X : gset Z) : option Z :=
  match elements X with [] => None | x :: l => Some (foldr Z.min x l) end.

(** What the code asks of the JSON library and of the account decoder. *)
Class Payloads (Value : Type) := {
  (** [account_data]: the decoded account of a [Response<UiAccount>]. *)
  account_data : LazyValue -> option (list Z);
  (** A [Response<RpcSignatureResult>] that carries a [ProcessedSignature], with its error. *)
  processed_signature : LazyValue -> option (option string);
  json_value : LazyValue -> option Value;
}.

Section updates.
Context `{G : RandSource}.

(** * Account updates *)

Record AccountState := mkAccountState
  { a_pending : gmap Z (gset Pubkey); a_by_account : gmap Pubkey (gset Z);
    a_waiters : gmap Z Z; a_lag : StreamingStats; a_observed : Z; a_superseded : Z;
    a_woken : list Z; a_dropped : list Z }.

Definition AccountState_default (rng : Rng) : AccountState :=
  mkAccountState ∅ ∅ ∅ (StreamingStats_new rng) 0 0 [] [].

Definition a_with_counts (lag : StreamingStats) (observed superseded : Z) (s : AccountState) :
    AccountState :=
  mkAccountState (a_pending s) (a_by_account s) (a_waiters s) lag observed superseded (a_woken s)
    (a_dropped s).

(** [on_close]: dropping the senders errors every parked waiter. *)
Definition a_on_close (s : AccountState) : AccountState :=
  mkAccountState (a_pending s) (a_by_account s) ∅ (a_lag s) (a_observed s) (a_superseded s)
    (a_woken s) (a_dropped s ++ (map_to_list (a_waiters s)).*2).

(** [settle]; [None] is the panic of its [unwrap]s. *)
Definition settle (s : AccountState) (id : Z) (account : Pubkey) : option AccountState :=
  targets ← (a_pending s !! id : option (gset Pubkey));
  ids ← a_by_account s !! account;
  let targets := targets ∖ {[account]} in
  let by_account := <[account := ids ∖ {[id]}]> (a_by_account s) in
  if bool_decide (targets = ∅) then
    let woken := match a_waiters s !! id with Some tx => [tx] | None => [] end in
    Some (mkAccountState (delete id (a_pending s)) by_account (delete id (a_waiters s)) (a_lag s)
            (a_observed s) (a_superseded s) (a_woken s ++ woken) (a_dropped s))
  else
    Some (mkAccountState (<[id := targets]> (a_pending s)) by_account (a_waiters s) (a_lag s)
            (a_observed s) (a_superseded s) (a_woken s) (a_dropped s)).

(** The loop of [observe]: every iteration settles one id of the account, so
    that their number plus one is fuel enough. *)
Fixpoint supersede (fuel : nat) (s : AccountState) (account : Pubkey) (id : Z) :
    option AccountState :=
  match fuel with
  | O => None
  | S fuel =>
      match a_by_account s !! account ≫= btree_first with
      | None => Some s
      | Some pending_id =>
          if id <=? pending_id then Some s
          else
            s ← settle (a_with_counts (a_lag s) (a_observed s) (a_superseded s + 1) s) pending_id
                  account;
            supersede fuel s account id
      end
  end.

(** [pending.get(&id)] and [by_account.get(&account)], a missing entry read as no element. *)
Definition targets_of (s : AccountState) (id : Z) : gset Pubkey :=
  default ∅ (a_pending s !! id).
Definition ids_of (s : AccountState) (account : Pubkey) : gset Z :=
  default ∅ (a_by_account s !! account).

(** The first half of [observe]: the write itself. *)
Definition observe_write (s : AccountState) (account : Pubkey) (id : Z) (clock : SendClock)
    (now : Instant) : option AccountState :=
  if bool_decide (account ∈ targets_of s id) then
    let lag := match elapsed_micros clock id now with
               | Some lag => stats_push (a_lag s) lag
               | None => a_lag s
               end in
    settle (a_with_counts lag (a_observed s + 1) (a_superseded s) s) id account
  else Some s.

Definition observe (s : AccountState) (account : Pubkey) (id : Z) (clock : SendClock)
    (now : Instant) : option AccountState :=
  s ← observe_write s account id clock now;
  supersede (S (size (ids_of s account))) s account id.

(** The callback of [AccountUpdates::connect]. *)
Definition account_callback {V} `{!Payloads V} (extractor : list Z -> option Z) (clock : SendClock)
    (now : Instant) (s : AccountState) (account : Pubkey) (payload : LazyValue) :
    option (AccountState * Flow) :=
  match account_data payload ≫= extractor with
  | Some id => s ← observe s account id clock now; Some (s, Continue_)
  | None => Some (s, Continue_)
  end.

Definition track (id : Z) (account : Pubkey) (s : AccountState) : AccountState :=
  mkAccountState
    (<[id := {[account]} ∪ default ∅ (a_pending s !! id)]> (a_pending s))
    (<[account := {[id]} ∪ default ∅ (a_by_account s !! account)]> (a_by_account s))
    (a_waiters s) (a_lag s) (a_observed s) (a_superseded s) (a_woken s) (a_dropped s).

(** The registration of [await_id] for the task [tx]: [false] when it resolves at once. *)
Definition account_await_id (id tx : Z) (s : AccountState) : bool * AccountState :=
  match a_pending s !! id with
  | None => (false, s)
  | Some _ =>
      let replaced := match a_waiters s !! id with Some old => [old] | None => [] end in
      (true, mkAccountState (a_pending s) (a_by_account s) (<[id := tx]> (a_waiters s)) (a_lag s)
               (a_observed s) (a_superseded s) (a_woken s) (a_dropped s ++ replaced))
  end.

Definition is_settled (s : AccountState) : bool := bool_decide (a_pending s = ∅).

Record UpdateOutcome := mkUpdateOutcome
  { uo_lag : ObservationsStats; uo_observed : Z; uo_superseded : Z }.

(** [take_outcome]: the counters restart, the pending writes stay; the fresh
    statistics draw from the generator [rng]. *)
Definition take_outcome (rng : Rng) (s : AccountState) : option (UpdateOutcome * AccountState) :=
  lag ← stats_finalize (a_lag s) false;
  Some (mkUpdateOutcome lag (a_observed s) (a_superseded s),
        a_with_counts (StreamingStats_new rng) 0 0 s).

(** * Signature confirmations *)

Record SignatureState := mkSignatureState
  { g_pending : gset Z; g_waiters : gmap Z Z; g_latency : StreamingStats; g_confirmed : Z;
    g_failed : Z; g_first_failure : option (Z * string); g_woken : list Z; g_dropped : list Z }.

Definition SignatureState_default (rng : Rng) : SignatureState :=
  mkSignatureState ∅ ∅ (StreamingStats_new rng) 0 0 None [] [].

Definition g_on_close (s : SignatureState) : SignatureState :=
  mkSignatureState (g_pending s) ∅ (g_latency s) (g_confirmed s) (g_failed s) (g_first_failure s)
    (g_woken s) (g_dropped s ++ (map_to_list (g_waiters s)).*2).

Definition signature_observe {V} `{!Payloads V} (clock : SendClock) (now : Instant)
    (s : SignatureState) (id : Z) (payload : LazyValue) : SignatureState * Flow :=
  match processed_signature payload with
  | None => (s, Continue_)
  | Some err =>
      if bool_decide (id ∈ g_pending s) then
        let pending := g_pending s ∖ {[id]} in
        let woken := match g_waiters s !! id with Some tx => [tx] | None => [] end in
        let waiters := delete id (g_waiters s) in
        (match err with
         | None =>
             let latency := match elapsed_micros clock id now with
                            | Some latency => stats_push (g_latency s) latency
                            | None => g_latency s
                            end in
             mkSignatureState pending waiters latency (g_confirmed s + 1) (g_failed s)
               (g_first_failure s) (g_woken s ++ woken) (g_dropped s)
         | Some err =>
             mkSignatureState pending waiters (g_latency s) (g_confirmed s) (g_failed s + 1)
               (Some (default (id, err) (g_first_failure s))) (g_woken s ++ woken) (g_dropped s)
         end, Break_)
      else (s, Break_)
  end.

(** [SignatureConfirmations::subscribe], its effect on the state. *)
Definition signature_insert (id : Z) (s : SignatureState) : SignatureState :=
  mkSignatureState ({[id]} ∪ g_pending s) (g_waiters s) (g_latency s) (g_confirmed s) (g_failed s)
    (g_first_failure s) (g_woken s) (g_dropped s).

Definition signature_await_id (id tx : Z) (s : SignatureState) : bool * SignatureState :=
  if bool_decide (id ∈ g_pending s) then
    let replaced := match g_waiters s !! id with Some old => [old] | None => [] end in
    (true, mkSignatureState (g_pending s) (<[id := tx]> (g_waiters s)) (g_latency s) (g_confirmed s)
             (g_failed s) (g_first_failure s) (g_woken s) (g_dropped s ++ replaced))
  else (false, s).

Record SignatureOutcome := mkSignatureOutcome
  { so_latency : ObservationsStats; so_confirmed : Z; so_failed : Z;
    so_first_failure : option (Z * string); so_unconfirmed : nat }.

(** [finalize], after [stop] has closed the router. *)
Definition signature_finalize (s : SignatureState) : option SignatureOutcome :=
  latency ← stats_finalize (g_latency s) false;
  Some (mkSignatureOutcome latency (g_confirmed s) (g_failed s) (g_first_failure s)
          (size (g_pending s))).
End updates.

#[export] Instance AccountState_subscription `{RandSource} : SubscriptionState AccountState Pubkey :=
  { on_subscribed _ s := s; on_malformed s := s; on_close _ s := a_on_close s }.

#[export] Instance SignatureState_subscription `{RandSource} : SubscriptionState SignatureState Z :=
  { on_subscribed _ s := s; on_malformed s := s; on_close _ s := g_on_close s }.

(** * Event buffers *)

Record EventBuffer (Value : Type) := mkEventBuffer
  { b_last_key : Z; b_by_key : gmap Z (list Value); b_malformed : Z }.
Arguments mkEventBuffer {Value} _ _ _.
Arguments b_last_key {Value} _.
Arguments b_by_key {Value} _.
Arguments b_malformed {Value} _.

#[export] Instance EventBuffer_subscription {V} : SubscriptionState (EventBuffer V) (Z * Topic) :=
  { on_subscribed _ s := s;
    on_malformed s := mkEventBuffer (b_last_key s) (b_by_key s) (b_malformed s + 1);
    on_close _ s := s }.

Inductive EventError := MalformedPayloads (count : Z) | BadEvent (error : string).

Section events.
Context {V : Type} `{!Payloads V}.

Definition EventBuffer_default : EventBuffer V := mkEventBuffer 0 ∅ 0.

(** [pop::<T>]; [from_value] is the deserialisation of the event. *)
Definition event_pop {T} (from_value : V -> Result T string) (key : Z) (b : EventBuffer V) :
    Result (option T) EventError * EventBuffer V :=
  if b_malformed b =? 0 then
    match b_by_key b !! key with
    | Some (value :: rest) =>
        (match from_value value with Ok t => Ok (Some t) | Err e => Err (BadEvent e) end,
         mkEventBuffer (b_last_key b) (<[key := rest]> (b_by_key b)) (b_malformed b))
    | _ => (Ok None, b)
    end
  else (Err (MalformedPayloads (b_malformed b)), b).

Definition event_register (b : EventBuffer V) : Z * EventBuffer V :=
  let key := b_last_key b + 1 in
  (key, mkEventBuffer key (<[key := []]> (b_by_key b)) (b_malformed b)).

Definition event_observe (b : EventBuffer V) (k : Z * Topic) (payload : LazyValue) :
    EventBuffer V * Flow :=
  (match json_value payload with
   | Some event =>
       mkEventBuffer (b_last_key b) (alter (fun events => events ++ [event]) k.1 (b_by_key b))
         (b_malformed b)
   | None => mkEventBuffer (b_last_key b) (b_by_key b) (b_malformed b + 1)
   end,
   match k.2 with Signature => Break_ | _ => Continue_ end).

Definition event_callback (b : EventBuffer V) (k : Z * Topic) (payload : LazyValue) :
    option (EventBuffer V * Flow) := Some (event_observe b k payload).

(** [EventSubscriptions::events]. *)
Definition events {T} (from_value : V -> Result T string) (key : Z) (b : EventBuffer V) :
    Result (list T) string :=
  collect_results from_value (default [] (b_by_key b !! key)).

(** [EventSubscriptions::subscribe] and [typed]: the buffer exists before the request. *)
Definition event_subscribe `{!SocketJson} (topic : Topic) (params : string) (sent : Result unit string)
    (c : Connection (EventBuffer V) (Z * Topic)) :
    Result Z ConnError * Connection (EventBuffer V) (Z * Topic) :=
  let '(key, b) := event_register (r_state (c_router c)) in
  let c := state_mut (fun _ => b) c in
  let '(r, c) := subscribe topic params (key, topic) sent c in
  (let? _ := r in Ok key, c).

(** [Drop for Subscription]: the buffer goes at once; the task spawned there
    runs [unsubscribe]. *)
Definition event_drop (key : Z) (c : Connection (EventBuffer V) (Z * Topic)) :
    Connection (EventBuffer V) (Z * Topic) :=
  state_mut (fun b => mkEventBuffer (b_last_key b) (delete key (b_by_key b)) (b_malformed b)) c.

(** [next_from], one observation: the first subscription with an event. *)
Fixpoint next_from {T} (from_value : V -> Result T string) (index : nat) (keys : list Z)
    (b : EventBuffer V) : Result (option (nat * T)) EventError * EventBuffer V :=
  match keys with
  | [] => (Ok None, b)
  | key :: keys =>
      let '(r, b) := event_pop from_value key b in
      match r with
      | Err e => (Err e, b)
      | Ok (Some event) => (Ok (Some (index, event)), b)
      | Ok None => next_from from_value (S index) keys b
      end
  end.

(** [await_event], one observation: events from [cursor] on, and the next cursor. *)
Fixpoint first_match {T} (from_value : V -> Result T string) (matches : T -> bool) (l : list V) :
    Result (option T) string :=
  match l with
  | [] => Ok None
  | event :: l =>
      let? t := from_value event in
      if matches t then Ok (Some t) else first_match from_value matches l
  end.

Definition await_event_poll {T} (from_value : V -> Result T string) (matches : T -> bool) (key : Z)
    (cursor : nat) (b : EventBuffer V) : Result (option T) string * nat :=
  match b_by_key b !! key with
  | None => (Ok None, cursor)
  | Some l =>
      match first_match from_value matches (drop cursor l) with
      | Ok None => (Ok None, length l)
      | r => (r, cursor)
      end
  end.
End events.
