(* ===== verification/UpdatesFacts.v ===== *)
(** Facts about account updates: the two indexes of the pending writes agree,
    and what one observation settles. *)
From Stdlib Require Import String.
From S2P Require Import Prelude World Float64 Stats Rate Clock Subscription Updates.

(** * The least element of a set *)

Lemma foldr_min_spec x l : foldr Z.min x l ∈ x :: l /\ forall y, y ∈ x :: l -> foldr Z.min x l <= y.
Proof.
  induction l as [|z l (IHin & IHle)]; cbn.
  { split; [by apply list_elem_of_singleton|]. by intros y ->%list_elem_of_singleton. }
  split.
  - destruct (Z.min_spec z (foldr Z.min x l)) as [[_ ->]|[_ ->]]; [set_solver|].
    apply elem_of_cons in IHin as [->|?]; set_solver.
  - intros y [->|[->|Hy]%elem_of_cons]%elem_of_cons; [|lia|].
    + specialize (IHle x ltac:(set_solver)). lia.
    + specialize (IHle y ltac:(set_solver)). lia.
Qed.

Lemma btree_first_Some X x : btree_first X = Some x -> x ∈ X /\ forall y, y ∈ X -> x <= y.
Proof.
  unfold btree_first. destruct (elements X) as [|z l] eqn:He; [done|]. intros [= <-].
  destruct (foldr_min_spec z l) as (Hin & Hle). split; [by apply elem_of_elements; rewrite He|].
  intros y Hy. apply Hle. rewrite <- He. by apply elem_of_elements.
Qed.

Lemma btree_first_None X : btree_first X = None -> X = ∅.
Proof.
  unfold btree_first. destruct (elements X) as [|z l] eqn:He; [|done]. intros _.
  apply elements_empty_inv in He. set_solver.
Qed.

Section facts.
Context `{G : RandSource}.
Implicit Types (s : AccountState) (a b : Pubkey).

(** * The index invariant *)

(** Both indexes contain the same pending writes, no id is kept without a
    target and only pending ids have a waiter. *)
Record Indexed s : Prop := {
  idx_agree : forall i a, a ∈ targets_of s i <-> i ∈ ids_of s a;
  idx_targets : forall i t, a_pending s !! i = Some t -> t <> ∅;
  idx_waiters : forall i, is_Some (a_waiters s !! i) -> is_Some (a_pending s !! i);
}.

(** The pending writes as a set of pairs. *)
Definition pending_writes s : gset (Z * Pubkey) :=
  ⋃ ((fun '(i, t) => set_map (pair i) (t : gset Pubkey)) <$> map_to_list (a_pending s)).

Lemma elem_of_pending_writes s i a : (i, a) ∈ pending_writes s <-> a ∈ targets_of s i.
Proof.
  unfold pending_writes, targets_of. rewrite elem_of_union_list. split.
  - intros (X & ([j t] & -> & Ht%elem_of_map_to_list)%list_elem_of_fmap & Hi).
    apply elem_of_map in Hi as (b & [= -> ->] & Hb). by rewrite Ht.
  - intros Ha. destruct (a_pending s !! i) as [t|] eqn:Ht; cbn in Ha; [|set_solver].
    exists (set_map (pair i) t). split; [|by apply elem_of_map_2].
    apply list_elem_of_fmap. exists (i, t). split; [done|]. by apply elem_of_map_to_list.
Qed.

Lemma pending_writes_ext s s' : a_pending s' = a_pending s -> pending_writes s' = pending_writes s.
Proof. unfold pending_writes. by intros ->. Qed.

(** The set of writes an update for [account] with id [id] settles. *)
Definition settled_by a (id : Z) (w : Z * Pubkey) : Prop := w.2 = a /\ w.1 <= id.

#[global] Instance settled_by_dec a id w : Decision (settled_by a id w).
Proof. unfold settled_by. apply _. Defined.

(** * Waiters: a step keeps the waiter of an id that stays pending and wakes the others *)

Record Wakes s s' : Prop := {
  wk_dropped : a_dropped s' = a_dropped s;
  wk_woken : a_woken s `prefix_of` a_woken s';
  wk_pending : forall i, a_pending s !! i = None -> a_pending s' !! i = None;
  wk_kept : forall i, is_Some (a_pending s' !! i) -> a_waiters s' !! i = a_waiters s !! i;
  wk_wakes : forall i tx, a_waiters s !! i = Some tx -> a_pending s' !! i = None -> tx ∈ a_woken s';
}.

Lemma Wakes_refl s : Indexed s -> Wakes s s.
Proof.
  intros [_ _ Hw]. split; try done. intros i tx Hi Hn.
  destruct (Hw i) as [t Ht]; [by rewrite Hi|congruence].
Qed.

Lemma Wakes_trans s1 s2 s3 : Wakes s1 s2 -> Wakes s2 s3 -> Wakes s1 s3.
Proof.
  intros [D1 W1 P1 K1 X1] [D2 W2 P2 K2 X2]. split.
  - congruence.
  - by trans (a_woken s2).
  - auto.
  - intros i Hi. rewrite K2 by done. apply K1.
    destruct (a_pending s2 !! i) eqn:E; [done|]. rewrite P2 in Hi by done. by destruct Hi.
  - intros i tx Hi Hn. destruct (a_pending s2 !! i) eqn:E.
    + apply (X2 i); [rewrite K1 by done; exact Hi|exact Hn].
    + destruct W2 as [k ->]. apply elem_of_app. left. by apply (X1 i).
Qed.

(** * Settling one write *)

Lemma targets_of_settle s id a s' i :
  settle s id a = Some s' ->
  targets_of s' i = (if decide (i = id) then targets_of s i ∖ {[a]} else targets_of s i).
Proof.
  unfold settle, targets_of. intros (t & Ht & (ids & _ & H)%bind_Some)%bind_Some.
  case_bool_decide as Hemp; apply (inj Some) in H as <-; cbn [a_pending];
    (destruct (decide (i = id)) as [->|Hne];
     [rewrite ?lookup_delete_eq, ?lookup_insert_eq, Ht; cbn; by rewrite ?Hemp
     |by rewrite ?lookup_delete_ne, ?lookup_insert_ne by done]).
Qed.

Lemma ids_of_settle s id a s' b :
  settle s id a = Some s' ->
  ids_of s' b = (if decide (b = a) then ids_of s b ∖ {[id]} else ids_of s b).
Proof.
  unfold settle, ids_of. intros (t & _ & (ids & Hids & H)%bind_Some)%bind_Some.
  case_bool_decide; apply (inj Some) in H as <-; cbn [a_by_account];
    (destruct (decide (b = a)) as [->|Hne];
     [by rewrite lookup_insert_eq, Hids|by rewrite lookup_insert_ne]).
Qed.

Lemma settle_counts s id a s' :
  settle s id a = Some s' ->
  a_observed s' = a_observed s /\ a_superseded s' = a_superseded s /\ a_lag s' = a_lag s.
Proof.
  unfold settle. intros (t & _ & (ids & _ & H)%bind_Some)%bind_Some.
  case_bool_decide; apply (inj Some) in H as <-; done.
Qed.

Lemma settle_total s id a :
  Indexed s -> a ∈ targets_of s id -> is_Some (settle s id a).
Proof.
  intros [Hag _ _] Hin. pose proof (proj1 (Hag id a) Hin) as Hids. unfold settle.
  unfold targets_of in Hin. unfold ids_of in Hids.
  destruct (a_pending s !! id) as [t|]; [|cbn in Hin; set_solver].
  destruct (a_by_account s !! a) as [ids|]; [|cbn in Hids; set_solver].
  cbn. by case_bool_decide.
Qed.

Lemma settle_indexed s id a s' : Indexed s -> settle s id a = Some s' -> Indexed s'.
Proof.
  intros [Hag Ht Hw] Hs. split.
  - intros i b. rewrite (targets_of_settle _ _ _ _ i Hs), (ids_of_settle _ _ _ _ b Hs).
    specialize (Hag i b). repeat case_decide; set_solver.
  - unfold settle in Hs. apply bind_Some in Hs as (t & _ & (ids & _ & H)%bind_Some).
    case_bool_decide as He; apply (inj Some) in H as <-; cbn [a_pending]; intros i u.
    + intros [_ Hu]%lookup_delete_Some. by apply (Ht i).
    + intros [[<- <-]|[_ Hu]]%lookup_insert_Some; [done|by apply (Ht i)].
  - unfold settle in Hs. apply bind_Some in Hs as (t & _ & (ids & _ & H)%bind_Some).
    case_bool_decide as He; apply (inj Some) in H as <-; cbn [a_pending a_waiters]; intros i Hi.
    + destruct (decide (i = id)) as [->|Hne]; [rewrite lookup_delete_eq in Hi; by destruct Hi|].
      rewrite lookup_delete_ne by done. rewrite lookup_delete_ne in Hi by done. auto.
    + destruct (decide (i = id)) as [->|Hne]; [by rewrite lookup_insert_eq|].
      rewrite lookup_insert_ne by done. auto.
Qed.

Lemma settle_wakes s id a s' : Indexed s -> settle s id a = Some s' -> Wakes s s'.
Proof.
  intros [_ _ Hw]. unfold settle. intros (t & Ht & (ids & _ & H)%bind_Some)%bind_Some.
  case_bool_decide as He; apply (inj Some) in H as <-; split;
    cbn [a_dropped a_woken a_pending a_waiters]; try done; try by eexists.
  - intros i Hi. by apply lookup_delete_None; right.
  - intros i [u [Hne _]%lookup_delete_Some]. by rewrite lookup_delete_ne.
  - intros i tx Hi Hn. apply elem_of_app. apply lookup_delete_None in Hn as [<-|Hn].
    + right. rewrite Hi. apply list_elem_of_singleton. done.
    + destruct (Hw i) as [u Hu]; [by rewrite Hi|congruence].
  - intros i Hi. destruct (decide (i = id)) as [->|]; [congruence|by rewrite lookup_insert_ne].
  - intros i tx Hi Hn. apply lookup_insert_None in Hn as [Hn _].
    destruct (Hw i) as [u Hu]; [by rewrite Hi|congruence].
Qed.

(** All of the above for one settled write. *)
Lemma settle_spec s id a :
  Indexed s -> a ∈ targets_of s id ->
  exists s', settle s id a = Some s' /\ Indexed s' /\ Wakes s s' /\
    pending_writes s' = pending_writes s ∖ {[(id, a)]} /\
    ids_of s' a = ids_of s a ∖ {[id]} /\
    a_observed s' = a_observed s /\ a_superseded s' = a_superseded s /\ a_lag s' = a_lag s.
Proof.
  intros HI Hin. destruct (settle_total s id a HI Hin) as [s' Hs]. exists s'.
  split; [done|]. split; [by eapply settle_indexed|]. split; [by eapply settle_wakes|].
  split; [|split; [|by eapply settle_counts]].
  - apply set_eq. intros [i b]. rewrite elem_of_difference, elem_of_singleton,
      !elem_of_pending_writes, (targets_of_settle _ _ _ _ i Hs).
    case_decide; [|set_solver]. subst. rewrite elem_of_difference, elem_of_singleton. naive_solver.
  - rewrite (ids_of_settle _ _ _ _ a Hs). by case_decide.
Qed.

(** * One observation *)

Lemma Indexed_with_counts lag o u s : Indexed s -> Indexed (a_with_counts lag o u s).
Proof. intros [? ? ?]. by split. Qed.

Lemma Wakes_with_counts lag o u s s' : Wakes (a_with_counts lag o u s) s' -> Wakes s s'.
Proof. intros [? ? ? ? ?]. by split. Qed.

(** The pending writes of [a] older than [id]. *)
Definition older_writes s a (id : Z) : gset (Z * Pubkey) :=
  filter (fun w => w.2 = a /\ w.1 < id) (pending_writes s).

Lemma elem_of_ids_of s a i : Indexed s -> i ∈ ids_of s a <-> (i, a) ∈ pending_writes s.
Proof. intros HI. by rewrite elem_of_pending_writes, (idx_agree _ HI). Qed.

Lemma older_writes_empty s a id :
  Indexed s -> (forall i, i ∈ ids_of s a -> id <= i) -> older_writes s a id = ∅.
Proof.
  intros HI Hge. unfold older_writes. apply set_eq. intros [i b].
  rewrite elem_of_filter. split; [|set_solver]. cbn. intros [[-> Hlt] Hin].
  apply elem_of_ids_of, Hge in Hin; [lia|done].
Qed.

Lemma ids_of_None s a :
  a_by_account s !! a ≫= btree_first = None -> ids_of s a = ∅.
Proof.
  unfold ids_of. destruct (a_by_account s !! a) as [ids|]; cbn; [|done]. apply btree_first_None.
Qed.

Lemma ids_of_Some s a x :
  a_by_account s !! a ≫= btree_first = Some x ->
  x ∈ ids_of s a /\ forall y, y ∈ ids_of s a -> x <= y.
Proof.
  unfold ids_of. intros (ids & -> & H)%bind_Some. by apply btree_first_Some.
Qed.

Lemma older_writes_pop s s' a id x :
  pending_writes s' = pending_writes s ∖ {[(x, a)]} -> (x, a) ∈ pending_writes s -> x < id ->
  size (older_writes s a id) = S (size (older_writes s' a id)) /\
  pending_writes s ∖ older_writes s a id = pending_writes s' ∖ older_writes s' a id.
Proof.
  intros Hp Hin Hlt.
  assert (older_writes s a id = {[(x, a)]} ∪ older_writes s' a id) as Heq.
  { unfold older_writes. rewrite Hp. apply set_eq. intros w.
    rewrite elem_of_union, elem_of_singleton, !elem_of_filter, elem_of_difference, elem_of_singleton.
    destruct (decide (w = (x, a))) as [->|]; naive_solver. }
  assert ((x, a) ∉ older_writes s' a id) as Hnin.
  { unfold older_writes. rewrite Hp. set_solver. }
  rewrite Heq. split; [rewrite size_union, size_singleton by set_solver; lia|].
  rewrite Hp. set_solver.
Qed.

Lemma supersede_spec fuel s a id :
  Indexed s -> (size (ids_of s a) < fuel)%nat ->
  exists s', supersede fuel s a id = Some s' /\ Indexed s' /\ Wakes s s' /\
    pending_writes s' = pending_writes s ∖ older_writes s a id /\
    a_observed s' = a_observed s /\
    a_superseded s' = a_superseded s + Z.of_nat (size (older_writes s a id)) /\
    a_lag s' = a_lag s.
Proof.
  revert s. induction fuel as [|fuel IH]; intros s HI Hfuel; [lia|]. cbn [supersede].
  assert (forall (Hge : forall i, i ∈ ids_of s a -> id <= i), exists s',
    Some s = Some s' /\ Indexed s' /\ Wakes s s' /\
    pending_writes s' = pending_writes s ∖ older_writes s a id /\ a_observed s' = a_observed s /\
    a_superseded s' = a_superseded s + Z.of_nat (size (older_writes s a id)) /\
    a_lag s' = a_lag s) as Hstop.
  { intros Hge. rewrite (older_writes_empty _ _ _ HI Hge), size_empty. exists s.
    split_and!; try done; [by apply Wakes_refl|set_solver|lia]. }
  destruct (a_by_account s !! a ≫= btree_first) as [x|] eqn:Hx; cycle 1.
  { apply ids_of_None in Hx. apply Hstop. set_solver. }
  apply ids_of_Some in Hx as [Hx Hmin].
  destruct (Z.leb_spec id x); [apply Hstop; intros i Hi%Hmin; lia|].
  assert ((x, a) ∈ pending_writes s) as Hxa by (by apply elem_of_ids_of).
  destruct (settle_spec (a_with_counts (a_lag s) (a_observed s) (a_superseded s + 1) s) x a)
    as (s1 & -> & HI1 & W1 & P1 & I1 & O1 & U1 & L1);
    [by apply Indexed_with_counts|by apply elem_of_pending_writes in Hxa|].
  cbn [mbind option_bind].
  destruct (IH s1 HI1) as (s2 & -> & HI2 & W2 & P2 & O2 & U2 & L2).
  { rewrite I1. change (ids_of (a_with_counts _ _ _ s) a) with (ids_of s a).
    assert (size (ids_of s a ∖ {[x]}) < size (ids_of s a))%nat by (apply subset_size; set_solver). lia. }
  destruct (older_writes_pop s s1 a id x P1 Hxa ltac:(lia)) as [Hsz Heq].
  exists s2. split_and!; try done.
  - eapply Wakes_trans; [by eapply Wakes_with_counts|done].
  - by rewrite P2, Heq.
  - by rewrite O2, O1.
  - rewrite U2, U1, Hsz. cbn. lia.
  - by rewrite L2, L1.
Qed.

Lemma observe_write_spec s a id clock now :
  Indexed s ->
  exists s', observe_write s a id clock now = Some s' /\ Indexed s' /\ Wakes s s' /\
    pending_writes s' = pending_writes s ∖ {[(id, a)]} /\
    a_observed s' = a_observed s + (if decide ((id, a) ∈ pending_writes s) then 1 else 0) /\
    a_superseded s' = a_superseded s.
Proof.
  intros HI. unfold observe_write. case_bool_decide as Hin.
  - destruct (settle_spec (a_with_counts (match elapsed_micros clock id now with
      | Some lag => stats_push (a_lag s) lag | None => a_lag s end)
      (a_observed s + 1) (a_superseded s) s) id a) as (s1 & -> & HI1 & W1 & P1 & _ & O1 & U1 & _);
      [by apply Indexed_with_counts|done|].
    exists s1. split_and!; try done; [by eapply Wakes_with_counts|].
    rewrite O1. rewrite decide_True by (by apply elem_of_pending_writes). done.
  - rewrite <- elem_of_pending_writes in Hin. exists s. rewrite decide_False by done.
    split_and!; try done; [by apply Wakes_refl|set_solver|lia].
Qed.

(** What an update settles: the write itself and every older write to the account. *)
Lemma observe_spec s a id clock now :
  Indexed s ->
  exists s', observe s a id clock now = Some s' /\ Indexed s' /\ Wakes s s' /\
    pending_writes s' = filter (fun w => ~ settled_by a id w) (pending_writes s) /\
    a_observed s' = a_observed s + (if decide ((id, a) ∈ pending_writes s) then 1 else 0) /\
    a_superseded s' = a_superseded s + Z.of_nat (size (older_writes s a id)).
Proof.
  intros HI. unfold observe.
  destruct (observe_write_spec s a id clock now HI) as (s1 & -> & HI1 & W1 & P1 & O1 & U1).
  cbn [mbind option_bind].
  destruct (supersede_spec (S (size (ids_of s1 a))) s1 a id HI1)
    as (s2 & -> & HI2 & W2 & P2 & O2 & U2 & L2); [lia|].
  assert (older_writes s1 a id = older_writes s a id) as Holder.
  { unfold older_writes. rewrite P1. apply set_eq. intros [i b].
    rewrite !elem_of_filter, elem_of_difference, elem_of_singleton. cbn. split; [naive_solver|].
    intros [[-> Hlt] Hin]. split_and!; try done. intros [= ->]. lia. }
  exists s2. split_and!; try done.
  - by eapply Wakes_trans.
  - rewrite P2, Holder, P1. unfold older_writes, settled_by. apply set_eq. intros [i b].
    rewrite !elem_of_difference, !elem_of_filter, elem_of_singleton. cbn.
    destruct (decide (b = a)) as [->|]; [|naive_solver].
    destruct (Z.lt_trichotomy i id) as [|[->|]]; split; try naive_solver lia.
  - by rewrite O2, O1.
  - by rewrite U2, U1, Holder.
Qed.

(** Every pending write is counted once when it goes. *)
Lemma observe_conserves s a id clock now s' :
  Indexed s -> observe s a id clock now = Some s' ->
  a_observed s' + a_superseded s' + Z.of_nat (size (pending_writes s')) =
  a_observed s + a_superseded s + Z.of_nat (size (pending_writes s)).
Proof.
  intros HI Hs. destruct (observe_spec s a id clock now HI) as (s1 & Hs1 & _ & _ & P1 & O1 & U1).
  assert (s1 = s') as -> by congruence. rewrite O1, U1, P1.
  set (own := filter (fun w => w = (id, a)) (pending_writes s)).
  assert (pending_writes s = filter (fun w => ~ settled_by a id w) (pending_writes s)
            ∪ (older_writes s a id ∪ own)) as Hsplit.
  { unfold own, older_writes, settled_by. apply set_eq. intros [i b].
    rewrite !elem_of_union, !elem_of_filter. cbn.
    destruct (decide (b = a)) as [->|]; [|naive_solver].
    destruct (Z.lt_trichotomy i id) as [|[->|]]; naive_solver lia. }
  assert (size own = if decide ((id, a) ∈ pending_writes s) then 1 else 0)%nat as Hown.
  { unfold own. case_decide.
    - rewrite <- (size_singleton (C := gset (Z * Pubkey)) (id, a)). f_equal. set_solver.
    - rewrite <- (size_empty (C := gset (Z * Pubkey))). f_equal. set_solver. }
  rewrite Hsplit at 4. rewrite !size_union.
  - rewrite Hown. case_decide; lia.
  - unfold own, older_writes. intros [i b]. rewrite !elem_of_filter. cbn. naive_solver lia.
  - unfold own, older_writes, settled_by. intros [i b].
    rewrite elem_of_union, !elem_of_filter. cbn. naive_solver lia.
Qed.

(** * The other operations *)

Lemma targets_of_track s id a i :
  targets_of (track id a s) i = (if decide (i = id) then {[a]} ∪ targets_of s i else targets_of s i).
Proof.
  unfold targets_of, track. cbn [a_pending].
  case_decide; [subst; by rewrite lookup_insert_eq|by rewrite lookup_insert_ne].
Qed.

Lemma ids_of_track s id a b :
  ids_of (track id a s) b = (if decide (b = a) then {[id]} ∪ ids_of s b else ids_of s b).
Proof.
  unfold ids_of, track. cbn [a_by_account].
  case_decide; [subst; by rewrite lookup_insert_eq|by rewrite lookup_insert_ne].
Qed.

Lemma pending_writes_track s id a :
  pending_writes (track id a s) = {[(id, a)]} ∪ pending_writes s.
Proof.
  apply set_eq. intros [i b].
  rewrite elem_of_union, elem_of_singleton, !elem_of_pending_writes, targets_of_track.
  case_decide; set_solver.
Qed.

Lemma track_indexed s id a : Indexed s -> Indexed (track id a s).
Proof.
  intros [Hag Ht Hw]. split.
  - intros i b. rewrite targets_of_track, ids_of_track. specialize (Hag i b).
    repeat case_decide; set_solver.
  - unfold track. cbn [a_pending]. intros i t [[<- <-]|[_ Hi]]%lookup_insert_Some; [set_solver|].
    by apply (Ht i).
  - unfold track. cbn [a_pending a_waiters]. intros i Hi%Hw.
    destruct (decide (i = id)) as [->|]; [by rewrite lookup_insert_eq|by rewrite lookup_insert_ne].
Qed.

Lemma await_id_indexed id tx s : Indexed s -> Indexed (account_await_id id tx s).2.
Proof.
  intros [Hag Ht Hw]. unfold account_await_id. destruct (a_pending s !! id) eqn:E; [|done].
  split; try done. cbn [snd a_pending a_waiters]. intros i Hi.
  destruct (decide (i = id)) as [->|]; [done|]. rewrite lookup_insert_ne in Hi by done. auto.
Qed.

Lemma on_close_indexed s : Indexed s -> Indexed (a_on_close s).
Proof.
  intros [Hag Ht Hw]. split; try done. cbn [a_on_close a_waiters]. intros i Hi.
  rewrite lookup_empty in Hi. by destruct Hi.
Qed.

Lemma take_outcome_spec rng s o s' :
  take_outcome rng s = Some (o, s') ->
  uo_observed o = a_observed s /\ uo_superseded o = a_superseded s /\
  a_observed s' = 0 /\ a_superseded s' = 0 /\ pending_writes s' = pending_writes s /\
  (Indexed s -> Indexed s').
Proof.
  unfold take_outcome. intros (lag & _ & H)%bind_Some. apply (inj Some) in H.
  injection H as <- <-. split_and!; try done. apply Indexed_with_counts.
Qed.

(** * Traces of a subscriber *)

Inductive UpdateEvent :=
| Tracked (id : Z) (a : Pubkey)
| Updated (a : Pubkey) (id : Z) (clock : SendClock) (now : Instant)
| Awaited (id tx : Z)
| Closed.

Definition update_step (s : AccountState) (e : UpdateEvent) : option AccountState :=
  match e with
  | Tracked id a => Some (track id a s)
  | Updated a id clock now => observe s a id clock now
  | Awaited id tx => Some (account_await_id id tx s).2
  | Closed => Some (a_on_close s)
  end.

Fixpoint update_run (s : AccountState) (l : list UpdateEvent) : option AccountState :=
  match l with
  | [] => Some s
  | e :: l => s ← update_step s e; update_run s l
  end.

(** How many writes a trace adds: a write that is already pending is not added again. *)
Fixpoint tracked_writes (s : AccountState) (l : list UpdateEvent) : Z :=
  match l with
  | [] => 0
  | e :: l =>
      (match e with
       | Tracked id a => if decide ((id, a) ∈ pending_writes s) then 0 else 1
       | _ => 0
       end + match update_step s e with Some s => tracked_writes s l | None => 0 end)%Z
  end.

(** A task that waits is resolved or still parked on a pending id. *)
Definition Resolved s (tx : Z) : Prop :=
  tx ∈ a_woken s \/ tx ∈ a_dropped s \/
  exists i, a_waiters s !! i = Some tx /\ is_Some (a_pending s !! i).

Lemma update_step_spec s e :
  Indexed s ->
  exists s', update_step s e = Some s' /\ Indexed s' /\
    a_observed s' + a_superseded s' + Z.of_nat (size (pending_writes s')) =
      a_observed s + a_superseded s + Z.of_nat (size (pending_writes s)) + tracked_writes s [e] /\
    forall tx, Resolved s tx -> Resolved s' tx.
Proof.
  intros HI. destruct e as [id a|a id clock now|id tx|]; cbn [update_step tracked_writes].
  - eexists. split; [done|]. split; [by apply track_indexed|]. rewrite pending_writes_track. split.
    + change (a_observed (track id a s)) with (a_observed s).
      change (a_superseded (track id a s)) with (a_superseded s). case_decide.
      * rewrite subseteq_union_1_L by set_solver. lia.
      * rewrite size_union, size_singleton by set_solver. lia.
    + intros tx [?|[?|(i & Hi & Hp)]]; [by left|by right; left|]. right; right. exists i.
      split; [done|]. cbn [track a_pending]. destruct (decide (i = id)) as [->|];
        [by rewrite lookup_insert_eq|by rewrite lookup_insert_ne].
  - destruct (observe_spec s a id clock now HI) as (s' & Hs & HI' & [D W P K X] & _).
    exists s'. rewrite Hs. split_and!; try done.
    + pose proof (observe_conserves _ _ _ _ _ _ HI Hs). lia.
    + intros tx [Hw|[Hd|(i & Hi & Hp)]].
      * left. destruct W as [k ->]. set_solver.
      * right; left. by rewrite D.
      * destruct (a_pending s' !! i) as [t|] eqn:E; [|left; by eapply X].
        right; right. exists i. rewrite K by (by rewrite E). by rewrite E.
  - eexists. split; [done|]. split; [by apply await_id_indexed|]. unfold account_await_id.
    destruct (a_pending s !! id) as [t|] eqn:E; cbn [snd]; [|by split; [lia|]].
    split; [rewrite (pending_writes_ext s) by done; cbn [a_observed a_superseded]; lia|].
    intros tx' [?|[?|(i & Hi & Hp)]]; [by left|right; left; cbn; set_solver|].
    destruct (decide (i = id)) as [->|].
    + right; left. cbn. rewrite Hi. set_solver.
    + right; right. exists i. cbn. by rewrite lookup_insert_ne.
  - eexists. split; [done|]. split; [by apply on_close_indexed|].
    split; [rewrite (pending_writes_ext s) by done; cbn [a_on_close a_observed a_superseded]; lia|].
    intros tx [?|[?|(i & Hi & Hp)]]; [by left|right; left; cbn; set_solver|].
    right; left. cbn. apply elem_of_app. right. apply list_elem_of_fmap. exists (i, tx).
    split; [done|by apply elem_of_map_to_list].
Qed.

Lemma Resolved_awaited s id tx : is_Some (a_pending s !! id) -> Resolved (account_await_id id tx s).2 tx.
Proof.
  intros [t Ht]. unfold account_await_id. rewrite Ht. cbn [snd]. right; right. exists id.
  cbn. by rewrite lookup_insert_eq, Ht.
Qed.

Lemma update_run_spec s l :
  Indexed s ->
  exists s', update_run s l = Some s' /\ Indexed s' /\
    a_observed s' + a_superseded s' + Z.of_nat (size (pending_writes s')) =
      a_observed s + a_superseded s + Z.of_nat (size (pending_writes s)) + tracked_writes s l /\
    forall tx, Resolved s tx -> Resolved s' tx.
Proof.
  revert s. induction l as [|e l IH]; intros s HI; cbn [update_run tracked_writes].
  { exists s. split_and!; try done. lia. }
  destruct (update_step_spec s e HI) as (s1 & Hs1 & HI1 & Hc & Hr). rewrite Hs1.
  cbn [mbind option_bind]. destruct (IH s1 HI1) as (s2 & -> & HI2 & Hc2 & Hr2).
  exists s2. split_and!; try done; [|by auto]. rewrite Hc2, Hc. cbn [tracked_writes]. rewrite Hs1. lia.
Qed.

Lemma update_run_app s l1 l2 :
  update_run s (l1 ++ l2) = update_run s l1 ≫= (fun s => update_run s l2).
Proof.
  revert s. induction l1 as [|e l1 IH]; intros s; cbn [update_run app]; [done|].
  destruct (update_step s e); cbn; [apply IH|done].
Qed.

Lemma default_indexed rng : Indexed (AccountState_default rng).
Proof.
  split; cbn.
  - intros i a. unfold targets_of, ids_of. cbn. rewrite !lookup_empty. set_solver.
  - intros i t. by rewrite lookup_empty.
  - intros i. rewrite lookup_empty. by intros [].
Qed.
End facts.
