(* ===== verification/EventFacts.v ===== *)
(** Facts about event subscriptions: the routing tables of a connection hold
    every key at most once, and a subscription's buffer receives the payloads of
    its own notifications, in order. *)
From Stdlib Require Import String.
From S2P Require Import Prelude World Stats Clock Subscription Updates.

Section event_facts.
Context {V : Type} `{!Payloads V, !SocketJson} (print_id : Z -> string).
Local Abbreviation Events := (Connection (EventBuffer V) (Z * Topic)).
Implicit Types (c : Events) (k : Z).

(** * What can happen to a connection *)

Inductive Action :=
| Recv (frame : SocketFrame)
| Open (topic : Topic) (params : string) (sent : Result unit string)
| DropKey (key : Z)
| Cleanup (key : Z) (topic : Topic) (acked : Result unit ConnError) (sent : Result unit string)
| Stop.

Definition act (a : Action) (c : Events) : option Events :=
  match a with
  | Recv frame => read_frame event_callback frame c
  | Open topic params sent => Some (event_subscribe topic params sent c).2
  | DropKey key => Some (event_drop key c)
  | Cleanup key topic acked sent =>
      Some (unsubscribe (key, topic) topic acked print_id sent c).2
  | Stop => Some (stop c)
  end.

Fixpoint act_all (l : list Action) (c : Events) : option Events :=
  match l with [] => Some c | a :: l => c ← act a c; act_all l c end.

(** * The routing tables *)

Definition requested c (i k : Z) : Prop := exists t, r_requests (c_router c) !! i = Some (Subscribe (k, t)).
Definition routed c (s k : Z) : Prop := exists t, r_subscriptions (c_router c) !! s = Some (k, t).
Definition buffer c k : option (list V) := b_by_key (r_state (c_router c)) !! k.

Record Routing c : Prop := {
  rt_fresh : forall i, c_next_id c <= i -> r_requests (c_router c) !! i = None;
  rt_requested : forall i k, requested c i k -> k <= b_last_key (r_state (c_router c));
  rt_routed : forall s k, routed c s k -> k <= b_last_key (r_state (c_router c));
  rt_one_request : forall i j k, requested c i k -> requested c j k -> i = j;
  rt_one_route : forall s s' k, routed c s k -> routed c s' k -> s = s';
  rt_either : forall i s k, requested c i k -> ~ routed c s k;
}.

(** A step that only forgets requests and routes. *)
Lemma Routing_shrink c c' :
  Routing c -> c_next_id c <= c_next_id c' ->
  b_last_key (r_state (c_router c)) <= b_last_key (r_state (c_router c')) ->
  (forall i, c_next_id c' <= i -> r_requests (c_router c') !! i = None) ->
  (forall i k, requested c' i k -> requested c i k) ->
  (forall s k, routed c' s k -> routed c s k) -> Routing c'.
Proof.
  intros [H1 H2 H3 H4 H5 H6] Hn Hk Hf Hreq Hrt. split; [done|..].
  - intros i k Hi%Hreq%H2. lia.
  - intros s k Hs%Hrt%H3. lia.
  - intros i j k Hi%Hreq Hj%Hreq. by eapply H4.
  - intros s s' k Hs%Hrt Hs'%Hrt. by eapply H5.
  - intros i s k Hi%Hreq Hs%Hrt. by eapply H6.
Qed.

(** The reader's answer to a frame, as a relation between connections. *)
Lemma read_frame_total frame c : is_Some (read_frame event_callback frame c).
Proof.
  unfold read_frame. destruct (c_reader c); [|done].
  assert (exists o, dispatch event_callback frame (c_router c) = Some o) as [o ->].
  { destruct frame as [id result|method params|]; cbn [dispatch]; [by eexists| |by eexists].
    destruct (r_subscriptions _ !! _); [|by eexists]. cbn. by eexists. }
  cbn. by destruct (o.1).
Qed.

Lemma act_total a c : is_Some (act a c).
Proof. destruct a; cbn [act]; try done. apply read_frame_total. Qed.

Lemma act_all_total l c : is_Some (act_all l c).
Proof.
  revert c. induction l as [|a l IH]; intros c; cbn [act_all]; [done|].
  destruct (act_total a c) as [c' ->]. cbn. apply IH.
Qed.

(** ** Replies *)

Lemma dispatch_reply_cases id result c o r :
  dispatch_reply id result (c_router c) = (o, r) ->
  r_requests r = delete id (r_requests (c_router c)) /\ r_state r = r_state (c_router c) /\
  (r_subscriptions r = r_subscriptions (c_router c) \/
   exists key raw s, r_requests (c_router c) !! id = Some (Subscribe key) /\ result = Ok raw /\
     json_u64 raw = Ok s /\ o = Ok tt /\ r_subscriptions r = <[s := key]> (r_subscriptions (c_router c))).
Proof.
  unfold dispatch_reply. intros Heq.
  destruct (r_requests (c_router c) !! id) as [[key|]|] eqn:Hr, result as [raw|e];
    repeat (case_match; simplify_eq/=); simplify_eq/=; split_and!; try done; auto.
  right. by eexists _, _, _.
Qed.

(** ** Every action keeps the tables in order *)

Lemma Routing_close reason c : Routing c ->
  Routing (mkConnection (c_sink c) (c_next_id c) (c_last_sent c) (close reason (c_router c)) false).
Proof. intros [? ? ? ? ? ?]. by split. Qed.

Lemma Routing_reply id result c o r :
  Routing c -> dispatch_reply id result (c_router c) = (o, r) -> Routing (with_router (fun _ => r) c).
Proof.
  intros HR (Hreq & Hst & Hsub)%dispatch_reply_cases.
  assert (forall i k, requested (with_router (fun _ => r) c) i k -> i <> id /\ requested c i k) as Hrq.
  { intros i k [t Ht]. cbn [with_router c_router] in Ht. rewrite Hreq in Ht.
    apply lookup_delete_Some in Ht as [Hne Ht]. split; [done|by exists t]. }
  assert (forall i, c_next_id c <= i -> r_requests r !! i = None) as Hf.
  { intros i Hi. rewrite Hreq. apply lookup_delete_None. right. by apply (rt_fresh _ HR). }
  destruct Hsub as [Hsub|([k0 t0] & raw & s0 & Hk0 & -> & Hs0 & -> & Hsub)].
  { eapply Routing_shrink; try done; cbn; [by rewrite Hst|by intros i k []%Hrq|].
    intros s k [t Ht]. cbn in Ht. rewrite Hsub in Ht. by exists t. }
  assert (requested c id k0) as Hreq0 by (by exists t0).
  assert (forall s k, routed (with_router (fun _ => r) c) s k ->
    (s = s0 /\ k = k0) \/ routed c s k) as Hrt.
  { intros s k [t Ht]. cbn in Ht. rewrite Hsub in Ht.
    apply lookup_insert_Some in Ht as [[<- [= <- <-]]|[Hne Ht]]; [by left|right; by exists t]. }
  split.
  - exact Hf.
  - intros i k [_ Hi]%Hrq. cbn. rewrite Hst. by eapply rt_requested.
  - intros s k [[-> ->]|Hs]%Hrt; cbn; rewrite Hst; [by eapply rt_requested|by eapply rt_routed].
  - intros i j k [_ Hi]%Hrq [_ Hj]%Hrq. by eapply rt_one_request.
  - intros s s' k [[-> ->]|Hs]%Hrt [[-> ?]|Hs']%Hrt; subst; try done.
    + by destruct (rt_either _ HR _ _ _ Hreq0 Hs').
    + by destruct (rt_either _ HR _ _ _ Hreq0 Hs).
    + by eapply rt_one_route.
  - intros i s k [Hne Hi]%Hrq [[-> ->]|Hs]%Hrt.
    + by apply Hne, (rt_one_request _ HR i id k0).
    + by eapply rt_either.
Qed.

Lemma Routing_read_frame frame c c' :
  Routing c -> read_frame event_callback frame c = Some c' -> Routing c'.
Proof.
  intros HR. unfold read_frame. destruct (c_reader c); [|by intros [= <-]].
  destruct frame as [id result|method params|]; cbn [dispatch].
  - destruct (dispatch_reply id result (c_router c)) as [o r] eqn:Hd.
    apply (Routing_reply _ _ _ _ _ HR) in Hd. cbn. destruct o; intros [= <-]; [exact Hd|].
    by apply (Routing_close _ _ Hd).
  - destruct (r_subscriptions (c_router c) !! n_subscription params) as [[k t]|] eqn:Hs;
      cbn; intros [= <-]; [|by destruct c].
    eapply Routing_shrink; try done; cbn.
    + by destruct (json_value _), t.
    + intros i Hi. apply (rt_fresh _ HR) in Hi. by destruct t.
    + intros i k' [t' Ht']. exists t'. by destruct t.
    + intros s k' [t' Ht']. exists t'. destruct t; try exact Ht'. cbn in Ht'.
      by apply lookup_delete_Some in Ht' as [].
  - cbn. intros [= <-]. eapply Routing_shrink; try done. apply (rt_fresh _ HR).
Qed.

Lemma send_request_router {S K} id m p sent (c : Connection S K) :
  c_router (send_request id m p sent c).2 = c_router c /\
  c_next_id (send_request id m p sent c).2 = c_next_id c /\
  c_reader (send_request id m p sent c).2 = c_reader c.
Proof. unfold send_request. by destruct sent. Qed.

(** The connection a subscription leaves behind, whether or not the send worked. *)
Lemma event_subscribe_router topic params sent c :
  let c' := (event_subscribe topic params sent c).2 in
  let k := b_last_key (r_state (c_router c)) + 1 in
  c_next_id c' = c_next_id c + 1 /\ c_reader c' = c_reader c /\
  r_requests (c_router c') = <[c_next_id c := Subscribe (k, topic)]> (r_requests (c_router c)) /\
  r_subscriptions (c_router c') = r_subscriptions (c_router c) /\
  b_last_key (r_state (c_router c')) = k /\
  b_by_key (r_state (c_router c')) = <[k := []]> (b_by_key (r_state (c_router c))).
Proof. unfold event_subscribe, send_request. cbn. by destruct sent. Qed.

Lemma Routing_subscribe topic params sent c :
  Routing c -> Routing (event_subscribe topic params sent c).2.
Proof.
  intros HR. destruct (event_subscribe_router topic params sent c) as (Hn & _ & Hreq & Hsub & Hlk & _).
  set (c' := (event_subscribe topic params sent c).2) in *.
  set (k0 := b_last_key (r_state (c_router c)) + 1) in *.
  assert (forall i k, requested c' i k -> (i = c_next_id c /\ k = k0) \/ requested c i k) as Hrq.
  { intros i k [t Ht]. rewrite Hreq in Ht.
    apply lookup_insert_Some in Ht as [[<- [= <- <-]]|[_ Ht]]; [by left|right; by exists t]. }
  assert (forall s k, routed c' s k -> routed c s k) as Hrt.
  { intros s k [t Ht]. rewrite Hsub in Ht. by exists t. }
  split.
  - rewrite Hn, Hreq. intros i Hi. rewrite lookup_insert_ne by lia. apply (rt_fresh _ HR). lia.
  - intros i k [[-> ->]|Hi%(rt_requested _ HR)]%Hrq; rewrite Hlk; lia.
  - intros s k Hs%Hrt%(rt_routed _ HR). rewrite Hlk. lia.
  - intros i j k [[-> ->]|Hi]%Hrq [[-> ?]|Hj]%Hrq; try done.
    + apply (rt_requested _ HR) in Hj. lia.
    + subst. apply (rt_requested _ HR) in Hi. lia.
    + by eapply rt_one_request.
  - intros s s' k Hs%Hrt Hs'%Hrt. by eapply rt_one_route.
  - intros i s k [[-> ->]|Hi]%Hrq Hs%Hrt; [apply (rt_routed _ HR) in Hs; lia|by eapply rt_either].
Qed.

(** What an unsubscription leaves: the state untouched, other keys' requests and routes kept. *)
Lemma unsubscribe_router key topic acked sent c :
  Routing c ->
  let c' := (unsubscribe (key, topic) topic acked print_id sent c).2 in
  c_reader c' = c_reader c /\ r_state (c_router c') = r_state (c_router c) /\
  c_next_id c <= c_next_id c' /\
  (forall i, c_next_id c' <= i -> r_requests (c_router c') !! i = None) /\
  (forall i k, requested c' i k -> requested c i k) /\
  (forall s k, routed c' s k -> routed c s k) /\
  (forall i k t, k <> key -> r_requests (c_router c) !! i = Some (Subscribe (k, t)) ->
     r_requests (c_router c') !! i = Some (Subscribe (k, t))) /\
  (forall s k t, k <> key -> r_subscriptions (c_router c) !! s = Some (k, t) ->
     r_subscriptions (c_router c') !! s = Some (k, t)).
Proof.
  intros HR. unfold unsubscribe. destruct acked as [[]|e]; cycle 1.
  { cbn. split_and!; try done.
    - intros i Hi. apply map_lookup_filter_None. left. by apply (rt_fresh _ HR).
    - intros i k [t Ht]. cbn in Ht. apply map_lookup_filter_Some in Ht as [Ht _]. by exists t.
    - intros i k t Hne Hi. apply map_lookup_filter_Some. split; [done|]. naive_solver. }
  destruct (find_map _ _) as [s0|] eqn:Hf; cbn [snd]; cycle 1.
  { split_and!; try done. apply (rt_fresh _ HR). }
  apply find_map_Some in Hf as ([s1 key1] & Hin%elem_of_map_to_list & Hs1).
  case_bool_decide as Hk; [|done]. apply (inj Some) in Hs1 as ->. subst key1.
  cbv zeta. cbn [fresh_id with_router]. 
  match goal with |- context [send_request ?i ?m ?p ?q ?x] =>
    destruct (send_request_router i m p q x) as (-> & -> & ->) end. cbn.
  split_and!; try done.
  - lia.
  - intros i Hi. rewrite lookup_insert_ne by lia. apply (rt_fresh _ HR). lia.
  - intros i k [t Ht].
    match type of Ht with context [send_request ?i ?m ?p ?q ?x] =>
      destruct (send_request_router i m p q x) as (Hr & _ & _); rewrite Hr in Ht end.
    cbn in Ht. apply lookup_insert_Some in Ht as [[_ ?]|[_ Ht]]; [done|by exists t].
  - intros s k [t Ht].
    match type of Ht with context [send_request ?i ?m ?p ?q ?x] =>
      destruct (send_request_router i m p q x) as (Hr & _ & _); rewrite Hr in Ht end.
    cbn in Ht. apply lookup_delete_Some in Ht as [_ Ht]. by exists t.
  - intros i k t Hne Hi. rewrite lookup_insert_ne; [done|]. intros <-.
    rewrite (rt_fresh _ HR) in Hi by lia. done.
  - intros s k t Hne Hs. rewrite lookup_delete_ne; [done|]. intros ->. congruence.
Qed.

Lemma Routing_act a c c' : Routing c -> act a c = Some c' -> Routing c'.
Proof.
  intros HR. destruct a as [frame|topic params sent|key|key topic acked sent|]; cbn [act].
  - by apply Routing_read_frame.
  - intros [= <-]. by apply Routing_subscribe.
  - intros [= <-]. by eapply Routing_shrink; try done; apply (rt_fresh _ HR).
  - intros [= <-]. destruct (unsubscribe_router key topic acked sent c HR)
      as (_ & Hst & Hn & Hf & Hq & Hr & _). eapply Routing_shrink; try done. by rewrite Hst.
  - intros [= <-]. apply (Routing_close StreamEnded _ HR).
Qed.

Lemma Routing_act_all l c c' : Routing c -> act_all l c = Some c' -> Routing c'.
Proof.
  revert c. induction l as [|a l IH]; intros c HR; cbn [act_all]; [by intros [= <-]|].
  intros (c1 & H1 & H2)%bind_Some. eapply IH; [by eapply Routing_act|done].
Qed.

Lemma Routing_connect : Routing (connect (EventBuffer_default (V := V))).
Proof.
  split; cbn; unfold requested, routed; cbn; try (intros * []; set_solver).
  - intros i _. apply lookup_empty.
Qed.

(** * Delivery *)

(** The payloads a list of actions carries for the subscription [s], in order. *)
Definition payload_of (s : Z) (a : Action) : option V :=
  match a with
  | Recv (Notify _ params) =>
      if decide (n_subscription params = s) then json_value (n_result params) else None
  | _ => None
  end.

(** The actions that are another subscription's business: no reply to request
    [r], no second acknowledgment with the id [s], no drop of the key. *)
Definition other_reply (r : Z) (a : Action) : Prop :=
  match a with Recv (Reply id _) => id <> r | _ => True end.
Definition other_ack (s : Z) (a : Action) : Prop :=
  match a with Recv (Reply _ (Ok raw)) => json_u64 raw <> Ok s | _ => True end.
Definition keeps (k : Z) (a : Action) : Prop :=
  match a with DropKey key => key <> k | Cleanup key _ _ _ => key <> k | _ => True end.

#[global] Instance other_reply_dec r a : Decision (other_reply r a).
Proof. destruct a as [[]|? ? ?|?|? ? ? ?|]; cbn; apply _. Defined.
#[global] Instance keeps_dec k a : Decision (keeps k a).
Proof. destruct a as [[]|? ? ?|?|? ? ? ?|]; cbn; apply _. Defined.

(** Every action except a frame leaves an existing buffer as it is. *)
Lemma buffer_act_client a c c' k q :
  (forall frame, a <> Recv frame) -> keeps k a -> Routing c ->
  k <= b_last_key (r_state (c_router c)) -> act a c = Some c' -> buffer c k = Some q ->
  buffer c' k = Some q.
Proof.
  unfold buffer. intros Hnr Hk HR Hle Ha Hb.
  destruct a as [frame|topic params sent|key|key topic acked sent|]; cbn [act] in Ha.
  - by destruct (Hnr frame).
  - apply (inj Some) in Ha as <-.
    destruct (event_subscribe_router topic params sent c) as (_ & _ & _ & _ & _ & ->).
    rewrite lookup_insert_ne by lia. done.
  - apply (inj Some) in Ha as <-. cbn. by rewrite lookup_delete_ne.
  - apply (inj Some) in Ha as <-.
    by destruct (unsubscribe_router key topic acked sent c HR) as (_ & -> & _).
  - by apply (inj Some) in Ha as <-.
Qed.

(** The connection before the acknowledgment: the request is pending and its
    buffer is empty. *)
Definition Pending (r k : Z) (t : Topic) c : Prop :=
  r_requests (c_router c) !! r = Some (Subscribe (k, t)) /\ buffer c k = Some [].

(** The connection after the acknowledgment. *)
Definition Active (s k : Z) (t : Topic) (q : list V) c : Prop :=
  r_subscriptions (c_router c) !! s = Some (k, t) /\ buffer c k = Some q.

(** ** Frames *)

Lemma read_notify_route method params c c' k0 t0 :
  c_reader c = true -> r_subscriptions (c_router c) !! n_subscription params = Some (k0, t0) ->
  read_frame event_callback (Notify method params) c = Some c' ->
  r_requests (c_router c') = r_requests (c_router c) /\
  r_subscriptions (c_router c') =
    (match t0 with Signature => delete (n_subscription params) (r_subscriptions (c_router c))
     | _ => r_subscriptions (c_router c) end) /\
  forall k, buffer c' k =
    (if decide (k = k0) then (fun q => q ++ option_list (json_value (n_result params))) <$> buffer c k
     else buffer c k).
Proof.
  unfold read_frame, buffer. intros -> Hs. cbn [dispatch]. rewrite Hs. cbn.
  intros [= <-]. split; [by destruct t0|]. split; [by destruct t0|]. intros k.
  transitivity (b_by_key (event_observe (r_state (c_router c)) (k0, t0) (n_result params)).1 !! k);
    [by destruct t0|]. cbn. destruct (json_value (n_result params)) as [v|]; cbn.
  - case_decide as Hk; [subst; by rewrite lookup_alter_eq|by rewrite lookup_alter_ne].
  - case_decide; [|done]. destruct (_ !! k); cbn; [|done]. by rewrite app_nil_r.
Qed.

(** Frames other than notifications leave the buffers alone. *)
Lemma read_other_buffer frame c c' k :
  (forall m p, frame <> Notify m p) -> read_frame event_callback frame c = Some c' ->
  buffer c' k = buffer c k.
Proof.
  intros Hn. unfold read_frame, buffer. destruct (c_reader c); [|by intros [= <-]].
  destruct frame as [id result|method params|]; [|by destruct (Hn method params)|by intros [= <-]].
  cbn [dispatch mbind option_bind]. destruct (dispatch_reply id result (c_router c)) as [o r] eqn:Hd.
  apply dispatch_reply_cases in Hd as (_ & Hst & _). cbn.
  destruct o; intros [= <-]; cbn; by rewrite Hst.
Qed.

Lemma read_notify_ignored method params c c' :
  (c_reader c = false \/ r_subscriptions (c_router c) !! n_subscription params = None) ->
  read_frame event_callback (Notify method params) c = Some c' -> c' = c.
Proof.
  unfold read_frame. intros [->|Hs]; [by intros [= <-]|]. destruct (c_reader c) eqn:Hr; [|by intros [= <-]].
  cbn [dispatch]. rewrite Hs. cbn. intros [= <-]. destruct c. cbn in *. by subst.
Qed.

Lemma reader_act a c c' : act a c = Some c' -> c_reader c' = true -> c_reader c = true.
Proof.
  destruct a as [frame|topic params sent|key|key topic acked sent|]; cbn [act].
  - unfold read_frame. destruct (c_reader c) eqn:E; [done|]. intros [= <-]. congruence.
  - intros [= <-]. by destruct (event_subscribe_router topic params sent c) as (_ & -> & _).
  - by intros [= <-].
  - intros [= <-]. unfold unsubscribe. destruct acked; [|done].
    destruct (find_map _ _); [|done]. unfold send_request. cbn. by destruct sent.
  - by intros [= <-].
Qed.

Lemma reader_act_all l c c' : act_all l c = Some c' -> c_reader c' = true -> c_reader c = true.
Proof.
  revert c. induction l as [|a l IH]; intros c; cbn [act_all]; [by intros [= <-]|].
  intros (c1 & H1 & H2)%bind_Some Hr. eapply reader_act; [done|]. by eapply IH.
Qed.

(** ** Before the acknowledgment *)

Lemma requests_read frame c c' i :
  other_reply i (Recv frame) -> read_frame event_callback frame c = Some c' ->
  r_requests (c_router c') !! i = r_requests (c_router c) !! i.
Proof.
  intros Ho. unfold read_frame. destruct (c_reader c); [|by intros [= <-]].
  destruct frame as [id result|method params|]; cbn [dispatch].
  - cbn in Ho. destruct (dispatch_reply id result (c_router c)) as [o r] eqn:Hd.
    apply dispatch_reply_cases in Hd as (Hreq & _). cbn.
    destruct o; intros [= <-]; cbn; rewrite Hreq; by apply lookup_delete_ne.
  - destruct (_ !! _) as [[k t]|]; cbn; intros [= <-]; [by destruct t|done].
  - by intros [= <-].
Qed.

Lemma Pending_act r k t a c c' :
  Routing c -> Pending r k t c -> other_reply r a -> keeps k a -> act a c = Some c' ->
  Pending r k t c'.
Proof.
  intros HR [Hreq Hb] Ho Hk Ha.
  assert (requested c r k) as Hrk by (by exists t).
  pose proof (rt_requested _ HR _ _ Hrk) as Hle.
  destruct a as [frame|topic params sent|key|key topic acked sent|].
  2-5: split; [|
  eapply buffer_act_client; [|exact Hk|exact HR|exact Hle|exact Ha|exact Hb]; intros ? [=]]; cbn [act] in Ha; apply (inj Some) in Ha as <-.
  - cbn [act] in Ha. split; [by rewrite (requests_read _ _ _ _ Ho Ha)|].
    destruct frame as [id result|method params|].
    1, 3: erewrite read_other_buffer; [exact Hb| |exact Ha]; intros ? ? [=].
    destruct (c_reader c) eqn:Hr; [|by rewrite (read_notify_ignored _ _ _ _ (or_introl Hr) Ha)].
    destruct (r_subscriptions (c_router c) !! n_subscription params) as [[k0 t0]|] eqn:Hs;
      [|by rewrite (read_notify_ignored _ _ _ _ (or_intror Hs) Ha)].
    destruct (read_notify_route _ _ _ _ _ _ Hr Hs Ha) as (_ & _ & ->).
    rewrite decide_False; [done|]. intros <-. eapply (rt_either _ HR); [done|by exists t0].
  - destruct (event_subscribe_router topic params sent c) as (_ & _ & -> & _).
    rewrite lookup_insert_ne; [done|]. intros <-. rewrite (rt_fresh _ HR) in Hreq by lia. done.
  - done.
  - destruct (unsubscribe_router key topic acked sent c HR) as (_ & _ & _ & _ & _ & _ & Hother & _).
    apply Hother; [|done]. cbn in Hk. congruence.
  - done.
Qed.

(** ** After the acknowledgment *)

Lemma routes_read frame c c' s k t :
  r_subscriptions (c_router c) !! s = Some (k, t) -> t <> Signature -> other_ack s (Recv frame) ->
  read_frame event_callback frame c = Some c' -> r_subscriptions (c_router c') !! s = Some (k, t).
Proof.
  intros Hs Ht Ho Ha. destruct (c_reader c) eqn:Hr.
  2: { unfold read_frame in Ha. rewrite Hr in Ha. by apply (inj Some) in Ha as <-. }
  destruct frame as [id result|method params|].
  - unfold read_frame in Ha. rewrite Hr in Ha. cbn [dispatch mbind option_bind] in Ha.
    destruct (dispatch_reply id result (c_router c)) as [o r] eqn:Hd.
    assert (r_subscriptions r !! s = Some (k, t)) as Hrs.
    { apply dispatch_reply_cases in Hd as (_ & _ & [->|(key & raw & s0 & _ & -> & Hs0 & _ & ->)]); [done|].
      rewrite lookup_insert_ne; [done|]. intros ->. by apply Ho. }
    cbn in Ha. destruct o; by apply (inj Some) in Ha as <-.
  - destruct (r_subscriptions (c_router c) !! n_subscription params) as [[k0 t0]|] eqn:Hs0;
      [|by rewrite (read_notify_ignored _ _ _ _ (or_intror Hs0) Ha)].
    destruct (read_notify_route _ _ _ _ _ _ Hr Hs0 Ha) as (_ & -> & _).
    destruct t0; try done. rewrite lookup_delete_ne; [done|]. intros <-. congruence.
  - unfold read_frame in Ha. rewrite Hr in Ha. by apply (inj Some) in Ha as <-.
Qed.

Lemma Active_act s k t q a c c' :
  Routing c -> Active s k t q c -> t <> Signature -> other_ack s a -> keeps k a ->
  act a c = Some c' -> c_reader c' = true ->
  Active s k t (q ++ option_list (payload_of s a)) c'.
Proof.
  intros HR [Hs Hb] Ht Ho Hk Ha Hr'. pose proof (reader_act _ _ _ Ha Hr') as Hr.
  assert (routed c s k) as Hsk by (by exists t).
  pose proof (rt_routed _ HR _ _ Hsk) as Hle.
  destruct a as [frame|topic params sent|key|key topic acked sent|].
  2-5: cbn [payload_of option_list]; rewrite app_nil_r; (split; [|
  eapply buffer_act_client; [|exact Hk|exact HR|exact Hle|exact Ha|exact Hb]; intros ? [=]]);
    cbn [act] in Ha; apply (inj Some) in Ha as <-.
  - cbn [act] in Ha. split; [by eapply routes_read|].
    destruct frame as [id result|method params|]; cbn [payload_of].
    1, 3: cbn; rewrite app_nil_r; erewrite read_other_buffer; [exact Hb| |exact Ha]; intros ? ? [=].
    case_decide as Hsub.
    + rewrite <- Hsub in Hs. destruct (read_notify_route _ _ _ _ _ _ Hr Hs Ha) as (_ & _ & ->).
      rewrite decide_True, Hb by done. done.
    + cbn. rewrite app_nil_r.
      destruct (r_subscriptions (c_router c) !! n_subscription params) as [[k0 t0]|] eqn:Hs0;
        [|by rewrite (read_notify_ignored _ _ _ _ (or_intror Hs0) Ha)].
      destruct (read_notify_route _ _ _ _ _ _ Hr Hs0 Ha) as (_ & _ & ->).
      rewrite decide_False; [done|]. intros <-.
      by apply Hsub, (rt_one_route _ HR _ _ k); [exists t0|].
  - destruct (event_subscribe_router topic params sent c) as (_ & _ & _ & -> & _). done.
  - done.
  - destruct (unsubscribe_router key topic acked sent c HR) as (_ & _ & _ & _ & _ & _ & _ & Hother).
    apply Hother; [|done]. cbn in Hk. congruence.
  - done.
Qed.

Lemma Pending_act_all r k t l c c' :
  Routing c -> Pending r k t c -> Forall (other_reply r) l -> Forall (keeps k) l ->
  act_all l c = Some c' -> Pending r k t c'.
Proof.
  revert c. induction l as [|a l IH]; intros c HR HP Ho Hk; cbn [act_all]; [by intros [= <-]|].
  apply Forall_cons in Ho as [Ho1 Ho], Hk as [Hk1 Hk]. intros (c1 & H1 & H2)%bind_Some.
  eapply (IH c1); [by eapply Routing_act|by eapply Pending_act|done..].
Qed.

Lemma Active_act_all s k t q l c c' :
  Routing c -> Active s k t q c -> t <> Signature -> Forall (other_ack s) l -> Forall (keeps k) l ->
  act_all l c = Some c' -> c_reader c' = true -> Active s k t (q ++ omap (payload_of s) l) c'.
Proof.
  revert c q. induction l as [|a l IH]; intros c q HR HA Ht Ho Hk; cbn [act_all].
  { intros [= <-] _. cbn. by rewrite app_nil_r. }
  apply Forall_cons in Ho as [Ho1 Ho], Hk as [Hk1 Hk]. intros (c1 & H1 & H2)%bind_Some Hr.
  cbn [omap list_omap].
  assert (Active s k t (q ++ option_list (payload_of s a)) c1) as HA1.
  { eapply Active_act; try done. by eapply reader_act_all. }
  eapply (IH c1) in HA1; [|by eapply Routing_act|done..].
  rewrite <- app_assoc in HA1. by destruct (payload_of s a).
Qed.

Lemma act_all_app l1 l2 c : act_all (l1 ++ l2) c = act_all l1 c ≫= act_all l2.
Proof.
  revert c. induction l1 as [|a l1 IH]; intros c; cbn [act_all app]; [done|].
  destruct (act a c); cbn; [apply IH|done].
Qed.

(** The acknowledgment itself. *)
Lemma Pending_acked r k t raw s c c' :
  Pending r k t c -> json_u64 raw = Ok s -> c_reader c = true ->
  act (Recv (Reply r (Ok raw))) c = Some c' -> Active s k t [] c' /\ c_reader c' = true.
Proof.
  intros [Hreq Hb] Hraw Hr. cbn [act]. unfold read_frame. rewrite Hr.
  cbn [dispatch mbind option_bind]. unfold dispatch_reply. rewrite Hreq, Hraw. cbn.
  intros [= <-]. split; [|done]. split; [cbn; apply lookup_insert_eq|done].
Qed.

(** A fresh subscription is pending under the next request id and the next key. *)
Lemma subscribe_pending topic params c c' k :
  event_subscribe topic params (Ok tt) c = (Ok k, c') ->
  Pending (c_next_id c) k topic c' /\ c_reader c' = c_reader c.
Proof.
  intros He. pose proof (event_subscribe_router topic params (Ok tt) c) as Hspec.
  rewrite He in Hspec. destruct Hspec as (_ & Hr & Hreq & _ & _ & Hb). cbn [snd] in *.
  assert (k = b_last_key (r_state (c_router c)) + 1) as -> by (cbn in He; congruence).
  unfold Pending, buffer. rewrite Hreq, Hb, !lookup_insert_eq. done.
Qed.
End event_facts.
