(* ===== verification/UpdatesProps.v ===== *)
(** The properties of the subscription clients: account updates, signature
    confirmations and event buffers. *)
From Stdlib Require Import String.
From S2P Require Import Prelude World Float64 Stats Rate Clock Subscription Updates UpdatesFacts EventFacts LoadProps.

Section account_props.
Context `{G : RandSource}.

(** C5: an account update settles the write it carries and every older write to
    the same account, and nothing else: the observation never panics on an
    indexed state, keeps both indexes in agreement, counts the write itself as
    observed when it was pending and each older one as superseded, wakes the
    tasks whose id has nothing left to wait for, and leaves the others parked. *)
Theorem update_settles_older_writes (s : AccountState) (a : Pubkey) (id : Z) (clock : SendClock)
    (now : Instant) :
  Indexed s ->
  exists s', observe s a id clock now = Some s' /\ Indexed s' /\
    pending_writes s' = filter (fun w => ~ settled_by a id w) (pending_writes s) /\
    a_observed s' = a_observed s + (if decide ((id, a) ∈ pending_writes s) then 1 else 0) /\
    a_superseded s' = a_superseded s + Z.of_nat (size (older_writes s a id)) /\
    (forall i, is_Some (a_pending s' !! i) -> a_waiters s' !! i = a_waiters s !! i) /\
    (forall i tx, a_waiters s !! i = Some tx -> a_pending s' !! i = None -> tx ∈ a_woken s') /\
    a_dropped s' = a_dropped s.
Proof.
  intros HI. destruct (observe_spec s a id clock now HI) as (s' & Hs & HI' & [D W P K X] & Hp & Ho & Hu).
  exists s'. by split_and!.
Qed.

(** C24: a subscriber that tracks writes, receives updates, parks waiters and is
    closed never panics; at any time the writes it was given are the observed,
    the superseded and the still pending ones, each counted once; and a task
    parked on a pending id has been woken, has seen its sender dropped, or is
    still parked on an id that is pending. *)
Theorem account_updates_are_settled_once (rng : Rng) (l1 l2 : list UpdateEvent) (id tx : Z) :
  exists s1 s,
    update_run (AccountState_default rng) l1 = Some s1 /\
    update_run (AccountState_default rng) (l1 ++ Awaited id tx :: l2) = Some s /\
    Indexed s /\
    a_observed s + a_superseded s + Z.of_nat (size (pending_writes s)) =
      tracked_writes (AccountState_default rng) (l1 ++ Awaited id tx :: l2) /\
    (a_pending s1 !! id = None \/ Resolved s tx).
Proof.
  pose proof (default_indexed rng) as HI.
  destruct (update_run_spec _ l1 HI) as (s1 & H1 & HI1 & _).
  destruct (update_run_spec _ (l1 ++ Awaited id tx :: l2) HI) as (s & H & HIs & Hc & _).
  exists s1, s. split_and!; try done.
  destruct (a_pending s1 !! id) as [t|] eqn:Hid; [right|by left].
  destruct (update_run_spec _ l2 (await_id_indexed id tx s1 HI1)) as (s' & H' & _ & _ & Hr).
  assert (s' = s) as ->.
  { rewrite update_run_app, H1 in H. cbn [mbind option_bind update_run update_step] in H. congruence. }
  apply Hr, Resolved_awaited. by rewrite Hid.
Qed.

(** * Signatures *)

Context {V : Type} `{!Payloads V}.

Inductive SignatureEvent :=
| Opened (id : Z)
| Notified (id : Z) (payload : string) (clock : SendClock) (now : Instant)
| Parked (id tx : Z)
| Shut.

Definition signature_step (s : SignatureState) (e : SignatureEvent) : SignatureState :=
  match e with
  | Opened id => signature_insert id s
  | Notified id payload clock now => (signature_observe clock now s id payload).1
  | Parked id tx => (signature_await_id id tx s).2
  | Shut => g_on_close s
  end.

(** How many ids a trace adds. *)
Fixpoint opened_ids (s : SignatureState) (l : list SignatureEvent) : Z :=
  match l with
  | [] => 0
  | e :: l =>
      (match e with Opened id => if decide (id ∈ g_pending s) then 0 else 1 | _ => 0 end
       + opened_ids (signature_step s e) l)%Z
  end.

Record Resolving (s : SignatureState) : Prop := {
  rs_confirmed : 0 <= g_confirmed s;
  rs_failed : 0 <= g_failed s;
  rs_first : is_Some (g_first_failure s) <-> 0 < g_failed s;
  rs_waiters : forall i, is_Some (g_waiters s !! i) -> i ∈ g_pending s;
}.

Definition accounted (s : SignatureState) : Z :=
  g_confirmed s + g_failed s + Z.of_nat (size (g_pending s)).

Lemma signature_step_spec s e :
  Resolving s ->
  Resolving (signature_step s e) /\ accounted (signature_step s e) = accounted s + opened_ids s [e].
Proof.
  intros [Hc Hf Hff Hw]. unfold accounted. destruct e as [id|id payload clock now|id tx|];
    cbn [signature_step opened_ids].
  - split; [split; try done; cbn; intros i Hi%Hw; set_solver|]. cbn [signature_insert g_pending g_confirmed g_failed].
    case_decide; [rewrite subseteq_union_1_L by set_solver; lia|].
    rewrite size_union, size_singleton by set_solver. lia.
  - unfold signature_observe. destruct (processed_signature payload) as [err|]; [|cbn; split; [done|lia]].
    case_bool_decide as Hin; [|cbn; split; [done|lia]].
    assert (size (g_pending s) = S (size (g_pending s ∖ {[id]}))) as Hsz.
    { rewrite size_difference by set_solver. rewrite size_singleton.
      assert (size (g_pending s) <> 0)%nat; [|lia]. intros H0%size_empty_inv. set_solver. }
    assert (forall i, is_Some (delete id (g_waiters s) !! i) -> i ∈ g_pending s ∖ {[id]}) as Hw'.
    { intros i [x [Hne Hx]%lookup_delete_Some]. specialize (Hw i (ex_intro _ x Hx)). set_solver. }
    rewrite Hsz. destruct err as [err|]; cbn [fst g_confirmed g_failed g_pending];
      (split; [split; cbn [g_confirmed g_failed g_first_failure g_waiters g_pending]; try done; try lia|lia]).
    split; [lia|]. intros _. done.
  - unfold signature_await_id. case_bool_decide; cbn; [|split; [done|lia]]. split; [|lia].
    split; try done. cbn. intros i Hi. destruct (decide (i = id)) as [->|]; [done|].
    rewrite lookup_insert_ne in Hi by done. auto.
  - cbn. split; [|lia]. split; try done. cbn. intros i [x Hx]. by rewrite lookup_empty in Hx.
Qed.

Lemma signature_run_spec l s :
  Resolving s ->
  Resolving (foldl signature_step s l) /\
  accounted (foldl signature_step s l) = accounted s + opened_ids s l.
Proof.
  revert s. induction l as [|e l IH]; intros s HR; cbn [foldl opened_ids]; [split; [done|lia]|].
  destruct (signature_step_spec s e HR) as [HR1 Hc]. destruct (IH _ HR1) as [HR2 Hc2].
  split; [done|]. rewrite Hc2, Hc. cbn [opened_ids]. lia.
Qed.

(** over any history of subscriptions, notifications, waiters and closes, a
    signature is resolved once: the ids subscribed are the confirmed, the failed
    and the still pending ones; the first failure is recorded exactly when one
    failed; only pending ids have a waiter; and a notification for an id that is
    no longer pending changes nothing but ends its subscription. *)
Theorem signatures_resolve_once (rng : Rng) (l : list SignatureEvent) :
  let s := foldl signature_step (SignatureState_default rng) l in
  g_confirmed s + g_failed s + Z.of_nat (size (g_pending s)) =
    opened_ids (SignatureState_default rng) l /\
  (is_Some (g_first_failure s) <-> 0 < g_failed s) /\
  (forall i, is_Some (g_waiters s !! i) -> i ∈ g_pending s) /\
  (forall id payload clock now err, processed_signature payload = Some err -> id ∉ g_pending s ->
     signature_observe clock now s id payload = (s, Break_)).
Proof.
  intros s. destruct (signature_run_spec l (SignatureState_default rng)) as [[? ? ? ?] Hc].
  { split; cbn; try done. intros i [x Hx]. by rewrite lookup_empty in Hx. }
  split_and!; try done.
  intros id payload clock now err Hp Hn. unfold signature_observe. rewrite Hp.
  by rewrite bool_decide_eq_false_2.
Qed.
End account_props.

Section event_props.
Context {V : Type} `{!Payloads V, !SocketJson} (print_id : Z -> string).

(** C6: on any connection a client can have reached, a subscription other than a
    one-shot signature receives exactly the payloads the server sends for the
    subscription id it was acknowledged with, in order and from the
    acknowledgment on, whatever other subscriptions are opened, dropped or
    acknowledged meanwhile, as long as the server does not hand out its id again
    and the connection stays open. *)
Theorem subscription_delivers_in_order (history l1 l2 : list Action)
    (topic : Topic) (params raw : string) (k s : Z) (c c1 c2 : Connection (EventBuffer V) (Z * Topic)) :
  act_all print_id history (connect EventBuffer_default) = Some c ->
  event_subscribe topic params (Ok tt) c = (Ok k, c1) ->
  topic <> Signature ->
  Forall (other_reply (c_next_id c)) l1 -> Forall (keeps k) (l1 ++ l2) ->
  json_u64 raw = Ok s -> Forall (other_ack s) l2 ->
  act_all print_id (l1 ++ Recv (Reply (c_next_id c) (Ok raw)) :: l2) c1 = Some c2 ->
  c_reader c2 = true ->
  b_by_key (r_state (c_router c2)) !! k = Some (omap (payload_of s) l2) /\
  r_subscriptions (c_router c2) !! s = Some (k, topic).
Proof.
  intros Hh He Ht Ho1 [Hk1 Hk2]%Forall_app Hraw Ho2 Hrun Hr2.
  pose proof (Routing_act_all print_id _ _ _ Routing_connect Hh) as HR.
  destruct (subscribe_pending _ _ _ _ _ He) as [HP _].
  assert (Routing c1) as HR1.
  { replace c1 with (event_subscribe topic params (Ok tt) c).2 by (by rewrite He).
    by apply Routing_subscribe. }
  rewrite act_all_app in Hrun. apply bind_Some in Hrun as (c3 & H3 & Hrun).
  cbn [act_all] in Hrun. apply bind_Some in Hrun as (c4 & H4 & Hrun).
  pose proof (Pending_act_all print_id _ _ _ _ _ _ HR1 HP Ho1 Hk1 H3) as HP3.
  pose proof (Routing_act_all print_id _ _ _ HR1 H3) as HR3.
  assert (c_reader c3 = true) as Hr3.
  { eapply (reader_act print_id); [exact H4|]. by eapply reader_act_all. }
  destruct (Pending_acked print_id _ _ _ _ _ _ _ HP3 Hraw Hr3 H4) as [HA _].
  pose proof (Routing_act print_id _ _ _ HR3 H4) as HR4.
  destruct (Active_act_all print_id _ _ _ _ _ _ _ HR4 HA Ht Ho2 Hk2 Hrun Hr2) as [Hs Hb].
  by split.
Qed.
End event_props.

(** * Witnesses *)

Definition two_writes : AccountState :=
  track 7 1 (track 5 1 (track 5 2 (AccountState_default (seed 1)))).

Lemma update_settles_older_writes_witness :
  exists s', observe two_writes 1 7 (SendClock_new 0 0 8) 0 = Some s' /\
    pending_writes s' = {[(5, 2)]} /\ a_observed s' = 1 /\ a_superseded s' = 1.
Proof.
  destruct (update_settles_older_writes two_writes 1 7 (SendClock_new 0 0 8) 0)
    as (s' & Hs & _ & Hp & Ho & Hu & _).
  { unfold two_writes. apply track_indexed, track_indexed, track_indexed, default_indexed. }
  exists s'. split_and!; [exact Hs|rewrite Hp; by vm_compute|rewrite Ho; by vm_compute
    |rewrite Hu; by vm_compute].
Defined.

(** A JSON library for the witness: a decimal digit is a number, every text is a value. *)
Definition digit_json : SocketJson := {|
  parse_envelope _ := None;
  json_u64 raw := if String.eqb raw "7" then Ok 7 else if String.eqb raw "8" then Ok 8 else Err raw;
|}.
Definition text_payloads : Payloads string := {|
  account_data _ := None; processed_signature _ := Some None; json_value raw := Some raw;
|}.

Definition digits_printed (_ : Z) : string := "7".

Definition slots_opened : list Action := [Open Slot "[]" (Ok tt); Recv (Reply 1 (Ok "8"%string))].
Definition meanwhile : list Action := [Recv (Notify "slotNotification" (mkNotification 8 "early"))].
Definition afterwards : list Action :=
  [Recv (Notify "accountNotification" (mkNotification 7 "first"));
   Recv (Notify "slotNotification" (mkNotification 8 "other"));
   DropKey 1; Cleanup 1 Slot (Ok tt) (Ok tt);
   Recv (Notify "accountNotification" (mkNotification 7 "second"))].

Definition events_at (l : list Action) : Connection (EventBuffer string) (Z * Topic) :=
  default (connect EventBuffer_default)
    (@act_all string text_payloads digit_json digits_printed l (connect EventBuffer_default)).

Lemma subscription_delivers_in_order_witness :
  let c := events_at slots_opened in
  let c1 := (@event_subscribe string digit_json Account "[]" (Ok tt) c).2 in
  exists c2,
    @act_all string text_payloads digit_json digits_printed
      (meanwhile ++ Recv (Reply (c_next_id c) (Ok "7"%string)) :: afterwards) c1 = Some c2 /\
    b_by_key (r_state (c_router c2)) !! 2 = Some ["first"; "second"]%string.
Proof.
  intros c c1.
  destruct (@act_all_total string text_payloads digit_json digits_printed
      (meanwhile ++ Recv (Reply (c_next_id c) (Ok "7"%string)) :: afterwards) c1) as [c2 Hc2].
  exists c2. split; [exact Hc2|].
  apply (@subscription_delivers_in_order string text_payloads digit_json digits_printed slots_opened
           meanwhile afterwards Account "[]" "7" 2 7 c c1 c2).
  - by vm_compute.
  - by vm_compute.
  - done.
  - repeat constructor; by vm_compute.
  - repeat constructor; by vm_compute.
  - done.
  - repeat constructor; by vm_compute.
  - exact Hc2.
  - assert (c_reader <$> Some c2 = Some true) as H; [rewrite <- Hc2; by vm_compute|]. by injection H.
Defined.
