(* ===== verification/Suite.v ===== *)
(** Suites: [cli/src/suite/mod.rs] (lanes, scheduling, verdict), [cli/src/catalog.rs]
    (selection) and the records of [core/src/scenario.rs] and [core/src/catalog.rs].

    What a scenario does on the network is an input, [ScenarioEnv]: whether its
    preflight, topology, body and report succeed.  The scheduler's freedom is two
    functions: [stopped] answers the [n]th time a loop asks whether the run was
    interrupted, [pick] says which of the running scenarios completes next.  Each
    loop has its own, indexed by the lane and by whether it runs the exclusive
    scenarios, so that nothing is assumed about how lanes interleave. *)
From Stdlib Require Import String Ascii.
From S2P Require Import Prelude.

(** * Catalog entries *)

Inductive Family := Redline | Redshift | Redhat.

#[export] Instance Family_eq_dec : EqDecision Family.
Proof. solve_decision. Defined.

Definition family_prefix (f : Family) : string :=
  match f with Redline => "redline" | Redshift => "redshift" | Redhat => "redhat" end.

(** The settings function of a group is left out: only booting uses it. *)
Record ErGroup := mkGroup { g_label : string; g_proxy : bool; g_followers : Z }.

#[export] Instance ErGroup_eq_dec : EqDecision ErGroup.
Proof. solve_decision. Defined.

Inductive Er := Shared (g : ErGroup) | Exclusive (g : ErGroup) | Fresh.

#[export] Instance Er_eq_dec : EqDecision Er.
Proof. solve_decision. Defined.

Definition er_group (e : Er) : option ErGroup :=
  match e with Shared g | Exclusive g => Some g | Fresh => None end.

(** What running a scenario meets, in the order of [RunRecord::run]. *)
Inductive BodyOutcome :=
| Finished (report : option bool) (verdict : Result unit string)
| Failed (error : string)
| Panicked (message : string).

Record ScenarioEnv := mkEnv
  { se_reports : bool; se_attached : bool; se_continuous : bool;
    se_preflight : Result unit string; se_base : Result unit string;
    se_fault_scope : Result unit string; se_ready : bool; se_body : BodyOutcome;
    se_fault_reset : Result unit string; se_persist : Result unit string }.

(** A preparation is compared by address, so it is a number here. *)
Record ScenarioEntry := mkEntry
  { short_name : string; en_er : Er; explicit_only : bool; en_order : Z; en_prepare : option Z;
    en_env : ScenarioEnv }.

Definition entry_name (f : Family) (e : ScenarioEntry) : string :=
  (family_prefix f ++ "/" ++ short_name e)%string.

(** * Records *)

Record RunRecord := mkRecord
  { rr_name : string; rr_outcome : Result unit string; rr_phase : string; rr_report : option bool }.

Definition RunRecord_new (name : string) : RunRecord := mkRecord name (Ok tt) "preflight" None.

Definition RunRecord_failed (name phase reason : string) : RunRecord :=
  mkRecord name (Err reason) phase None.

Definition RunRecord_not_run (name reason : string) : RunRecord :=
  RunRecord_failed name "not run" reason.

Definition passed (r : RunRecord) : bool :=
  (is_ok (rr_outcome r) && match rr_report r with Some p => p | None => true end)%bool.

(** [RunRecord::run] after the topology is up; [state] is the ER context or why there is none. *)
Definition run_body (env : ScenarioEnv) (report : option bool) (body : BodyOutcome) (name : string) :
    RunRecord :=
  let phase := if se_ready env then "scenario"%string else "setup"%string in
  match body with
  | Finished report' verdict =>
      mkRecord name verdict phase (match report' with Some p => Some p | None => report end)
  | Failed error => mkRecord name (Err error) phase report
  | Panicked message => mkRecord name (Err message) "panic" report
  end.

Definition record_run (env : ScenarioEnv) (state : Result unit string) (body : BodyOutcome)
    (name : string) : RunRecord :=
  let report := if se_reports env then Some true else None in
  match (if se_attached env then Ok tt else se_preflight env) with
  | Err e => mkRecord name (Err e) "preflight" report
  | Ok _ =>
      match se_base env with
      | Err e => mkRecord name (Err e) "topology" report
      | Ok _ =>
          match state with
          | Err e => mkRecord name (Err e) "topology" report
          | Ok _ => run_body env report body name
          end
      end
  end.

(** [RunRecord::conclude]. *)
Definition record_conclude (persist : bool) (persisted : Result unit string) (r : RunRecord) : RunRecord :=
  match persist, persisted with
  | true, Err error =>
      if is_ok (rr_outcome r) then mkRecord (rr_name r) (Err error) "persist" (rr_report r) else r
  | _, _ => r
  end.

(** [execute] of [scenario.rs]. *)
Definition scenario_execute (env : ScenarioEnv) (state : Result unit string) (body : BodyOutcome)
    (name : string) : RunRecord :=
  record_conclude (se_reports env && negb (se_continuous env)) (se_persist env)
    (record_run env state body name).

(** The body of [run_shared_scenario]: the faults are reset whatever the scenario did. *)
Definition shared_body (env : ScenarioEnv) : BodyOutcome :=
  match se_fault_scope env with
  | Err e => Failed e
  | Ok _ =>
      match se_body env with
      | Finished report verdict =>
          match se_fault_reset env with
          | Ok _ => Finished report verdict
          | Err e => Failed e
          end
      | other => other
      end
  end.

(** [ScenarioEntry::run]: a shared scenario needs the ER of its group. *)
Definition entry_run (f : Family) (er : option (Result unit string)) (e : ScenarioEntry) : RunRecord :=
  match en_er e with
  | Fresh => scenario_execute (en_env e) (Ok tt) (se_body (en_env e)) (entry_name f e)
  | _ =>
      let er := default (Err "shared scenario requires an ER group"%string) er in
      scenario_execute (en_env e) er (shared_body (en_env e)) (entry_name f e)
  end.

(** * Selection: [catalog::select] *)

Definition matches_target (f : Family) (target : string) (e : ScenarioEntry) : bool :=
  (String.prefix target (entry_name f e) || String.prefix target (short_name e))%bool.
Definition is_target (f : Family) (target : string) (e : ScenarioEntry) : bool :=
  (String.eqb (entry_name f e) target || String.eqb (short_name e) target)%bool.

Definition entry_at (p : ScenarioEntry -> bool) (entries : list ScenarioEntry) (i : nat) : bool :=
  match entries !! i with Some e => p e | None => false end.

(** The entries a target names: exact names before prefixes. *)
Definition target_indices (f : Family) (entries : list ScenarioEntry) (target : string) : list nat :=
  let matching := filter (fun i => entry_at (matches_target f target) entries i = true)
                    (seq 0 (length entries)) in
  let exact := filter (fun i => entry_at (is_target f target) entries i = true) matching in
  if decide (exact = []) then matching else exact.

(** Indices in the order they are first named. *)
Fixpoint add_new (selected : list nat) (indices : list nat) : list nat :=
  match indices with
  | [] => selected
  | i :: indices => add_new (if decide (i ∈ selected) then selected else selected ++ [i]) indices
  end.

Fixpoint select_all (f : Family) (entries : list ScenarioEntry) (targets : list string)
    (selected : list nat) : Result (list nat) string :=
  match targets with
  | [] => Ok selected
  | target :: targets =>
      let indices := target_indices f entries target in
      ensure! negb (bool_decide (indices = [])) else target in
      select_all f entries targets (add_new selected indices)
  end.

(** The error names the target that matches nothing. *)
Definition select (f : Family) (entries : list ScenarioEntry) (targets : list string) :
    Result (list ScenarioEntry) string :=
  if decide (targets = []) then Ok (filter (fun e => explicit_only e = false) entries)
  else let? selected := select_all f entries targets [] in Ok (omap (fun i => entries !! i) selected).

(** * Lanes *)

Record Lane := mkLane { ln_label : string; ln_group : option ErGroup; ln_entries : list ScenarioEntry }.

(** [sort_by_key]: stable. *)
Fixpoint insert_by {A} (k : A -> Z) (x : A) (l : list A) : list A :=
  match l with
  | [] => [x]
  | y :: l => if k x <=? k y then x :: y :: l else y :: insert_by k x l
  end.
Definition sort_by_key {A} (k : A -> Z) (l : list A) : list A := foldr (insert_by k) [] l.

Definition lane_label (e : ScenarioEntry) : string :=
  match er_group (en_er e) with Some g => g_label g | None => "fresh" end.

(** One turn of the loop of [lanes]. *)
Fixpoint add_to_lane (e : ScenarioEntry) (lanes : list Lane) : list Lane :=
  match lanes with
  | [] => [mkLane (lane_label e) (er_group (en_er e)) [e]]
  | l :: lanes =>
      if String.eqb (ln_label l) (lane_label e)
      then mkLane (ln_label l) (ln_group l) (ln_entries l ++ [e]) :: lanes
      else l :: add_to_lane e lanes
  end.

Definition lanes (entries : list ScenarioEntry) : list Lane :=
  foldl (fun ls e => add_to_lane e ls) [] (sort_by_key en_order entries).

(** * Running entries *)

(** What a scheduling loop observes. *)
Record Schedule := mkSchedule { stopped : nat -> bool; pick : nat -> nat }.

(** The inner [while]: start entries while there is room. *)
Fixpoint fill (sched : Schedule) (limit : nat) (failed : bool) (asked : nat)
    (pending running : list ScenarioEntry) : nat * list ScenarioEntry * list ScenarioEntry :=
  match pending with
  | e :: rest =>
      if (negb failed && negb (stopped sched asked) && (length running <? limit)%nat)%bool
      then fill sched limit failed (S asked) rest (running ++ [e])
      else (S asked, pending, running)
  | [] => (S asked, [], running)
  end.

Section run_entries.
Context (f : Family) (sched : Schedule) (limit : nat) (er : option (Result unit string)).

(** The outer loop.  Every turn completes one running scenario, so that the number of
    entries plus one is fuel enough.  [seen] collects the sizes of the running set, the
    largest of which the limit bounds. *)
Fixpoint entries_loop (fuel asked : nat) (failed : bool) (pending running : list ScenarioEntry)
    (records : list RunRecord) (seen : list nat) :
    option (list RunRecord * list ScenarioEntry * nat * bool * list nat) :=
  match fuel with
  | O => None
  | S fuel =>
      let '(asked, pending, running) := fill sched limit failed asked pending running in
      let seen := seen ++ [length running] in
      match running !! (pick sched asked mod length running)%nat with
      | None => Some (records, pending, asked, failed, seen)
      | Some e =>
          let record := entry_run f er e in
          let failed := (failed || (bool_decide (is_Some er) && negb (passed record)))%bool in
          entries_loop fuel asked failed pending
            (delete (pick sched asked mod length running)%nat running) (records ++ [record]) seen
      end
  end.

Definition skip_reason (interrupted : bool) : string :=
  if interrupted then "run interrupted" else "earlier scenario in this ER group failed".

Definition not_run (reason : string) (e : ScenarioEntry) : RunRecord :=
  RunRecord_not_run (entry_name f e) reason.

(** [Suite::run_entries]: its records; the progress counter advances once per record. *)
Definition run_entries (entries : list ScenarioEntry) : option (list RunRecord) :=
  '(records, pending, asked, _, _) ← entries_loop (S (length entries)) 0 false entries [] [] [];
  Some (records ++ (not_run (skip_reason (stopped sched asked)) <$> pending)).
End run_entries.

(** * The suite *)

Record SuiteEnv := mkSuite
  { su_family : Family; su_serial : bool; su_fresh : nat; su_shared : nat;
    su_schedule : string -> bool -> Schedule;
    su_boot : ErGroup -> Result unit string; su_teardown : ErGroup -> Result unit string;
    su_cleanup : Result unit string; su_summary : Result unit string }.

(** [Suite::new] runs Redline one at a time. *)
Definition serial_of (asked : bool) (f : Family) : bool := (asked || bool_decide (f = Redline))%bool.

(** [GroupEr::boot] needs the base. *)
Definition group_boot (u : SuiteEnv) (base : Result unit string) (g : ErGroup) : Result unit string :=
  let? _ := base in su_boot u g.

Definition is_shared (e : ScenarioEntry) : bool :=
  match en_er e with Shared _ => true | _ => false end.

Definition lane_records (u : SuiteEnv) (er : option (Result unit string)) (l : Lane) :
    option (list RunRecord) :=
  let sched := su_schedule u (ln_label l) in
  if (su_serial u || bool_decide (ln_group l = None))%bool then
    run_entries (su_family u) (sched false) (if su_serial u then 1 else su_fresh u)%nat er (ln_entries l)
  else
    let shared := filter (fun e => is_shared e = true) (ln_entries l) in
    let exclusive := filter (fun e => is_shared e = false) (ln_entries l) in
    records ← run_entries (su_family u) (sched false) (su_shared u) er shared;
    if forallb passed records then
      more ← run_entries (su_family u) (sched true) 1 er exclusive;
      Some (records ++ more)
    else Some (records ++ (not_run (su_family u) (skip_reason false) <$> exclusive)).

(** [Lane::run]: boot the group, run, tear down. *)
Definition lane_run (u : SuiteEnv) (base : Result unit string) (l : Lane) : option (list RunRecord) :=
  let group := group_boot u base <$> ln_group l in
  records ← lane_records u group l;
  Some (records ++
    match ln_group l, group with
    | Some g, Some (Ok _) =>
        match su_teardown u g with
        | Ok _ => []
        | Err e => [RunRecord_failed ("group/" ++ ln_label l ++ "/cleanup") "cleanup" e]
        end
    | _, _ => []
    end).

(** [Suite::execute]: parallel lanes are independent, so that their records are those
    of each lane; shared groups come first there. *)
Definition suite_execute (u : SuiteEnv) (base : Result unit string) (entries : list ScenarioEntry) :
    option (list RunRecord) :=
  let ls := lanes entries in
  let ls := if su_serial u then ls
            else sort_by_key (fun l => if bool_decide (ln_group l = None) then 1 else 0) ls in
  records ← mapM (lane_run u base) ls;
  Some (concat records).

Definition is_not_run (r : RunRecord) : bool := String.eqb (rr_phase r) "not run".

Inductive SuiteError :=
| Incomplete (failed not_run total : nat)
| CleanupFailed (error : string)
| NotPersisted (error : string).

(** [Suite::finish]. *)
Definition suite_finish (u : SuiteEnv) (total : nat) (records : list RunRecord) : Result unit SuiteError :=
  let not_run := length (filter (fun r => is_not_run r = true) records) in
  let failed := length (filter (fun r => (negb (is_not_run r) && negb (passed r))%bool = true) records) in
  ensure! ((failed =? 0) && (not_run =? 0))%nat else Incomplete failed not_run total in
  match su_cleanup u with Ok _ => Ok tt | Err e => Err (CleanupFailed e) end.

(** [prepare]: each preparation once, up to the first that fails. *)
Fixpoint prepare (run : Z -> Result unit string) (entries : list ScenarioEntry) (prepared : list Z) :
    Result (list Z) string :=
  match entries with
  | [] => Ok prepared
  | e :: entries =>
      match en_prepare e with
      | None => prepare run entries prepared
      | Some p =>
          if decide (p ∈ prepared) then prepare run entries prepared
          else let? _ := run p in prepare run entries (prepared ++ [p])
      end
  end.

(** The summary report of Redline: [outcome.and(persisted)]. *)
Definition suite_conclude (u : SuiteEnv) (outcome : Result unit SuiteError) : Result unit SuiteError :=
  if decide (su_family u = Redline) then
    let? _ := outcome in match su_summary u with Ok _ => Ok tt | Err e => Err (NotPersisted e) end
  else outcome.

(** [Suite::run]: a failed preparation is a failed base. *)
Definition suite_run (u : SuiteEnv) (base : Result unit string) (preparation : Z -> Result unit string)
    (entries : list ScenarioEntry) : option (Result unit SuiteError) :=
  let base := let? _ := base in let? _ := prepare preparation entries [] in Ok tt in
  records ← suite_execute u base entries;
  Some (suite_conclude u (suite_finish u (length entries) records)).
