(* ===== verification/SuiteProps.v ===== *)
(** A suite succeeds exactly when every selected scenario does. *)
From Stdlib Require Import String.
From S2P Require Import Prelude Suite.

(** * What a passing scenario is *)

(** Everything a scenario meets goes well: it passes its preflight unless attached, has a
    base, and, when it shares an ER, a fault scope that is reset; its body finishes with a
    good verdict; its report is stored when it has one. *)
Definition clean (e : ScenarioEntry) : Prop :=
  let env := en_env e in
  (se_attached env = false -> is_ok (se_preflight env) = true) /\ is_ok (se_base env) = true /\
  (en_er e <> Fresh -> is_ok (se_fault_scope env) = true /\ is_ok (se_fault_reset env) = true) /\
  (exists report, se_body env = Finished report (Ok tt) /\ report <> Some false) /\
  (se_reports env = true -> se_continuous env = false -> is_ok (se_persist env) = true).

Lemma conclude_passed persist persisted r :
  passed (record_conclude persist persisted r) = true <->
  passed r = true /\ (persist = true -> is_ok persisted = true).
Proof.
  unfold record_conclude, passed. destruct r as [name [[]|] phase report], persist, persisted as [[]|];
    cbn; naive_solver.
Qed.

Lemma body_passed env report body name :
  report <> Some false ->
  passed (run_body env report body name) = true <->
  exists report', body = Finished report' (Ok tt) /\ report' <> Some false.
Proof.
  unfold run_body, passed. intros Hr. destruct body as [report' [[]|]|e|m]; cbn [passed rr_outcome rr_report is_ok andb].
  2-4: split; [done|]; intros (? & ? & ?); congruence.
  split; [|intros (r & [= ->] & Hne); destruct r as [[]|]; [done..|]; by destruct report as [[]|]].
  intros Hp. exists report'. split; [done|]. by intros ->.
Qed.

Lemma run_passed env state body name :
  passed (record_run env state body name) = true <->
  (se_attached env = false -> is_ok (se_preflight env) = true) /\ is_ok (se_base env) = true /\
  is_ok state = true /\ exists report, body = Finished report (Ok tt) /\ report <> Some false.
Proof.
  unfold record_run. rewrite <- (body_passed env (if se_reports env then Some true else None) body name)
    by (by destruct (se_reports env)).
  destruct (se_attached env), (se_preflight env) as [[]|], (se_base env) as [[]|], state as [[]|];
    cbn; naive_solver.
Qed.

Lemma execute_passed env state body name :
  passed (scenario_execute env state body name) = true <->
  (se_attached env = false -> is_ok (se_preflight env) = true) /\ is_ok (se_base env) = true /\
  is_ok state = true /\ (exists report, body = Finished report (Ok tt) /\ report <> Some false) /\
  (se_reports env = true -> se_continuous env = false -> is_ok (se_persist env) = true).
Proof.
  unfold scenario_execute. rewrite conclude_passed, run_passed.
  destruct (se_reports env), (se_continuous env); cbn; intuition (discriminate || auto).
Qed.

Lemma shared_body_finished env report :
  shared_body env = Finished report (Ok tt) <->
  is_ok (se_fault_scope env) = true /\ is_ok (se_fault_reset env) = true /\
  se_body env = Finished report (Ok tt).
Proof.
  unfold shared_body.
  destruct (se_fault_scope env) as [[]|], (se_body env) as [? [[]|]| |], (se_fault_reset env) as [[]|];
    cbn; naive_solver.
Qed.

(** A scenario passes iff it is clean and, when it shares an ER, has got one. *)
Lemma entry_passed f er e :
  passed (entry_run f er e) = true <-> clean e /\ (en_er e <> Fresh -> er = Some (Ok tt)).
Proof.
  assert (forall s, is_ok (default (Err s) er) = true <-> er = Some (Ok tt)) as Hs.
  { intros s. destruct er as [[[]|]|]; cbn; naive_solver. }
  unfold entry_run, clean. destruct (en_er e) as [g|g|]; rewrite execute_passed.
  3: { split; [intros (H1 & H2 & _ & H3 & H4)|intros ((H1 & H2 & _ & H3 & H4) & _)]; by split_and!. }
  all: rewrite Hs; setoid_rewrite shared_body_finished; split.
  1, 3: intros (H1 & H2 & H3 & (r & (Hsc & Hre & Hb) & Hr) & H4); split_and!; eauto.
  all: intros ((H1 & H2 & H3 & (r & Hb & Hr) & H4) & H5); destruct H3 as [Hsc Hre]; [done|];
    split_and!; eauto 10.
Qed.

Lemma entry_run_name f er e : rr_name (entry_run f er e) = entry_name f e.
Proof.
  unfold entry_run, scenario_execute, record_conclude, record_run, run_body.
  destruct (en_er e); repeat (case_match; try done).
Qed.

Lemma entry_run_not_skipped f er e : is_not_run (entry_run f er e) = false.
Proof.
  unfold entry_run, scenario_execute, record_conclude, record_run, run_body, is_not_run.
  destruct (en_er e); repeat (case_match; simplify_eq/=; try done).
Qed.

(** * The scheduling loop *)

Section loop.
Context (f : Family) (sched : Schedule) (limit : nat) (er : option (Result unit string)).

(** A reason not to start more: an interruption, or a failure in a group. *)
Definition halted (failed : bool) : Prop := failed = true \/ exists n, stopped sched n = true.

Lemma fill_spec failed asked pending running asked' pending' running' :
  fill sched limit failed asked pending running = (asked', pending', running') ->
  exists started, pending = started ++ pending' /\ running' = running ++ started /\
    ((length running <= limit)%nat -> (length running' <= limit)%nat) /\
    (pending' = [] \/ halted failed \/ (limit <= length running')%nat).
Proof.
  revert asked running. induction pending as [|e pending IH]; intros asked running; cbn [fill].
  { intros [= _ <- <-]. exists []. rewrite !app_nil_r. split_and!; auto. }
  destruct (negb failed && negb (stopped sched asked) && (length running <? limit)%nat) eqn:Hc.
  - apply andb_true_iff in Hc as [_ Hlt%Nat.ltb_lt]. intros (started & -> & -> & Hle & Hor)%IH.
    exists (e :: started). split_and!; [done|by rewrite <- app_assoc| |done].
    intros _. apply Hle. rewrite length_app. cbn. lia.
  - intros [= _ <- <-]. exists []. rewrite !app_nil_r. split_and!; auto. right. unfold halted.
    apply andb_false_iff in Hc as [[Hf|Hs]%andb_false_iff|Hl%Nat.ltb_ge]; [| |by right].
    + apply negb_false_iff in Hf. auto.
    + apply negb_false_iff in Hs. eauto.
Qed.

(** What the loop leaves: the entries it ran, in completion order, and those it did not. *)
Lemma entries_loop_spec fuel asked failed pending running ran seen :
  (0 < limit)%nat -> (length running <= limit)%nat -> (length pending + length running < fuel)%nat ->
  exists ran' pending' asked' failed' seen',
    entries_loop f sched limit er fuel asked failed pending running (entry_run f er <$> ran) seen =
      Some (entry_run f er <$> ran ++ ran', pending', asked', failed', seen ++ seen') /\
    pending ++ running ≡ₚ ran' ++ pending' /\ Forall (fun n => (n <= limit)%nat) seen' /\
    (pending' = [] \/ halted failed' ) /\
    (failed' = true -> failed = true \/ is_Some er /\ exists e, e ∈ ran' /\ passed (entry_run f er e) = false).
Proof.
  intros Hlim. revert asked failed pending running ran seen.
  induction fuel as [|fuel IH]; intros asked failed pending running ran seen Hle Hfuel; [lia|].
  cbn [entries_loop].
  destruct (fill sched limit failed asked pending running) as [[asked1 pending1] running1] eqn:Hfill.
  apply fill_spec in Hfill as (started & -> & -> & Hle1 & Hor). specialize (Hle1 Hle).
  set (i := (pick sched asked1 mod length (running ++ started))%nat).
  destruct ((running ++ started) !! i) as [e|] eqn:Hi; cycle 1.
  { assert (running ++ started = []) as Hnil.
    { destruct (running ++ started) as [|x l] eqn:E; [done|]. exfalso. apply lookup_ge_None in Hi.
      subst i. pose proof (Nat.mod_upper_bound (pick sched asked1) (length (x :: l))). cbn in *. lia. }
    apply app_nil in Hnil as [-> ->]. exists [], pending1, asked1, failed, [0%nat].
    rewrite !app_nil_r. split_and!; try done; [repeat constructor; lia| |by left].
    destruct Hor as [?|[?|?]]; auto. cbn in *. lia. }
  pose proof (delete_Permutation _ _ _ Hi) as Hperm.
  pose proof (Permutation_length Hperm) as Hlen. cbn in Hlen.
  rewrite !length_app in *.
  change (entry_run f er <$> ran) with (fmap (entry_run f er) ran).
  replace ((entry_run f er <$> ran) ++ [entry_run f er e]) with (entry_run f er <$> ran ++ [e])
    by (by rewrite fmap_app).
  edestruct (IH asked1 (failed || (bool_decide (is_Some er) && negb (passed (entry_run f er e))))%bool
    pending1 (delete i (running ++ started)) (ran ++ [e])) as
    (ran' & pending' & asked' & failed' & seen' & Hrun & Hp & Hseen & Hh & Hf'); [lia|lia|].
  rewrite Hrun. exists (e :: ran'), pending', asked', failed', ((length running + length started)%nat :: seen').
  rewrite <- !app_assoc. split_and!; try done.
  - cbn. rewrite <- Hp, Permutation_middle, <- Hperm, (Permutation_app_comm started), <- app_assoc. done.
  - by constructor.
  - intros Hft%Hf'. destruct Hft as [Hft|(Her & e' & He' & Hn)].
    + apply orb_true_iff in Hft as [?|[Her%bool_decide_eq_true Hn]%andb_true_iff]; [by left|right].
      split; [done|]. exists e. split; [set_solver|by apply negb_true_iff].
    + right. split; [done|]. exists e'. split; [set_solver|done].
Qed.
End loop.

(** * Records of a list of entries *)

Section records.
Context (f : Family).

(** A scenario was run, or skipped for some reason. *)
Definition Recorded (e : ScenarioEntry) (r : RunRecord) : Prop :=
  (exists er, r = entry_run f er e) \/ exists reason, r = not_run f reason e.

(** One record per entry; and when nothing interrupts ([quiet]) and all entries pass, all
    records do. *)
Record Tally (er : option (Result unit string)) (quiet : Prop) (entries : list ScenarioEntry)
    (records : list RunRecord) : Prop := {
  tally_each : exists l, l ≡ₚ entries /\ Forall2 Recorded l records;
  tally_passed : quiet -> Forall (fun e => passed (entry_run f er e) = true) entries ->
    Forall (fun r => passed r = true) records;
}.

Lemma Recorded_run er l : Forall2 Recorded l (entry_run f er <$> l).
Proof. induction l; constructor; [left; by eexists|done]. Qed.

Lemma Recorded_skipped reason l : Forall2 Recorded l (not_run f reason <$> l).
Proof. induction l; constructor; [right; by eexists|done]. Qed.

Lemma Tally_app er quiet es1 es2 rs1 rs2 :
  Tally er quiet es1 rs1 -> Tally er quiet es2 rs2 -> Tally er quiet (es1 ++ es2) (rs1 ++ rs2).
Proof.
  intros [(l1 & H1 & R1) P1] [(l2 & H2 & R2) P2]. split.
  - exists (l1 ++ l2). split; [by rewrite H1, H2|by apply Forall2_app].
  - intros Hq [? ?]%Forall_app. apply Forall_app. auto.
Qed.

Lemma Tally_perm er quiet es es' rs : es ≡ₚ es' -> Tally er quiet es rs -> Tally er quiet es' rs.
Proof.
  intros Hp [(l & H & R) P]. split; [exists l; by rewrite <- Hp|].
  intros Hq. rewrite <- Hp. by apply P.
Qed.

Lemma Tally_weaken er (quiet quiet' : Prop) es rs :
  (quiet' -> quiet) -> Tally er quiet es rs -> Tally er quiet' es rs.
Proof. intros Hq [E P]. split; [done|]. auto. Qed.

(** [run_entries] always ends and records every entry. *)
Lemma run_entries_tally sched limit er entries :
  (0 < limit)%nat ->
  exists records, run_entries f sched limit er entries = Some records /\
    Tally er (forall n, stopped sched n = false) entries records.
Proof.
  intros Hlim. unfold run_entries.
  destruct (entries_loop_spec f sched limit er (S (length entries)) 0 false entries [] [] [])
    as (ran & skipped & asked & failed & seen & Hrun & Hp & _ & Hh & Hf); [done|cbn; lia..|].
  rewrite app_nil_r in Hp. cbn [fmap list_fmap app] in Hrun. rewrite Hrun. cbn [mbind option_bind].
  eexists. split; [done|]. split.
  - exists (ran ++ skipped). split; [done|].
    apply Forall2_app; [apply Recorded_run|apply Recorded_skipped].
  - intros Hq. rewrite Hp. intros [Hran Hsk]%Forall_app.
    assert (skipped = []) as ->.
    { destruct Hh as [->|[Hft|[n Hn]]]; [done| |by rewrite Hq in Hn].
      destruct (Hf Hft) as [?|(_ & e & He & Hn)]; [done|].
      rewrite Forall_forall in Hran. rewrite (Hran e He) in Hn. done. }
    rewrite app_nil_r. by apply Forall_fmap.
Qed.
End records.

(** * Lanes *)

Lemma insert_by_perm {A} (k : A -> Z) x l : insert_by k x l ≡ₚ x :: l.
Proof.
  induction l as [|y l IH]; cbn; [done|]. case_match; [done|]. rewrite IH. apply Permutation_swap.
Qed.

Lemma sort_by_key_perm {A} (k : A -> Z) l : sort_by_key k l ≡ₚ l.
Proof. induction l as [|x l IH]; cbn; [done|]. by rewrite insert_by_perm, IH. Qed.

Lemma add_to_lane_entries e ls :
  concat (ln_entries <$> add_to_lane e ls) ≡ₚ concat (ln_entries <$> ls) ++ [e].
Proof.
  induction ls as [|l ls IH]; cbn; [done|]. case_match; cbn.
  - rewrite <- !app_assoc. by rewrite (Permutation_app_comm [e]).
  - by rewrite IH, app_assoc.
Qed.

(** Every entry is in exactly one lane. *)
Lemma lanes_partition entries : concat (ln_entries <$> lanes entries) ≡ₚ entries.
Proof.
  unfold lanes. rewrite <- (sort_by_key_perm en_order entries) at 2.
  generalize (sort_by_key en_order entries) as es. intros es.
  assert (forall ls, concat (ln_entries <$> foldl (fun ls e => add_to_lane e ls) ls es) ≡ₚ
    concat (ln_entries <$> ls) ++ es) as H; [|by apply (H [])].
  induction es as [|e es IH]; intros ls; cbn; [by rewrite app_nil_r|].
  by rewrite IH, add_to_lane_entries, <- app_assoc.
Qed.

(** No group takes the label of the lane of fresh scenarios. *)
Definition labelled (e : ScenarioEntry) : Prop :=
  match er_group (en_er e) with Some g => g_label g <> "fresh"%string | None => True end.

(** The entries of a lane have its label, and a group iff it has one. *)
Definition lane_ok (l : Lane) : Prop :=
  ((ln_group l = None) <-> ln_label l = "fresh"%string) /\
  Forall (fun e => labelled e /\ lane_label e = ln_label l) (ln_entries l).

Lemma add_to_lane_ok e ls : labelled e -> Forall lane_ok ls -> Forall lane_ok (add_to_lane e ls).
Proof.
  intros He Hls. induction Hls as [|l ls [Hg Hes] Hls IH]; cbn.
  - constructor; [|done]. split; cbn; [|by repeat constructor]. unfold lane_label, labelled in *.
    by destruct (er_group (en_er e)).
  - destruct (String.eqb_spec (ln_label l) (lane_label e)) as [Hl|]; constructor; try done.
    split; [done|]. cbn. apply Forall_app. split; [done|]. by repeat constructor.
Qed.

Lemma lanes_ok entries : Forall labelled entries -> Forall lane_ok (lanes entries).
Proof.
  unfold lanes. intros Hes. rewrite <- (sort_by_key_perm en_order entries) in Hes. revert Hes.
  generalize (sort_by_key en_order entries) as es. intros es Hes.
  assert (forall ls, Forall lane_ok ls -> Forall lane_ok (foldl (fun ls e => add_to_lane e ls) ls es)) as H;
    [|apply H; constructor].
  induction Hes as [|e es He Hes IH]; intros ls Hls; cbn; [done|]. by apply IH, add_to_lane_ok.
Qed.

Lemma lane_ok_group l e : lane_ok l -> e ∈ ln_entries l -> en_er e <> Fresh -> is_Some (ln_group l).
Proof.
  intros [Hg Hes] He Hne. rewrite Forall_forall in Hes. destruct (Hes e He) as [Hl Hlab].
  destruct (ln_group l) as [g|] eqn:E; [done|]. exfalso. destruct Hg as [Hg _].
  unfold labelled, lane_label in *. rewrite (Hg eq_refl) in Hlab. destruct (en_er e); cbn in *; done.
Qed.

(** * The suite *)

Section suite.
Context (u : SuiteEnv).
Hypothesis Hfresh : (0 < su_fresh u)%nat.
Hypothesis Hshared : (0 < su_shared u)%nat.

(** Nothing interrupts the run. *)
Definition uninterrupted : Prop := forall label exclusive n, stopped (su_schedule u label exclusive) n = false.

Lemma lane_records_tally er l :
  exists records, lane_records u er l = Some records /\
    Tally (su_family u) er uninterrupted (ln_entries l) records.
Proof.
  unfold lane_records. case_match.
  { destruct (run_entries_tally (su_family u) (su_schedule u (ln_label l) false)
      (if su_serial u then 1 else su_fresh u)%nat er (ln_entries l)) as (rs & -> & Ht);
      [by case_match; lia|].
    exists rs. split; [done|]. eapply Tally_weaken; [|exact Ht]. intros Hq n. apply Hq. }
  set (shared := filter (fun e => is_shared e = true) (ln_entries l)).
  set (exclusive := filter (fun e => is_shared e = false) (ln_entries l)).
  assert (shared ++ exclusive ≡ₚ ln_entries l) as Hp.
  { subst shared exclusive. induction (ln_entries l) as [|e es IH]; [done|].
    destruct (is_shared e) eqn:He.
    - rewrite filter_cons_True, filter_cons_False by congruence. cbn. by rewrite IH.
    - rewrite filter_cons_False, filter_cons_True by congruence. by rewrite <- Permutation_middle, IH. }
  destruct (run_entries_tally (su_family u) (su_schedule u (ln_label l) false) (su_shared u) er shared)
    as (rs & -> & Ht); [done|].
  apply (Tally_weaken _ _ _ uninterrupted) in Ht; [|intros Hq n; apply Hq]. cbn [mbind option_bind].
  destruct (forallb passed rs) eqn:Hall.
  - destruct (run_entries_tally (su_family u) (su_schedule u (ln_label l) true) 1 er exclusive)
      as (more & -> & Hm); [lia|].
    apply (Tally_weaken _ _ _ uninterrupted) in Hm; [|intros Hq n; apply Hq].
    eexists. split; [done|]. eapply Tally_perm; [exact Hp|]. by apply Tally_app.
  - eexists. split; [done|]. eapply Tally_perm; [exact Hp|].
    destruct Ht as [(l1 & Hl1 & R1) P1]. split.
    + exists (l1 ++ exclusive). split; [by rewrite Hl1|]. apply Forall2_app; [done|apply Recorded_skipped].
    + intros Hq [H1 _]%Forall_app. exfalso. specialize (P1 Hq H1).
      assert (forallb passed rs = true); [|congruence]. apply forallb_forall. intros r Hr.
      rewrite Forall_forall in P1. apply P1. by apply list_elem_of_In.
Qed.

(** The records of a lane: its entries', then those of its teardown. *)
Lemma lane_run_spec base l :
  exists records cleanup, lane_run u base l = Some (records ++ cleanup) /\
    Tally (su_family u) (group_boot u base <$> ln_group l) uninterrupted (ln_entries l) records /\
    Forall (fun r => passed r = false) cleanup /\
    ((forall g, su_teardown u g = Ok tt) -> cleanup = []).
Proof.
  unfold lane_run. destruct (lane_records_tally (group_boot u base <$> ln_group l) l) as (rs & -> & Ht).
  cbn [mbind option_bind]. eexists rs, _. split; [done|]. split; [done|].
  destruct (ln_group l) as [g|]; cbn; [|done]. destruct (group_boot u base g); [|done].
  destruct (su_teardown u g) as [[]|] eqn:E; [done|]. split; [by repeat constructor|].
  intros Htd. by rewrite Htd in E.
Qed.

(** What all lanes record: one record for each of their entries and failures of teardowns. *)
Lemma lanes_run_spec base ls :
  exists recss entries records cleanup,
    mapM (lane_run u base) ls = Some recss /\ concat recss ≡ₚ records ++ cleanup /\
    entries ≡ₚ concat (ln_entries <$> ls) /\ Forall2 (Recorded (su_family u)) entries records /\
    Forall (fun r => passed r = false) cleanup /\
    ((forall g, su_teardown u g = Ok tt) -> cleanup = []) /\
    (uninterrupted ->
     Forall (fun l => Forall (fun e =>
       passed (entry_run (su_family u) (group_boot u base <$> ln_group l) e) = true) (ln_entries l)) ls ->
     Forall (fun r => passed r = true) records).
Proof.
  induction ls as [|l ls (recss & es & rs & cs & Hm & Hp & He & Hr & Hc & Ht & Hok)].
  { exists [], [], [], []. split_and!; try done; constructor. }
  destruct (lane_run_spec base l) as (rs1 & cs1 & Hl & [(es1 & He1 & Hr1) Hok1] & Hc1 & Ht1).
  exists ((rs1 ++ cs1) :: recss), (es1 ++ es), (rs1 ++ rs), (cs1 ++ cs). split_and!.
  - cbn. by rewrite Hl, Hm.
  - cbn. rewrite Hp, <- !app_assoc. apply Permutation_app_head.
    rewrite !app_assoc. by rewrite (Permutation_app_comm cs1).
  - cbn. by rewrite He1, He.
  - by apply Forall2_app.
  - by apply Forall_app.
  - intros H. by rewrite Ht1, Ht.
  - intros Hq [H1 H2]%Forall_cons. apply Forall_app. auto.
Qed.

End suite.

Section verdict.
Context (u : SuiteEnv).

(** The verdict is good iff every record passed and none was skipped. *)
Lemma suite_finish_Ok total records :
  suite_finish u total records = Ok tt <->
  Forall (fun r => passed r = true /\ is_not_run r = false) records /\ su_cleanup u = Ok tt.
Proof.
  unfold suite_finish.
  assert ((length (filter (fun r => (negb (is_not_run r) && negb (passed r))%bool = true) records) =? 0)%nat
    && (length (filter (fun r => is_not_run r = true) records) =? 0)%nat = true <->
    Forall (fun r => passed r = true /\ is_not_run r = false) records) as Hiff.
  { rewrite andb_true_iff, !Nat.eqb_eq. induction records as [|r records IH]; [by split|].
    rewrite Forall_cons, <- IH, !filter_cons. destruct (is_not_run r), (passed r);
      repeat case_decide; try done; cbn [length]; intuition (lia || congruence). }
  destruct (_ && _)%bool eqn:Hb; [|split; [done|]; intros [H _]; by apply Hiff in H].
  destruct (su_cleanup u) as [[]|]; split; try done; [intros _; by rewrite <- Hiff|by intros [_ ?]].
Qed.

Lemma Recorded_passed f e r :
  Recorded f e r -> passed r = true -> is_not_run r = false /\ clean e.
Proof.
  intros [[er ->]|[reason ->]] Hp; [|done]. split; [apply entry_run_not_skipped|].
  by apply entry_passed in Hp as [? _].
Qed.

(** Everything around the scenarios works. *)
Definition sound (base : Result unit string) (preparation : Z -> Result unit string) : Prop :=
  uninterrupted u /\ base = Ok tt /\ (forall p, preparation p = Ok tt) /\
  (forall g, su_boot u g = Ok tt) /\ (forall g, su_teardown u g = Ok tt) /\
  su_cleanup u = Ok tt /\ su_summary u = Ok tt.

Lemma prepare_Ok preparation entries prepared :
  (forall p, preparation p = Ok tt) -> is_ok (prepare preparation entries prepared) = true.
Proof.
  intros Hp. revert prepared. induction entries as [|e entries IH]; intros prepared; cbn; [done|].
  destruct (en_prepare e); [|apply IH]. case_decide; [apply IH|]. rewrite Hp. apply IH.
Qed.

Lemma suite_conclude_Ok outcome :
  suite_conclude u outcome = Ok tt -> outcome = Ok tt.
Proof. unfold suite_conclude. case_decide; [|done]. by destruct outcome as [[]|]. Qed.
End verdict.

(** * Selection *)

Lemma add_new_spec selected indices :
  NoDup selected ->
  NoDup (add_new selected indices) /\ forall i, i ∈ add_new selected indices <-> i ∈ selected \/ i ∈ indices.
Proof.
  revert selected. induction indices as [|j indices IH]; intros selected Hnd; cbn; [set_solver|].
  case_decide as Hj.
  - destruct (IH selected Hnd) as [? Hi]. split; [done|]. intros i. rewrite Hi. set_solver.
  - destruct (IH (selected ++ [j])) as [? Hi].
    { apply NoDup_app. split_and!; [done|set_solver|apply NoDup_singleton]. }
    split; [done|]. intros i. rewrite Hi. set_solver.
Qed.

Lemma target_indices_matches f entries target i :
  i ∈ target_indices f entries target -> entry_at (matches_target f target) entries i = true.
Proof.
  unfold target_indices. case_decide; rewrite !list_elem_of_filter; tauto.
Qed.

(** The selection is an ordered union without repetition: every target contributes, and
    nothing is selected that no target names. *)
Lemma select_all_spec f entries targets selected result :
  NoDup selected -> select_all f entries targets selected = Ok result ->
  NoDup result /\
  (forall target, target ∈ targets -> target_indices f entries target <> []) /\
  (forall i, i ∈ result <-> i ∈ selected \/ exists target, target ∈ targets /\ i ∈ target_indices f entries target).
Proof.
  revert selected. induction targets as [|t targets IH]; intros selected Hnd; cbn [select_all].
  { intros [= <-]. set_solver. }
  case_bool_decide as Ht; cbn [negb]; [done|]. intros Hs.
  destruct (add_new_spec selected (target_indices f entries t) Hnd) as [Hnd' Hin].
  destruct (IH _ Hnd' Hs) as (Hr & Hne & Hi). split; [done|]. split.
  - intros target [->|?]%elem_of_cons; auto.
  - intros i. rewrite Hi, Hin. set_solver.
Qed.

(** C8: a suite always reaches a verdict, whatever order its scenarios complete in and
    wherever it is interrupted; a good verdict means that every selected scenario ran and
    went well from preflight to stored report; and when nothing around the scenarios fails,
    the run is not interrupted and no group is labelled as the fresh lane, a suite whose
    scenarios all go well gets the good verdict. *)
Theorem suite_verdict_is_sound (u : SuiteEnv) (base : Result unit string)
    (preparation : Z -> Result unit string) (entries : list ScenarioEntry) :
  (0 < su_fresh u)%nat -> (0 < su_shared u)%nat ->
  exists verdict, suite_run u base preparation entries = Some verdict /\
    (verdict = Ok tt -> Forall clean entries) /\
    (sound u base preparation -> Forall labelled entries -> Forall clean entries -> verdict = Ok tt).
Proof.
  intros Hf Hs. unfold suite_run, suite_execute.
  set (base' := let? _ := base in let? _ := prepare preparation entries [] in Ok tt).
  set (ls := if su_serial u then lanes entries else _).
  assert (ls ≡ₚ lanes entries) as Hls by (subst ls; case_match; [done|apply sort_by_key_perm]).
  destruct (lanes_run_spec u Hf Hs base' ls)
    as (recss & es & rs & cs & -> & Hp & He & Hr & Hc & Ht & Hok). cbn [mbind option_bind].
  eexists. split; [done|]. rewrite Hls, lanes_partition in He. split.
  - intros [Hall _]%suite_conclude_Ok%suite_finish_Ok. rewrite Hp in Hall.
    apply Forall_app in Hall as [Hall _]. rewrite <- He. clear -Hr Hall.
    induction Hr as [|e r es rs Her Hr IH]; [done|]. apply Forall_cons in Hall as [[Hp _] Hall].
    constructor; [|by apply IH]. by apply (Recorded_passed _ _ _ Her).
  - intros (Hq & -> & Hprep & Hboot & Htd & Hclean & Hsum) Hlab Hgood.
    assert (base' = Ok tt) as Hb'.
    { subst base'. cbn. pose proof (prepare_Ok preparation entries [] Hprep).
      by destruct (prepare preparation entries []). }
    clearbody base'. subst base'. rewrite (Ht Htd), app_nil_r in Hp.
    assert (suite_finish u (length entries) (concat recss) = Ok tt) as ->.
    { apply suite_finish_Ok. split; [|done]. rewrite Hp.
      assert (Forall (fun r => passed r = true) rs) as Hrs.
      { apply Hok; [done|]. rewrite Hls. pose proof (lanes_ok entries Hlab) as Hlok.
        rewrite <- (lanes_partition entries) in Hgood. apply Forall_concat in Hgood. rewrite Forall_fmap in Hgood.
        apply Forall_forall. intros l Hl. rewrite Forall_forall in Hgood. rewrite Forall_forall in Hlok.
        specialize (Hgood l Hl). cbn in Hgood. apply Forall_forall. intros e Hel.
        rewrite Forall_forall in Hgood. apply entry_passed. split; [by apply Hgood|]. intros Hne.
        destruct (lane_ok_group l e (Hlok l Hl) Hel Hne) as [g ->]. cbn. unfold group_boot.
        cbn. by rewrite Hboot. }
      clear -Hr Hrs. induction Hr as [|e r es rs Her Hr IH]; [done|].
      apply Forall_cons in Hrs as [Hpr Hrs]. constructor; [|by apply IH].
      split; [done|]. by apply (Recorded_passed _ _ _ Her). }
    unfold suite_conclude. case_decide; [|done]. cbn. by rewrite Hsum.
Qed.

(** * Witness *)

Definition smooth : ScenarioEnv :=
  mkEnv true false false (Ok tt) (Ok tt) (Ok tt) true (Finished (Some true) (Ok tt)) (Ok tt) (Ok tt).

Definition small_suite : list ScenarioEntry :=
  [mkEntry "alpha" Fresh false 2 None smooth;
   mkEntry "beta" (Shared (mkGroup "default" false 0)) false 1 (Some 4) smooth;
   mkEntry "gamma" (Exclusive (mkGroup "default" false 0)) false 1 (Some 4) smooth].

Definition calm : SuiteEnv :=
  mkSuite Redshift false 2 2 (fun _ _ => mkSchedule (fun _ => false) (fun n => n)) (fun _ => Ok tt)
    (fun _ => Ok tt) (Ok tt) (Ok tt).

Lemma suite_verdict_is_sound_witness :
  suite_run calm (Ok tt) (fun _ => Ok tt) small_suite = Some (Ok tt).
Proof.
  destruct (suite_verdict_is_sound calm (Ok tt) (fun _ => Ok tt) small_suite) as (v & -> & _ & Hv);
    [cbn; lia..|].
  f_equal. apply Hv.
  - by split_and!.
  - by repeat constructor.
  - repeat constructor; cbn; try done; by eexists.
Defined.
