(* ===== verification/Text.v ===== *)
(** Text: the methods of [str] the suite calls, on ASCII strings.

    Searching, splitting, trimming and [parse::<u64>] of the Rust standard library,
    with the laws that the parsers of log lines, metrics and reports rely on.  A
    [char] is one ASCII character, so that byte offsets count characters. *)
From Stdlib Require Import Ascii String.
From S2P Require Import Prelude.

#[local] Open Scope string_scope.
#[local] Open Scope Z_scope.
#[local] Arguments String.append !_ _ : simpl nomatch.

(** * Characters *)

Definition code (c : ascii) : Z := Z.of_nat (nat_of_ascii c).

(** [char::is_whitespace] on ASCII. *)
Definition is_whitespace (c : ascii) : bool :=
  let n := code c in (((9 <=? n) && (n <=? 13)) || (n =? 32))%bool.
Definition is_digit (c : ascii) : bool := ((48 <=? code c) && (code c <=? 57))%bool.
Definition is_upper (c : ascii) : bool := ((65 <=? code c) && (code c <=? 90))%bool.
Definition is_lower (c : ascii) : bool := ((97 <=? code c) && (code c <=? 122))%bool.
Definition is_alphabetic (c : ascii) : bool := (is_upper c || is_lower c)%bool.
Definition is_alphanumeric (c : ascii) : bool := (is_alphabetic c || is_digit c)%bool.
Definition to_lower (c : ascii) : ascii :=
  if is_upper c then ascii_of_nat (nat_of_ascii c + 32) else c.

Definition is_empty (s : string) : bool := match s with EmptyString => true | _ => false end.

(** Every character of [s] satisfies [p]. *)
Fixpoint all_chars (p : ascii -> bool) (s : string) : bool :=
  match s with EmptyString => true | String c s => (p c && all_chars p s)%bool end.

(** [chars().map(f)] and [chars().filter(p)], collected. *)
Fixpoint map_chars (f : ascii -> ascii) (s : string) : string :=
  match s with EmptyString => EmptyString | String c s => String (f c) (map_chars f s) end.
Fixpoint filter_chars (p : ascii -> bool) (s : string) : string :=
  match s with
  | EmptyString => EmptyString
  | String c s => if p c then String c (filter_chars p s) else filter_chars p s
  end.

(** * Prefixes and searching *)

Fixpoint strip_prefix (pat s : string) : option string :=
  match pat, s with
  | EmptyString, _ => Some s
  | String p pat, String c s => if Ascii.eqb p c then strip_prefix pat s else None
  | String _ _, EmptyString => None
  end.

Definition starts_with (pat s : string) : bool := bool_decide (is_Some (strip_prefix pat s)).

Fixpoint contains (pat s : string) : bool :=
  (starts_with pat s
   || match s with EmptyString => false | String _ s => contains pat s end)%bool.

(** [split_once]: the first occurrence. *)
Fixpoint split_once (pat s : string) : option (string * string) :=
  match strip_prefix pat s with
  | Some rest => Some (EmptyString, rest)
  | None =>
      match s with
      | EmptyString => None
      | String c s => '(before, after) ← split_once pat s; Some (String c before, after)
      end
  end.

(** [split] on one character. *)
Fixpoint split (sep : ascii) (s : string) : list string :=
  match s with
  | EmptyString => [EmptyString]
  | String c s =>
      if Ascii.eqb sep c then EmptyString :: split sep s
      else match split sep s with
           | [] => [String c EmptyString]
           | t :: ts => String c t :: ts
           end
  end.

(** [split] on a pattern of several characters; each round consumes a
    character, so that the length of the text is fuel enough. *)
Fixpoint split_str_loop (fuel : nat) (pat s : string) : list string :=
  match fuel with
  | O => [s]
  | S fuel =>
      match split_once pat s with
      | None => [s]
      | Some (before, after) => before :: split_str_loop fuel pat after
      end
  end.
Definition split_str (pat s : string) : list string := split_str_loop (String.length s) pat s.

(** [lines]: split at newlines, a final empty line dropped and a trailing
    carriage return removed. *)
Fixpoint strip_cr (s : string) : string :=
  match s with
  | EmptyString => EmptyString
  | String c EmptyString => if code c =? 13 then EmptyString else s
  | String c s => String c (strip_cr s)
  end.
Fixpoint drop_last_empty (l : list string) : list string :=
  match l with
  | [] => []
  | [s] => if is_empty s then [] else [s]
  | s :: l => s :: drop_last_empty l
  end.
Definition newline : ascii := ascii_of_nat 10.
Definition lines (s : string) : list string := strip_cr <$> drop_last_empty (split newline s).

(** * Trimming *)

Fixpoint trim_start_matches (p : ascii -> bool) (s : string) : string :=
  match s with
  | EmptyString => EmptyString
  | String c rest => if p c then trim_start_matches p rest else s
  end.
Fixpoint trim_end_matches (p : ascii -> bool) (s : string) : string :=
  match s with
  | EmptyString => EmptyString
  | String c rest =>
      match trim_end_matches p rest with
      | EmptyString => if p c then EmptyString else String c EmptyString
      | trimmed => String c trimmed
      end
  end.
Definition trim (s : string) : string := trim_end_matches is_whitespace (trim_start_matches is_whitespace s).

(** [split_whitespace]: the words. *)
Fixpoint words_loop (word s : string) : list string :=
  match s with
  | EmptyString => if is_empty word then [] else [word]
  | String c s =>
      if is_whitespace c
      then if is_empty word then words_loop EmptyString s else word :: words_loop EmptyString s
      else words_loop (word +:+ String c EmptyString) s
  end.
Definition split_whitespace (s : string) : list string := words_loop EmptyString s.

(** [join] of the parts. *)
Fixpoint join (sep : string) (l : list string) : string :=
  match l with
  | [] => EmptyString
  | [s] => s
  | s :: l => s +:+ sep +:+ join sep l
  end.

(** * Numbers *)

Definition digit (c : ascii) : option Z := if is_digit c then Some (code c - 48) else None.

(** The loop of [from_str] on an unsigned integer below [bound]: checked
    multiplication and addition. *)
Fixpoint parse_digits (bound acc : Z) (s : string) : option Z :=
  match s with
  | EmptyString => Some acc
  | String c s =>
      d ← digit c;
      let acc := acc * 10 + d in
      if acc <? bound then parse_digits bound acc s else None
  end.

Definition parse_u64 (s : string) : option Z :=
  match s with
  | EmptyString => None
  | String c rest =>
      if Ascii.eqb c "+" then if is_empty rest then None else parse_digits u64_bound 0 rest
      else parse_digits u64_bound 0 s
  end.

(** [to_string] of an unsigned integer: 20 digits are enough for 64 bits. *)
Definition digit_char (d : Z) : ascii := ascii_of_nat (Z.to_nat (48 + d)).
Fixpoint show_loop (fuel : nat) (n : Z) (rest : string) : string :=
  let rest := String (digit_char (n mod 10)) rest in
  match fuel with
  | O => rest
  | S fuel => if n / 10 =? 0 then rest else show_loop fuel (n / 10) rest
  end.
Definition show_u64 (n : Z) : string := show_loop 19 n EmptyString.

(** [{:0w}]: at least [w] digits. *)
Fixpoint show_padded (w : nat) (n : Z) (rest : string) : string :=
  match w with
  | O => rest
  | S w => show_padded w (n / 10) (String (digit_char (n mod 10)) rest)
  end.
Definition show_width (w : nat) (n : Z) : string :=
  if n <? 10 ^ Z.of_nat w then show_padded w n EmptyString else show_u64 n.

(** * Laws *)

Lemma append_nil_r s : s +:+ EmptyString = s.
Proof. induction s as [|c s IH]; simpl; [done|]. by rewrite IH. Qed.

Lemma append_assoc s t u : (s +:+ t) +:+ u = s +:+ (t +:+ u).
Proof. induction s as [|c s IH]; simpl; [done|]. by rewrite IH. Qed.

Lemma strip_prefix_app pat s : strip_prefix pat (pat +:+ s) = Some s.
Proof. induction pat as [|p pat IH]; simpl; [done|]. by rewrite Ascii.eqb_refl. Qed.

Lemma strip_prefix_Some pat s rest : strip_prefix pat s = Some rest <-> s = pat +:+ rest.
Proof.
  split; [|intros ->; apply strip_prefix_app].
  revert s. induction pat as [|p pat IH]; intros s; simpl; [by intros [= ->]|].
  destruct s as [|c s]; [done|]. destruct (Ascii.eqb_spec p c) as [<-|]; [|done].
  intros H. by rewrite (IH _ H).
Qed.

Lemma starts_with_spec pat s : starts_with pat s = true <-> exists rest, s = pat +:+ rest.
Proof.
  unfold starts_with. rewrite bool_decide_eq_true. split.
  - intros [rest H]. exists rest. by apply strip_prefix_Some.
  - intros [rest H]. exists rest. by apply strip_prefix_Some.
Qed.

Lemma contains_spec pat s : contains pat s = true <-> exists u v, s = u +:+ pat +:+ v.
Proof.
  induction s as [|c s IH]; simpl; rewrite orb_true_iff, starts_with_spec.
  - split.
    + intros [[rest H]|]; [|done]. by exists EmptyString, rest.
    + intros (u & v & H). destruct u; [|done]. left. by exists v.
  - rewrite IH. split.
    + intros [[rest H]|(u & v & ->)]; [by exists EmptyString, rest | by exists (String c u), v].
    + intros ([|c' u] & v & H); [left; by exists v|]. injection H as -> ->. right. by exists u, v.
Qed.

Lemma split_once_app pat (p : ascii) a b :
  all_chars (fun c => negb (Ascii.eqb p c)) a = true ->
  split_once (String p pat) (a +:+ String p pat +:+ b) = Some (a, b).
Proof.
  induction a as [|c a IH]; cbn [all_chars append split_once strip_prefix].
  - intros _. by rewrite Ascii.eqb_refl, strip_prefix_app.
  - intros [Hc Ha]%andb_true_iff. apply negb_true_iff in Hc. rewrite Hc.
    cbn [append] in IH. by rewrite IH.
Qed.

Lemma split_none sep s :
  all_chars (fun c => negb (Ascii.eqb sep c)) s = true -> split sep s = [s].
Proof.
  induction s as [|c s IH]; cbn [all_chars split]; [done|].
  intros [Hc Hs]%andb_true_iff. apply negb_true_iff in Hc. by rewrite Hc, IH.
Qed.

Lemma split_app sep a b :
  all_chars (fun c => negb (Ascii.eqb sep c)) a = true ->
  split sep (a +:+ String sep b) = a :: split sep b.
Proof.
  induction a as [|c a IH]; cbn [all_chars split append]; [by rewrite Ascii.eqb_refl|].
  intros [Hc Hs]%andb_true_iff. apply negb_true_iff in Hc. by rewrite Hc, IH.
Qed.

Lemma all_chars_impl p q s :
  (forall c, p c = true -> q c = true) -> all_chars p s = true -> all_chars q s = true.
Proof.
  intros H. induction s as [|c s IH]; simpl; [done|].
  intros [Hc Hs]%andb_true_iff. by rewrite (H _ Hc), IH.
Qed.

Lemma all_chars_app p s t : all_chars p (s +:+ t) = (all_chars p s && all_chars p t)%bool.
Proof. induction s as [|c s IH]; simpl; [done|]. by rewrite IH, andb_assoc. Qed.

Lemma trim_start_matches_none p s :
  match s with EmptyString => True | String c _ => p c = false end -> trim_start_matches p s = s.
Proof. destruct s as [|c s]; simpl; [done|]. by intros ->. Qed.

Lemma trim_end_matches_none p s :
  all_chars (fun c => negb (p c)) s = true -> trim_end_matches p s = s.
Proof.
  induction s as [|c s IH]; simpl; [done|].
  intros [Hc Hs]%andb_true_iff. apply negb_true_iff in Hc. rewrite IH by done.
  destruct s; [by rewrite Hc|done].
Qed.

Lemma trim_end_matches_app p s t :
  all_chars p t = true -> trim_end_matches p (s +:+ t) = trim_end_matches p s.
Proof.
  intros Ht.
  assert (Hn : trim_end_matches p t = EmptyString).
  { induction t as [|c t IH]; simpl in *; [done|].
    apply andb_true_iff in Ht as [Hc Ht]. by rewrite IH, Hc. }
  induction s as [|c s IH]; simpl; [done|]. by rewrite IH.
Qed.

Lemma trim_end_matches_last p s c :
  p c = false -> trim_end_matches p (s +:+ String c EmptyString) = s +:+ String c EmptyString.
Proof.
  intros Hc. induction s as [|d s IH]; simpl; [by rewrite Hc|]. rewrite IH. by destruct s.
Qed.

Lemma trim_end_matches_first p c s :
  p c = false -> exists t, trim_end_matches p (String c s) = String c t.
Proof. intros Hc. simpl. destruct (trim_end_matches p s); [rewrite Hc|]; eauto. Qed.

Lemma trim_plain s : all_chars (fun c => negb (is_whitespace c)) s = true -> trim s = s.
Proof.
  intros H. unfold trim. rewrite trim_start_matches_none.
  - by apply trim_end_matches_none.
  - destruct s as [|c s]; [done|]. simpl in H. apply andb_true_iff in H as [H _].
    by apply negb_true_iff in H.
Qed.

(** A leading space is trimmed. *)
Lemma trim_space s : trim (String " " s) = trim s.
Proof. done. Qed.

Lemma comma_space s : ", " +:+ s = String "," (String " " s).
Proof. done. Qed.

(** * Decimal numbers are read back *)

Lemma digit_char_code d : 0 <= d < 10 -> digit (digit_char d) = Some d.
Proof.
  intros H. assert (d ∈ seqZ 0 10) as Hd by (apply elem_of_seqZ; lia).
  clear H. revert d Hd. apply Forall_forall. cbn. by repeat constructor.
Qed.

Lemma digit_char_digit d : 0 <= d < 10 -> is_digit (digit_char d) = true.
Proof.
  intros H%digit_char_code. unfold digit in H. by destruct (is_digit _).
Qed.

Lemma parse_digits_char bound acc d v s :
  0 <= d < 10 -> v = acc * 10 + d -> v < bound ->
  parse_digits bound acc (String (digit_char d) s) = parse_digits bound v s.
Proof.
  intros Hd -> Hv. cbn [parse_digits]. rewrite digit_char_code by lia. cbn.
  destruct (Z.ltb_spec (acc * 10 + d) bound); [done|lia].
Qed.

Lemma parse_digits_show bound fuel n k :
  0 <= n < bound -> n < 10 ^ (Z.of_nat fuel + 1) ->
  parse_digits bound 0 (show_loop fuel n k) = parse_digits bound n k.
Proof.
  revert n k. induction fuel as [|fuel IH]; intros n k Hn Hf; cbn [show_loop];
    pose proof (Z.mod_pos_bound n 10 ltac:(lia)) as Hm;
    pose proof (Z.div_mod n 10 ltac:(lia)) as Hd.
  - change (10 ^ (Z.of_nat 0 + 1)) with 10 in Hf. apply parse_digits_char; [lia| |lia].
    rewrite Z.mod_small; lia.
  - assert (n / 10 < 10 ^ (Z.of_nat fuel + 1)).
    { apply Z.div_lt_upper_bound; [lia|]. rewrite <- Z.pow_succ_r by lia.
      replace (Z.succ (Z.of_nat fuel + 1)) with (Z.of_nat (S fuel) + 1) by lia. lia. }
    destruct (Z.eqb_spec (n / 10) 0) as [H0|]; [|rewrite IH by lia];
      apply parse_digits_char; lia.
Qed.

Lemma show_loop_digits fuel n k :
  0 <= n -> all_chars is_digit (show_loop fuel n k) = all_chars is_digit k.
Proof.
  revert n k. induction fuel as [|fuel IH]; intros n k Hn; cbn [show_loop];
    pose proof (Z.mod_pos_bound n 10 ltac:(lia)) as Hm.
  - cbn [all_chars]. by rewrite digit_char_digit by lia.
  - destruct (_ =? 0); [|rewrite IH by (apply Z.div_pos; lia)];
      cbn [all_chars]; by rewrite digit_char_digit by lia.
Qed.

Lemma show_u64_digits n : 0 <= n -> all_chars is_digit (show_u64 n) = true.
Proof. intros. unfold show_u64. by rewrite show_loop_digits. Qed.

Lemma show_loop_cons fuel n k : exists c s, show_loop fuel n k = String c s.
Proof.
  revert n k. induction fuel as [|fuel IH]; intros n k; cbn [show_loop]; [by eauto|].
  destruct (_ =? 0); eauto.
Qed.

Lemma parse_show_u64 n : 0 <= n < u64_bound -> parse_u64 (show_u64 n) = Some n.
Proof.
  intros Hn. pose proof (show_u64_digits n ltac:(lia)) as Hd.
  pose proof (parse_digits_show u64_bound 19 n EmptyString Hn) as H. specialize (H ltac:(unfold u64_bound in *; lia)).
  unfold show_u64 in *. destruct (show_loop_cons 19 n EmptyString) as (c & s & E).
  rewrite E in *. unfold parse_u64. cbn [all_chars] in Hd. apply andb_true_iff in Hd as [Hc _].
  destruct (Ascii.eqb_spec c "+") as [->|]; [done|]. exact H.
Qed.

Lemma digit_not_whitespace c : is_digit c = true -> is_whitespace c = false.
Proof. unfold is_digit, is_whitespace. intros [?%Z.leb_le ?%Z.leb_le]%andb_true_iff.
  apply orb_false_iff. split; [apply andb_false_iff; right; apply Z.leb_gt; lia|].
  apply Z.eqb_neq. lia.
Qed.

#[export] Hint Rewrite strip_prefix_app append_nil_r append_assoc : suite.
#[export] Hint Resolve parse_show_u64 show_u64_digits : suite.
