(* ===== verification/Receipt.v ===== *)
(** Commit receipts: [core/src/receipt.rs], with the transaction views of
    [core/src/api/mod.rs] it reads.

    A commit scheduled on the ephemeral rollup announces where its receipt will
    appear; the receipt is a transaction whose log lines say what was settled.  The
    chain is seen through the RPC node: [RpcView] answers the n-th call, so that
    two calls may see different states, and [api_clock] counts the calls.  A call
    at or after the deadline of a search does not return.  Base58 is outside the model: [Base58]. *)
From Stdlib Require Import Ascii String.
From S2P Require Import Prelude World Text.

#[local] Open Scope string_scope.
#[local] Open Scope Z_scope.
#[local] Open Scope list_scope.

(** A transaction signature, by its bytes read as a number. *)
Abbreviation Sig := Z (only parsing).

(** What the code asks of the [pubkey] and [signature] crates. *)
Class Base58 := {
  pubkey_from_str : string -> option Pubkey;
  pubkey_to_string : Pubkey -> string;
  signature_from_str : string -> option Sig;
  signature_to_string : Sig -> string;
}.

(** * Transactions as the RPC node returns them *)

Inductive InstructionError := Custom (code : Z) | OtherInstructionError.
Inductive TransactionError :=
| TxInstructionError (index : Z) (error : InstructionError)
| OtherTransactionError (description : string).

#[export] Instance InstructionError_eq_dec : EqDecision InstructionError.
Proof. solve_decision. Defined.
#[export] Instance TransactionError_eq_dec : EqDecision TransactionError.
Proof. solve_decision. Defined.

(** [option_serializer::OptionSerializer] *)
Inductive OptionSerializer (A : Type) := SerSome (value : A) | SerNone | SerSkip.
Arguments SerSome {A} value.
Arguments SerNone {A}.
Arguments SerSkip {A}.

Record StatusMeta := mkMeta_ { m_err : option TransactionError; m_log_messages : OptionSerializer (list string) }.

(** The decoded message: static keys and the program index of every instruction. *)
Record TxMessage := mkTxMessage { static_account_keys : list Pubkey; program_id_indexes : list Z }.

(** [t_decoded] is what [transaction.decode()] returns. *)
Record ConfirmedTx := mkTx
  { t_slot : Z; t_meta : option StatusMeta; t_decoded : option TxMessage }.

Inductive RcError :=
| RcRpc (error : string)
| RcNoMeta
| RcMissing (what : string)
| RcFailed (what : string)
| RcTimeout.

#[export] Instance RcError_eq_dec : EqDecision RcError.
Proof. solve_decision. Defined.

Definition transaction_meta (tx : ConfirmedTx) : Result StatusMeta RcError := ok_or (t_meta tx) RcNoMeta.

Definition transaction_logs (meta : StatusMeta) : list string :=
  match m_log_messages meta with SerSome logs => logs | SerNone | SerSkip => [] end.

Definition custom_error_code (err : TransactionError) : option Z :=
  match err with
  | TxInstructionError _ (Custom code) => Some code
  | _ => None
  end.

(** * Receipts *)

Definition INTENT_FAILED_CODE : Z := 0x7461636F.
Definition COMMIT_LIMIT_ERR : Z := 0xA0000000.
Definition INTENT_TOO_LARGE_ERR : Z := 0xA0000002.
Definition SPONSORED_COMMIT_LIMIT : Z := 10.
Definition LOG_MARKER : string := "ScheduledCommitSent ".
Definition SCHEDULE_MARKER : string := "Scheduled commit with ID: ".
Definition OUTBOX_MARKER : string := "ScheduledCommitSent outbox: ".
Definition RECEIPT_HISTORY_LIMIT : nat := 64.

(** [topology::OUTBOX_INTENT_ID] *)
Definition OUTBOX_INTENT_ID : Pubkey :=
  5435739880228775452845371622573503979635948935034856995680995162496849412096.

Record CommitReceipt := mkReceipt
  { signature : Sig; commit_id : option Z; payer : option Pubkey;
    included : list Pubkey; excluded : list Pubkey; base_signatures : list Sig;
    requested_undelegation : bool; error_message : option string;
    receipt_err_code : option Z }.

Inductive ReceiptTarget :=
| SignatureTarget (signature : Sig)
| Outbox (address : Pubkey) (intent_id min_slot : Z).

#[export] Instance ReceiptTarget_eq_dec : EqDecision ReceiptTarget.
Proof. unfold Pubkey. solve_decision. Defined.

Definition after_slot (min_slot : Z) (t : ReceiptTarget) : ReceiptTarget :=
  match t with
  | Outbox address intent_id _ => Outbox address intent_id min_slot
  | signature => signature
  end.

Definition sort_keys (l : list Pubkey) : list Pubkey := merge_sort Z.le l.

Definition check_included (expected : list Pubkey) (r : CommitReceipt) : Result unit RcError :=
  ensure! bool_decide (sort_keys (included r) = sort_keys expected)
  else RcFailed "receipt included other accounts" in Ok tt.

Definition check_accounts (expected : list Pubkey) (expect_undelegation : bool) (r : CommitReceipt) :
  Result unit RcError :=
  let? _ := check_included expected r in
  ensure! bool_decide (excluded r = []) else RcFailed "accounts were excluded" in
  ensure! Bool.eqb (requested_undelegation r) expect_undelegation
  else RcFailed "undelegation flag differs" in
  Ok tt.

Definition succeeded (r : CommitReceipt) : bool :=
  (bool_decide (error_message r = None) && bool_decide (receipt_err_code r = None))%bool.

Definition check_success (r : CommitReceipt) : Result unit RcError :=
  ensure! succeeded r else RcFailed "settlement failed" in
  ensure! negb (bool_decide (base_signatures r = [])) else RcFailed "missing base transactions" in
  Ok tt.

Definition DUPLICATE_REJECTIONS : list string :=
  ["InvalidAccountOwner"; "Custom(11)"; "Custom(12)"; "invalid Commit id"].

Definition failure_is_duplicate_rejection (r : CommitReceipt) : bool :=
  match error_message r with
  | Some message => existsb (fun needle => contains needle message) DUPLICATE_REJECTIONS
  | None => false
  end.

(** [confirm] of every base signature in order, by the client of the base chain. *)
Fixpoint confirm_all (confirm : Sig -> Result unit RcError) (l : list Sig) : Result unit RcError :=
  match l with
  | [] => Ok tt
  | s :: l => let? _ := confirm s in confirm_all confirm l
  end.

Definition receipt_confirm (confirm : Sig -> Result unit RcError) (r : CommitReceipt) : Result unit RcError :=
  confirm_all confirm (base_signatures r).

Definition verify (confirm : Sig -> Result unit RcError) (expected : list Pubkey) (undelegate : bool)
    (r : CommitReceipt) : Result unit RcError :=
  match error_message r with
  | Some message =>
      if failure_is_duplicate_rejection r then Ok tt else Err (RcFailed message)
  | None =>
      let? _ := check_accounts expected undelegate r in
      receipt_confirm confirm r
  end.

(** * Reading log lines *)

Section logs.
Context `{B : Base58}.

Definition strip_program_prefix (line : string) : string :=
  default line (strip_prefix "Program log: " line).

Definition intent_id_in_logs (logs : list string) : option Z :=
  find_map (fun line =>
    rest ← strip_prefix SCHEDULE_MARKER (strip_program_prefix line);
    parse_u64 (trim rest)) logs.

Definition receipt_signature_in_logs (logs : list string) : option Sig :=
  find_map (fun line =>
    rest ← strip_prefix "ScheduledCommitSent signature: " (strip_program_prefix line);
    signature_from_str (trim rest)) logs.

Definition receipt_target_in_logs (logs : list string) : option ReceiptTarget :=
  match find_map (fun line =>
          rest ← strip_prefix OUTBOX_MARKER (strip_program_prefix line);
          pubkey_from_str (trim rest)) logs with
  | Some address => intent_id ← intent_id_in_logs logs; Some (Outbox address intent_id 0)
  | None => SignatureTarget <$> receipt_signature_in_logs logs
  end.

Definition pubkey_list (text : string) : list Pubkey :=
  omap (fun token => pubkey_from_str (trim token))
    (split "," (trim_end_matches (Ascii.eqb "]")
      (trim_start_matches (Ascii.eqb "[") (trim text)))).

(** One line of the loop of [parse_logs]; [rest] follows the marker. *)
Definition read_line (rest : string) (r : CommitReceipt) : CommitReceipt :=
  match strip_prefix "id: " rest with
  | Some id_part =>
      mkReceipt (signature r) (token ← head (split "," id_part); parse_u64 (trim token)) (payer r)
        (included r) (excluded r) (base_signatures r) (requested_undelegation r)
        (error_message r) (receipt_err_code r)
  | None =>
  match strip_prefix "payer: " rest with
  | Some p =>
      mkReceipt (signature r) (commit_id r) (pubkey_from_str (trim p)) (included r) (excluded r)
        (base_signatures r) (requested_undelegation r) (error_message r) (receipt_err_code r)
  | None =>
  match strip_prefix "included: " rest with
  | Some l =>
      mkReceipt (signature r) (commit_id r) (payer r) (pubkey_list l) (excluded r)
        (base_signatures r) (requested_undelegation r) (error_message r) (receipt_err_code r)
  | None =>
  match strip_prefix "excluded: " rest with
  | Some l =>
      mkReceipt (signature r) (commit_id r) (payer r) (included r) (pubkey_list l)
        (base_signatures r) (requested_undelegation r) (error_message r) (receipt_err_code r)
  | None =>
  match strip_prefix "signature[" rest with
  | Some indexed =>
      match '(_, text) ← split_once "]: " indexed; signature_from_str (trim text) with
      | Some s =>
          mkReceipt (signature r) (commit_id r) (payer r) (included r) (excluded r)
            (base_signatures r ++ [s]) (requested_undelegation r) (error_message r) (receipt_err_code r)
      | None => r
      end
  | None =>
  if String.eqb (trim rest) "requested undelegation"
  then mkReceipt (signature r) (commit_id r) (payer r) (included r) (excluded r)
         (base_signatures r) true (error_message r) (receipt_err_code r)
  else match strip_prefix "error message: " rest with
  | Some message =>
      mkReceipt (signature r) (commit_id r) (payer r) (included r) (excluded r)
        (base_signatures r) (requested_undelegation r) (Some message) (receipt_err_code r)
  | None => r
  end end end end end end.

Fixpoint parse_lines (logs : list string) (r : CommitReceipt) : CommitReceipt :=
  match logs with
  | [] => r
  | line :: logs =>
      parse_lines logs
        match strip_prefix LOG_MARKER (strip_program_prefix line) with
        | None => r
        | Some rest => read_line rest r
        end
  end.

Definition parse_logs (sig : Sig) (logs : list string) (code : option Z) : CommitReceipt :=
  parse_lines logs (mkReceipt sig None None [] [] [] false None code).

Definition parse_receipt (sig : Sig) (meta : StatusMeta) : CommitReceipt :=
  parse_logs sig (transaction_logs meta) (m_err meta ≫= custom_error_code).

(** Does an instruction of the transaction run the outbox program? *)
Definition runs_outbox (m : TxMessage) : bool :=
  existsb (fun index => bool_decide (static_account_keys m !! Z.to_nat index = Some OUTBOX_INTENT_ID))
    (program_id_indexes m).

Definition parse_outbox_completion (sig : Sig) (tx : ConfirmedTx) : option CommitReceipt :=
  match t_meta tx with
  | None => None
  | Some meta =>
      match m_err meta with
      | Some _ => None
      | None =>
          match t_decoded tx with
          | None => None
          | Some message =>
              if runs_outbox message then
                let receipt := parse_receipt sig meta in
                match commit_id receipt with Some _ => Some receipt | None => None end
              else None
          end
      end
  end.

(** * The chain, call by call *)

Record RpcView := mkView
  { v_transaction : Sig -> Result (option ConfirmedTx) RcError;
    v_history : Pubkey -> nat -> Result (list Sig) RcError }.
Context (api : nat -> RpcView).

Definition get_transaction (t : nat) (s : Sig) : Result (option ConfirmedTx) RcError :=
  v_transaction (api t) s.
Definition get_signatures_for_address (t : nat) (pk : Pubkey) : Result (list Sig) RcError :=
  v_history (api t) pk RECEIPT_HISTORY_LIMIT.

(** The completion of [intent_id] in a transaction that was read. *)
Definition completes (intent_id min_slot : Z) (sig : Sig) (tx : ConfirmedTx) : option CommitReceipt :=
  if t_slot tx <? min_slot then None
  else r ← parse_outbox_completion sig tx;
       if bool_decide (commit_id r = Some intent_id) then Some r else None.

(** The loop of [receipt_for_target_if_present] over an outbox's history. *)
Fixpoint find_completion (t : nat) (intent_id min_slot : Z) (sigs : list Sig) :
  Result (option CommitReceipt) RcError :=
  match sigs with
  | [] => Ok None
  | s :: sigs =>
      let? found := get_transaction t s in
      match found ≫= completes intent_id min_slot s with
      | Some r => Ok (Some r)
      | None => find_completion (S t) intent_id min_slot sigs
      end
  end.

Definition receipt_for_target_if_present (t : nat) (target : ReceiptTarget) :
  Result (option CommitReceipt) RcError :=
  match target with
  | SignatureTarget s =>
      let? found := get_transaction t s in
      match found with
      | None => Ok None
      | Some tx => let? meta := transaction_meta tx in Ok (Some (parse_receipt s meta))
      end
  | Outbox address intent_id min_slot =>
      let? sigs := get_signatures_for_address t address in
      find_completion (S t) intent_id min_slot sigs
  end.

(** One pass of [ensure_receipt_absent]: was a body unreadable? *)
Fixpoint absent_pass (t : nat) (intent_id min_slot : Z) (who : Pubkey) (unreadable : bool)
    (sigs : list Sig) : Result (bool * nat) RcError :=
  match sigs with
  | [] => Ok (unreadable, t)
  | s :: sigs =>
      let? found := get_transaction t s in
      match found with
      | None => absent_pass (S t) intent_id min_slot who true sigs
      | Some tx =>
          match (if t_slot tx <? min_slot then None else parse_outbox_completion s tx) with
          | None => absent_pass (S t) intent_id min_slot who unreadable sigs
          | Some r =>
              ensure! (negb (bool_decide (commit_id r = Some intent_id))
                       || negb (bool_decide (payer r = Some who)))%bool
              else RcFailed "completion is visible" in
              absent_pass (S t) intent_id min_slot who unreadable sigs
          end
      end
  end.

Definition ABSENT_ATTEMPTS : nat := 5.

Fixpoint absent_attempts (attempts t : nat) (address : Pubkey) (intent_id min_slot : Z) (who : Pubkey) :
  Result unit RcError :=
  match attempts with
  | O => Err (RcFailed "receipt absence is unresolved")
  | S attempts =>
      let? sigs := get_signatures_for_address t address in
      let? pass := absent_pass (S t) intent_id min_slot who false sigs in
      if pass.1 then absent_attempts attempts pass.2 address intent_id min_slot who else Ok tt
  end.

Definition ensure_receipt_absent (t : nat) (target : ReceiptTarget) (who : Pubkey) : Result unit RcError :=
  match target with
  | Outbox address intent_id min_slot =>
      absent_attempts ABSENT_ATTEMPTS t address intent_id min_slot who
  | SignatureTarget _ =>
      let? found := receipt_for_target_if_present t target in
      match found with
      | None => Ok tt
      | Some _ => Err (RcFailed "receipt is visible for the rejected target")
      end
  end.

(** * Waiting for the receipt of an intent *)

(** [time::timeout(NETWORK_TIMEOUT, ...)]: a call at the deadline does not return. *)
Record Search := mkSearch
  { s_clock : nat; seen : gset Sig; pending : list Sig; last_fetch_error : option RcError }.

Inductive Progress := Searching (s : Search) | Found (r : CommitReceipt) | Failed (e : RcError)
                    | TimedOut (last : option RcError).

Definition push_pending (sig : Sig) (s : Search) : Search :=
  mkSearch (s_clock s) (seen s) (pending s ++ [sig]) (last_fetch_error s).

(** The [for] over [mem::take(&mut pending)]. *)
Fixpoint sweep (deadline : nat) (intent_id min_slot : Z) (sigs : list Sig) (s : Search) : Progress :=
  match sigs with
  | [] => Searching s
  | sig :: sigs =>
      if (deadline <=? s_clock s)%nat then TimedOut (last_fetch_error s)
      else
        let reply := get_transaction (s_clock s) sig in
        let s := mkSearch (S (s_clock s)) (seen s) (pending s) (last_fetch_error s) in
        match reply with
        | Ok (Some tx) =>
            match completes intent_id min_slot sig tx with
            | Some r => Found r
            | None => sweep deadline intent_id min_slot sigs s
            end
        | Ok None => sweep deadline intent_id min_slot sigs (push_pending sig s)
        | Err e =>
            sweep deadline intent_id min_slot sigs
              (push_pending sig (mkSearch (s_clock s) (seen s) (pending s) (Some e)))
        end
  end.

(** A signature is looked up once it is announced, by a log or by the history. *)
Definition announce (sig : Sig) (s : Search) : Search :=
  if decide (sig ∈ seen s) then s
  else mkSearch (s_clock s) ({[sig]} ∪ seen s) (pending s ++ [sig]) (last_fetch_error s).

Inductive SearchEvent :=
| LogsNext (update : Result string RcError)
| SlotsNext (update : Result unit RcError)
| HistoryTick.

Definition on_search_event (deadline : nat) (validator : Pubkey) (e : SearchEvent) (s : Search) : Progress :=
  match e with
  | LogsNext (Err e) | SlotsNext (Err e) => Failed e
  | LogsNext (Ok text) =>
      match signature_from_str text with
      | None => Failed (RcFailed "signature does not parse")
      | Some sig => Searching (announce sig s)
      end
  | SlotsNext (Ok _) => Searching s
  | HistoryTick =>
      if (deadline <=? s_clock s)%nat then TimedOut (last_fetch_error s)
      else
        let reply := get_signatures_for_address (s_clock s) validator in
        let s := mkSearch (S (s_clock s)) (seen s) (pending s) (last_fetch_error s) in
        match reply with
        | Ok sigs => Searching (fold_left (fun s sig => announce sig s) sigs s)
        | Err e => Searching (mkSearch (s_clock s) (seen s) (pending s) (Some e))
        end
  end.

Definition take_pending (s : Search) : Search := mkSearch (s_clock s) (seen s) [] (last_fetch_error s).

(** The loop, on the events its [select!] sees; when they end, it waits until the deadline. *)
Fixpoint search_loop (deadline : nat) (validator : Pubkey) (intent_id min_slot : Z)
    (events : list SearchEvent) (s : Search) : Progress :=
  match sweep deadline intent_id min_slot (pending s) (take_pending s) with
  | Searching s =>
      match events with
      | [] => TimedOut (last_fetch_error s)
      | e :: events =>
          match on_search_event deadline validator e s with
          | Searching s => search_loop deadline validator intent_id min_slot events s
          | ended => ended
          end
      end
  | ended => ended
  end.

Definition search_result (p : Progress) : Result CommitReceipt RcError :=
  match p with
  | Found r => Ok r
  | Failed e => Err e
  | TimedOut last => Err (default RcTimeout last)
  | Searching _ => Err RcTimeout
  end.

(** [subscribed] is the outcome of the subscriptions that precede the loop. *)
Definition fetch_commit_receipt_by_intent (t deadline : nat) (subscribed : Result unit RcError)
    (events : list SearchEvent) (validator : Pubkey) (intent_id min_slot : Z) : Result CommitReceipt RcError :=
  let? _ := subscribed in
  search_result (search_loop deadline validator intent_id min_slot events (mkSearch t ∅ [] None)).

(** * From the scheduling transaction to its receipt *)

(** [await_transaction], of [api/wait.rs]: the transaction or an error. *)
Context (await_transaction : Sig -> Result ConfirmedTx RcError).

Definition scheduled_receipt_target (commit : Sig) : Result ReceiptTarget RcError :=
  let? tx := await_transaction commit in
  let? meta := transaction_meta tx in
  ensure! bool_decide (m_err meta = None) else RcFailed "scheduling failed" in
  match receipt_target_in_logs (transaction_logs meta) with
  | Some target => Ok (after_slot (t_slot tx) target)
  | None => Err (RcMissing "scheduled receipt target")
  end.

Definition scheduled_intent_id (commit : Sig) : Result Z RcError :=
  let? tx := await_transaction commit in
  let? meta := transaction_meta tx in
  ok_or (intent_id_in_logs (transaction_logs meta)) (RcMissing "scheduled intent ID").

Context (t deadline : nat) (subscribed : Result unit RcError) (events : list SearchEvent).

Definition fetch_receipt_for_target (target : ReceiptTarget) : Result CommitReceipt RcError :=
  match target with
  | SignatureTarget sig =>
      let? tx := await_transaction sig in
      let? meta := transaction_meta tx in
      Ok (parse_receipt sig meta)
  | Outbox address intent_id min_slot =>
      fetch_commit_receipt_by_intent t deadline subscribed events address intent_id min_slot
  end.

Definition fetch_commit_receipt (commit : Sig) : Result CommitReceipt RcError :=
  let? target := scheduled_receipt_target commit in
  fetch_receipt_for_target target.

Definition check_commit (confirm : Sig -> Result unit RcError) (commit : Sig)
    (expected : list Pubkey) (expect_undelegation : bool) : Result CommitReceipt RcError :=
  let? receipt := fetch_commit_receipt commit in
  let? _ := verify confirm expected expect_undelegation receipt in
  Ok receipt.

(** [RpcLogsResponse]: the signature is implied by [for_signature]. *)
Record LogsResponse := mkLogs { l_err : option TransactionError; l_logs : list string }.

(** [CommitWatch::check], with what its two subscriptions deliver for a signature. *)
Definition watch_check (scheduling receipts : Sig -> Result LogsResponse RcError)
    (confirm : Sig -> Result unit RcError) (commit : Sig) (expected : list Pubkey) (undelegate : bool) :
  Result CommitReceipt RcError :=
  let? scheduled := scheduling commit in
  ensure! bool_decide (l_err scheduled = None) else RcFailed "scheduling failed" in
  let? target := ok_or (receipt_target_in_logs (l_logs scheduled))
                   (RcMissing "scheduling logs carry no receipt target") in
  let? target := match target with
                 | Outbox _ _ _ => let? tx := await_transaction commit in
                                   Ok (after_slot (t_slot tx) target)
                 | _ => Ok target
                 end in
  let? receipt := match target with
                  | SignatureTarget sig =>
                      let? logs := receipts sig in
                      Ok (parse_logs sig (l_logs logs) (l_err logs ≫= custom_error_code))
                  | Outbox address intent_id min_slot =>
                      fetch_commit_receipt_by_intent t deadline subscribed events address intent_id min_slot
                  end in
  let? _ := verify confirm expected undelegate receipt in
  Ok receipt.
End logs.
