(* ===== verification/ReceiptProps.v ===== *)
(** Commit receipts: what verifying and waiting for one shows. *)
From Stdlib Require Import Ascii String.
From S2P Require Import Prelude World Text Receipt.

#[local] Open Scope string_scope.
#[local] Open Scope Z_scope.
#[local] Open Scope list_scope.

(** * Base58 *)

(** What the crates document: printing is read back, base58 is alphanumeric,
    and the empty text is neither a key nor a signature. *)
Class Base58Laws (B : Base58) : Prop := {
  pubkey_back : forall k, is_u 256 k -> pubkey_from_str (pubkey_to_string k) = Some k;
  pubkey_chars : forall k, is_u 256 k -> all_chars is_alphanumeric (pubkey_to_string k) = true;
  pubkey_empty : pubkey_from_str EmptyString = None;
  signature_back : forall s, is_u 512 s -> signature_from_str (signature_to_string s) = Some s;
  signature_chars : forall s, is_u 512 s -> all_chars is_alphanumeric (signature_to_string s) = true;
}.

(** Decimal numbers satisfy the laws. *)
Definition decimal (bound : Z) (s : string) : option Z :=
  if is_empty s then None else parse_digits bound 0 s.
Definition show_decimal (n : Z) : string := show_loop 160 n EmptyString.
Definition decimal_base58 : Base58 :=
  {| pubkey_from_str := decimal (2 ^ 256); pubkey_to_string := show_decimal;
     signature_from_str := decimal (2 ^ 512); signature_to_string := show_decimal |}.

Lemma decimal_back w n : 0 <= w <= 512 -> is_u w n -> decimal (2 ^ w) (show_decimal n) = Some n.
Proof.
  intros Hw Hn. unfold decimal, show_decimal. destruct (show_loop_cons 160 n EmptyString) as (c & s & E).
  rewrite E. simpl is_empty. cbv iota. rewrite <- E. rewrite parse_digits_show; [done|done|].
  unfold is_u in Hn. pose proof (Z.pow_le_mono_r 2 w 512 ltac:(lia) ltac:(lia)).
  assert (2 ^ 512 < 10 ^ (Z.of_nat 160 + 1)) by (vm_compute; done). lia.
Qed.

Lemma digits_alphanumeric s : all_chars is_digit s = true -> all_chars is_alphanumeric s = true.
Proof. apply all_chars_impl. unfold is_alphanumeric. intros c ->. apply orb_true_r. Qed.

Lemma decimal_chars w n : is_u w n -> all_chars is_alphanumeric (show_decimal n) = true.
Proof.
  intros [Hn _]. apply digits_alphanumeric. unfold show_decimal. by rewrite show_loop_digits.
Qed.

#[export] Instance decimal_base58_laws : Base58Laws decimal_base58.
Proof.
  split; [| |done| |]; intros n H.
  - apply (decimal_back 256); [lia|exact H].
  - exact (decimal_chars 256 n H).
  - apply (decimal_back 512); [lia|exact H].
  - exact (decimal_chars 512 n H).
Qed.

(** * Verifying a receipt *)

Lemma sort_keys_eq l k : sort_keys l = sort_keys k <-> l ≡ₚ k.
Proof.
  unfold sort_keys. split; intros H.
  - rewrite <- (merge_sort_Permutation Z.le l), <- (merge_sort_Permutation Z.le k). by rewrite H.
  - apply (StronglySorted_unique Z.le); try apply (StronglySorted_merge_sort _).
    by rewrite !merge_sort_Permutation.
Qed.

Lemma confirm_all_Ok confirm l :
  confirm_all confirm l = Ok tt <-> Forall (fun s => confirm s = Ok tt) l.
Proof.
  induction l as [|s l IH]; cbn [confirm_all]; [by split|].
  rewrite Forall_cons, <- IH. destruct (confirm s) as [[]|e]; cbn; [tauto|].
  split; [done|]. by intros [[=] _].
Qed.

(** A receipt verifies exactly when it reports a duplicate rejection, or reports no
    error, includes the expected accounts (as a multiset) and excludes none, agrees on
    undelegation, and the base chain confirms every settlement transaction. *)
Theorem verify_spec confirm expected undelegate r :
  verify confirm expected undelegate r = Ok tt <->
  (exists m needle, error_message r = Some m /\ needle ∈ DUPLICATE_REJECTIONS /\
     exists u v, m = u +:+ needle +:+ v) \/
  (error_message r = None /\ included r ≡ₚ expected /\ excluded r = [] /\
   requested_undelegation r = undelegate /\ Forall (fun s => confirm s = Ok tt) (base_signatures r)).
Proof.
  unfold verify, failure_is_duplicate_rejection. destruct (error_message r) as [m|].
  - destruct (existsb _ _) eqn:E.
    + split; [intros _; left|done]. apply existsb_exists in E as (needle & Hin & Hc).
      apply contains_spec in Hc. exists m, needle. by rewrite list_elem_of_In.
    + split; [done|]. intros [(m' & needle & [= <-] & Hin & Hc)|(? & _)]; [|done].
      apply contains_spec in Hc. apply list_elem_of_In in Hin.
      assert (existsb (fun n => contains n m) DUPLICATE_REJECTIONS = true)
        by (apply existsb_exists; eauto). congruence.
  - unfold check_accounts, check_included, receipt_confirm. rewrite <- confirm_all_Ok, <- sort_keys_eq.
    repeat case_bool_decide; cbn; [|naive_solver..].
    destruct (Bool.eqb_spec (requested_undelegation r) undelegate); cbn; [|naive_solver].
    split; [intros Hk; right; by rewrite Hk | by intros [(? & ? & ? & _)|(_ & _ & _ & _ & ?)]].
Qed.

(** * Waiting for a receipt *)

Section search.
Context `{B : Base58} (api : nat -> RpcView) (deadline : nat) (validator : Pubkey) (intent_id min_slot : Z).

Abbreviation sweep_ := (sweep api deadline intent_id min_slot) (only parsing).
Abbreviation loop_ := (search_loop api deadline validator intent_id min_slot) (only parsing).

Lemma read_line_signature rest r : signature (read_line rest r) = signature r.
Proof. unfold read_line. by repeat case_match. Qed.

Lemma parse_receipt_signature sig meta : signature (parse_receipt sig meta) = sig.
Proof.
  unfold parse_receipt, parse_logs. set (r := mkReceipt _ _ _ _ _ _ _ _ _).
  change sig with (signature r). clearbody r. revert r.
  induction (transaction_logs meta) as [|line logs IH]; intros r; cbn [parse_lines]; [done|].
  rewrite IH. case_match; [apply read_line_signature|done].
Qed.

(** [r] is the completion some read of [sig] returned. *)
Definition read_completion (sig : Sig) (r : CommitReceipt) : Prop :=
  exists t tx, (t < deadline)%nat /\ get_transaction api t sig = Ok (Some tx) /\
    completes intent_id min_slot sig tx = Some r.

(** Where the search learns of a signature. *)
Definition announced (events : list SearchEvent) (sig : Sig) : Prop :=
  (exists text, LogsNext (Ok text) ∈ events /\ signature_from_str text = Some sig) \/
  (exists t sigs, get_signatures_for_address api t validator = Ok sigs /\ sig ∈ sigs).

Lemma completes_spec sig tx r :
  completes intent_id min_slot sig tx = Some r ->
  commit_id r = Some intent_id /\ min_slot <= t_slot tx /\ signature r = sig /\
  exists meta message, t_meta tx = Some meta /\ m_err meta = None /\
    t_decoded tx = Some message /\ runs_outbox message = true /\ r = parse_receipt sig meta.
Proof.
  unfold completes, parse_outbox_completion. destruct (Z.ltb_spec (t_slot tx) min_slot); [done|].
  destruct (t_meta tx) as [meta|]; [|done]. destruct (m_err meta) eqn:He; [done|].
  destruct (t_decoded tx) as [msg|]; [|done]. destruct (runs_outbox msg) eqn:Hm; [|done].
  destruct (commit_id (parse_receipt sig meta)) eqn:Hid; [|done]. cbn. case_bool_decide; [|done].
  intros [= <-]. repeat split; eauto 10 using parse_receipt_signature.
Qed.

(** ** What is found was announced and read *)

Lemma sweep_found sigs s r :
  sweep_ sigs s = Found r -> exists sig, sig ∈ sigs /\ read_completion sig r.
Proof.
  revert s. induction sigs as [|sig sigs IH]; intros s; cbn [sweep]; [done|].
  destruct (Nat.leb_spec deadline (s_clock s)); [done|].
  destruct (get_transaction api (s_clock s) sig) as [[tx|]|e] eqn:Hg.
  - destruct (completes intent_id min_slot sig tx) as [r'|] eqn:Hc.
    + intros [= <-]. exists sig. split; [left|]. by exists (s_clock s), tx.
    + intros (sig' & ? & ?)%IH. exists sig'. split; [by right|done].
  - intros (sig' & ? & ?)%IH. exists sig'. split; [by right|done].
  - intros (sig' & ? & ?)%IH. exists sig'. split; [by right|done].
Qed.

(** A sweep that goes on keeps what is pending and what it could not read, and
    makes one call per signature. *)
Lemma sweep_searching sigs s s' :
  sweep_ sigs s = Searching s' ->
  s_clock s' = (s_clock s + length sigs)%nat /\ seen s' = seen s /\
  pending s ⊆ pending s' /\ pending s' ⊆ pending s ++ sigs /\
  (length (pending s') <= length (pending s) + length sigs)%nat.
Proof.
  revert s. induction sigs as [|sig sigs IH]; intros s; cbn [sweep].
  - intros [= ->]. cbn. rewrite app_nil_r. repeat split; [lia|set_solver..|lia].
  - destruct (Nat.leb_spec deadline (s_clock s)); [done|].
    destruct (get_transaction api (s_clock s) sig) as [[tx|]|e]; [destruct (completes _ _ _ _); [done|]|..];
      intros (H1 & H2 & H3 & H4 & H5)%IH; cbn in *; rewrite ?length_app in *; cbn in *;
      (split_and!; [lia|done|set_solver +H3|set_solver +H4|lia]).
Qed.

(** Every signature swept without result was read as another transaction, or stays pending. *)
Lemma sweep_kept sigs s s' sig :
  sweep_ sigs s = Searching s' -> sig ∈ sigs ->
  exists t, (s_clock s <= t < s_clock s')%nat /\
    ((exists tx, get_transaction api t sig = Ok (Some tx) /\ completes intent_id min_slot sig tx = None) \/
     ((forall tx, get_transaction api t sig <> Ok (Some tx)) /\ sig ∈ pending s')).
Proof.
  revert s. induction sigs as [|x sigs IH]; intros s; cbn [sweep]; [set_solver|].
  destruct (Nat.leb_spec deadline (s_clock s)); [done|].
  intros Hs Hin. apply elem_of_cons in Hin as [->|Hin].
  - exists (s_clock s). destruct (get_transaction api (s_clock s) x) as [[tx|]|e] eqn:Hg.
    + destruct (completes _ _ _ _) eqn:Hc; [done|].
      apply sweep_searching in Hs as (Ht & _). cbn in Ht. split; [lia|]. left. eauto.
    + apply sweep_searching in Hs as (Ht & _ & Hp & _). cbn in Ht, Hp. split; [lia|]. right.
      split; [by intros ? [=]|]. set_solver.
    + apply sweep_searching in Hs as (Ht & _ & Hp & _). cbn in Ht, Hp. split; [lia|]. right.
      split; [by intros ? [=]|]. set_solver.
  - destruct (get_transaction api (s_clock s) x) as [[tx|]|e]; [destruct (completes _ _ _ _); [done|]|..];
      destruct (IH _ Hs Hin) as (t & Ht & H'); exists t; cbn in Ht; (split; [lia|done]).
Qed.

Lemma announce_fold sigs s :
  let s' := fold_left (fun s sig => announce sig s) sigs s in
  s_clock s' = s_clock s /\ pending s ⊆ pending s' /\ pending s' ⊆ pending s ++ sigs /\
  (length (pending s') <= length (pending s) + length sigs)%nat /\
  seen s ⊆ seen s' /\ list_to_set sigs ⊆ seen s' /\
  (forall sig, sig ∈ seen s' -> sig ∈ seen s \/ sig ∈ pending s').
Proof.
  revert s. induction sigs as [|x sigs IH]; intros s; cbn [fold_left].
  - cbn. rewrite app_nil_r. repeat split; try lia; set_solver.
  - destruct (IH (announce x s)) as (H1 & H2 & H3 & H4 & H6 & H7 & H8).
    unfold announce in *. destruct (decide (x ∈ seen s)) as [Hx|Hx]; cbn in *;
      rewrite ?length_app in *; cbn in *.
    + split_and!; [done|done|set_solver +H3|lia|done|set_solver +Hx H6 H7|done].
    + split_and!; [done|set_solver +H2|set_solver +H3|lia|set_solver +H6|set_solver +H6 H7|].
      intros sig Hs. destruct (H8 _ Hs) as [?|]; [|by right]. set_solver +H H2.
Qed.

Lemma event_pending e s s' :
  on_search_event api deadline validator e s = Searching s' ->
  pending s ⊆ pending s' /\ (s_clock s <= s_clock s' <= S (s_clock s))%nat /\
  (forall sig, sig ∈ pending s' -> sig ∈ pending s \/ announced [e] sig).
Proof.
  destruct e as [[text|?]|[[]|?]|]; cbn; try done.
  - destruct (signature_from_str text) as [x|] eqn:Hx; [|done]. intros [= <-].
    unfold announce. destruct (decide _); cbn; [split_and!; [done|lia..|auto]|].
    split_and!; [set_solver|lia..|]. intros sig [?| ->%list_elem_of_singleton]%elem_of_app; [by left|].
    right. left. exists text. split; [left|done].
  - intros [= <-]. split_and!; [done|lia..|auto].
  - destruct (Nat.leb_spec deadline (s_clock s)); [done|].
    destruct (get_signatures_for_address _ _ _) as [sigs|e] eqn:Hg; intros [= <-]; cbn;
      [|split_and!; [done|lia..|auto]].
    destruct (announce_fold sigs (mkSearch (S (s_clock s)) (seen s) (pending s) (last_fetch_error s)))
      as (H1 & H2 & H3 & _). cbn in *. rewrite H1. split_and!; [done|lia..|].
    intros sig [?|?]%H3%elem_of_app; [by left|]. right. right. eauto.
Qed.

Lemma loop_found all events s r :
  events ⊆ all -> (forall sig, sig ∈ pending s -> announced all sig) ->
  loop_ events s = Found r -> exists sig, announced all sig /\ read_completion sig r.
Proof.
  revert s. induction events as [|e events IH]; intros s Hsub Hp; cbn [search_loop].
  - destruct (sweep _ _ _ _ _ _) as [s'|r'|?|?] eqn:Hs; try done. intros [= <-].
    apply sweep_found in Hs as (sig & Hin & Hr). eauto.
  - destruct (sweep _ _ _ _ _ _) as [s'|r'|?|?] eqn:Hs; try done.
    + destruct (on_search_event _ _ _ _ _) as [s''|?|?|?] eqn:He; try done; [|by destruct e as [[?|?]|[[]|?]|]; cbn in He; repeat case_match].
      apply sweep_searching in Hs as (_ & _ & _ & Hk & _). apply event_pending in He as (_ & _ & He).
      apply IH; [set_solver|]. intros sig [Hin|Hann]%He.
      * apply Hp. set_solver.
      * destruct Hann as [(text & <-%list_elem_of_singleton & Ht)|?]; [left|by right].
        exists text. split; [set_solver|done].
    + intros [= <-]. apply sweep_found in Hs as (sig & Hin & Hr). eauto.
Qed.

(** ** What is announced and readable is found *)

Definition event_ok (e : SearchEvent) : Prop :=
  match e with
  | LogsNext (Ok text) => is_Some (signature_from_str text)
  | SlotsNext (Ok _) | HistoryTick => True
  | _ => False
  end.

(** The node lists at most [RECEIPT_HISTORY_LIMIT] signatures, as asked. *)
Definition history_bounded : Prop :=
  forall t sigs, get_signatures_for_address api t validator = Ok sigs ->
    (length sigs <= RECEIPT_HISTORY_LIMIT)%nat.

(** [e] makes the search learn of [sig], if it did not know it. *)
Definition announces (e : SearchEvent) (sig : Sig) : Prop :=
  match e with
  | LogsNext (Ok text) => signature_from_str text = Some sig
  | HistoryTick => forall t, exists sigs, get_signatures_for_address api t validator = Ok sigs /\ sig ∈ sigs
  | _ => False
  end.

(** Calls that [n] more events may take when [p] signatures are pending. *)
Definition calls (n p : nat) : nat := (S n * (p + RECEIPT_HISTORY_LIMIT * n + 1))%nat.

Lemma sweep_not_late sigs s :
  (s_clock s + length sigs <= deadline)%nat ->
  (exists s', sweep_ sigs s = Searching s') \/ (exists r, sweep_ sigs s = Found r).
Proof.
  revert s. induction sigs as [|sig sigs IH]; intros s Hs; cbn [sweep length] in *; [eauto|].
  destruct (Nat.leb_spec deadline (s_clock s)); [lia|].
  destruct (get_transaction _ _ _) as [[tx|]|e]; [destruct (completes _ _ _ _); [by eauto|]|..];
    apply IH; cbn; lia.
Qed.

Lemma event_not_late e s :
  history_bounded -> event_ok e -> (s_clock s < deadline)%nat ->
  exists s', on_search_event api deadline validator e s = Searching s' /\
    (length (pending s') <= length (pending s) + RECEIPT_HISTORY_LIMIT)%nat /\
    seen s ⊆ seen s' /\ (forall sig, announces e sig -> sig ∈ seen s') /\
    (forall sig, sig ∈ seen s' -> sig ∈ seen s \/ sig ∈ pending s').
Proof.
  intros Hb He Hl. destruct e as [[text|?]|[[]|?]|]; cbn in He |- *; try done.
  - destruct He as [x ->]. eexists. split; [done|]. unfold announce.
    destruct (decide _); cbn; rewrite ?length_app; cbn;
      (split_and!; [unfold RECEIPT_HISTORY_LIMIT; lia|set_solver|intros ? [= <-]; set_solver|set_solver]).
  - eexists. split; [done|]. split_and!; [lia|done|done|auto].
  - destruct (Nat.leb_spec deadline (s_clock s)); [lia|].
    destruct (get_signatures_for_address _ _ _) as [sigs|e] eqn:Hg; (eexists; split; [done|]).
    + destruct (announce_fold sigs (mkSearch (S (s_clock s)) (seen s) (pending s) (last_fetch_error s)))
        as (_ & _ & _ & H4 & H6 & H7 & H8). cbn in *. apply Hb in Hg as Hlen.
      split_and!; [lia|done| |done]. intros sig Ha. destruct (Ha (s_clock s)) as (l & Hl' & Hin).
      rewrite Hg in Hl'. injection Hl' as <-. apply H7. by apply elem_of_list_to_set.
    + cbn. split_and!; [lia|done| |auto]. intros sig Ha. destruct (Ha (s_clock s)) as (l & Hl' & _). congruence.
Qed.

(** Reads of [sig] return [tx] from [t1] on, and nothing else before. *)
Definition readable_from (t1 : nat) (sig : Sig) (tx : ConfirmedTx) : Prop :=
  forall t, get_transaction api t sig = Ok (Some tx) \/
    ((t < t1)%nat /\ forall tx', get_transaction api t sig <> Ok (Some tx')).

Lemma pending_is_found events s sig tx r t1 :
  history_bounded -> Forall event_ok events -> readable_from t1 sig tx ->
  completes intent_id min_slot sig tx = Some r -> sig ∈ pending s ->
  (t1 <= s_clock s + length events)%nat ->
  (s_clock s + calls (length events) (length (pending s)) <= deadline)%nat ->
  exists r', loop_ events s = Found r'.
Proof.
  intros Hb He Hr Hc. revert s. induction He as [|e events He Hes IH]; intros s Hin Ht Hd;
    cbn [search_loop]; unfold calls in Hd; cbn [length] in *;
    (destruct (sweep_not_late (pending s) (take_pending s)) as [(s' & Hs)|(r' & Hs)];
      [cbn; nia| |rewrite Hs; eauto]); rewrite Hs;
    destruct (sweep_kept _ _ _ _ Hs Hin) as (t & Htt & Hk);
    assert (Hp : (t < t1)%nat /\ sig ∈ pending s') by
      (destruct Hk as [(tx' & Hg & Hn)|(Hg & ?)], (Hr t) as [Hg'|[Hlt Hno]];
        [congruence|by destruct (Hno tx')|by destruct (Hg tx)|done]); destruct Hp as [Hp1 Hp2];
    destruct (sweep_searching _ _ _ Hs) as (H1 & _ & _ & _ & H5); cbn in H1, H5, Htt.
  - lia.
  - destruct (event_not_late e s' Hb He) as (s'' & E & Hlen & _); [nia|]. rewrite E.
    destruct (event_pending _ _ _ E) as (Hsub & Hclock & _). apply IH.
    + set_solver.
    + lia.
    + unfold calls. nia.
Qed.

(** One round of the loop keeps a signature it has seen, but could not read, pending. *)
Lemma round_keeps e s s' s'' sig tx r t1 :
  readable_from t1 sig tx -> completes intent_id min_slot sig tx = Some r ->
  sweep_ (pending s) (take_pending s) = Searching s' ->
  on_search_event api deadline validator e s' = Searching s'' ->
  (forall x, x ∈ seen s'' -> x ∈ seen s' \/ x ∈ pending s'') ->
  (sig ∈ seen s -> sig ∈ pending s) -> sig ∈ seen s'' -> sig ∈ pending s''.
Proof.
  intros Hr Hc Hs He Hnew Hinv Hin.
  destruct (sweep_searching _ _ _ Hs) as (_ & Hseen & _). cbn in Hseen.
  destruct (event_pending _ _ _ He) as (Hsub & _). destruct (Hnew _ Hin) as [Hold|]; [|done].
  apply Hsub. rewrite Hseen in Hold. destruct (sweep_kept _ _ _ _ Hs (Hinv Hold)) as (t & _ & Hk).
  destruct Hk as [(tx' & Hg & Hn)|(_ & ?)]; [|done].
  destruct (Hr t) as [?|[_ Hno]]; [congruence|]. by destruct (Hno tx').
Qed.

Lemma announced_is_found es1 e es2 s sig tx r t1 :
  history_bounded -> Forall event_ok (es1 ++ e :: es2) -> readable_from t1 sig tx ->
  completes intent_id min_slot sig tx = Some r -> announces e sig ->
  (sig ∈ seen s -> sig ∈ pending s) -> (t1 <= s_clock s + length es2)%nat ->
  (s_clock s + calls (length (es1 ++ e :: es2)) (length (pending s)) <= deadline)%nat ->
  exists r', loop_ (es1 ++ e :: es2) s = Found r'.
Proof.
  intros Hb He Hr Hc Ha. revert s. induction es1 as [|e1 es1 IH]; intros s Hinv Ht Hd;
    cbn [app] in *; apply Forall_cons in He as [He Hes];
    cbn [search_loop]; unfold calls in Hd; cbn [length] in *;
    (destruct (sweep_not_late (pending s) (take_pending s)) as [(s' & Hs)|(r' & Hs)];
      [cbn; nia| |rewrite Hs; eauto]); rewrite Hs;
    destruct (sweep_searching _ _ _ Hs) as (H1 & _ & _ & _ & H5); cbn in H1, H5.
  - destruct (event_not_late e s' Hb He) as (s'' & E & Hlen & _ & Hann & Hnew); [nia|]. rewrite E.
    destruct (event_pending _ _ _ E) as (_ & Hclock & _).
    apply (pending_is_found es2 s'' sig tx r t1 Hb Hes Hr Hc); [|lia|unfold calls; nia].
    eapply round_keeps; eauto.
  - destruct (event_not_late e1 s' Hb He) as (s'' & E & Hlen & _ & _ & Hnew); [nia|]. rewrite E.
    destruct (event_pending _ _ _ E) as (_ & Hclock & _). apply (IH Hes); [|lia|unfold calls; nia].
    intros Hin. eapply round_keeps; eauto.
Qed.
End search.

(** The receipt a search returns is the completion of the intent it looked for: it
    was read from a signature announced by a log or listed in the history, executed
    without error by the outbox program, no earlier than the slot of the scheduling transaction. *)
Theorem fetched_receipt_is_the_completion `{Base58} api t deadline subscribed events validator intent_id min_slot r :
  fetch_commit_receipt_by_intent api t deadline subscribed events validator intent_id min_slot = Ok r ->
  commit_id r = Some intent_id /\ announced api validator events (signature r) /\
  exists at_ tx meta message,
    get_transaction api at_ (signature r) = Ok (Some tx) /\ min_slot <= t_slot tx /\
    t_meta tx = Some meta /\ m_err meta = None /\ t_decoded tx = Some message /\
    runs_outbox message = true /\ r = parse_receipt (signature r) meta.
Proof.
  unfold fetch_commit_receipt_by_intent. destruct subscribed as [[]|]; [|done]. cbn.
  destruct (search_loop _ _ _ _ _ _ _) as [?|r'|?|?] eqn:Hl; try done. intros [= ->].
  apply (loop_found _ _ _ _ _ events) in Hl as (sig & Hann & t' & tx & _ & Hg & Hc); [|done|set_solver].
  apply completes_spec in Hc as (Hid & Hslot & Hsig & meta & msg & ? & ? & ? & ? & ->).
  rewrite Hsig. split_and!; [done|done|]. exists t', tx, meta, msg. done.
Qed.

(** C28: A search finds its receipt: once some event announces the signature of a
    completion, reads of it may fail or come back empty for a while, but if they
    return the completion before the events end, and the deadline leaves room for the
    calls, the search returns a receipt of the intent. *)
Theorem announced_completion_is_fetched `{Base58} api t deadline validator intent_id min_slot
    es1 e es2 sig tx r t1 :
  history_bounded api validator -> Forall event_ok (es1 ++ e :: es2) ->
  announces api validator e sig -> readable_from api t1 sig tx ->
  completes intent_id min_slot sig tx = Some r -> (t1 <= t + length es2)%nat ->
  (t + calls (length (es1 ++ e :: es2)) 0 <= deadline)%nat ->
  exists r', fetch_commit_receipt_by_intent api t deadline (Ok tt) (es1 ++ e :: es2) validator
               intent_id min_slot = Ok r' /\ commit_id r' = Some intent_id.
Proof.
  intros Hb He Ha Hr Hc Ht Hd.
  destruct (announced_is_found api deadline validator intent_id min_slot es1 e es2 (mkSearch t ∅ [] None)
    sig tx r t1) as (r' & Hl); auto; [set_solver|].
  exists r'. unfold fetch_commit_receipt_by_intent. cbn [res_bind]. rewrite Hl. split; [done|].
  apply (loop_found _ _ _ _ _ (es1 ++ e :: es2)) in Hl as (s & _ & t' & tx' & _ & _ & Hc'); [|done|set_solver].
  by apply completes_spec in Hc' as (? & _).
Qed.

(** * Absence of a receipt *)

Section absence.
Context `{B : Base58} (api : nat -> RpcView) (intent_id min_slot : Z) (who : Pubkey).

(** The body of [sig] was read, and is not the intent's completion paid by [who]. *)
Definition read_as_absent (sig : Sig) : Prop :=
  exists t tx, get_transaction api t sig = Ok (Some tx) /\
    forall r, completes intent_id min_slot sig tx = Some r -> payer r <> Some who.

Lemma absent_pass_monotone sigs t u u' t' :
  absent_pass api t intent_id min_slot who u sigs = Ok (u', t') -> u = true -> u' = true.
Proof.
  revert t u. induction sigs as [|sig sigs IH]; intros t u; cbn [absent_pass]; [by intros [= -> ->]|].
  intros H Hu. res_inv H; subst; eauto.
Qed.

Lemma absent_pass_ok sigs t u t' :
  absent_pass api t intent_id min_slot who u sigs = Ok (false, t') -> Forall read_as_absent sigs.
Proof.
  revert t u. induction sigs as [|sig sigs IH]; intros t u; cbn [absent_pass]; [done|].
  destruct (get_transaction api t sig) as [[tx|]|e] eqn:Hg; cbn [res_bind]; [| |done].
  - destruct (if _ <? _ then _ else _) as [r|] eqn:Hr.
    + destruct (_ || _)%bool eqn:Hb; [|done]. intros H. constructor; [|by eapply IH].
      exists t, tx. split; [done|]. unfold completes. destruct (_ <? _); [done|].
      rewrite Hr. cbn. case_bool_decide as Hid; [|done]. intros ? [= <-].
      apply orb_true_iff in Hb as [Hb|Hb]; bools; [done|done].
    + intros H. constructor; [|by eapply IH]. exists t, tx. split; [done|].
      unfold completes. destruct (_ <? _); [done|]. by rewrite Hr.
  - intros H. by apply absent_pass_monotone in H.
Qed.

Lemma absent_attempts_ok n t address :
  absent_attempts api n t address intent_id min_slot who = Ok tt ->
  exists t0 sigs, get_signatures_for_address api t0 address = Ok sigs /\ Forall read_as_absent sigs.
Proof.
  revert t. induction n as [|n IH]; intros t; cbn [absent_attempts]; [done|].
  destruct (get_signatures_for_address api t address) as [sigs|] eqn:Hs; [|done]. cbn [res_bind].
  destruct (absent_pass _ _ _ _ _ _ _) as [[[] t']|] eqn:Hp; [| |done]; cbn; [apply IH|].
  intros _. exists t, sigs. split; [done|]. by eapply absent_pass_ok.
Qed.
End absence.

(** Absence is confirmed only by a listing all of whose transactions were read: each
    of them is something else than a completion of the intent paid by the payer. *)
Theorem receipt_absence_is_established `{Base58} api t address intent_id min_slot who :
  ensure_receipt_absent api t (Outbox address intent_id min_slot) who = Ok tt ->
  exists t0 sigs, get_signatures_for_address api t0 address = Ok sigs /\
    forall sig, sig ∈ sigs -> exists t1 tx, get_transaction api t1 sig = Ok (Some tx) /\
      forall r, completes intent_id min_slot sig tx = Some r -> payer r <> Some who.
Proof.
  intros (t0 & sigs & Hs & Hf)%absent_attempts_ok. exists t0, sigs. split; [done|].
  by apply Forall_forall.
Qed.

(** * Witnesses *)

(** A completion of intent 42 under signature 7, readable from the third call on. *)
Definition sample_tx : ConfirmedTx :=
  mkTx 10 (Some (mkMeta_ None (SerSome ["ScheduledCommitSent id: 42, slot: 1, blockhash: h"])))
    (Some (mkTxMessage [4; OUTBOX_INTENT_ID] [1])).
Definition sample_api (t : nat) : RpcView :=
  mkView (fun sig => if (3 <=? t)%nat then Ok (Some sample_tx) else Ok None) (fun _ _ => Ok [7]).
Definition sample_events : list SearchEvent := [SlotsNext (Ok tt); LogsNext (Ok "7"); HistoryTick; SlotsNext (Ok tt); SlotsNext (Ok tt)].

Lemma fetched_receipt_is_the_completion_witness :
  exists r, @fetch_commit_receipt_by_intent decimal_base58 sample_api 0 10000 (Ok tt) sample_events 5 42 9 = Ok r /\
    commit_id r = Some 42.
Proof.
  eexists. split; [vm_compute; reflexivity|].
  eapply (@fetched_receipt_is_the_completion decimal_base58 sample_api 0 10000 (Ok tt) sample_events 5 42 9).
  vm_compute. reflexivity.
Defined.

Lemma announced_completion_is_fetched_witness :
  exists r', @fetch_commit_receipt_by_intent decimal_base58 sample_api 0 10000 (Ok tt)
    ([SlotsNext (Ok tt)] ++ LogsNext (Ok "7") :: [HistoryTick; SlotsNext (Ok tt); SlotsNext (Ok tt)]) 5 42 9 = Ok r' /\
    commit_id r' = Some 42.
Proof.
  eapply (@announced_completion_is_fetched decimal_base58 sample_api 0 10000 5 42 9 _ _ _ 7 sample_tx _ 3).
  - intros t sigs [= <-]. unfold RECEIPT_HISTORY_LIMIT. cbn. lia.
  - repeat constructor. by exists 7.
  - done.
  - intros t. unfold get_transaction, sample_api. cbn [v_transaction]. destruct (Nat.leb_spec 3 t); [by left|]. right. split; [lia|]. by intros ? [=].
  - vm_compute. reflexivity.
  - cbn. lia.
  - unfold calls. cbn. lia.
Defined.

Lemma receipt_absence_is_established_witness :
  @ensure_receipt_absent decimal_base58 sample_api 0 (Outbox 5 42 9) 1 = Ok tt /\
  exists t1 tx, get_transaction sample_api t1 7 = Ok (Some tx).
Proof.
  split; [vm_compute; reflexivity|].
  destruct (@receipt_absence_is_established decimal_base58 sample_api 0 5 42 9 1) as (t0 & sigs & H & Hall);
    [vm_compute; reflexivity|].
  injection H as <-. destruct (Hall 7 ltac:(left)) as (t1 & tx & Hg & _). by exists t1, tx.
Defined.
