(* ===== verification/Report.v ===== *)
(** Reports: [core/src/report/mod.rs], [report/bmf.rs] and [report/store.rs].

    A scenario collects settings and measurements into a [ScenarioReport]; runs are
    persisted into the campaign of the process, a JSON file that is replaced by
    renaming; [bmf] exports the measurements of the latest campaign.  JSON is
    outside the model: [CampaignJson].  The file system is a map from paths to contents. *)
From Stdlib Require Import Ascii String Floats.SpecFloat.
From S2P Require Import Prelude Float64 Stats Rate Runner Text.

#[local] Open Scope string_scope.
#[local] Open Scope Z_scope.
#[local] Open Scope list_scope.

Definition SCHEMA_VERSION : Z := 3.

(** * Measurements *)

Inductive MUnit :=
| Micros | Millis | Seconds | Tps | Rps | PerSecondUnit | Count | Kilobytes | Megabytes | Ratio | Other.

#[export] Instance MUnit_eq_dec : EqDecision MUnit.
Proof. solve_decision. Defined.

Inductive MeasureValue := Scalar (value : f64) | Distribution (stats : ObservationsStats).

Record Measurement := mkMeasurement { ms_label : string; ms_unit : MUnit; ms_value : MeasureValue }.

Record ScenarioReport := mkReport
  { rp_passed : bool; config : list (string * string); measurements : list Measurement }.

Definition report_ok : ScenarioReport := mkReport true [] [].

Definition setting (key value : string) (r : ScenarioReport) : ScenarioReport :=
  mkReport (rp_passed r) (config r ++ [(key, value)]) (measurements r).

Definition measure (m : Measurement) (r : ScenarioReport) : ScenarioReport :=
  mkReport (rp_passed r) (config r) (measurements r ++ [m]).

Definition report_observe (label : string) (unit : MUnit) (stats : ObservationsStats) (r : ScenarioReport) :
  ScenarioReport :=
  measure (mkMeasurement label unit (Distribution stats)) r.

Definition metric (label : string) (unit : MUnit) (value : f64) (r : ScenarioReport) : ScenarioReport :=
  measure (mkMeasurement label unit (Scalar value)) r.

Definition metric_if (label : string) (unit : MUnit) (value : option f64) (r : ScenarioReport) : ScenarioReport :=
  match value with Some value => metric label unit value r | None => r end.

(** * Settings that accumulate *)

Definition LATENCY_ORIGIN : string := "latency origin".
Definition LOAD_FLAGS : list string := ["client saturated"; "offered rate not sustained"].
Definition SEND_ORIGIN : string := "client, immediately before sendTransaction".
Definition REQUEST_ORIGIN : string := "client, immediately before the request".

(** [iter_mut().find(|(key, _)| ...)]: update the first entry under [key], or add one. *)
Fixpoint upsert (key : string) (update : string -> string) (fresh : string) (c : list (string * string)) :
  list (string * string) :=
  match c with
  | [] => [(key, fresh)]
  | (k, v) :: c => if String.eqb k key then (k, update v) :: c else (k, v) :: upsert key update fresh c
  end.

Definition with_config (c : list (string * string)) (r : ScenarioReport) : ScenarioReport :=
  mkReport (rp_passed r) c (measurements r).

Definition add_origin (origin origins : string) : string :=
  if existsb (fun known => String.eqb known origin) (split_str "; " origins) then origins
  else origins +:+ "; " +:+ origin.

Definition latency_origin (origin : string) (r : ScenarioReport) : ScenarioReport :=
  if is_empty origin then r
  else with_config (upsert LATENCY_ORIGIN (add_origin origin) origin (config r)) r.

(** [{:.0}] of a float: round half to even. *)
Definition show_integer (n : Z) : string :=
  if n <? 0 then "-" +:+ show_loop 400 (- n) EmptyString else show_loop 400 n EmptyString.
Definition round_half_even (m : positive) (e : Z) : Z :=
  if 0 <=? e then Z.pos m * 2 ^ e
  else
    let d := 2 ^ (- e) in
    let q := Z.pos m / d in
    let twice := 2 * (Z.pos m mod d) in
    if (d <? twice) || ((d =? twice) && Z.odd q) then q + 1 else q.
Definition show_f64_0 (x : f64) : string :=
  match x with
  | S754_zero s => if s then "-0" else "0"
  | S754_infinity s => if s then "-inf" else "inf"
  | S754_nan => "NaN"
  | S754_finite s m e => (if s then "-" else EmptyString) +:+ show_integer (round_half_even m e)
  end.

(** The texts of [RunOutcome::flags]. *)
Definition flag_text (f : Flag) : string * string :=
  match f with
  | ClientSaturated p95 interval paced =>
      ("client saturated",
       "scheduling delay p95 " +:+ show_integer p95 +:+ " us exceeds the " +:+ show_integer interval +:+ " us "
       +:+ (if paced then "pacing" else "achieved inter-arrival") +:+ " interval")
  | RateNotSustained achieved offered =>
      ("offered rate not sustained",
       "achieved " +:+ show_f64_0 achieved +:+ " of " +:+ show_integer offered +:+ " offered tps")
  end.

Definition add_flag (c : list (string * string)) (f : Flag) : list (string * string) :=
  let '(flag, reason) := flag_text f in
  upsert flag (fun reasons => reasons +:+ "; " +:+ reason) reason c.

Definition with_flags (o : RunOutcome ObservationsStats) (r : ScenarioReport) : ScenarioReport :=
  let r := latency_origin (origin o) r in
  with_config (fold_left add_flag (flags o) (config r)) r.

Definition client_side_as (label : string) (o : RunOutcome ObservationsStats) (r : ScenarioReport) : ScenarioReport :=
  if o_count (scheduling o) =? 0 then with_flags o r
  else with_flags o (report_observe label Micros (scheduling o) r).

Definition client_side : RunOutcome ObservationsStats -> ScenarioReport -> ScenarioReport :=
  client_side_as "scheduling delay us".

(** * Persisted runs *)

(** [resources::LaunchRecord] *)
Record LaunchRecord := mkLaunch
  { lr_label : string; lr_role : string; lr_bin : string; lr_bin_version : string;
    lr_bin_fingerprint : string; lr_identity : string; lr_launched_at : string;
    lr_rpc_port : option Z; lr_ws_port : option Z; lr_metrics_port : Z;
    lr_replication_port : option Z; lr_upstream : option string; lr_storage_dir : string;
    lr_accountsdb_dir : option string; lr_log : string; lr_config : option string;
    lr_pid : Z; lr_relaunches : Z; lr_exit : option string }.
Record PersistedFailure := mkFailure { pf_phase : string; pf_message : string }.

Record ScenarioRun := mkRun
  { sr_schema : Z; sr_run : string; sr_scenario : string; sr_passed : bool;
    sr_config : list (string * string); sr_measurements : list Measurement;
    sr_failures : list PersistedFailure; sr_launches : list LaunchRecord }.

(** [scenario::RunRecord], as far as it is persisted. *)
Record RunRecord := mkRunRecord
  { rec_name : string; rec_outcome : Result unit string; rec_phase : string;
    rec_wall_seconds : option f64; rec_report : option ScenarioReport; rec_launches : list LaunchRecord }.

Definition record_passed (r : RunRecord) : bool :=
  (is_ok (rec_outcome r) && match rec_report r with Some p => rp_passed p | None => true end)%bool.

Definition run_failures (r : RunRecord) : list PersistedFailure :=
  match rec_outcome r with
  | Ok _ => []
  | Err error => [mkFailure (rec_phase r) error]
  end.

Section doc.
(** The id of this process's campaign. *)
Context (run_id : string).

Definition scenario_run_doc (name : string) (report : ScenarioReport) (failures : list PersistedFailure)
    (launches : list LaunchRecord) : ScenarioRun :=
  mkRun SCHEMA_VERSION run_id name (rp_passed report) (config report) (measurements report) failures launches.

Definition with_passed (p : bool) (d : ScenarioRun) : ScenarioRun :=
  mkRun (sr_schema d) (sr_run d) (sr_scenario d) p (sr_config d) (sr_measurements d) (sr_failures d) (sr_launches d).

Definition persist_run_doc (r : RunRecord) : ScenarioRun :=
  let fallback := metric_if "wall seconds" Seconds (rec_wall_seconds r) report_ok in
  with_passed (record_passed r)
    (scenario_run_doc (rec_name r) (default fallback (rec_report r)) (run_failures r) (rec_launches r)).

Definition persist_summary_doc (name : string) (report : ScenarioReport) (outcome : Result unit string) : ScenarioRun :=
  let report := mkReport (is_ok outcome) (config report) (measurements report) in
  scenario_run_doc name report
    match outcome with Ok _ => [] | Err error => [mkFailure "suite" error] end [].

Definition persist_cell_doc (parent label : string) (report : ScenarioReport) : ScenarioRun :=
  scenario_run_doc (parent +:+ "/" +:+ label) report [] [].
End doc.

(** * The campaign store *)

Record CampaignMeta := mkCampaignMeta
  { cm_schema : Z; cm_run : string; cm_started_at : string; cm_er_bin : string;
    cm_er_version : string; cm_er_fingerprint : string }.

Record StoredScenario := mkStored { st_run : option ScenarioRun; st_cells : list ScenarioRun }.
Definition StoredScenario_default : StoredScenario := mkStored None [].

Record Campaign := mkCampaign { c_meta : CampaignMeta; scenarios : gmap string StoredScenario }.

Definition campaign_meta (run_id started_at : string) (er_identity : string * string * string) (attached : bool) :
  CampaignMeta :=
  let '(er_bin, er_version, er_fingerprint) :=
    if attached then ("attached", "unobserved", "unobserved") else er_identity in
  mkCampaignMeta SCHEMA_VERSION run_id started_at er_bin er_version er_fingerprint.

Definition run_is_attached (run : ScenarioRun) : bool :=
  existsb (fun '(key, value) => (String.eqb key "target" && String.eqb value "attached")%bool) (sr_config run).

(** The campaign after a run or a cell of [parent] was added. *)
Definition campaign_add (parent : option string) (run : ScenarioRun) (c : Campaign) : Campaign :=
  let name := default (sr_scenario run) parent in
  let scenario := default StoredScenario_default (scenarios c !! name) in
  let scenario := match parent with
                  | Some _ => mkStored (st_run scenario) (st_cells scenario ++ [run])
                  | None => mkStored (Some run) (st_cells scenario)
                  end in
  mkCampaign (c_meta c) (<[name := scenario]> (scenarios c)).

(** What the code asks of the JSON library. *)
Class CampaignJson := {
  campaign_to_string : Campaign -> string;
  campaign_from_str : string -> option Campaign;
}.

(** Files below the reports directory: [latest] and, per run, its directory. *)
Inductive ReportPath := Latest | CampaignJsonPath (run : string) | CampaignTmp (run : string) | LatestTmp (run : string).

#[export] Instance ReportPath_eq_dec : EqDecision ReportPath.
Proof. solve_decision. Defined.

Definition Fs := ReportPath -> option string.
Definition fs_set (p : ReportPath) (content : option string) (fs : Fs) : Fs :=
  fun q => if decide (q = p) then content else fs q.

Inductive FsOp := CreateDirs (run : string) | WriteFile (p : ReportPath) (content : string) | Rename (from to : ReportPath).

Definition fs_apply (op : FsOp) (fs : Fs) : Fs :=
  match op with
  | CreateDirs _ => fs
  | WriteFile p content => fs_set p (Some content) fs
  | Rename from to =>
      match fs from with
      | Some content => fs_set from None (fs_set to (Some content) fs)
      | None => fs
      end
  end.

(** An operation fails, or the process dies in it: a rename is atomic, a write may be torn. *)
Inductive fs_interrupted : FsOp -> Fs -> Fs -> Prop :=
| interrupted_before op fs : fs_interrupted op fs fs
| interrupted_write p content torn fs : fs_interrupted (WriteFile p content) fs (fs_set p torn fs).

Section store.
Context `{J : CampaignJson} (run_id : string).

(** What [persist] writes, in order. *)
Definition persist_ops (c : Campaign) : list FsOp :=
  [CreateDirs run_id; WriteFile (CampaignTmp run_id) (campaign_to_string c);
   Rename (CampaignTmp run_id) (CampaignJsonPath run_id);
   WriteFile (LatestTmp run_id) run_id; Rename (LatestTmp run_id) Latest].

(** [store::persist] on the process's campaign, which the first call creates. *)
Definition store_persist (started_at : string) (er_identity : string * string * string)
    (parent : option string) (run : ScenarioRun) (campaign : option Campaign) : Campaign * list FsOp :=
  let campaign := default (mkCampaign (campaign_meta run_id started_at er_identity (run_is_attached run)) ∅) campaign in
  let campaign := campaign_add parent run campaign in
  (campaign, persist_ops campaign).

Definition store_load (fs : Fs) : option Campaign :=
  run ← fs Latest;
  contents ← fs (CampaignJsonPath run);
  campaign_from_str contents.
End store.

(** * The metric export *)

Definition run_gate (run : ScenarioRun) : option string :=
  if existsb (fun '(key, value) => (String.eqb key "completion" && String.eqb value "interrupted")%bool) (sr_config run)
  then Some "load interrupted"
  else if negb (sr_passed run)
  then Some match head (sr_failures run) with
            | Some f => "run failed (" +:+ pf_phase f +:+ ": " +:+ pf_message f +:+ ")"
            | None => "run failed"
            end
  else (fun f => "run has a " +:+ pf_phase f +:+ " failure: " +:+ pf_message f) <$> head (sr_failures run).

(** [trim_end_matches] with a text. *)
Definition strip_suffix (pat s : string) : option string :=
  let n := (String.length s - String.length pat)%nat in
  if ((String.length pat <=? String.length s)%nat && String.eqb (String.substring n (String.length pat) s) pat)%bool
  then Some (String.substring 0 n s) else None.
Fixpoint trim_end_text (fuel : nat) (pat s : string) : string :=
  match fuel with
  | O => s
  | S fuel => match strip_suffix pat s with Some s => trim_end_text fuel pat s | None => s end
  end.

Definition slug_char (c : ascii) : ascii := if Ascii.eqb c " " then "-"%char else c.
Definition slug_keep (c : ascii) : bool :=
  (is_alphanumeric c || Ascii.eqb c "-" || Ascii.eqb c "_")%bool.
Definition slug (label : string) : string :=
  filter_chars slug_keep (map_chars slug_char (map_chars to_lower
    (trim (trim_end_text (String.length label) " us" label)))).

Definition find_setting (p : string -> bool) (c : list (string * string)) : option (string * string) :=
  find_first (fun '(key, _) => p key) c.

Definition origin_tag (origin : string) : string :=
  if String.eqb origin SEND_ORIGIN then "send"
  else if String.eqb origin REQUEST_ORIGIN then "request"
  else origin.

Definition origin_suffix (run : ScenarioRun) : string :=
  match find_setting (fun key => String.eqb key LATENCY_ORIGIN) (sr_config run) with
  | Some (_, origins) => "@" +:+ slug (join "+" (origin_tag <$> split_str "; " origins))
  | None => EmptyString
  end.

Definition withheld (run : ScenarioRun) : option string :=
  (fun '(flag, reason) => flag +:+ ": " +:+ reason)
  <$> find_setting (fun key => existsb (String.eqb key) LOAD_FLAGS) (sr_config run).

Record MeasureVal := mkVal { mv_value : f64; mv_lower : option f64; mv_upper : option f64 }.
Abbreviation Document := (gmap string (gmap string MeasureVal)) (only parsing).

Definition server_labels : list string := ["boundary"; "normal"; "finalize"; "snapshot"; "checksum"].

Definition client_latency (m : Measurement) : bool :=
  (bool_decide (ms_unit m = Micros) && negb (contains "validator" (ms_label m))
   && negb (contains "scheduling delay" (ms_label m))
   && negb (existsb (String.eqb (default EmptyString (head (split_whitespace (ms_label m))))) server_labels))%bool.

Definition f64_1e3 : f64 := f64_of 1000.

(** The measure a measurement exports, if it exports one. *)
Definition exported (is_withheld : bool) (m : Measurement) : option (string * MeasureVal) :=
  match ms_unit m, ms_value m with
  | Micros, Distribution stats =>
      if (client_latency m && is_withheld)%bool then None
      else Some ("latency", mkVal (f64_mul (f64_of (o_median stats)) f64_1e3)
                   (Some (f64_mul (f64_of (o_min stats)) f64_1e3))
                   (Some (f64_mul (f64_of (o_max stats)) f64_1e3)))
  | Micros, Scalar value =>
      if (client_latency m && is_withheld)%bool then None
      else Some ("latency", mkVal (f64_mul value f64_1e3) None None)
  | Tps, Scalar value | Rps, Scalar value => Some ("throughput", mkVal value None None)
  | _, _ => None
  end.

Definition benchmark (run : ScenarioRun) (m : Measurement) : string :=
  sr_scenario run +:+ "/" +:+ slug (ms_label m) +:+ (if client_latency m then origin_suffix run else EmptyString).

Definition export_measurement (run : ScenarioRun) (doc : Document) (m : Measurement) : Document :=
  match exported (bool_decide (is_Some (withheld run))) m with
  | None => doc
  | Some (name, value) =>
      <[benchmark run m := <[name := value]> (default ∅ (doc !! benchmark run m))]> doc
  end.

Definition export_run (doc : Document) (run : ScenarioRun) : Document :=
  fold_left (export_measurement run) (sr_measurements run) doc.

(** Scenarios in the order of their names, as a [BTreeMap] iterates. *)
Definition scenarios_in_order (c : Campaign) : list StoredScenario :=
  snd <$> merge_sort (fun a b => String.le a.1 b.1) (map_to_list (scenarios c)).

Definition export_scenario (doc : Document) (s : StoredScenario) : Document :=
  match st_run s with
  | None => doc
  | Some run =>
      match run_gate run with
      | Some _ => doc
      | None => fold_left export_run (st_cells s) (export_run doc run)
      end
  end.

Definition bmf_document (c : Campaign) : Document :=
  fold_left export_scenario (scenarios_in_order c) ∅.

Definition bmf `{CampaignJson} (fs : Fs) : Result Document string :=
  match store_load fs with
  | None => Err "cannot read latest report campaign; run a scenario first"
  | Some latest =>
      let doc := bmf_document latest in
      if bool_decide (doc = ∅) then Err "the latest campaign has no exportable measurements" else Ok doc
  end.

(** * Provenance *)

(** Inside an escape sequence the text up to a letter is skipped. *)
Fixpoint strip_ansi (in_escape : bool) (s : string) : string :=
  match s with
  | EmptyString => EmptyString
  | String c rest =>
      if in_escape then strip_ansi (negb (is_alphabetic c)) rest
      else if code c =? 27 then
        match rest with
        | String "[" rest' => strip_ansi true rest'
        | _ => strip_ansi false rest
        end
      else String c (strip_ansi false rest)
  end.

Definition version_line (output : string) : option string :=
  strip_ansi false <$> find_first (fun line => negb (is_empty line)) (trim <$> lines output).

(** The civil date of a day counted from 0000-03-01, and its text. *)
Definition civil (days : Z) : Z * Z * Z :=
  let era := days / 146097 in
  let day_of_era := days mod 146097 in
  let year_of_era :=
    (day_of_era - day_of_era / 1460 + day_of_era / 36524 - day_of_era / 146096) / 365 in
  let day_of_year := day_of_era - (365 * year_of_era + year_of_era / 4 - year_of_era / 100) in
  let month_index := (5 * day_of_year + 2) / 153 in
  let day := day_of_year - (153 * month_index + 2) / 5 + 1 in
  let month := if month_index <? 10 then month_index + 3 else month_index - 9 in
  (year_of_era + era * 400 + (if month <=? 2 then 1 else 0), month, day).

Definition utc_stamp (secs : Z) : string :=
  let hours := (secs / 3600) mod 24 in
  let minutes := (secs / 60) mod 60 in
  let seconds := secs mod 60 in
  let '(year, month, day) := civil (secs / 86400 + 719468) in
  show_width 4 year +:+ show_width 2 month +:+ show_width 2 day +:+ "T" +:+
  show_width 2 hours +:+ show_width 2 minutes +:+ show_width 2 seconds +:+ "Z".
