(* ===== verification/ReportProps.v ===== *)
(** Reports: what the campaign store, the metric export and the time stamp guarantee. *)
From Stdlib Require Import Ascii String Floats.SpecFloat.
From S2P Require Import Prelude Float64 Stats Rate Runner Text Report.

#[local] Open Scope string_scope.
#[local] Open Scope Z_scope.
#[local] Open Scope list_scope.

(** * Dates *)

(** The calendar, one day at a time. *)
Definition leap (y : Z) : bool := ((y mod 4 =? 0) && (negb (y mod 100 =? 0) || (y mod 400 =? 0)))%bool.
Definition days_in_month (y m : Z) : Z :=
  if m =? 2 then if leap y then 29 else 28
  else if ((m =? 4) || (m =? 6) || (m =? 9) || (m =? 11))%bool then 30 else 31.
Definition next_day (date : Z * Z * Z) : Z * Z * Z :=
  let '(y, m, d) := date in
  if d <? days_in_month y m then (y, m, d + 1)
  else if m <? 12 then (y, m + 1, 1) else (y + 1, 1, 1).

(** The year of a day of the era: a year starts on its first of March. *)
Definition year_of_era (doe : Z) : Z := (doe - doe / 1460 + doe / 36524 - doe / 146096) / 365.
Definition year_start (y : Z) : Z := 365 * y + y / 4 - y / 100.

Lemma year_of_era_bounds doe :
  0 <= doe < 146097 ->
  0 <= year_of_era doe <= 399 /\ year_start (year_of_era doe) <= doe /\
  (doe < year_start (year_of_era doe + 1) \/ (doe = 146096 /\ year_of_era doe = 399)).
Proof.
  intros H. unfold year_of_era, year_start.
  Z.to_euclidean_division_equations. lia.
Qed.

Lemma year_of_era_unique doe y :
  0 <= doe < 146097 -> 0 <= y <= 399 -> year_start y <= doe ->
  (doe < year_start (y + 1) \/ y = 399) -> year_of_era doe = y.
Proof.
  intros H Hy Hlo Hhi. destruct (year_of_era_bounds doe H) as (Hb & Hs & He).
  set (z := year_of_era doe) in *. clearbody z.
  assert (Hmono : forall a b, 0 <= a -> a < b -> year_start (a + 1) <= year_start b).
  { intros a b Ha Hab. unfold year_start. Z.to_euclidean_division_equations. lia. }
  destruct (Z.lt_trichotomy z y) as [Hlt|[?|Hlt]]; [|done|].
  - specialize (Hmono z y). lia.
  - specialize (Hmono y z). lia.
Qed.

Definition year_length (l : bool) : Z := if l then 366 else 365.

Lemma year_length_pos l : 0 < year_length l.
Proof. by destruct l. Qed.

Lemma year_start_next era y :
  0 <= y < 399 -> year_start (y + 1) = year_start y + year_length (leap (y + era * 400 + 1)).
Proof.
  intros Hy. unfold year_start, year_length, leap.
  replace (y + era * 400 + 1) with (y + 1 + era * 100 * 4) at 1 by lia.
  replace (y + era * 400 + 1) with (y + 1 + era * 4 * 100) at 1 by lia.
  replace (y + era * 400 + 1) with (y + 1 + era * 400) by lia.
  rewrite !Z_mod_plus_full.
  destruct (Z.eqb_spec ((y + 1) mod 4) 0), (Z.eqb_spec ((y + 1) mod 100) 0), (Z.eqb_spec ((y + 1) mod 400) 0);
    cbn; Z.to_euclidean_division_equations; lia.
Qed.

Lemma last_year_leap era : leap (399 + era * 400 + 1) = true.
Proof.
  unfold leap. replace (399 + era * 400 + 1) with (0 + (era + 1) * 100 * 4) at 1 by lia.
  replace (399 + era * 400 + 1) with (0 + (era + 1) * 4 * 100) at 1 by lia.
  replace (399 + era * 400 + 1) with (0 + (era + 1) * 400) by lia. by rewrite !Z_mod_plus_full.
Qed.

(** The date of a day of the year that starts in March of [base]. *)
Definition date_of (base doy : Z) : Z * Z * Z :=
  let month_index := (5 * doy + 2) / 153 in
  let day := doy - (153 * month_index + 2) / 5 + 1 in
  let month := if month_index <? 10 then month_index + 3 else month_index - 9 in
  (base + (if month <=? 2 then 1 else 0), month, day).

Definition next_day_with (l : bool) (date : Z * Z * Z) : Z * Z * Z :=
  let '(y, m, d) := date in
  if d <? (if m =? 2 then if l then 29 else 28 else days_in_month y m) then (y, m, d + 1)
  else if m <? 12 then (y, m + 1, 1) else (y + 1, 1, 1).

Definition day_check (l : bool) (doy : Z) : bool :=
  bool_decide (next_day_with l (date_of 0 doy)
               = if doy + 1 <? year_length l then date_of 0 (doy + 1) else date_of 1 0).

Lemma day_check_all l : forallb (day_check l) (seqZ 0 (year_length l)) = true.
Proof. by destruct l; vm_compute. Qed.

Lemma date_of_first base : date_of base 0 = (base, 3, 1).
Proof. unfold date_of. cbn -[Z.add]. by rewrite Z.add_0_r. Qed.

Lemma next_day_date base doy :
  let l := leap (base + 1) in
  0 <= doy < year_length l ->
  next_day (date_of base doy) = if doy + 1 <? year_length l then date_of base (doy + 1) else date_of (base + 1) 0.
Proof.
  intros l Hd.
  pose proof (proj1 (forallb_forall _ _) (day_check_all l) doy) as Hc.
  specialize (Hc ltac:(apply list_elem_of_In, elem_of_seqZ; lia)). apply bool_decide_eq_true in Hc.
  rewrite date_of_first in *. unfold date_of in *. set (m := if _ <? 10 then _ else _) in *. set (d := doy - _ + 1) in *.
  set (m' := if (5 * (doy + 1) + 2) / 153 <? 10 then _ else _) in *.
  set (d' := doy + 1 - _ + 1) in *. clearbody m d m' d'.
  unfold next_day, next_day_with in *.
  assert (Hm : (if m =? 2 then if l then 29 else 28 else days_in_month (0 + (if m <=? 2 then 1 else 0)) m)
               = days_in_month (base + (if m <=? 2 then 1 else 0)) m).
  { unfold days_in_month. destruct (Z.eqb_spec m 2) as [->|]; [|done]. done. }
  rewrite Hm in Hc. clear Hm. set (c := if m <=? 2 then 1 else 0) in *.
  set (c' := if m' <=? 2 then 1 else 0) in *. clearbody c c'.
  destruct (doy + 1 <? year_length l); (destruct (d <? _); [|destruct (m <? 12)]);
    rewrite !pair_equal_spec in *; lia.
Qed.

Lemma civil_date days :
  civil days = date_of (year_of_era (days mod 146097) + days / 146097 * 400)
                 (days mod 146097 - year_start (year_of_era (days mod 146097))).
Proof. done. Qed.

(** The next day's civil date is the next day. *)
Lemma civil_next days : civil (days + 1) = next_day (civil days).
Proof.
  rewrite !civil_date. set (era := days / 146097). set (doe := days mod 146097).
  assert (Hd : 0 <= doe < 146097) by (apply Z.mod_pos_bound; lia).
  assert (Hdays : days = 146097 * era + doe) by (apply Z.div_mod; lia).
  clearbody era doe. subst days.
  destruct (year_of_era_bounds doe Hd) as (Hb & Hs & He).
  set (y := year_of_era doe) in *. assert (Ey : year_of_era doe = y) by done. clearbody y.
  assert (Hlen : doe < year_start y + year_length (leap (y + era * 400 + 1)) /\
     (y < 399 -> year_start (y + 1) = year_start y + year_length (leap (y + era * 400 + 1)))).
  { destruct (decide (y = 399)) as [->|]; [|rewrite <- year_start_next by lia; lia].
    rewrite last_year_leap. split; [|lia].
    change (year_start 399 + year_length true) with 146097. lia. }
  destruct Hlen as [Hlen Hnext]. rewrite next_day_date by lia.
  destruct (decide (doe = 146096)) as [->|Hlast].
  - assert (y = 399) as -> by (rewrite <- Ey; done).
    replace (146097 * era + 146096 + 1) with ((era + 1) * 146097) by lia.
    rewrite Z.mod_mul, Z.div_mul by lia. rewrite last_year_leap.
    change (146096 - year_start 399 + 1 <? year_length true) with false. cbv iota.
    change (year_of_era 0) with 0. change (0 - year_start 0) with 0. f_equal. lia.
  - replace (146097 * era + doe + 1) with (doe + 1 + era * 146097) by lia.
    rewrite Z.mod_add, Z.div_add, Z.mod_small, Z.div_small by lia.
    destruct (Z.ltb_spec (doe - year_start y + 1) (year_length (leap (y + era * 400 + 1)))).
    + rewrite (year_of_era_unique (doe + 1) y) by lia. f_equal; lia.
    + assert (y < 399).
      { destruct (decide (y = 399)) as [->|]; [|lia]. rewrite last_year_leap in *.
        change (year_start 399) with 145731 in *. cbn in *. lia. }
      specialize (Hnext ltac:(lia)).
      rewrite (year_of_era_unique (doe + 1) (y + 1)); [f_equal; lia|lia|lia|lia|].
      destruct (decide (y = 398)); [lia|]. rewrite (year_start_next era (y + 1)) by lia.
      pose proof (year_length_pos (leap (y + 1 + era * 400 + 1))). lia.
Qed.

Lemma civil_iter n : civil (Z.of_nat n + 719468) = Nat.iter n next_day (1970, 1, 1).
Proof.
  induction n as [|n IH]; [done|]. rewrite Nat.iter_succ, <- IH, <- civil_next. f_equal. lia.
Qed.

(** A time stamp spells the calendar date and the time of day: the date of the [n]th
    day is what [n] steps of the Gregorian calendar make of 1970-01-01. *)
Theorem stamp_is_the_calendar_date n hours minutes seconds :
  0 <= hours < 24 -> 0 <= minutes < 60 -> 0 <= seconds < 60 ->
  utc_stamp (86400 * Z.of_nat n + 3600 * hours + 60 * minutes + seconds) =
  let '(year, month, day) := Nat.iter n next_day (1970, 1, 1) in
  show_width 4 year +:+ show_width 2 month +:+ show_width 2 day +:+ "T" +:+
  show_width 2 hours +:+ show_width 2 minutes +:+ show_width 2 seconds +:+ "Z".
Proof.
  intros Hh Hm Hs. unfold utc_stamp. set (secs := _ + seconds).
  assert (secs / 86400 = Z.of_nat n) as -> by (unfold secs; Z.to_euclidean_division_equations; lia).
  assert ((secs / 3600) mod 24 = hours) as -> by (unfold secs; Z.to_euclidean_division_equations; lia).
  assert ((secs / 60) mod 60 = minutes) as -> by (unfold secs; Z.to_euclidean_division_equations; lia).
  assert (secs mod 60 = seconds) as -> by (unfold secs; Z.to_euclidean_division_equations; lia).
  by rewrite civil_iter.
Qed.

Lemma stamp_is_the_calendar_date_witness : utc_stamp 951868799 = "20000229T235959Z".
Proof.
  change 951868799 with (86400 * Z.of_nat 11016 + 3600 * 23 + 60 * 59 + 59).
  rewrite stamp_is_the_calendar_date by lia. vm_compute. reflexivity.
Defined.

(** * The campaign on disk *)

Section crash.
Context `{J : CampaignJson} (run_id : string).

(** [after] is a state of the disk that [ops] may leave when they are cut short, or all done. *)
Inductive cut_short : list FsOp -> Fs -> Fs -> Prop :=
| cut_done fs : cut_short [] fs fs
| cut_here op ops fs after : fs_interrupted op fs after -> cut_short (op :: ops) fs after
| cut_later op ops fs after : cut_short ops (fs_apply op fs) after -> cut_short (op :: ops) fs after.

Lemma fs_set_eq p c fs : fs_set p c fs p = c.
Proof. unfold fs_set. by destruct (decide (p = p)). Qed.
Lemma fs_set_ne p q c fs : q <> p -> fs_set p c fs q = fs q.
Proof. unfold fs_set. by destruct (decide (q = p)). Qed.

(** Loading looks at [Latest] and at the campaign files only. *)
Lemma store_load_ext fs fs' :
  fs Latest = fs' Latest -> (forall run, fs (CampaignJsonPath run) = fs' (CampaignJsonPath run)) ->
  store_load fs = store_load fs'.
Proof.
  intros H1 H2. unfold store_load. rewrite H1. destruct (fs' Latest) as [run|]; [|done]. cbn. by rewrite H2.
Qed.

Lemma store_load_tmp fs p c :
  (forall run, p <> CampaignJsonPath run) -> p <> Latest -> store_load (fs_set p c fs) = store_load fs.
Proof. intros H1 H2. apply store_load_ext; intros; by rewrite fs_set_ne. Qed.

Lemma store_load_new fs c :
  campaign_from_str (campaign_to_string c) = Some c ->
  fs Latest = Some run_id -> fs (CampaignJsonPath run_id) = Some (campaign_to_string c) ->
  store_load fs = Some c.
Proof. intros Hj H1 H2. unfold store_load. by rewrite H1; cbn; rewrite H2; cbn. Qed.

(** The three disks a persist passes through, for a reader: before, renamed, and done. *)
Lemma rename_campaign fs text :
  let fs' := fs_apply (Rename (CampaignTmp run_id) (CampaignJsonPath run_id))
               (fs_apply (WriteFile (CampaignTmp run_id) text) fs) in
  fs' (CampaignJsonPath run_id) = Some text /\ fs' Latest = fs Latest /\
  (forall run, run <> run_id -> fs' (CampaignJsonPath run) = fs (CampaignJsonPath run)).
Proof.
  cbn. rewrite fs_set_eq. split_and!.
  - rewrite fs_set_ne by done. by rewrite fs_set_eq.
  - by rewrite !fs_set_ne.
  - intros run Hr. by rewrite !fs_set_ne by congruence.
Qed.

Lemma load_renamed fs fs' c :
  campaign_from_str (campaign_to_string c) = Some c ->
  fs' (CampaignJsonPath run_id) = Some (campaign_to_string c) -> fs' Latest = fs Latest ->
  (forall run, run <> run_id -> fs' (CampaignJsonPath run) = fs (CampaignJsonPath run)) ->
  store_load fs' = store_load fs \/ store_load fs' = Some c.
Proof.
  intros Hj Hc Hl Hr. destruct (fs Latest) as [run|] eqn:E.
  - destruct (decide (run = run_id)) as [->|Hne]; [right; by apply store_load_new|].
    left. unfold store_load. by rewrite Hl, E; cbn; rewrite Hr.
  - left. unfold store_load. by rewrite Hl, E.
Qed.

Lemma publish_latest fs c :
  campaign_from_str (campaign_to_string c) = Some c ->
  fs (CampaignJsonPath run_id) = Some (campaign_to_string c) ->
  store_load (fs_apply (Rename (LatestTmp run_id) Latest)
    (fs_apply (WriteFile (LatestTmp run_id) run_id) fs)) = Some c.
Proof.
  intros Hj H1. cbn. rewrite fs_set_eq. apply store_load_new; [done|..].
  - rewrite fs_set_ne by done. by rewrite fs_set_eq.
  - by rewrite !fs_set_ne.
Qed.

(** An interrupted write elsewhere is not noticed. *)
Lemma interrupted_load p content fs fs' :
  fs_interrupted (WriteFile p content) fs fs' -> (forall run, p <> CampaignJsonPath run) -> p <> Latest ->
  store_load fs' = store_load fs.
Proof. intros Hi. inversion Hi; subst; intros; [done|]. by apply store_load_tmp. Qed.
End crash.

(** C30: Persisting a campaign never loses one: wherever the writes are cut short, or torn,
    a reader finds the campaign it would have found before, or the new one; and the
    new one once they are all done. *)
Theorem campaign_survives_crashes `{J : CampaignJson} run_id c fs after :
  campaign_from_str (campaign_to_string c) = Some c ->
  cut_short (persist_ops run_id c) fs after ->
  (store_load after = store_load fs \/ store_load after = Some c) /\
  store_load (fold_left (fun fs op => fs_apply op fs) (persist_ops run_id c) fs) = Some c.
Proof.
  intros Hj Hcut. destruct (rename_campaign run_id fs (campaign_to_string c)) as (H1 & H2 & H3).
  set (fs1 := fs_apply (Rename (CampaignTmp run_id) (CampaignJsonPath run_id)) _) in *.
  pose proof (publish_latest run_id fs1 c Hj H1) as Hfin.
  split; [|exact Hfin]. pose proof (load_renamed run_id fs fs1 c Hj H1 H2 H3) as Hmid.
  unfold persist_ops in Hcut. inversion_clear Hcut as [|? ? ? ? Hi|? ? ? ? H]; [inversion Hi; by left|].
  inversion_clear H as [|? ? ? ? Hi|? ? ? ? H']; [left; by eapply interrupted_load|].
  inversion_clear H' as [|? ? ? ? Hi|? ? ? ? H]; [inversion Hi; left; by apply store_load_tmp|].
  fold fs1 in H. inversion_clear H as [|? ? ? ? Hi|? ? ? ? H']; [by erewrite interrupted_load by done|].
  inversion_clear H' as [|? ? ? ? Hi|? ? ? ? H]; [inversion Hi; subst; cbn [fs_apply]; by rewrite store_load_tmp|].
  inversion_clear H. by right.
Qed.

Definition sample_meta : CampaignMeta := campaign_meta "r" "t" ("er", "v", "f") false.
Definition sample_run (name : string) (passed : bool) (ms : list Measurement) : ScenarioRun :=
  mkRun SCHEMA_VERSION "r" name passed [(LATENCY_ORIGIN, SEND_ORIGIN)] ms [] [].
Definition sample_delivery : Measurement :=
  mkMeasurement "delivery us" Micros (Distribution (mkObs 3 20 10 30 20 30 1)).
Definition sample_top : ScenarioRun :=
  sample_run "redline/a" true [sample_delivery; mkMeasurement "tps" Tps (Scalar (f64_of 5))].
Definition sample_campaign : Campaign :=
  campaign_add None sample_top
    (campaign_add (Some "redline/a") (sample_run "redline/a/cell" true [mkMeasurement "tps" Tps (Scalar (f64_of 7))])
      (mkCampaign sample_meta ∅)).
Definition sample_json : CampaignJson :=
  {| campaign_to_string := fun _ => "campaign";
     campaign_from_str := fun text => if String.eqb text "campaign" then Some sample_campaign else None |}.

Lemma campaign_survives_crashes_witness :
  exists after, @store_load sample_json after = None /\
    @store_load sample_json (fold_left (fun fs op => fs_apply op fs) (@persist_ops sample_json "r" sample_campaign)
      (fun _ => None)) = Some sample_campaign.
Proof.
  exists (fs_set (CampaignTmp "r") (Some "camp") (fun _ => None)).
  destruct (@campaign_survives_crashes sample_json "r" sample_campaign (fun _ => None)
    (fs_set (CampaignTmp "r") (Some "camp") (fun _ => None))) as [_ H]; [reflexivity| |].
  - apply cut_later, cut_here, interrupted_write.
  - split; [reflexivity|exact H].
Defined.

(** * The metric export *)

Definition entry (doc : gmap string (gmap string MeasureVal)) (b n : string) : option MeasureVal :=
  doc !! b ≫= (.!! n).

Lemma run_gate_None run :
  run_gate run = None <->
  sr_passed run = true /\ sr_failures run = [] /\ ("completion", "interrupted") ∉ sr_config run.
Proof.
  unfold run_gate. destruct (existsb _ (sr_config run)) eqn:E.
  - apply existsb_exists in E as ([k v] & Hin & [->%String.eqb_eq ->%String.eqb_eq]%andb_true_iff).
    apply list_elem_of_In in Hin. naive_solver.
  - assert (("completion", "interrupted") ∉ sr_config run).
    { intros Hin. apply not_true_iff_false in E. apply E. apply existsb_exists.
      exists ("completion", "interrupted"). by rewrite <- list_elem_of_In. }
    destruct (sr_passed run); cbn; [|naive_solver]. destruct (sr_failures run); cbn; naive_solver.
Qed.

(** What [run]'s measurement [m] exports as [n]. *)
Definition exports (run : ScenarioRun) (m : Measurement) (n : string) (v : MeasureVal) : Prop :=
  exported (bool_decide (is_Some (withheld run))) m = Some (n, v).

Lemma export_measurement_entry run doc m b n :
  entry (export_measurement run doc m) b n =
  match exported (bool_decide (is_Some (withheld run))) m with
  | Some (n', v) => if decide (b = benchmark run m /\ n = n') then Some v else entry doc b n
  | None => entry doc b n
  end.
Proof.
  unfold export_measurement. destruct (exported _ m) as [[n' v]|]; [|done]. unfold entry.
  destruct (decide (b = benchmark run m)) as [->|Hb].
  - rewrite lookup_insert_eq. cbn. destruct (decide (n = n')) as [->|Hn].
    + rewrite decide_True by done. by rewrite lookup_insert_eq.
    + rewrite decide_False by naive_solver. rewrite lookup_insert_ne by done.
      by destruct (doc !! benchmark run m); cbn; rewrite ?lookup_empty.
  - rewrite decide_False by naive_solver. by rewrite lookup_insert_ne.
Qed.

(** A fold that only adds: what its entries come from, and that they stay. *)
Section fold.
Context {A : Type} (f : gmap string (gmap string MeasureVal) -> A -> gmap string (gmap string MeasureVal))
  (src : A -> string -> string -> MeasureVal -> Prop)
  (Hsound : forall doc x b n v, entry (f doc x) b n = Some v -> entry doc b n = Some v \/ src x b n v)
  (Hmono : forall doc x b n, is_Some (entry doc b n) -> is_Some (entry (f doc x) b n))
  (Hcomplete : forall doc x b n v, src x b n v -> is_Some (entry (f doc x) b n)).

Lemma fold_sound l doc b n v :
  entry (fold_left f l doc) b n = Some v -> entry doc b n = Some v \/ exists x, x ∈ l /\ src x b n v.
Proof.
  revert doc. induction l as [|x l IH]; intros doc; cbn [fold_left]; [by left|].
  intros [[?|?]%Hsound|(y & ? & ?)]%IH; [by left| |]; right;
    [exists x; split; [left|done]|exists y; split; [by right|done]].
Qed.

Lemma fold_mono l doc b n : is_Some (entry doc b n) -> is_Some (entry (fold_left f l doc) b n).
Proof. revert doc. induction l as [|x l IH]; intros doc H; cbn [fold_left]; [done|]. by apply IH, Hmono. Qed.

Lemma fold_complete l doc b n v x : x ∈ l -> src x b n v -> is_Some (entry (fold_left f l doc) b n).
Proof.
  revert doc. induction l as [|y l IH]; intros doc Hin Hs; cbn [fold_left]; [by apply elem_of_nil in Hin|].
  apply elem_of_cons in Hin as [<-|Hin]; [by eapply fold_mono, Hcomplete|by eapply IH].
Qed.
End fold.

(** The sources of a document, from a measurement up to a campaign. *)
Definition run_src (run : ScenarioRun) (b n : string) (v : MeasureVal) : Prop :=
  exists m, m ∈ sr_measurements run /\ b = benchmark run m /\ exports run m n v.
Definition scenario_src (s : StoredScenario) (b n : string) (v : MeasureVal) : Prop :=
  exists run r, st_run s = Some run /\ run_gate run = None /\ r ∈ run :: st_cells s /\ run_src r b n v.

Lemma measurement_facts run :
  (forall doc m b n v, entry (export_measurement run doc m) b n = Some v ->
     entry doc b n = Some v \/ (b = benchmark run m /\ exports run m n v)) /\
  (forall doc m b n, is_Some (entry doc b n) -> is_Some (entry (export_measurement run doc m) b n)) /\
  (forall doc m b n v, b = benchmark run m /\ exports run m n v -> is_Some (entry (export_measurement run doc m) b n)).
Proof.
  split_and!; intros doc m b n *; rewrite export_measurement_entry; unfold exports;
    destruct (exported _ m) as [[n' v']|]; try destruct (decide _) as [[-> ->]|Hne]; try naive_solver.
Qed.

Lemma export_run_facts :
  (forall doc run b n v, entry (export_run doc run) b n = Some v ->
     entry doc b n = Some v \/ run_src run b n v) /\
  (forall doc run b n, is_Some (entry doc b n) -> is_Some (entry (export_run doc run) b n)) /\
  (forall doc run b n v, run_src run b n v -> is_Some (entry (export_run doc run) b n)).
Proof.
  split_and!; intros doc run; destruct (measurement_facts run) as (H1 & H2 & H3); unfold export_run, run_src.
  - intros b n v. by apply (fold_sound _ (fun m b n v => b = benchmark run m /\ exports run m n v)).
  - intros b n. by apply fold_mono.
  - intros b n v (m & Hm & Hs).
    by apply (fold_complete _ (fun m b n v => b = benchmark run m /\ exports run m n v) H2 H3 _ _ _ _ v m).
Qed.

Lemma export_scenario_facts :
  (forall doc s b n v, entry (export_scenario doc s) b n = Some v ->
     entry doc b n = Some v \/ scenario_src s b n v) /\
  (forall doc s b n, is_Some (entry doc b n) -> is_Some (entry (export_scenario doc s) b n)) /\
  (forall doc s b n v, scenario_src s b n v -> is_Some (entry (export_scenario doc s) b n)).
Proof.
  destruct export_run_facts as (H1 & H2 & H3). unfold scenario_src, export_scenario.
  split_and!; intros doc s.
  - intros b n v. destruct (st_run s) as [run|]; [|by left]. destruct (run_gate run) eqn:Hg; [by left|].
    intros H. apply (fold_sound _ run_src H1) in H as [[?|Hs]%H1|(r & Hr & Hs)]; [by left| |]; right.
    + exists run, run. split; [done|]. split; [done|]. split; [left|done].
    + exists run, r. split; [done|]. split; [done|]. split; [by right|done].
  - intros b n H. destruct (st_run s) as [run|]; [|done]. destruct (run_gate run); [done|].
    by apply (fold_mono _ H2), H2.
  - intros b n v (run & r & -> & -> & [->|Hr]%elem_of_cons & Hs).
    + by eapply (fold_mono _ H2), H3.
    + by eapply (fold_complete _ _ H2 H3).
Qed.

Lemma scenarios_in_order_elem c s :
  s ∈ scenarios_in_order c <-> exists name, scenarios c !! name = Some s.
Proof.
  unfold scenarios_in_order. rewrite list_elem_of_fmap. setoid_rewrite (merge_sort_Permutation _).
  split.
  - intros ([name s'] & -> & Hin%elem_of_map_to_list). by exists name.
  - intros [name Hin]. exists (name, s). by rewrite elem_of_map_to_list.
Qed.

(** The metric export is exactly the campaign's good measurements: every entry is a
    measurement of a scenario whose run passed, was not interrupted and has no failure (or
    of one of its cells), under that measurement's name; and every such measurement has an entry. *)
Theorem export_is_the_good_measurements c b n :
  (forall v, entry (bmf_document c) b n = Some v ->
     exists name s run r m, scenarios c !! name = Some s /\ st_run s = Some run /\
       sr_passed run = true /\ sr_failures run = [] /\ ("completion", "interrupted") ∉ sr_config run /\
       r ∈ run :: st_cells s /\ m ∈ sr_measurements r /\ b = benchmark r m /\ exports r m n v) /\
  (forall name s run r m v, scenarios c !! name = Some s -> st_run s = Some run -> run_gate run = None ->
     r ∈ run :: st_cells s -> m ∈ sr_measurements r -> b = benchmark r m -> exports r m n v ->
     is_Some (entry (bmf_document c) b n)).
Proof.
  destruct export_scenario_facts as (H1 & H2 & H3). unfold bmf_document. split.
  - intros v [H|(s & Hs & Hsrc)]%(fold_sound _ _ H1); [unfold entry in H; by rewrite lookup_empty in H|].
    apply scenarios_in_order_elem in Hs as [name Hs].
    destruct Hsrc as (run & r & ? & (? & ? & ?)%run_gate_None & ? & m & ? & ? & ?).
    exists name, s, run, r, m. done.
  - intros name s run r m v Hs Hr Hg Hin Hm -> He.
    apply (fold_complete _ _ H2 H3 _ _ _ _ v s); [apply scenarios_in_order_elem; eauto|].
    exists run, r. split; [done|]. split; [done|]. split; [done|]. by exists m.
Qed.

Lemma export_is_the_good_measurements_witness :
  is_Some (entry (bmf_document sample_campaign) "redline/a/delivery@send" "latency").
Proof.
  eapply (proj2 (export_is_the_good_measurements sample_campaign _ _) "redline/a" _ sample_top sample_top
    sample_delivery _); [reflexivity..| | | |].
  - left.
  - left.
  - vm_compute. reflexivity.
  - vm_compute. reflexivity.
Defined.

(** A record that did not pass is persisted as such, so that it is not exported. *)
Lemma failed_record_is_gated run_id r : record_passed r = false -> is_Some (run_gate (persist_run_doc run_id r)).
Proof.
  intros H. destruct (run_gate _) eqn:E; [done|].
  apply run_gate_None in E as (Hp & _). cbn in Hp. congruence.
Qed.
