(* ===== verification/Metrics.v ===== *)
(** Metrics: the Prometheus text of [core/src/api/mod.rs] ([Metrics], [MetricsDelta]) and
    the sampler of [core/src/sampler.rs].

    A [HashMap] iterates in an unspecified order: [HashIter] is the order of one
    iteration.  [parse::<f64>] is written out: the grammar of the standard
    library, and the division of integers rounded once. *)
From Stdlib Require Import Ascii String Floats.SpecFloat.
From S2P Require Import Prelude Float64 Text.

#[local] Open Scope string_scope.
#[local] Open Scope Z_scope.
#[local] Open Scope list_scope.

(** * Reading floats *)

(** A run of digits: its value after [acc], its length and the rest. *)
Fixpoint take_digits (acc : Z) (n : nat) (s : string) : Z * nat * string :=
  match s with
  | String c rest =>
      match digit c with
      | Some d => take_digits (acc * 10 + d) (S n) rest
      | None => (acc, n, s)
      end
  | EmptyString => (acc, n, s)
  end.

(** [m * 10^e], rounded to nearest. *)
Definition f64_decimal (negative : bool) (m e : Z) : f64 :=
  match m with
  | Z.pos p =>
      if 0 <=? e then
        binary_normalize 53 1024 (if negative then - (m * 10 ^ e) else m * 10 ^ e) 0 negative
      else SFdiv 53 1024 (S754_finite negative p 0) (S754_finite false (Z.to_pos (10 ^ (- e))) 0)
  | _ => S754_zero negative
  end.

(** The exponent after the mantissa: [None] when the text does not end there. *)
Definition parse_exponent (s : string) : option Z :=
  match s with
  | EmptyString => Some 0
  | String c rest =>
      if Ascii.eqb (to_lower c) "e" then
        let '(negative, rest) :=
          match rest with
          | String "-" rest => (true, rest)
          | String "+" rest => (false, rest)
          | _ => (false, rest)
          end in
        let '(e, n, rest) := take_digits 0 0 rest in
        if ((0 <? n)%nat && is_empty rest)%bool then Some (if negative : bool then - e else e) else None
      else None
  end.

Definition parse_number (negative : bool) (s : string) : option f64 :=
  let '(m, n, rest) := take_digits 0 0 s in
  let '(m, k, rest) :=
    match rest with
    | String "." rest => take_digits m 0 rest
    | _ => (m, O, rest)
    end in
  if (0 <? n + k)%nat then
    e ← parse_exponent rest; Some (f64_decimal negative m (e - Z.of_nat k))
  else None.

Definition parse_f64 (s : string) : option f64 :=
  let '(negative, s) :=
    match s with
    | String "-" rest => (true, rest)
    | String "+" rest => (false, rest)
    | _ => (false, s)
    end in
  let lower := map_chars to_lower s in
  if (String.eqb lower "inf" || String.eqb lower "infinity")%bool then Some (S754_infinity negative)
  else if String.eqb lower "nan" then Some S754_nan
  else parse_number negative s.

(** * Metrics *)

Abbreviation Metrics := (gmap string f64) (only parsing).

Definition metrics_get (name : string) (m : Metrics) : option f64 := m !! name.

(** The order in which a [HashMap] is visited. *)
Class HashIter := { hash_iter : Metrics -> list (string * f64) }.
Class HashIterLaws (H : HashIter) : Prop := { hash_iter_all : forall m, hash_iter m ≡ₚ map_to_list m }.

(** Cuts before the first [c], and after the last. *)
Fixpoint cut_before (c : ascii) (s : string) : option (string * string) :=
  match s with
  | EmptyString => None
  | String d rest =>
      if Ascii.eqb c d then Some (EmptyString, s)
      else '(a, b) ← cut_before c rest; Some (String d a, b)
  end.
Fixpoint cut_after_last (c : ascii) (s : string) : option (string * string) :=
  match s with
  | EmptyString => None
  | String d rest =>
      match cut_after_last c rest with
      | Some (a, b) => Some (String d a, b)
      | None => if Ascii.eqb c d then Some (String d EmptyString, rest) else None
      end
  end.

Definition has_char (c : ascii) (s : string) : bool := negb (all_chars (fun d => negb (Ascii.eqb c d)) s).

(** One line: its key, with the labels if it has any, and the value. *)
Definition parse_metric_line (line : string) : option (string * f64) :=
  let line := trim line in
  if (is_empty line || starts_with "#" line)%bool then None
  else
    '(key, rest) ← (if has_char "{" line then cut_after_last "}" line else cut_before " " line);
    value ← head (split_whitespace rest) ≫= parse_f64;
    Some (key, value).

Definition insert_metric (m : Metrics) (line : string) : Metrics :=
  match parse_metric_line line with
  | None => m
  | Some (key, value) =>
      let m := match cut_before "{" key with Some (bare, _) => <[bare := value]> m | None => m end in
      <[key := value]> m
  end.

Definition Metrics_parse (text : string) : Metrics := fold_left insert_metric (lines text) ∅.

Section sums.
Context `{H : HashIter}.

Definition sum_series (name : string) (value : string -> f64 -> f64) (m : Metrics) : option f64 :=
  let label_prefix := name +:+ "{" in
  let series := filter (fun '(key, _) => starts_with label_prefix key = true) (hash_iter m) in
  match series with
  | [] => value name <$> metrics_get name m
  | _ => Some (fold_left (fun sum '(key, sample) => f64_add sum (value key sample)) series f64_zero)
  end.

Definition value_sum (name : string) (m : Metrics) : option f64 := sum_series name (fun _ value => value) m.

(** * Deltas *)

Record MetricsDelta := mkDelta { md_before : Metrics; md_after : Metrics }.

Definition f64_unwrap_zero (x : option f64) : f64 := default f64_zero x.

Definition delta_counter (name : string) (d : MetricsDelta) : option f64 :=
  after ← metrics_get name (md_after d);
  Some (f64_sub after (f64_unwrap_zero (metrics_get name (md_before d)))).

Definition delta_gauge (name : string) (d : MetricsDelta) : option f64 := metrics_get name (md_after d).

Definition f64_le (x y : f64) : bool := SFleb x y.

Definition histogram_average (count sum : f64) : option f64 :=
  if f64_le count f64_zero then None else Some (f64_div sum count).

(** [mbv_x{kind="y"}] and [_sum] make [mbv_x_sum{kind="y"}]. *)
Definition suffixed (name suffix : string) : string :=
  match cut_before "{" name with
  | Some (bare, labels) => bare +:+ suffix +:+ labels
  | None => name +:+ suffix
  end.

Definition histogram_avg (name : string) (d : MetricsDelta) : option f64 :=
  count ← delta_counter (suffixed name "_count") d;
  sum ← delta_counter (suffixed name "_sum") d;
  histogram_average count sum.

Definition counter_all (name : string) (d : MetricsDelta) : option f64 :=
  sum_series name (fun key after => f64_sub after (f64_unwrap_zero (metrics_get key (md_before d)))) (md_after d).

Definition histogram_avg_all (name : string) (d : MetricsDelta) : option f64 :=
  count ← counter_all (name +:+ "_count") d;
  sum ← counter_all (name +:+ "_sum") d;
  histogram_average count sum.
End sums.

(** * Sampling *)

Inductive Trailing := SampleTrailing | SkipTrailing.

#[export] Instance Trailing_eq_dec : EqDecision Trailing.
Proof. solve_decision. Defined.

Record Sampled (T : Type) := mkSampled { sp_value : T; sp_scrapes : Z; sp_failures : Z; sp_observations : Z }.
Arguments mkSampled {T} _ _ _ _.
Arguments sp_value {T} _. Arguments sp_scrapes {T} _. Arguments sp_failures {T} _. Arguments sp_observations {T} _.

(** One turn of the loop: was the sampler halted when it began, what the scrape
    returned, and was it halted when the scrape ended. *)
Record SampleRound := mkRound
  { sr_halted_before : bool; sr_scrape : Result Metrics string; sr_halted_after : bool }.

Section sampler.
Context {T : Type} (trailing : Trailing) (observe : Metrics -> T -> option unit * T).

Definition sample_round (r : SampleRound) (s : Sampled T) : Sampled T :=
  match sr_scrape r with
  | Ok metrics =>
      let '(seen, value) := observe metrics (sp_value s) in
      mkSampled value (sp_scrapes s + 1) (sp_failures s)
        (sp_observations s + match seen with Some _ => 1 | None => 0 end)
  | Err _ => mkSampled (sp_value s) (sp_scrapes s + 1) (sp_failures s + 1) (sp_observations s)
  end.

(** [None] while the rounds given do not end the loop. *)
Fixpoint sample_loop (rounds : list SampleRound) (s : Sampled T) : option (Sampled T) :=
  match rounds with
  | [] => None
  | r :: rounds =>
      if (bool_decide (trailing = SampleTrailing) || negb (sr_halted_before r))%bool then
        let s := sample_round r s in
        if sr_halted_after r then Some s else sample_loop rounds s
      else Some s
  end.

Definition finish_complete (sampled : Sampled T) : Result (Sampled T) string :=
  ensure! ((0 <? sp_observations sampled) && (sp_observations sampled =? sp_scrapes sampled))%bool
  else "incomplete sampling" in Ok sampled.
End sampler.

(** * Mean and maximum *)

Record MeanMax := mkMeanMax { mm_sum : f64; mm_max : f64; mm_count : Z }.
Definition MeanMax_default : MeanMax := mkMeanMax f64_zero f64_zero 0.

(** [f64::max]: a NaN loses against a number. *)
Definition f64_is_nan (x : f64) : bool := match x with S754_nan => true | _ => false end.
Definition f64_max (x y : f64) : f64 :=
  if f64_is_nan x then y else if f64_is_nan y then x else if f64_lt x y then y else x.

Definition mean_push (value : f64) (m : MeanMax) : MeanMax :=
  mkMeanMax (f64_add (mm_sum m) value) (f64_max (mm_max m) value) (mm_count m + 1).

Definition mean (m : MeanMax) : f64 := f64_div (mm_sum m) (f64_of (Z.max (mm_count m) 1)).
