(* ===== verification/MetricsProps.v ===== *)
(** Metrics: reading an exposition back, summing series, and what a finished sampling tells. *)
From Stdlib Require Import Ascii String Floats.SpecFloat.
From S2P Require Import Prelude Float64 Text Metrics.

#[local] Open Scope string_scope.
#[local] Open Scope Z_scope.
#[local] Open Scope list_scope.
#[local] Arguments String.append !_ _ : simpl nomatch.

(** * Lines *)

Lemma has_char_spec c s : has_char c s = false <-> all_chars (fun d => negb (Ascii.eqb c d)) s = true.
Proof. unfold has_char. by rewrite negb_false_iff. Qed.

Lemma cut_before_app c a b :
  all_chars (fun d => negb (Ascii.eqb c d)) a = true ->
  cut_before c (a +:+ String c b) = Some (a, String c b).
Proof.
  induction a as [|d a IH]; cbn [all_chars cut_before].
  - intros _. cbn. by rewrite Ascii.eqb_refl.
  - intros [Hd Ha]%andb_true_iff. apply negb_true_iff in Hd. cbn. by rewrite Hd, IH.
Qed.

Lemma cut_before_none c a : all_chars (fun d => negb (Ascii.eqb c d)) a = true -> cut_before c a = None.
Proof.
  induction a as [|d a IH]; cbn [all_chars cut_before]; [done|].
  intros [Hd Ha]%andb_true_iff. apply negb_true_iff in Hd. by rewrite Hd, IH.
Qed.

Lemma cut_after_last_none c a : all_chars (fun d => negb (Ascii.eqb c d)) a = true -> cut_after_last c a = None.
Proof.
  induction a as [|d a IH]; cbn [all_chars cut_after_last]; [done|].
  intros [Hd Ha]%andb_true_iff. apply negb_true_iff in Hd. by rewrite IH, Hd.
Qed.

Lemma cut_after_last_app c a b :
  all_chars (fun d => negb (Ascii.eqb c d)) b = true ->
  cut_after_last c (a +:+ String c b) = Some (a +:+ String c EmptyString, b).
Proof.
  intros Hb. induction a as [|d a IH]; cbn [append cut_after_last].
  - cbn. by rewrite cut_after_last_none, Ascii.eqb_refl.
  - by rewrite IH.
Qed.

(** A word, alone or after blanks. *)
Definition word (s : string) : Prop :=
  all_chars (fun c => negb (is_whitespace c)) s = true /\ s <> EmptyString.

Lemma words_loop_word w s :
  all_chars (fun c => negb (is_whitespace c)) s = true ->
  words_loop w s = if is_empty (w +:+ s) then [] else [w +:+ s].
Proof.
  revert w. induction s as [|c s IH]; intros w; cbn [all_chars words_loop].
  - intros _. by rewrite append_nil_r.
  - intros [Hc Hs]%andb_true_iff. apply negb_true_iff in Hc. rewrite Hc, IH by done.
    by rewrite append_assoc.
Qed.

Lemma split_whitespace_word s : word s -> split_whitespace (String " " s) = [s].
Proof.
  intros [Hs Hne]. unfold split_whitespace. cbn [words_loop is_empty].
  change (is_whitespace " ") with true. cbn. rewrite words_loop_word by done. by destruct s.
Qed.

(** A name: starts with neither a blank nor [#], and has no blank, brace or newline. *)
Definition metric_name (s : string) : Prop :=
  word s /\ starts_with "#" s = false /\
  all_chars (fun c => negb (Ascii.eqb "{" c)) s = true /\ all_chars (fun c => negb (Ascii.eqb "}" c)) s = true.

Lemma word_ends s t : word t -> trim_end_matches is_whitespace (s +:+ t) = s +:+ t.
Proof.
  intros [Ht Hne].
  assert (Hs : forall u, trim_end_matches is_whitespace (u +:+ t) = u +:+ t).
  { induction u as [|c u IH]; cbn [append]; [by apply trim_end_matches_none|].
    cbn. rewrite IH. by destruct u, t. }
  apply Hs.
Qed.

Lemma line_trim name rest t : word name -> word t -> trim (name +:+ rest +:+ t) = name +:+ rest +:+ t.
Proof.
  intros [Hn Hne] Ht. unfold trim. rewrite trim_start_matches_none.
  - rewrite <- append_assoc. by apply word_ends.
  - destruct name as [|c name]; [done|]. cbn in *. apply andb_true_iff in Hn as [Hn _].
    by apply negb_true_iff in Hn.
Qed.

Lemma starts_with_app c s t : s <> EmptyString -> starts_with (String c EmptyString) (s +:+ t) = starts_with (String c EmptyString) s.
Proof.
  intros Hs. destruct s as [|d s]; [done|]. unfold starts_with. cbn.
  by destruct (Ascii.eqb c d).
Qed.

(** A sample without labels. *)
Lemma plain_line name value v :
  metric_name name -> word value -> parse_f64 value = Some v ->
  all_chars (fun c => negb (Ascii.eqb "{" c)) value = true ->
  parse_metric_line (name +:+ " " +:+ value) = Some (name, v).
Proof.
  intros (Hw & Hh & Hl & Hr) Hv Hp Hvl. unfold parse_metric_line. rewrite line_trim by done.
  rewrite starts_with_app, Hh by apply Hw.
  destruct (is_empty (name +:+ _)) eqn:He; [by destruct name|]. cbn [orb].
  assert (has_char "{" (name +:+ " " +:+ value) = false) as ->.
  { apply has_char_spec. rewrite !all_chars_app, Hl. by cbn. }
  change (" " +:+ value) with (String " " value). rewrite cut_before_app.
  - cbn [mbind option_bind]. by rewrite split_whitespace_word; cbn; rewrite ?Hp.
  - destruct Hw as [Hw _]. revert Hw. apply all_chars_impl. intros c.
    destruct (Ascii.eqb_spec " " c) as [<-|]; [done|done].
Qed.

(** A sample with labels: they may contain blanks, and even braces. *)
Lemma labelled_line name labels value v :
  metric_name name -> word value -> parse_f64 value = Some v ->
  all_chars (fun c => negb (Ascii.eqb "}" c)) value = true ->
  parse_metric_line (name +:+ "{" +:+ labels +:+ "} " +:+ value) = Some (name +:+ "{" +:+ labels +:+ "}", v).
Proof.
  intros (Hw & Hh & Hl & Hr) Hv Hp Hvl. unfold parse_metric_line.
  replace (name +:+ "{" +:+ labels +:+ "} " +:+ value) with (name +:+ ("{" +:+ labels +:+ "} ") +:+ value)
    by (by rewrite !append_assoc).
  rewrite line_trim by done. rewrite starts_with_app, Hh by apply Hw.
  destruct (is_empty (name +:+ _)) eqn:He; [by destruct name|]. cbn [orb].
  assert (has_char "{" (name +:+ ("{" +:+ labels +:+ "} ") +:+ value) = true) as ->.
  { unfold has_char. rewrite !all_chars_app, Hl. by cbn. }
  rewrite !append_assoc.
  replace (name +:+ "{" +:+ labels +:+ "} " +:+ value)
    with ((name +:+ "{" +:+ labels) +:+ String "}" (String " " value)) by (by rewrite !append_assoc).
  rewrite cut_after_last_app by done. cbn [mbind option_bind].
  rewrite split_whitespace_word by done. cbn. by rewrite Hp, !append_assoc.
Qed.

(** * Expositions *)

(** A sample of the exposition, with its labels if it has any. *)
Record Sample := mkSample { s_name : string; s_labels : option string; s_text : string; s_value : f64 }.

Definition sample_key (s : Sample) : string :=
  match s_labels s with Some labels => s_name s +:+ "{" +:+ labels +:+ "}" | None => s_name s end.
Definition sample_line (s : Sample) : string := sample_key s +:+ " " +:+ s_text s.

Record WfSample (s : Sample) : Prop := {
  wf_name : metric_name (s_name s);
  wf_text : word (s_text s);
  wf_value : parse_f64 (s_text s) = Some (s_value s);
  wf_braces : all_chars (fun c => negb (Ascii.eqb "{" c || Ascii.eqb "}" c)) (s_text s) = true;
}.

Lemma sample_line_read s : WfSample s -> parse_metric_line (sample_line s) = Some (sample_key s, s_value s).
Proof.
  intros [Hn Ht Hv Hb]. unfold sample_line, sample_key. destruct (s_labels s) as [labels|].
  - rewrite !append_assoc. change ("}" +:+ " " +:+ ?x) with ("} " +:+ x).
    apply labelled_line; [done..|]. revert Hb. apply all_chars_impl.
    intros c [_ H]%negb_true_iff%orb_false_iff. by rewrite H.
  - apply plain_line; [done..|]. revert Hb. apply all_chars_impl.
    intros c [H _]%negb_true_iff%orb_false_iff. by rewrite H.
Qed.

(** The text of an exposition: samples among lines that are none. *)
Inductive Exposition : list Sample -> list string -> Prop :=
| expo_nil : Exposition [] []
| expo_sample s ss ls : WfSample s -> Exposition ss ls -> Exposition (s :: ss) (sample_line s :: ls)
| expo_other l ss ls : parse_metric_line l = None -> Exposition ss ls -> Exposition ss (l :: ls).

(** The last sample that sets [key]: its own key, or the bare name of a labelled one. *)
Definition sets (key : string) (s : Sample) : bool :=
  (String.eqb key (sample_key s)
   || match s_labels s with Some _ => String.eqb key (s_name s) | None => false end)%bool.
Definition last_sample (key : string) (ss : list Sample) : option f64 :=
  s_value <$> last (filter (fun s => sets key s = true) ss).

Lemma insert_sample_lookup s m key :
  WfSample s ->
  insert_metric m (sample_line s) !! key = if sets key s then Some (s_value s) else m !! key.
Proof.
  intros Hs. unfold insert_metric. rewrite sample_line_read by done. destruct Hs as [(_ & _ & Hl & _) _ _ _].
  unfold sets, sample_key. destruct (s_labels s) as [labels|].
  - change ("{" +:+ labels +:+ "}") with (String "{" (labels +:+ "}")). rewrite cut_before_app by done.
    destruct (String.eqb_spec key (s_name s +:+ String "{" (labels +:+ "}"))) as [->|Hk]; cbn [orb].
    + by rewrite lookup_insert_eq.
    + rewrite lookup_insert_ne by done. destruct (String.eqb_spec key (s_name s)) as [->|Hb].
      * by rewrite lookup_insert_eq.
      * by rewrite lookup_insert_ne.
  - rewrite cut_before_none by done. rewrite orb_false_r.
    destruct (String.eqb_spec key (s_name s)) as [->|Hk]; [by rewrite lookup_insert_eq|by rewrite lookup_insert_ne].
Qed.

Lemma fold_exposition ss ls m key :
  Exposition ss ls ->
  fold_left insert_metric ls m !! key =
  match last_sample key ss with Some v => Some v | None => m !! key end.
Proof.
  intros H. revert m. induction H as [|s ss ls Hs H IH|l ss ls Hl H IH]; intros m; cbn [fold_left]; [done| |].
  - rewrite IH, insert_sample_lookup by done. unfold last_sample. rewrite filter_cons.
    destruct (sets key s).
    + rewrite decide_True by done. rewrite last_cons. by destruct (last _).
    + by rewrite decide_False.
  - rewrite IH. unfold insert_metric. by rewrite Hl.
Qed.

(** Reading an exposition returns its samples: under its full key, labels included,
    each series has the value of its last line, whatever its labels contain and
    whatever comments surround it, and a bare name has that of the last of its series. *)
Theorem metrics_are_read_back ss text key :
  Exposition ss (lines text) -> Metrics_parse text !! key = last_sample key ss.
Proof.
  intros H. unfold Metrics_parse. rewrite (fold_exposition ss) by done. by destruct (last_sample key ss).
Qed.

(** * Sums over the series of a name *)

Lemma starts_with_series name key : starts_with (name +:+ "{") key = true <-> exists labels, key = name +:+ "{" +:+ labels.
Proof. rewrite starts_with_spec. by setoid_rewrite append_assoc. Qed.

(** The value of a name is the sum over all its labelled series, each counted once,
    and its own sample when it has none. *)
Theorem value_sum_counts_every_series `{HI : HashIter, !HashIterLaws HI} name m :
  exists series, NoDup series.*1 /\
    (forall key v, (key, v) ∈ series <-> m !! key = Some v /\ exists labels, key = name +:+ "{" +:+ labels) /\
    value_sum name m =
      match series with [] => m !! name | _ => Some (fold_left (fun sum s => f64_add sum s.2) series f64_zero) end.
Proof.
  exists (filter (fun '(key, _) => starts_with (name +:+ "{") key = true) (hash_iter m)). split_and!.
  - apply (sublist_NoDup _ (hash_iter m).*1); [|by apply fmap_sublist, sublist_filter].
    rewrite (hash_iter_all m). apply NoDup_fst_map_to_list.
  - intros key v. rewrite list_elem_of_filter, starts_with_series, hash_iter_all, elem_of_map_to_list. tauto.
  - unfold value_sum, sum_series, metrics_get. destruct (filter _ _) as [|p ps]; [by destruct (m !! name)|].
    f_equal. generalize f64_zero. generalize (p :: ps). clear. intros l.
    induction l as [|[k v] l IH]; intros acc; [done|]. apply IH.
Qed.

(** * Sampling *)

Section sampling.
Context {T : Type} (trailing : Trailing) (observe : Metrics -> T -> option unit * T).

(** The rounds in which a scrape was made. *)
Fixpoint scraped (rounds : list SampleRound) : list SampleRound :=
  match rounds with
  | [] => []
  | r :: rounds =>
      if (bool_decide (trailing = SampleTrailing) || negb (sr_halted_before r))%bool
      then r :: (if sr_halted_after r then [] else scraped rounds) else []
  end.

Definition failed_round (r : SampleRound) : bool := negb (is_ok (sr_scrape r)).

Lemma sample_loop_counts rounds s s' :
  sample_loop trailing observe rounds s = Some s' ->
  sp_scrapes s' = sp_scrapes s + Z.of_nat (length (scraped rounds)) /\
  sp_failures s' = sp_failures s + Z.of_nat (length (filter (fun r => failed_round r = true) (scraped rounds))) /\
  0 <= sp_observations s' - sp_observations s
    <= sp_scrapes s' - sp_scrapes s - (sp_failures s' - sp_failures s).
Proof.
  revert s. induction rounds as [|r rounds IH]; intros s; cbn [sample_loop scraped]; [done|].
  destruct (_ || _)%bool; [|intros [= <-]; cbn; lia].
  assert (Hr : sp_scrapes (sample_round observe r s) = sp_scrapes s + 1 /\
     sp_failures (sample_round observe r s) = sp_failures s + (if failed_round r then 1 else 0) /\
     sp_observations s <= sp_observations (sample_round observe r s)
       <= sp_observations s + (if failed_round r then 0 else 1)).
  { unfold sample_round, failed_round. destruct (sr_scrape r); cbn; [|lia].
    destruct (observe _ _) as [[]?]; cbn; lia. }
  destruct Hr as (H1 & H2 & H3). rewrite filter_cons.
  destruct (sr_halted_after r); [intros [= <-]|intros (? & ? & ?)%IH];
    destruct (failed_round r); [rewrite decide_True by done|rewrite decide_False by done|
      rewrite decide_True by done|rewrite decide_False by done]; rewrite ?filter_nil; cbn [length]; lia.
Qed.

Lemma trailing_scrape rounds s s' :
  trailing = SampleTrailing -> sample_loop trailing observe rounds s = Some s' ->
  exists r, last (scraped rounds) = Some r /\ sr_halted_after r = true.
Proof.
  intros Ht. revert s. induction rounds as [|r rounds IH]; intros s; cbn [sample_loop scraped]; [done|].
  rewrite bool_decide_eq_true_2 by done. cbn [orb]. destruct (sr_halted_after r) eqn:Hh; [by exists r|].
  intros (r' & Hl & Hr')%IH. exists r'. split; [|done]. rewrite last_cons. by rewrite Hl.
Qed.
End sampling.

(** A complete sampling missed nothing: no scrape failed, the observer saw every one of
    them, and with a trailing sample the last one ended after the sampler was stopped. *)
Theorem complete_sampling_missed_nothing {T} trailing observe rounds (value : T) s :
  sample_loop trailing observe rounds (mkSampled value 0 0 0) = Some s -> finish_complete s = Ok s ->
  Forall (fun r => failed_round r = false) (scraped trailing rounds) /\
  sp_observations s = Z.of_nat (length (scraped trailing rounds)) /\ scraped trailing rounds <> [] /\
  (trailing = SampleTrailing -> exists r, last (scraped trailing rounds) = Some r /\ sr_halted_after r = true).
Proof.
  intros Hl Hf. destruct (sample_loop_counts _ _ _ _ _ Hl) as (H1 & H2 & H3). cbn in *.
  unfold finish_complete in Hf. destruct (_ && _)%bool eqn:E; [|done]. bools.
  split_and!; [|lia|by intros Hn; rewrite Hn in *; cbn in *; lia|intros Ht; by eapply trailing_scrape].
  assert (Hz : length (filter (fun r => failed_round r = true) (scraped trailing rounds)) = O) by lia.
  apply length_zero_iff_nil in Hz. apply Forall_forall. intros r Hr.
  destruct (failed_round r) eqn:Hfr; [|done].
  assert (r ∈ filter (fun r => failed_round r = true) (scraped trailing rounds)) as Hin
    by (by apply list_elem_of_filter). rewrite Hz in Hin. by apply elem_of_nil in Hin.
Qed.

(** * Witnesses *)

Definition expo_text : string :=
  "# HELP x" +:+ String newline ("x{kind=" +:+ "a b" +:+ "} 1.5" +:+ String newline ("y 2e3" +:+ String newline EmptyString)).

Lemma metrics_are_read_back_witness :
  Metrics_parse expo_text !! "x{kind=a b}" = Some (f64_div (f64_of 3) (f64_of 2)).
Proof.
  rewrite (metrics_are_read_back [mkSample "x" (Some "kind=a b") "1.5" (f64_div (f64_of 3) (f64_of 2));
    mkSample "y" None "2e3" (f64_of 2000)]); [vm_compute; reflexivity|].
  unfold expo_text. vm_compute lines. apply expo_other; [vm_compute; reflexivity|].
  apply (expo_sample (mkSample "x" (Some "kind=a b") "1.5" (f64_div (f64_of 3) (f64_of 2)))).
  - repeat split; vm_compute; congruence.
  - apply (expo_sample (mkSample "y" None "2e3" (f64_of 2000))); [repeat split; vm_compute; congruence|constructor].
Defined.

#[local] Definition map_order : HashIter := {| hash_iter := fun m => map_to_list m |}.
#[local] Instance map_order_laws : HashIterLaws map_order.
Proof. by split. Qed.

Lemma value_sum_counts_every_series_witness :
  exists series, @value_sum map_order "x" (<["x{a}" := f64_of 1]> ∅) =
    match series with [] => None | _ => Some (fold_left (fun sum (s : string * f64) => f64_add sum s.2) series f64_zero) end.
Proof.
  destruct (@value_sum_counts_every_series map_order _ "x" (<["x{a}" := f64_of 1]> ∅)) as (series & _ & _ & H).
  exists series. exact H.
Defined.

Lemma complete_sampling_missed_nothing_witness :
  exists s : Sampled nat, finish_complete s = Ok s /\ sp_observations s = 2.
Proof.
  pose (rounds := [mkRound false (Ok ∅) false; mkRound true (Ok ∅) true]).
  pose (s := mkSampled 2%nat 2 0 2). exists s. split; [reflexivity|].
  destruct (complete_sampling_missed_nothing SampleTrailing (fun _ n => (Some tt, S n)) rounds O s
    eq_refl eq_refl) as (_ & H & _). exact H.
Defined.
