(* ===== verification/Waiting.v ===== *)
(** Waiting: [core/src/wait.rs], [core/src/api/wait.rs], the queries of
    [core/src/transport/events.rs] and the blockhash cache of [core/src/context/transaction.rs].

    Each wait is a function of what it would observe: the results of its attempts, the
    notifications a subscription delivers in order.  A list of notifications that
    ends leaves the wait to its deadline.  [Instant] and [Duration] are nanoseconds. *)
From Stdlib Require Import String.
From S2P Require Import Prelude World Float64 Rate.

#[local] Open Scope string_scope.
#[local] Open Scope Z_scope.
#[local] Open Scope list_scope.

Inductive WaitError :=
| WRpc (error : string)
| WNotReady (reason : string)
| WDeadline (pending : option string)
| WConfirmTimeout
| WMismatch.

#[export] Instance WaitError_eq_dec : EqDecision WaitError.
Proof. solve_decision. Defined.

(** * [wait.rs] *)

Inductive ControlFlow (B C : Type) := Break (value : B) | Continue (reason : C).
Arguments Break {B C} value.
Arguments Continue {B C} reason.

Definition wait_check {T E} (r : Result T E) : ControlFlow T E :=
  match r with Ok value => Break value | Err error => Continue error end.

Definition wait_when {T} (ready : bool) (observed : T) (show : T -> string) : ControlFlow T string :=
  if ready then Break observed else Continue ("not ready: " +:+ show observed).

Definition RETRY_INTERVAL : Duration := 200 * 1000000.

(** The [n]th attempt: its result and how long it takes. *)
Record Attempts (T E : Type) := mkAttempts { a_result : nat -> Result T E; a_takes : nat -> Duration }.
Arguments mkAttempts {T E} _ _.
Arguments a_result {T E} _ _.
Arguments a_takes {T E} _ _.

Section retry.
Context {T E : Type} (op : Attempts T E) (deadline interval : Z).

(** Returns the result, when it was known and how many attempts were made; a round
    without result is [None]. *)
Definition retry_round (n : nat) (now : Instant) : option (Result T E * Instant) * Instant :=
  let now := now + a_takes op n in
  match a_result op n with
  | Ok value => (Some (Ok value, now), now)
  | Err error =>
      if deadline <=? now then (Some (Err error, now), now)
      else (None, Z.min (now + interval) deadline)
  end.

Fixpoint retry_loop (fuel n : nat) (now : Instant) : option (Result T E * Instant * nat) :=
  match fuel with
  | O => None
  | S fuel =>
      match retry_round n now with
      | (Some (result, at_), _) => Some (result, at_, S n)
      | (None, next) => retry_loop fuel (S n) next
      end
  end.
End retry.

(** A round that fails before the deadline sleeps for the interval or to the deadline. *)
Definition retry_fuel (timeout interval : Duration) : nat := Z.to_nat (timeout / interval) + 2.

Definition retry_every {T E} (op : Attempts T E) (start : Instant) (timeout interval : Duration) :
  option (Result T E * Instant * nat) :=
  retry_loop op (start + timeout) interval (retry_fuel timeout interval) 0 start.

Definition retry {T E} (op : Attempts T E) (start : Instant) (timeout : Duration) :=
  retry_every op start timeout RETRY_INTERVAL.

(** The same loop over an operation that reads and changes a state with a clock in it. *)
Section retry_with.
Context {S T E : Type} (now : S -> Instant) (sleep : Duration -> S -> S) (op : S -> Result T E * S).

Fixpoint retry_attempts (fuel : nat) (deadline : Instant) (s : S) : Result T E * S :=
  match op s with
  | (Ok a, s) => (Ok a, s)
  | (Err e, s) =>
      if deadline <=? now s then (Err e, s)
      else match fuel with
           | O => (Err e, s)
           | Datatypes.S fuel => retry_attempts fuel deadline (sleep (Z.min RETRY_INTERVAL (deadline - now s)) s)
           end
  end.
Definition retry_with (timeout : Duration) (s : S) : Result T E * S :=
  retry_attempts (retry_fuel timeout RETRY_INTERVAL) (now s + timeout) s.
End retry_with.

(** [on_change]: the waiter registers, observes, and sleeps until it is notified; other
    tasks change the state and then notify.  [reg] is the count of notifications when
    it registered, [w_dirty] says that a change has not been notified yet. *)
Section on_change.
Context {S T E : Type} (observe : S -> Result (option T) E).

Inductive Waiter :=
| Starting
| Registered (reg : nat)
| Sleeping (reg : nat)
| Returned (result : Result T E)
| Expired.

Record Watched := mkWatched { w_state : S; w_dirty : bool; w_changed : nat; w_waiter : Waiter }.

Inductive change_step : Watched -> Watched -> Prop :=
| step_register s d n : change_step (mkWatched s d n Starting) (mkWatched s d n (Registered n))
| step_ready s d n reg v :
    observe s = Ok (Some v) -> change_step (mkWatched s d n (Registered reg)) (mkWatched s d n (Returned (Ok v)))
| step_error s d n reg e :
    observe s = Err e -> change_step (mkWatched s d n (Registered reg)) (mkWatched s d n (Returned (Err e)))
| step_sleep s d n reg :
    observe s = Ok None -> change_step (mkWatched s d n (Registered reg)) (mkWatched s d n (Sleeping reg))
| step_wake s d n reg : (reg < n)%nat -> change_step (mkWatched s d n (Sleeping reg)) (mkWatched s d n Starting)
| step_expire s d n reg : change_step (mkWatched s d n (Sleeping reg)) (mkWatched s d n Expired)
(** The other tasks. *)
| step_mutate s s' d n w : change_step (mkWatched s d n w) (mkWatched s' true n w)
| step_notify s d n w : change_step (mkWatched s d n w) (mkWatched s false (Datatypes.S n) w).
End on_change.
Arguments Waiter : clear implicits.
Arguments Starting {T E}. Arguments Registered {T E} _. Arguments Sleeping {T E} _.
Arguments Returned {T E} _. Arguments Expired {T E}.
Arguments Watched : clear implicits.
Arguments mkWatched {S T E} _ _ _ _.

(** * Account watches *)

Record Account := mkAccount
  { ac_lamports : Z; ac_data : list Z; ac_owner : Pubkey; ac_executable : bool; ac_rent_epoch : Z }.

#[export] Instance Account_eq_dec : EqDecision Account.
Proof. unfold EqDecision. intros x y. unfold Decision. unfold Pubkey in *. decide equality; apply (decide (_ = _)). Defined.

Definition Account_default : Account := mkAccount 0 [] 0 false 0.

Record AccountWatch := mkWatch
  { aw_addresses : list Pubkey; aw_accounts : list (option Account); aw_seen : list bool }.

Definition watch_new (addresses : list Pubkey) : AccountWatch :=
  mkWatch addresses (replicate (length addresses) None) (replicate (length addresses) false).

Definition watch_seed (accounts : list (option Account)) (w : AccountWatch) : Result AccountWatch WaitError :=
  ensure! (length accounts =? length (aw_addresses w))%nat else WMismatch in
  Ok (mkWatch (aw_addresses w) accounts (replicate (length (aw_seen w)) true)).

(** Closure is reported as the empty system account. *)
Definition observed_account (a : Account) : option Account :=
  if decide (a = Account_default) then None else Some a.

(** Indexing past the end panics: [None]. *)
Definition watch_update (index : nat) (a : Account) (w : AccountWatch) : option AccountWatch :=
  if ((index <? length (aw_accounts w)) && (index <? length (aw_seen w)))%nat%bool
  then Some (mkWatch (aw_addresses w) (<[index := observed_account a]> (aw_accounts w)) (<[index := true]> (aw_seen w)))
  else None.

(** What a subscription delivers: an update of the [n]th account that decodes, or not. *)
Abbreviation AccountUpdates := (list (Result (nat * Result Account WaitError) WaitError)) (only parsing).

Fixpoint watch_until {T} (ready : list (option Account) -> Result T string) (updates : AccountUpdates)
    (w : AccountWatch) : option (Result T WaitError * AccountWatch) :=
  let attempt :=
    if forallb (fun b : bool => b) (aw_seen w) then ready (aw_accounts w)
    else Err "account notifications missing" in
  match attempt with
  | Ok value => Some (Ok value, w)
  | Err error =>
      match updates with
      | [] => Some (Err (WDeadline (Some error)), w)
      | Err e :: _ => Some (Err e, w)
      | Ok (_, Err e) :: _ => Some (Err e, w)
      | Ok (index, Ok account) :: updates =>
          w ← watch_update index account w;
          watch_until ready updates w
      end
  end.

(** [addresses.chunks(100)] *)
Fixpoint chunks_loop {A} (fuel size : nat) (l : list A) : list (list A) :=
  match fuel with
  | O => []
  | S fuel => match l with [] => [] | _ => take size l :: chunks_loop fuel size (drop size l) end
  end.
Definition chunks {A} (size : nat) (l : list A) : list (list A) := chunks_loop (length l) size l.

Fixpoint read_chunks (get : list Pubkey -> Result (list (option Account)) WaitError) (l : list (list Pubkey)) :
  Result (list (option Account)) WaitError :=
  match l with
  | [] => Ok []
  | chunk :: l => let? accounts := get chunk in let? rest := read_chunks get l in Ok (accounts ++ rest)
  end.

(** [await_accounts]: subscribe, then read the snapshot, then follow the updates. *)
Definition await_accounts {T} (subscribed : Result unit WaitError)
    (get_multiple_accounts : list Pubkey -> Result (list (option Account)) WaitError)
    (updates : AccountUpdates) (addresses : list Pubkey)
    (ready : list (option Account) -> Result T string) : option (Result T WaitError) :=
  match subscribed with
  | Err e => Some (Err e)
  | Ok _ =>
      match read_chunks get_multiple_accounts (chunks 100 addresses) with
      | Err e => Some (Err e)
      | Ok accounts =>
          match watch_seed accounts (watch_new addresses) with
          | Err e => Some (Err e)
          | Ok w => fst <$> watch_until ready updates w
          end
      end
  end.

(** [await_account]: the one account, when it is there and ready. *)
Definition await_account (subscribed : Result unit WaitError)
    (get_multiple_accounts : list Pubkey -> Result (list (option Account)) WaitError)
    (updates : AccountUpdates) (address : Pubkey) (ready : Account -> Result unit string) :
  option (Result Account WaitError) :=
  await_accounts subscribed get_multiple_accounts updates [address] (fun accounts =>
    match accounts !! O with
    | Some (Some account) => let? _ := ready account in Ok account
    | _ => Err "account missing"
    end).

(** * Queries repeated after each slot *)

(** [query_until]: [observe] is asked once, and again after each slot. *)
Fixpoint query_until {T} (observations : list (Result (ControlFlow T string) WaitError))
    (slots : list (Result unit WaitError)) : Result T WaitError :=
  match observations with
  | [] => Err (WDeadline None)
  | observed :: observations =>
      let? flow := observed in
      match flow with
      | Break value => Ok value
      | Continue reason =>
          match slots with
          | [] => Err (WDeadline (Some reason))
          | slot :: slots => let? _ := slot in query_until observations slots
          end
      end
  end.

(** [await_slot]: the observed slot is at least the one asked for. *)
Definition await_slot (slot : Z) (show : Z -> string) (replies : list (Result Z WaitError))
    (slots : list (Result unit WaitError)) : Result Z WaitError :=
  query_until ((fun reply => let? current := reply in Ok (wait_when (slot <=? current) current show)) <$> replies) slots.

Definition await_transaction {Tx} (replies : list (Result (option Tx) WaitError))
    (slots : list (Result unit WaitError)) : Result Tx WaitError :=
  query_until ((fun reply => let? found := reply in
                  Ok (wait_check (ok_or found "transaction not published"))) <$> replies) slots.

(** [Subscription::until]: the first event that matches. *)
Fixpoint sub_until {T} (matches : T -> bool) (events : list (Result T WaitError)) : Result T WaitError :=
  match events with
  | [] => Err (WDeadline None)
  | event :: events => let? event := event in if matches event then Ok event else sub_until matches events
  end.

(** [for_signature] *)
Definition for_signature {L} (signature_of : L -> string) (signature : string) (events : list (Result L WaitError)) :
  Result L WaitError :=
  sub_until (fun event => String.eqb (signature_of event) signature) events.

(** * Confirmations *)

(** [RpcSignatureResult]; the error of an executed transaction is a text here. *)
Inductive SignatureNote := ReceivedSignature | ProcessedSignature (err : option string).

Record TransactionStatus := mkStatus { st_err : option string; st_confirmed : bool }.

Definition note_outcome (err : option string) : Result unit string :=
  match err with None => Ok tt | Some e => Err e end.

(** [signature_outcome]: received-signature notes are ignored. *)
Fixpoint signature_outcome (notes : list (Result SignatureNote WaitError)) : Result (Result unit string) WaitError :=
  match notes with
  | [] => Err WConfirmTimeout
  | note :: notes =>
      let? note := note in
      match note with
      | ProcessedSignature err => Ok (note_outcome err)
      | ReceivedSignature => signature_outcome notes
      end
  end.

(** [try_confirm], with what is buffered when it subscribed, the HTTP status and the later notes. *)
Definition try_confirm (subscribed : Result unit WaitError) (buffered : Result (option SignatureNote) WaitError)
    (status : Result (option TransactionStatus) WaitError) (notes : list (Result SignatureNote WaitError)) :
  Result (Result unit string) WaitError :=
  let? _ := subscribed in
  let? first := buffered in
  match first with
  | Some (ProcessedSignature err) => Ok (note_outcome err)
  | _ =>
      let? status := status in
      match status with
      | Some st =>
          match st_err st with
          | Some err => Ok (Err err)
          | None => if st_confirmed st then Ok (Ok tt) else signature_outcome notes
          end
      | None => signature_outcome notes
      end
  end.

Inductive SendError := Rejected (error : string) | Execution (error : string).

(** [try_send_and_confirm]: subscribed before it is sent. *)
Definition try_send_and_confirm (signature : Z) (subscribed : Result unit WaitError)
    (sent : Result (Result unit string) WaitError) (notes : list (Result SignatureNote WaitError)) :
  Result (Result Z SendError) WaitError :=
  let? _ := subscribed in
  let? reply := sent in
  match reply with
  | Err error => Ok (Err (Rejected error))
  | Ok _ =>
      let? outcome := signature_outcome notes in
      Ok match outcome with Ok _ => Ok signature | Err e => Err (Execution e) end
  end.

(** [Api::events]: the shared connection is replaced once it is closed. *)
Definition api_events {Conn} (is_closed : Conn -> bool) (connect : Result Conn WaitError) (events : option Conn) :
  Result Conn WaitError * option Conn :=
  match events with
  | Some c =>
      if is_closed c
      then match connect with Ok new => (Ok new, Some new) | Err e => (Err e, events) end
      else (Ok c, events)
  | None => match connect with Ok new => (Ok new, Some new) | Err e => (Err e, events) end
  end.

(** * The blockhash cache *)

Record BlockhashCache := mkCache { bc_ttl : Duration; bc_cached : option (Z * Instant) }.

Definition BlockhashCache_new (ttl : Duration) : BlockhashCache := mkCache ttl None.
Definition cache_reset (c : BlockhashCache) : BlockhashCache := mkCache (bc_ttl c) None.

(** [get] at [now]; a fetch that is needed ends at [fetched_at] with [latest]. *)
Definition cache_get (now fetched_at : Instant) (latest : Result Z WaitError) (c : BlockhashCache) :
  Result Z WaitError * BlockhashCache :=
  match bc_cached c with
  | Some (hash, at_) =>
      if now - at_ <? bc_ttl c then (Ok hash, c)
      else match latest with
           | Ok hash => (Ok hash, mkCache (bc_ttl c) (Some (hash, fetched_at)))
           | Err e => (Err e, c)
           end
  | None => match latest with
            | Ok hash => (Ok hash, mkCache (bc_ttl c) (Some (hash, fetched_at)))
            | Err e => (Err e, c)
            end
  end.
