(* ===== verification/WaitingProps.v ===== *)
(** Waiting: retries end and give up only at their deadline, no wake-up is lost, watches
    see the latest images, and a cached blockhash is fresh. *)
From Stdlib Require Import String.
From S2P Require Import Prelude World Float64 Rate Waiting.

#[local] Open Scope string_scope.
#[local] Open Scope Z_scope.
#[local] Open Scope list_scope.

(** * Retries *)

Section retry.
Context {T E : Type} (op : Attempts T E) (start timeout interval : Z).
Context (Htimeout : 0 <= timeout) (Hinterval : 0 < interval) (Htakes : forall n, 0 <= a_takes op n).

(** The [n]th round starts no earlier than [n] intervals after the first, or at the deadline. *)
Definition round_start (n : nat) (now : Z) : Prop :=
  Z.min (start + Z.of_nat n * interval) (start + timeout) <= now.

Lemma retry_loop_ends fuel n now :
  round_start n now -> timeout < (Z.of_nat n + Z.of_nat fuel - 1) * interval ->
  (forall k, (k < n)%nat -> exists e, a_result op k = Err e) -> (0 < fuel)%nat ->
  exists result at_ m, retry_loop op (start + timeout) interval fuel n now = Some (result, at_, S m) /\
    (n <= m < n + fuel)%nat /\ a_result op m = result /\
    (forall k, (k < m)%nat -> exists e, a_result op k = Err e) /\
    (is_ok result = false -> start + timeout <= at_).
Proof.
  revert n now. induction fuel as [|fuel IH]; intros n now Hr Hb Hprev Hf; [lia|].
  cbn [retry_loop]. unfold retry_round. pose proof (Htakes n).
  destruct (a_result op n) as [v|e] eqn:Hn.
  - exists (Ok v), (now + a_takes op n), n. split_and!; [done|lia..|done|done|done].
  - destruct (Z.leb_spec (start + timeout) (now + a_takes op n)) as [Hd|Hd].
    + exists (Err e), (now + a_takes op n), n. split_and!; [done|lia..|done|done|lia].
    + unfold round_start in Hr. destruct fuel as [|fuel].
      { replace (Z.of_nat n + Z.of_nat 1 - 1) with (Z.of_nat n) in Hb by lia. lia. }
      destruct (IH (S n) (Z.min (now + a_takes op n + interval) (start + timeout)))
        as (result & at_ & m & Hl & Hm & Hres & Hall & Hlate).
      * unfold round_start. rewrite Nat2Z.inj_succ. lia.
      * replace (Z.of_nat (S n) + Z.of_nat (S fuel) - 1) with (Z.of_nat n + Z.of_nat (S (S fuel)) - 1) by lia. done.
      * intros k Hk. destruct (decide (k = n)) as [->|]; [by exists e|]. apply Hprev. lia.
      * lia.
      * exists result, at_, m. split_and!; [done|lia..|done|done|done].
Qed.
End retry.

(** A retry returns: the first success, after failures only, or the last failure, and
    then only at or after the deadline; it makes at most two attempts more than there
    are intervals in the timeout. *)
Theorem retry_returns {T E} (op : Attempts T E) start timeout interval :
  0 <= timeout -> 0 < interval -> (forall n, 0 <= a_takes op n) ->
  exists result at_ m, retry_every op start timeout interval = Some (result, at_, S m) /\
    Z.of_nat (S m) <= timeout / interval + 2 /\ a_result op m = result /\
    (forall k, (k < m)%nat -> exists e, a_result op k = Err e) /\
    (is_ok result = false -> start + timeout <= at_).
Proof.
  intros Ht Hi Htakes. unfold retry_every, retry_fuel.
  pose proof (Z.div_pos timeout interval Ht Hi). pose proof (Z.mul_succ_div_gt timeout interval Hi).
  destruct (retry_loop_ends op start timeout interval Hi Htakes (Z.to_nat (timeout / interval) + 2) 0 start)
    as (result & at_ & m & Hl & Hm & Hrest); [unfold round_start; lia|nia|lia|lia|].
  exists result, at_, m. split; [done|]. split; [lia|done].
Qed.

Lemma retry_returns_witness :
  exists result at_ m, retry_every (mkAttempts (fun n => if (n <? 3)%nat then Err "no" else Ok n) (fun _ => 10))
    0 1000 200 = Some (result, at_, S m) /\ result = Ok 3%nat.
Proof.
  destruct (retry_returns (mkAttempts (fun n => if (n <? 3)%nat then Err "no" else Ok n) (fun _ => 10)) 0 1000 200)
    as (result & at_ & m & H & _); [lia|lia|intros; cbn; lia|].
  exists result, at_, m. split; [exact H|]. vm_compute in H. by injection H as <-.
Defined.

(** A retry over a state whose clock only the sleeps move: it succeeds when the operation does at the
    deadline at the latest, and not after it. *)
Section retry_with.
Context {S T E : Type} (now : S -> Instant) (sleep : Duration -> S -> S) (op : S -> Result T E * S) (P : S -> Prop).
Context (Hsleep : forall d s, 0 <= d -> P s -> now (sleep d s) = now s + d /\ P (sleep d s)) (Hop : forall s, (op s).2 = s).

Lemma retry_attempts_succeed fuel deadline s :
  P s -> (forall s, P s -> now s = deadline -> is_ok (op s).1 = true) -> now s <= deadline -> deadline - now s <= Z.of_nat fuel * RETRY_INTERVAL ->
  exists a s', retry_attempts now sleep op fuel deadline s = (Ok a, s') /\ P s' /\ (op s').1 = Ok a /\ now s <= now s' <= deadline.
Proof.
  intros HP Hready. revert s HP. induction fuel as [|fuel IH]; intros s HP Hle Hfuel; cbn [retry_attempts];
    pose proof (Hop s) as Hs; destruct (op s) as [[a|e] s1] eqn:Ho; cbn in Hs; subst s1.
  - exists a, s. rewrite Ho. split_and!; done || lia.
  - assert (Hd : now s = deadline) by lia. specialize (Hready s HP Hd). by rewrite Ho in Hready.
  - exists a, s. rewrite Ho. split_and!; done || lia.
  - destruct (Z.leb_spec deadline (now s)) as [Hd|Hd]; [specialize (Hready s HP ltac:(lia)); by rewrite Ho in Hready|].
    destruct (Hsleep (Z.min RETRY_INTERVAL (deadline - now s)) s) as [Hn HP']; [unfold RETRY_INTERVAL; lia|done|].
    destruct (IH (sleep (Z.min RETRY_INTERVAL (deadline - now s)) s)) as (a & s' & Hr & ? & ? & ?); [done|lia|unfold RETRY_INTERVAL in *; lia|].
    exists a, s'. split_and!; done || (unfold RETRY_INTERVAL in *; lia).
Qed.

Lemma retry_with_succeeds timeout s :
  0 <= timeout -> P s -> (forall s', P s' -> now s' = now s + timeout -> is_ok (op s').1 = true) ->
  exists a s', retry_with now sleep op timeout s = (Ok a, s') /\ P s' /\ (op s').1 = Ok a /\ now s <= now s' <= now s + timeout.
Proof.
  intros Ht HP Hready. apply retry_attempts_succeed; [done|done|lia|]. unfold retry_fuel, RETRY_INTERVAL.
  pose proof (Z.div_mod timeout (200 * 1000000) ltac:(lia)). pose proof (Z.mod_pos_bound timeout (200 * 1000000) ltac:(lia)).
  pose proof (Z.div_pos timeout (200 * 1000000) Ht ltac:(lia)). lia.
Qed.
End retry_with.

(** * Wake-ups *)

Section wakeup.
Context {S T E : Type} (observe : S -> Result (option T) E).

Definition waiter_ok (w : Watched S T E) : Prop :=
  match w_waiter w with
  | Registered reg => (reg <= w_changed w)%nat
  | Sleeping reg =>
      (reg <= w_changed w)%nat /\
      (reg = w_changed w -> w_dirty w = false -> observe (w_state w) = Ok None)
  | _ => True
  end.

Lemma change_step_ok w w' : change_step observe w w' -> waiter_ok w -> waiter_ok w'.
Proof.
  destruct 1; unfold waiter_ok; cbn; try done; try lia.
  - by destruct w; try lia.
  - by destruct w; try lia.
Qed.

Lemma change_steps_ok w w' : rtc (change_step observe) w w' -> waiter_ok w -> waiter_ok w'.
Proof. induction 1; eauto using change_step_ok. Qed.
End wakeup.

(** C31: No wake-up is lost: whenever the waiter of [on_change] sleeps with no notification
    outstanding, what it waits for is not there, however other tasks' changes interleave. *)
Theorem no_wakeup_is_lost {S T E} (observe : S -> Result (option T) E) s d n w reg :
  rtc (change_step observe) (mkWatched s d n Starting) w ->
  w_waiter w = Sleeping reg -> w_dirty w = false ->
  change_step observe w (mkWatched (w_state w) (w_dirty w) (w_changed w) Starting) \/
  observe (w_state w) = Ok None.
Proof.
  intros Hr Hw Hd. apply change_steps_ok in Hr; [|done]. unfold waiter_ok in Hr. rewrite Hw in Hr.
  destruct Hr as [Hle Hnone]. destruct (decide (reg = w_changed w)) as [->|]; [right; by apply Hnone|left].
  destruct w as [s' d' n' w']. cbn in *. subst. apply step_wake. lia.
Qed.

Lemma no_wakeup_is_lost_witness :
  let observe := fun b : bool => Ok (if b then Some tt else None) : Result (option unit) unit in
  let w := mkWatched true false 1 (Sleeping 0) in
  rtc (change_step observe) (mkWatched false false 0 Starting) w /\
  (change_step observe w (mkWatched true false 1 Starting) \/ observe true = Ok None).
Proof.
  set (observe := fun b : bool => Ok (if b then Some tt else None) : Result (option unit) unit).
  set (w := mkWatched true false 1 (Sleeping 0)).
  assert (H : rtc (change_step observe) (mkWatched false false 0 Starting) w).
  { eapply rtc_l; [apply step_register|]. eapply rtc_l; [by apply step_sleep|].
    eapply rtc_l; [apply (step_mutate _ _ true)|]. eapply rtc_l; [apply step_notify|]. apply rtc_refl. }
  split; [exact H|]. exact (no_wakeup_is_lost observe false false 0 w 0 H eq_refl eq_refl).
Defined.

(** * Account watches *)

(** The image of each account after a sequence of updates. *)
Definition image (snapshot : list (option Account)) (us : list (nat * Account)) : list (option Account) :=
  fold_left (fun l '(i, a) => <[i := observed_account a]> l) us snapshot.

Lemma length_image snapshot us : length (image snapshot us) = length snapshot.
Proof.
  unfold image. revert snapshot. induction us as [|[i a] us IH]; intros l; cbn [fold_left]; [done|].
  by rewrite IH, length_insert.
Qed.

Definition good (u : nat * Account) : Result (nat * Result Account WaitError) WaitError := Ok (u.1, Ok u.2).

Lemma all_seen l : Forall (fun b => b = true) l -> forallb (fun b : bool => b) l = true.
Proof. induction 1 as [|b l -> _ IH]; [done|]. exact IH. Qed.

Lemma watch_until_ok {T} (ready : list (option Account) -> Result T string) us w v w' :
  watch_until ready us w = Some (Ok v, w') -> Forall (fun b => b = true) (aw_seen w) ->
  exists used rest, us = (good <$> used) ++ rest /\ ready (image (aw_accounts w) used) = Ok v /\
    forall k, (k < length used)%nat -> exists e, ready (image (aw_accounts w) (take k used)) = Err e.
Proof.
  revert w. induction us as [|u us IH]; intros w Hw Hs; cbn [watch_until] in Hw;
    rewrite all_seen in Hw by done;
    destruct (ready (aw_accounts w)) as [v'|e] eqn:Hr; simplify_eq.
  - exists [], []. split_and!; [done|done|cbn; lia].
  - exists [], (u :: us). split_and!; [done|done|cbn; lia].
  - destruct u as [[i [a|?]]|?]; try done. apply bind_Some in Hw as (w1 & Hu & Hw).
    unfold watch_update in Hu. destruct (_ && _)%bool; [|done]. injection Hu as <-.
    apply IH in Hw as (used & rest & -> & Hv & Hall); [|by apply Forall_insert].
    exists ((i, a) :: used), rest. split_and!; [done|done|]. intros [|k] Hk; cbn; [by exists e|].
    apply Hall. cbn in Hk. lia.
Qed.

Lemma watch_until_total {T} (ready : list (option Account) -> Result T string) us w :
  length (aw_seen w) = length (aw_accounts w) ->
  Forall (fun u => match u with Ok (i, Ok _) => (i < length (aw_accounts w))%nat | _ => True end) us ->
  is_Some (watch_until ready us w).
Proof.
  revert w. induction us as [|u us IH]; intros w Hl Hu; cbn [watch_until].
  - by destruct (forallb _ _); [destruct (ready _)|].
  - set (attempt := if forallb _ _ then _ else _). destruct attempt; [done|]. apply Forall_cons in Hu as [Hi Hu].
    destruct u as [[i [a|?]]|?]; [|done..]. unfold watch_update.
    destruct (Nat.ltb_spec i (length (aw_accounts w))); [|lia].
    destruct (Nat.ltb_spec i (length (aw_seen w))); [|lia]. cbn. apply IH; cbn; rewrite !length_insert; done.
Qed.

Lemma concat_chunks {A} fuel size (l : list A) :
  (0 < size)%nat -> (length l <= fuel)%nat -> concat (chunks_loop fuel size l) = l.
Proof.
  intros Hs. revert l. induction fuel as [|fuel IH]; intros l Hl; cbn [chunks_loop].
  - by destruct l; cbn in *; [|lia].
  - destruct l as [|x l]; [done|]. cbn [concat]. rewrite IH, take_drop; [done|].
    rewrite length_drop. cbn in *. lia.
Qed.

Lemma read_chunks_snapshot get (current : Pubkey -> option Account) l accounts :
  (forall chunk r, get chunk = Ok r -> r = current <$> chunk) ->
  read_chunks get l = Ok accounts -> accounts = current <$> concat l.
Proof.
  intros Hg. revert accounts. induction l as [|c l IH]; intros accounts; cbn [read_chunks concat]; [by intros [= <-]|].
  destruct (get c) as [r|] eqn:Hc; [|done]. cbn. destruct (read_chunks get l) as [rest|]; [|done]. cbn.
  intros [= <-]. rewrite fmap_app, <- (IH rest) by done. by rewrite (Hg c r).
Qed.

(** A wait for accounts succeeds on what the chain shows: the snapshot of all addresses,
    chunk by chunk, overwritten by the updates that arrived since, each account's latest
    image in request order; and at the first moment that satisfies the check. *)
Theorem awaited_accounts_are_the_latest {T} subscribed get updates addresses
    (ready : list (option Account) -> Result T string) current v :
  (forall chunk r, get chunk = Ok r -> r = current <$> chunk) ->
  await_accounts subscribed get updates addresses ready = Some (Ok v) ->
  exists used rest, updates = (good <$> used) ++ rest /\
    ready (image (current <$> addresses) used) = Ok v /\
    forall k, (k < length used)%nat -> exists e, ready (image (current <$> addresses) (take k used)) = Err e.
Proof.
  intros Hg. unfold await_accounts. destruct subscribed; [|done].
  destruct (read_chunks get (chunks 100 addresses)) as [accounts|] eqn:Hr; [|done].
  apply (read_chunks_snapshot _ current) in Hr; [|done].
  unfold chunks in Hr. rewrite concat_chunks in Hr by lia. subst accounts.
  unfold watch_seed. rewrite length_fmap, Nat.eqb_refl.
  intros ([r w'] & Hu & Hv)%fmap_Some. cbn in Hv. subst r.
  apply watch_until_ok in Hu; [done|]. cbn. apply Forall_replicate. done.
Qed.

Lemma awaited_accounts_are_the_latest_witness :
  let a := mkAccount 5 [1] 0 false 0 in
  await_accounts (Ok tt) (fun chunk => Ok ((fun _ => None) <$> chunk)) [good (0%nat, a)] [7]
    (fun l => match l with [Some x] => Ok x | _ => Err "missing" end) = Some (Ok a).
Proof.
  intros a.
  assert (H : await_accounts (Ok tt) (fun chunk => Ok ((fun _ => None) <$> chunk)) [good (0%nat, a)] [7]
    (fun l => match l with [Some x] => Ok x | _ => Err "missing" end) = Some (Ok a)) by reflexivity.
  assert (Hg : forall (chunk : list Pubkey) r,
    (fun chunk => Ok ((fun _ => None) <$> chunk) : Result (list (option Account)) WaitError) chunk = Ok r ->
    r = (fun _ => None) <$> chunk) by (intros chunk r Hr; by injection Hr as <-).
  destruct (awaited_accounts_are_the_latest (Ok tt) _ _ _ _ (fun _ => None) a Hg H) as (used & rest & _).
  exact H.
Defined.

(** * Confirmations and blockhashes *)

(** A confirmation reports the execution error of a note or of the status, and success
    only on a processed note without error or a confirmed status. *)
Lemma try_confirm_success subscribed buffered status notes :
  try_confirm subscribed buffered status notes = Ok (Ok tt) ->
  buffered = Ok (Some (ProcessedSignature None)) \/
  (exists st, status = Ok (Some st) /\ st_err st = None /\ st_confirmed st = true) \/
  Ok (ProcessedSignature None) ∈ notes.
Proof.
  assert (Hn : forall l, signature_outcome l = Ok (Ok tt) -> Ok (ProcessedSignature None) ∈ l).
  { induction l as [|[[|[e|]]|e] l IH]; cbn; try done; [intros ?%IH; by right|intros _; left]. }
  unfold try_confirm. destruct subscribed; [|done]. destruct buffered as [[[|[e|]]|]|]; cbn; try done; [|by left|].
  all: destruct status as [[[[e|] []]|]|]; cbn; try done; try (intros ?%Hn; by right; right);
    intros _; right; left; eexists; split_and!; done.
Qed.

(** A blockhash from the cache is younger than its time to live: it was fetched less
    than that before the call, or by the call. *)
Theorem cached_blockhash_is_fresh now fetched_at latest c hash c' :
  cache_get now fetched_at latest c = (Ok hash, c') ->
  exists at_, bc_cached c' = Some (hash, at_) /\
    ((now - at_ < bc_ttl c /\ c' = c) \/ (at_ = fetched_at /\ latest = Ok hash)).
Proof.
  unfold cache_get. destruct (bc_cached c) as [[h a]|] eqn:Hc.
  - destruct (Z.ltb_spec (now - a) (bc_ttl c)).
    + intros [= <- <-]. exists a. auto.
    + destruct latest; [|done]. intros [= <- <-]. exists fetched_at. auto.
  - destruct latest; [|done]. intros [= <- <-]. exists fetched_at. auto.
Qed.

Lemma cached_blockhash_is_fresh_witness :
  exists at_, bc_cached (mkCache 30 (Some (9, 100))) = Some (9, at_) /\ 120 - at_ < 30.
Proof.
  destruct (cached_blockhash_is_fresh 120 0 (Err WMismatch) (mkCache 30 (Some (9, 100))) 9 (mkCache 30 (Some (9, 100)))
    eq_refl) as (at_ & H1 & _). exists at_. split; [exact H1|]. injection H1 as <-. lia.
Defined.
