(* ===== verification/RawWs.v ===== *)
(** The raw WebSocket client of the negative scenarios: [core/src/transport/wsraw.rs].

    Calls run one after the other on one socket.  [Incoming] is what the socket
    delivers to successive reads: a received text, the reason it closed, or [Quiet],
    the deadline of the call passing first.  Payload decoding is an argument. *)
From Stdlib Require Import String.
From S2P Require Import Prelude Subscription.

Section raw.
Context `{J : SocketJson} {V : Type} (decode : LazyValue -> option V).

(** Method, subscription and payload. *)
Abbreviation RawNotification := (string * Z * V)%type (only parsing).

Record RawWs := mkRaw { rw_next_id : Z; rw_queue : list RawNotification; rw_malformed : Z }.

Definition RawWs_connect : RawWs := mkRaw 1 [] 0.

Inductive Incoming := Arrived (read : Result string CloseReason) | Quiet.

Inductive RawError := RawTimeout | RawClosed (reason : CloseReason) | RawBadReply | RawSend (error : string).

Definition raw_malformed (w : RawWs) : RawWs := mkRaw (rw_next_id w) (rw_queue w) (rw_malformed w + 1).
Definition raw_push (n : RawNotification) (w : RawWs) : RawWs :=
  mkRaw (rw_next_id w) (rw_queue w ++ [n]) (rw_malformed w).

Definition decode_notification (method : string) (params : Notification) (w : RawWs) :
  option RawNotification * RawWs :=
  match decode (n_result params) with
  | Some payload => (Some (method, n_subscription params, payload), w)
  | None => (None, raw_malformed w)
  end.

(** The loop of [try_request]: the reply to [id], with the input it did not read. *)
Fixpoint await_reply (id : Z) (input : list Incoming) (w : RawWs) :
  Result (Result LazyValue RpcError) RawError * list Incoming * RawWs :=
  match input with
  | [] | Quiet :: _ => (Err RawTimeout, tail input, w)
  | Arrived (Err reason) :: input => (Err (RawClosed reason), input, w)
  | Arrived (Ok text) :: input =>
      match parse text with
      | Err reason => (Err (RawClosed reason), input, w)
      | Ok (Some (Reply reply result)) =>
          if reply =? id then (Ok result, input, w) else await_reply id input w
      | Ok None => await_reply id input w
      | Ok (Some (Notify method params)) =>
          match decode_notification method params w with
          | (Some n, w) => await_reply id input (raw_push n w)
          | (None, w) => await_reply id input w
          end
      | Ok (Some Malformed) => await_reply id input (raw_malformed w)
      end
  end.

(** [try_request]: send under a fresh id, then wait; [from_str] reads the result. *)
Definition try_request {T} (from_str : LazyValue -> option T) (sent : Result unit string)
    (input : list Incoming) (w : RawWs) : Result (Result T RpcError) RawError * list Incoming * RawWs :=
  let id := rw_next_id w in
  let w := mkRaw (id + 1) (rw_queue w) (rw_malformed w) in
  match sent with
  | Err error => (Err (RawSend error), input, w)
  | Ok _ =>
      let '(result, input, w) := await_reply id input w in
      (match result with
       | Err e => Err e
       | Ok (Err error) => Ok (Err error)
       | Ok (Ok value) => match from_str value with Some t => Ok (Ok t) | None => Err RawBadReply end
       end, input, w)
  end.

(** The loop of [next_notification]. *)
Fixpoint read_notification (input : list Incoming) (w : RawWs) :
  Result (option RawNotification) RawError * list Incoming * RawWs :=
  match input with
  | [] | Quiet :: _ => (Ok None, tail input, w)
  | Arrived (Err reason) :: input => (Err (RawClosed reason), input, w)
  | Arrived (Ok text) :: input =>
      match parse text with
      | Err reason => (Err (RawClosed reason), input, w)
      | Ok (Some (Notify method params)) =>
          match decode_notification method params w with
          | (Some n, w) => (Ok (Some n), input, w)
          | (None, w) => read_notification input w
          end
      | Ok (Some (Reply _ (Err error))) => (Err (RawClosed (ServerError error)), input, w)
      | Ok (Some (Reply _ (Ok _))) | Ok None => read_notification input w
      | Ok (Some Malformed) => read_notification input (raw_malformed w)
      end
  end.

Definition next_notification (input : list Incoming) (w : RawWs) :
  Result (option RawNotification) RawError * list Incoming * RawWs :=
  match rw_queue w with
  | n :: queue => (Ok (Some n), input, mkRaw (rw_next_id w) queue (rw_malformed w))
  | [] => read_notification input w
  end.

(** * A session: calls in sequence *)

Inductive RawCall := CallRequest (sent : Result unit string) | CallNext.

(** The notifications a session returns, and its final state. *)
Fixpoint session (calls : list RawCall) (input : list Incoming) (w : RawWs) :
  list RawNotification * list Incoming * RawWs :=
  match calls with
  | [] => ([], input, w)
  | CallRequest sent :: calls =>
      let '(_, input, w) := try_request (fun v => Some v) sent input w in session calls input w
  | CallNext :: calls =>
      let '(r, input, w) := next_notification input w in
      let '(out, input, w) := session calls input w in
      (match r with Ok (Some n) => n :: out | _ => out end, input, w)
  end.

(** The notifications of an input, in the order they arrive. *)
Definition notification_of (i : Incoming) : option RawNotification :=
  match i with
  | Arrived (Ok text) =>
      match parse text with
      | Ok (Some (Notify method params)) =>
          payload ← decode (n_result params); Some (method, n_subscription params, payload)
      | _ => None
      end
  | _ => None
  end.

(** ** Every call reads a part of the input *)

Lemma await_reply_reads id input w r rest w' :
  await_reply id input w = (r, rest, w') ->
  exists used, input = used ++ rest /\ rw_queue w' = rw_queue w ++ omap notification_of used /\
    rw_next_id w' = rw_next_id w.
Proof.
  revert w. induction input as [|i input IH]; intros w; cbn [await_reply].
  - intros [= <- <- <-]. exists []. cbn. by rewrite app_nil_r.
  - assert (Hstep : forall w1, await_reply id input w1 = (r, rest, w') ->
      rw_queue w1 = rw_queue w ++ omap notification_of [i] -> rw_next_id w1 = rw_next_id w ->
      exists used, i :: input = used ++ rest /\ rw_queue w' = rw_queue w ++ omap notification_of used /\
        rw_next_id w' = rw_next_id w).
    { intros w1 Hw1 Hq Hn. apply IH in Hw1 as (used & -> & Hq' & Hn'). exists ([i] ++ used).
      rewrite Hq', Hq, Hn', Hn, omap_app, <- !app_assoc. done. }
    destruct i as [[text|reason]|].
    + destruct (parse text) as [[[reply result|method params|]|]|reason] eqn:Hp.
      * destruct (reply =? id); [|intros H; apply (Hstep w H); cbn; rewrite ?Hp, ?app_nil_r; done].
        intros [= <- <- <-]. exists [Arrived (Ok text)]. cbn. by rewrite Hp, app_nil_r.
      * unfold decode_notification. destruct (decode (n_result params)) as [v|] eqn:Hd;
          intros H; apply (Hstep _ H); cbn; rewrite ?Hp, ?Hd, ?app_nil_r; done.
      * intros H. apply (Hstep _ H); cbn; rewrite ?Hp, ?app_nil_r; done.
      * intros H. apply (Hstep _ H); cbn; rewrite ?Hp, ?app_nil_r; done.
      * intros [= <- <- <-]. exists [Arrived (Ok text)]. cbn. by rewrite Hp, app_nil_r.
    + intros [= <- <- <-]. exists [Arrived (Err reason)]. cbn. by rewrite app_nil_r.
    + intros [= <- <- <-]. exists [Quiet]. cbn. by rewrite app_nil_r.
Qed.

Definition returned (r : Result (option RawNotification) RawError) : list RawNotification :=
  match r with Ok (Some n) => [n] | _ => [] end.

Lemma read_notification_reads input w r rest w' :
  read_notification input w = (r, rest, w') ->
  exists used, input = used ++ rest /\ rw_queue w' = rw_queue w /\ returned r = omap notification_of used.
Proof.
  revert w. induction input as [|i input IH]; intros w; cbn [read_notification].
  - intros [= <- <- <-]. by exists [].
  - assert (Hstep : forall w1, read_notification input w1 = (r, rest, w') ->
      rw_queue w1 = rw_queue w -> notification_of i = None ->
      exists used, i :: input = used ++ rest /\ rw_queue w' = rw_queue w /\ returned r = omap notification_of used).
    { intros w1 Hw1 Hq Hn. apply IH in Hw1 as (used & -> & Hq' & Hr). exists (i :: used).
      cbn. by rewrite Hq', Hq, Hn. }
    destruct i as [[text|reason]|].
    + destruct (parse text) as [[[reply [value|error]|method params|]|]|reason] eqn:Hp.
      * intros H. apply (Hstep _ H); cbn; by rewrite ?Hp.
      * intros [= <- <- <-]. exists [Arrived (Ok text)]. cbn. by rewrite Hp.
      * unfold decode_notification. destruct (decode (n_result params)) as [v|] eqn:Hd.
        -- intros [= <- <- <-]. exists [Arrived (Ok text)]. cbn. by rewrite Hp, Hd.
        -- intros H. apply (Hstep _ H); cbn; by rewrite ?Hp, ?Hd.
      * intros H. apply (Hstep _ H); cbn; by rewrite ?Hp.
      * intros H. apply (Hstep _ H); cbn; by rewrite ?Hp.
      * intros [= <- <- <-]. exists [Arrived (Ok text)]. cbn. by rewrite Hp.
    + intros [= <- <- <-]. by exists [Arrived (Err reason)].
    + intros [= <- <- <-]. by exists [Quiet].
Qed.

Lemma next_notification_reads input w r rest w' :
  next_notification input w = (r, rest, w') ->
  exists used, input = used ++ rest /\ returned r ++ rw_queue w' = rw_queue w ++ omap notification_of used.
Proof.
  unfold next_notification. destruct (rw_queue w) as [|n queue] eqn:Hq.
  - intros (used & -> & Hq' & Hr)%read_notification_reads. exists used. by rewrite Hq', Hq, Hr, app_nil_r.
  - intros [= <- <- <-]. exists []. cbn. by rewrite app_nil_r.
Qed.
End raw.
Arguments RawWs : clear implicits.
Arguments mkRaw {V} _ _ _.

(** The raw client neither loses, reorders nor invents a notification: over any sequence
    of requests and reads, what the reads returned and what is still queued is the
    notifications received so far, in the order they arrived, those that came while a
    request was waiting for its reply included. *)
Theorem raw_notifications_are_kept `{J : SocketJson} {V} (decode : LazyValue -> option V) calls input w out rest w' :
  session decode calls input w = (out, rest, w') ->
  exists used, input = used ++ rest /\
    out ++ rw_queue w' = rw_queue w ++ omap (notification_of decode) used.
Proof.
  revert input w out. induction calls as [|[sent|] calls IH]; intros input w out; cbn [session].
  - intros [= <- <- <-]. exists []. by rewrite app_nil_r.
  - unfold try_request. destruct sent as [u|e].
    + destruct (await_reply _ _ _ _) as [[r input1] w1] eqn:Ha.
      apply await_reply_reads in Ha as (used & -> & Hq & _).
      intros (used' & -> & Hq')%IH. exists (used ++ used'). rewrite omap_app, Hq', Hq.
      cbn. by rewrite !app_assoc.
    + intros (used & -> & Hq)%IH. exists used. done.
  - destruct (next_notification _ _ _) as [[r input1] w1] eqn:Hn.
    apply next_notification_reads in Hn as (used & -> & Hq).
    destruct (session _ _ _ _) as [[out1 input2] w2] eqn:Hs. intros [= <- <- <-].
    apply IH in Hs as (used' & -> & Hq'). exists (used ++ used'). split; [by rewrite app_assoc|].
    rewrite omap_app, app_assoc, <- Hq, <- app_assoc, <- Hq', app_assoc.
    f_equal. by destruct r as [[n|]|].
Qed.

(** A request returns the reply to its own id. *)
Lemma await_reply_is_own `{J : SocketJson} {V} (decode : LazyValue -> option V) id input w r rest w' :
  await_reply decode id input w = (Ok r, rest, w') ->
  exists text, Arrived (Ok text) ∈ input /\ parse text = Ok (Some (Reply id r)).
Proof.
  revert w. induction input as [|i input IH]; intros w; cbn [await_reply]; [done|].
  assert (Hstep : forall w1, await_reply decode id input w1 = (Ok r, rest, w') ->
    exists text, Arrived (Ok text) ∈ i :: input /\ parse text = Ok (Some (Reply id r))).
  { intros w1 (text & Hin & Hp)%IH. exists text. split; [by right|done]. }
  destruct i as [[text|reason]|]; [|done..].
  destruct (parse text) as [[[reply result|method params|]|]|reason] eqn:Hp; [| | | |done].
  - destruct (Z.eqb_spec reply id) as [->|]; [|apply Hstep]. intros [= -> _ _]. exists text. split; [left|done].
  - destruct (decode_notification _ _ _ _) as [[n|] w1]; apply Hstep.
  - apply Hstep.
  - apply Hstep.
Qed.

(** A client that meets a notification while it waits for the reply to request 1. *)
Definition tiny_json : SocketJson :=
  {| parse_envelope := fun text =>
       if String.eqb text "note" then Some (mkEnvelope (Some "slotNotification"%string) None None None (Some (mkNotification 7 "1")))
       else if String.eqb text "reply" then Some (mkEnvelope None (Some 1) (Some "ok"%string) None None) else None;
     json_u64 := fun _ => Err "no"%string |}.

Lemma raw_notifications_are_kept_witness :
  exists rest w', @session tiny_json string Some [CallRequest (Ok tt); CallNext]
    [Arrived (Ok "note"%string); Arrived (Ok "reply"%string)] RawWs_connect
    = ([("slotNotification"%string, 7, "1"%string)], rest, w') /\ rw_queue w' = [].
Proof.
  destruct (@session tiny_json string Some [CallRequest (Ok tt); CallNext]
    [Arrived (Ok "note"%string); Arrived (Ok "reply"%string)] RawWs_connect) as [[out rest] w'] eqn:E.
  destruct (@raw_notifications_are_kept tiny_json string Some _ _ _ out rest w' E) as (used & _ & _).
  vm_compute in E. injection E as <- <- <-. eexists _, _. split; reflexivity.
Defined.
