(* ===== verification/Continuous.v ===== *)
(** Continuous rounds: [cli/src/suite/continuous.rs].

    A round runs shuffled cases on one rollup, up to [limit] at a time, an exclusive case
    alone, and stops starting cases once one failed.  As in [Suite.v], the completion
    order is an input, and so is every answer to [config.stopped()]; the shuffle
    of each round is a permutation the caller gives. *)
From Stdlib Require Import String.
From S2P Require Import Prelude Suite.

Abbreviation Case := (Family * ScenarioEntry)%type (only parsing).

Definition FAMILIES : list Family := [Redshift; Redhat; Redline].
Definition DEFAULT : ErGroup := mkGroup "default" false 0.

(** [cases]: what each family runs by default on the default group. *)
Fixpoint cases_of (catalogs : Family -> list ScenarioEntry) (families : list Family) : Result (list Case) string :=
  match families with
  | [] => Ok []
  | f :: families =>
      let? entries := select f (catalogs f) [] in
      let? rest := cases_of catalogs families in
      Ok ((pair f <$> filter (fun e => er_group (en_er e) = Some DEFAULT) entries) ++ rest)
  end.
Definition cases (catalogs : Family -> list ScenarioEntry) : Result (list Case) string :=
  cases_of catalogs FAMILIES.

Definition case_record (er : Result unit string) (c : Case) : RunRecord := entry_run c.1 (Some er) c.2.

Definition is_exclusive (c : Case) : bool := match en_er c.2 with Exclusive _ => true | _ => false end.

(** What a round does, in order. *)
Inductive Action := Start (c : Case) | Finish (c : Case).

Record Round := mkRoundState
  { rd_asked : nat; rd_picked : nat; rd_running : list Case; rd_failed : list string; rd_trace : list Action }.

Section round.
Context (er : Result unit string) (pick : nat -> nat) (stop : nat -> bool) (limit : nat).

(** [settle]: complete cases until [keep] run; each turn completes one, so that the number
    running is fuel enough. *)
Fixpoint settle_loop (fuel keep : nat) (r : Round) : Round :=
  match fuel with
  | O => r
  | S fuel =>
      if (keep <? length (rd_running r))%nat then
        let i := (pick (rd_picked r) mod length (rd_running r))%nat in
        match rd_running r !! i with
        | None => r
        | Some c =>
            let record := case_record er c in
            settle_loop fuel keep
              (mkRoundState (rd_asked r) (S (rd_picked r)) (delete i (rd_running r))
                 (if passed record then rd_failed r else rd_failed r ++ [rr_name record])
                 (rd_trace r ++ [Finish c]))
        end
      else r
  end.
Definition settle (keep : nat) (r : Round) : Round := settle_loop (length (rd_running r)) keep r.

Definition start_case (c : Case) (r : Round) : Round :=
  mkRoundState (S (rd_asked r)) (rd_picked r) (rd_running r ++ [c]) (rd_failed r) (rd_trace r ++ [Start c]).

(** The [for] loop: [stop] is asked before each start. *)
Fixpoint round_loop (cs : list Case) (r : Round) : Round :=
  match cs with
  | [] => r
  | c :: cs =>
      let exclusive := is_exclusive c in
      let r := settle (if exclusive then 0 else limit - 1) r in
      if (negb (bool_decide (rd_failed r = [])) || stop (rd_asked r))%bool then r
      else
        let r := start_case c r in
        let r := if exclusive then settle 0 r else r in
        round_loop cs r
  end.

Definition run_round (cs : list Case) (r : Round) : Round := settle 0 (round_loop cs r).
End round.

(** [run_rounds]: [stops] says whether the run was stopped before each round, [order]
    gives the shuffled cases; the list ends when nothing more is observed.  [None] is a
    run that goes on. *)
Record RoundPlan := mkPlan { rp_order : list (Family * ScenarioEntry); rp_pick : nat -> nat; rp_stop : nat -> bool }.

Fixpoint run_rounds (er : Result unit string) (limit round : nat) (plans : list (bool * RoundPlan)) :
  option (Result unit (nat * list string)) :=
  match plans with
  | [] => None
  | (true, _) :: _ => Some (Ok tt)
  | (false, p) :: plans =>
      let r := run_round er (rp_pick p) (rp_stop p) limit (rp_order p) (mkRoundState 0 0 [] [] []) in
      if bool_decide (rd_failed r = []) then run_rounds er limit (S round) plans
      else Some (Err (round, rd_failed r))
  end.

(** [run]: prepare, boot, run rounds, tear down; the rounds' outcome wins. *)
Definition continuous_run (outcome finished : Result unit string) : Result unit string :=
  match outcome with Ok _ => finished | Err e => Err e end.

(** * What a round guarantees *)

Definition starts (t : list Action) : list Case := omap (fun a => match a with Start c => Some c | _ => None end) t.
Definition finishes (t : list Action) : list Case := omap (fun a => match a with Finish c => Some c | _ => None end) t.

(** The names of the cases that failed. *)
Definition failing (er : Result unit string) (l : list Case) : list string :=
  omap (fun c => if passed (case_record er c) then None else Some (rr_name (case_record er c))) l.

Lemma starts_finish l : starts (Finish <$> l) = [].
Proof. induction l; [done|]. exact IHl. Qed.
Lemma finishes_finish l : finishes (Finish <$> l) = l.
Proof. induction l as [|c l IH]; [done|]. cbn. f_equal. exact IH. Qed.
Lemma starts_app t u : starts (t ++ u) = starts t ++ starts u.
Proof. apply omap_app. Qed.
Lemma finishes_app t u : finishes (t ++ u) = finishes t ++ finishes u.
Proof. apply omap_app. Qed.

Section facts.
Context (er : Result unit string) (pick : nat -> nat) (stop : nat -> bool) (limit : nat).

Lemma settle_loop_spec fuel keep r :
  (length (rd_running r) <= fuel + keep)%nat ->
  exists l, let r' := settle_loop er pick fuel keep r in
    rd_trace r' = rd_trace r ++ (Finish <$> l) /\ rd_running r ≡ₚ l ++ rd_running r' /\
    (length (rd_running r') <= keep)%nat /\ rd_failed r' = rd_failed r ++ failing er l /\ rd_asked r' = rd_asked r.
Proof.
  revert r. induction fuel as [|fuel IH]; intros r Hf; cbn [settle_loop].
  - exists []. cbn. rewrite !app_nil_r. done.
  - destruct (Nat.ltb_spec keep (length (rd_running r))) as [Hk|Hk]; [|exists []; cbn; by rewrite !app_nil_r].
    set (i := (pick (rd_picked r) mod length (rd_running r))%nat).
    assert (Hi : (i < length (rd_running r))%nat) by (apply Nat.mod_upper_bound; lia).
    destruct (rd_running r !! i) as [c|] eqn:Hc; [|apply lookup_ge_None in Hc; lia].
    set (r1 := mkRoundState _ _ _ _ _). destruct (IH r1) as (l & Ht & Hr & Hlen & Hfail & Hask).
    { cbn. rewrite length_delete by done. lia. }
    exists (c :: l). cbn in *. rewrite Ht, Hfail, Hask, <- app_assoc. split_and!; [done| |done| |done].
    + rewrite <- Hr. by apply delete_Permutation.
    + unfold failing. cbn. destruct (passed _); by rewrite <- ?app_assoc.
Qed.

Lemma settle_keeps keep r :
  exists l, let r' := settle er pick keep r in
    rd_trace r' = rd_trace r ++ (Finish <$> l) /\ rd_running r ≡ₚ l ++ rd_running r' /\
    (length (rd_running r') <= keep)%nat /\ rd_failed r' = rd_failed r ++ failing er l /\ rd_asked r' = rd_asked r.
Proof. apply settle_loop_spec. lia. Qed.

(** At every point of the trace at most [limit] cases run, and an exclusive one alone. *)
Definition bounded (t : list Action) : Prop :=
  forall p q, t = p ++ q -> (length (starts p) <= length (finishes p) + limit)%nat.
Definition alone (t : list Action) : Prop :=
  forall p c q, t = p ++ Start c :: q -> is_exclusive c = true ->
    length (starts p) = length (finishes p) /\ (q = [] \/ exists q', q = Finish c :: q').

Record round_ok (started : list Case) (r : Round) : Prop := {
  ro_starts : starts (rd_trace r) = started;
  ro_running : finishes (rd_trace r) ++ rd_running r ≡ₚ started;
  ro_failed : rd_failed r = failing er (finishes (rd_trace r));
  ro_asked : rd_asked r = length started;
  ro_bounded : bounded (rd_trace r);
  ro_alone : alone (rd_trace r);
}.

Lemma running_length started r :
  round_ok started r -> length (starts (rd_trace r)) = (length (finishes (rd_trace r)) + length (rd_running r))%nat.
Proof. intros H. rewrite (ro_starts _ _ H), <- (ro_running _ _ H). by rewrite length_app. Qed.

Lemma bounded_finish t l : bounded t -> bounded (t ++ (Finish <$> l)).
Proof.
  intros Hb p q E. apply app_eq_inv in E as [(k & -> & Hk)|(k & -> & Hk)]; [by eapply Hb|].
  rewrite starts_app, finishes_app, !length_app.
  assert (starts k = []) as ->.
  { symmetry in Hk. assert (Hs : starts (k ++ q) = starts (Finish <$> l)) by (by rewrite Hk).
    rewrite starts_app, starts_finish in Hs. by apply app_eq_nil in Hs as [-> _]. }
  cbn. pose proof (Hb t [] ltac:(by rewrite app_nil_r)). lia.
Qed.

Lemma bounded_start t c :
  bounded t -> (length (starts t) < length (finishes t) + limit)%nat -> bounded (t ++ [Start c]).
Proof.
  intros Hb Hl p q E. apply app_eq_inv in E as [(k & -> & Hk)|(k & -> & Hk)]; [by eapply Hb|].
  rewrite starts_app, finishes_app, !length_app. destruct k as [|a k]; cbn; [lia|].
  injection Hk as <- Hk. symmetry in Hk. apply app_eq_nil in Hk as [-> ->]. cbn. lia.
Qed.

Lemma alone_start t c :
  alone t -> (is_exclusive c = true -> length (starts t) = length (finishes t)) ->
  (forall c', last t = Some (Start c') -> is_exclusive c' = false) -> alone (t ++ [Start c]).
Proof.
  intros Ha Hc Hl p c' q E He. apply app_eq_inv in E as [(k & E1 & E2)|(k & -> & Hk)].
  - destruct k as [|a k]; cbn in E2.
    + injection E2 as <- <-. rewrite app_nil_r in E1. subst. auto.
    + injection E2 as <- E2. destruct (Ha p c' k E1 He) as [Hs [->|(q' & ->)]].
      * exfalso. subst t. specialize (Hl c'). rewrite last_app in Hl. cbn in Hl. specialize (Hl eq_refl). congruence.
      * split; [done|]. right. subst q. by exists (q' ++ [Start c]).
  - destruct k as [|a k]; [|by destruct k]. cbn in Hk. injection Hk as <- <-. rewrite app_nil_r. auto.
Qed.

Lemma alone_finish t l :
  alone t -> (forall c, last t = Some (Start c) -> is_exclusive c = true -> l = [] \/ exists l', l = c :: l') ->
  alone (t ++ (Finish <$> l)).
Proof.
  intros Ha Hl p c q E He. apply app_eq_inv in E as [(k & E1 & E2)|(k & -> & Hk)].
  - destruct k as [|a k]; cbn in E2.
    + destruct l; [done|]. by injection E2.
    + injection E2 as <- E2. destruct (Ha p c k E1 He) as [Hs [->|(q' & ->)]].
      * split; [done|]. cbn in E2. subst q t. rewrite last_app in Hl. cbn in Hl.
        destruct (Hl c eq_refl He) as [->|(l' & ->)]; [by left|]. right. cbn. eauto.
      * split; [done|]. right. subst q. by exists (q' ++ (Finish <$> l)).
  - exfalso. assert (Hin : Start c ∈ Finish <$> l) by (rewrite Hk; set_solver).
    apply list_elem_of_fmap in Hin as (x & ? & _). done.
Qed.

(** The last action did not start an exclusive case. *)
Definition quiet (t : list Action) : Prop := forall c, last t = Some (Start c) -> is_exclusive c = false.

Lemma finish_ok l started r r' :
  round_ok started r ->
  (forall c, last (rd_trace r) = Some (Start c) -> is_exclusive c = true -> l = [] \/ exists l', l = c :: l') ->
  rd_trace r' = rd_trace r ++ (Finish <$> l) -> rd_running r ≡ₚ l ++ rd_running r' ->
  rd_failed r' = rd_failed r ++ failing er l -> rd_asked r' = rd_asked r -> round_ok started r'.
Proof.
  intros [Hs Hp Hfl Ha Hb Hal] Hl Ht Hr Hf Hask. split; rewrite ?Ht.
  - by rewrite starts_app, starts_finish, app_nil_r.
  - rewrite finishes_app, finishes_finish, <- app_assoc, <- Hr. done.
  - rewrite Hf, Hfl, finishes_app, finishes_finish. unfold failing. by rewrite omap_app.
  - congruence.
  - by apply bounded_finish.
  - by apply alone_finish.
Qed.

Lemma quiet_finish t l : quiet t -> quiet (t ++ (Finish <$> l)).
Proof.
  intros Hq c. destruct l as [|x l] using rev_ind; [cbn; rewrite app_nil_r; apply Hq|].
  rewrite fmap_app, app_assoc. change (Finish <$> [x]) with [Finish x]. by rewrite last_snoc.
Qed.

Lemma settle_ok keep started r :
  round_ok started r -> quiet (rd_trace r) ->
  round_ok started (settle er pick keep r) /\ quiet (rd_trace (settle er pick keep r)) /\
  (length (rd_running (settle er pick keep r)) <= keep)%nat.
Proof.
  intros H Hq. destruct (settle_keeps keep r) as (l & Ht & Hr & Hlen & Hf & Hask). split_and!; [| |done].
  - apply (finish_ok l started r); [done| |done..]. intros c Hc%Hq. congruence.
  - rewrite Ht. by apply quiet_finish.
Qed.

Lemma start_ok c started r :
  round_ok started r -> quiet (rd_trace r) -> (length (rd_running r) < limit)%nat ->
  (is_exclusive c = true -> rd_running r = []) -> round_ok (started ++ [c]) (start_case c r).
Proof.
  intros H Hq Hl He. pose proof (running_length _ _ H) as Hlen. destruct H as [Hs Hp Hfl Ha Hb Hal].
  split; cbn; rewrite ?starts_app, ?finishes_app, ?app_nil_r, ?length_app; cbn; rewrite ?app_nil_r.
  - by rewrite Hs.
  - rewrite app_assoc, Hp. done.
  - done.
  - lia.
  - apply bounded_start; [done|lia].
  - apply alone_start; [done| |done]. intros Hx%He. rewrite Hx in Hlen. cbn in Hlen. lia.
Qed.

Lemma exclusive_ok c started r :
  round_ok started r -> quiet (rd_trace r) -> (0 < limit)%nat -> rd_running r = [] ->
  let r' := settle er pick 0 (start_case c r) in
  round_ok (started ++ [c]) r' /\ quiet (rd_trace r').
Proof.
  intros H Hq Hl Hr r'. assert (H1 : round_ok (started ++ [c]) (start_case c r)).
  { apply start_ok; [done|done|by rewrite Hr|done]. }
  destruct (settle_keeps 0 (start_case c r)) as (l & Ht & Hp & Hlen & Hf & Hask). fold r' in Ht, Hp, Hlen, Hf, Hask.
  clearbody r'. unfold start_case in Hp at 1. cbn [rd_running] in Hp. rewrite Hr in Hp. cbn [app] in Hp. destruct (rd_running r') eqn:Hr'; [|cbn in Hlen; lia].
  rewrite app_nil_r in Hp. apply Permutation_singleton_l in Hp as <-.
  split; [|rewrite Ht; intros c'; change (Finish <$> [c]) with [Finish c]; by rewrite last_snoc].
  eapply finish_ok; [exact H1| |exact Ht| |exact Hf|exact Hask].
  - intros c' Hc _. cbn in Hc. rewrite last_snoc in Hc. injection Hc as <-. right. by exists [].
  - cbn. by rewrite Hr, Hr'.
Qed.

(** The loop starts a prefix of the cases, and all of them unless it met a reason to stop. *)
Lemma round_loop_ok cs started r :
  (0 < limit)%nat -> round_ok started r -> quiet (rd_trace r) ->
  exists more rest, let r' := round_loop er pick stop limit cs r in
    cs = more ++ rest /\ round_ok (started ++ more) r' /\ quiet (rd_trace r') /\
    (rest = [] \/ rd_failed r' <> [] \/ stop (length (started ++ more)) = true).
Proof.
  intros Hl. revert started r. induction cs as [|c cs IH]; intros started r H Hq; cbn [round_loop].
  - exists [], []. rewrite (app_nil_r started). split_and!; [done|done|done|by left].
  - set (keep := if is_exclusive c then 0%nat else (limit - 1)%nat).
    destruct (settle_ok keep started r H Hq) as (H1 & Hq1 & Hlen1). set (r1 := settle er pick keep r) in *.
    destruct (negb _ || _)%bool eqn:Hstop.
    { exists [], (c :: cs). rewrite (app_nil_r started). split_and!; [done..|]. right.
      rewrite <- (ro_asked _ _ H1). apply orb_true_iff in Hstop as [Hs|]; [left|by right].
      apply negb_true_iff, bool_decide_eq_false in Hs. done. }
    assert (Hnext : forall r2, round_ok (started ++ [c]) r2 -> quiet (rd_trace r2) ->
      exists more rest, c :: cs = more ++ rest /\ round_ok (started ++ more) (round_loop er pick stop limit cs r2) /\
        quiet (rd_trace (round_loop er pick stop limit cs r2)) /\
        (rest = [] \/ rd_failed (round_loop er pick stop limit cs r2) <> [] \/ stop (length (started ++ more)) = true)).
    { intros r2 H2 Hq2. destruct (IH _ _ H2 Hq2) as (more & rest & -> & H3 & Hq3 & Hr3).
      exists (c :: more), rest. rewrite <- app_assoc in H3, Hr3. cbn in H3, Hr3. done. }
    unfold keep in *. destruct (is_exclusive c) eqn:He.
    + destruct (exclusive_ok c started r1) as [Hx Hqx]; [done..| |by apply Hnext].
      by destruct (rd_running r1); cbn in Hlen1; [|lia].
    + apply Hnext; [apply start_ok; [done|done|lia|congruence]|].
      intros c'. cbn. rewrite last_snoc. by intros [= <-].
Qed.
End facts.

(** C32: A round never runs more than [limit] cases at once and an exclusive one alone; it
    starts its cases in order, finishes every one it starts, reports exactly the
    failed ones, and leaves cases out only after a failure or a stop. *)
Theorem round_runs_its_cases er pick stop limit cs :
  (0 < limit)%nat ->
  let r := run_round er pick stop limit cs (mkRoundState 0 0 [] [] []) in
  exists started rest, cs = started ++ rest /\ starts (rd_trace r) = started /\
    finishes (rd_trace r) ≡ₚ started /\ rd_failed r = failing er (finishes (rd_trace r)) /\
    bounded limit (rd_trace r) /\ alone (rd_trace r) /\
    (rest = [] \/ rd_failed r <> [] \/ stop (length started) = true).
Proof.
  intros Hl r. assert (H0 : round_ok er limit [] (mkRoundState 0 0 [] [] [])).
  { split; cbn; [done|done|done|done| |].
    - intros p q E. symmetry in E. apply app_eq_nil in E as [-> _]. cbn. lia.
    - intros p c q E. by destruct p. }
  destruct (round_loop_ok er pick stop limit cs [] _ Hl H0) as (more & rest & E & H1 & Hq1 & Hr); [done|].
  destruct (settle_ok er pick stop limit 0 _ _ H1 Hq1) as (H2 & _ & Hlen). fold (run_round er pick stop limit cs
    (mkRoundState 0 0 [] [] [])) in H2, Hlen. fold r in H2, Hlen. cbn [app] in *.
  exists more, rest. destruct H2 as [Hs Hp Hf Ha Hb Hal].
  assert (rd_running r = []) as Hr0 by (destruct (rd_running r); [done|cbn in Hlen; lia]).
  rewrite Hr0, app_nil_r in Hp. split_and!; try done.
  destruct Hr as [?|[Hne|?]]; [by left| |by auto]. right. left. intros Hnil. apply Hne.
  destruct (settle_keeps er pick 0 (round_loop er pick stop limit cs (mkRoundState 0 0 [] [] [])))
    as (l & _ & _ & _ & Hfl & _). fold (run_round er pick stop limit cs (mkRoundState 0 0 [] [] [])) in Hfl. fold r in Hfl.
  rewrite Hnil in Hfl. symmetry in Hfl. by apply app_eq_nil in Hfl as [? _].
Qed.

(** A run of rounds ends well only if no round had a failure, and ends badly naming the
    round and its failures. *)
Lemma run_rounds_result er limit round plans result :
  run_rounds er limit round plans = Some result ->
  exists done_plans rest, plans = ((fun p => (false, p)) <$> done_plans) ++ rest /\
    let failed p := rd_failed (run_round er (rp_pick p) (rp_stop p) limit (rp_order p) (mkRoundState 0 0 [] [] [])) in
    match result with
    | Ok _ => Forall (fun p => failed p = []) done_plans /\ exists p rest', rest = (true, p) :: rest'
    | Err (n, names) => exists before p, done_plans = before ++ [p] /\ n = (round + length before)%nat /\
        Forall (fun p => failed p = []) before /\ failed p = names /\ names <> []
    end.
Proof.
  revert round. induction plans as [|[[] p] plans IH]; intros round; cbn [run_rounds]; [done| |].
  - intros [= <-]. exists [], ((true, p) :: plans). split; [done|]. split; [constructor|eauto].
  - case_bool_decide as Hf.
    + intros (ps & rest & -> & H)%IH. exists (p :: ps), rest. split; [done|]. cbn in *.
      destruct result as [[]|[n names]].
      * destruct H as [Hall Hs]. split; [by constructor|done].
      * destruct H as (before & q & -> & -> & Hall & Hq & Hne). exists (p :: before), q.
        split_and!; [done|cbn; lia|by constructor|done|done].
    + intros [= <-]. exists [p], plans. split; [done|]. exists [], p. split_and!; [done|cbn; lia|done|done|done].
Qed.

(** Two shared cases and an exclusive one, of which the second fails. *)
Definition case_env (ok : bool) : ScenarioEnv :=
  mkEnv false true true (Ok tt) (Ok tt) (Ok tt) true (if ok then Finished None (Ok tt) else Suite.Failed "no") (Ok tt) (Ok tt).
Definition sample_case (name : string) (er : Er) (ok : bool) : Family * ScenarioEntry :=
  (Redshift, mkEntry name er false 0 None (case_env ok)).
Definition sample_cases : list (Family * ScenarioEntry) :=
  [sample_case "a" (Shared DEFAULT) true; sample_case "b" (Shared DEFAULT) false; sample_case "c" (Exclusive DEFAULT) true].

Lemma round_runs_its_cases_witness :
  let r := run_round (Ok tt) (fun n => n) (fun _ => false) 2 sample_cases (mkRoundState 0 0 [] [] []) in
  rd_failed r = ["redshift/b"%string] /\ bounded 2 (rd_trace r).
Proof.
  destruct (round_runs_its_cases (Ok tt) (fun n => n) (fun _ => false) 2 sample_cases ltac:(lia))
    as (started & rest & _ & _ & _ & _ & Hb & _).
  split; [vm_compute; reflexivity|exact Hb].
Defined.
