(* ===== verification/Process.v ===== *)
(** Processes of the topology: [core/src/topology/process.rs], [core/src/resources.rs] and the
    /proc readings of [core/src/host.rs] (Linux).

    The operating system answers the polls of each function; their answers, with the
    times at which the clock is read, are arguments.  [Signal]s sent are part of the result. *)
From Stdlib Require Import Ascii String Floats.SpecFloat.
From S2P Require Import Prelude Float64 Rate Text Metrics Report.

#[local] Open Scope string_scope.
#[local] Open Scope Z_scope.
#[local] Open Scope list_scope.

Definition KILL_GRACE : Duration := 5 * NANOS_PER_SEC.
Definition POLL : Duration := 250 * 1000000.
Definition RESTART_POLL : Duration := 5 * 1000000.
Definition LIVENESS_INTERVAL : Duration := 250 * 1000000.

(** * Stopping a process *)

Inductive ExitStatus := ExitCode (code : Z) | ExitSignal (signal : Z) | ExitUnknown.

#[export] Instance ExitStatus_eq_dec : EqDecision ExitStatus.
Proof. solve_decision. Defined.

Definition describe_exit (s : ExitStatus) : string :=
  match s with
  | ExitCode code => "exit code " +:+ show_integer code
  | ExitSignal signal => "signal " +:+ show_integer signal
  | ExitUnknown => "unknown status"
  end.

Inductive Signal := Term | Kill.

#[export] Instance Signal_eq_dec : EqDecision Signal.
Proof. solve_decision. Defined.

Inductive ProcError := PeIo (error : string) | PeDidNotExit | PeExited | PeTimedOut | PeNoProcess | PeRunning.

#[export] Instance ProcError_eq_dec : EqDecision ProcError.
Proof. solve_decision. Defined.

(** One turn of the loop: [try_wait], the time of the grace check and of the deadline check. *)
Record StopPoll := mkPoll { po_wait : Result (option ExitStatus) string; po_grace : Instant; po_hard : Instant }.

(** The loop, with the signals sent so far; [None] is a loop that goes on. *)
Fixpoint terminate_loop (grace hard : Instant) (escalated needed : bool) (sent : list Signal) (polls : list StopPoll) :
  option (Result (ExitStatus * bool) ProcError * list Signal) :=
  match polls with
  | [] => None
  | p :: polls =>
      match po_wait p with
      | Err e => Some (Err (PeIo e), sent)
      | Ok (Some status) => Some (Ok (status, needed), sent)
      | Ok None =>
          let escalate := (negb escalated && (grace <=? po_grace p))%bool in
          let sent := if escalate then sent ++ [Kill] else sent in
          if po_hard p <? hard
          then terminate_loop grace hard (escalated || escalate)%bool (needed || escalate)%bool sent polls
          else Some (Err PeDidNotExit, sent)
      end
  end.

(** [terminate]: [first] is the initial [try_wait], [now] the time the signal was sent. *)
Definition terminate (first : Result (option ExitStatus) string) (now : Instant) (hard_kill : bool) (polls : list StopPoll) :
  option (Result (ExitStatus * bool) ProcError * list Signal) :=
  match first with
  | Err e => Some (Err (PeIo e), [])
  | Ok (Some status) => Some (Ok (status, false), [])
  | Ok None =>
      let grace := now + KILL_GRACE in
      let hard := if hard_kill then grace else grace + KILL_GRACE in
      terminate_loop grace hard hard_kill false [if hard_kill then Kill else Term] polls
  end.

(** [kill_pid]: [running] answers each [proc_running]; the loop ends when it does not run or
    at the deadline, and what still runs then is killed. *)
Fixpoint grace_loop (deadline : Instant) (polls : list (Instant * bool)) : option (list (Instant * bool)) :=
  match polls with
  | [] => None
  | (now, running) :: polls => if ((now <? deadline) && running)%bool then grace_loop deadline polls else Some polls
  end.

Definition kill_pid (pid : Z) (running : bool) (now : Instant) (polls : list (Instant * bool)) (still : bool) :
  option (list Signal) :=
  if ((pid =? 0) || negb running)%bool then Some []
  else _ ← grace_loop (now + KILL_GRACE) polls; Some (if still then [Term; Kill] else [Term]).

(** [kill_matching], on what [proc_matches] says before and after the grace window. *)
Definition kill_matching (procs : list (Z * string)) (before after : Z -> string -> bool) : list (Z * Signal) :=
  omap (fun '(pid, bin) => if (negb (pid =? 0%Z)%Z && before pid bin)%bool then Some (pid, Term) else None) procs
  ++ omap (fun '(pid, bin) => if (negb (pid =? 0%Z)%Z && after pid bin)%bool then Some (pid, Kill) else None) procs.

(** * Waiting for a condition *)

(** A turn: the condition, the time, whether the process runs and the time of the last check. *)
Record WaitPoll := mkWaitPoll { wp_ready : bool; wp_now : Instant; wp_running : bool; wp_late : Instant }.

Fixpoint wait_loop (interval deadline checked : Z) (polls : list WaitPoll) : option (Result unit ProcError) :=
  match polls with
  | [] => None
  | p :: polls =>
      if wp_ready p then Some (Ok tt)
      else
        let check := ((LIVENESS_INTERVAL <=? interval) || (LIVENESS_INTERVAL <=? wp_now p - checked))%bool in
        if (check && negb (wp_running p))%bool then Some (Err PeExited)
        else if wp_late p <? deadline
        then wait_loop interval deadline (if check then wp_now p else checked) polls
        else Some (Err PeTimedOut)
  end.

(** The clock is read for the deadline, then for the first liveness check. *)
Definition wait_until_every (interval timeout : Duration) (start checked : Instant) (polls : list WaitPoll) :
  option (Result unit ProcError) :=
  wait_loop interval (start + timeout) checked polls.

Definition wait_until (timeout : Duration) (start checked : Instant) (polls : list WaitPoll) :
  option (Result unit ProcError) :=
  wait_until_every POLL timeout start checked polls.

(** The last lines of a log, if it can be read. *)
Definition log_tail (path : string) (n : nat) (content : option string) : string :=
  match content with
  | None => "<no log at " +:+ path +:+ ">"
  | Some content => let all := lines content in join (String newline EmptyString) (drop (length all - n) all)
  end.

(** * Finding the topology's processes *)

Definition TOPOLOGY_BINS : list string := ["solana-test-validator"; "magicblock-validator"; "magicblock-verifier"].

(** [Path::file_name] *)
Definition file_name (path : string) : option string :=
  name ← last (filter (fun c => negb (is_empty c || String.eqb c ".") = true) (split "/" path));
  if String.eqb name ".." then None else Some name.

(** A process: its pid, its arguments and whether it runs. *)
Record ProcEntry := mkProc { pe_pid : Z; pe_argv : list string; pe_running : bool }.

Definition runs_topology_bin (argv : list string) : bool :=
  existsb (fun arg => match file_name arg with
                      | Some name => existsb (String.eqb name) TOPOLOGY_BINS
                      | None => false
                      end) argv.

Definition is_orphan (stack_dir : string) (own : Z) (exclude : list Z) (p : ProcEntry) : bool :=
  (negb (pe_pid p =? own) && negb (existsb (Z.eqb (pe_pid p)) exclude) && runs_topology_bin (pe_argv p)
   && contains (stack_dir +:+ "/") (join " " (pe_argv p)) && pe_running p)%bool.

Definition orphaned_topology_processes (stack_dir : string) (own : Z) (exclude : list Z) (table : list ProcEntry) :
  list (Z * string) :=
  merge_sort (fun a b => a.1 < b.1 \/ (a.1 = b.1 /\ String.le a.2 b.2))
    ((fun p => (pe_pid p, join " " (pe_argv p))) <$> filter (fun p => is_orphan stack_dir own exclude p = true) table).

(** * Owned processes and their records *)

Record ResourceRecord := mkRes { rs_finished : bool; rs_launch : LaunchRecord }.

Definition with_launch_pid (pid : Z) (relaunches : Z) (exit : option string) (l : LaunchRecord) : LaunchRecord :=
  mkLaunch (lr_label l) (lr_role l) (lr_bin l) (lr_bin_version l) (lr_bin_fingerprint l) (lr_identity l)
    (lr_launched_at l) (lr_rpc_port l) (lr_ws_port l) (lr_metrics_port l) (lr_replication_port l) (lr_upstream l)
    (lr_storage_dir l) (lr_accountsdb_dir l) (lr_log l) (lr_config l) pid relaunches exit.

Definition with_launched_at (at_ : string) (l : LaunchRecord) : LaunchRecord :=
  mkLaunch (lr_label l) (lr_role l) (lr_bin l) (lr_bin_version l) (lr_bin_fingerprint l) (lr_identity l)
    at_ (lr_rpc_port l) (lr_ws_port l) (lr_metrics_port l) (lr_replication_port l) (lr_upstream l)
    (lr_storage_dir l) (lr_accountsdb_dir l) (lr_log l) (lr_config l) (lr_pid l) (lr_relaunches l) (lr_exit l).

Definition register_launch (now : Z) (launch : LaunchRecord) : ResourceRecord :=
  mkRes false (with_launched_at (utc_stamp now) launch).
Definition relaunched (pid : Z) (r : ResourceRecord) : ResourceRecord :=
  mkRes false (with_launch_pid pid (lr_relaunches (rs_launch r) + 1) (lr_exit (rs_launch r)) (rs_launch r)).
Definition mark_finished (r : ResourceRecord) : ResourceRecord := mkRes true (rs_launch r).
Definition record_exit (message : string) (r : ResourceRecord) : ResourceRecord :=
  mkRes (rs_finished r) (with_launch_pid (lr_pid (rs_launch r)) (lr_relaunches (rs_launch r)) (Some message) (rs_launch r)).

(** [Owned]: the child is gone once it was terminated. *)
Record Owned := mkOwned { ow_pid : Z; ow_child : bool; ow_record : ResourceRecord }.

Definition Owned_new (pid : Z) (record : ResourceRecord) : Owned := mkOwned pid true record.

(** [Owned::terminate] with the outcome of [terminate]. *)
Definition owned_terminate (outcome : Result (ExitStatus * bool) ProcError) (o : Owned) :
  Result (option (ExitStatus * bool)) ProcError * Owned :=
  if ow_child o then
    match outcome with
    | Err e => (Err e, o)
    | Ok out => (Ok (Some out), mkOwned (ow_pid o) false (mark_finished (ow_record o)))
    end
  else (Ok None, o).

Definition owned_relaunch (pid : Z) (o : Owned) : Owned := mkOwned pid true (relaunched pid (ow_record o)).

(** [Drop]: the process to kill, and the record left behind. *)
Definition owned_drop (try_wait : option ExitStatus) (waited : option ExitStatus) (o : Owned) :
  option Z * ResourceRecord :=
  if ow_child o then
    match try_wait with
    | Some status => (None, mark_finished (record_exit ("died before cleanup: " +:+ describe_exit status) (ow_record o)))
    | None =>
        (Some (ow_pid o),
         mark_finished (record_exit match waited with
                                    | Some exit => "terminated by cleanup: " +:+ describe_exit exit
                                    | None => "terminated by cleanup, status unknown"
                                    end (ow_record o)))
    end
  else (None, ow_record o).

(** [Resources::reclaim]: the pids it kills, the directories it removes, the records after. *)
Definition reclaim (running : Z -> bool) (records : list ResourceRecord) : list Z * list string * list ResourceRecord :=
  let unfinished r := (negb (rs_finished r) && running (lr_pid (rs_launch r)))%bool in
  ((fun r => lr_pid (rs_launch r)) <$> filter (fun r => unfinished r = true) records,
   concat ((fun r => lr_storage_dir (rs_launch r) :: match lr_accountsdb_dir (rs_launch r) with Some d => [d] | None => [] end)
             <$> records),
   (fun r => if unfinished r then mark_finished r else r) <$> records).

(** * /proc *)

(** The text after the last closing parenthesis. *)
Definition after_comm (stat : string) : option string := snd <$> cut_after_last ")" stat.

(** [proc_running], on the contents of /proc/PID/stat if it can be read. *)
Definition proc_running (stat : option string) : bool :=
  match stat with
  | None => false
  | Some stat =>
      match after_comm stat with
      | None => false
      | Some rest =>
          match trim_start_matches is_whitespace rest with
          | EmptyString => false
          | String c _ => negb (Ascii.eqb c "Z")
          end
      end
  end.

Definition CLOCK_TICKS_PER_SEC : f64 := f64_of 100.

(** [stat_cpu_secs]; the sum of two 64-bit counters panics on overflow: [None]. *)
Definition stat_cpu_secs (stat : string) : Result (option f64) string :=
  let? rest := ok_or (after_comm stat) "no comm field" in
  let fields := split_whitespace rest in
  let? utime := ok_or (fields !! 11%nat) "short stat line" in
  let? utime := ok_or (parse_u64 utime) "utime" in
  let? stime := ok_or (fields !! 12%nat) "short stat line" in
  let? stime := ok_or (parse_u64 stime) "stime" in
  Ok (sum ← checked_add64 utime stime; Some (f64_div (f64_of sum) CLOCK_TICKS_PER_SEC)).

(** [rss_kb], on the contents of /proc/PID/status. *)
Definition rss_kb (status : string) : Result Z string :=
  match find_map (fun line => strip_prefix "VmRSS:" line) (lines status) with
  | None => Err "no VmRSS"
  | Some rest =>
      let text := trim rest in
      ok_or (parse_u64 (trim (trim_end_text (String.length text) " kB" text))) "bad VmRSS line"
  end.

(** [dir_size_bytes]: a tree whose entries may vanish while it is read. *)
#[local] Set Warnings "-register-all".
Inductive FsTree := Vanished | Unreadable (error : string) | FileOf (size : Z) | DirOf (entries : list FsTree).

Fixpoint walk_size (t : FsTree) : Result Z string :=
  match t with
  | Vanished => Ok 0
  | Unreadable e => Err e
  | FileOf size => Ok size
  | DirOf entries =>
      (fix walk (l : list FsTree) (total : Z) : Result Z string :=
         match l with
         | [] => Ok total
         | t :: l => let? n := walk_size t in walk l (total + n)
         end) entries 0
  end.

(** * CPU shares *)

Record CpuSample := mkCpu { cpu_taken : Instant; cpu_process : f64; cpu_threads : gmap Z f64 }.

Definition f64_nano : f64 := f64_decimal false 1 (-9).
Definition wall_since (s earlier : CpuSample) : f64 := f64_max (as_secs_f64 (Z.max 0 (cpu_taken s - cpu_taken earlier))) f64_nano.
Definition cores_since (s earlier : CpuSample) : f64 :=
  f64_div (f64_max (f64_sub (cpu_process s) (cpu_process earlier)) f64_zero) (wall_since s earlier).

(** The integer [f64::total_cmp] compares: the bits, reversed below zero. *)
Definition f64_bits (x : f64) : Z :=
  match x with
  | S754_zero _ => 0
  | S754_finite _ m e => if Z.pos m <? 2 ^ 52 then Z.pos m else (e + 1075) * 2 ^ 52 + (Z.pos m - 2 ^ 52)
  | S754_infinity _ => 2047 * 2 ^ 52
  | S754_nan => 2047 * 2 ^ 52 + 2 ^ 51
  end.
Definition f64_negative (x : f64) : bool :=
  match x with S754_zero s | S754_infinity s | S754_finite s _ _ => s | S754_nan => false end.
Definition total_key (x : f64) : Z := if f64_negative x then - f64_bits x - 1 else f64_bits x.

(** [right.total_cmp(left)]: the larger comes first. *)
Definition ranks (l r : f64) : Prop := total_key r <= total_key l.

#[export] Instance ranks_dec l r : Decision (ranks l r).
Proof. unfold ranks. apply _. Defined.

Definition thread_core (s earlier : CpuSample) (tid : Z) (secs : f64) : f64 :=
  f64_div (f64_max (f64_sub secs (default f64_zero (cpu_threads earlier !! tid))) f64_zero) (wall_since s earlier).
Definition thread_cores_since (s earlier : CpuSample) : list f64 :=
  merge_sort ranks
    ((fun '(tid, secs) => thread_core s earlier tid secs) <$> map_to_list (cpu_threads s)).
