(* ===== verification/Stack.v ===== *)
(** The shared stack: identities and ports of [core/src/topology/identity.rs] and
    [process.rs], the state file of [state.rs], booting in [shared.rs], clearing in [status.rs].

    Several redsuite processes use one stack directory.  A lock file orders the
    calls that assign identities, so each is one step; port leases of different processes
    interleave.  Ensuring the base and tearing down are programs over the calls they make,
    since a process that tears down takes no lock.  What the operating system answers is an argument. *)
From Stdlib Require Import String.
From S2P Require Import Prelude Text Report Process.

#[local] Open Scope string_scope.
#[local] Open Scope Z_scope.
#[local] Open Scope list_scope.

(** * Identities *)

Definition IDENTITY_POOL_SIZE : nat := 64.
Definition IDENTITY_FUNDING_LAMPORTS : Z := 20 * 1000000000.

Record StackState := mkStack
  { ss_base_rpc_port : Z; ss_base_ws_port : Z; ss_base_faucet_port : Z; ss_base_gossip_port : Z;
    ss_base_grpc_port : Z; ss_base_plugin : string; ss_base_pid : Z; ss_base_bin : string;
    ss_identity_pool : list string; ss_clone_url : string; ss_base_programs : list string }.

Inductive StackError :=
| SeNoStack | SeOldStack | SeExhausted | SeCorrupt | SeIo (error : string) | SePorts | SeBoot (error : string).

#[export] Instance StackError_eq_dec : EqDecision StackError.
Proof. solve_decision. Defined.

(** [fs::write] of the assignments; a torn write leaves a file that no longer parses. *)
Inductive WriteOutcome := Written | WriteFailed (error : string) (torn : bool).

Section identities.
(** [Keypair::try_from] on the bytes of the pool. *)
Context {Keypair : Type} (keypair_of : string -> option Keypair).

(** [identity_for_label], on the state file and the assignments that parse, with how
    the write goes.  [None] is the panic of a slot beyond the pool. *)
Definition identity_for_label (state : option StackState) (label : string) (write : WriteOutcome)
    (assignments : gmap string nat) : option (Result Keypair StackError) * gmap string nat :=
  match state with
  | None => (Some (Err SeNoStack), assignments)
  | Some st =>
      if bool_decide (ss_identity_pool st = []) then (Some (Err SeOldStack), assignments)
      else
        let identity (slot : nat) :=
          bytes ← ss_identity_pool st !! slot; Some (ok_or (keypair_of bytes) SeCorrupt) in
        match assignments !! label with
        | Some slot => (identity slot, assignments)
        | None =>
            let slot := size assignments in
            if (slot <? length (ss_identity_pool st))%nat then
              match write with
              | WriteFailed e torn => (Some (Err (SeIo e)), if torn then ∅ else assignments)
              | Written => (identity slot, <[label := slot]> assignments)
              end
            else (Some (Err SeExhausted), assignments)
        end
  end.
End identities.

(** * Ports *)

Definition PORT_FIRST : Z := 20000.
Definition PORT_END : Z := 30000.
Definition BAND_ATTEMPTS : nat := 512.

(** The order in which [claim] tries first ports. *)
Definition candidates (start : Z) : list Z :=
  take BAND_ATTEMPTS (seqZ start (PORT_END - start) ++ seqZ PORT_FIRST (start - PORT_FIRST)).

(** The block of [want] ports at [first]. *)
Definition block (first want : Z) : list Z := seqZ first want.

Record PortLease := mkLease { pl_holders : gset Z; pl_claims : gset Z }.
Definition PortLease_default : PortLease := mkLease ∅ ∅.

(** What the lock file and the two sockets of a port answer. *)
Inductive PortAnswer := PortFree | PortBusy | PortFails (error : string).

(** The inner loop: whether every port of the block was had. *)
Fixpoint take_block (answer : Z -> PortAnswer) (ports : list Z) : Result bool StackError :=
  match ports with
  | [] => Ok true
  | p :: ports =>
      match answer p with
      | PortFree => take_block answer ports
      | PortBusy => Ok false
      | PortFails e => Err (SeIo e)
      end
  end.

(** The outer loop: the first port of the first block that was had. *)
Fixpoint claim_loop (answer : Z -> PortAnswer) (want : Z) (firsts : list Z) : Result Z StackError :=
  match firsts with
  | [] => Err SePorts
  | first :: firsts =>
      if PORT_END <? first + want then claim_loop answer want firsts
      else
        let? had := take_block answer (block first want) in
        if had then Ok first else claim_loop answer want firsts
  end.

(** [claim], from the port that was drawn. *)
Definition claim (answer : Z -> PortAnswer) (start want : Z) (l : PortLease) : Result Z StackError * PortLease :=
  match claim_loop answer want (candidates start) with
  | Ok first =>
      (Ok first, mkLease (pl_holders l ∪ list_to_set (block first want)) (pl_claims l ∪ list_to_set (block first want)))
  | Err e => (Err e, l)
  end.

Definition port_single (answer : Z -> PortAnswer) (start : Z) (l : PortLease) : Result Z StackError * PortLease :=
  claim answer start 1 l.
Definition port_pair (answer : Z -> PortAnswer) (start : Z) (l : PortLease) : Result (Z * Z) StackError * PortLease :=
  let '(r, l) := claim answer start 2 l in (res_map (fun first => (first, first + 1)) r, l).

(** [release] closes the sockets and keeps the lock files. *)
Definition port_release (l : PortLease) : PortLease := mkLease ∅ (pl_claims l).

(** The leases of all processes; [foreign] are the ports other programs have bound. *)
Record PortWorld := mkPorts { pw_leases : gmap Z PortLease; pw_foreign : gset Z }.

Definition locked (w : PortWorld) (p : Z) : bool :=
  existsb (fun '(_, l) => bool_decide (p ∈ pl_claims l)) (map_to_list (pw_leases w)).
Definition port_free (w : PortWorld) (p : Z) : bool :=
  (negb (locked w p) && negb (bool_decide (p ∈ pw_foreign w)))%bool.

(** The operating system may fail, but grants a port only if no one has it. *)
Definition answers (w : PortWorld) (answer : Z -> PortAnswer) : Prop :=
  forall p, answer p = PortFree -> port_free w p = true.

Inductive port_step : PortWorld -> PortWorld -> Prop :=
| step_claim w who answer start want l :
    answers w answer -> PORT_FIRST <= start < PORT_END -> 0 < want -> pw_leases w !! who = Some l ->
    port_step w (mkPorts (<[who := (claim answer start want l).2]> (pw_leases w)) (pw_foreign w))
| step_new w who :
    pw_leases w !! who = None -> port_step w (mkPorts (<[who := PortLease_default]> (pw_leases w)) (pw_foreign w))
| step_release w who l :
    pw_leases w !! who = Some l -> port_step w (mkPorts (<[who := port_release l]> (pw_leases w)) (pw_foreign w))
| step_drop w who : port_step w (mkPorts (delete who (pw_leases w)) (pw_foreign w))
| step_foreign w bound : port_step w (mkPorts (pw_leases w) bound).

(** * Clearing storage *)

Definition STACK_STORAGE : list string := ["base-ledger"; "genesis-accounts"].

Record DirEntry := mkDirEntry { de_name : string; de_is_dir : bool; de_remove : Result unit string }.

Definition ends_with (suffix s : string) : bool := bool_decide (is_Some (strip_suffix suffix s)).

Definition swept (e : DirEntry) : bool :=
  if de_is_dir e then (existsb (String.eqb (de_name e)) STACK_STORAGE || starts_with "er-" (de_name e))%bool
  else (starts_with "er-" (de_name e) && ends_with ".toml" (de_name e))%bool.

(** [sweep]: the first failure ends it. *)
Fixpoint sweep_dir (entries : list DirEntry) : Result (list string) string :=
  match entries with
  | [] => Ok []
  | e :: entries =>
      if swept e then
        let? _ := de_remove e in
        let? rest := sweep_dir entries in Ok (de_name e :: rest)
      else sweep_dir entries
  end.

(** The stack directory, then the directory of the accounts databases if one is set. *)
Definition wipe_storage (stack : list DirEntry) (accountsdb : option (list DirEntry)) : Result (list string) string :=
  let? removed := sweep_dir stack in
  match accountsdb with
  | None => Ok removed
  | Some root => let? more := sweep_dir root in Ok (removed ++ more)
  end.

(** * The shared base *)

(** What a process does with the state file, the assignments and the base, one call at a
    time; other processes may act between two calls. *)
Inductive RemoveError := RemoveNotFound | RemoveFailed (error : string).

Inductive cmd : Type -> Type :=
| ReadState : cmd (option StackState)
| WriteState (state : StackState) : cmd (Result unit StackError)
| RemoveState : cmd (Result unit RemoveError)
| RemovePoolMap : cmd (Result unit RemoveError)
| RemovePoolLock : cmd (Result unit RemoveError)
| ProcMatches (pid : Z) (bin : string) : cmd bool
| KillPid (pid : Z) : cmd unit
| Healthy (state : StackState) : cmd bool
| GatherPlan : cmd (Result StackState StackError)
| SpawnBase : cmd (Result Z StackError)
| AwaitBaseReady (state : StackState) : cmd (Result unit StackError)
| Orphans (exclude : list Z) : cmd (list (Z * string))
| ReadStorage : cmd (list DirEntry * option (list DirEntry)).

Inductive prog (A : Type) : Type :=
| Ret (a : A)
| Call {X : Type} (c : cmd X) (k : X -> prog A).
Arguments Ret {A} a.
Arguments Call {A X} c k.

Fixpoint then_do {A B} (p : prog A) (f : A -> prog B) : prog B :=
  match p with
  | Ret a => f a
  | Call c k => Call c (fun x => then_do (k x) f)
  end.

Definition do_ {X} (c : cmd X) : prog X := Call c Ret.

#[local] Notation "'let!' x := p 'in' q" := (then_do p (fun x => q))
  (at level 200, x pattern, p at level 100, q at level 200).

(** The whole state file is written aside and renamed. *)
Definition write_state (state : StackState) : prog (Result unit StackError) := do_ (WriteState state).

(** The outcome of the removal is not looked at. *)
Definition remove_state : prog unit := let! _ := do_ RemoveState in Ret tt.
Definition reset_pool : prog unit :=
  let! _ := do_ RemovePoolMap in let! _ := do_ RemovePoolLock in Ret tt.

Definition with_base_pid (pid : Z) (st : StackState) : StackState :=
  mkStack (ss_base_rpc_port st) (ss_base_ws_port st) (ss_base_faucet_port st) (ss_base_gossip_port st)
    (ss_base_grpc_port st) (ss_base_plugin st) pid (ss_base_bin st) (ss_identity_pool st) (ss_clone_url st)
    (ss_base_programs st).

(** [boot_base]: the plan is its binaries, ports, genesis accounts and identities; a base that
    does not get ready, or cannot be recorded, is killed. *)
Definition boot_base : prog (Result StackState StackError) :=
  let! plan := do_ GatherPlan in
  match plan with
  | Err e => Ret (Err e)
  | Ok plan =>
      let! _ := reset_pool in
      let! base_pid := do_ SpawnBase in
      match base_pid with
      | Err e => Ret (Err e)
      | Ok base_pid =>
          let state := with_base_pid base_pid plan in
          let! ready := do_ (AwaitBaseReady state) in
          match ready with
          | Err e => let! _ := do_ (KillPid base_pid) in Ret (Err e)
          | Ok _ =>
              let! written := write_state state in
              match written with
              | Err e => let! _ := do_ (KillPid base_pid) in Ret (Err e)
              | Ok _ => Ret (Ok state)
              end
          end
      end
  end.

(** [kill_stack]: the pid is signalled only if it still is the base. *)
Definition kill_stack (state : StackState) : prog unit :=
  let! _ :=
    (if ss_base_pid state =? 0 then Ret tt
     else
       let! matching := do_ (ProcMatches (ss_base_pid state) (ss_base_bin state)) in
       if matching : bool then do_ (KillPid (ss_base_pid state)) else Ret tt) in
  remove_state.

(** [base_healthy] is asked last, of a base that runs and has a feed. *)
Definition reusable (state : StackState) : prog bool :=
  let! matching := do_ (ProcMatches (ss_base_pid state) (ss_base_bin state)) in
  if (matching && negb (ss_base_grpc_port state =? 0))%bool then do_ (Healthy state) else Ret false.

(** [ensure_base]; [base_only] runs it under the lock of the stack. *)
Definition ensure_base : prog (Result StackState StackError) :=
  let! file := do_ ReadState in
  match file with
  | None => boot_base
  | Some state =>
      let! reuse := reusable state in
      if reuse : bool then Ret (Ok state) else let! _ := kill_stack state in boot_base
  end.

Definition running_base_programs (matches : Z -> string -> bool) (file : option StackState) : option (list string) :=
  st ← file; if matches (ss_base_pid st) (ss_base_bin st) then Some (ss_base_programs st) else None.

(** * Tearing down *)

(** Each orphan that was found is killed in turn. *)
Fixpoint kill_all (orphans : list (Z * string)) : prog unit :=
  match orphans with
  | [] => Ret tt
  | (pid, _) :: orphans => let! _ := do_ (KillPid pid) in kill_all orphans
  end.

(** The orphans of the stack directory, then the storage. *)
Definition down_rest (known : list Z) : prog (Result (list string) string) :=
  let! orphans := do_ (Orphans known) in
  let! _ := kill_all orphans in
  let! dirs := do_ ReadStorage in
  Ret (wipe_storage dirs.1 dirs.2).

(** [down], which takes no lock; only a removal that fails for another reason than a file
    that is gone already is an error. *)
Definition stack_down : prog (Result (list string) string) :=
  let! file := do_ ReadState in
  match file with
  | None => down_rest []
  | Some state =>
      let! matching := do_ (ProcMatches (ss_base_pid state) (ss_base_bin state)) in
      let! _ := (if (matching && negb (ss_base_pid state =? 0))%bool then do_ (KillPid (ss_base_pid state)) else Ret tt) in
      let! removed := do_ RemoveState in
      match removed with
      | Err (RemoveFailed e) => Ret (Err e)
      | _ => down_rest [ss_base_pid state]
      end
  end.

(** * What the calls do *)

(** The state file, the assignments, the bases that were ever spawned, those that run and those
    that ended by themselves. *)
Record StackWorld := mkStackWorld
  { sw_file : option StackState; sw_assigned : gmap string nat; sw_spawned : gset Z;
    sw_live : gset Z; sw_exited : gset Z }.

Definition with_file (file : option StackState) (w : StackWorld) : StackWorld :=
  mkStackWorld file (sw_assigned w) (sw_spawned w) (sw_live w) (sw_exited w).
Definition with_assigned (a : gmap string nat) (w : StackWorld) : StackWorld :=
  mkStackWorld (sw_file w) a (sw_spawned w) (sw_live w) (sw_exited w).
Definition with_spawned (pid : Z) (w : StackWorld) : StackWorld :=
  mkStackWorld (sw_file w) (sw_assigned w) ({[pid]} ∪ sw_spawned w) ({[pid]} ∪ sw_live w) (sw_exited w).
Definition with_killed (pid : Z) (w : StackWorld) : StackWorld :=
  mkStackWorld (sw_file w) (sw_assigned w) (sw_spawned w) (sw_live w ∖ {[pid]}) (sw_exited w).
Definition with_exited (pid : Z) (w : StackWorld) : StackWorld :=
  mkStackWorld (sw_file w) (sw_assigned w) (sw_spawned w) (sw_live w ∖ {[pid]}) ({[pid]} ∪ sw_exited w).

(** The answers a call may get and the world it leaves.  Removals, the plan, the spawn, the
    readiness and the write may fail.  Of the process table: a base matches while it runs, a killed base
    does not run, a new base has a new pid, and a base that runs is found as an orphan unless it is
    excluded. *)
Definition cmd_step {X} (w : StackWorld) (c : cmd X) : X -> StackWorld -> Prop :=
  match c with
  | ReadState => fun x w' => x = sw_file w /\ w' = w
  | WriteState st => fun x w' => w' = (if x is Ok _ then with_file (Some st) w else w)
  | RemoveState => fun x w' =>
      match x with
      | Ok _ => w' = with_file None w
      | Err RemoveNotFound => sw_file w = None /\ w' = w
      | Err (RemoveFailed _) => w' = w
      end
  | RemovePoolMap => fun x w' => w' = (if x is Ok _ then with_assigned ∅ w else w)
  | RemovePoolLock => fun _ w' => w' = w
  | ProcMatches pid bin => fun x w' => w' = w /\ (pid ∈ sw_spawned w -> x = bool_decide (pid ∈ sw_live w))
  | KillPid pid => fun _ w' => w' = with_killed pid w
  | Healthy _ => fun _ w' => w' = w
  | GatherPlan => fun _ w' => w' = w
  | SpawnBase => fun x w' =>
      match x with
      | Ok pid => 0 < pid /\ pid ∉ sw_spawned w /\ w' = with_spawned pid w
      | Err _ => w' = w
      end
  | AwaitBaseReady _ => fun _ w' => w' = w
  | Orphans exclude => fun x w' => w' = w /\ forall pid, pid ∈ sw_live w -> pid ∉ exclude -> pid ∈ x.*1
  | ReadStorage => fun _ w' => w' = w
  end.

(** One call of a program. *)
Definition prog_step {A} (w : StackWorld) (p : prog A) (w' : StackWorld) (p' : prog A) : Prop :=
  match p with
  | Ret _ => False
  | Call c k => exists x, cmd_step w c x w' /\ p' = k x
  end.

(** The processes of one stack: at most one runs [ensure_base], as the lock admits; any number
    run [down]. *)
Record StackSys := mkSys
  { sy_world : StackWorld; sy_ensure : option (prog (Result StackState StackError));
    sy_downs : list (prog (Result (list string) string)) }.

Inductive stack_step : StackSys -> StackSys -> Prop :=
| step_lock w downs : stack_step (mkSys w None downs) (mkSys w (Some ensure_base) downs)
| step_ensure w p downs w' p' :
    prog_step w p w' p' -> stack_step (mkSys w (Some p) downs) (mkSys w' (Some p') downs)
| step_unlock w r downs : stack_step (mkSys w (Some (Ret r)) downs) (mkSys w None downs)
| step_down_start w e downs : stack_step (mkSys w e downs) (mkSys w e (downs ++ [stack_down]))
| step_down w e downs i p w' p' :
    downs !! i = Some p -> prog_step w p w' p' -> stack_step (mkSys w e downs) (mkSys w' e (<[i := p']> downs))
| step_down_end w e downs i r :
    downs !! i = Some (Ret r) -> stack_step (mkSys w e downs) (mkSys w e (delete i downs))
| step_assigned w e downs a : stack_step (mkSys w e downs) (mkSys (with_assigned a w) e downs)
| step_exit w e downs pid : pid ∈ sw_live w -> stack_step (mkSys w e downs) (mkSys (with_exited pid w) e downs).

(** [ensure_base] while nobody tears down. *)
Inductive calm_step : StackWorld * prog (Result StackState StackError) -> StackWorld * prog (Result StackState StackError) -> Prop :=
| calm_ensure w p w' p' : prog_step w p w' p' -> calm_step (w, p) (w', p')
| calm_assigned w p a : calm_step (w, p) (with_assigned a w, p)
| calm_exit w p pid : pid ∈ sw_live w -> calm_step (w, p) (with_exited pid w, p).

(** * Funding an identity *)

(** What a named environment is asked for. *)
Definition fund_missing (balance : Z) : option Z :=
  let missing := saturating_sub IDENTITY_FUNDING_LAMPORTS balance in
  if 0 <? missing then Some missing else None.

Inductive FundEvent := BalanceUpdate (update : Result Z string) | RequestTick.

(** The loop of [ensure_identity_funded]: how many airdrops it asked for, and its outcome;
    events that end leave it to its deadline. *)
Fixpoint fund_loop (balance : Z) (requests : nat) (events : list FundEvent) : Result unit string * nat :=
  if IDENTITY_FUNDING_LAMPORTS <=? balance then (Ok tt, requests)
  else match events with
       | [] => (Err "identity funding target not reached", requests)
       | BalanceUpdate (Err e) :: _ => (Err e, requests)
       | BalanceUpdate (Ok b) :: events => fund_loop b requests events
       | RequestTick :: events => fund_loop balance (S requests) events
       end.
