(* ===== verification/TopologyProps.v ===== *)
(** The topology: identities and ports are never shared, processes are stopped in order,
    the base that is recorded is the base that runs.  Of the readings of [/proc] and of directories: a
    process name cannot be taken for the fields after it, and a size is the sum of the files that did
    not vanish. *)
From Stdlib Require Import Ascii String.
From S2P Require Import Prelude Float64 Rate Text Metrics MetricsProps Report Process Stack.

#[local] Open Scope string_scope.
#[local] Open Scope Z_scope.
#[local] Open Scope list_scope.

(** * Identities *)

Section identities.
Context {Keypair : Type} (keypair_of : string -> option Keypair) (st : StackState).

Abbreviation assign_ := (identity_for_label keypair_of (Some st)) (only parsing).

(** Calls in the order the lock admits them, and what each returned. *)
Fixpoint identity_calls (calls : list (string * WriteOutcome)) (a : gmap string nat) :
  list (string * option (Result Keypair StackError)) :=
  match calls with
  | [] => []
  | (label, write) :: calls =>
      let '(r, a) := assign_ label write a in (label, r) :: identity_calls calls a
  end.

(** The writes that leave the file whole. *)
Definition intact (write : WriteOutcome) : bool :=
  match write with WriteFailed _ true => false | _ => true end.

(** The assignments number the labels. *)
Record pool_ok (a : gmap string nat) : Prop := {
  pool_bound : forall l s, a !! l = Some s -> (s < size a)%nat;
  pool_size : (size a <= length (ss_identity_pool st))%nat;
  pool_inj : forall l l' s, a !! l = Some s -> a !! l' = Some s -> l = l';
}.

Lemma pool_ok_empty : pool_ok ∅.
Proof. split; [intros ? ?; by rewrite lookup_empty|rewrite map_size_empty; lia|intros ? ? ?; by rewrite lookup_empty]. Qed.

Lemma assign_ok label write a r a' :
  intact write = true -> assign_ label write a = (r, a') -> pool_ok a ->
  pool_ok a' /\ a ⊆ a' /\ r <> None /\
  (forall k, r = Some (Ok k) -> exists s bytes, a' !! label = Some s /\ ss_identity_pool st !! s = Some bytes /\
     keypair_of bytes = Some k).
Proof.
  unfold identity_for_label. intros Hw H Ha. case_bool_decide; [by simplify_eq|].
  assert (Hid : forall s, (s < length (ss_identity_pool st))%nat ->
    exists bytes, ss_identity_pool st !! s = Some bytes) by (intros s; apply lookup_lt_is_Some).
  destruct (a !! label) as [s|] eqn:Hl.
  - simplify_eq/=. destruct (Hid s) as [bytes Hb].
    { pose proof (pool_bound _ Ha _ _ Hl). pose proof (pool_size _ Ha). lia. }
    rewrite Hb. cbn. split_and!; [done|done|done|]. intros k [= Hk]. exists s, bytes.
    destruct (keypair_of bytes) eqn:?; simplify_eq/=; done.
  - destruct (Nat.ltb_spec (size a) (length (ss_identity_pool st))); [|by simplify_eq].
    destruct write as [|? []]; [|done|by simplify_eq]. simplify_eq/=. destruct (Hid (size a)) as [bytes Hb]; [done|].
    rewrite Hb. cbn. split_and!; [|by apply insert_subseteq|done|].
    + destruct Ha as [P1 P2 P3]. split.
      * intros l s. rewrite map_size_insert_None by done.
        rewrite lookup_insert_Some. intros [[<- <-]|[_ Hs%P1]]; lia.
      * rewrite map_size_insert_None by done. lia.
      * intros l l' s. rewrite !lookup_insert_Some.
        intros [[<- <-]|[? Hs]] [[<- ?]|[? Hs']]; try done; [apply P1 in Hs'; lia|apply P1 in Hs; lia|eauto].
    + intros k [= Hk]. exists (size a), bytes. rewrite lookup_insert_eq.
      destruct (keypair_of bytes) eqn:?; simplify_eq/=; done.
Qed.

(** What a call returned is what the later assignments say. *)
Lemma identity_calls_spec calls a i label r :
  Forall (fun c => intact c.2 = true) calls -> pool_ok a -> identity_calls calls a !! i = Some (label, r) ->
  exists a', pool_ok a' /\ a ⊆ a' /\ r <> None /\
    (forall k, r = Some (Ok k) -> exists s bytes, a' !! label = Some s /\ ss_identity_pool st !! s = Some bytes /\
       keypair_of bytes = Some k).
Proof.
  intros Hw. revert a i. induction Hw as [|[l w] calls Hw1 Hw IH]; intros a i Ha; cbn [identity_calls]; [done|].
  destruct (assign_ l w a) as [r1 a1] eqn:E. destruct (assign_ok _ _ _ _ _ Hw1 E Ha) as (Ha1 & Hsub & Hn & Hk).
  destruct i as [|i]; cbn.
  - intros [= <- <-]. eauto 10.
  - intros (a' & ? & ? & ? & ?)%IH; [|done]. exists a'. split_and!; [done|by transitivity a1|done|done].
Qed.
End identities.

(** Later calls extend the assignments of earlier ones. *)
Lemma identity_calls_agree {K} (keypair_of : string -> option K) st calls a i j l l' k k' :
  Forall (fun c => intact c.2 = true) calls -> pool_ok st a -> (i <= j)%nat ->
  identity_calls keypair_of st calls a !! i = Some (l, Some (Ok k)) ->
  identity_calls keypair_of st calls a !! j = Some (l', Some (Ok k')) ->
  exists s s' bytes bytes', ss_identity_pool st !! s = Some bytes /\ ss_identity_pool st !! s' = Some bytes' /\
    keypair_of bytes = Some k /\ keypair_of bytes' = Some k' /\ (s = s' <-> l = l').
Proof.
  intros Hw. revert a i j. induction Hw as [|[x w] calls Hw1 Hw IH]; intros a i j Ha Hij; cbn [identity_calls]; [done|].
  destruct (identity_for_label keypair_of (Some st) x w a) as [r1 a1] eqn:E.
  destruct (assign_ok _ _ _ _ _ _ _ Hw1 E Ha) as (Ha1 & Hsub & _ & Hk).
  destruct i as [|i]; cbn.
  - intros [= -> ->]. destruct (Hk k eq_refl) as (s & bytes & Hs & Hb & Hkb).
    destruct j as [|j]; cbn.
    + intros [= <- <-]. exists s, s, bytes, bytes. split_and!; auto. done.
    + intros (a' & Ha' & Hsub' & _ & Hk')%identity_calls_spec; [|done|done].
      destruct (Hk' k' eq_refl) as (s' & bytes' & Hs' & Hb' & Hkb').
      exists s, s', bytes, bytes'. split_and!; try done.
      assert (Hsa : a' !! l = Some s) by (by eapply lookup_weaken). split.
      * intros <-. by eapply (pool_inj _ _ Ha').
      * intros <-. congruence.
  - destruct j as [|j]; [lia|]. cbn. apply IH; [done|lia].
Qed.

(** Two calls are given the same identity exactly when they name the same label, in
    whatever order processes make them, as long as no write of the assignments is torn. *)
Theorem identities_are_not_shared {K} (keypair_of : string -> option K) st calls i j l l' k k' :
  Forall (fun c => intact c.2 = true) calls -> NoDup (ss_identity_pool st) ->
  (forall b b', b ∈ ss_identity_pool st -> b' ∈ ss_identity_pool st -> keypair_of b = keypair_of b' -> b = b') ->
  identity_calls keypair_of st calls ∅ !! i = Some (l, Some (Ok k)) ->
  identity_calls keypair_of st calls ∅ !! j = Some (l', Some (Ok k')) ->
  (k = k' <-> l = l').
Proof.
  intros Hw Hnd Hinj Hi Hj. assert (H : exists s s' bytes bytes', ss_identity_pool st !! s = Some bytes /\
    ss_identity_pool st !! s' = Some bytes' /\ keypair_of bytes = Some k /\ keypair_of bytes' = Some k' /\
    (s = s' <-> l = l')).
  { destruct (decide (i <= j)%nat).
    - eapply identity_calls_agree; eauto. apply pool_ok_empty.
    - destruct (identity_calls_agree keypair_of st calls ∅ j i l' l k' k) as (s & s' & b & b' & H1 & H2 & H3 & H4 & H5);
        [done|apply pool_ok_empty|lia|done|done|]. exists s', s, b', b. split_and!; try done; naive_solver. }
  destruct H as (s & s' & b & b' & Hs & Hs' & Hk & Hk' & Heq). rewrite <- Heq. split.
  - intros <-. assert (b = b') as <-.
    { apply Hinj; [by eapply list_elem_of_lookup_2|by eapply list_elem_of_lookup_2|congruence]. }
    by eapply NoDup_lookup.
  - intros <-. congruence.
Qed.

Definition sample_stack : StackState :=
  mkStack 20000 20001 20002 20003 20004 "plugin" 77 "solana-test-validator" ["a"; "b"] "http://clone" ["fixture"].

Lemma identities_are_not_shared_witness :
  let calls := [("er-1", Written); ("er-2", WriteFailed "disk full" false); ("er-2", Written); ("er-1", Written)] in
  identity_calls Some sample_stack calls ∅
    = [("er-1", Some (Ok "a")); ("er-2", Some (Err (SeIo "disk full"))); ("er-2", Some (Ok "b")); ("er-1", Some (Ok "a"))]
  /\ ("a" = "b" <-> "er-1" = "er-2").
Proof.
  split; [vm_compute; reflexivity|].
  apply (identities_are_not_shared Some sample_stack
    [("er-1", Written); ("er-2", WriteFailed "disk full" false); ("er-2", Written); ("er-1", Written)] 0 2).
  - repeat constructor.
  - apply (bool_decide_unpack _). vm_compute. exact I.
  - intros b b' _ _ [= H]. exact H.
  - vm_compute. reflexivity.
  - vm_compute. reflexivity.
Defined.

(** After a torn write the pool is dealt again from its first slot. *)
Example torn_write_deals_again :
  identity_calls Some sample_stack [("er-1", Written); ("er-2", WriteFailed "disk full" true); ("er-2", Written)] ∅
  = [("er-1", Some (Ok "a")); ("er-2", Some (Err (SeIo "disk full"))); ("er-2", Some (Ok "a"))].
Proof. vm_compute. reflexivity. Qed.

(** * Ports *)

Lemma take_block_free answer ports : take_block answer ports = Ok true -> forall p, p ∈ ports -> answer p = PortFree.
Proof.
  induction ports as [|q ports IH]; cbn; [intros _ p Hp; by apply not_elem_of_nil in Hp|].
  destruct (answer q) eqn:Hq; [|done|done]. intros H p [->|Hp]%elem_of_cons; auto.
Qed.

Lemma claim_loop_had answer want firsts first :
  claim_loop answer want firsts = Ok first ->
  first ∈ firsts /\ first + want <= PORT_END /\ forall p, p ∈ block first want -> answer p = PortFree.
Proof.
  induction firsts as [|f firsts IH]; cbn [claim_loop]; [done|].
  assert (Hlater : claim_loop answer want firsts = Ok first -> first ∈ f :: firsts /\ first + want <= PORT_END /\
    forall p, p ∈ block first want -> answer p = PortFree) by (intros (? & ? & ?)%IH; split_and!; [by right|done..]).
  destruct (Z.ltb_spec PORT_END (f + want)); [done|].
  destruct (take_block answer (block f want)) as [[]|] eqn:Hb; cbn; [|done|done].
  intros [= <-]. split_and!; [by left|done|by apply take_block_free].
Qed.

Lemma candidates_in_band start first :
  PORT_FIRST <= start < PORT_END -> first ∈ candidates start -> PORT_FIRST <= first < PORT_END.
Proof.
  intros Hs Hin. assert (Hin' : first ∈ seqZ start (PORT_END - start) ++ seqZ PORT_FIRST (start - PORT_FIRST)).
  { unfold candidates in Hin. by eapply elem_of_take in Hin as (i & Hi & _); eapply list_elem_of_lookup_2. }
  apply elem_of_app in Hin' as [H|H]; apply elem_of_seqZ in H; lia.
Qed.

Lemma claim_spec answer start want l :
  PORT_FIRST <= start < PORT_END ->
  match claim answer start want l with
  | (Ok first, l') =>
      PORT_FIRST <= first /\ first + want <= PORT_END /\
      pl_claims l' = pl_claims l ∪ list_to_set (block first want) /\
      pl_holders l' = pl_holders l ∪ list_to_set (block first want) /\
      forall p, first <= p < first + want -> answer p = PortFree
  | (Err _, l') => l' = l
  end.
Proof.
  intros Hs. unfold claim. destruct (claim_loop _ _ _) as [first|e] eqn:E; [|done].
  apply claim_loop_had in E as (Hin & Hend & Hfree). apply candidates_in_band in Hin; [|done].
  split_and!; [lia|done|done|done|]. intros p Hp. apply Hfree, elem_of_seqZ. lia.
Qed.

(** No port belongs to two leases, and sockets are held on claimed ports only. *)
Record ports_ok (w : PortWorld) : Prop := {
  po_band : forall who l p, pw_leases w !! who = Some l -> p ∈ pl_claims l -> PORT_FIRST <= p < PORT_END;
  po_held : forall who l, pw_leases w !! who = Some l -> pl_holders l ⊆ pl_claims l;
  po_apart : forall who who' l l', pw_leases w !! who = Some l -> pw_leases w !! who' = Some l' ->
    who <> who' -> pl_claims l ## pl_claims l';
}.

Lemma locked_spec w p : locked w p = false -> forall who l, pw_leases w !! who = Some l -> p ∉ pl_claims l.
Proof.
  unfold locked. intros Hf who l Hl Hp. apply Bool.not_true_iff_false in Hf. apply Hf, existsb_exists.
  exists (who, l). split; [by apply list_elem_of_In, elem_of_map_to_list|by apply bool_decide_eq_true].
Qed.

(** A lease that gets bigger only by ports no one has keeps the world in order. *)
Lemma ports_ok_insert w who l' foreign :
  ports_ok w -> pl_holders l' ⊆ pl_claims l' ->
  (forall p, p ∈ pl_claims l' -> PORT_FIRST <= p < PORT_END /\
     ((exists l, pw_leases w !! who = Some l /\ p ∈ pl_claims l) \/ locked w p = false)) ->
  ports_ok (mkPorts (<[who := l']> (pw_leases w)) foreign).
Proof.
  intros [Hb Hh Ha] Hsub Hp.
  assert (Hx : forall who2 l2, who2 <> who -> pw_leases w !! who2 = Some l2 -> pl_claims l' ## pl_claims l2).
  { intros who2 l2 Hne Hl2 p Hin Hin2. destruct (Hp p Hin) as [_ [(l & Hl & Hin3)|Hlock]].
    - by apply (Ha who who2 l l2 Hl Hl2 (not_eq_sym Hne) p).
    - by apply (locked_spec _ _ Hlock who2 l2 Hl2). }
  split; cbn; intros *; rewrite ?lookup_insert_Some.
  - intros [[_ <-]|[_ Hl]] Hin; [by apply Hp|eauto].
  - intros [[_ <-]|[_ Hl]]; eauto.
  - intros [[<- <-]|[Hn Hl]] [[<- <-]|[Hn' Hl']] Hne; [done|by eapply Hx|symmetry; by eapply Hx|eauto].
Qed.

Lemma port_step_ok w w' : port_step w w' -> ports_ok w -> ports_ok w'.
Proof.
  intros Hstep Hok. destruct Hstep as [w who answer start want l Hans Hs Hw Hl|w who Hl|w who l Hl|w who|w bound].
  - pose proof (claim_spec answer start want l Hs) as Hc. destruct (claim answer start want l) as [[first|e] l'].
    + destruct Hc as (Hf & He & Hcl & Hho & Hfree). cbn. apply ports_ok_insert; [done| |].
      * rewrite Hcl, Hho. pose proof (po_held _ Hok _ _ Hl). set_solver.
      * intros p. rewrite Hcl, elem_of_union, elem_of_list_to_set. intros [Hin|Hin].
        -- split; [by eapply po_band|left; eauto].
        -- apply elem_of_seqZ in Hin. split; [lia|right].
           specialize (Hans p (Hfree p ltac:(lia))). unfold port_free in Hans. by destruct (locked w p).
    + subst l'. cbn. apply ports_ok_insert; [done|by eapply po_held|].
      intros p Hin. split; [by eapply po_band|left; eauto].
  - apply ports_ok_insert; [done|set_solver|set_solver].
  - apply ports_ok_insert; [done|set_solver|].
    intros p Hin. split; [by eapply po_band|left; eauto].
  - destruct Hok as [Hb Hh Ha]. split; cbn; intros *; rewrite ?lookup_delete_Some; naive_solver.
  - by destruct Hok.
Qed.

Lemma ports_ok_rtc w w' : rtc port_step w w' -> ports_ok w -> ports_ok w'.
Proof. induction 1; eauto using port_step_ok. Qed.

Lemma ports_ok_init foreign : ports_ok (mkPorts ∅ foreign).
Proof. split; cbn; intros *; by rewrite lookup_empty. Qed.

(** Whatever redsuite processes claim, release and drop, and whatever other programs
    bind meanwhile, two leases never contain the same port; a claim either gives a whole
    block of the band that was free, or leaves the lease as it was. *)
Theorem port_leases_are_disjoint foreign w :
  rtc port_step (mkPorts ∅ foreign) w ->
  (forall who who' l l', pw_leases w !! who = Some l -> pw_leases w !! who' = Some l' -> who <> who' ->
     pl_claims l ## pl_claims l') /\
  (forall who l answer start want, pw_leases w !! who = Some l -> answers w answer -> PORT_FIRST <= start < PORT_END ->
     match claim answer start want l with
     | (Ok first, l') =>
         PORT_FIRST <= first /\ first + want <= PORT_END /\ pl_claims l ⊆ pl_claims l' /\
         forall p, first <= p < first + want -> p ∈ pl_holders l' /\ port_free w p = true
     | (Err _, l') => l' = l
     end).
Proof.
  intros Hr. pose proof (ports_ok_rtc _ _ Hr (ports_ok_init foreign)) as Hok.
  split; [intros *; by apply (po_apart _ Hok)|].
  intros who l answer start want Hl Hans Hs. pose proof (claim_spec answer start want l Hs) as Hc.
  destruct (claim answer start want l) as [[first|e] l']; [|done].
  destruct Hc as (Hf & He & Hcl & Hho & Hfree). split_and!; [done|done|set_solver|].
  intros p Hp. split; [|by apply Hans, Hfree].
  rewrite Hho, elem_of_union, elem_of_list_to_set. right. apply elem_of_seqZ. lia.
Qed.

Definition sample_ports : PortWorld := mkPorts (<[1 := PortLease_default]> ∅) {[25000]}.
Definition sample_answer (p : Z) : PortAnswer := if port_free sample_ports p then PortFree else PortBusy.

Lemma port_leases_are_disjoint_witness :
  (claim sample_answer 24999 2 PortLease_default).1 = Ok 25001 /\
  exists w, rtc port_step (mkPorts ∅ {[25000]}) w /\ pw_leases w !! 1 = Some (claim sample_answer 24999 2 PortLease_default).2 /\
    forall who who' l l', pw_leases w !! who = Some l -> pw_leases w !! who' = Some l' -> who <> who' ->
      pl_claims l ## pl_claims l'.
Proof.
  split; [vm_compute; reflexivity|].
  set (w := mkPorts (<[1 := (claim sample_answer 24999 2 PortLease_default).2]> (pw_leases sample_ports)) (pw_foreign sample_ports)).
  assert (Hr : rtc port_step (mkPorts ∅ {[25000]}) w).
  { eapply rtc_l; [exact (step_new (mkPorts ∅ {[25000]}) 1 (lookup_empty _))|]. apply rtc_once.
    apply (step_claim sample_ports).
    - intros p. unfold sample_answer. destruct (port_free _ p); [reflexivity|discriminate].
    - cbv. split; [discriminate|reflexivity].
    - reflexivity.
    - reflexivity. }
  exists w. split; [exact Hr|]. split; [apply lookup_insert_eq|]. exact (proj1 (port_leases_are_disjoint _ _ Hr)).
Defined.

(** * Stopping a process *)

(** [Kill] is added at most once, after the grace window, and makes the flag of the result. *)
Lemma terminate_loop_spec grace hard escalated needed sent polls r sent' :
  terminate_loop grace hard escalated needed sent polls = Some (r, sent') ->
  exists killed : bool,
    sent' = (if killed then sent ++ [Kill] else sent) /\
    (killed = true -> escalated = false /\ exists p, p ∈ polls /\ grace <= po_grace p) /\
    (forall status n, r = Ok (status, n) -> n = (needed || killed)%bool /\ exists p, p ∈ polls /\ po_wait p = Ok (Some status)) /\
    (r = Err PeDidNotExit ->
       exists p, p ∈ polls /\ hard <= po_hard p /\ (escalated = true \/ killed = true \/ po_grace p < grace)).
Proof.
  revert escalated needed sent. induction polls as [|p polls IH]; intros escalated needed sent; cbn; [done|].
  assert (Hp : p ∈ p :: polls) by by left.
  assert (Hq : forall q, q ∈ polls -> q ∈ p :: polls) by (by right).
  destruct (po_wait p) as [[status|]|e] eqn:Hw.
  - intros [= <- <-]. exists false. split_and!; [done|done| |done]. intros status' n [= <- <-].
    rewrite orb_false_r. eauto.
  - set (esc := (negb escalated && (grace <=? po_grace p))%bool).
    assert (Hesc : if esc then escalated = false /\ grace <= po_grace p else escalated = true \/ po_grace p < grace).
    { subst esc. destruct escalated; cbn; [by left|]. destruct (Z.leb_spec grace (po_grace p)); auto. }
    destruct (Z.ltb_spec (po_hard p) hard) as [Hh|Hh].
    + intros (killed & H1 & H2 & H3 & H4)%IH. clear IH. exists (esc || killed)%bool. destruct esc; cbn.
      * rewrite !orb_true_r in *. destruct killed; [by destruct (H2 eq_refl)|]. destruct Hesc. split_and!; [done|eauto| |].
        -- intros status n Hr. destruct (H3 _ _ Hr) as [-> (q & ? & ?)]. eauto.
        -- intros Hr. destruct (H4 Hr) as (q & ? & ? & _). exists q. split_and!; [by apply Hq|done|by right; left].
      * rewrite !orb_false_r in *. split_and!; [done| | |].
        -- intros Hk. destruct (H2 Hk) as (? & q & ? & ?). eauto.
        -- intros status n Hr. destruct (H3 _ _ Hr) as [-> (q & ? & ?)]. eauto.
        -- intros Hr. destruct (H4 Hr) as (q & ? & ? & ?). exists q. split_and!; [by apply Hq|done|done].
    + intros [= <- <-]. exists esc. split_and!; [by destruct esc| |done|].
      * intros Hk. rewrite Hk in Hesc. destruct Hesc. eauto.
      * intros _. exists p. split_and!; [done|done|]. destruct esc; tauto.
  - intros [= <- <-]. exists false. split_and!; done.
Qed.

(** The loop ends when the process does, or when the clock reaches the deadline. *)
Lemma terminate_loop_ends grace hard escalated needed sent polls :
  (exists p, p ∈ polls /\ (po_wait p <> Ok None \/ hard <= po_hard p)) ->
  terminate_loop grace hard escalated needed sent polls <> None.
Proof.
  intros (p & Hp & Hend). revert escalated needed sent.
  induction Hp as [p polls|p q polls Hp IH]; intros escalated needed sent; cbn.
  - destruct (po_wait p) as [[?|]|?]; [done| |done]. destruct Hend as [?|?]; [done|].
    by rewrite (proj2 (Z.ltb_ge _ _)).
  - destruct (po_wait q) as [[?|]|?]; [done| |done]. destruct (_ <? _); [|done]. by apply IH.
Qed.

(** The signals a run of [terminate] may send. *)
Definition ladder (hard_kill killed : bool) : list Signal :=
  if hard_kill then [Kill] else if killed then [Term; Kill] else [Term].

(** C27: [terminate] asks with SIGTERM first and sends SIGKILL at most once, only when the grace
    window has passed or a crash was asked for; it reports that SIGKILL was needed exactly when
    it escalated; it gives up only at the deadline, with SIGKILL sent; and it always returns. *)
Theorem terminate_escalates_in_order now (hard_kill : bool) polls :
  let grace := now + KILL_GRACE in
  let hard := if hard_kill then grace else grace + KILL_GRACE in
  (exists p, p ∈ polls /\ (po_wait p <> Ok None \/ hard <= po_hard p)) ->
  (forall p, p ∈ polls -> po_hard p - po_grace p < KILL_GRACE) ->
  exists r (killed : bool), terminate (Ok None) now hard_kill polls = Some (r, ladder hard_kill killed) /\
    (killed = true -> hard_kill = false /\ exists p, p ∈ polls /\ grace <= po_grace p) /\
    match r with
    | Ok (status, needed) => needed = killed /\ exists p, p ∈ polls /\ po_wait p = Ok (Some status)
    | Err PeDidNotExit => (hard_kill || killed)%bool = true /\ exists p, p ∈ polls /\ hard <= po_hard p
    | Err _ => True
    end.
Proof.
  intros grace hard Hend Hgap. cbn [terminate]. fold grace. fold hard.
  destruct (terminate_loop grace hard hard_kill false _ polls) as [[r sent]|] eqn:E;
    [|by apply terminate_loop_ends in E].
  apply terminate_loop_spec in E as (killed & -> & H2 & H3 & H4). exists r, killed. split_and!; [|done|].
  - destruct killed; [destruct (H2 eq_refl) as [-> _]; done|by destruct hard_kill].
  - destruct r as [[status n]|[]]; try done; [by apply H3|].
    destruct (H4 eq_refl) as (p & Hp & Hh & Hk). split; [|eauto]. specialize (Hgap p Hp). subst hard grace.
    destruct hard_kill, killed; try done. destruct Hk as [?|[?|?]]; [done|done|unfold KILL_GRACE in *; lia].
Qed.

Lemma terminate_escalates_in_order_witness :
  exists r (killed : bool),
    terminate (Ok None) 0 false
      [mkPoll (Ok None) 1 2; mkPoll (Ok None) KILL_GRACE (KILL_GRACE + 1); mkPoll (Ok (Some (ExitSignal 9))) 0 0]
      = Some (r, ladder false killed) /\ r = Ok (ExitSignal 9, true) /\ killed = true.
Proof.
  destruct (terminate_escalates_in_order 0 false
    [mkPoll (Ok None) 1 2; mkPoll (Ok None) KILL_GRACE (KILL_GRACE + 1); mkPoll (Ok (Some (ExitSignal 9))) 0 0])
    as (r & killed & H & _).
  - eexists. split; [right; right; left|left; discriminate].
  - intros p Hp. repeat (apply elem_of_cons in Hp as [->|Hp]; [vm_compute; reflexivity|]). apply not_elem_of_nil in Hp as [].
  - exists r, killed. split; [exact H|]. vm_compute in H. destruct killed; [|discriminate H].
    injection H as <-. split; reflexivity.
Defined.

(** Waiting for a condition: ready, dead and late are told apart, and it always returns. *)
Theorem wait_until_tells_why interval timeout start checked polls :
  (exists p, p ∈ polls /\ (wp_ready p = true \/ start + timeout <= wp_late p)) ->
  exists p, p ∈ polls /\
    match wait_until_every interval timeout start checked polls with
    | Some (Ok _) => wp_ready p = true
    | Some (Err PeExited) => wp_ready p = false /\ wp_running p = false
    | Some (Err PeTimedOut) => wp_ready p = false /\ start + timeout <= wp_late p
    | _ => False
    end.
Proof.
  unfold wait_until_every. generalize (start + timeout) as deadline. clear start timeout.
  intros deadline (q & Hq & Hend). revert checked. induction Hq as [q polls|q p polls Hq IH]; intros checked; cbn.
  - exists q. split; [by left|]. destruct (wp_ready q) eqn:Hr; [done|]. destruct Hend as [?|Hl]; [done|].
    destruct (_ && negb (wp_running q))%bool eqn:Hx.
    + apply andb_prop in Hx as [_ Hx%negb_true_iff]. done.
    + by rewrite (proj2 (Z.ltb_ge _ _)).
  - destruct (wp_ready p) eqn:Hr; [exists p; split; [by left|done]|].
    destruct (_ && negb (wp_running p))%bool eqn:Hx.
    + exists p. split; [by left|]. apply andb_prop in Hx as [_ Hx%negb_true_iff]. done.
    + destruct (Z.ltb_spec (wp_late p) deadline); [|exists p; split; [by left|done]].
      destruct (IH Hend (if ((LIVENESS_INTERVAL <=? interval) || (LIVENESS_INTERVAL <=? wp_now p - checked))%bool then wp_now p else checked))
        as (r & ? & ?). exists r. split; [by right|done].
Qed.

(** * The shared base *)

(** The pid in the state file. *)
Definition recorded (w : StackWorld) : gset Z := from_option (fun st => {[ss_base_pid st]}) ∅ (sw_file w).

Record world_ok (w : StackWorld) : Prop := {
  wo_live : sw_live w ⊆ sw_spawned w;
  wo_positive : forall pid, pid ∈ sw_spawned w -> 0 < pid;
  wo_recorded : recorded w ⊆ sw_spawned w;
}.

(** What any process does: a base that ended stays ended. *)
Definition grows (w w' : StackWorld) : Prop :=
  sw_spawned w ⊆ sw_spawned w' /\ forall pid, pid ∈ sw_spawned w -> pid ∈ sw_live w' -> pid ∈ sw_live w.

(** What a process that does not hold the lock does: it starts nothing and records nothing. *)
Definition quiet (w w' : StackWorld) : Prop :=
  (sw_file w' = sw_file w \/ sw_file w' = None) /\ sw_spawned w' = sw_spawned w /\ sw_live w' ⊆ sw_live w.

(** What happens while nobody tears down. *)
Definition calm (w w' : StackWorld) : Prop :=
  sw_file w' = sw_file w /\ sw_spawned w' = sw_spawned w /\ sw_live w' ⊆ sw_live w /\
  sw_live w ⊆ sw_live w' ∪ sw_exited w' /\ sw_exited w ⊆ sw_exited w'.

Lemma quiet_grows w w' : quiet w w' -> grows w w'.
Proof. intros (_ & Hs & Hl). split; [by rewrite Hs|auto]. Qed.
Lemma calm_quiet w w' : calm w w' -> quiet w w'.
Proof. intros (? & ? & ? & _). split_and!; auto. Qed.

#[local] Instance grows_preorder : PreOrder grows.
Proof. split; [by intros w; split|]. intros w1 w2 w3 [S1 L1] [S2 L2]. split; [by transitivity (sw_spawned w2)|]. auto. Qed.
#[local] Instance quiet_preorder : PreOrder quiet.
Proof.
  split; [intros w; split_and!; auto|]. intros w1 w2 w3 (F1 & S1 & L1) (F2 & S2 & L2).
  split_and!; [destruct F2 as [->| ->]; auto|congruence|by transitivity (sw_live w2)].
Qed.
#[local] Instance calm_preorder : PreOrder calm.
Proof.
  split; [intros w; split_and!; set_solver|].
  intros w1 w2 w3 (F1 & S1 & L1 & X1 & E1) (F2 & S2 & L2 & X2 & E2).
  split_and!; [congruence|congruence|by transitivity (sw_live w2)|set_solver|set_solver].
Qed.

(** Who answers for a base that runs after a call: the state file, the process that made the
    call, or whoever did before. *)
Definition covers (own own' : gset Z) (w w' : StackWorld) : Prop :=
  sw_live w' ⊆ recorded w' ∪ own' ∪ ((sw_live w ∖ recorded w) ∖ own).

Lemma covers_same own w : covers own own w w.
Proof.
  intros pid Hp. destruct (decide (pid ∈ recorded w)); [set_solver|]. destruct (decide (pid ∈ own)); set_solver.
Qed.

(** A program that answers for [own] from here on: each call keeps the world in order and what
    the others rely on, and what it leaves covered is covered; [rely] is what they do in between. *)
Section ok.
Context {A : Type} (rely guar : StackWorld -> StackWorld -> Prop) (post : A -> gset Z -> StackWorld -> Prop).

Fixpoint ok (p : prog A) (own : gset Z) (w : StackWorld) : Prop :=
  match p with
  | Ret a => post a own w
  | Call c k =>
      forall x w', cmd_step w c x w' -> world_ok w' /\ guar w w' /\
        exists own', covers own own' w w' /\ forall w'', rely w' w'' -> world_ok w'' -> ok (k x) own' w''
  end.

(** The program is [ok] and stays so whatever the others do. *)
Definition stays_ok (p : prog A) (own : gset Z) (w : StackWorld) : Prop :=
  forall w', rely w w' -> world_ok w' -> ok p own w'.

Lemma prog_step_ok `{!PreOrder rely} w p w' p' own :
  world_ok w -> stays_ok p own w -> prog_step w p w' p' ->
  world_ok w' /\ guar w w' /\ exists own', covers own own' w w' /\ stays_ok p' own' w'.
Proof.
  intros Hw Hok Hs. specialize (Hok w (reflexivity w) Hw). destruct p as [a|X c k]; [done|].
  destruct Hs as (x & Hs & ->). exact (Hok x w' Hs).
Qed.

Lemma stays_ok_rely `{!PreOrder rely} w w' p own : rely w w' -> stays_ok p own w -> stays_ok p own w'.
Proof. intros Hr Hok w'' Hr'. apply Hok. by transitivity w'. Qed.

(** A call that changes nothing. *)
Lemma ok_same `{!PreOrder guar} {X} (c : cmd X) (k : X -> prog A) own w :
  (forall x w', cmd_step w c x w' -> w' = w) -> world_ok w ->
  (forall x w', cmd_step w c x w -> rely w w' -> world_ok w' -> ok (k x) own w') -> ok (Call c k) own w.
Proof.
  intros Hc Hw Hk x w' Hs. pose proof (Hc _ _ Hs) as ->. split; [done|]. split; [reflexivity|].
  exists own. split; [apply covers_same|]. intros w''. by apply Hk.
Qed.
End ok.
#[local] Arguments ok : simpl never.

(** A killed base. *)
Lemma world_ok_killed w pid : world_ok w -> world_ok (with_killed pid w).
Proof. intros [H1 H2 H3]. split; [cbn; set_solver|done|done]. Qed.
Lemma quiet_killed w pid : quiet w (with_killed pid w).
Proof. split_and!; [by left|done|cbn; set_solver]. Qed.
Lemma world_ok_file_none w : world_ok w -> world_ok (with_file None w).
Proof. intros [H1 H2 H3]. split; [done|done|cbn; set_solver]. Qed.
Lemma quiet_file_none w : quiet w (with_file None w).
Proof. split_and!; [by right|done|done]. Qed.
Lemma world_ok_assigned w a : world_ok w -> world_ok (with_assigned a w).
Proof. by intros []. Qed.
Lemma calm_assigned w a : calm w (with_assigned a w).
Proof. split_and!; cbn; set_solver. Qed.
Lemma world_ok_exited w pid : world_ok w -> world_ok (with_exited pid w).
Proof. intros [H1 H2 H3]. split; [cbn; set_solver|done|done]. Qed.
Lemma calm_exited w pid : calm w (with_exited pid w).
Proof.
  split_and!; [done|done|cbn; set_solver| |cbn; set_solver].
  intros q Hq. cbn. destruct (decide (q = pid)); set_solver.
Qed.

(** ** Tearing down *)

Definition down_post (r : Result (list string) string) (own : gset Z) (w : StackWorld) : Prop := own = ∅.
Abbreviation down_ok := (ok grows quiet down_post).

Lemma kill_all_ok orphans own w (p : prog (Result (list string) string)) :
  world_ok w -> own ⊆ list_to_set orphans.*1 ->
  (forall w', world_ok w' -> grows w w' -> down_ok p ∅ w') ->
  down_ok (then_do (kill_all orphans) (fun _ => p)) own w.
Proof.
  revert own w. induction orphans as [|[pid name] orphans IH]; intros own w Hw Hown Hp; cbn in *.
  - assert (own = ∅) as -> by set_solver. by apply Hp.
  - intros x w' Hx. cbn in Hx. subst w'. split; [by apply world_ok_killed|]. split; [apply quiet_killed|].
    exists (list_to_set orphans.*1). split.
    + intros q Hq. cbn in Hq. unfold recorded. cbn. fold (recorded w).
      destruct (decide (q ∈ recorded w)); [set_solver|]. destruct (decide (q ∈ own)); set_solver.
    + intros w'' Hg Hw''. apply IH; [done|done|]. intros w3 Hw3 Hg3. apply Hp; [done|].
      etransitivity; [apply quiet_grows, (quiet_killed w pid)|]. exact (transitivity Hg Hg3).
Qed.

(** A base that ended stays ended. *)
Definition ended (w : StackWorld) (pid : Z) : Prop := pid ∈ sw_spawned w /\ pid ∉ sw_live w.

Lemma ended_grows w w' pid : grows w w' -> ended w pid -> ended w' pid.
Proof. intros [Hs Hl] [H1 H2]. split; [by apply Hs|]. intros H3. by apply H2, Hl. Qed.
Lemma ended_killed w pid : pid ∈ sw_spawned w -> ended (with_killed pid w) pid.
Proof. intros H. split; cbn; set_solver. Qed.

Lemma down_rest_ok known own w :
  world_ok w -> (forall pid, pid ∈ known -> ended w pid) -> down_ok (down_rest known) own w.
Proof.
  intros Hw Hk x w' [-> Hall]. split; [done|]. split; [reflexivity|]. exists (list_to_set x.*1). split.
  - intros q Hq. apply elem_of_union_l, elem_of_union_r, elem_of_list_to_set, Hall; [done|].
    intros Hin. by apply (Hk q Hin).
  - intros w1 _ Hw1. apply kill_all_ok; [done|done|]. intros w2 Hw2 _. apply ok_same; [apply _|by intros ? ? ->|done|].
    intros [stack db] w3 _ _ _. reflexivity.
Qed.

Lemma down_removes_ok pid w :
  world_ok w -> ended w pid ->
  down_ok (Call RemoveState (fun removed => match removed with Err (RemoveFailed e) => Ret (Err e) | _ => down_rest [pid] end)) ∅ w.
Proof.
  intros Hw Hp x w' Hx.
  assert (Hrest : forall own w2, grows w w2 -> world_ok w2 -> down_ok (down_rest [pid]) own w2).
  { intros own w2 Hg Hw2. apply down_rest_ok; [done|]. intros q ->%list_elem_of_singleton. by eapply ended_grows. }
  destruct x as [[]|[|e]]; cbn in Hx.
  - subst w'. split; [by apply world_ok_file_none|]. split; [apply quiet_file_none|]. exists (recorded w). split.
    + intros q Hq. cbn in Hq. destruct (decide (q ∈ recorded w)); set_solver.
    + intros w2 Hg. apply Hrest. etransitivity; [apply quiet_grows, (quiet_file_none w)|done].
  - destruct Hx as [_ ->]. split; [done|]. split; [reflexivity|]. exists ∅. split; [apply covers_same|]. intros w2. apply Hrest.
  - subst w'. split; [done|]. split; [reflexivity|]. exists ∅. split; [apply covers_same|]. reflexivity.
Qed.

(** A process that tears down answers for the base whose record it removed, until it has
    swept the orphans. *)
Lemma stack_down_ok w : world_ok w -> stays_ok grows quiet down_post stack_down ∅ w.
Proof.
  intros _ w0 _ Hw0. apply ok_same; [apply _|by intros ? ? [_ ->]|done|]. intros file w1 [-> _] Hg1 Hw1.
  destruct (sw_file w0) as [st|] eqn:Hf; [|by apply down_rest_ok; [|intros ? ?%not_elem_of_nil]].
  assert (Hsp : ss_base_pid st ∈ sw_spawned w1).
  { apply Hg1, (wo_recorded _ Hw0). unfold recorded. rewrite Hf. set_solver. }
  cbn. apply ok_same; [apply _|by intros ? ? [-> _]|done|]. intros m w2 [_ Hm] Hg2 Hw2. specialize (Hm Hsp).
  assert (Hsp2 : ss_base_pid st ∈ sw_spawned w2) by by apply Hg2.
  rewrite (proj2 (Z.eqb_neq (ss_base_pid st) 0)) by (pose proof (wo_positive _ Hw2 _ Hsp2); lia).
  rewrite andb_true_r. subst m. case_bool_decide as Hl; cbn.
  - intros x w3 Hx. cbn in Hx. subst w3. split; [by apply world_ok_killed|]. split; [apply quiet_killed|]. exists ∅.
    split; [unfold covers, recorded; cbn; intros q; destruct (decide (q ∈ recorded w2)); set_solver|].
    intros w4 Hg4 Hw4. apply down_removes_ok; [done|]. eapply ended_grows; [done|]. by apply ended_killed.
  - apply down_removes_ok; [done|]. apply (ended_grows w1); [done|]. by split.
Qed.

(** ** Ensuring the base *)

(** Under the lock the state file is what this process last saw in it, or a process that
    tears down has removed it. *)
Definition holds (alone : bool) (w : StackWorld) (file : option StackState) : Prop :=
  sw_file w = file \/ alone = false /\ sw_file w = None.
Definition others (alone : bool) : StackWorld -> StackWorld -> Prop := if alone then calm else quiet.

(** The base that is returned is recorded, and runs or has exited; a failure leaves no record
    of a base that runs. *)
Definition ensure_post (alone : bool) (r : Result StackState StackError) (own : gset Z) (w : StackWorld) : Prop :=
  own = ∅ /\
  match r with
  | Ok st => holds alone w (Some st) /\ ss_base_pid st ∈ sw_spawned w /\
      (alone = true -> ss_base_pid st ∈ sw_live w ∪ sw_exited w)
  | Err _ => forall st, sw_file w = Some st -> ended w (ss_base_pid st)
  end.

Section ensure.
Context (alone : bool).
Abbreviation ensure_ok := (ok (others alone) grows (ensure_post alone)).

#[local] Instance others_preorder : PreOrder (others alone).
Proof. unfold others. destruct alone; apply _. Qed.

Lemma others_quiet w w' : others alone w w' -> quiet w w'.
Proof. unfold others. destruct alone; [apply calm_quiet|done]. Qed.
Lemma others_grows w w' : others alone w w' -> grows w w'.
Proof. intros H. by apply quiet_grows, others_quiet. Qed.

Lemma holds_others w w' file : others alone w w' -> holds alone w file -> holds alone w' file.
Proof.
  unfold others, holds. destruct alone.
  - intros (-> & _) H. exact H.
  - intros ([->| ->] & _) [?|[_ ?]]; auto.
Qed.

(** No record of a base that runs. *)
Definition stale (w : StackWorld) : Prop := forall st, sw_file w = Some st -> ended w (ss_base_pid st).

Lemma stale_others w w' : others alone w w' -> stale w -> stale w'.
Proof.
  intros Hr Hs st Hf. eapply ended_grows; [by apply others_grows|]. apply Hs.
  destruct (others_quiet _ _ Hr) as [[<-|Hn] _]; [done|congruence].
Qed.
(** The base runs or has exited by itself, as far as nobody tears down. *)
Definition up (pid : Z) (w : StackWorld) : Prop :=
  pid ∈ sw_spawned w /\ (alone = true -> pid ∈ sw_live w ∪ sw_exited w).

Lemma up_others w w' pid : others alone w w' -> up pid w -> up pid w'.
Proof.
  intros Hr [Hs Hl]. split; [by apply others_grows in Hr as [Hg _]; apply Hg|]. intros Ha. specialize (Hl Ha).
  unfold others in Hr. rewrite Ha in Hr. destruct Hr as (_ & _ & _ & Hx & He). set_solver.
Qed.

Lemma killed_ok pid (e : StackError) w :
  world_ok w -> stale w -> ensure_ok (Call (KillPid pid) (fun _ => Ret (Err e))) {[pid]} w.
Proof.
  intros Hw Hs x w' Hx. cbn in Hx. subst w'. split; [by apply world_ok_killed|].
  split; [apply quiet_grows, quiet_killed|]. exists ∅. split.
  - intros q Hq. cbn in Hq. unfold recorded. cbn. fold (recorded w). destruct (decide (q ∈ recorded w)); set_solver.
  - intros w1 Hr Hw1. split; [done|]. apply (stale_others _ _ Hr). intros st Hf.
    eapply ended_grows; [apply quiet_grows, quiet_killed|]. by apply Hs.
Qed.

(** A base that was spawned is recorded or killed. *)
Lemma boot_rest_ok pid plan w :
  world_ok w -> stale w -> up pid w ->
  ensure_ok (then_do (write_state (with_base_pid pid plan)) (fun written =>
    match written with
    | Err e => then_do (do_ (KillPid pid)) (fun _ => Ret (Err e))
    | Ok _ => Ret (Ok (with_base_pid pid plan))
    end)) {[pid]} w.
Proof.
  intros Hw Hs Hu x w' Hx. cbn in Hx. destruct x as [[]|e]; subst w'; cbn.
  - assert (Hrec : recorded (with_file (Some (with_base_pid pid plan)) w) = {[pid]}) by done.
    split; [split; [apply Hw|apply Hw|rewrite Hrec; destruct Hu; cbn; set_solver]|].
    split; [split; cbn; auto|]. exists ∅. split.
    + intros q Hq. cbn in Hq. rewrite Hrec. destruct (decide (q ∈ recorded w)) as [Hin|]; [|destruct (decide (q = pid)); set_solver].
      unfold recorded in Hin. destruct (sw_file w) as [st|] eqn:Hf; cbn in Hin; [|set_solver].
      apply elem_of_singleton in Hin as ->. by destruct (Hs st Hf).
    + intros w1 Hr Hw1. pose proof (up_others _ _ pid Hr Hu) as [? ?]. split; [done|].
      split_and!; [|done|done]. apply (holds_others _ _ _ Hr). by left.
  - split; [done|]. split; [reflexivity|]. exists {[pid]}. split; [apply covers_same|]. intros w1 Hr Hw1.
    apply killed_ok; [done|by eapply stale_others].
Qed.

Lemma boot_base_ok w : world_ok w -> stale w -> ensure_ok boot_base ∅ w.
Proof.
  intros Hw Hs. apply ok_same; [apply _|by intros ? ? ->|done|]. intros [plan|e] w1 _ R1 W1; cbn.
  2: { split; [done|]. by eapply stale_others. }
  assert (Hs1 : stale w1) by by eapply stale_others. clear w Hw Hs R1.
  intros x w' Hx. assert (Hc : calm w1 w' /\ world_ok w' /\ recorded w' = recorded w1 /\ sw_live w' = sw_live w1).
  { destruct x; cbn in Hx; subst w'; split_and!; try done; [apply calm_assigned|by apply world_ok_assigned]. }
  destruct Hc as (Hc & Hw' & Hrec & Hlive). split; [done|]. split; [by apply quiet_grows, calm_quiet|].
  exists ∅. split; [unfold covers; rewrite Hrec, Hlive; apply covers_same|]. intros w2 R2 W2.
  assert (Hs2 : stale w2).
  { apply (stale_others _ _ R2). intros st. destruct Hc as (-> & Hsp & Hl & _). intros Hf. destruct (Hs1 st Hf).
    split; [by rewrite Hsp|auto]. }
  apply ok_same; [apply _|by intros ? ? ->|done|]. intros x3 w3 _ R3 W3.
  assert (Hs3 : stale w3) by by eapply stale_others. clear -Hs3 W3. intros x w' Hx. destruct x as [pid|e]; cbn in Hx.
  2: { subst w'. split; [done|]. split; [reflexivity|]. exists ∅. split; [apply covers_same|]. intros w4 R4 W4.
       split; [done|]. by eapply stale_others. }
  destruct Hx as (Hpos & Hfresh & ->). pose proof W3 as [Wl Wp Wr].
  assert (W4 : world_ok (with_spawned pid w3)) by (split; unfold recorded in *; cbn in *; [set_solver| |set_solver];
    intros q [->%elem_of_singleton|]%elem_of_union; auto).
  split; [done|]. split; [split; cbn; [set_solver|]; intros q Hq [->%elem_of_singleton|]%elem_of_union; done|].
  exists {[pid]}. split.
  { intros q. unfold recorded. cbn. fold (recorded w3). destruct (decide (q ∈ recorded w3)); set_solver. }
  intros w5 R5 W5. assert (Hu : up pid w5) by (apply (up_others _ _ _ R5); split; cbn; set_solver).
  assert (Hs5 : stale w5).
  { apply (stale_others _ _ R5). intros st Hf. destruct (Hs3 st Hf) as [H1 H2]. split; cbn; [set_solver|].
    intros [Heq%elem_of_singleton|]%elem_of_union; [|done]. by rewrite Heq in H1. }
  apply ok_same; [apply _|by intros ? ? ->|done|]. intros [[]|e] w6 _ R6 W6.
  - apply boot_rest_ok; [done|by eapply stale_others|by eapply up_others].
  - apply killed_ok; [done|by eapply stale_others].
Qed.

(** The record of a base that ended is removed, or stays if it cannot be. *)
Lemma remove_state_ok st w :
  world_ok w -> holds alone w (Some st) -> ended w (ss_base_pid st) ->
  ensure_ok (then_do remove_state (fun _ => boot_base)) ∅ w.
Proof.
  intros Hw Hh He x w' Hx.
  assert (Hs : stale w) by (intros st' Hf; destruct Hh as [Hh|[_ Hh]]; rewrite Hh in Hf; by simplify_eq).
  assert (Hc : w' = with_file None w \/ w' = w) by (destruct x as [[]|[]]; cbn in Hx; tauto).
  destruct Hc as [->| ->].
  - split; [by apply world_ok_file_none|]. split; [apply quiet_grows, quiet_file_none|]. exists ∅. split.
    + intros q Hq. cbn in Hq. destruct (decide (q ∈ recorded w)) as [Hin|]; [|set_solver].
      unfold recorded in Hin. destruct (sw_file w) as [st'|] eqn:Hf; cbn in Hin; [|set_solver].
      apply elem_of_singleton in Hin as ->. by destruct (Hs st' Hf).
    + intros w1 Hr Hw1. apply boot_base_ok; [done|]. by apply (stale_others _ _ Hr).
  - split; [done|]. split; [reflexivity|]. exists ∅. split; [apply covers_same|].
    intros w1 Hr Hw1. apply boot_base_ok; [done|]. by apply (stale_others _ _ Hr).
Qed.

Lemma kill_stack_ok st w :
  world_ok w -> holds alone w (Some st) -> ss_base_pid st ∈ sw_spawned w ->
  ensure_ok (then_do (kill_stack st) (fun _ => boot_base)) ∅ w.
Proof.
  intros Hw Hh Hsp. unfold kill_stack. rewrite (proj2 (Z.eqb_neq (ss_base_pid st) 0))
    by (pose proof (wo_positive _ Hw _ Hsp); lia).
  apply ok_same; [apply _|by intros ? ? [-> _]|done|]. intros m w1 [_ Hm] R1 W1. specialize (Hm Hsp).
  apply (holds_others _ _ _ R1) in Hh. pose proof (others_grows _ _ R1) as G1.
  subst m. case_bool_decide as Hl; cbn -[remove_state boot_base].
  - intros x w2 Hx. cbn in Hx. subst w2. split; [by apply world_ok_killed|]. split; [apply quiet_grows, quiet_killed|].
    exists ∅. split; [unfold covers, recorded; cbn; intros q; destruct (decide (q ∈ recorded w1)); set_solver|].
    intros w3 R3 W3. eapply remove_state_ok; [done|by apply (holds_others _ _ _ R3)|].
    apply (ended_grows _ _ _ (others_grows _ _ R3)), ended_killed. by apply G1.
  - eapply remove_state_ok; [done|done|]. apply (ended_grows _ _ _ G1). by split.
Qed.

Lemma ensure_base_ok w : world_ok w -> stays_ok (others alone) grows (ensure_post alone) ensure_base ∅ w.
Proof.
  intros _ w0 _ W0. apply ok_same; [apply _|by intros ? ? [_ ->]|done|]. intros file w1 [-> _] R1 W1.
  pose proof (holds_others _ _ (sw_file w0) R1 (or_introl eq_refl)) as Hh. pose proof (others_grows _ _ R1) as G1.
  destruct (sw_file w0) as [st|] eqn:Hf; cbn -[boot_base].
  2: { apply boot_base_ok; [done|]. intros st Hst. destruct Hh as [Hh|[_ Hh]]; congruence. }
  assert (Hsp : ss_base_pid st ∈ sw_spawned w1).
  { apply G1, (wo_recorded _ W0). unfold recorded. rewrite Hf. set_solver. }
  apply ok_same; [apply _|by intros ? ? [-> _]|done|]. intros m w2 [_ Hm] R2 W2. specialize (Hm Hsp).
  apply (holds_others _ _ _ R2) in Hh. assert (Hsp2 : ss_base_pid st ∈ sw_spawned w2) by by apply (others_grows _ _ R2).
  destruct (m && _)%bool eqn:Hg; cbn -[boot_base kill_stack]; [|by apply kill_stack_ok].
  apply andb_prop in Hg as [-> _]. symmetry in Hm. apply bool_decide_eq_true in Hm.
  assert (Hu : up (ss_base_pid st) w2) by (apply (up_others _ _ _ R2); split; [done|set_solver]).
  apply ok_same; [apply _|by intros ? ? ->|done|]. intros h w3 _ R3 W3. apply (holds_others _ _ _ R3) in Hh.
  apply (up_others _ _ _ R3) in Hu. destruct Hu as [Hs3 Hu3]. destruct h; [|by apply kill_stack_ok].
  split; [done|]. by split_and!.
Qed.
End ensure.

(** ** The processes together *)

(** Each process answers for some of the bases, and all that run are answered for. *)
Record sys_ok (s : StackSys) (own : gset Z) (owns : list (gset Z)) : Prop := {
  so_world : world_ok (sy_world s);
  so_ensure : match sy_ensure s with
              | None => own = ∅
              | Some p => stays_ok quiet grows (ensure_post false) p own (sy_world s)
              end;
  so_downs : Forall2 (fun p o => stays_ok grows quiet down_post p o (sy_world s)) (sy_downs s) owns;
  so_covered : forall pid, pid ∈ sw_live (sy_world s) ->
    pid ∈ recorded (sy_world s) \/ pid ∈ own \/ exists o, o ∈ owns /\ pid ∈ o;
}.

Lemma downs_rely w w' downs owns :
  grows w w' -> Forall2 (fun p o => stays_ok grows quiet down_post p o w) downs owns ->
  Forall2 (fun p o => stays_ok grows quiet down_post p o w') downs owns.
Proof. intros Hg H. eapply Forall2_impl; [exact H|]. intros p o Hok. by eapply stays_ok_rely; [apply _|exact Hg|exact Hok]. Qed.

(** A step outside both programs. *)
Lemma sys_ok_calm w w' e downs own owns :
  world_ok w' -> calm w w' -> sys_ok (mkSys w e downs) own owns -> sys_ok (mkSys w' e downs) own owns.
Proof.
  intros Hw' Hc [_ He Hd Hcov]. cbn in *. pose proof (calm_quiet _ _ Hc) as Hq. split; cbn; [done| | |].
  - destruct e; [|done]. by eapply stays_ok_rely; [apply _|..].
  - by eapply downs_rely; [apply quiet_grows|].
  - destruct Hc as (Hf & _ & Hl & _). intros pid Hp. unfold recorded in *. rewrite Hf. by apply Hcov, Hl.
Qed.

Lemma ensure_step_ok w p w' p' downs own owns :
  prog_step w p w' p' -> sys_ok (mkSys w (Some p) downs) own owns -> exists own', sys_ok (mkSys w' (Some p') downs) own' owns.
Proof.
  intros Hs [Hw He Hd Hcov]. cbn in *.
  destruct (prog_step_ok quiet grows _ _ _ _ _ _ Hw He Hs) as (Hw' & Hg & own' & Hc & Hok).
  exists own'. split; cbn; [done|done|by eapply downs_rely|]. intros pid Hp%Hc.
  rewrite !elem_of_union, !elem_of_difference in Hp. destruct Hp as [[?|?]|[[Hl Hr] Ho]]; [auto|auto|].
  destruct (Hcov pid Hl) as [?|[?|?]]; [done|done|auto].
Qed.

Lemma down_step_ok w e downs i p w' p' own owns :
  downs !! i = Some p -> prog_step w p w' p' -> sys_ok (mkSys w e downs) own owns ->
  exists owns', sys_ok (mkSys w' e (<[i := p']> downs)) own owns'.
Proof.
  intros Hi Hs [Hw He Hd Hcov]. cbn in *. destruct (Forall2_lookup_l _ _ _ _ _ Hd Hi) as (o & Ho & Hp).
  destruct (prog_step_ok grows quiet _ _ _ _ _ _ Hw Hp Hs) as (Hw' & Hg & o' & Hc & Hok).
  exists (<[i := o']> owns). split; cbn; [done| | |].
  - destruct e; [|done]. by eapply stays_ok_rely; [apply _|..].
  - apply Forall2_insert; [|done]. by eapply downs_rely; [apply quiet_grows|].
  - pose proof (lookup_lt_Some _ _ _ Ho) as Hlen.
    assert (Ho' : o' ∈ <[i := o']> owns) by (eapply list_elem_of_lookup_2; by apply list_lookup_insert_eq).
    intros pid Hq%Hc. rewrite !elem_of_union, !elem_of_difference in Hq. destruct Hq as [[?|?]|[[Hl Hr] Hno]]; [auto|eauto|].
    destruct (Hcov pid Hl) as [?|[?|(q & Hq & Hin)]]; [done|auto|]. right. right.
    apply list_elem_of_lookup_1 in Hq as [j Hj]. exists q. split; [|done].
    eapply (list_elem_of_lookup_2 _ j). rewrite list_lookup_insert_ne; [done|]. intros <-. congruence.
Qed.

Lemma stack_step_ok s s' own owns :
  stack_step s s' -> sys_ok s own owns -> exists own' owns', sys_ok s' own' owns'.
Proof.
  intros Hstep Hok. destruct Hstep as [w downs|w p downs w' p' Hs|w r downs|w e downs|w e downs i p w' p' Hi Hs|w e downs i r Hi|w e downs a|w e downs pid Hp].
  - destruct Hok as [Hw He Hd Hcov]. cbn in *. subst own. exists ∅, owns. split; cbn; [done| |done|done].
    by apply (ensure_base_ok false).
  - destruct (ensure_step_ok _ _ _ _ _ _ _ Hs Hok) as [own' ?]. eauto.
  - destruct Hok as [Hw He Hd Hcov]. cbn in *. destruct (He w (reflexivity w) Hw) as [-> _].
    exists ∅, owns. by split.
  - destruct Hok as [Hw He Hd Hcov]. cbn in *. exists own, (owns ++ [∅]). split; cbn; [done|done| |].
    + apply Forall2_app; [done|]. constructor; [by apply stack_down_ok|done].
    + intros pid Hp. destruct (Hcov pid Hp) as [?|[?|(o & ? & ?)]]; [auto|auto|]. right. right. exists o.
      rewrite elem_of_app. auto.
  - destruct (down_step_ok _ _ _ _ _ _ _ _ _ Hi Hs Hok) as [owns' ?]. eauto.
  - destruct Hok as [Hw He Hd Hcov]. cbn in *. destruct (Forall2_lookup_l _ _ _ _ _ Hd Hi) as (o & Ho & Hp).
    pose proof (Hp w (reflexivity w) Hw) as Hempty. exists own, (delete i owns). split; cbn; [done|done|by apply Forall2_delete|].
    intros pid Hq. destruct (Hcov pid Hq) as [?|[?|(q & Hin & ?)]]; [auto|auto|]. right. right. exists q. split; [|done].
    rewrite (delete_Permutation _ _ _ Ho) in Hin. apply elem_of_cons in Hin as [->|?]; [|done]. cbn in Hempty. set_solver.
  - exists own, owns. eapply sys_ok_calm; [apply world_ok_assigned, Hok|apply calm_assigned|done].
  - exists own, owns. eapply sys_ok_calm; [apply world_ok_exited, Hok|apply calm_exited|done].
Qed.

Definition new_stack (a : gmap string nat) : StackSys := mkSys (mkStackWorld None a ∅ ∅ ∅) None [].

Lemma stack_reachable_ok a s : rtc stack_step (new_stack a) s -> exists own owns, sys_ok s own owns.
Proof.
  intros Hr. assert (H0 : exists own owns, sys_ok (new_stack a) own owns).
  { exists ∅, []. split; [split; cbn; set_solver|done|constructor|cbn; set_solver]. }
  induction Hr as [s|s s1 s2 Hs _ IH]; [done|]. apply IH. destruct H0 as (own & owns & H0). by eapply stack_step_ok.
Qed.

Lemma calm_run_ok w p w' p' :
  rtc calm_step (w, p) (w', p') -> world_ok w -> (exists own, stays_ok calm grows (ensure_post true) p own w) ->
  world_ok w' /\ exists own, stays_ok calm grows (ensure_post true) p' own w'.
Proof.
  intros Hr. remember (w, p) as x eqn:Hx. remember (w', p') as y eqn:Hy. revert w p Hx.
  induction Hr as [x|x z y Hs _ IH]; intros w p ->; [by simplify_eq|]. intros Hw [own Hok].
  inversion Hs as [? ? w1 p1 Hstep|? ? a|? ? pid Hp]; subst; eapply IH; try done.
  - by destruct (prog_step_ok calm grows _ _ _ _ _ _ Hw Hok Hstep) as (? & _).
  - destruct (prog_step_ok calm grows _ _ _ _ _ _ Hw Hok Hstep) as (_ & _ & own' & _ & ?). eauto.
  - by apply world_ok_assigned.
  - exists own. by eapply stays_ok_rely; [apply _|apply calm_assigned|].
  - by apply world_ok_exited.
  - exists own. by eapply stays_ok_rely; [apply _|apply calm_exited|].
Qed.

(** Running [ensure_base] alone is a run of the stack. *)
Lemma calm_run_steps w p w' p' downs :
  rtc calm_step (w, p) (w', p') -> rtc stack_step (mkSys w (Some p) downs) (mkSys w' (Some p') downs).
Proof.
  intros Hr. change (mkSys w (Some p) downs) with (let '(w, p) := (w, p) in mkSys w (Some p) downs).
  change (mkSys w' (Some p') downs) with (let '(w, p) := (w', p') in mkSys w (Some p) downs).
  induction Hr as [x|x y z Hs _ IH]; [done|]. eapply rtc_l; [|exact IH]. destruct Hs; by constructor.
Qed.

(** What is left when nobody is tearing down. *)
Lemma no_down_left a s :
  rtc stack_step (new_stack a) s -> sy_downs s = [] ->
  match sy_ensure s with
  | None => forall pid, pid ∈ sw_live (sy_world s) -> (ss_base_pid <$> sw_file (sy_world s)) = Some pid
  | Some (Ret (Ok st)) => forall pid, pid ∈ sw_live (sy_world s) -> sw_file (sy_world s) = Some st /\ pid = ss_base_pid st
  | Some (Ret (Err _)) => sw_live (sy_world s) = ∅
  | Some (Call _ _) => True
  end.
Proof.
  intros Hr Hd. destruct (stack_reachable_ok a s Hr) as (own & owns & [Hw He Hds Hcov]).
  rewrite Hd in Hds. apply Forall2_nil_inv_l in Hds as ->.
  assert (Hrec : forall pid, pid ∈ sw_live (sy_world s) -> own = ∅ -> exists st, sw_file (sy_world s) = Some st /\ ss_base_pid st = pid).
  { intros pid Hp ->. destruct (Hcov pid Hp) as [Hin|[?|(o & Ho & _)]]; [|set_solver|by apply not_elem_of_nil in Ho].
    unfold recorded in Hin. destruct (sw_file _) as [st|]; cbn in Hin; [exists st|]; set_solver. }
  destruct (sy_ensure s) as [[[st|e]|]|]; [| |done|].
  - destruct (He _ (reflexivity _) Hw) as (Hown & Hh & _). intros pid Hp.
    destruct (Hrec pid Hp Hown) as (st' & Hf & <-). destruct Hh as [Hh|[_ Hh]]; rewrite Hh in Hf; by simplify_eq.
  - destruct (He _ (reflexivity _) Hw) as (Hown & Hst). apply set_eq. intros pid. split; [|set_solver]. intros Hp.
    destruct (Hrec pid Hp Hown) as (st & Hf & <-). by destruct (Hst st Hf).
  - intros pid Hp. destruct (Hrec pid Hp He) as (st & -> & <-). done.
Qed.

(** C26: However redsuite processes ensure the base under the lock while others tear the stack
    down without it, call by call and with any removal, boot or write failing, at most one base is
    left running once no teardown is under way, and it is the recorded one; then a failed
    [ensure_base] leaves none.  With no teardown meanwhile [ensure_base] returns the state that is
    recorded, of a base that it did not kill. *)
Theorem one_base_is_left_running a s :
  rtc stack_step (new_stack a) s ->
  (sy_downs s = [] ->
     match sy_ensure s with
     | None => forall pid, pid ∈ sw_live (sy_world s) -> (ss_base_pid <$> sw_file (sy_world s)) = Some pid
     | Some (Ret (Ok st)) => forall pid, pid ∈ sw_live (sy_world s) -> sw_file (sy_world s) = Some st /\ pid = ss_base_pid st
     | Some (Ret (Err _)) => sw_live (sy_world s) = ∅
     | Some (Call _ _) => True
     end) /\
  (forall w' r, sy_ensure s = None -> rtc calm_step (sy_world s, ensure_base) (w', Ret r) ->
     match r with
     | Ok st => sw_file w' = Some st /\ ss_base_pid st ∈ sw_live w' ∪ sw_exited w' /\
         (sy_downs s = [] -> forall pid, pid ∈ sw_live w' -> pid = ss_base_pid st)
     | Err _ => sy_downs s = [] -> sw_live w' = ∅
     end).
Proof.
  intros Hr. split; [by apply (no_down_left a)|]. intros w' r He Hcalm.
  destruct (stack_reachable_ok a s Hr) as (own & owns & Hok). pose proof (so_world _ _ _ Hok) as Hw.
  destruct (calm_run_ok _ _ _ _ Hcalm Hw) as [Hw' [own' Hpost]]; [exists ∅; by apply (ensure_base_ok true)|].
  destruct (Hpost w' (reflexivity w') Hw') as [_ Hres].
  assert (Hrun : rtc stack_step (new_stack a) (mkSys w' (Some (Ret r)) (sy_downs s))).
  { etransitivity; [exact Hr|]. destruct s as [w e downs]. cbn in *. subst e.
    eapply rtc_l; [apply step_lock|]. by apply calm_run_steps. }
  pose proof (no_down_left a _ Hrun) as Hleft. cbn in Hleft. destruct r as [st|e]; [|exact Hleft].
  destruct Hres as (Hh & _ & Hup). split_and!; [by destruct Hh as [?|[? _]]|by apply Hup|].
  intros Hd pid Hp. by apply Hleft.
Qed.

(** One call of [ensure_base], given its answer. *)
#[local] Ltac calm_call answer :=
  eapply rtc_l; [apply calm_ensure; exists answer; split; [cbn; repeat split; reflexivity|reflexivity]|]; cbn.

Definition booted_world : StackWorld := mkStackWorld (Some sample_stack) ∅ {[77]} {[77]} ∅.

(** A first boot. *)
Lemma sample_boot :
  rtc calm_step (mkStackWorld None ∅ ∅ ∅ ∅, ensure_base) (booted_world, Ret (Ok sample_stack)).
Proof.
  calm_call (@None StackState). calm_call (@Ok _ StackError sample_stack).
  calm_call (@Err unit RemoveError RemoveNotFound). calm_call (@Err unit RemoveError RemoveNotFound).
  eapply rtc_l.
  { apply calm_ensure. exists (Ok 77). split; [split_and!; [reflexivity|apply not_elem_of_empty|reflexivity]|reflexivity]. }
  calm_call (@Ok unit StackError tt). calm_call (@Ok unit StackError tt). apply rtc_refl.
Qed.

(** A base found unhealthy is killed before another one is started. *)
Lemma sample_reboot :
  exists w, rtc calm_step (booted_world, ensure_base) (w, Ret (Ok (with_base_pid 78 sample_stack))).
Proof.
  eexists. calm_call (Some sample_stack).
  eapply rtc_l; [apply calm_ensure; exists true; split; [split; [reflexivity|by intros _]|reflexivity]|]. cbn.
  calm_call false.
  eapply rtc_l; [apply calm_ensure; exists true; split; [split; [reflexivity|by intros _]|reflexivity]|]. cbn.
  calm_call tt. calm_call (@Ok unit RemoveError tt). calm_call (@Ok _ StackError sample_stack).
  calm_call (@Ok unit RemoveError tt). calm_call (@Ok unit RemoveError tt).
  eapply rtc_l.
  { apply calm_ensure. exists (Ok 78). split; [split_and!; [reflexivity| |reflexivity]|reflexivity]. cbn. set_solver. }
  calm_call (@Ok unit StackError tt). calm_call (@Ok unit StackError tt). apply rtc_refl.
Qed.

Lemma one_base_is_left_running_witness :
  exists w, rtc calm_step (booted_world, ensure_base) (w, Ret (Ok (with_base_pid 78 sample_stack))) /\
    sw_file w = Some (with_base_pid 78 sample_stack) /\ forall pid, pid ∈ sw_live w -> pid = 78.
Proof.
  destruct sample_reboot as [w Hw]. exists w. split; [exact Hw|].
  assert (Hr : rtc stack_step (new_stack ∅) (mkSys booted_world None [])).
  { eapply rtc_l; [apply step_lock|]. eapply rtc_r; [apply calm_run_steps, sample_boot|apply step_unlock]. }
  destruct (proj2 (one_base_is_left_running ∅ _ Hr) w _ eq_refl Hw) as (Hf & _ & Hl).
  split; [exact Hf|exact (Hl eq_refl)].
Defined.

#[local] Ltac down_call answer :=
  eapply rtc_l; [eapply (step_down _ _ _ 0); [reflexivity|]; exists answer; split; [cbn|reflexivity]|]; cbn.
#[local] Ltac ensure_call answer :=
  eapply rtc_l; [apply step_ensure; exists answer; split; [cbn|reflexivity]|]; cbn.

(** The calls of a teardown and of an [ensure_base] may meet: here the teardown kills the old base,
    and after the new one is recorded it removes that record and sweeps the new base away, so
    [ensure_base] has returned the state of a base that is gone. *)
Example teardown_takes_a_new_base :
  exists s, rtc stack_step (mkSys booted_world None []) s /\
    sy_ensure s = Some (Ret (Ok (with_base_pid 78 sample_stack))) /\ sy_downs s = [Ret (Ok [])] /\
    sw_file (sy_world s) = None /\ sw_live (sy_world s) = ∅.
Proof.
  eexists. split.
  - eapply rtc_l; [apply step_down_start|]. cbn [app].
    down_call (Some sample_stack); [done|]. down_call true; [done|]. down_call tt; [done|].
    eapply rtc_l; [apply step_lock|].
    ensure_call (Some sample_stack); [done|]. ensure_call false; [done|]. ensure_call false; [done|].
    ensure_call (@Ok unit RemoveError tt); [done|]. ensure_call (@Ok _ StackError sample_stack); [done|].
    ensure_call (@Ok unit RemoveError tt); [done|]. ensure_call (@Ok unit RemoveError tt); [done|].
    ensure_call (@Ok Z StackError 78); [split_and!; [done|cbn; set_solver|done]|].
    ensure_call (@Ok unit StackError tt); [done|]. ensure_call (@Ok unit StackError tt); [done|].
    down_call (@Ok unit RemoveError tt); [done|]. down_call [(78, "base")]; [split; [done|cbn; set_solver]|].
    down_call tt; [done|]. down_call (@nil DirEntry, @None (list DirEntry)); [done|]. apply rtc_refl.
  - by split_and!.
Qed.

(** * Owned processes *)

(** What may happen to an owned process before it is dropped. *)
Inductive OwnedOp := OpTerminate (outcome : Result (ExitStatus * bool) ProcError) | OpRelaunch (pid : Z).

Definition owned_op (op : OwnedOp) (o : Owned) : Owned :=
  match op with
  | OpTerminate outcome => (owned_terminate outcome o).2
  | OpRelaunch pid => owned_relaunch pid o
  end.

Lemma owned_ops_ok ops o :
  let ok o := rs_finished (ow_record o) = negb (ow_child o) /\ lr_pid (rs_launch (ow_record o)) = ow_pid o in
  ok o -> ok (foldl (fun o op => owned_op op o) o ops).
Proof.
  intros ok. revert o. induction ops as [|op ops IH]; intros o Ho; cbn; [done|]. apply IH. destruct Ho as [Hf Hp].
  destruct op as [[]|pid]; cbn; unfold owned_terminate; try (destruct (ow_child o) eqn:Hc); cbn; try done; split; cbn; congruence.
Qed.

(** Through terminations and relaunches, failed ones included, the record of an owned process
    is unfinished exactly while it has a child, with the child's pid; so dropping it kills its
    child and finishes the record, and reclaiming the resources after that kills nothing of it. *)
Theorem owned_process_is_reclaimed_once pid launch now ops try_wait waited running :
  lr_pid launch = pid ->
  let o := foldl (fun o op => owned_op op o) (Owned_new pid (register_launch now launch)) ops in
  (rs_finished (ow_record o) = negb (ow_child o) /\ lr_pid (rs_launch (ow_record o)) = ow_pid o) /\
  (let '(killed, record) := owned_drop try_wait waited o in
   (ow_child o = true -> try_wait = None -> killed = Some (ow_pid o)) /\
   rs_finished record = true /\ (reclaim running [record]).1.1 = []) /\
  (reclaim running [ow_record o]).1.1 = (if (ow_child o && running (ow_pid o))%bool then [ow_pid o] else []).
Proof.
  intros Hpid o. destruct (owned_ops_ok ops (Owned_new pid (register_launch now launch))) as [Hf Hp]; [done|].
  fold o in Hf, Hp. split; [done|]. split.
  - unfold owned_drop. destruct (ow_child o) eqn:Hc; [destruct try_wait as [status|]|]; cbn; split_and!; try done.
    unfold reclaim. cbn. by rewrite Hf.
  - unfold reclaim. cbn [fst]. rewrite filter_cons, Hf, Hp, negb_involutive.
    destruct (ow_child o && _)%bool; cbn; [by rewrite <- Hp|done].
Qed.

Definition sample_launch (pid : Z) : LaunchRecord :=
  mkLaunch "er" "er" "magicblock-validator" "1" "f" "id" "now" None None 0 None None "er-1" None "log" None pid 0 None.

Lemma owned_process_is_reclaimed_once_witness :
  let o := foldl (fun o op => owned_op op o) (Owned_new 7 (register_launch 0 (sample_launch 7)))
             [OpTerminate (Ok (ExitCode 0, false)); OpRelaunch 9; OpTerminate (Err PeDidNotExit)] in
  ow_child o = true /\ (reclaim (fun _ => true) [ow_record o]).1.1 = [9].
Proof.
  split; [reflexivity|].
  exact (proj2 (proj2 (owned_process_is_reclaimed_once 7 (sample_launch 7) 0
    [OpTerminate (Ok (ExitCode 0, false)); OpRelaunch 9; OpTerminate (Err PeDidNotExit)] None None (fun _ => true) eq_refl))).
Defined.

(** * Clearing storage *)

(** A sweep removes what the topology made, the base's storage and what is named for a rollup,
    and nothing else; it reports exactly what it removed, and stops at the first removal that fails. *)
Theorem sweep_removes_topology_storage_only entries :
  match sweep_dir entries with
  | Ok removed =>
      removed = de_name <$> filter (fun e => swept e = true) entries /\
      Forall (fun e => swept e = true -> de_remove e = Ok tt) entries /\
      Forall (fun name => name ∈ STACK_STORAGE \/ is_Some (strip_prefix "er-" name)) removed
  | Err e => exists d, d ∈ entries /\ swept d = true /\ de_remove d = Err e
  end.
Proof.
  induction entries as [|d entries IH]; [done|]. cbn [sweep_dir]. rewrite filter_cons. destruct (swept d) eqn:Hs.
  - rewrite decide_True by done. destruct (de_remove d) as [[]|e] eqn:Hr; cbn.
    2: { exists d. split_and!; [by left|done|done]. }
    destruct (sweep_dir entries) as [rest|e]; cbn.
    + destruct IH as (-> & H2 & H3). split_and!; [done|by constructor|]. constructor; [|done].
      unfold swept in Hs. destruct (de_is_dir d).
      * apply orb_true_iff in Hs as [Hs|Hs]; [left|right].
        -- apply existsb_exists in Hs as (x & Hx & ->%String.eqb_eq). by apply list_elem_of_In.
        -- unfold starts_with in Hs. by case_bool_decide.
      * apply andb_prop in Hs as [Hs _]. right. unfold starts_with in Hs. by case_bool_decide.
    + destruct IH as (x & ? & ? & ?). exists x. split_and!; [by right|done|done].
  - rewrite decide_False by done. destruct (sweep_dir entries) as [rest|e].
    + destruct IH as (-> & H2 & H3). split_and!; [done|by constructor; rewrite ?Hs|done].
    + destruct IH as (x & ? & ? & ?). exists x. split_and!; [by right|done|done].
Qed.

(** * Host readings *)
#[local] Arguments String.append !_ _ : simpl nomatch.

(** * /proc/PID/stat *)

Fixpoint fields_text (fields : list string) : string :=
  match fields with
  | [] => String newline EmptyString
  | f :: fields => String " " (f +:+ fields_text fields)
  end.

(** The line as the kernel prints it: the name is not escaped. *)
Definition stat_line (pid : Z) (comm : string) (fields : list string) : string :=
  show_u64 pid +:+ " (" +:+ comm +:+ String ")" (fields_text fields).

Definition no_paren (s : string) : Prop := all_chars (fun c => negb (Ascii.eqb ")" c)) s = true.
Definition stat_field (s : string) : Prop := word s /\ no_paren s.

Lemma fields_no_paren fields : Forall stat_field fields -> no_paren (fields_text fields).
Proof.
  induction 1 as [|f fields [_ Hf] _ IH]; [done|]. unfold no_paren in *. cbn [fields_text all_chars].
  by rewrite all_chars_app, Hf, IH.
Qed.

Lemma after_comm_line pid comm fields :
  Forall stat_field fields -> after_comm (stat_line pid comm fields) = Some (fields_text fields).
Proof.
  intros Hf. unfold after_comm, stat_line.
  rewrite <- (append_assoc " (" comm), <- (append_assoc (show_u64 pid)).
  rewrite cut_after_last_app; [done|by apply fields_no_paren].
Qed.

Lemma words_loop_app w s t :
  all_chars (fun c => negb (is_whitespace c)) s = true -> words_loop w (s +:+ t) = words_loop (w +:+ s) t.
Proof.
  revert w. induction s as [|c s IH]; intros w; cbn [all_chars append].
  - intros _. cbn. by rewrite append_nil_r.
  - intros [Hc Hs]%andb_true_iff. apply negb_true_iff in Hc. cbn [words_loop append].
    change (String c s +:+ t) with (String c (s +:+ t)). cbn [words_loop]. rewrite Hc, IH by done.
    by rewrite append_assoc.
Qed.

Lemma words_fields w fields :
  Forall stat_field fields -> words_loop w (fields_text fields) = (if is_empty w then [] else [w]) ++ fields.
Proof.
  intros Hf. revert w. induction Hf as [|f fields [[Hw Hne] _] _ IH]; intros w; cbn [fields_text words_loop].
  - change (is_whitespace newline) with true. cbn. by destruct w.
  - change (is_whitespace " ") with true. cbn [andb].
    assert (Hrest : words_loop EmptyString (f +:+ fields_text fields) = f :: fields).
    { rewrite words_loop_app, IH by done. change (EmptyString +:+ f) with f. by destruct f. }
    rewrite !Hrest. by destruct w.
Qed.

(** Whatever a process is called, parentheses and blanks included, it is running unless its
    state field is [Z], and its CPU time is the sum of the fields the kernel puts it in. *)
Theorem stat_is_read_past_the_name pid comm state rest fields utime stime :
  Forall stat_field (String state rest :: fields) ->
  fields !! 10%nat = Some (show_u64 utime) -> fields !! 11%nat = Some (show_u64 stime) ->
  0 <= utime < u64_bound -> 0 <= stime < u64_bound ->
  let stat := stat_line pid comm (String state rest :: fields) in
  proc_running (Some stat) = negb (Ascii.eqb state "Z") /\
  stat_cpu_secs stat = Ok (sum ← checked_add64 utime stime; Some (f64_div (f64_of sum) CLOCK_TICKS_PER_SEC)).
Proof.
  intros Hf Hu Hs Hub Hsb stat. pose proof (after_comm_line pid comm _ Hf) as Ha. fold stat in Ha. split.
  - unfold proc_running. rewrite Ha. cbn [fields_text trim_start_matches]. change (is_whitespace " ") with true. cbn iota.
    change (String state rest +:+ fields_text fields) with (String state (rest +:+ fields_text fields)).
    cbn [trim_start_matches]. apply Forall_cons in Hf as [[[Hw _] _] _]. cbn in Hw.
    apply andb_true_iff in Hw as [Hw%negb_true_iff _]. by rewrite Hw.
  - unfold stat_cpu_secs. rewrite Ha. unfold split_whitespace. cbn -[fields_text words_loop].
    rewrite words_fields by done. cbn [is_empty app].
    change (fields !! 10%nat) with ((String state rest :: fields) !! 11%nat) in Hu.
    change (fields !! 11%nat) with ((String state rest :: fields) !! 12%nat) in Hs.
    rewrite Hu. cbn -[parse_u64 show_u64 lookup]. rewrite parse_show_u64 by done. cbn -[parse_u64 show_u64 lookup].
    rewrite Hs. cbn -[parse_u64 show_u64]. by rewrite parse_show_u64.
Qed.

Lemma stat_is_read_past_the_name_witness :
  let fields := repeat "0" 10 ++ [show_u64 250; show_u64 50] ++ repeat "7" 4 in
  proc_running (Some (stat_line 4242 "evil) Z 1 (x" ("S" :: fields))) = true.
Proof.
  apply (stat_is_read_past_the_name 4242 "evil) Z 1 (x" "S" EmptyString
    (repeat "0" 10 ++ [show_u64 250; show_u64 50] ++ repeat "7" 4) 250 50).
  - repeat (constructor; [split; [split; [vm_compute; reflexivity|vm_compute; discriminate]|vm_compute; reflexivity]|]).
    constructor.
  - vm_compute. reflexivity.
  - vm_compute. reflexivity.
  - vm_compute. split; [discriminate|reflexivity].
  - vm_compute. split; [discriminate|reflexivity].
Defined.

(** * Directory sizes *)

(** The files of a tree, and whether every part of it that is there can be read. *)
Fixpoint tree_sizes (t : FsTree) : list Z :=
  match t with
  | FileOf size => [size]
  | DirOf entries => flat_map tree_sizes entries
  | _ => []
  end.
Fixpoint readable (t : FsTree) : bool :=
  match t with
  | Unreadable _ => false
  | DirOf entries => forallb readable entries
  | _ => true
  end.

(** Induction over the entries of a directory. *)
Lemma FsTree_nested_ind (P : FsTree -> Prop) :
  P Vanished -> (forall e, P (Unreadable e)) -> (forall n, P (FileOf n)) ->
  (forall entries, Forall P entries -> P (DirOf entries)) -> forall t, P t.
Proof.
  intros HV HU HF HD. fix rec 1. intros [|e|n|entries]; [exact HV|apply HU|apply HF|].
  apply HD. induction entries as [|t entries IH]; constructor; [apply rec|exact IH].
Qed.

(** The size of a directory is the sum of its files, those that vanish while it is read left
    out; it fails exactly when something that is there cannot be read. *)
Theorem directory_size_is_the_sum t :
  match walk_size t with
  | Ok total => readable t = true /\ total = sum_Z (tree_sizes t)
  | Err _ => readable t = false
  end.
Proof.
  induction t as [|e|n|entries IH] using FsTree_nested_ind; cbn; [done|done|split; [done|lia]|].
  assert (H : forall acc,
    match (fix walk (l : list FsTree) (total : Z) : Result Z string :=
             match l with [] => Ok total | t :: l => let? n := walk_size t in walk l (total + n) end) entries acc with
    | Ok total => forallb readable entries = true /\ total = acc + sum_Z (flat_map tree_sizes entries)
    | Err _ => forallb readable entries = false
    end).
  { induction IH as [|t entries Ht _ IH]; intros acc; cbn; [split; [done|lia]|].
    destruct (walk_size t) as [n|e]; cbn; [|by rewrite Ht]. destruct Ht as [-> ->]. specialize (IH (acc + sum_Z (tree_sizes t))).
    rewrite sum_Z_app, Z.add_assoc. cbn. exact IH. }
  apply (H 0).
Qed.

(** * CPU shares *)

#[local] Instance ranks_total : Total ranks.
Proof. intros x y. unfold ranks. lia. Qed.
#[local] Instance ranks_transitive : Transitive ranks.
Proof. intros x y z. unfold ranks. lia. Qed.

(** The per-thread shares are those of the threads of the later sample, largest first. *)
Theorem thread_cores_are_ranked s earlier :
  thread_cores_since s earlier ≡ₚ ((fun '(tid, secs) => thread_core s earlier tid secs) <$> map_to_list (cpu_threads s)) /\
  StronglySorted ranks (thread_cores_since s earlier).
Proof.
  unfold thread_cores_since. split; [apply merge_sort_Permutation|]. apply StronglySorted_merge_sort; apply _.
Qed.
