(* ===== verification/Prep.v ===== *)
(** Preparing a scenario: random streams of [core/src/random.rs], the instructions of
    [system.rs], bounded preparation and payers of [prep.rs], the accounts of [redline/mod.rs],
    the cells of [cells.rs] and the signed transactions of [signed.rs].

    A chain is a log of submitted transactions and what it answers to each; the instructions
    are those of the builders of [Build.v]. *)
From Stdlib Require Import Ascii String.
From S2P Require Import Prelude World Cell Instr Build Text.

#[local] Open Scope string_scope.
#[local] Open Scope Z_scope.
#[local] Open Scope list_scope.

(** * Random streams *)

Definition string_bytes (s : string) : list Z := (fun c => Z.of_nat (nat_of_ascii c)) <$> String.list_ascii_of_string s.

Definition RANDOM_DOMAIN : string := "redsuite.random.v1".

(** What [rng] hashes into the seed of a stream. *)
Definition rng_preimage (seed : Z) (keys : list string) (index : Z) : list Z :=
  string_bytes RANDOM_DOMAIN ++ le_bytes 8 seed
  ++ concat ((fun key => le_bytes 8 (Z.of_nat (String.length key)) ++ string_bytes key) <$> keys)
  ++ le_bytes 8 index.

(** * Instructions of the system program *)

Section system.
Context `{R : Runtime}.

Definition system_create_account (from to_ : Pubkey) (lamports space : Z) (owner : list Z) : SolInstruction :=
  mkIx system_program_id [meta_new from true; meta_new to_ true]
    (le_bytes 4 0 ++ le_bytes 8 lamports ++ le_bytes 8 space ++ owner).
Definition system_transfer (from to_ : Pubkey) (lamports : Z) : SolInstruction :=
  mkIx system_program_id [meta_new from true; meta_new to_ false] (le_bytes 4 2 ++ le_bytes 8 lamports).
Definition system_assign (account : Pubkey) (owner : list Z) : SolInstruction :=
  mkIx system_program_id [meta_new account true] (le_bytes 4 1 ++ owner).
End system.

(** * Preparing many things at once *)

Definition PREP_CONCURRENCY : nat := 32.
Definition COMMIT_FREQUENCY_MS : Z := 1000000000.

(** [bounded]: the futures finish in any order, their results are taken in the order of their
    indices, and the first failure in that order ends it. *)
Definition bounded_context (what : string) (index count : nat) (error : string) : string :=
  "preparing " +:+ what +:+ " " +:+ show_u64 (Z.of_nat index) +:+ " of " +:+ show_u64 (Z.of_nat count) +:+ ": " +:+ error.

Definition bounded {T} (count : nat) (what : string) (make : nat -> Result T string) : Result (list T) string :=
  collect_results (fun i => match make i with
                            | Ok x => Ok x
                            | Err e => Err (bounded_context what i count e)
                            end) (seq 0 count).

(** [skip(worker).step_by(threads)]; a step of zero panics. *)
Fixpoint step_by_loop {A} (n skip : nat) (l : list A) : list A :=
  match l with
  | [] => []
  | x :: l => match skip with
              | O => x :: step_by_loop n (n - 1) l
              | S skip => step_by_loop n skip l
              end
  end.
Definition step_by {A} (n : nat) (l : list A) : option (list A) :=
  if (n =? 0)%nat then None else Some (step_by_loop n 0 l).

(** The payers of a worker's senders. *)
Definition worker_senders {A} (payers : list A) (worker threads : nat) : option (list A) :=
  step_by threads (drop worker payers).

(** The sender of a request in [execute_kernel]: no sender is a remainder by zero. *)
Definition kernel_sender {A} (senders : list A) (first_id id : Z) : option A :=
  if (length senders =? 0)%nat then None
  else senders !! Z.to_nat ((first_id + id) mod Z.of_nat (length senders)).

(** * A chain that answers *)

Record Tx := mkTx { tx_payer : Pubkey; tx_signers : list Pubkey; tx_ixs : list SolInstruction }.

Definition ChainM (A : Type) : Type := list Tx -> Result A string * list Tx.

Definition chain_ret {A} (a : A) : ChainM A := fun log => (Ok a, log).
Definition chain_bind {A B} (m : ChainM A) (f : A -> ChainM B) : ChainM B :=
  fun log => match m log with
             | (Ok a, log) => f a log
             | (Err e, log) => (Err e, log)
             end.

Declare Scope chain_scope.
Delimit Scope chain_scope with chain.
Notation "'let*' x := m 'in' f" := (chain_bind m (fun x => f)) (at level 200, x name, m at level 100, f at level 200) : chain_scope.
Notation "'do*' m 'in' f" := (chain_bind m (fun _ => f)) (at level 200, m at level 100, f at level 200) : chain_scope.
#[local] Open Scope chain_scope.

Section chain.
(** What the chain answers to the n-th transaction it is sent. *)
Context (answer : nat -> Result unit string).

Definition submit_and_confirm_with (payer : Pubkey) (signers : list Pubkey) (ixs : list SolInstruction) : ChainM unit :=
  fun log => (answer (length log), log ++ [mkTx payer signers ixs]).
Definition submit_and_confirm (payer : Pubkey) (ixs : list SolInstruction) : ChainM unit :=
  submit_and_confirm_with payer [] ixs.

Context `{R : Runtime, C : InstructionCodec, B : BuildSdk}.

(** * Accounts *)

Record Accounts := mkAccounts { ac_program_id : Pubkey; ac_space : Z; ac_authority : Pubkey }.

Definition per_tx (delegated : bool) : nat := if delegated then 2 else 4.

(** The instructions for a seed. *)
Definition seed_ixs (a : Accounts) (owner : Pubkey) (delegated : bool) (seed : nat) : list SolInstruction :=
  let i := mkCellId owner (Z.of_nat seed) in
  (Program_create (ac_program_id a) owner i (ac_space a)).1
  :: (if delegated then [Program_delegate (ac_program_id a) owner i (Some (ac_authority a)) u32_max] else []).
Definition seed_pda (a : Accounts) (owner : Pubkey) (seed : nat) : Pubkey :=
  (Program_create (ac_program_id a) owner (mkCellId owner (Z.of_nat seed)) (ac_space a)).2.

(** The loop of [Accounts::prepare]; every round consumes a seed, so that their number is
    fuel enough. *)
Fixpoint prepare_loop (fuel : nat) (a : Accounts) (payer : Pubkey) (delegated : bool) (seeds : list nat) : ChainM (list Pubkey) :=
  match fuel, seeds with
  | S fuel, _ :: _ =>
      let now := take (per_tx delegated) seeds in
      do* submit_and_confirm payer (concat (seed_ixs a payer delegated <$> now)) in
      let* rest := prepare_loop fuel a payer delegated (drop (per_tx delegated) seeds) in
      chain_ret ((seed_pda a payer <$> now) ++ rest)
  | _, _ => chain_ret []
  end.

Definition accounts_prepare (a : Accounts) (payer : Pubkey) (seeds : list nat) (delegated : bool) : ChainM (list Pubkey) :=
  prepare_loop (length seeds) a payer delegated seeds.

(** [init] indexes the first of one account. *)
Definition accounts_init (a : Accounts) (payer : Pubkey) (seed : nat) (delegated : bool) : ChainM (option Pubkey) :=
  let* pdas := accounts_prepare a payer (seq seed 1) delegated in chain_ret (head pdas).

Definition accounts_init_delegated (a : Accounts) (payer : Pubkey) (count : nat) : ChainM (list Pubkey) :=
  accounts_prepare a payer (seq 0 count) true.

Definition div_ceil (n m : nat) : nat := (n + (m - 1)) / m.

(** How many accounts the payer at [index] makes. *)
Definition payer_share (count payers index : nat) : nat :=
  let per_payer := div_ceil count payers in
  Nat.min per_payer (count - index * per_payer).

(** [init_batched], each payer on a chain log of its own. *)
Definition accounts_init_batched (a : Accounts) (payers : list Pubkey) (count : nat) (delegated : bool)
    (logs : nat -> list Tx) : Result (list Pubkey) string :=
  if (length payers =? 0)%nat then Err "at least one prep payer is required"
  else
    let? batches := bounded (Nat.min (length payers) count) "accounts for payer"
      (fun index => match payers !! index with
                    | Some payer =>
                        (accounts_prepare a payer (seq 0 (payer_share count (length payers) index)) delegated (logs index)).1
                    | None => Ok []
                    end) in
    Ok (concat batches).

(** * Cells *)

Record Fixtures := mkFixtures { fx_payer : Pubkey; fx_program : Pubkey }.
Record OwnedCell := mkOwnedCell { oc_authority : Pubkey; oc_address : Pubkey }.

Definition cells_accounts (f : Fixtures) (space : Z) (validator : Pubkey) : Accounts :=
  mkAccounts (fx_program f) space validator.

Definition cells_prepare (f : Fixtures) (i : CellId) (validator : Pubkey) (commit_frequency_ms space : Z) :
  Pubkey * list SolInstruction :=
  let '(create, cell) := Program_create (fx_program f) (fx_payer f) i space in
  (cell, [create; Program_delegate (fx_program f) (fx_payer f) i (Some validator) commit_frequency_ms]).

Definition prepare_delegated (f : Fixtures) (validator : Pubkey) (commit_frequency_ms : Z) : Pubkey * list SolInstruction :=
  cells_prepare f (mkCellId (fx_payer f) 0) validator commit_frequency_ms (Z.of_nat CellHeader_SIZE).

Fixpoint submit_each (payer : Pubkey) (ixs : list SolInstruction) : ChainM unit :=
  match ixs with
  | [] => chain_ret tt
  | ix :: ixs => do* submit_and_confirm payer [ix] in submit_each payer ixs
  end.

Definition create_primary (f : Fixtures) (validator : Pubkey) (commit_frequency_ms : Z) : ChainM Pubkey :=
  let '(cell, ixs) := prepare_delegated f validator commit_frequency_ms in
  do* submit_each (fx_payer f) ixs in chain_ret cell.

(** [write] and [settle]; [None] is a panic of the builder, before anything is sent. *)
Definition cells_write (f : Fixtures) (value : Z) (cells : list Pubkey) : option (ChainM unit) :=
  ix ← Program_write (fx_program f) value cells; Some (submit_and_confirm (fx_payer f) [ix]).
Definition cells_settle (f : Fixtures) (nonce : Z) (cells : list Pubkey) (mode : SettlementMode) : option (ChainM unit) :=
  b ← Batch_settle (fx_payer f) cells mode (Batch_nonce nonce (Program_batch (fx_program f)));
  Some (submit_and_confirm (fx_payer f) [Batch_build b]).

(** [create_owned_sized]; [fresh] are the keys it generates. *)
Fixpoint create_owned_sized (f : Fixtures) (validator : Pubkey) (space : Z) (fresh : list Pubkey) : ChainM (list OwnedCell) :=
  match fresh with
  | [] => chain_ret []
  | authority :: fresh =>
      let '(address, ixs) := cells_prepare f (mkCellId authority 0) validator COMMIT_FREQUENCY_MS space in
      do* submit_and_confirm_with (fx_payer f) [authority] ixs in
      let* rest := create_owned_sized f validator space fresh in
      chain_ret (mkOwnedCell authority address :: rest)
  end.
Definition create_owned (f : Fixtures) (validator : Pubkey) (fresh : list Pubkey) : ChainM (list OwnedCell) :=
  create_owned_sized f validator (Z.of_nat CellHeader_SIZE) fresh.
End chain.

(** * Signed transactions *)

(** The error a transaction is expected to end with. *)
Inductive TxError := InstructionFailed (index : Z) (code : Z).

#[export] Instance TxError_eq_dec : EqDecision TxError.
Proof. solve_decision. Defined.

Record Signed := mkSigned { sg_signature : string; sg_fee : Z; sg_error : option TxError }.

(** The fee of [from_versioned]: a quote may fail only for lookup tables. *)
Definition quote_fee (v0 : bool) (quoted : Result (option Z) string) : Result Z string :=
  match quoted with
  | Ok (Some fee) => Ok fee
  | Ok None => Err "missing fee quote"
  | Err message => if (v0 && contains "lookup tables is disabled" message)%bool then Ok 0 else Err message
  end.

Section signed.
Context `{R : Runtime, C : InstructionCodec, B : BuildSdk}.

(** The instructions of [Signed::new], and the error it expects. *)
Definition signed_ixs (redshift owner : Pubkey) (count : Z) (fails : bool) (cold : option Pubkey) :
  option (list SolInstruction * option TxError) :=
  let cell := Program_primary redshift owner in
  add ← Batch_add [cell] count (Program_batch redshift);
  let first := Batch_build add in
  let first := match cold with
               | Some k => mkIx (ix_program_id first) (ix_accounts first ++ [meta_new_readonly k false]) (ix_data first)
               | None => first
               end in
  if fails then
    b ← Batch_writable [cell] (Program_batch redshift);
    Some ([first; Batch_build (Batch_fail 0 b)], Some (InstructionFailed 1 0))
  else Some ([first], None).
End signed.

(** [copies]: every copy is accepted or refused as already processed. *)
Fixpoint copies_ok (results : list (Result (Result string Z) string)) : Result unit string :=
  match results with
  | [] => Ok tt
  | Err e :: _ => Err e
  | Ok (Ok _) :: results => copies_ok results
  | Ok (Err code) :: results => if code =? -32003 then copies_ok results else Err "ensure"
  end.

(** [outcome], on the transaction's slot, error and fee. *)
Definition signed_outcome (s : Signed) (slot fee : Z) (err : option TxError) : Result Z string :=
  if negb (bool_decide (err = sg_error s)) then Err "transaction error"
  else if fee =? sg_fee s then Ok slot else Err "ensure".

(** [audit_signatures], on the blocks from [start] to [end_] with their signatures. *)
Definition inclusions (blocks : list (list string)) (signature : string) : nat :=
  foldr (fun block n => (length (filter (fun s => String.eqb s signature = true) block) + n)%nat) 0%nat blocks.

Fixpoint audit_check (blocks : list (list string)) (expected : list (string * nat)) : Result unit string :=
  match expected with
  | [] => Ok tt
  | (signature, count) :: expected =>
      if (inclusions blocks signature =? count)%nat then audit_check blocks expected
      else Err (signature +:+ ": inclusions")
  end.

Definition audit_signatures (slot : Z) (listed : Result (list (Result (option (list string)) string)) string)
    (expected : list (string * nat)) : Result Z string :=
  let end_ := slot + 2 in
  let? reads := listed in
  let? blocks := collect_results (fun read => let? block := read in ok_or block "block signatures missing") reads in
  let? _ := audit_check blocks expected in
  Ok (end_ + 1).
