(* ===== verification/PrepProps.v ===== *)
(** Preparation: random streams never coincide, accounts are made once and in order, payers
    are split among workers, and what is signed is what the program does. *)
From Stdlib Require Import Ascii String.
From S2P Require Import Prelude World Cell Instr Settlement RefCodec SettlementFacts Execute CellSpec Build BuildSpec FixtureProps Text Prep.

#[local] Open Scope string_scope.
#[local] Open Scope Z_scope.
#[local] Open Scope list_scope.

(** * Random streams *)

Lemma length_string_bytes s : length (string_bytes s) = String.length s.
Proof.
  unfold string_bytes. rewrite length_fmap. induction s as [|c s IH]; cbn; [done|]. by rewrite IH.
Qed.

Lemma string_bytes_inj s t : string_bytes s = string_bytes t -> s = t.
Proof.
  revert t. induction s as [|c s IH]; intros [|d t]; try done. unfold string_bytes. cbn.
  intros [= Hc Ht]. apply Nat2Z.inj in Hc.
  rewrite <- (ascii_nat_embedding c), <- (ascii_nat_embedding d), Hc. f_equal. by apply IH.
Qed.

Lemma le_bytes_inj n m : 0 <= n < u64_bound -> 0 <= m < u64_bound -> le_bytes 8 n = le_bytes 8 m -> n = m.
Proof. intros Hn Hm H. rewrite <- (le_val_bytes_u64 n), <- (le_val_bytes_u64 m) by done. by rewrite H. Qed.

(** A key fits a 64-bit length. *)
Definition key_fits (key : string) : Prop := Z.of_nat (String.length key) < u64_bound.

Lemma keys_text_inj keys keys' i i' :
  let text := fun key => le_bytes 8 (Z.of_nat (String.length key)) ++ string_bytes key in
  Forall key_fits keys -> Forall key_fits keys' ->
  concat (text <$> keys) ++ le_bytes 8 i = concat (text <$> keys') ++ le_bytes 8 i' ->
  keys = keys' /\ le_bytes 8 i = le_bytes 8 i'.
Proof.
  intros text Hk. assert (Htext : forall k, (8 <= length (text k))%nat)
    by (intros k; unfold text; rewrite length_app, length_le_bytes; lia).
  revert keys'. induction Hk as [|k keys Hk _ IH]; intros [|k' keys'] Hk' H.
  - done.
  - apply (f_equal length) in H. rewrite fmap_cons, concat_cons in H.
    rewrite !length_app, !length_le_bytes in H. cbn [fmap list_fmap concat length] in H. specialize (Htext k'). lia.
  - apply (f_equal length) in H. rewrite fmap_cons, concat_cons in H.
    rewrite !length_app, !length_le_bytes in H. cbn [fmap list_fmap concat length] in H. specialize (Htext k). lia.
  - apply Forall_cons in Hk' as [Hk1 Hk2]. rewrite !fmap_cons, !concat_cons in H. unfold text in H at 1 3. rewrite <- !app_assoc in H.
    apply app_inj_1 in H as [Hlen H]; [|by rewrite !length_le_bytes].
    unfold key_fits in *. apply le_bytes_inj in Hlen; [|lia|lia]. apply Nat2Z.inj in Hlen.
    apply app_inj_1 in H as [Hs H]; [|by rewrite !length_string_bytes].
    apply string_bytes_inj in Hs as ->. destruct (IH keys' Hk2 H) as [-> ?]. done.
Qed.

(** Streams of random numbers are kept apart: two streams hash the same text only if their
    seed, their keys, one by one, and their index are the same. *)
Theorem random_streams_are_separate seed seed' keys keys' index index' :
  0 <= seed < u64_bound -> 0 <= seed' < u64_bound -> 0 <= index < u64_bound -> 0 <= index' < u64_bound ->
  Forall key_fits keys -> Forall key_fits keys' ->
  rng_preimage seed keys index = rng_preimage seed' keys' index' ->
  seed = seed' /\ keys = keys' /\ index = index'.
Proof.
  intros Hs Hs' Hi Hi' Hk Hk' H. unfold rng_preimage in H. apply app_inv_head in H.
  apply app_inj_1 in H as [Hse H]; [|by rewrite !length_le_bytes].
  apply le_bytes_inj in Hse as ->; [|done|done]. apply keys_text_inj in H as [-> Hx]; [|done|done].
  apply le_bytes_inj in Hx as ->; done.
Qed.

Lemma random_streams_are_separate_witness :
  rng_preimage 7 ["ab"; "c"] 1 <> rng_preimage 7 ["a"; "bc"] 1.
Proof.
  intros H. destruct (random_streams_are_separate 7 7 ["ab"; "c"] ["a"; "bc"] 1 1) as (_ & Hk & _).
  1-4: vm_compute; split; [discriminate|reflexivity].
  1-2: apply Forall_cons; split; [|apply Forall_cons; split; [|apply Forall_nil; exact I]]; vm_compute; reflexivity.
  - exact H.
  - discriminate Hk.
Defined.

(** * Accounts *)

Section accounts.
Context (answer : nat -> Result unit string) `{R : Runtime, C : InstructionCodec, B : BuildSdk}.

Lemma per_tx_pos delegated : (0 < per_tx delegated)%nat.
Proof. destruct delegated; cbn; lia. Qed.

Lemma seed_ixs_length a owner delegated seed : length (seed_ixs a owner delegated seed) = if delegated then 2%nat else 1%nat.
Proof. by destruct delegated. Qed.

Lemma chunk_length a owner delegated seeds :
  (length seeds <= per_tx delegated)%nat -> (length (concat (seed_ixs a owner delegated <$> seeds)) <= 4)%nat.
Proof.
  intros Hl. assert (H : length (concat (seed_ixs a owner delegated <$> seeds)) = (length seeds * (if delegated then 2 else 1))%nat).
  { clear Hl. induction seeds as [|s seeds IH]; [done|]. rewrite fmap_cons, concat_cons, length_app, IH, seed_ixs_length.
    cbn. by destruct delegated. }
  rewrite H. destruct delegated; cbn in *; lia.
Qed.

(** The transactions a preparation sends, and what is left when one fails. *)
Lemma prepare_loop_spec fuel a payer delegated seeds log r log' :
  (length seeds <= fuel)%nat -> prepare_loop answer fuel a payer delegated seeds log = (r, log') ->
  exists txs done_ rest, log' = log ++ txs /\ seeds = done_ ++ rest /\
    concat (tx_ixs <$> txs) = concat (seed_ixs a payer delegated <$> done_) /\
    Forall (fun t => tx_payer t = payer /\ (length (tx_ixs t) <= 4)%nat) txs /\
    match r with
    | Ok pdas => rest = [] /\ pdas = seed_pda a payer <$> seeds
    | Err e => exists n, length log' = S n /\ answer n = Err e
    end.
Proof.
  revert seeds log r log'. induction fuel as [|fuel IH]; intros [|s seeds] log r log' Hf H; cbn [length] in *; [|lia| |].
  1,2: injection H as <- <-; exists [], [], []; rewrite app_nil_r; by split_and!.
  cbn [prepare_loop] in H. remember (s :: seeds) as all eqn:Hall. unfold chain_bind, submit_and_confirm, submit_and_confirm_with in H.
  set (now := take (per_tx delegated) all) in *. set (later := drop (per_tx delegated) all) in *.
  assert (Hsplit : all = now ++ later) by (symmetry; apply take_drop).
  assert (Htx : Forall (fun t => tx_payer t = payer /\ (length (tx_ixs t) <= 4)%nat)
    [mkTx payer [] (concat (seed_ixs a payer delegated <$> now))]).
  { constructor; [|constructor]. split; [done|]. apply chunk_length. subst now. rewrite length_take. lia. }
  destruct (answer (length log)) as [[]|e] eqn:Ha.
  - destruct (prepare_loop answer fuel a payer delegated later _) as [r1 log1] eqn:El.
    apply IH in El as (txs & done_ & rest & -> & Hl & Hc & Hp & Hr).
    2: { subst later. rewrite length_drop, Hall. cbn. pose proof (per_tx_pos delegated). lia. }
    exists (mkTx payer [] (concat (seed_ixs a payer delegated <$> now)) :: txs), (now ++ done_), rest.
    assert (log' = log ++ mkTx payer [] (concat (seed_ixs a payer delegated <$> now)) :: txs) as ->.
    { destruct r1; injection H as <- <-; by rewrite <- app_assoc. }
    split_and!; [done|by rewrite <- app_assoc, <- Hl| |exact (Forall_app_2 _ _ _ Htx Hp)|].
    + by rewrite fmap_cons, concat_cons, Hc, fmap_app, concat_app.
    + destruct r1 as [pdas|e]; injection H as <-.
      * destruct Hr as [-> ->]. split; [done|]. by rewrite Hsplit, fmap_app.
      * destruct Hr as (n & Hn & He). exists n. split; [|done]. rewrite <- Hn. by rewrite <- app_assoc.
  - injection H as <- <-. exists [mkTx payer [] (concat (seed_ixs a payer delegated <$> now))], now, later.
    split_and!; [done|done|cbn; by rewrite app_nil_r|done|]. exists (length log). split; [|done]. rewrite length_app. cbn. lia.
Qed.
End accounts.

(** ** Splitting accounts among payers *)

Fixpoint shares_until (count payers n : nat) : nat :=
  match n with
  | O => 0
  | S n => (shares_until count payers n + payer_share count payers n)%nat
  end.

Lemma shares_until_min count payers n : shares_until count payers n = Nat.min count (n * div_ceil count payers).
Proof.
  induction n as [|n IH]; cbn [shares_until]; [lia|]. rewrite IH. unfold payer_share. nia.
Qed.

Lemma div_ceil_covers n m : (0 < m)%nat -> (n <= m * div_ceil n m)%nat.
Proof.
  intros Hm. unfold div_ceil. pose proof (Nat.div_mod_eq (n + (m - 1)) m). pose proof (Nat.mod_upper_bound (n + (m - 1)) m). lia.
Qed.

Lemma div_ceil_pos n m : (0 < n)%nat -> (0 < m)%nat -> (0 < div_ceil n m)%nat.
Proof. intros Hn Hm. pose proof (div_ceil_covers n m Hm). destruct (div_ceil n m); lia. Qed.

(** Every account has a payer. *)
Lemma shares_cover count payers :
  (0 < payers)%nat -> shares_until count payers (Nat.min payers count) = count.
Proof.
  intros Hp. rewrite shares_until_min. destruct (decide (count = 0)%nat) as [->|Hc]; [lia|].
  pose proof (div_ceil_covers count payers Hp). pose proof (div_ceil_pos count payers ltac:(lia) Hp).
  destruct (Nat.min_spec payers count) as [[_ ->]|[_ ->]]; nia.
Qed.

Lemma bounded_Ok {T} count what (make : nat -> Result T string) xs :
  bounded count what make = Ok xs -> Forall2 (fun i x => make i = Ok x) (seq 0 count) xs.
Proof.
  unfold bounded. rewrite collect_results_Ok. intros H. eapply Forall2_impl; [exact H|].
  intros i x. cbn. by destruct (make i).
Qed.

Section batched.
Context (answer : nat -> Result unit string) `{R : Runtime, C : InstructionCodec, B : BuildSdk}.

(** The cells of the first [n] payers. *)
Definition batch_ids (payers : list Pubkey) (count n : nat) : list CellId :=
  concat ((fun i => match payers !! i with
                    | Some payer => (fun seed => mkCellId payer (Z.of_nat seed)) <$> seq 0 (payer_share count (length payers) i)
                    | None => []
                    end) <$> seq 0 n).

Lemma batch_ids_S payers count n :
  batch_ids payers count (S n) = batch_ids payers count n ++
    match payers !! n with
    | Some payer => (fun seed => mkCellId payer (Z.of_nat seed)) <$> seq 0 (payer_share count (length payers) n)
    | None => []
    end.
Proof. unfold batch_ids. rewrite seq_S, fmap_app, concat_app. cbn. by rewrite app_nil_r. Qed.

Lemma batch_ids_facts payers count n :
  NoDup payers -> (n <= length payers)%nat ->
  length (batch_ids payers count n) = shares_until count (length payers) n /\
  NoDup (batch_ids payers count n) /\ (forall c, c ∈ batch_ids payers count n -> authority c ∈ take n payers).
Proof.
  intros Hnd. induction n as [|n IH]; intros Hn; [split_and!; [done|constructor|intros c Hc; by apply not_elem_of_nil in Hc]|].
  destruct IH as (Hl & Hu & Ha); [lia|]. rewrite batch_ids_S.
  destruct (lookup_lt_is_Some_2 payers n) as [payer Hpayer]; [lia|]. rewrite Hpayer. cbn [shares_until].
  rewrite (take_S_r _ _ _ Hpayer). split_and!.
  - rewrite length_app, Hl, length_fmap, length_seq. done.
  - apply NoDup_app. split_and!; [done| |apply NoDup_fmap_2_strong, NoDup_seq; intros ? ? _ _ [=]; lia].
    intros c Hc (seed & -> & _)%list_elem_of_fmap. apply Ha in Hc. cbn in Hc.
    apply elem_of_take in Hc as (j & Hj & Hjn). pose proof (NoDup_lookup _ _ _ _ Hnd Hj Hpayer). lia.
  - intros c [Hc|Hc]%elem_of_app; [by apply elem_of_app; left; apply Ha|].
    apply list_elem_of_fmap in Hc as (seed & -> & _). cbn. apply elem_of_app. right. by left.
Qed.

Lemma batches_pdas a payers count delegated logs n batches :
  (n <= length payers)%nat ->
  Forall2 (fun i x => match payers !! i with
      | Some payer => (accounts_prepare answer a payer (seq 0 (payer_share count (length payers) i)) delegated (logs i)).1
      | None => Ok []
      end = Ok x) (seq 0 n) batches ->
  concat batches = (fun c => (CellId_pda c (ac_program_id a)).1) <$> batch_ids payers count n.
Proof.
  revert batches. induction n as [|n IH]; intros batches Hn H.
  { apply Forall2_nil_inv_l in H as ->. done. }
  rewrite seq_S in H. apply Forall2_app_inv_l in H as (xs & ys & Hx & Hy & ->).
  apply Forall2_cons_inv_l in Hy as (y & ys' & Hy & Hnil & ->). apply Forall2_nil_inv_l in Hnil as ->.
  rewrite concat_app, batch_ids_S, fmap_app, (IH xs) by (done || lia). cbn [concat]. rewrite app_nil_r. f_equal. cbn in Hy.
  destruct (payers !! n) as [payer|]; [|by injection Hy as <-].
  unfold accounts_prepare in Hy. destruct (prepare_loop _ _ _ _ _ _ _) as [r log'] eqn:E. cbn in Hy. subst r.
  apply prepare_loop_spec in E as (? & ? & ? & _ & _ & _ & _ & _ & ->); [|done]. by rewrite <- list_fmap_compose.
Qed.

(** A batch of accounts is made as asked: one payer's preparation sends the creations (and
    delegations) of its seeds once each and in order, at most four instructions to a transaction,
    and stops at the first transaction that fails; all payers together make exactly [count]
    distinct cells, each under a payer's authority, and return their addresses. *)
Theorem accounts_are_made_once a payers count delegated logs :
  (forall payer seeds log r log', accounts_prepare answer a payer seeds delegated log = (r, log') ->
     exists txs done_ rest, log' = log ++ txs /\ seeds = done_ ++ rest /\
       concat (tx_ixs <$> txs) = concat (seed_ixs a payer delegated <$> done_) /\
       Forall (fun t => tx_payer t = payer /\ (length (tx_ixs t) <= 4)%nat) txs /\
       (if is_ok r then rest = [] else exists n e, length log' = S n /\ answer n = Err e)) /\
  (forall pdas, NoDup payers -> accounts_init_batched answer a payers count delegated logs = Ok pdas ->
     exists ids, pdas = (fun c => (CellId_pda c (ac_program_id a)).1) <$> ids /\ length ids = count /\ NoDup ids /\
       forall c, c ∈ ids -> authority c ∈ payers).
Proof.
  split.
  - intros payer seeds log r log' H. apply prepare_loop_spec in H as (txs & done_ & rest & H1 & H2 & H3 & H4 & H5); [|done].
    exists txs, done_, rest. split_and!; [done..|]. destruct r as [pdas|e]; cbn; [tauto|naive_solver].
  - intros pdas Hnd. unfold accounts_init_batched. destruct (Nat.eqb_spec (length payers) 0) as [|Hp]; [done|].
    destruct (bounded _ _ _) as [batches|] eqn:Eb; [|done]. cbn. intros [= <-]. apply bounded_Ok in Eb.
    set (n := Nat.min (length payers) count) in *. exists (batch_ids payers count n).
    destruct (batch_ids_facts payers count n Hnd) as (Hl & Hu & Ha); [lia|]. split_and!; [|rewrite Hl; apply shares_cover; lia|done|].
    + by apply (batches_pdas _ _ _ delegated logs); [lia|].
    + intros c Hc%Ha. apply elem_of_take in Hc as (i & Hi & _). by eapply list_elem_of_lookup_2.
Qed.
End batched.

(** * Workers *)

Lemma step_by_loop_lookup {A} n skip (l : list A) j :
  (0 < n)%nat -> step_by_loop n skip l !! j = l !! (skip + j * n)%nat.
Proof.
  intros Hn. revert skip j. induction l as [|x l IH]; intros skip j; cbn [step_by_loop]; [done|].
  destruct skip as [|skip]; [|by rewrite IH]. destruct j as [|j]; [done|]. cbn [lookup list_lookup].
  rewrite IH. replace (0 + S j * n)%nat with (S (n - 1 + j * n)) by lia. done.
Qed.

Lemma worker_senders_lookup {A} (payers : list A) worker threads :
  (0 < threads)%nat ->
  exists senders, worker_senders payers worker threads = Some senders /\
    forall j, senders !! j = payers !! (worker + j * threads)%nat.
Proof.
  intros Ht. unfold worker_senders, step_by. destruct (Nat.eqb_spec threads 0) as [|_]; [lia|].
  exists (step_by_loop threads 0 (drop worker payers)). split; [done|]. intros j.
  by rewrite step_by_loop_lookup, lookup_drop.
Qed.

(** The workers share the payers: each payer is the sender of exactly one worker, and a
    worker finds a sender for every request exactly when there is a payer for it. *)
Theorem payers_are_partitioned {A} (payers : list A) threads :
  (0 < threads)%nat ->
  (forall i x, payers !! i = Some x <->
     exists senders, worker_senders payers (i mod threads) threads = Some senders /\ senders !! (i / threads)%nat = Some x) /\
  (forall worker senders first_id id, worker_senders payers worker threads = Some senders -> 0 <= first_id + id ->
     is_Some (kernel_sender senders first_id id) <-> (worker < length payers)%nat).
Proof.
  intros Ht. split.
  - intros i x. destruct (worker_senders_lookup payers (i mod threads) threads Ht) as (s & Hs & Hl).
    pose proof (Nat.div_mod_eq i threads) as Hdm.
    assert (Hi : s !! (i / threads)%nat = payers !! i) by (rewrite Hl; f_equal; lia). split.
    + intros Hx. exists s. by rewrite Hi.
    + intros (s' & Hs' & Hx). congruence.
  - intros worker senders first_id id Hs Hid. destruct (worker_senders_lookup payers worker threads Ht) as (s & Hs' & Hl).
    assert (s = senders) as -> by congruence. specialize (Hl 0%nat). rewrite Nat.add_0_r in Hl. unfold kernel_sender.
    rewrite <- (lookup_lt_is_Some payers worker), <- Hl. destruct (Nat.eqb_spec (length senders) 0) as [He|He].
    + apply nil_length_inv in He as ->. done.
    + rewrite !lookup_lt_is_Some. split; [lia|]. intros _.
      pose proof (Z.mod_pos_bound (first_id + id) (Z.of_nat (length senders))). lia.
Qed.

Lemma payers_are_partitioned_witness :
  worker_senders [10; 11; 12; 13; 14] 1 3 = Some [11; 14] /\
  (is_Some (kernel_sender [11; 14] 5 2) <-> (1 < length [10; 11; 12; 13; 14])%nat).
Proof.
  split; [reflexivity|]. apply (proj2 (payers_are_partitioned [10; 11; 12; 13; 14] 3 ltac:(lia)) 1%nat [11; 14] 5 2); [reflexivity|lia].
Defined.

(** * Audits *)

Lemma inclusions_concat blocks signature :
  inclusions blocks signature = length (filter (fun s => s = signature) (concat blocks)).
Proof.
  induction blocks as [|b blocks IH]; [done|]. rewrite concat_cons, filter_app, length_app, <- IH. cbn. f_equal. f_equal.
  apply list_filter_iff. intros s. by rewrite String.eqb_eq.
Qed.

(** An audit succeeds exactly when every block from its start could be read with its signatures
    and each transaction occurs in them exactly as often as expected. *)
Theorem audit_counts_inclusions slot reads expected end_ :
  audit_signatures slot (Ok reads) expected = Ok end_ <->
  end_ = slot + 3 /\ exists blocks, reads = (fun b => Ok (Some b)) <$> blocks /\
    forall signature count, (signature, count) ∈ expected ->
      length (filter (fun s => s = signature) (concat blocks)) = count.
Proof.
  unfold audit_signatures. cbn.
  assert (Hcheck : forall blocks, audit_check blocks expected = Ok tt <->
    forall signature count, (signature, count) ∈ expected -> length (filter (fun s => s = signature) (concat blocks)) = count).
  { intros blocks. induction expected as [|[sig n] expected IH]; cbn.
    - split; [intros _ ? ? H; by apply not_elem_of_nil in H|done].
    - destruct (Nat.eqb_spec (inclusions blocks sig) n) as [Heq|Hne].
      + rewrite IH. rewrite inclusions_concat in Heq. split.
        * intros H s c [[= -> ->]|Hin]%elem_of_cons; [done|by apply H].
        * intros H s c Hin. apply H. by right.
      + split; [done|]. intros H. rewrite inclusions_concat in Hne. destruct Hne. apply H. by left. }
  assert (Hreads : forall blocks, collect_results (fun read => let? block := read in ok_or block "block signatures missing") reads = Ok blocks
    <-> reads = (fun b => Ok (Some b)) <$> blocks).
  { intros blocks. rewrite collect_results_Ok. split.
    - induction 1 as [|r b reads bs Hr _ IH]; [done|]. rewrite IH, fmap_cons. f_equal. by destruct r as [[]|]; cbn in Hr; simplify_eq.
    - intros ->. apply Forall2_fmap_l, Forall2_same_length_lookup_2; [done|]. intros i x y Hx Hy. by simplify_eq. }
  destruct (collect_results _ reads) as [blocks|e] eqn:Er; cbn.
  - pose proof (proj1 (Hreads blocks) eq_refl) as Hb0. destruct (audit_check blocks expected) as [[]|e] eqn:Ec; cbn.
    + rewrite Hcheck in Ec. split; [intros [= <-]; split; [lia|eauto]|]. intros [-> _]. f_equal. lia.
    + split; [done|]. intros (_ & blocks' & Hb & Hall). apply Hreads in Hb as [= ->]. apply Hcheck in Hall. congruence.
  - split; [done|]. intros (_ & blocks & Hb & _). by apply Hreads in Hb.
Qed.

(** * Signed transactions *)

Section signed.
Context `{R : Runtime, !RuntimeLaws R, HC : HeaderCodec, !HeaderCodecLaws HC}.
Context `{C : InstructionCodec, !InstructionCodecLaws R C, K : IntentSdk, B : BuildSdk}.

(** The two instructions a signed transaction may have. *)
Lemma signed_ixs_eq redshift owner count fails cold :
  let cell := Program_primary redshift owner in
  signed_ixs redshift owner count fails cold = Some
    (Program_encode redshift (IxExecute 0 [OpAdd [0] count])
       (mkMeta cell false true :: match cold with Some k => [meta_new_readonly k false] | None => [] end)
     :: (if fails then [Program_encode redshift (IxExecute 0 [OpFail 0]) [mkMeta cell false true]] else []),
     if fails then Some (InstructionFailed 1 0) else None).
Proof. intros cell. unfold signed_ixs. cbn. by destruct fails, cold. Qed.

Lemma add_process redshift infos count w σ cell h p :
  0 <= count < 256 -> head (key <$> infos) = Some cell ->
  represents σ w -> borrowed w = ∅ -> σ !! cell = Some (h, p) -> 0 <= value h -> value h + count < u64_bound -> revision h < u64_max ->
  reaches (process redshift infos (Instruction_into_data (IxExecute 0 [OpAdd [0] count]))) w σ
    (<[cell := (bump (with_value (value h + count) h), p)]> σ).
Proof.
  intros Hc Hcell Hr Hb Hs Hv0 Hv Hrev.
  assert (Hwf : Forall Operation_wf [OpAdd [0] count]).
  { constructor; [|constructor]. split; [split|].
    - repeat constructor; vm_compute; congruence.
    - vm_compute. reflexivity.
    - unfold is_i64. lia. }
  assert (Hk : (key <$> infos) !! 0%nat = Some cell) by (by destruct (key <$> infos)).
  unfold reaches. rewrite process_execute; [|vm_compute; split; congruence|split; [done|vm_compute; reflexivity]].
  apply run_from_reaches; [done..|]. cbn. change (Z.to_nat 0) with 0%nat. rewrite Hk. cbn.
  unfold abs_update. rewrite Hs. cbn. rewrite bool_decide_true by lia. cbn. rewrite bool_decide_true by done. done.
Qed.

Lemma fail_process redshift infos code w :
  is_u 32 code ->
  (process redshift infos (Instruction_into_data (IxExecute 0 [OpFail code])) w).1 = Err (Custom code).
Proof.
  intros Hc. rewrite process_execute; [done|vm_compute; split; congruence|split; [by apply Forall_singleton|vm_compute; reflexivity]].
Qed.

(** A signed transaction does what its record says: its first instruction adds to the owner's
    cell and nothing else, with or without a cold account; and it is recorded with an error exactly when it
    has a further instruction, at the recorded index, that the program refuses with the recorded code. *)
Theorem signed_outcome_is_predicted redshift owner count fails cold ixs err infos w σ h p :
  let cell := Program_primary redshift owner in
  signed_ixs redshift owner count fails cold = Some (ixs, err) -> 0 <= count < 256 ->
  represents σ w -> borrowed w = ∅ -> σ !! cell = Some (h, p) ->
  0 <= value h -> value h + count < u64_bound -> revision h < u64_max ->
  exists first rest, ixs = first :: rest /\
    (key <$> infos = pubkey <$> ix_accounts first ->
     reaches (process redshift infos (ix_data first)) w σ (<[cell := (bump (with_value (value h + count) h), p)]> σ)) /\
    match err with
    | None => rest = []
    | Some (InstructionFailed i code) => exists ix, ixs !! Z.to_nat i = Some ix /\ length ixs = S (Z.to_nat i) /\
        forall infos' w', (process redshift infos' (ix_data ix) w').1 = Err (Custom code)
    end.
Proof.
  intros cell H Hc Hr Hb Hs Hv0 Hv Hrev. rewrite signed_ixs_eq in H. injection H as <- <-.
  eexists _, _. split; [done|]. split.
  - intros Hk. eapply add_process; try done. rewrite Hk. done.
  - destruct fails; [|done]. eexists. split; [done|]. split; [done|]. intros infos' w'. apply fail_process. vm_compute. split; congruence.
Qed.
End signed.

Definition signed_header : CellHeader := mkHeader (mkCellId 5 0) 3 0 Accept.
Definition signed_cell : Pubkey := Program_primary 42 5.
Definition signed_world : World :=
  mkWorld {[ signed_cell := mkCell 42 1000 (demo_data signed_header demo_payload) ]} ∅ [].
Definition signed_sample : list SolInstruction * option TxError :=
  default ([], None) (signed_ixs 42 5 4 true (Some 900)).

Lemma signed_outcome_is_predicted_witness :
  exists first rest, signed_sample.1 = first :: rest /\ rest <> [] /\
    reaches (process 42 [mkInfo signed_cell false true; mkInfo 900 false false] (ix_data first)) signed_world
      {[signed_cell := (signed_header, demo_payload)]}
      (<[signed_cell := (bump (with_value 7 signed_header), demo_payload)]> {[signed_cell := (signed_header, demo_payload)]}).
Proof.
  destruct (signed_outcome_is_predicted 42 5 4 true (Some 900) signed_sample.1 signed_sample.2
    [mkInfo signed_cell false true; mkInfo 900 false false] signed_world
    {[signed_cell := (signed_header, demo_payload)]} signed_header demo_payload) as (first & rest & H1 & H2 & H3).
  - vm_compute. reflexivity.
  - lia.
  - intros k c. rewrite lookup_singleton_Some. intros [<- <-]. by vm_compute.
  - reflexivity.
  - apply lookup_singleton_eq.
  - vm_compute. congruence.
  - vm_compute. reflexivity.
  - vm_compute. reflexivity.
  - exists first, rest. split; [exact H1|]. split.
    + intros ->. vm_compute in H1. discriminate H1.
    + apply H2. vm_compute in H1. injection H1 as <- _. vm_compute. reflexivity.
Defined.

Lemma accounts_are_made_once_witness :
  exists pdas, accounts_init_batched (fun _ => Ok tt) (mkAccounts 42 80 9) [5; 6] 3 true (fun _ => []) = Ok pdas /\
    exists ids, pdas = (fun c => (CellId_pda c 42).1) <$> ids /\ length ids = 3%nat /\ NoDup ids /\
      forall c, c ∈ ids -> authority c ∈ [5; 6].
Proof.
  destruct (accounts_init_batched (fun _ => Ok tt) (mkAccounts 42 80 9) [5; 6] 3 true (fun _ => [])) as [pdas|e] eqn:E;
    [|vm_compute in E; discriminate E].
  exists pdas. split; [reflexivity|].
  apply (proj2 (accounts_are_made_once (fun _ => Ok tt) (mkAccounts 42 80 9) [5; 6] 3 true (fun _ => []))); [|exact E].
  apply (bool_decide_unpack _). vm_compute. exact I.
Defined.
