(* ===== verification/Rollup.v ===== *)
(** Rollups of the topology: the binaries and parameters of [core/src/topology/config.rs], private
    rollups of [private.rs] and replicated ones of [replicated.rs].

    The processes are those of [Process.v].  What the operating system and the network answer
    at each step is an argument; [Result]s that stand for a step of I/O carry its error.  Logs,
    elapsed times and the parts of a plan that only go into its configuration file are left out. *)
From Stdlib Require Import Ascii String.
From S2P Require Import Prelude Float64 Rate Text Metrics Report Process Stack.

#[local] Open Scope string_scope.
#[local] Open Scope Z_scope.
#[local] Open Scope list_scope.

(** * Finding binaries *)

(** A path by its components. *)
Abbreviation Path := (list string) (only parsing).

Definition parent (p : Path) : option Path := match p with [] => None | _ => Some (removelast p) end.
Definition path_name (p : Path) : string := default EmptyString (last p).

(** The environment: variables that hold paths, the directories of PATH, and the files there are. *)
Record BinEnv := mkBinEnv
  { env_var : string -> option Path; env_path : option (list Path); env_exists : Path -> bool; env_is_file : Path -> bool }.

Inductive BinError := NotThere (variable : string) (path : Path) | NotFound (bin : string).

#[export] Instance BinError_eq_dec : EqDecision BinError.
Proof. solve_decision. Defined.

Definition BASE_BIN : string := "solana-test-validator".
Definition ER_BIN : string := "magicblock-validator".
Definition ER_BIN_ENV : string := "MAGICBLOCK_VALIDATOR_BIN".
Definition VERIFIER_BIN : string := "magicblock-verifier".
Definition VERIFIER_BIN_ENV : string := "MAGICBLOCK_VERIFIER_BIN".

Definition which (e : BinEnv) (bin : string) : option Path :=
  dirs ← env_path e; find_first (fun candidate => env_is_file e candidate) ((fun dir => dir ++ [bin]) <$> dirs).

Definition explicit_bin (e : BinEnv) (name : string) : Result (option Path) BinError :=
  match env_var e name with
  | None => Ok None
  | Some path => if env_exists e path then Ok (Some path) else Err (NotThere name path)
  end.

Definition find_base_bin (e : BinEnv) : Result Path BinError := ok_or (which e BASE_BIN) (NotFound BASE_BIN).

Definition er_bin_path (e : BinEnv) : Result Path BinError :=
  let? explicit := explicit_bin e ER_BIN_ENV in
  match explicit with
  | Some path => Ok path
  | None => ok_or (which e ER_BIN) (NotFound ER_BIN)
  end.

(** The verifier beside the rollup's binary, if it is there. *)
Definition sibling_verifier (e : BinEnv) : option Path :=
  match er_bin_path e with
  | Err _ => None
  | Ok er =>
      dir ← parent er;
      if env_is_file e (dir ++ [VERIFIER_BIN]) then Some (dir ++ [VERIFIER_BIN]) else None
  end.

Definition find_verifier_bin (e : BinEnv) : Result Path BinError :=
  let? explicit := explicit_bin e VERIFIER_BIN_ENV in
  match explicit with
  | Some path => Ok path
  | None =>
      match sibling_verifier e with
      | Some sibling => Ok sibling
      | None => ok_or (which e VERIFIER_BIN) (NotFound VERIFIER_BIN)
      end
  end.

Definition committor_so (e : BinEnv) (er_bin : Path) : option Path :=
  dir ← parent er_bin;
  up ← parent dir;
  let deploy := up ++ ["deploy"; "magicblock_committor_program.so"] in
  if env_exists e deploy then Some deploy else None.

(** * The base's programs *)

Record StagedPrograms := mkStaged { sp_bpf : list (Z * Path); sp_loaded : list string }.

(** A fixture: the id it is loaded under, its file name and where it was found. *)
Record FixtureEntry := mkFixtureEntry { fe_program_id : option Z; fe_so_name : string; fe_resolved : Result Path string }.

Definition stage_fixture (s : StagedPrograms) (f : FixtureEntry) : StagedPrograms :=
  match fe_program_id f, fe_resolved f with
  | Some program_id, Ok so => mkStaged (sp_bpf s ++ [(program_id, so)]) (sp_loaded s ++ [fe_so_name f])
  | _, _ => s
  end.

Definition base_programs (e : BinEnv) (committor_id : Z) (er_bin : Path) (fixtures : list FixtureEntry) : StagedPrograms :=
  let bpf := match committor_so e er_bin with Some so => [(committor_id, so)] | None => [] end in
  fold_left stage_fixture fixtures (mkStaged bpf []).

(** * Parameters *)

(** The fields of a rollup's and a verifier's parameters that the topology sets or reads. *)
Record Engine := mkEngine
  { en_authority : Z; en_accountsdb_dir : Path; en_ledger_dir : Path; en_size_limit : Z; en_blocktime : Duration;
    en_superblock : Z; en_bind_port : Z; en_followers : list Z; en_upstream_port : option Z; en_upstream_authority : option Z }.
Record LeaderParams := mkLeader
  { lp_remotes : list string; lp_listen_port : Z; lp_metrics_port : Z; lp_engine : Engine; lp_reset : bool }.
Record VerifierParams := mkVerifierParams { vp_metrics_port : Z; vp_engine : Engine }.

Definition LEDGER_SIZE_LIMIT_UNREACHABLE : Z := Z.shiftl 1 60.

(** [accountsdb_dir] of [state.rs]: under the accounts root if one is set. *)
Definition accountsdb_dir (root : option Path) (storage_dir : Path) : Path :=
  match root, last storage_dir with
  | Some root, Some name => root ++ [name; "accountsdb"]
  | _, _ => storage_dir ++ ["accountsdb"]
  end.

(** [leader_params]; [default_engine] is the engine's own default, [settings] the group's changes. *)
Definition leader_params (default_engine : Engine) (root : option Path) (identity : Z) (remotes : list string)
    (rpc metrics replication : Z) (storage_dir : Path) (allowed_followers : list Z) (settings : LeaderParams -> LeaderParams) :
  LeaderParams :=
  settings (mkLeader remotes rpc metrics
    (mkEngine identity (accountsdb_dir root storage_dir) storage_dir LEDGER_SIZE_LIMIT_UNREACHABLE
       (en_blocktime default_engine) (en_superblock default_engine) replication allowed_followers
       (en_upstream_port default_engine) (en_upstream_authority default_engine))
    true).

Definition verifier_params (default_engine : Engine) (root : option Path) (leader : LeaderParams) (identity metrics_port : Z)
    (storage_dir : Path) : VerifierParams :=
  mkVerifierParams metrics_port
    (mkEngine identity (accountsdb_dir root storage_dir) storage_dir (en_size_limit (lp_engine leader))
       (en_blocktime (lp_engine leader)) (en_superblock (lp_engine leader)) (en_bind_port default_engine)
       (en_followers default_engine) (Some (en_bind_port (lp_engine leader))) (Some (en_authority (lp_engine leader)))).

(** The variables a rollup is started with: none of ours, and a log level. *)
Definition plan_env (vars : list (string * string)) : list (string * string) :=
  let kept := filter (fun v => starts_with "MBV_" v.1 = false) vars in
  if existsb (fun v => String.eqb v.1 "RUST_LOG") vars then kept else kept ++ [("RUST_LOG", "info")].

(** * Errors of a rollup *)

Inductive RollupError := ReProc (error : ProcError) | ReStack (error : StackError) | ReIo (error : string) | ReNoVerifiers | ReNoOwner
| ReNoSnapshot | ReBin (error : BinError) | ReLeaderMetric.

(** [map_err(Into::into)] *)
Definition lift_err {A E F} (f : E -> F) (r : Result A E) : Result A F :=
  match r with Ok a => Ok a | Err e => Err (f e) end.

(** * A verifier *)

(** What was done to the storage and the process, in order. *)
Inductive RollupEvent := EvSpawn (pid : Z) | EvStopped (pid : Z) | EvRemoved.

Record Verifier := mkVerifier { vf_proc : Owned; vf_trace : list RollupEvent }.
Record VerifierStop := mkVerifierStop { vs_needed_sigkill : bool; vs_exit_code : option Z; vs_exit_signal : option Z }.

Definition exit_code (s : ExitStatus) : option Z := match s with ExitCode c => Some c | _ => None end.
Definition exit_signal (s : ExitStatus) : option Z := match s with ExitSignal n => Some n | _ => None end.

Definition verifier_log (e : RollupEvent) (v : Verifier) : Verifier := mkVerifier (vf_proc v) (vf_trace v ++ [e]).

(** The process part of [stop] and [finish]. *)
Definition verifier_terminate (outcome : Result (ExitStatus * bool) ProcError) (v : Verifier) :
  Result (option (ExitStatus * bool)) ProcError * Verifier :=
  let pid := ow_pid (vf_proc v) in
  let '(r, proc) := owned_terminate outcome (vf_proc v) in
  let v := mkVerifier proc (vf_trace v) in
  (r, match r with Ok (Some _) => verifier_log (EvStopped pid) v | _ => v end).

Definition verifier_stop (outcome : Result (ExitStatus * bool) ProcError) (v : Verifier) :
  Result VerifierStop RollupError * Verifier :=
  let '(r, v) := verifier_terminate outcome v in
  (match r with
   | Err e => Err (ReProc e)
   | Ok None => Err (ReProc PeNoProcess)
   | Ok (Some (status, needed_sigkill)) => Ok (mkVerifierStop needed_sigkill (exit_code status) (exit_signal status))
   end, v).

(** [remove_storage], with what the file system answers. *)
Definition verifier_remove_storage (removed : Result unit string) (v : Verifier) : Result unit RollupError * Verifier :=
  match removed with
  | Ok _ => (Ok tt, verifier_log EvRemoved v)
  | Err e => (Err (ReIo e), verifier_log EvRemoved v)
  end.

Definition reset_storage (removed : Result unit string) (v : Verifier) : Result unit RollupError * Verifier :=
  if ow_child (vf_proc v) then (Err (ReProc PeRunning), v) else verifier_remove_storage removed v.

Definition verifier_start (spawned : Result Z string) (ready : Result unit ProcError) (v : Verifier) :
  Result unit RollupError * Verifier :=
  if ow_child (vf_proc v) then (Err (ReProc PeRunning), v)
  else
    match spawned with
    | Err e => (Err (ReIo e), v)
    | Ok pid =>
        let v := verifier_log (EvSpawn pid) (mkVerifier (owned_relaunch pid (vf_proc v)) (vf_trace v)) in
        (lift_err ReProc ready, v)
    end.

(** [restart]: stop, start and wait for the stream. *)
Definition verifier_restart (outcome : Result (ExitStatus * bool) ProcError) (spawned : Result Z string)
    (ready connected : Result unit ProcError) (v : Verifier) : Result VerifierStop RollupError * Verifier :=
  let '(r, v) := verifier_stop outcome v in
  match r with
  | Err e => (Err e, v)
  | Ok stop =>
      let '(r, v) := verifier_start spawned ready v in
      match r with
      | Err e => (Err e, v)
      | Ok _ => (match connected with Err e => Err (ReProc e) | Ok _ => Ok stop end, v)
      end
  end.

Definition verifier_finish (outcome : Result (ExitStatus * bool) ProcError) (removed : Result unit string) (v : Verifier) :
  Result unit RollupError * Verifier :=
  let '(r, v) := verifier_terminate outcome v in
  match r with
  | Err e => (Err (ReProc e), v)
  | Ok _ => verifier_remove_storage removed v
  end.

(** * A replicated topology *)

(** [finish]: every verifier is finished, the first error is returned. *)
Fixpoint finish_all (answers : list (Result (ExitStatus * bool) ProcError * Result unit string)) (verifiers : list Verifier)
    (first_error : option RollupError) : option RollupError * list Verifier :=
  match verifiers, answers with
  | v :: verifiers, (outcome, removed) :: answers =>
      let '(r, v) := verifier_finish outcome removed v in
      let first_error := match r, first_error with Err e, None => Some e | _, _ => first_error end in
      let '(first_error, verifiers) := finish_all answers verifiers first_error in
      (first_error, v :: verifiers)
  | _, _ => (first_error, verifiers)
  end.
(** The processes still there are killed when the verifiers are dropped. *)
Definition topology_finish (answers : list (Result (ExitStatus * bool) ProcError * Result unit string)) (verifiers : list Verifier) :
  Result unit RollupError * list Verifier * list Z :=
  let '(first_error, verifiers) := finish_all answers verifiers None in
  (match first_error with Some e => Err e | None => Ok tt end, verifiers,
   omap (fun v => (owned_drop None None (vf_proc v)).1) verifiers).

(** What launching a verifier meets: its identity, clearing its storage, its metrics port, the
    process, the address of its metrics and its readiness. *)
Record VerifierEnv := mkVerifierEnv
  { ve_identity : Result string StackError; ve_remove : Result unit string; ve_port : Result Z StackError;
    ve_spawn : Result Z string; ve_url : Result unit string; ve_ready : Result unit ProcError }.

(** What the launches of a topology share: the stack directory, where an accounts database is
    split off to, and the provenance of the binary. *)
Record LaunchBase := mkLaunchBase
  { lb_dir : string; lb_split : string -> option string; lb_bin : string; lb_version : string; lb_fingerprint : string }.

Definition er_dir (b : LaunchBase) (label : string) : string := lb_dir b +:+ "/er-" +:+ label.
Definition config_path (b : LaunchBase) (label : string) : string := lb_dir b +:+ "/er-" +:+ label +:+ ".toml".

Definition verifier_launch (b : LaunchBase) (upstream label identity : string) (metrics_port pid : Z) : LaunchRecord :=
  mkLaunch label "verifier" (lb_bin b) (lb_version b) (lb_fingerprint b) identity EmptyString None None metrics_port None
    (Some upstream) (er_dir b label) (lb_split b (er_dir b label)) (er_dir b label +:+ ".log") (Some (config_path b label)) pid 0 None.

Definition verifier_label (label : string) (index : nat) : string := label +:+ "-verifier" +:+ show_u64 (Z.of_nat index).

Section replicated.
Context (base : LaunchBase) (now : Z) (upstream label : string).

(** The loop over the identities, with the verifiers launched so far.  A process whose metrics
    address does not parse is registered but has no owner yet that would kill it. *)
Fixpoint launch_verifiers (index : nat) (envs : list (string * VerifierEnv)) (verifiers : list Verifier) :
  Result unit RollupError * list Verifier :=
  match envs with
  | [] => (Ok tt, verifiers)
  | (identity, e) :: envs =>
      match ve_remove e with
      | Err m => (Err (ReIo m), verifiers)
      | Ok _ =>
          match ve_port e with
          | Err m => (Err (ReStack m), verifiers)
          | Ok metrics_port =>
              match ve_spawn e with
              | Err m => (Err (ReIo m), verifiers)
              | Ok pid =>
                  let record := register_launch now
                    (verifier_launch base upstream (verifier_label label index) identity metrics_port pid) in
                  match ve_url e with
                  | Err m => (Err (ReIo m), verifiers)
                  | Ok _ =>
                      let verifiers := verifiers ++ [mkVerifier (Owned_new pid record) [EvRemoved; EvSpawn pid]] in
                      match ve_ready e with
                      | Err m => (Err (ReProc m), verifiers)
                      | Ok _ => launch_verifiers (S index) envs verifiers
                      end
                  end
              end
          end
      end
  end.

(** The drop of the verifiers kills the processes that are left. *)
Definition dropped (verifiers : list Verifier) : list Z := omap (fun v => (owned_drop None None (vf_proc v)).1) verifiers.

(** [replicated]: the topology, or the error and the processes that were killed. *)
Definition replicated (bin : Result Path BinError) (owner snapshot : bool) (envs : list VerifierEnv) :
  Result (list Verifier) RollupError * list Z :=
  if (length envs =? 0)%nat then (Err ReNoVerifiers, [])
  else
    match bin with
    | Err e => (Err (ReBin e), [])
    | Ok _ =>
        match collect_results (fun e => lift_err ReStack (ve_identity e)) envs with
        | Err e => (Err e, [])
        | Ok identities =>
            if negb owner then (Err ReNoOwner, [])
            else if negb snapshot then (Err ReNoSnapshot, [])
            else
              match launch_verifiers 0 (zip identities envs) [] with
              | (Ok _, verifiers) => (Ok verifiers, [])
              | (Err e, verifiers) => (Err e, dropped verifiers)
              end
        end
    end.
End replicated.

(** [has_snapshot]: the entries in the order they are listed. *)
Fixpoint has_snapshot (entries : list (Result (string * bool) string)) : Result bool string :=
  match entries with
  | [] => Ok false
  | Err e :: _ => Err e
  | Ok (name, archive) :: entries =>
      if (starts_with "superblock-" name && archive)%bool then Ok true else has_snapshot entries
  end.

(** * Waiting for the streams *)

(** The leader is polled until it reports [expected] connections. *)
Fixpoint leader_loop (expected : f64) (deadline : Instant) (polls : list (option f64 * Instant)) : option (Result unit RollupError) :=
  match polls with
  | [] => None
  | (None, _) :: _ => Some (Err ReLeaderMetric)
  | (Some connections, now) :: polls =>
      if f64_lt connections expected
      then if now <? deadline then leader_loop expected deadline polls else Some (Err (ReProc PeTimedOut))
      else Some (Ok tt)
  end.

(** [wait_verifiers_connected]: the running ones in order, each with the time that is left. *)
Fixpoint streams_connected (waits : list (bool * Result unit ProcError)) : Result unit RollupError :=
  match waits with
  | [] => Ok tt
  | (running, connected) :: waits =>
      if running then let? _ := lift_err ReProc connected in streams_connected waits else streams_connected waits
  end.
Definition wait_verifiers_connected (waits : list (bool * Result unit ProcError)) (running : Z) (deadline : Instant)
    (polls : list (option f64 * Instant)) : option (Result unit RollupError) :=
  match streams_connected waits with
  | Err e => Some (Err e)
  | Ok _ => leader_loop (f64_of running) deadline polls
  end.

(** * A private rollup *)

Record PrivateEr := mkPrivate { pr_proc : Owned; pr_reset : bool; pr_ctx_pid : Z; pr_blockhash : bool; pr_trace : list RollupEvent }.
Record RestartOutcome := mkRestart
  { ro_needed_sigkill : bool; ro_exit_code : option Z; ro_exit_signal : option Z; ro_slot_before : option Z; ro_slot_after : option Z }.

Definition private_terminate (outcome : Result (ExitStatus * bool) ProcError) (p : PrivateEr) :
  Result (option (ExitStatus * bool)) ProcError * PrivateEr :=
  let pid := ow_pid (pr_proc p) in
  let '(r, proc) := owned_terminate outcome (pr_proc p) in
  (r, mkPrivate proc (pr_reset p) (pr_ctx_pid p) (pr_blockhash p)
        (match r with Ok (Some _) => pr_trace p ++ [EvStopped pid] | _ => pr_trace p end)).

Definition private_stop (outcome : Result (ExitStatus * bool) ProcError) (p : PrivateEr) : Result unit RollupError * PrivateEr :=
  let '(r, p) := private_terminate outcome p in
  (match r with Err e => Err (ReProc e) | Ok None => Err (ReProc PeNoProcess) | Ok (Some _) => Ok tt end, p).

Definition private_finish (outcome : Result (ExitStatus * bool) ProcError) (removed : Result unit string) (p : PrivateEr) :
  Result unit RollupError * PrivateEr :=
  let '(r, p) := private_terminate outcome p in
  match r with
  | Err e => (Err (ReProc e), p)
  | Ok _ => (lift_err ReIo removed, mkPrivate (pr_proc p) (pr_reset p) (pr_ctx_pid p) (pr_blockhash p) (pr_trace p ++ [EvRemoved]))
  end.

(** [restart]: the context follows the new process only once that is ready. *)
Definition private_restart (reset : bool) (slot_before slot_after : option Z) (outcome : Result (ExitStatus * bool) ProcError)
    (spawned : Result Z string) (ready : Result unit ProcError) (p : PrivateEr) : Result RestartOutcome RollupError * PrivateEr :=
  let '(r, p) := private_terminate outcome p in
  match r with
  | Err e => (Err (ReProc e), p)
  | Ok None => (Err (ReProc PeNoProcess), p)
  | Ok (Some (status, needed_sigkill)) =>
      let p := mkPrivate (pr_proc p) reset (pr_ctx_pid p) (pr_blockhash p) (pr_trace p) in
      match spawned with
      | Err e => (Err (ReIo e), p)
      | Ok pid =>
          let p := mkPrivate (owned_relaunch pid (pr_proc p)) reset (pr_ctx_pid p) (pr_blockhash p) (pr_trace p ++ [EvSpawn pid]) in
          match ready with
          | Err e => (Err (ReProc e), p)
          | Ok _ =>
              (Ok (mkRestart needed_sigkill (exit_code status) (exit_signal status) slot_before slot_after),
               mkPrivate (pr_proc p) reset pid false (pr_trace p))
          end
      end
  end.

(** What [launch] meets, in order; the ports are those of RPC, WebSocket, metrics and replication,
    the addresses those of the API and of the context. *)
Record LaunchEnv := mkLaunchEnv
  { le_dir : Result unit string; le_bin : Result Path BinError; le_identity : Result string StackError;
    le_funded : Result unit string; le_ports : Result (Z * Z * Z * Z) StackError; le_remove : Result unit string;
    le_endpoints : Result unit string; le_params : Result unit string; le_spawn : Result Z string;
    le_urls : Result unit string; le_ready : Result unit ProcError; le_vault : Result unit string;
    le_ctx_urls : Result unit string }.

Definition private_record (b : LaunchBase) (label role identity : string) (ports : Z * Z * Z * Z) (pid : Z) : LaunchRecord :=
  let '(rpc, ws, metrics, replication) := ports in
  mkLaunch label role (lb_bin b) (lb_version b) (lb_fingerprint b) identity EmptyString (Some rpc) (Some ws) metrics
    (Some replication) None (er_dir b label) (lb_split b (er_dir b label)) (er_dir b label +:+ ".log") None pid 0 None.

(** What [launch] does up to the spawn. *)
Definition prepare_launch (e : LaunchEnv) : Result (string * (Z * Z * Z * Z) * Z) RollupError :=
  let? _ := lift_err ReIo (le_dir e) in
  let? _ := lift_err ReBin (le_bin e) in
  let? identity := lift_err ReStack (le_identity e) in
  let? _ := lift_err ReIo (le_funded e) in
  let? ports := lift_err ReStack (le_ports e) in
  let? _ := lift_err ReIo (le_remove e) in
  let? _ := lift_err ReIo (le_endpoints e) in
  let? _ := lift_err ReIo (le_params e) in
  let? pid := lift_err ReIo (le_spawn e) in
  Ok (identity, ports, pid).

(** What it still checks once the process has its owner. *)
Definition await_launch (e : LaunchEnv) : Result unit RollupError :=
  let? _ := lift_err ReIo (le_urls e) in
  let? _ := lift_err ReProc (le_ready e) in
  let? _ := lift_err ReIo (le_vault e) in
  lift_err ReIo (le_ctx_urls e).

(** [launch]: the rollup, or the error and the process that the drop of its owner kills. *)
Definition launch (b : LaunchBase) (now : Z) (label : string) (followers : nat) (e : LaunchEnv) :
  Result PrivateEr RollupError * list Z :=
  match prepare_launch e with
  | Err err => (Err err, [])
  | Ok (identity, ports, pid) =>
      let role := if (followers =? 0)%nat then "private-er" else "leader" in
      let proc := Owned_new pid (register_launch now (private_record b label role identity ports pid)) in
      match await_launch e with
      | Err err => (Err err, option_list (owned_drop None None proc).1)
      | Ok _ => (Ok (mkPrivate proc true pid false [EvRemoved; EvSpawn pid]), [])
      end
  end.
