(* ===== verification/RollupProps.v ===== *)
(** Rollups: storage is cleared only under a stopped process, a launch that fails leaves no
    process, finishing stops every verifier, and binaries are found in the documented order. *)
From Stdlib Require Import Ascii String.
From S2P Require Import Prelude Float64 Rate Text Metrics Report Process Stack Rollup.

#[local] Open Scope string_scope.
#[local] Open Scope Z_scope.
#[local] Open Scope list_scope.

(** * The life of a rollup's process *)

(** A history in which processes come one at a time and storage is cleared between them;
    whether a process is left. *)
Fixpoint history_ok (running : bool) (trace : list RollupEvent) : option bool :=
  match trace with
  | [] => Some running
  | EvSpawn _ :: trace => if running then None else history_ok true trace
  | EvStopped _ :: trace => if running then history_ok false trace else None
  | EvRemoved :: trace => if running then None else history_ok false trace
  end.

Lemma history_app running trace trace' :
  history_ok running (trace ++ trace') = (running' ← history_ok running trace; history_ok running' trace').
Proof.
  revert running. induction trace as [|[] trace IH]; intros []; cbn; try done; apply IH.
Qed.

(** ** Verifiers *)

Inductive VerifierOp :=
| VStop (outcome : Result (ExitStatus * bool) ProcError)
| VReset (removed : Result unit string)
| VStart (spawned : Result Z string) (ready : Result unit ProcError)
| VRestart (outcome : Result (ExitStatus * bool) ProcError) (spawned : Result Z string) (ready connected : Result unit ProcError)
| VFinish (outcome : Result (ExitStatus * bool) ProcError) (removed : Result unit string).

Definition verifier_op (op : VerifierOp) (v : Verifier) : Verifier :=
  match op with
  | VStop outcome => (verifier_stop outcome v).2
  | VReset removed => (reset_storage removed v).2
  | VStart spawned ready => (verifier_start spawned ready v).2
  | VRestart outcome spawned ready connected => (verifier_restart outcome spawned ready connected v).2
  | VFinish outcome removed => (verifier_finish outcome removed v).2
  end.

(** The history ends as the process does, and the record says so. *)
Definition verifier_ok (v : Verifier) : Prop :=
  history_ok false (vf_trace v) = Some (ow_child (vf_proc v)) /\
  rs_finished (ow_record (vf_proc v)) = negb (ow_child (vf_proc v)).

Lemma verifier_terminate_ok outcome v :
  verifier_ok v ->
  verifier_ok (verifier_terminate outcome v).2 /\
  (forall o, (verifier_terminate outcome v).1 = Ok o -> ow_child (vf_proc (verifier_terminate outcome v).2) = false).
Proof.
  intros [Hh Hf]. unfold verifier_terminate, owned_terminate. destruct (ow_child (vf_proc v)) eqn:Hc; cbn.
  - destruct outcome as [out|e]; cbn; (split; [split; cbn|]); try done; [|by rewrite Hc..].
    by rewrite history_app, Hh.
  - split; [split; cbn; by rewrite ?Hc|]. intros o _. done.
Qed.

Lemma verifier_stop_ok outcome v :
  verifier_ok v ->
  verifier_ok (verifier_stop outcome v).2 /\
  (forall s, (verifier_stop outcome v).1 = Ok s -> ow_child (vf_proc (verifier_stop outcome v).2) = false).
Proof.
  intros Hv. destruct (verifier_terminate_ok outcome v Hv) as [H1 H2]. unfold verifier_stop.
  destruct (verifier_terminate outcome v) as [[[[]|]|e] v']; cbn in *; split; try done. intros s _. by eapply H2.
Qed.

Lemma remove_storage_ok removed v :
  verifier_ok v -> ow_child (vf_proc v) = false -> verifier_ok (verifier_remove_storage removed v).2.
Proof.
  intros [Hh Hf] Hc. destruct removed; split; cbn; try done; by rewrite history_app, Hh, Hc.
Qed.

Lemma verifier_start_ok spawned ready v : verifier_ok v -> verifier_ok (verifier_start spawned ready v).2.
Proof.
  intros [Hh Hf]. unfold verifier_start. destruct (ow_child (vf_proc v)) eqn:Hc; [cbn; split; by rewrite Hc|].
  destruct spawned; cbn; [|split; by rewrite Hc]. split; cbn; [by rewrite history_app, Hh|done].
Qed.

Lemma verifier_op_ok op v : verifier_ok v -> verifier_ok (verifier_op op v).
Proof.
  intros Hv. destruct op as [outcome|removed|spawned ready|outcome spawned ready connected|outcome removed]; cbn.
  - by apply verifier_stop_ok.
  - unfold reset_storage. destruct (ow_child (vf_proc v)) eqn:Hc; [done|by apply remove_storage_ok].
  - by apply verifier_start_ok.
  - unfold verifier_restart. destruct (verifier_stop_ok outcome v Hv) as [H1 _].
    destruct (verifier_stop outcome v) as [[stop|e] v']; cbn in *; [|done].
    pose proof (verifier_start_ok spawned ready v' H1) as H2.
    by destruct (verifier_start spawned ready v') as [[]].
  - unfold verifier_finish. destruct (verifier_terminate_ok outcome v Hv) as [H1 H2].
    destruct (verifier_terminate outcome v) as [[o|e] v']; cbn in *; [|done]. apply remove_storage_ok; [done|by eapply H2].
Qed.

Lemma verifier_ops_ok ops v : verifier_ok v -> verifier_ok (foldl (fun v op => verifier_op op v) v ops).
Proof. revert v. induction ops as [|op ops IH]; intros v Hv; cbn; [done|]. by apply IH, verifier_op_ok. Qed.

(** ** Private rollups *)

Inductive PrivateOp :=
| PStop (outcome : Result (ExitStatus * bool) ProcError)
| PRestart (reset : bool) (before after : option Z) (outcome : Result (ExitStatus * bool) ProcError)
    (spawned : Result Z string) (ready : Result unit ProcError).

Definition private_op (op : PrivateOp) (p : PrivateEr) : PrivateEr :=
  match op with
  | PStop outcome => (private_stop outcome p).2
  | PRestart reset before after outcome spawned ready => (private_restart reset before after outcome spawned ready p).2
  end.

Definition private_ok (p : PrivateEr) : Prop := history_ok false (pr_trace p) = Some (ow_child (pr_proc p)).

Lemma private_terminate_ok outcome p :
  private_ok p ->
  private_ok (private_terminate outcome p).2 /\
  (forall o, (private_terminate outcome p).1 = Ok o -> ow_child (pr_proc (private_terminate outcome p).2) = false) /\
  pr_ctx_pid (private_terminate outcome p).2 = pr_ctx_pid p.
Proof.
  unfold private_ok. intros Hh. unfold private_terminate, owned_terminate. destruct (ow_child (pr_proc p)) eqn:Hc; cbn.
  - destruct outcome as [out|e]; cbn; split_and!; try done; [|by rewrite Hc]. by rewrite history_app, Hh.
  - by rewrite Hc.
Qed.

Lemma private_restart_ok reset before after outcome spawned ready p r p' :
  private_ok p -> private_restart reset before after outcome spawned ready p = (r, p') ->
  private_ok p' /\
  (if is_ok r then pr_ctx_pid p' = ow_pid (pr_proc p') /\ ow_child (pr_proc p') = true /\ pr_blockhash p' = false
   else pr_ctx_pid p' = pr_ctx_pid p).
Proof.
  intros Hp. unfold private_restart. destruct (private_terminate_ok outcome p Hp) as (H1 & H2 & H3).
  destruct (private_terminate outcome p) as [[[[status needed]|]|e] p1]; cbn in *.
  2, 3: intros [= <- <-]; done.
  specialize (H2 _ eq_refl). unfold private_ok in *. destruct spawned as [pid|e]; [|intros [= <- <-]; done].
  destruct ready as [u|e]; intros [= <- <-]; cbn; rewrite history_app, H1, H2; done.
Qed.

Lemma private_ops_ok ops p : private_ok p -> private_ok (foldl (fun p op => private_op op p) p ops).
Proof.
  revert p. induction ops as [|op ops IH]; intros p Hp; cbn; [done|]. apply IH. destruct op; cbn.
  - unfold private_stop. destruct (private_terminate_ok outcome p Hp) as [H _].
    by destruct (private_terminate outcome p) as [[[]|]].
  - destruct (private_restart reset before after outcome spawned ready p) as [r p'] eqn:E. by eapply private_restart_ok in E as [? _].
Qed.

(** C34: Through any sequence of stops, starts, restarts, resets and finishes, whichever of their steps
    fail, a rollup has one process at a time and its storage is removed only while it has none; a
    restarted rollup's context follows the new process exactly when the restart succeeds. *)
Theorem storage_is_removed_when_stopped vops pops v p reset before after outcome spawned ready :
  verifier_ok v -> private_ok p ->
  let v' := foldl (fun v op => verifier_op op v) v vops in
  let p' := foldl (fun p op => private_op op p) p pops in
  history_ok false (vf_trace v') = Some (ow_child (vf_proc v')) /\
  rs_finished (ow_record (vf_proc v')) = negb (ow_child (vf_proc v')) /\
  history_ok false (pr_trace p') = Some (ow_child (pr_proc p')) /\
  let '(r, p'') := private_restart reset before after outcome spawned ready p' in
  if is_ok r then pr_ctx_pid p'' = ow_pid (pr_proc p'') /\ ow_child (pr_proc p'') = true /\ pr_blockhash p'' = false
  else pr_ctx_pid p'' = pr_ctx_pid p'.
Proof.
  intros Hv Hp v' p'. destruct (verifier_ops_ok vops v Hv) as [H1 H2]. pose proof (private_ops_ok pops p Hp) as H3.
  split_and!; [done..|]. destruct (private_restart reset before after outcome spawned ready p') as [r p''] eqn:E.
  by eapply private_restart_ok in E as [_ ?].
Qed.

Definition sample_record : ResourceRecord :=
  register_launch 0 (mkLaunch "er" "verifier" "bin" "1" "f" "id" "now" None None 0 None None "er-1" None "log" None 7 0 None).
Definition sample_verifier : Verifier := mkVerifier (Owned_new 7 sample_record) [EvRemoved; EvSpawn 7].
Definition sample_private : PrivateEr := mkPrivate (Owned_new 7 sample_record) true 7 false [EvRemoved; EvSpawn 7].

Lemma storage_is_removed_when_stopped_witness :
  let v := foldl (fun v op => verifier_op op v) sample_verifier
    [VReset (Ok tt); VStop (Ok (ExitSignal 9, true)); VReset (Ok tt); VStart (Ok 8) (Ok tt); VFinish (Err PeDidNotExit) (Ok tt)] in
  vf_trace v = [EvRemoved; EvSpawn 7; EvStopped 7; EvRemoved; EvSpawn 8] /\
  history_ok false (vf_trace v) = Some (ow_child (vf_proc v)).
Proof.
  split; [reflexivity|].
  apply (storage_is_removed_when_stopped
    [VReset (Ok tt); VStop (Ok (ExitSignal 9, true)); VReset (Ok tt); VStart (Ok 8) (Ok tt); VFinish (Err PeDidNotExit) (Ok tt)]
    [] sample_verifier sample_private false None None (Ok (ExitCode 0, false)) (Ok 9) (Ok tt)).
  - split; reflexivity.
  - reflexivity.
Defined.

(** * Launching *)

(** The processes that launching starts, in order: it goes on past a verifier that got ready. *)
Fixpoint started (envs : list VerifierEnv) : list Z :=
  match envs with
  | [] => []
  | e :: envs =>
      match ve_remove e, ve_port e, ve_spawn e with
      | Ok _, Ok _, Ok pid => pid :: if (is_ok (ve_url e) && is_ok (ve_ready e))%bool then started envs else []
      | _, _, _ => []
      end
  end.

(** Launching stops at the first environment in which something fails; the process it leaves there
    if that is the address of the metrics. *)
Definition launches (e : VerifierEnv) : bool :=
  (is_ok (ve_remove e) && is_ok (ve_port e) && is_ok (ve_spawn e) && is_ok (ve_url e) && is_ok (ve_ready e))%bool.
Definition unowned (envs : list VerifierEnv) : list Z :=
  match find_first (fun e => negb (launches e)) envs with
  | Some e =>
      match ve_remove e, ve_port e, ve_spawn e, ve_url e with
      | Ok _, Ok _, Ok pid, Err _ => [pid]
      | _, _, _, _ => []
      end
  | None => []
  end.

Lemma unowned_cons e envs :
  unowned (e :: envs) =
  if launches e then unowned envs
  else match ve_remove e, ve_port e, ve_spawn e, ve_url e with
       | Ok _, Ok _, Ok pid, Err _ => [pid]
       | _, _, _, _ => []
       end.
Proof. unfold unowned. cbn [find_first]. by destruct (launches e). Qed.

Definition pids (vs : list Verifier) : list Z := (fun v => ow_pid (vf_proc v)) <$> vs.

(** A verifier with a process of its own. *)
Definition launched (v : Verifier) : Prop := verifier_ok v /\ ow_child (vf_proc v) = true.

Section launching.
Context (base : LaunchBase) (now : Z) (upstream label : string).

(** A process is recorded under its label, role, identity and pid, with the storage of its label. *)
Definition recorded_as (name role identity : string) (o : Owned) : Prop :=
  let record := rs_launch (ow_record o) in
  lr_label record = name /\ lr_role record = role /\ lr_identity record = identity /\ lr_pid record = ow_pid o /\
  lr_storage_dir record = er_dir base name.

Definition recorded (index : nat) (identity : string) (v : Verifier) : Prop :=
  recorded_as (verifier_label label index) "verifier" identity (vf_proc v).

Lemma launch_verifiers_spec index envs vs r vs' :
  launch_verifiers base now upstream label index envs vs = (r, vs') ->
  exists more, vs' = vs ++ more /\ pids more ++ unowned envs.*2 = started envs.*2 /\ Forall launched more /\
    (is_ok r = true -> unowned envs.*2 = [] /\ Forall2 (fun x v => recorded x.1 x.2 v) (zip (seq index (length envs)) envs.*1) more).
Proof.
  revert index vs. induction envs as [|[identity e] envs IH]; intros index vs; cbn [launch_verifiers].
  { intros [= <- <-]. exists []. rewrite app_nil_r. split_and!; try done; constructor. }
  rewrite !fmap_cons. cbn [fst snd started]. rewrite unowned_cons. unfold launches.
  assert (Hstop : forall m l l', l = l' -> (Err m, vs) = (r, vs') -> exists more, vs' = vs ++ more /\ pids more ++ l = l' /\
    Forall launched more /\ (is_ok r = true -> l = [] /\
      Forall2 (fun x v => recorded x.1 x.2 v) (zip (seq index (length ((identity, e) :: envs))) (identity :: envs.*1)) more)).
  { intros m l l' <- [= <- <-]. exists []. rewrite app_nil_r. split_and!; try done. }
  destruct (ve_remove e); [|by apply Hstop]. destruct (ve_port e) as [port|]; [|by apply Hstop].
  destruct (ve_spawn e) as [pid|] eqn:Hs; [|by apply Hstop]. destruct (ve_url e) as [[]|]; [|by apply Hstop]. clear Hstop.
  set (v := mkVerifier (Owned_new pid _) _). assert (Hv : launched v) by by repeat split.
  destruct (ve_ready e) as [[]|m] eqn:Hr; cbn [is_ok andb negb].
  - intros (more & -> & Hp & Hok & Hall)%IH. exists (v :: more).
    split_and!; [by rewrite <- app_assoc|unfold pids in *; by rewrite fmap_cons, <- Hp|by constructor|].
    intros Hrok. destruct (Hall Hrok) as [Hu Hall']. split; [done|]. cbn. constructor; [by split_and!|done].
  - intros [= <- <-]. exists [v]. split_and!; [done|done|by constructor|done].
Qed.

Lemma dropped_all vs : Forall launched vs -> dropped vs = pids vs.
Proof.
  induction 1 as [|v vs [_ Hc] _ IH]; [done|]. unfold dropped in *. cbn. unfold owned_drop at 1. rewrite Hc. cbn. by rewrite IH.
Qed.

Lemma identities_failed envs err :
  collect_results (fun e => lift_err ReStack (ve_identity e)) envs = Err err ->
  forallb (fun e => is_ok (ve_identity e)) envs = false.
Proof.
  revert err. induction envs as [|x l IH]; intros err; cbn; [done|].
  destruct (ve_identity x); cbn; [|done]. destruct (collect_results _ l); cbn; [done|]. intros _. by eapply IH.
Qed.

(** A private rollup, or what became of its process. *)
Lemma launch_spec followers e :
  match launch base now label followers e with
  | (Ok p, killed) => killed = [] /\ private_ok p /\ le_spawn e = Ok (ow_pid (pr_proc p)) /\ pr_ctx_pid p = ow_pid (pr_proc p) /\
      ow_child (pr_proc p) = true /\
      let record := rs_launch (ow_record (pr_proc p)) in
      recorded_as label (if (followers =? 0)%nat then "private-er" else "leader") (lr_identity record) (pr_proc p) /\
      le_identity e = Ok (lr_identity record) /\
      exists rpc ws metrics replication, le_ports e = Ok (rpc, ws, metrics, replication) /\ lr_rpc_port record = Some rpc /\
        lr_ws_port record = Some ws /\ lr_metrics_port record = metrics /\ lr_replication_port record = Some replication
  | (Err _, killed) =>
      killed = if (is_ok (le_dir e) && is_ok (le_bin e) && is_ok (le_identity e) && is_ok (le_funded e) && is_ok (le_ports e)
                   && is_ok (le_remove e) && is_ok (le_endpoints e) && is_ok (le_params e))%bool
               then match le_spawn e with Ok pid => [pid] | Err _ => [] end else []
  end.
Proof.
  unfold launch, prepare_launch.
  destruct (le_dir e), (le_bin e), (le_identity e) as [id|], (le_funded e), (le_ports e) as [[[[rpc ws] metrics] replication]|],
    (le_remove e), (le_endpoints e), (le_params e), (le_spawn e); cbn; try done.
  destruct (await_launch e); cbn; [|done]. split_and!; try done. eauto 10.
Qed.

(** C33: A launch that fails leaves no process that has an owner: of a replicated topology every
    verifier that was started is killed, but one whose metrics address does not parse, whatever else
    fails; when it succeeds every verifier has its process, and is recorded with its identity and a
    label of its own, and none is killed.  A private rollup that fails is killed, whatever fails; when
    it succeeds it is recorded with its label, role, identity and ports. *)
Theorem failed_launch_leaves_no_process bin owner snapshot envs followers e :
  let ready := (is_ok bin && forallb (fun e => is_ok (ve_identity e)) envs && owner && snapshot)%bool in
  match replicated base now upstream label bin owner snapshot envs with
  | (Ok vs, killed) => killed = [] /\ pids vs = started envs /\ length vs = length envs /\ Forall launched vs /\
      exists identities, Forall2 (fun e i => ve_identity e = Ok i) envs identities /\
        Forall2 (fun x v => recorded x.1 x.2 v) (zip (seq 0 (length envs)) identities) vs
  | (Err _, killed) => if ready then killed ++ unowned envs = started envs else killed = []
  end /\
  match launch base now label followers e with
  | (Ok p, killed) => killed = [] /\ private_ok p /\ le_spawn e = Ok (ow_pid (pr_proc p)) /\ pr_ctx_pid p = ow_pid (pr_proc p) /\
      ow_child (pr_proc p) = true /\
      let record := rs_launch (ow_record (pr_proc p)) in
      recorded_as label (if (followers =? 0)%nat then "private-er" else "leader") (lr_identity record) (pr_proc p) /\
      le_identity e = Ok (lr_identity record) /\
      exists rpc ws metrics replication, le_ports e = Ok (rpc, ws, metrics, replication) /\ lr_rpc_port record = Some rpc /\
        lr_ws_port record = Some ws /\ lr_metrics_port record = metrics /\ lr_replication_port record = Some replication
  | (Err _, killed) =>
      killed = if (is_ok (le_dir e) && is_ok (le_bin e) && is_ok (le_identity e) && is_ok (le_funded e) && is_ok (le_ports e)
                   && is_ok (le_remove e) && is_ok (le_endpoints e) && is_ok (le_params e))%bool
               then match le_spawn e with Ok pid => [pid] | Err _ => [] end else []
  end.
Proof.
  intros ready. split; [|by apply launch_spec].
  unfold replicated.
  destruct (length envs =? 0)%nat eqn:Hn; [apply Nat.eqb_eq, nil_length_inv in Hn; subst envs; by case ready|].
  destruct bin as [path|b]; [|done]. cbn in ready.
  destruct (collect_results _ envs) as [ids|err] eqn:Hc.
  2: { subst ready. by rewrite (identities_failed _ _ Hc). }
  apply collect_results_Ok in Hc. assert (Hid : Forall2 (fun e i => ve_identity e = Ok i) envs ids).
  { eapply Forall2_impl; [exact Hc|]. intros x i. cbn. destruct (ve_identity x); cbn; congruence. }
  assert (Hall : forallb (fun e => is_ok (ve_identity e)) envs = true).
  { clear -Hid. induction Hid as [|x i l k Hx _ IH]; cbn; [done|]. by rewrite Hx. }
  subst ready. rewrite Hall. destruct owner; [|done]. destruct snapshot; [|done]. cbn.
  pose proof (Forall2_length _ _ _ Hid) as Hlen.
  destruct (launch_verifiers _ _ _ _ _ _ _) as [[u|m] vs] eqn:El;
    apply launch_verifiers_spec in El as (more & -> & Hp & Hl & Hrec); cbn [app];
    rewrite snd_zip in Hp by lia.
  - rewrite fst_zip, snd_zip, length_zip in Hrec by lia.
    replace (Nat.min (length ids) (length envs)) with (length envs) in Hrec by lia.
    destruct (Hrec eq_refl) as [Hu Hr]. rewrite Hu, app_nil_r in Hp. split_and!; [done|done| |done|eauto].
    apply Forall2_length in Hr. rewrite length_zip, length_seq in Hr. lia.
  - by rewrite dropped_all.
Qed.
End launching.

(** * Finishing *)

(** Finishing a topology finishes every verifier whatever happens to the others, returns the first
    error, and leaves no process: one that could not be stopped is killed when it is dropped. *)
Theorem finish_reaches_every_verifier answers vs :
  length answers = length vs ->
  let '(r, vs', killed) := topology_finish answers vs in
  Forall2 (fun x v' => v' = (verifier_finish x.1.1 x.1.2 x.2).2) (zip answers vs) vs' /\
  r = match omap (fun x => match (verifier_finish x.1.1 x.1.2 x.2).1 with Err e => Some e | Ok _ => None end) (zip answers vs) with
      | [] => Ok tt
      | e :: _ => Err e
      end /\
  killed = (fun v => ow_pid (vf_proc v)) <$> filter (fun v => ow_child (vf_proc v) = true) vs'.
Proof.
  intros Hlen. unfold topology_finish.
  assert (H : forall first, let '(fe, vs') := finish_all answers vs first in
    Forall2 (fun x v' => v' = (verifier_finish x.1.1 x.1.2 x.2).2) (zip answers vs) vs' /\
    fe = match first with
         | Some e => Some e
         | None => head (omap (fun x => match (verifier_finish x.1.1 x.1.2 x.2).1 with Err e => Some e | Ok _ => None end) (zip answers vs))
         end).
  { revert vs Hlen. induction answers as [|[o rm] answers IH]; intros [|v vs] Hlen first; try done; [by destruct first|].
    cbn [finish_all zip]. destruct (verifier_finish o rm v) as [r v'] eqn:Ev.
    specialize (IH vs ltac:(cbn in Hlen; lia) (match r, first with Err e, None => Some e | _, _ => first end)).
    destruct (finish_all answers vs _) as [fe vs']. destruct IH as [H1 H2]. split.
    - constructor; [cbn [fst snd]; by rewrite Ev|done].
    - rewrite H2. cbn [omap list_omap fst snd]. rewrite Ev. by destruct r, first. }
  specialize (H None). destruct (finish_all answers vs None) as [fe vs']. destruct H as [H1 ->]. split_and!; [done| |].
  - by destruct (omap _ (zip answers vs)).
  - clear. induction vs' as [|v vs' IH]; [done|]. cbn [omap list_omap]. rewrite filter_cons. unfold owned_drop at 1.
    destruct (ow_child (vf_proc v)); cbn; by rewrite IH.
Qed.

Lemma finish_reaches_every_verifier_witness :
  topology_finish [(Err PeDidNotExit, Ok tt); (Ok (ExitCode 0, false), Err "busy")] [sample_verifier; sample_verifier]
    = (Err (ReProc PeDidNotExit),
       [sample_verifier; (verifier_finish (Ok (ExitCode 0, false)) (Err "busy") sample_verifier).2], [7]) /\
  [7] = (fun v => ow_pid (vf_proc v)) <$> filter (fun v => ow_child (vf_proc v) = true)
          [sample_verifier; (verifier_finish (Ok (ExitCode 0, false)) (Err "busy") sample_verifier).2].
Proof.
  split; [vm_compute; reflexivity|].
  exact (proj2 (proj2 (finish_reaches_every_verifier
    [(Err PeDidNotExit, Ok tt); (Ok (ExitCode 0, false), Err "busy")] [sample_verifier; sample_verifier] eq_refl))).
Defined.

(** * Binaries *)

(** The first directory of PATH that has the binary. *)
Lemma which_spec e bin path :
  which e bin = Some path <->
  exists before dir after, env_path e = Some (before ++ dir :: after) /\ path = dir ++ [bin] /\
    env_is_file e path = true /\ Forall (fun d => env_is_file e (d ++ [bin]) = false) before.
Proof.
  unfold which. destruct (env_path e) as [dirs|]; cbn; [|split; [done|naive_solver]]. split.
  - induction dirs as [|d dirs IH]; cbn; [done|]. destruct (env_is_file e (d ++ [bin])) eqn:Hf.
    + intros [= <-]. exists [], d, dirs. split_and!; done.
    + intros (before & dir & after & [= ->] & H1 & H2 & H3)%IH. exists (d :: before), dir, after. split_and!; [done|done|done|by constructor].
  - intros (before & dir & after & [= ->] & -> & Hf & Hb). induction Hb as [|d before Hd _ IH]; cbn; [by rewrite Hf|by rewrite Hd].
Qed.

(** The verifier's binary: an explicit one wins and must exist, then the one beside the rollup's
    binary, then PATH. *)
Theorem verifier_bin_precedence e :
  find_verifier_bin e =
  match env_var e VERIFIER_BIN_ENV with
  | Some path => if env_exists e path then Ok path else Err (NotThere VERIFIER_BIN_ENV path)
  | None =>
      match sibling_verifier e with
      | Some sibling => Ok sibling
      | None => match which e VERIFIER_BIN with Some path => Ok path | None => Err (NotFound VERIFIER_BIN) end
      end
  end.
Proof.
  unfold find_verifier_bin, explicit_bin. destruct (env_var e VERIFIER_BIN_ENV) as [path|]; cbn; [by destruct (env_exists e path)|].
  by destruct (sibling_verifier e), (which e VERIFIER_BIN).
Qed.

(** A sibling lies in the directory of the rollup's binary. *)
Lemma sibling_verifier_spec e path :
  sibling_verifier e = Some path -> env_is_file e path = true /\
  exists dir name, er_bin_path e = Ok (dir ++ [name]) /\ path = dir ++ [VERIFIER_BIN].
Proof.
  unfold sibling_verifier. destruct (er_bin_path e) as [er|]; [|done].
  destruct (parent er) as [dir|] eqn:Hp; cbn; [|done]. destruct (env_is_file e _) eqn:Hf; [|done].
  intros [= <-]. split; [done|]. unfold parent in Hp. destruct er as [|c er]; [done|]. injection Hp as <-.
  exists (removelast (c :: er)), (List.last (c :: er) EmptyString). split; [|done]. f_equal. by apply app_removelast_last.
Qed.

(** A rollup sees no variable that would override its configuration, and always a log level. *)
Theorem plan_env_spec vars name value :
  (name, value) ∈ plan_env vars <->
  starts_with "MBV_" name = false /\
  ((name, value) ∈ vars \/ (name, value) = ("RUST_LOG", "info") /\ forall v, ("RUST_LOG", v) ∉ vars).
Proof.
  unfold plan_env. destruct (existsb _ vars) eqn:Hx.
  - rewrite list_elem_of_filter. cbn. split; [naive_solver|]. intros [Hs [H|[[= -> ->] Hn]]]; [done|].
    apply existsb_exists in Hx as ([n v] & Hin%list_elem_of_In & Hn'%String.eqb_eq). cbn in Hn'. subst. by destruct (Hn v).
  - rewrite elem_of_app, list_elem_of_filter, list_elem_of_singleton. cbn.
    assert (Hn : forall v, ("RUST_LOG", v) ∉ vars).
    { intros v Hin%list_elem_of_In. apply Bool.not_true_iff_false in Hx. apply Hx, existsb_exists. exists ("RUST_LOG", v). done. }
    split; [|naive_solver]. intros [[? ?]|[= -> ->]]; [naive_solver|]. split; [vm_compute; done|]. right. done.
Qed.

(** * Snapshots and streams *)

(** A snapshot is found exactly if some superblock has one before the listing fails. *)
Theorem has_snapshot_spec entries :
  match has_snapshot entries with
  | Ok true => exists name, Ok (name, true) ∈ entries /\ starts_with "superblock-" name = true
  | Ok false => forall name, Ok (name, true) ∈ entries -> starts_with "superblock-" name = false
  | Err e => Err e ∈ entries
  end.
Proof.
  induction entries as [|[[name archive]|e] entries IH]; cbn; [intros ? H; by apply not_elem_of_nil in H| |by left].
  destruct (starts_with "superblock-" name && archive)%bool eqn:Hx.
  - apply andb_prop in Hx as [Hs ->]. exists name. split; [by left|done].
  - destruct (has_snapshot entries) as [[]|].
    + destruct IH as (n & ? & ?). exists n. split; [by right|done].
    + intros n [[= <- <-]|Hin]%elem_of_cons; [|by apply IH]. by rewrite andb_true_r in Hx.
    + by right.
Qed.

(** Waiting for the streams: an outcome is reached once the leader reports enough connections or the
    deadline passes, and success means that every running verifier and the leader agreed. *)
Theorem streams_are_awaited waits running deadline polls :
  (exists c now, (c, now) ∈ polls /\ (c = None \/ deadline <= now)) ->
  match wait_verifiers_connected waits running deadline polls with
  | None => False
  | Some (Ok _) => Forall (fun w => w.1 = true -> w.2 = Ok tt) waits /\
      exists c now, (Some c, now) ∈ polls /\ f64_lt c (f64_of running) = false
  | Some (Err _) => True
  end.
Proof.
  intros (c & now & Hin & Hend). unfold wait_verifiers_connected.
  destruct (streams_connected waits) as [u|e] eqn:Hs; [|done].
  assert (Hw : Forall (fun w => w.1 = true -> w.2 = Ok tt) waits).
  { clear -Hs. revert u Hs. induction waits as [|[[] [[]|?]] waits IH]; cbn; intros u Hs; try done; constructor; cbn; try done; eauto. }
  remember (c, now) as q eqn:Hq. induction Hin as [q polls|q [c' now'] polls Hin IH]; subst q; cbn.
  - destruct c as [c|]; [|done]. destruct Hend as [|Hl]; [done|]. destruct (f64_lt c (f64_of running)) eqn:Hc.
    + by rewrite (proj2 (Z.ltb_ge _ _)).
    + split; [done|]. exists c, now. split; [by left|done].
  - destruct c' as [c'|]; [|done]. destruct (f64_lt c' (f64_of running)) eqn:Hc.
    + destruct (now' <? deadline); [|done]. destruct (leader_loop _ _ _) as [[]|]; try done.
      destruct (IH eq_refl) as [_ (x & y & ? & ?)]. split; [done|]. exists x, y. split; [by right|done].
    + split; [done|]. exists c', now'. split; [by left|done].
Qed.
