(* ===== verification/MixedLoad.v ===== *)
(** The mixed sustained load of [redline/src/scenarios/scheduler/mixed_sustained_load]: which transaction an id
    stands for, how workers hand out ids, and the oracle for the accounts they leave. *)
From S2P Require Import Prelude World Cell Instr Settlement Execute CellSpec Build Rate Runner Causal Prep.

(** * The mix *)

Definition MIX_PERIOD : Z := 20.
Definition HASH_COMPUTE_SLOTS : Z := 2.
Definition PATTERN_WRITE_SLOTS : Z := 9.
Definition ACCOUNT_SPACE : Z := 256.

Inductive Mode := HashCompute | PatternWrite | AccountSizeSum.

#[export] Instance Mode_eq_dec : EqDecision Mode.
Proof. solve_decision. Defined.

(** [mode as usize] *)
Definition Mode_index (m : Mode) : nat := match m with HashCompute => 0 | PatternWrite => 1 | AccountSizeSum => 2 end.

(** Ids start at 1. *)
Definition mode_for (id : Z) : Mode :=
  let slot := (id - 1) mod MIX_PERIOD in
  if slot <? HASH_COMPUTE_SLOTS then HashCompute
  else if slot <? HASH_COMPUTE_SLOTS + PATTERN_WRITE_SLOTS then PatternWrite
  else AccountSizeSum.

Definition lane_of (id lanes : Z) : Z := (id - 1) mod lanes.
Definition id_for (round lane lanes : Z) : Z := round * lanes + lane + 1.

Record Profile := mkProfile
  { pf_name : string; pf_payers : nat; pf_lanes : Z; pf_read_span : nat; pf_rate : Z; pf_threads : nat; pf_hash_iters : Z }.

Definition LITE : Profile := mkProfile "lite"%string 16 63 3 600 1 180.
Definition FULL : Profile := mkProfile "full"%string 48 511 4 4000 4 180.

Definition concurrency_per_thread (p : Profile) : nat := div_ceil (Z.to_nat (pf_lanes p)) (pf_threads p).

(** * Building a transaction *)

Section build.
Context `{R : Runtime, HC : HeaderCodec, C : InstructionCodec, B : BuildSdk}.
Context (redline compute_budget : Pubkey).

(** The accounts an id reads: the [read_span] lanes after its own. *)
Definition read_sources (pool : list Pubkey) (lane : Z) (read_span : nat) : option (list Pubkey) :=
  mapM (fun step => pool !! Z.to_nat ((lane + Z.of_nat step) mod Z.of_nat (length pool))) (seq 1 read_span).

(** [None] is a panic: an empty pool, or a batch of too many accounts. *)
Definition build_ixs (id : Z) (pool : list Pubkey) (read_span : nat) (hash_iters : Z) : option (list SolInstruction) :=
  let lanes := Z.of_nat (length pool) in
  if lanes =? 0 then None
  else
    let lane := lane_of id lanes in
    target ← pool !! Z.to_nat lane;
    match mode_for id with
    | PatternWrite => ix ← Program_write redline id [target]; Some [ix]
    | HashCompute =>
        ix ← Program_hash redline id HASH_INIT hash_iters [target];
        Some [compute_unit_limit compute_budget CU_LIMIT; ix]
    | AccountSizeSum =>
        sources ← read_sources pool lane read_span;
        ix ← Program_sum_sizes redline id target sources; Some [ix]
    end.

(** * The oracle *)

Inductive VerifyError := NotOnEr | WrongId | WrongFill | WrongHash | WrongSum.

(** [chunks_exact]: the whole chunks. *)
Definition chunks_exact (n : nat) (l : list Z) : list (list Z) :=
  (fun i => take n (drop (i * n) l)) <$> seq 0 (length l / n).

(** A slice of a length; out of range it panics. *)
Definition slice_at (offset len : nat) (d : list Z) : option (list Z) :=
  if (offset + len <=? length d)%nat then Some (take len (drop offset d)) else None.

(** One lane of [verify_final_state]: its account, and the last id it was given. *)
Definition verify_lane (hash_iters : Z) (read_span : nat) (account : option (list Z)) (last_id : option Z) :
  option (Result unit VerifyError) :=
  match last_id with
  | None => Some (Ok tt)
  | Some last_id =>
      match account with
      | None => Some (Err NotOnEr)
      | Some d =>
          if negb (bool_decide (CellHeader_written_id d = Some last_id)) then Some (Err WrongId)
          else
            match mode_for last_id with
            | PatternWrite =>
                rest ← slice_at layout_DATA_OFFSET (length d - layout_DATA_OFFSET) d;
                Some (if forallb (fun chunk => bool_decide (chunk = le_bytes 8 last_id)) (chunks_exact layout_ID_SIZE rest)
                      then Ok tt else Err WrongFill)
            | HashCompute =>
                hash ← slice_at layout_HASH_OFFSET layout_HASH_SIZE d;
                Some (if bool_decide (hash = HashState_chain HASH_INIT hash_iters) then Ok tt else Err WrongHash)
            | AccountSizeSum =>
                sum ← slice_at layout_DATA_OFFSET 8 d;
                Some (if bool_decide (sum = le_bytes 8 (Z.of_nat read_span * ACCOUNT_SPACE)) then Ok tt else Err WrongSum)
            end
      end
  end.

Fixpoint verify_final_state (hash_iters : Z) (read_span : nat) (lanes : list (option (list Z) * option Z)) :
  option (Result unit VerifyError) :=
  match lanes with
  | [] => Some (Ok tt)
  | (account, last_id) :: lanes =>
      r ← verify_lane hash_iters read_span account last_id;
      match r with
      | Err e => Some (Err e)
      | Ok _ => verify_final_state hash_iters read_span lanes
      end
  end.

(** [read_final_state]: only lanes that were written are read. *)
Definition read_final_state (read : Pubkey -> option (list Z)) (pool : list Pubkey) (last_ids : list (option Z)) :
  list (option (list Z)) :=
  zip_with (fun pda last_id => match last_id with Some _ => read pda | None => None end) pool last_ids.
End build.

(** * Handing out ids *)

Record LaneSpan := mkSpan { sp_lo : Z; sp_len : Z }.

Definition job_id (s : LaneSpan) (job lanes : Z) : Z := id_for (job / sp_len s) (sp_lo s + job mod sp_len s) lanes.

Definition lane_spans (lanes threads : Z) : list LaneSpan :=
  (fun '(lo, len) => mkSpan lo len) <$> split_iterations lanes (Z.max threads 1).

(** How many of [admitted] jobs, dealt in turn to [len], the one at [offset] gets. *)
Definition turns (admitted len offset : Z) : Z := admitted / len + (if offset <? admitted mod len then 1 else 0).

(** The counts of a lane's modes, by the rounds of a period. *)
Definition count_lane (lane lanes rounds : Z) (counts : list Z) : list Z :=
  fold_left (fun counts round => alter (Z.add (turns rounds MIX_PERIOD round)) (Mode_index (mode_for (id_for round lane lanes))) counts)
    (seqZ 0 MIX_PERIOD) counts.

Record Summary := mkSummary { su_last_ids : list (option Z); su_counts : list Z }.

Definition summarize_lane (lanes admitted : Z) (s : LaneSpan) (acc : Summary) (offset : Z) : Summary :=
  let lane := sp_lo s + offset in
  let rounds := turns admitted (sp_len s) offset in
  mkSummary
    (if 0 <? rounds then <[Z.to_nat lane := Some (id_for (rounds - 1) lane lanes)]> (su_last_ids acc) else su_last_ids acc)
    (count_lane lane lanes rounds (su_counts acc)).

Definition summarize_span (lanes : Z) (acc : Summary) (outcome : LaneSpan * Z) : Summary :=
  let '(s, admitted) := outcome in fold_left (summarize_lane lanes admitted s) (seqZ 0 (sp_len s)) acc.

(** [summarize], on each worker's span and how many requests it admitted; the outcomes themselves are
    merged by [merge_outcomes]. *)
Definition summarize (lanes : Z) (outcomes : list (LaneSpan * Z)) : Summary :=
  fold_left (summarize_span lanes) outcomes (mkSummary (replicate (Z.to_nat lanes) None) [0; 0; 0]).
