(* ===== verification/MixedLoadProps.v ===== *)
(** The mixed load: the summary is the admitted ids, the mix is even when lanes and period are
    coprime, and the oracle accepts what the program leaves. *)
From S2P Require Import Prelude World Cell Instr Settlement RefCodec SettlementFacts Execute CellSpec Build BuildSpec Fixture FixtureProps Rate Runner RunnerFacts Causal Upgrade Prep MixedLoad.

(** * Counting by residues *)

Lemma turns_nonneg n m q : 0 <= n -> 0 < m -> 0 <= turns n m q.
Proof. intros Hn Hm. unfold turns. pose proof (Z.div_pos n m Hn Hm). case_match; lia. Qed.

(** The numbers below [n], by their residues. *)
Lemma residue_classes n m :
  0 <= n -> 0 < m ->
  seqZ 0 n ≡ₚ (seqZ 0 m ≫= fun q => (fun t => t * m + q) <$> seqZ 0 (turns n m q)).
Proof.
  intros Hn Hm. pose proof (Z.div_mod n m ltac:(lia)) as Hdm. pose proof (Z.mod_pos_bound n m Hm) as Hb.
  apply NoDup_Permutation; [apply NoDup_seqZ| |].
  - apply NoDup_bind; [|intros q _; apply NoDup_fmap_2_strong; [nia|apply NoDup_seqZ]|apply NoDup_seqZ].
    intros q1 q2 x Hq1%elem_of_seqZ Hq2%elem_of_seqZ (t1 & -> & _)%list_elem_of_fmap (t2 & E & _)%list_elem_of_fmap.
    assert (t1 = t2) by nia. subst. lia.
  - intros x. rewrite list_elem_of_bind, elem_of_seqZ. unfold turns. split.
    + intros Hx. exists (x mod m). pose proof (Z.div_mod x m ltac:(lia)). pose proof (Z.mod_pos_bound x m Hm).
      split; [|apply elem_of_seqZ; lia]. apply list_elem_of_fmap. exists (x / m). split; [lia|]. apply elem_of_seqZ.
      case (Z.ltb_spec (x mod m) (n mod m)); nia.
    + intros (q & (t & -> & Ht%elem_of_seqZ)%list_elem_of_fmap & Hq%elem_of_seqZ). revert Ht.
      case (Z.ltb_spec q (n mod m)); nia.
Qed.

Lemma fmap_bind {A B C} (f : B -> C) (g : A -> list B) l : f <$> (l ≫= g) = l ≫= fun x => f <$> g x.
Proof. induction l as [|x l IH]; [done|]. cbn [mbind list_bind]. by rewrite fmap_app, IH. Qed.

Definition count_mode (m : Mode) (ids : list Z) : Z := Z.of_nat (length (filter (fun id => mode_for id = m) ids)).

Lemma count_mode_perm m ids ids' : ids ≡ₚ ids' -> count_mode m ids = count_mode m ids'.
Proof. intros H. unfold count_mode. by rewrite H. Qed.

Lemma count_mode_app m ids ids' : count_mode m (ids ++ ids') = count_mode m ids + count_mode m ids'.
Proof. unfold count_mode. rewrite filter_app, length_app. lia. Qed.

Lemma count_mode_bind {A} m (f : A -> list Z) l : count_mode m (l ≫= f) = sum_Z ((fun x => count_mode m (f x)) <$> l).
Proof. induction l as [|x l IH]; [done|]. cbn [mbind list_bind]. rewrite count_mode_app, fmap_cons. cbn. by f_equal. Qed.

(** A round and the same round of a later period stand for the same mode. *)
Lemma mode_periodic t q lane lanes : mode_for (id_for (t * MIX_PERIOD + q) lane lanes) = mode_for (id_for q lane lanes).
Proof.
  unfold mode_for, id_for. replace ((t * MIX_PERIOD + q) * lanes + lane + 1 - 1) with (q * lanes + lane + 1 - 1 + t * lanes * MIX_PERIOD) by lia.
  by rewrite Z_mod_plus_full.
Qed.

Lemma count_constant m (f : Z -> Z) m' n :
  0 <= n -> (forall t, mode_for (f t) = m') -> count_mode m (f <$> seqZ 0 n) = if decide (m' = m) then n else 0.
Proof.
  intros Hn Hf. unfold count_mode. assert (H : forall l, length (filter (fun id => mode_for id = m) (f <$> l)) = if decide (m' = m) then length l else 0%nat).
  { induction l as [|x l IH]; [by destruct (decide _)|]. rewrite fmap_cons, filter_cons, Hf.
    destruct (decide (m' = m)); cbn; by rewrite IH. }
  rewrite H, length_seqZ. destruct (decide _); lia.
Qed.

(** The modes of the first rounds of a lane. *)
Lemma count_rounds m lane lanes rounds :
  0 <= rounds ->
  count_mode m ((fun r => id_for r lane lanes) <$> seqZ 0 rounds) =
  sum_Z ((fun q => if decide (mode_for (id_for q lane lanes) = m) then turns rounds MIX_PERIOD q else 0) <$> seqZ 0 MIX_PERIOD).
Proof.
  intros Hr. rewrite (count_mode_perm _ _ (seqZ 0 MIX_PERIOD ≫= fun q =>
    (fun t => id_for (t * MIX_PERIOD + q) lane lanes) <$> seqZ 0 (turns rounds MIX_PERIOD q))).
  - rewrite count_mode_bind. f_equal. apply list_fmap_ext. intros _ q _.
    apply count_constant; [by apply turns_nonneg|]. intros t. apply mode_periodic.
  - rewrite (residue_classes rounds MIX_PERIOD) at 1 by done. rewrite fmap_bind. apply reflexive_eq, list_bind_ext; [|done].
    intros q. by rewrite <- list_fmap_compose.
Qed.

Lemma Mode_index_inj m m' : Mode_index m = Mode_index m' -> m = m'.
Proof. by destruct m, m'. Qed.

Lemma count_lane_spec m lane lanes rounds counts c :
  0 <= rounds -> counts !! Mode_index m = Some c ->
  count_lane lane lanes rounds counts !! Mode_index m = Some (c + count_mode m ((fun r => id_for r lane lanes) <$> seqZ 0 rounds)).
Proof.
  intros Hr Hc. rewrite count_rounds by done. unfold count_lane. revert counts c Hc.
  induction (seqZ 0 MIX_PERIOD) as [|q qs IH]; intros counts c Hc; cbn [fold_left]; [cbn; by rewrite Z.add_0_r|].
  rewrite fmap_cons. cbn [sum_Z foldr]. destruct (decide (mode_for (id_for q lane lanes) = m)) as [<-|Hne].
  - erewrite IH; [f_equal|by rewrite list_lookup_alter_eq, Hc]. unfold sum_Z. lia.
  - erewrite IH; [done|]. by rewrite list_lookup_alter_ne by (intros ?%Mode_index_inj; done).
Qed.

(** * Spans *)

(** The ids a worker has admitted, in the order it made them. *)
Definition span_ids (lanes : Z) (outcome : LaneSpan * Z) : list Z :=
  (fun j => job_id outcome.1 j lanes) <$> seqZ 0 outcome.2.

Definition span_wf (lanes : Z) (s : LaneSpan) : Prop := 0 <= sp_lo s /\ 0 < sp_len s /\ sp_lo s + sp_len s <= lanes.

Lemma lane_of_id round lane lanes : 0 <= lane < lanes -> lane_of (id_for round lane lanes) lanes = lane.
Proof.
  intros Hl. unfold lane_of, id_for. replace (round * lanes + lane + 1 - 1) with (lane + round * lanes) by lia.
  rewrite Z_mod_plus_full. by apply Z.mod_small.
Qed.

Lemma span_ids_by_lane lanes s admitted :
  span_wf lanes s -> 0 <= admitted ->
  span_ids lanes (s, admitted) ≡ₚ
  (seqZ 0 (sp_len s) ≫= fun q => (fun r => id_for r (sp_lo s + q) lanes) <$> seqZ 0 (turns admitted (sp_len s) q)).
Proof.
  intros (Hlo & Hlen & Hhi) Ha. unfold span_ids. cbn [fst snd]. rewrite (residue_classes admitted (sp_len s)) at 1 by done.
  rewrite fmap_bind. apply reflexive_eq, Forall_bind_ext, Forall_forall. intros q Hq%elem_of_seqZ.
  rewrite <- list_fmap_compose. apply list_fmap_ext. intros _ t _. cbn. unfold job_id.
  replace (t * sp_len s + q) with (q + t * sp_len s) by lia.
  rewrite Z_div_plus_full, Z_mod_plus_full, Z.div_small, Z.mod_small by lia. done.
Qed.

(** The ids of a lane in a worker's share are its first rounds. *)
Lemma span_ids_of_lane lanes s admitted lane id :
  span_wf lanes s -> 0 <= admitted -> 0 <= lane < lanes ->
  id ∈ span_ids lanes (s, admitted) /\ lane_of id lanes = lane <->
  sp_lo s <= lane < sp_lo s + sp_len s /\ exists r, 0 <= r < turns admitted (sp_len s) (lane - sp_lo s) /\ id = id_for r lane lanes.
Proof.
  intros Hs Ha Hl. pose proof Hs as (Hlo & Hlen & Hhi). rewrite span_ids_by_lane, list_elem_of_bind by done. split.
  - intros [(q & (r & -> & Hr%elem_of_seqZ)%list_elem_of_fmap & Hq%elem_of_seqZ) Hlane].
    rewrite lane_of_id in Hlane by lia. subst lane. split; [lia|]. exists r.
    replace (sp_lo s + q - sp_lo s) with q by lia. split; [lia|done].
  - intros [Hin (r & Hr & ->)]. rewrite lane_of_id by done. split; [|done]. exists (lane - sp_lo s). split; [|apply elem_of_seqZ; lia].
    apply list_elem_of_fmap. exists r. split; [f_equal; lia|apply elem_of_seqZ; lia].
Qed.

(** ** One span *)

Definition lanes_of (s : LaneSpan) : list Z := seqZ (sp_lo s) (sp_len s).

Lemma summarize_lanes_spec lanes admitted s offsets acc :
  span_wf lanes s -> 0 <= admitted -> NoDup offsets -> (forall q, q ∈ offsets -> 0 <= q < sp_len s) ->
  length (su_last_ids acc) = Z.to_nat lanes ->
  let acc' := fold_left (summarize_lane lanes admitted s) offsets acc in
  length (su_last_ids acc') = Z.to_nat lanes /\
  (forall lane, 0 <= lane < lanes -> su_last_ids acc' !! Z.to_nat lane =
     if decide (lane - sp_lo s ∈ offsets /\ 0 < turns admitted (sp_len s) (lane - sp_lo s))
     then Some (Some (id_for (turns admitted (sp_len s) (lane - sp_lo s) - 1) lane lanes)) else su_last_ids acc !! Z.to_nat lane) /\
  (forall m c, su_counts acc !! Mode_index m = Some c -> su_counts acc' !! Mode_index m =
     Some (c + count_mode m (offsets ≫= fun q => (fun r => id_for r (sp_lo s + q) lanes) <$> seqZ 0 (turns admitted (sp_len s) q)))).
Proof.
  intros (Hlo & Hlen & Hhi) Ha Hnd. revert acc. induction Hnd as [|q offsets Hq Hnd IH]; intros acc Hin Hacc; cbn [fold_left].
  - split_and!; [done|intros lane _; rewrite decide_False by (intros [H _]; by apply not_elem_of_nil in H); done|].
    intros m c Hc. rewrite Hc. cbn. by rewrite Z.add_0_r.
  - pose proof (Hin q ltac:(by left)) as Hqb. pose proof (turns_nonneg admitted (sp_len s) q Ha Hlen) as Ht.
    destruct (IH (summarize_lane lanes admitted s acc q)) as (H1 & H2 & H3).
    { intros x Hx. apply Hin. by right. }
    { cbn. case_match; by rewrite ?length_insert. }
    split_and!; [done| |].
    + intros lane Hl. rewrite H2 by done. cbn [summarize_lane su_last_ids]. destruct (decide (lane = sp_lo s + q)) as [->|Hne].
      * replace (sp_lo s + q - sp_lo s) with q by lia. rewrite decide_False by tauto. case (Z.ltb_spec 0 (turns admitted (sp_len s) q)) as [Hpos|Hz].
        -- rewrite decide_True by (split; [by left|done]). rewrite list_lookup_insert_eq; [done|]. rewrite Hacc. lia.
        -- by rewrite decide_False by lia.
      * assert (Hiff : lane - sp_lo s ∈ q :: offsets <-> lane - sp_lo s ∈ offsets).
        { rewrite elem_of_cons. split; [intros [?|?]; [lia|done]|auto]. }
        rewrite (decide_ext (lane - sp_lo s ∈ offsets /\ 0 < turns admitted (sp_len s) (lane - sp_lo s))
          (lane - sp_lo s ∈ q :: offsets /\ 0 < turns admitted (sp_len s) (lane - sp_lo s))) by tauto.
        case_decide; [done|]. case_match; [|done]. apply list_lookup_insert_ne. lia.
    + intros m c Hc. cbn [mbind list_bind]. rewrite count_mode_app, Z.add_assoc. apply H3.
      cbn [summarize_lane su_counts]. by apply count_lane_spec.
Qed.

(** ** All spans *)

(** What the summary says of the last id of a lane. *)
Definition is_last (lanes : Z) (ids : list Z) (lane : Z) (last : option Z) : Prop :=
  match last with
  | None => forall id, id ∈ ids -> lane_of id lanes <> lane
  | Some id => id ∈ ids /\ lane_of id lanes = lane /\ forall id', id' ∈ ids -> lane_of id' lanes = lane -> id' <= id
  end.

Definition summarises (lanes : Z) (ids : list Z) (su : Summary) : Prop :=
  length (su_last_ids su) = Z.to_nat lanes /\
  (forall lane, 0 <= lane < lanes -> exists last, su_last_ids su !! Z.to_nat lane = Some last /\ is_last lanes ids lane last) /\
  (forall m, su_counts su !! Mode_index m = Some (count_mode m ids)).

Definition outcome_wf (lanes : Z) (o : LaneSpan * Z) : Prop := span_wf lanes o.1 /\ 0 <= o.2.

(** The ids of a worker are of its own lanes. *)
Lemma span_ids_lane lanes o id : outcome_wf lanes o -> id ∈ span_ids lanes o -> lane_of id lanes ∈ lanes_of o.1.
Proof.
  destruct o as [s a]. intros [Hs Ha] Hid. cbn in Hs, Ha. pose proof Hs as (Hlo & Hlen & Hhi).
  assert (Hl : 0 <= lane_of id lanes < lanes) by (apply Z.mod_pos_bound; lia).
  destruct (span_ids_of_lane lanes s a (lane_of id lanes) id Hs Ha Hl) as [H _].
  destruct (H (conj Hid eq_refl)) as [Hin _]. apply elem_of_seqZ. cbn. lia.
Qed.

Lemma id_for_mono r r' lane lanes : 0 <= lanes -> r <= r' -> id_for r lane lanes <= id_for r' lane lanes.
Proof. unfold id_for. nia. Qed.

Lemma summarize_span_step lanes ids o su :
  outcome_wf lanes o -> (forall id, id ∈ ids -> lane_of id lanes ∉ lanes_of o.1) ->
  summarises lanes ids su -> summarises lanes (ids ++ span_ids lanes o) (summarize_span lanes su o).
Proof.
  destruct o as [s a]. intros [Hs Ha] Hdis (Hlen & Hlast & Hcount). cbn [fst snd] in *. pose proof Hs as (Hlo & Hsl & Hhi).
  destruct (summarize_lanes_spec lanes a s (seqZ 0 (sp_len s)) su Hs Ha) as (H1 & H2 & H3);
    [apply NoDup_seqZ|intros q Hq%elem_of_seqZ; lia|done|].
  split_and!; [done| |].
  - intros lane Hl. cbn [summarize_span]. rewrite H2 by done. case_decide as Hd.
    + destruct Hd as [Hq%elem_of_seqZ Ht]. eexists. split; [done|]. cbn [is_last].
      destruct (span_ids_of_lane lanes s a lane (id_for (turns a (sp_len s) (lane - sp_lo s) - 1) lane lanes) Hs Ha Hl) as [_ Hmk].
      destruct Hmk as [Hin Hof]; [split; [lia|]; eexists; split; [|done]; lia|].
      split_and!; [set_solver|done|]. intros id' [Hid|Hid]%elem_of_app Hl'.
      * destruct (Hdis id' Hid). rewrite Hl'. apply elem_of_seqZ. lia.
      * destruct (span_ids_of_lane lanes s a lane id' Hs Ha Hl) as [Hget _].
        destruct (Hget (conj Hid Hl')) as (_ & r & Hr & ->). apply id_for_mono; lia.
    + destruct (Hlast lane Hl) as (last & Hlk & Hla). exists last. split; [done|].
      assert (Hnone : forall id, id ∈ span_ids lanes (s, a) -> lane_of id lanes <> lane).
      { intros id Hid Hid'. destruct (span_ids_of_lane lanes s a lane id Hs Ha Hl) as [Hget _].
        destruct (Hget (conj Hid Hid')) as (Hin & r & Hr & _). apply Hd. split; [apply elem_of_seqZ|]; lia. }
      destruct last as [id|]; cbn in *; [|set_solver].
      destruct Hla as (Hi & Ho & Hmax). split_and!; [set_solver|done|]. intros id' [Hid|Hid]%elem_of_app Hl'; [by apply Hmax|].
      by destruct (Hnone id' Hid).
  - intros m. cbn [summarize_span]. rewrite (H3 m _ (Hcount m)), count_mode_app. do 2 f_equal. symmetry.
    by apply count_mode_perm, span_ids_by_lane.
Qed.

Lemma summarize_spec lanes os :
  0 <= lanes -> Forall (outcome_wf lanes) os -> NoDup (os ≫= fun o => lanes_of o.1) ->
  summarises lanes (os ≫= span_ids lanes) (summarize lanes os).
Proof.
  intros Hlanes. induction os as [|o os IH] using rev_ind.
  - intros _ _. unfold summarize, summarises. cbn [fold_left su_last_ids su_counts]. split_and!; [by rewrite length_replicate| |by intros []].
    intros lane Hl. exists None. split; [apply lookup_replicate; split; [done|lia]|]. intros id Hid. by apply not_elem_of_nil in Hid.
  - rewrite Forall_app, Forall_singleton. intros [Hos Ho]. rewrite bind_app. intros (Hnd & Hdis & _)%NoDup_app.
    rewrite bind_app. unfold summarize. rewrite fold_left_app. cbn [fold_left mbind list_bind]. rewrite app_nil_r.
    apply summarize_span_step; [done| |by apply IH]. intros id (o' & Hid & Ho')%list_elem_of_bind Hin.
    apply (Hdis (lane_of id lanes)); [|apply list_elem_of_bind; exists o; split; [done|by left]].
    apply list_elem_of_bind. exists o'. split; [|done]. apply span_ids_lane; [|done]. by eapply Forall_forall in Hos.
Qed.

(** The workers' spans partition the lanes. *)
Lemma lane_spans_cover lanes threads :
  0 <= lanes -> (lane_spans lanes threads ≫= lanes_of) = seqZ 0 lanes /\ Forall (span_wf lanes) (lane_spans lanes threads).
Proof.
  intros Hl. destruct (split_iterations_cover lanes (Z.max threads 1)) as (Hc & Hpos & _); [done|lia|].
  assert (Hcov : (lane_spans lanes threads ≫= lanes_of) = seqZ 0 lanes).
  { change 0 with (-1 + 1) at 1. rewrite <- (fmap_add_seqZ (-1) 1 lanes), <- Hc. unfold lane_spans. clear. induction (split_iterations _ _) as [|[f c] l IH]; [done|].
    rewrite !fmap_cons. cbn [mbind list_bind concat]. rewrite fmap_app, fmap_add_seqZ, IH. unfold lanes_of. cbn [sp_lo sp_len].
    do 2 f_equal. lia. }
  split; [done|]. apply Forall_forall. intros s Hs.
  assert (Hlen : 0 < sp_len s).
  { apply list_elem_of_fmap in Hs as ([f c] & -> & Hin). by eapply Forall_forall in Hpos; [|exact Hin]. }
  assert (Hsub : forall x, x ∈ lanes_of s -> x ∈ seqZ 0 lanes) by (intros x Hx; rewrite <- Hcov; apply list_elem_of_bind; eauto).
  pose proof (Hsub (sp_lo s)) as H1. pose proof (Hsub (sp_lo s + sp_len s - 1)) as H2. unfold lanes_of in H1, H2.
  rewrite !elem_of_seqZ in H1, H2. unfold span_wf. lia.
Qed.

(** A worker makes no id twice. *)
Lemma span_ids_NoDup lanes o : outcome_wf lanes o -> NoDup (span_ids lanes o).
Proof.
  destruct o as [s a]. intros [Hs Ha]. cbn [fst snd] in *. pose proof Hs as (Hlo & Hlen & Hhi).
  rewrite span_ids_by_lane by done. apply NoDup_bind; [| |apply NoDup_seqZ].
  - intros q1 q2 id Hq1%elem_of_seqZ Hq2%elem_of_seqZ (r1 & -> & _)%list_elem_of_fmap (r2 & E & _)%list_elem_of_fmap.
    apply (f_equal (fun id => lane_of id lanes)) in E. rewrite !lane_of_id in E by lia. lia.
  - intros q Hq%elem_of_seqZ. apply NoDup_fmap_2_strong; [|apply NoDup_seqZ]. unfold id_for. nia.
Qed.

Lemma ids_NoDup lanes os :
  Forall (outcome_wf lanes) os -> NoDup (os ≫= fun o => lanes_of o.1) -> NoDup (os ≫= span_ids lanes).
Proof.
  intros Hos. induction Hos as [|o os Ho Hos IH]; [constructor|]. cbn [mbind list_bind]. intros (_ & Hdis & Hnd)%NoDup_app.
  apply NoDup_app. split_and!; [by apply span_ids_NoDup| |by apply IH]. intros id Hid (o' & Hid' & Ho')%list_elem_of_bind.
  apply (Hdis (lane_of id lanes)); [by apply span_ids_lane|]. apply list_elem_of_bind. exists o'. split; [|done].
  apply span_ids_lane; [|done]. by eapply Forall_forall in Hos.
Qed.

(** Every id has one mode. *)
Lemma count_modes_total ids :
  count_mode HashCompute ids + count_mode PatternWrite ids + count_mode AccountSizeSum ids = Z.of_nat (length ids).
Proof.
  unfold count_mode. induction ids as [|id ids IH]; [done|]. rewrite !filter_cons.
  destruct (mode_for id); cbn [decide Mode_eq_dec]; repeat case_decide; simplify_eq; cbn [length]; lia.
Qed.

Lemma length_ids lanes os : Forall (outcome_wf lanes) os -> Z.of_nat (length (os ≫= span_ids lanes)) = sum_Z os.*2.
Proof.
  intros Hos. induction Hos as [|o os [_ Ho] Hos IH]; [done|]. cbn [mbind list_bind]. rewrite length_app, fmap_cons. cbn [sum_Z foldr].
  unfold span_ids at 1. rewrite length_fmap, length_seqZ. unfold sum_Z in IH. lia.
Qed.

(** The outcomes of all workers, each with the number of requests it admitted. *)
Lemma outcomes_wf lanes threads admitted :
  0 <= lanes -> length admitted = length (lane_spans lanes threads) -> Forall (Z.le 0) admitted ->
  let outcomes := zip (lane_spans lanes threads) admitted in
  Forall (outcome_wf lanes) outcomes /\ NoDup (outcomes ≫= fun o => lanes_of o.1).
Proof.
  intros Hl Hlen Ha outcomes. destruct (lane_spans_cover lanes threads Hl) as [Hcov Hwf]. split.
  - apply Forall_forall. intros [s a] Hin. split; [eapply Forall_forall in Hwf|eapply Forall_forall in Ha]; try done;
      [by eapply elem_of_zip_l|by eapply elem_of_zip_r].
  - replace (outcomes ≫= fun o => lanes_of o.1) with (outcomes.*1 ≫= lanes_of)
      by (clear; induction outcomes as [|o os IH]; [done|]; rewrite fmap_cons; cbn; by f_equal).
    subst outcomes. rewrite fst_zip by lia. rewrite Hcov. apply NoDup_seqZ.
Qed.

(** The summary of a run is exactly what the workers admitted. Whatever number of requests
    each worker admitted, no id was made twice; for every lane the recorded last id is the greatest
    admitted id of that lane, or none if the lane was never written; and the count of each mode is the
    number of admitted ids of that mode, the counts adding up to the number of requests. *)
Theorem summary_is_the_admitted_ids lanes threads admitted :
  0 <= lanes -> length admitted = length (lane_spans lanes threads) -> Forall (Z.le 0) admitted ->
  let outcomes := zip (lane_spans lanes threads) admitted in
  let ids := outcomes ≫= span_ids lanes in
  let su := summarize lanes outcomes in
  NoDup ids /\
  (forall lane, 0 <= lane < lanes -> exists last, su_last_ids su !! Z.to_nat lane = Some last /\ is_last lanes ids lane last) /\
  (forall m, su_counts su !! Mode_index m = Some (count_mode m ids)) /\
  count_mode HashCompute ids + count_mode PatternWrite ids + count_mode AccountSizeSum ids = sum_Z admitted.
Proof.
  intros Hl Hlen Ha outcomes ids su. destruct (outcomes_wf lanes threads admitted Hl Hlen Ha) as [Hos Hnd]. fold outcomes in Hos, Hnd.
  destruct (summarize_spec lanes outcomes Hl Hos Hnd) as (_ & Hlast & Hcount).
  split_and!; [by apply ids_NoDup|done|done|]. rewrite count_modes_total. subst ids. rewrite length_ids by done.
  subst outcomes. by rewrite snd_zip by lia.
Qed.

Lemma summary_is_the_admitted_ids_witness :
  su_last_ids (summarize 5 (zip (lane_spans 5 2) [4; 3])) = [Some 6; Some 2; Some 3; Some 9; Some 5] /\
  NoDup (zip (lane_spans 5 2) [4; 3] ≫= span_ids 5).
Proof.
  split; [by vm_compute|]. refine (proj1 (summary_is_the_admitted_ids 5 2 [4; 3] _ _ _)); [lia|by vm_compute|].
  repeat constructor; lia.
Defined.

(** * The mix *)

(** An id within one period, with the same mode. *)
Definition in_period (id : Z) : Z := (id - 1) mod MIX_PERIOD + 1.

Lemma mode_in_period id : mode_for (in_period id) = mode_for id.
Proof. unfold mode_for, in_period. rewrite Z.add_simpl_r, Zmod_mod. done. Qed.

Lemma count_mode_in_period m ids : count_mode m (in_period <$> ids) = count_mode m ids.
Proof.
  unfold count_mode. f_equal. induction ids as [|id ids IH]; [done|]. rewrite fmap_cons, !filter_cons, mode_in_period.
  case_decide; cbn [length]; by rewrite IH.
Qed.

(** Any period of rounds of a lane meets every slot of the mix once. *)
Lemma period_is_permuted lanes lane r :
  Z.gcd MIX_PERIOD lanes = 1 -> in_period <$> ((fun k => id_for k lane lanes) <$> seqZ r MIX_PERIOD) ≡ₚ seqZ 1 MIX_PERIOD.
Proof.
  intros Hg. apply submseteq_length_Permutation; [|by rewrite !length_fmap, !length_seqZ]. apply NoDup_submseteq.
  - rewrite <- list_fmap_compose. apply NoDup_fmap_2_strong; [|apply NoDup_seqZ].
    intros k k' Hk%elem_of_seqZ Hk'%elem_of_seqZ E. cbn in E. unfold in_period, id_for in E.
    assert (Hm : (k * lanes + lane) mod MIX_PERIOD = (k' * lanes + lane) mod MIX_PERIOD) by (rewrite !Z.add_simpl_r in E; lia).
    assert (Hd : (MIX_PERIOD | lanes * (k - k'))).
    { apply Z.mod_divide; [done|]. replace (lanes * (k - k')) with ((k * lanes + lane) - (k' * lanes + lane)) by lia.
      rewrite Zminus_mod, Hm, Z.sub_diag. done. }
    apply Z.gauss in Hd as [t Ht]; [|done]. unfold MIX_PERIOD in *. lia.
  - intros x (id & -> & _)%list_elem_of_fmap. apply elem_of_seqZ. unfold in_period.
    pose proof (Z.mod_pos_bound (id - 1) MIX_PERIOD ltac:(done)). lia.
Qed.

(** When the number of lanes has no factor in common with the period of the mix, as in both
    profiles, every twenty successive rounds of a lane are two hashes, nine pattern writes and nine
    size sums: no lane is starved of a kind of work. *)
Theorem coprime_lanes_share_the_mix lanes lane r :
  Z.gcd MIX_PERIOD lanes = 1 ->
  let ids := (fun k => id_for k lane lanes) <$> seqZ r MIX_PERIOD in
  count_mode HashCompute ids = HASH_COMPUTE_SLOTS /\ count_mode PatternWrite ids = PATTERN_WRITE_SLOTS /\
  count_mode AccountSizeSum ids = MIX_PERIOD - HASH_COMPUTE_SLOTS - PATTERN_WRITE_SLOTS.
Proof.
  intros Hg ids. pose proof (period_is_permuted lanes lane r Hg) as Hp. fold ids in Hp.
  split_and!; rewrite <- count_mode_in_period, (count_mode_perm _ _ _ Hp); by vm_compute.
Qed.

Lemma coprime_lanes_share_the_mix_witness :
  Z.gcd MIX_PERIOD (pf_lanes LITE) = 1 /\ Z.gcd MIX_PERIOD (pf_lanes FULL) = 1 /\
  count_mode HashCompute ((fun k => id_for k 7 (pf_lanes FULL)) <$> seqZ 100 MIX_PERIOD) = 2.
Proof.
  split_and!; [by vm_compute..|]. exact (proj1 (coprime_lanes_share_the_mix (pf_lanes FULL) 7 100 eq_refl)).
Defined.

(** * The final-state check *)

(** * One transaction *)

Section oracle.
Context `{R : Runtime, !RuntimeLaws R, HC : HeaderCodec, !HeaderCodecLaws HC}.
Context `{C : InstructionCodec, !InstructionCodecLaws R C, K : IntentSdk}.
Context (redline compute_budget : Pubkey) (pool : list Pubkey) (read_span : nat) (hash_iters : Z).
Abbreviation lanes := (Z.of_nat (length pool)).

(** The instructions of an id, run on the ER; the compute budget changes no account. *)
Definition land_ix (ix : SolInstruction) : M unit := fun w =>
  if bool_decide (ix_program_id ix = redline) then process redline (infos_of (ix_accounts ix)) (ix_data ix) w else (Ok tt, w).

Definition land (id : Z) : M unit := fun w =>
  match build_ixs redline compute_budget id pool read_span hash_iters with
  | Some ixs => for_each land_ix ixs w
  | None => (Err InvalidArgument, w)
  end.

(** What the payload of a lane holds after an id. *)
Definition payload_ok (id : Z) (p : list Z) : Prop :=
  match mode_for id with
  | PatternWrite => exists p0, p = filled id 0 p0
  | HashCompute => take 32 p = HashState_chain HASH_INIT hash_iters
  | AccountSizeSum => take 8 p = le_bytes 8 (Z.of_nat read_span * ACCOUNT_SPACE)
  end.

(** A cell of the pool, with room for [n] more transactions. *)
Definition lane_ok (σ : Abs) (n : nat) (k : Pubkey) (last : option Z) : Prop :=
  exists h p, σ !! k = Some (h, p) /\ Z.of_nat (CellHeader_SIZE + length p) = ACCOUNT_SPACE /\
    revision h + 2 * Z.of_nat n <= u64_max /\
    match last with Some id => value h = id /\ payload_ok id p | None => True end.

(** The calls of an id. *)
Definition id_calls (id : Z) (t : Pubkey) (sources : list Pubkey) : list Call :=
  CSet [t] id ::
  match mode_for id with
  | PatternWrite => [CFill [t] id 0]
  | HashCompute => [CHash [t] HASH_INIT hash_iters]
  | AccountSizeSum => [CSumSizes t sources]
  end.

Lemma set_then_overwrite bytes t v σ h p :
  σ !! t = Some (h, p) -> (length bytes <= length p)%nat -> revision h + 2 <= u64_max ->
  (σ' ← effect (CSet [t] v) σ; overwrite bytes t σ') = Some (<[t := (bump (bump (with_value v h)), bytes ++ drop (length bytes) p)]> σ).
Proof.
  intros Hl Hb Hr. cbn [effect key_each].
  rewrite (abs_update_Some _ t σ h p (with_value v h) p) by (done || (simpl; lia)). cbn. unfold overwrite.
  rewrite (abs_update_Some _ t _ (bump (with_value v h)) p (bump (with_value v h)) (bytes ++ drop (length bytes) p));
    [by rewrite insert_insert_eq|by rewrite lookup_insert_eq| |simpl; lia].
  unfold overwritten. by rewrite bool_decide_eq_true_2.
Qed.

Lemma sizes_of σ n sources :
  (forall k, k ∈ sources -> exists last, lane_ok σ n k last) ->
  mapM (size_at σ) sources = Some (replicate (length sources) ACCOUNT_SPACE).
Proof.
  intros H. apply mapM_Some_2. induction sources as [|k ks IH]; cbn [length replicate]; constructor.
  - destruct (H k) as (last & h & p & Hl & Hs & _); [by left|]. unfold size_at. rewrite Hl. cbn -[CellHeader_SIZE]. by rewrite Hs.
  - apply IH. intros k' Hk'. apply H. by right.
Qed.

Lemma sum_replicate n x : sum_Z (replicate n x) = Z.of_nat n * x.
Proof. unfold sum_Z. induction n as [|n IH]; [done|]. cbn [replicate foldr]. rewrite IH. lia. Qed.

Lemma size_at_insert σ t h p h' p' k :
  σ !! t = Some (h, p) -> length p' = length p -> size_at (<[t := (h', p')]> σ) k = size_at σ k.
Proof.
  intros Hl Hp. unfold size_at. destruct (decide (k = t)) as [->|Hne].
  - rewrite lookup_insert_eq, Hl. cbn -[CellHeader_SIZE]. by rewrite Hp.
  - by rewrite lookup_insert_ne.
Qed.

(** The effect of an id on its lane. *)
Lemma id_effect σ n id t sources last :
  lane_ok σ (S n) t last -> length sources = read_span -> (forall k, k ∈ sources -> exists last, lane_ok σ (S n) k last) ->
  exists c, effects (id_calls id t sources) σ = Some (<[t := c]> σ) /\ lane_ok (<[t := c]> σ) n t (Some id).
Proof.
  intros (h & p & Hl & Hs & Hr & _) Hlen Hsrc. unfold id_calls, lane_ok, payload_ok.
  pose proof CellHeader_SIZE_eq as HS. assert (Hp : (32 <= length p)%nat) by (unfold ACCOUNT_SPACE in Hs; lia). clear HS.
  assert (Hrev : revision (bump (bump (with_value id h))) + 2 * Z.of_nat n <= u64_max) by (cbn; lia).
  destruct (mode_for id).
  - pose proof (length_HashState_chain HASH_INIT hash_iters eq_refl) as Hc.
    pose proof (set_then_overwrite (HashState_chain HASH_INIT hash_iters) t id σ h p Hl ltac:(lia) ltac:(lia)) as He.
    eexists. split; [cbn [effects effect key_each] in *; rewrite <- He; by destruct (abs_update _ t σ) as [σ1|]; cbn; [destruct (overwrite _ t σ1)|]|].
    eexists _, _. rewrite lookup_insert_eq. split_and!; [done| |done|done|by rewrite take_app_length'].
    rewrite length_app, length_drop. lia.
  - eexists. split; [apply write_effect; [done|lia]|]. eexists _, _. rewrite lookup_insert_eq. unfold written.
    split_and!; [done| |done|done|by eexists]. unfold filled. by rewrite length_imap.
  - pose proof (length_le_bytes 8 (Z.of_nat read_span * ACCOUNT_SPACE)) as Hb.
    pose proof (set_then_overwrite (le_bytes 8 (Z.of_nat read_span * ACCOUNT_SPACE)) t id σ h p Hl ltac:(lia) ltac:(lia)) as He.
    eexists. split.
    + cbn [effects effect key_each] in *. rewrite (abs_update_Some _ t σ h p (with_value id h) p) in * by (done || (simpl; lia)).
      cbn -[le_bytes overwrite] in *. rewrite (mapM_ext _ (size_at σ)) by (intros k; by eapply size_at_insert).
      rewrite (sizes_of σ (S n) sources Hsrc), Hlen. cbn -[le_bytes overwrite]. rewrite sum_replicate, He. done.
    + eexists _, _. rewrite lookup_insert_eq. split_and!; [done| |done|done|by rewrite take_app_length'].
      rewrite length_app, length_drop. lia.
Qed.

(** ** The instructions are those calls *)

Lemma batch_build_program bt pid cs : calls cs (Program_batch pid) = Some bt -> ix_program_id (Batch_build bt) = pid.
Proof. intros Hc. destruct (calls_hold cs [] _ _ (holds_batch pid) Hc) as [_ (Hp & _)]. done. Qed.

Lemma id_calls_fit id t sources :
  is_u 64 id -> is_u 32 hash_iters -> fits sources -> Forall Call_wf (id_calls id t sources) /\ fits (id_calls id t sources).
Proof.
  intros Hid Hh Hs. assert (Hset : Call_wf (CSet [t] id)) by done. unfold id_calls.
  destruct (mode_for id); (split; [|done]); constructor; try done; constructor; try done; cbn; split_and!; try done.
  by repeat constructor.
Qed.

Lemma set_Some t id :
  exists b, Batch_set [t] id (Program_batch redline) = Some b /\ (length (b_accounts b) <= 1)%nat.
Proof.
  unfold Batch_set. destruct (Batch_cells_Some [t] true (Program_batch redline)) as (i1 & b1 & H1 & L1).
  { simpl. unfold u16_bound. lia. }
  rewrite H1. cbn. eexists. split; [done|]. simpl in L1 |- *. lia.
Qed.

(** The second call of an id finds room for its accounts. *)
Lemma second_Some c b :
  (length (b_accounts b) <= 1)%nat ->
  match c with
  | CFill ks _ _ | CHash ks _ _ => (length ks <= 1)%nat
  | CSumSizes _ ks => Z.of_nat (length ks) + 2 <= u16_bound
  | _ => False
  end -> exists b', call c b = Some b'.
Proof.
  intros Hb Hc. destruct c as [| |ks ? ?|ks ? ?| | |k ks| |]; try done; cbn [call].
  1,2: unfold Batch_fill, Batch_hash; edestruct (Batch_cells_Some ks true b) as (i & b' & H & _); [unfold u16_bound; lia|rewrite H; by eexists].
  unfold Batch_sum_sizes. destruct (intern_Some [meta_new k false] b) as (i & b1 & H1 & L1); [simpl; unfold u16_bound; lia|].
  cbn [intern] in H1. destruct (Batch_account _ b) as [[j b1']|]; [|done]. cbn in H1 |- *. simplify_eq. simpl in L1.
  destruct (Batch_cells_Some ks false b1) as (js & b2 & H2 & _); [lia|]. rewrite H2. by eexists.
Qed.

Lemma build_ixs_calls id t sources :
  Z.of_nat (length sources) + 2 <= u16_bound -> pool <> [] ->
  pool !! Z.to_nat (lane_of id lanes) = Some t -> read_sources pool (lane_of id lanes) read_span = Some sources ->
  exists bt pre, calls (id_calls id t sources) (Program_batch redline) = Some bt /\
    build_ixs redline compute_budget id pool read_span hash_iters = Some (pre ++ [Batch_build bt]) /\
    Forall (fun ix => ix_program_id ix = compute_budget) pre.
Proof.
  intros Hs Hp Ht Hsrc. unfold build_ixs, id_calls. destruct (Z.eqb_spec lanes 0) as [H0|_]; [destruct pool; done|].
  rewrite Ht. cbn [mbind option_bind]. destruct (set_Some t id) as (b1 & H1 & L1). cbn [calls].
  change (call (CSet [t] id) (Program_batch redline)) with (Batch_set [t] id (Program_batch redline)).
  unfold Program_write, Batch_write, Program_hash, Program_sum_sizes. rewrite H1, Hsrc. cbn [mbind option_bind].
  destruct (mode_for id); cbn [calls].
  - destruct (second_Some (CHash [t] HASH_INIT hash_iters) b1) as (b2 & H2); [done|done|].
    rewrite H2. cbn [call] in H2. rewrite H2. eexists _, [_]. split; [done|]. split; [done|]. by constructor.
  - destruct (second_Some (CFill [t] id 0) b1) as (b2 & H2); [done|done|].
    rewrite H2. cbn [call] in H2. rewrite H2. by eexists _, [].
  - destruct (second_Some (CSumSizes t sources) b1) as (b2 & H2); [done|done|].
    rewrite H2. cbn [call] in H2. rewrite H2. by eexists _, [].
Qed.

(** ** Landing *)

(** The last id of a lane, in the order of [ids]. *)
Definition last_id (ids : list Z) (lane : Z) : option Z := last (filter (fun id => lane_of id lanes = lane) ids).

Lemma last_id_snoc ids id lane : last_id (ids ++ [id]) lane = if decide (lane_of id lanes = lane) then Some id else last_id ids lane.
Proof.
  unfold last_id. rewrite filter_app, filter_cons. cbn [filter list_filter]. case_decide; [by rewrite last_snoc|].
  by rewrite app_nil_r.
Qed.

Definition pool_ok (σ : Abs) (n : nat) (ids : list Z) : Prop :=
  forall lane k, 0 <= lane -> pool !! Z.to_nat lane = Some k -> lane_ok σ n k (last_id ids lane).

Lemma lane_ok_weaken σ n k last : lane_ok σ (S n) k last -> lane_ok σ n k last.
Proof. intros (h & p & ? & ? & ? & ?). exists h, p. split_and!; try done. lia. Qed.

Lemma lane_ok_insert_ne σ n k k' c last : k' <> k -> lane_ok σ n k last -> lane_ok (<[k' := c]> σ) n k last.
Proof. intros Hk (h & p & Hl & ?). exists h, p. by rewrite lookup_insert_ne. Qed.

Hypothesis (Hbudget : compute_budget <> redline) (Hnodup : NoDup pool) (Hpool : pool <> []).
Hypothesis (Hspan : Z.of_nat read_span + 2 <= u16_bound) (Hiters : is_u 32 hash_iters).

Lemma lanes_pos : 0 < lanes.
Proof. destruct pool; [done|]. cbn. lia. Qed.

Lemma lane_bound id : 0 <= lane_of id lanes < lanes.
Proof. apply Z.mod_pos_bound, lanes_pos. Qed.

Lemma read_sources_Some lane :
  exists sources, read_sources pool lane read_span = Some sources /\ length sources = read_span /\
    forall k, k ∈ sources -> exists i, 0 <= i /\ pool !! Z.to_nat i = Some k.
Proof.
  unfold read_sources. pose proof lanes_pos as Hl. set (at_step := fun step : nat => (lane + Z.of_nat step) mod lanes).
  destruct (mapM_is_Some_2 (fun step => pool !! Z.to_nat (at_step step)) (seq 1 read_span)) as [sources Hs].
  { apply Forall_forall. intros step _. apply lookup_lt_is_Some_2. pose proof (Z.mod_pos_bound (lane + Z.of_nat step) lanes Hl).
    subst at_step. cbn. lia. }
  exists sources. split; [exact Hs|]. split; [by rewrite <- (length_mapM _ _ _ Hs), length_seq|].
  apply mapM_Some_1 in Hs. intros k (i & Hi)%list_elem_of_lookup_1. destruct (Forall2_lookup_r _ _ _ _ _ Hs Hi) as (step & _ & Hk).
  exists (at_step step). split; [|done]. subst at_step. cbn. by apply Z.mod_pos_bound.
Qed.

Lemma land_prefix pre ix w :
  Forall (fun ix => ix_program_id ix = compute_budget) pre -> for_each land_ix (pre ++ [ix]) w = for_each land_ix [ix] w.
Proof.
  intros Hpre. revert w. induction Hpre as [|x pre Hx _ IH]; intros w; [done|]. cbn [app for_each].
  rewrite (bind_run_Ok _ _ w tt w); [by rewrite IH|]. unfold land_ix. by rewrite bool_decide_eq_false_2 by congruence.
Qed.

(** An id lands on its own lane and leaves the others alone. *)
Lemma land_reaches id w σ n ids :
  is_u 64 id -> represents σ w -> borrowed w = ∅ -> pool_ok σ (S n) ids ->
  exists σ', reaches (land id) w σ σ' /\ pool_ok σ' n (ids ++ [id]).
Proof.
  intros Hid Hr Hb Hok. pose proof (lane_bound id) as Hlb.
  destruct (lookup_lt_is_Some_2 pool (Z.to_nat (lane_of id lanes))) as [t Ht]; [lia|].
  destruct (read_sources_Some (lane_of id lanes)) as (sources & Hsrc & Hlen & Hin).
  destruct (id_effect σ n id t sources _ (Hok _ _ (proj1 Hlb) Ht) Hlen) as (c & He & Hlane).
  { intros k (i & Hi & Hk)%Hin. eexists. by apply Hok. }
  destruct (build_ixs_calls id t sources) as (bt & pre & Hc & Hix & Hpre); [by rewrite Hlen|done..|].
  assert (Hfs : fits sources) by (unfold fits; rewrite Hlen; unfold u16_bound in Hspan; lia).
  destruct (id_calls_fit id t sources Hid Hiters Hfs) as [Hwf Hfit].
  exists (<[t := c]> σ). split.
  - unfold reaches, land. rewrite Hix. rewrite land_prefix by done. cbn [for_each].
    destruct (calls_end_to_end redline _ bt (infos_of (ix_accounts (Batch_build bt))) w σ (<[t := c]> σ) Hc Hfit Hwf) as (w' & Hw & Hrest);
      [apply keys_infos_of|done..|].
    exists w'. split; [|done]. rewrite (bind_run_Ok _ _ w tt w'); [done|]. unfold land_ix.
    rewrite bool_decide_eq_true_2; [done|]. by eapply batch_build_program.
  - intros lane k Hl Hk. rewrite last_id_snoc. case_decide as Hd.
    + subst lane. rewrite Ht in Hk. by simplify_eq.
    + apply lane_ok_insert_ne; [|by apply lane_ok_weaken, Hok]. intros ->. apply Hd.
      pose proof (NoDup_lookup _ _ _ _ Hnodup Ht Hk). lia.
Qed.

Lemma land_all_reaches ids w σ done_ids :
  Forall (is_u 64) ids -> represents σ w -> borrowed w = ∅ -> pool_ok σ (length ids) done_ids ->
  exists σ', reaches (for_each land ids) w σ σ' /\ pool_ok σ' 0 (done_ids ++ ids).
Proof.
  intros Hids. revert w σ done_ids. induction Hids as [|id ids Hid _ IH]; intros w σ done_ids Hr Hb Hok.
  - exists σ. rewrite app_nil_r. split; [by apply reaches_ret|exact Hok].
  - destruct (land_reaches id w σ (length ids) done_ids) as (σ1 & (w1 & H1 & R1 & F1 & D1) & Hok1); [done..|].
    destruct (IH w1 σ1 (done_ids ++ [id])) as (σ2 & H2 & Hok2); [done|by rewrite (proj1 F1)|done|].
    exists σ2. rewrite <- app_assoc in Hok2. split; [|done]. destruct H2 as (w2 & H2 & R2 & F2 & D2). exists w2. cbn [for_each].
    split_and!; [by rewrite (bind_run_Ok _ _ _ _ _ H1)|done|by eapply framed_trans|congruence].
Qed.

(** ** The oracle *)

Lemma filled_words id p i j :
  is_u 64 id -> (j < 8)%nat -> (i * 8 + j < length p)%nat -> filled id 0 p !! (i * 8 + j)%nat = le_bytes 8 id !! j.
Proof.
  intros Hid Hj Hlt. destruct (lookup_lt_is_Some_2 p (i * 8 + j)%nat Hlt) as [x Hx]. unfold filled. rewrite list_lookup_imap, Hx. cbn [fmap option_fmap option_map].
  unfold fill_byte, fill_word, wrapping_add64, wrapping_mul64. rewrite Z.mul_0_r, Zmod_0_l, Z.add_0_r.
  replace ((i * 8 + j) mod 8)%nat with j by (rewrite Nat.add_comm, Nat.Div0.mod_add; symmetry; by apply Nat.mod_small).
  rewrite Z.mod_small by exact Hid. destruct (lookup_lt_is_Some_2 (le_bytes 8 id) j) as [y Hy]; [by rewrite length_le_bytes|]. by rewrite Hy.
Qed.

Lemma chunks_of_filled id p :
  is_u 64 id -> forallb (fun chunk => bool_decide (chunk = le_bytes 8 id)) (chunks_exact 8 (filled id 0 p)) = true.
Proof.
  intros Hid. apply forallb_forall. intros chunk Hin%list_elem_of_In. apply bool_decide_eq_true_2.
  unfold chunks_exact in Hin. apply list_elem_of_fmap in Hin as (i & -> & Hi%elem_of_seq).
  assert (Hlen : length (filled id 0 p) = length p) by apply length_imap. rewrite Hlen in Hi.
  assert (Hfit : (i * 8 + 8 <= length p)%nat) by (pose proof (Nat.div_mod_eq (length p) 8); lia).
  apply list_eq_same_length with (n := 8%nat); [apply length_le_bytes|rewrite length_take, length_drop; lia|].
  intros j x y Hj Hx Hy. rewrite lookup_take_lt, lookup_drop, filled_words in Hx by (done || lia). congruence.
Qed.

Lemma verify_lane_ok σ w n k last :
  represents σ w -> lane_ok σ n k last -> (forall id, last = Some id -> is_u 64 id) ->
  verify_lane hash_iters read_span (Some (data (account w k))) last = Some (Ok tt).
Proof.
  intros Hr (h & p & Hl & Hs & _ & Hlast) Hu. destruct last as [id|]; [|done]. destruct Hlast as [Hv Hp].
  apply Hr in Hl. apply cell_of_Some in Hl as [Hd ->]. pose proof (try_decode_size _ _ Hd) as Hsz.
  set (d := data (account w k)) in *. rewrite length_drop in Hs. unfold verify_lane, CellHeader_written_id. rewrite Hd. cbn [fmap option_fmap option_map].
  rewrite Hv, bool_decide_eq_true_2 by done. cbn [negb]. unfold payload_ok in Hp. pose proof CellHeader_SIZE_eq as HS.
  unfold slice_at, layout_HASH_OFFSET, layout_DATA_OFFSET, layout_HASH_SIZE, HashState_SIZE, layout_ID_SIZE. unfold ACCOUNT_SPACE in Hs, Hp.
  destruct (mode_for id).
  - rewrite (proj2 (Nat.leb_le _ _)) by lia. cbn [mbind option_bind]. by rewrite Hp, bool_decide_eq_true_2.
  - rewrite (proj2 (Nat.leb_le _ _)) by lia. cbn [mbind option_bind]. destruct Hp as [p0 Hp0].
    rewrite take_ge by (rewrite length_drop; lia). rewrite Hp0, chunks_of_filled by (by apply Hu). done.
  - rewrite (proj2 (Nat.leb_le _ _)) by lia. cbn [mbind option_bind]. by rewrite Hp, bool_decide_eq_true_2.
Qed.

Lemma verify_all ls :
  Forall (fun l => verify_lane hash_iters read_span l.1 l.2 = Some (Ok tt)) ls -> verify_final_state hash_iters read_span ls = Some (Ok tt).
Proof. intros H. induction H as [|[acc last] ls Hl _ IH]; [done|]. cbn in Hl |- *. by rewrite Hl. Qed.

(** The whole oracle, on the accounts it reads. *)
Lemma verify_pool_ok σ w n ids last_ids :
  represents σ w -> pool_ok σ n ids -> Forall (is_u 64) ids ->
  (forall lane, 0 <= lane < lanes -> last_ids !! Z.to_nat lane = Some (last_id ids lane)) ->
  verify_final_state hash_iters read_span
    (zip (read_final_state (fun k => Some (data (account w k))) pool last_ids) last_ids) = Some (Ok tt).
Proof.
  intros Hr Hok Hu Hlast. apply verify_all, Forall_lookup. intros i [acc last] Hi.
  apply lookup_zip_Some in Hi as [Hacc Hl]. unfold read_final_state in Hacc. apply lookup_zip_with_Some in Hacc as (k & last' & -> & Hk & Hl').
  assert (last' = last) as -> by congruence. cbn [fst snd]. destruct last as [id|]; [|done].
  pose proof (lookup_lt_Some _ _ _ Hk) as Hlt. pose proof (Hlast (Z.of_nat i) ltac:(lia)) as Hli. rewrite Nat2Z.id in Hli.
  assert (Hid : last_id ids (Z.of_nat i) = Some id) by congruence.
  apply (verify_lane_ok σ w n); [done| |].
  - rewrite <- Hid. apply Hok; [lia|]. by rewrite Nat2Z.id.
  - intros ? [= <-]. unfold last_id in Hid. apply last_Some_elem_of, list_elem_of_filter in Hid as [_ Hin].
    by eapply Forall_forall in Hu.
Qed.
End oracle.

(** * The run *)

Lemma sorted_last l m x : StronglySorted Z.lt l -> last l = Some m -> x ∈ l -> x <= m.
Proof.
  intros Hs. induction Hs as [|y l Hs IH Hall]; [done|]. intros Hm [->|Hx]%elem_of_cons.
  - destruct l as [|z l]; [cbn in Hm; simplify_eq; lia|]. rewrite last_cons_cons in Hm.
    apply last_Some_elem_of in Hm. eapply Forall_forall in Hall; [|exact Hm]. lia.
  - destruct l as [|z l]; [by apply not_elem_of_nil in Hx|]. rewrite last_cons_cons in Hm. by apply IH.
Qed.

(** In lane order, the last id to land is the greatest admitted one. *)
Lemma last_id_is_last pool ids landed lane l :
  landed ≡ₚ ids -> StronglySorted Z.lt (filter (fun id => lane_of id (Z.of_nat (length pool)) = lane) landed) ->
  is_last (Z.of_nat (length pool)) ids lane l -> last_id pool landed lane = l.
Proof.
  intros Hp Hs Hl. unfold last_id. set (own := filter _ landed) in *.
  assert (Hin : forall x, x ∈ own <-> lane_of x (Z.of_nat (length pool)) = lane /\ x ∈ ids).
  { intros x. subst own. rewrite list_elem_of_filter. by rewrite Hp. }
  destruct (last own) as [m|] eqn:Hm; destruct l as [id|]; cbn in Hl.
  - destruct Hl as (Hid & Hlane & Hmax). f_equal. apply last_Some_elem_of in Hm as Hmo. apply Hin in Hmo as [Hml Hmi].
    pose proof (Hmax m Hmi Hml). pose proof (sorted_last own m id Hs Hm (proj2 (Hin id) (conj Hlane Hid))). lia.
  - apply last_Some_elem_of, Hin in Hm as [Hml Hmi]. by destruct (Hl m Hmi).
  - destruct Hl as (Hid & Hlane & _). apply last_None in Hm. pose proof (proj2 (Hin id) (conj Hlane Hid)) as H. rewrite Hm in H.
    by apply not_elem_of_nil in H.
  - done.
Qed.

Section run.
Context `{R : Runtime, !RuntimeLaws R, HC : HeaderCodec, !HeaderCodecLaws HC}.
Context `{C : InstructionCodec, !InstructionCodecLaws R C, K : IntentSdk}.

(** C35: The mixed load predicts the state it leaves. Let each worker admit any number of requests on
    its lanes and let all of them land, in any order that keeps each lane's own order; then every
    built instruction is processed without error and the final check accepts every lane, given the
    last ids reconstructed from the workers' counts alone. *)
Theorem mixed_load_is_verified redline compute_budget pool read_span hash_iters threads admitted landed w σ :
  let lanes := Z.of_nat (length pool) in
  let outcomes := zip (lane_spans lanes threads) admitted in
  let last_ids := su_last_ids (summarize lanes outcomes) in
  compute_budget <> redline -> NoDup pool -> pool <> [] -> Z.of_nat read_span + 2 <= u16_bound -> is_u 32 hash_iters ->
  length admitted = length (lane_spans lanes threads) -> Forall (Z.le 0) admitted ->
  landed ≡ₚ (outcomes ≫= span_ids lanes) -> Forall (is_u 64) landed ->
  (forall lane, 0 <= lane < lanes -> StronglySorted Z.lt (filter (fun id => lane_of id lanes = lane) landed)) ->
  represents σ w -> borrowed w = ∅ -> Forall (fun k => lane_ok read_span hash_iters σ (length landed) k None) pool ->
  exists w', for_each (land redline compute_budget pool read_span hash_iters) landed w = (Ok tt, w') /\
    verify_final_state hash_iters read_span (zip (read_final_state (fun k => Some (data (account w' k))) pool last_ids) last_ids) = Some (Ok tt).
Proof.
  intros lanes outcomes last_ids Hcb Hnd Hne Hspan Hit Hlen Ha Hperm Hu Hsorted Hr Hb Hpool.
  destruct (outcomes_wf lanes threads admitted ltac:(lia) Hlen Ha) as [Hos Hdis].
  destruct (summarize_spec lanes outcomes ltac:(lia) Hos Hdis) as (_ & Hlast & _).
  destruct (land_all_reaches redline compute_budget pool read_span hash_iters Hcb Hnd Hne Hspan Hit landed w σ [])
    as (σ' & (w' & Hw & Hr' & _) & Hok); [done..| |].
  - intros lane k _ Hk. eapply Forall_forall in Hpool; [exact Hpool|]. by eapply list_elem_of_lookup_2.
  - exists w'. split; [done|]. apply (verify_pool_ok pool read_span hash_iters σ' w' 0 landed); [done..|].
    intros lane Hl. destruct (Hlast lane Hl) as (l & Hlk & Hil). fold last_ids in Hlk. rewrite Hlk. f_equal. symmetry.
    eapply last_id_is_last; [done| |exact Hil]. by apply Hsorted.
Qed.
End run.

(** ** A run of three lanes and two workers *)

Definition mixed_world : World :=
  mkWorld {[ 11 := mkCell 42 0 (demo_data (demo_header 5 0 0) (replicate 192 0));
             12 := mkCell 42 0 (demo_data (demo_header 6 0 0) (replicate 192 0));
             13 := mkCell 42 0 (demo_data (demo_header 7 0 0) (replicate 192 0)) ]} ∅ [].
Definition mixed_state : Abs :=
  {[ 11 := (demo_header 5 0 0, replicate 192 0); 12 := (demo_header 6 0 0, replicate 192 0);
     13 := (demo_header 7 0 0, replicate 192 0) ]}.

Lemma mixed_represents : represents mixed_state mixed_world.
Proof.
  intros k c. unfold mixed_state. rewrite !lookup_insert_Some, lookup_singleton_Some.
  intros [[<- <-]|[_ [[<- <-]|[_ [<- <-]]]]]; by vm_compute.
Qed.

Definition mixed_landed : list Z := [1; 3; 2; 4; 5; 6; 7; 8; 10; 11; 9; 13; 14].

Lemma mixed_load_is_verified_witness :
  su_last_ids (summarize 3 (zip (lane_spans 3 2) [10; 3])) = [Some 13; Some 14; Some 9] /\
  exists w', for_each (land 42 77 [11; 12; 13] 2 1) mixed_landed mixed_world = (Ok tt, w') /\
    verify_final_state 1 2 (zip (read_final_state (fun k => Some (data (account w' k))) [11; 12; 13]
      (su_last_ids (summarize 3 (zip (lane_spans 3 2) [10; 3])))) (su_last_ids (summarize 3 (zip (lane_spans 3 2) [10; 3])))) = Some (Ok tt).
Proof.
  split; [by vm_compute|].
  apply (mixed_load_is_verified 42 77 [11; 12; 13] 2 1 2 [10; 3] mixed_landed mixed_world mixed_state).
  - done.
  - repeat constructor; set_solver by lia.
  - done.
  - by vm_compute.
  - done.
  - by vm_compute.
  - repeat constructor; lia.
  - vm_compute. solve_Permutation.
  - repeat constructor; by vm_compute.
  - intros lane Hl. assert (lane = 0 \/ lane = 1 \/ lane = 2) as [->|[->| ->]] by (cbn in Hl; lia); vm_compute; repeat constructor.
  - exact mixed_represents.
  - done.
  - repeat (apply Forall_cons; split); try apply Forall_nil; try done; eexists _, _; split_and!; [by vm_compute..|done].
Defined.
