(* ===== verification/Ephemeral.v ===== *)
(** The oracle of the ephemeral account scenario: [redhat/src/scenarios/magicblock/ephemeral_account_security.rs].

    A lifecycle action is predicted on images of six accounts ([Action_apply]), its rent is
    attributed in a ledger ([RentLedger_apply]), an execution record is compared with the
    prediction ([Record_check]), and concurrent records are explained by a serial order
    ([find_serialization]).  The chain answers through arguments: the images read before and
    after, and the record of the submitted transaction.

    The images of a state are a list with one entry per key; a lookup past its end panics in the
    code and is the empty image here, and the theorems are about states of the right length.
    The totals a sponsor paid and got back, and deposits, are unbounded. *)
From Stdlib Require Import Ascii String.
From S2P Require Import Prelude World Cell Instr Build Text.

#[local] Open Scope string_scope.
#[local] Open Scope Z_scope.
#[local] Open Scope list_scope.

(** The positions of the tracked accounts. *)
Definition PAYER : nat := 0.
Definition SPONSOR : nat := 1.
Definition TARGET : nat := 2.
Definition VAULT : nat := 3.
Definition SUBSTITUTE : nat := 4.
Definition VICTIM : nat := 5.

(** [account::Account] *)
Record Image := mkImage
  { im_lamports : Z; im_data : list Z; im_owner : Pubkey; im_executable : bool; im_rent_epoch : Z }.

#[export] Instance Image_eq_dec : EqDecision Image.
Proof. solve_decision. Defined.

(** The operations of [MagicBlockInstruction] that the scenario sends. *)
Inductive Lifecycle := Create (data_len : Z) | Resize (new_data_len : Z) | Close.

#[export] Instance Lifecycle_eq_dec : EqDecision Lifecycle.
Proof. solve_decision. Defined.

(** The variants of [InstructionError] that the scenario names. *)
Inductive IxError :=
| InvalidAccountData | InvalidAccountOwner | InsufficientFunds | MissingRequiredSignature
| IncorrectProgramId | MissingAccount | ReadonlyLamportChange | ExternalAccountLamportSpend
| InvalidRealloc | ReadonlyDataModified | CustomError (code : Z).

#[export] Instance IxError_eq_dec : EqDecision IxError.
Proof. solve_decision. Defined.

(** [UiTransactionError]: an instruction error with its index, or another one. *)
Inductive TxError := TxInstructionError (index : Z) (e : IxError) | TxOtherError.

#[export] Instance TxError_eq_dec : EqDecision TxError.
Proof. solve_decision. Defined.

Record EphAction := mkEphAction { ea_operation : Lifecycle; ea_caller : Pubkey; ea_fill : Z; ea_sponsor : nat }.

(** A submitted transaction: the account keys of its message, and its execution metadata. *)
Record TxRecord := mkTxRecord
  { tr_keys : list Pubkey; tr_err : option TxError; tr_fee : Z;
    tr_pre : list Z; tr_post : list Z; tr_logs : list string }.

#[export] Instance EphAction_eq_dec : EqDecision EphAction.
Proof. solve_decision. Defined.
#[export] Instance TxRecord_eq_dec : EqDecision TxRecord.
Proof. solve_decision. Defined.

Inductive RecordError := WrongError | FeeUnbalanced | KeyCount | WrongPre | WrongPost | WrongObservation.

(** What the code checks of the rent ledger. *)
Inductive LedgerError :=
| RefundExceeds | VaultFloor | Unbacked | SponsorMissing | OpeningMissing | LedgerUnderflow | SponsorBalance.

Record RentLedger := mkLedger
  { rl_deposits : gmap Pubkey Z; rl_sponsors : gmap Pubkey (Z * Z); rl_opening : gmap Pubkey Z;
    rl_floor : Z; rl_surplus : Z }.

(** The order of a [BTreeMap]'s entries. *)
Definition by_key (a b : Pubkey * (Z * Z)) : Prop := (a.1 : Z) <= b.1.

#[export] Instance by_key_dec a b : Decision (by_key a b).
Proof. unfold by_key. apply _. Defined.

(** [Vec::resize] *)
Definition resized (len : nat) (data : list Z) : list Z := take len data ++ replicate (len - length data) 0.

Definition error (index : Z) (e : IxError) : TxError := TxInstructionError (index mod u8_bound) e.

Definition set_lamports (x : Z) (i : Image) : Image :=
  mkImage x (im_data i) (im_owner i) (im_executable i) (im_rent_epoch i).
Definition set_data (d : list Z) (i : Image) : Image :=
  mkImage (im_lamports i) d (im_owner i) (im_executable i) (im_rent_epoch i).

Section ephemeral.
(** [system_id] is the default key; [rent] is the SDK's rent of an ephemeral account. *)
Context (system_id : Pubkey) (rent : Z -> Z).

Definition empty : Image := mkImage 0 [] system_id false u64_max.

#[local] Instance Image_inhabited : Inhabited Image := populate empty.

(** ** Predicting an action *)

(** What the operation asks for: the rent of the new size, or a refusal. *)
Definition new_rent_of (a : EphAction) (account : Image) : Result Z IxError :=
  let exists_ := negb (bool_decide (im_owner account = system_id)) in
  match ea_operation a with
  | Create data_len =>
      if exists_ || negb (im_lamports account =? 0) then Err InvalidAccountData else Ok (rent data_len)
  | Resize new_data_len =>
      if negb exists_ then Err InvalidAccountData
      else if bool_decide (im_owner account = ea_caller a) then Ok (rent new_data_len) else Err InvalidAccountOwner
  | Close =>
      if negb exists_ then Err InvalidAccountData
      else if bool_decide (im_owner account = ea_caller a) then Ok 0 else Err InvalidAccountOwner
  end.

Definition old_rent_of (account : Image) : Z :=
  if bool_decide (im_owner account = system_id) then 0 else rent (Z.of_nat (length (im_data account)) mod u32_bound).

(** The new image of the target. *)
Definition lifecycle_image (a : EphAction) (account : Image) : Image :=
  let account :=
    match ea_operation a with
    | Create data_len => mkImage (im_lamports account) (replicate (Z.to_nat data_len) 0) (ea_caller a) (im_executable account) u64_max
    | Resize new_data_len => set_data (resized (Z.to_nat new_data_len) (im_data account)) account
    | Close => empty
    end in
  if ea_fill a =? 0 then account else set_data (replicate (length (im_data account)) (ea_fill a)) account.

(** [Action::apply]: the error, and the images after it. *)
Definition Action_apply (a : EphAction) (state : list Image) (deposit : Z) : option IxError * list Image :=
  let account := state !!! TARGET in
  match new_rent_of a account with
  | Err e => (Some e, state)
  | Ok new_rent =>
      let old_rent := old_rent_of account in
      let refund := Z.min (saturating_sub old_rent new_rent) deposit in
      let payment := saturating_sub new_rent old_rent in
      match (balance ← checked_add64 (im_lamports (state !!! ea_sponsor a)) refund; checked_sub64 balance payment) with
      | None => (Some InsufficientFunds, state)
      | Some sponsor =>
          match (balance ← checked_add64 (im_lamports (state !!! VAULT)) payment; checked_sub64 balance refund) with
          | None => (Some InsufficientFunds, state)
          | Some vault =>
              let state := alter (lifecycle_image a) TARGET state in
              let state := alter (set_lamports sponsor) (ea_sponsor a) state in
              (None, alter (set_lamports vault) VAULT state)
          end
      end
  end.

(** ** The rent ledger *)

Definition RentLedger_check (l : RentLedger) (vault : Z) : Result unit LedgerError :=
  ensure! (rl_floor l <=? vault) else VaultFloor in
  ensure! (sum_Z (map_to_list (rl_deposits l)).*2 + rl_surplus l <=? vault - rl_floor l) else Unbacked in
  Ok tt.

Definition check_sponsor (l : RentLedger) (keys : list Pubkey) (images : list Image) (entry : Pubkey * (Z * Z)) :
  Result unit LedgerError :=
  let '(key, (paid, refunded)) := entry in
  let? index := ok_or (position (fun k : Pubkey => bool_decide (k = key)) keys) SponsorMissing in
  let surplus := if bool_decide (keys !! PAYER = Some key) then rl_surplus l else 0 in
  let? opening := ok_or (rl_opening l !! key) OpeningMissing in
  let? expected := ok_or (balance ← checked_add64 opening refunded; balance ← checked_sub64 balance paid;
                          checked_sub64 balance surplus) LedgerUnderflow in
  ensure! (im_lamports (images !!! index) =? expected) else SponsorBalance in
  Ok tt.

Fixpoint check_sponsor_list (l : RentLedger) (keys : list Pubkey) (images : list Image) (es : list (Pubkey * (Z * Z))) :
  Result unit LedgerError :=
  match es with
  | [] => Ok tt
  | e :: es => let? _ := check_sponsor l keys images e in check_sponsor_list l keys images es
  end.

(** The sponsors in key order. *)
Definition RentLedger_check_sponsors (l : RentLedger) (keys : list Pubkey) (images : list Image) : Result unit LedgerError :=
  check_sponsor_list l keys images (merge_sort by_key (map_to_list (rl_sponsors l))).

Definition checked (l : RentLedger) (keys : list Pubkey) (after : list Image) : Result RentLedger LedgerError :=
  let? _ := RentLedger_check l (im_lamports (after !!! VAULT)) in
  let? _ := RentLedger_check_sponsors l keys after in
  Ok l.

(** [RentLedger::apply]; what a failing call leaves is never used. *)
Definition RentLedger_apply (l : RentLedger) (keys : list Pubkey) (sponsor : Pubkey) (before after : list Image) :
  Result RentLedger LedgerError :=
  let vault := im_lamports (before !!! VAULT) in
  let vault' := im_lamports (after !!! VAULT) in
  if vault' =? vault then checked l keys after
  else
    let deposit := default 0 (rl_deposits l !! (keys !!! TARGET)) in
    let totals := default (0, 0) (rl_sponsors l !! sponsor) in
    let moved (deposit : Z) (totals : Z * Z) :=
      mkLedger (<[keys !!! TARGET := deposit]> (rl_deposits l)) (<[sponsor := totals]> (rl_sponsors l))
        (rl_opening l) (rl_floor l) (rl_surplus l) in
    if vault <=? vault' then
      let paid := vault' - vault in
      checked (moved (deposit + paid) (totals.1 + paid, totals.2)) keys after
    else
      let refund := vault - vault' in
      ensure! (refund <=? deposit) else RefundExceeds in
      checked (moved (deposit - refund) (totals.1, totals.2 + refund)) keys after.

(** ** Comparing a record *)

Context (show_key : Pubkey -> string) (show_hash : list Z -> string).

Definition observe_image (i : Image) : string :=
  show_key (im_owner i) +:+ " " +:+ show_u64 (Z.of_nat (length (im_data i))) +:+ " " +:+ show_u64 (im_lamports i) +:+ " "
    +:+ show_hash (im_data i).

Definition observation (state : list Image) : list string :=
  (fun i => observe_image (state !!! i)) <$> [TARGET; SPONSOR; VAULT].

(** The balances a transaction should leave, key by key. *)
Fixpoint expected_balances (keys : list Pubkey) (before after : list Image) (tx_keys : list Pubkey) (balances : list Z) :
  Result (list Z) RecordError :=
  match tx_keys, balances with
  | key :: tx_keys, balance :: balances =>
      match position (fun tracked : Pubkey => bool_decide (tracked = key)) keys with
      | Some i =>
          ensure! (balance =? im_lamports (before !!! i)) else WrongPre in
          let? rest := expected_balances keys before after tx_keys balances in
          Ok (im_lamports (after !!! i) :: rest)
      | None => let? rest := expected_balances keys before after tx_keys balances in Ok (balance :: rest)
      end
  | _, _ => Ok []
  end.

Definition check_balances (r : TxRecord) (keys : list Pubkey) (before after : list Image) : Result unit RecordError :=
  ensure! (sum_Z (tr_pre r) =? sum_Z (tr_post r) + tr_fee r) else FeeUnbalanced in
  ensure! (length (tr_pre r) =? length (tr_keys r))%nat else KeyCount in
  let? balances := expected_balances keys before after (tr_keys r) (tr_pre r) in
  ensure! bool_decide (tr_post r = balances) else WrongPost in
  Ok tt.

Definition observed_lines (logs : list string) : list string :=
  omap (strip_prefix "Program log: CellObservation: ") logs.

Definition Record_check (r : TxRecord) (keys : list Pubkey) (before after : list Image) (expected : option TxError) :
  Result unit RecordError :=
  ensure! bool_decide (tr_err r = expected) else WrongError in
  let? _ := check_balances r keys before after in
  match tr_err r with
  | Some _ => Ok tt
  | None => ensure! bool_decide (observed_lines (tr_logs r) = observation before ++ observation after) else WrongObservation in Ok tt
  end.

(** ** Explaining concurrent records *)

(** [u32::count_ones] *)
Definition count_ones (used : Z) : nat := length (filter (fun i => Z.testbit used i = true) (seqZ 0 32)).

(** The balance after the fee; [None] where the payer cannot pay it. *)
Definition charge_fee (fee : Z) (state : list Image) : option (list Image) :=
  balance ← checked_sub64 (im_lamports (state !!! PAYER)) fee; Some (alter (set_lamports balance) PAYER state).

(** A step of the search: the first record left that explains the state and lets the rest be
    explained.  [search] is the recursive call; [?] leaves the whole search with nothing. *)
Fixpoint try_records (search : list Image -> Z -> RentLedger -> option RentLedger) (keys : list Pubkey) (before : list Image)
    (used : Z) (ledger : RentLedger) (records : list (Z * (EphAction * TxRecord))) : option RentLedger :=
  match records with
  | [] => None
  | (index, (action, record)) :: records =>
      deposit ← rl_deposits ledger !! (keys !!! TARGET);
      let '(refusal, after) := Action_apply action before deposit in
      after ← charge_fee (tr_fee record) after;
      let found :=
        if is_ok (Record_check record keys before after (error 0 <$> refusal)) then
          match RentLedger_apply ledger keys (keys !!! ea_sponsor action) before after with
          | Ok next => search after (Z.lor used (Z.shiftl 1 index)) next
          | Err _ => None
          end
        else None in
      match found with
      | Some next => Some next
      | None => try_records search keys before used ledger records
      end
  end.

Definition unused (used : Z) (records : list (EphAction * TxRecord)) : list (Z * (EphAction * TxRecord)) :=
  filter (fun ir => Z.land used (Z.shiftl 1 ir.1) = 0) (imap (fun i r => (Z.of_nat i, r)) records).

(** [fuel] bounds the records left. *)
Fixpoint find_serialization (fuel : nat) (keys : list Pubkey) (before final_state : list Image)
    (records : list (EphAction * TxRecord)) (used : Z) (ledger : RentLedger) : option RentLedger :=
  if (count_ones used =? length records)%nat then
    if bool_decide (before = final_state) then Some ledger else None
  else
    match fuel with
    | O => None
    | S fuel =>
        try_records (fun after used next => find_serialization fuel keys after final_state records used next)
          keys before used ledger (unused used records)
    end.

(** ** The workload *)

Record Workload := mkWorkload
  { wl_keys : list Pubkey; wl_expected : list Image; wl_nonce : Z; wl_ledger : RentLedger;
    wl_starting_vault : Z; wl_base_images : list (option Image) }.

Inductive RunError :=
| ProtectedMissing | StateChanged | SubmitFailed | TargetUntracked | PayerExhausted | VaultOverflow | StateMismatch
| RecordMismatch (e : RecordError) | LedgerMismatch (e : LedgerError) | BaseChanged | UnexpectedOutcome.

(** What the chain answers while a transaction runs: images before and after, the record, the base. *)
Record Answers := mkAnswers
  { an_before : list (option Image); an_record : option TxRecord; an_after : list (option Image);
    an_base : list (option Image) }.

Definition map_err {A E F} (f : E -> F) (r : Result A E) : Result A F :=
  match r with Ok a => Ok a | Err e => Err (f e) end.

(** [state]: absent images are empty, but the protected ones must be there. *)
Definition read_state (images : list (option Image)) : Result (list Image) RunError :=
  ensure! forallb (fun i => match images !! i with Some (Some _) => true | _ => false end) [PAYER; SPONSOR; VAULT; SUBSTITUTE]
    else ProtectedMissing in
  Ok (default empty <$> images).

(** [Workload::run], on an action or on instructions whose last one fails. *)
Definition Workload_run (w : Workload) (instructions : nat) (effect : EphAction + IxError) (an : Answers) :
  Result Workload RunError :=
  let? current := read_state (an_before an) in
  ensure! bool_decide (current = wl_expected w) else StateChanged in
  let? record := ok_or (an_record an) SubmitFailed in
  let before := wl_expected w in
  let sponsor := wl_keys w !!! match effect with inl a => ea_sponsor a | inr _ => SPONSOR end in
  let? predicted :=
    match effect with
    | inl a =>
        let? deposit := ok_or (rl_deposits (wl_ledger w) !! (wl_keys w !!! TARGET)) TargetUntracked in
        let '(refusal, after) := Action_apply a before deposit in Ok (error 0 <$> refusal, after)
    | inr e => Ok (Some (error (Z.of_nat (instructions - 1)) e), before)
    end in
  let? after := ok_or (charge_fee (tr_fee record) predicted.2) PayerExhausted in
  let? observed := read_state (an_after an) in
  ensure! bool_decide (observed = after) else StateMismatch in
  let? _ := map_err RecordMismatch (Record_check record (wl_keys w) before after predicted.1) in
  let? ledger := map_err LedgerMismatch (RentLedger_apply (wl_ledger w) (wl_keys w) sponsor before after) in
  ensure! bool_decide (an_base an = wl_base_images w) else BaseChanged in
  Ok (mkWorkload (wl_keys w) after (wl_nonce w + 1) ledger (wl_starting_vault w) (wl_base_images w)).

Definition Workload_step (w : Workload) (a : EphAction) (an : Answers) : Result Workload RunError :=
  Workload_run w 1 (inl a) an.

(** [slice::swap] of the target and the victim *)
Definition swap_target {A} (l : list A) : list A :=
  match l !! TARGET, l !! VICTIM with
  | Some t, Some v => <[TARGET := v]> (<[VICTIM := t]> l)
  | _, _ => l
  end.

Definition swapped (w : Workload) : Workload :=
  mkWorkload (swap_target (wl_keys w)) (swap_target (wl_expected w)) (wl_nonce w) (wl_ledger w) (wl_starting_vault w)
    (swap_target (wl_base_images w)).

Definition Workload_step_victim (w : Workload) (a : EphAction) (an : Answers) : Result Workload RunError :=
  let? w := Workload_step (swapped w) a an in Ok (swapped w).

(** [check_surplus_transfer]: the vault grows and no deposit does. *)
Definition check_surplus_transfer (w : Workload) (amount : Z) (an : Answers) : Result Workload RunError :=
  let? current := read_state (an_before an) in
  ensure! bool_decide (current = wl_expected w) else StateChanged in
  let? record := ok_or (an_record an) SubmitFailed in
  ensure! bool_decide (tr_err record = None) && (tr_fee record =? 0) else UnexpectedOutcome in
  let before := wl_expected w in
  let? payer := ok_or (checked_sub64 (im_lamports (before !!! PAYER)) amount) PayerExhausted in
  let? vault := ok_or (checked_add64 (im_lamports (before !!! VAULT)) amount) VaultOverflow in
  let after := alter (set_lamports vault) VAULT (alter (set_lamports payer) PAYER before) in
  let? observed := read_state (an_after an) in
  ensure! bool_decide (observed = after) else StateMismatch in
  let? _ := map_err RecordMismatch (check_balances record (wl_keys w) before after) in
  let l := wl_ledger w in
  let ledger := mkLedger (rl_deposits l) (rl_sponsors l) (rl_opening l) (rl_floor l) (rl_surplus l + amount) in
  let? _ := map_err LedgerMismatch (RentLedger_check ledger (im_lamports (after !!! VAULT))) in
  let? _ := map_err LedgerMismatch (RentLedger_check_sponsors ledger (wl_keys w) after) in
  ensure! bool_decide (an_base an = wl_base_images w) else BaseChanged in
  Ok (mkWorkload (wl_keys w) after (wl_nonce w + 1) ledger (wl_starting_vault w) (wl_base_images w)).

(** [check_conflicts], after the initial create and with the records of the concurrent actions. *)
Definition check_conflicts (w : Workload) (records : list (EphAction * TxRecord)) (images : list (option Image))
    (base : list (option Image)) : Result Workload RunError :=
  let? after := read_state images in
  let? ledger := ok_or (find_serialization (length records) (wl_keys w) (wl_expected w) after records 0 (wl_ledger w)) StateMismatch in
  ensure! bool_decide (base = wl_base_images w) else BaseChanged in
  Ok (mkWorkload (wl_keys w) after (wl_nonce w) ledger (wl_starting_vault w) (wl_base_images w)).

(** The ledger a workload opens with. *)
Definition opening_ledger (keys : list Pubkey) (expected : list Image) : RentLedger :=
  mkLedger (list_to_map ((fun i => (keys !!! i, 0)) <$> [TARGET; VICTIM])) ∅
    (list_to_map ((fun i => (keys !!! i, im_lamports (expected !!! i))) <$> [PAYER; SPONSOR; SUBSTITUTE])) 0 0.

(** ** The exact charge *)

Inductive BoundaryError :=
| BadSponsor | NoDeposit | FundedRefused | NoCharge | ChargeOutOfReach | SweepBelowZero | PayerOverflow | ShortAccepted
| ExactRefused | ExactUnspent | DepositOverflow | RevertRefused | SponsorOverflow | RevertPayerExhausted | NotRestored.

(** [check_charge_boundary]: the charge an action makes of a sponsor that can pay anything. *)
Definition boundary_charge (a revert : EphAction) (before : list Image) (deposit : Z) : Result Z BoundaryError :=
  ensure! negb (ea_sponsor a =? PAYER)%nat && (ea_sponsor a =? ea_sponsor revert)%nat else BadSponsor in
  let '(refusal, probe) := Action_apply a (alter (set_lamports u64_max) (ea_sponsor a) before) deposit in
  ensure! bool_decide (refusal = None) else FundedRefused in
  let? charge := ok_or (checked_sub64 (im_lamports (probe !!! VAULT)) (im_lamports (before !!! VAULT))) NoCharge in
  ensure! (0 <? charge) && (charge <? im_lamports (before !!! ea_sponsor a)) else ChargeOutOfReach in
  Ok charge.

(** One point of the sweep, one lamport short of the charge or exactly at it: the images with which
    the transaction's observations are compared. *)
Definition boundary_point (a revert : EphAction) (before : list Image) (deposit charge : Z) (short : bool) :
  Result (option IxError * list (list Image)) BoundaryError :=
  let balance := im_lamports (before !!! ea_sponsor a) in
  let moved := balance - charge + (if short then 1 else 0) in
  let? kept := ok_or (checked_sub64 balance moved) SweepBelowZero in
  let? payer := ok_or (checked_add64 (im_lamports (before !!! PAYER)) moved) PayerOverflow in
  let funded := alter (set_lamports payer) PAYER (alter (set_lamports kept) (ea_sponsor a) before) in
  let '(refusal, charged) := Action_apply a funded deposit in
  if short then
    match refusal with
    | Some e => Ok (Some e, [])
    | None => Err ShortAccepted
    end
  else
    ensure! bool_decide (refusal = None) else ExactRefused in
    ensure! (im_lamports (charged !!! ea_sponsor a) =? 0) else ExactUnspent in
    let? funding := ok_or (checked_add64 deposit charge) DepositOverflow in
    let '(refusal, refunded) := Action_apply revert charged funding in
    ensure! bool_decide (refusal = None) else RevertRefused in
    let? sponsor := ok_or (checked_add64 (im_lamports (refunded !!! ea_sponsor a)) moved) SponsorOverflow in
    let? payer := ok_or (checked_sub64 (im_lamports (refunded !!! PAYER)) moved) RevertPayerExhausted in
    let after := alter (set_lamports payer) PAYER (alter (set_lamports sponsor) (ea_sponsor a) refunded) in
    ensure! bool_decide (after = before) else NotRestored in
    Ok (None, [funded; charged; charged; refunded]).
End ephemeral.

(** * Building the instructions *)

Section building.
Context `{R : Runtime, HC : HeaderCodec, C : InstructionCodec, B : BuildSdk}.
(** [try_to_vec] of the operation *)
Context (encode_lifecycle : Lifecycle -> list Z) (redshift_id magic_id : Pubkey).

Definition EphAction_new (op : Lifecycle) : EphAction := mkEphAction op redshift_id 0 SPONSOR.

Definition Action_native (a : EphAction) (keys : list Pubkey) : SolInstruction :=
  mkIx magic_id
    [meta_new (keys !!! ea_sponsor a) true;
     meta_new (keys !!! TARGET) (match ea_operation a with Create _ => true | _ => false end);
     meta_new (keys !!! VAULT) false]
    (encode_lifecycle (ea_operation a)).

Definition Action_wrap (a : EphAction) (native : SolInstruction) (keys : list Pubkey) : option SolInstruction :=
  if bool_decide (ea_caller a = magic_id) then Some native
  else
    let observed := [keys !!! TARGET; keys !!! SPONSOR; keys !!! VAULT] in
    b ← Batch_observe observed (Program_batch (ea_caller a));
    b ← Batch_invoke native b;
    b ← (if ea_fill a =? 0 then Some b else Batch_fill_bytes (keys !!! TARGET) (ea_fill a) b);
    b ← Batch_observe observed b;
    Some (Batch_build b).

Definition Action_instruction (a : EphAction) (keys : list Pubkey) : option SolInstruction :=
  Action_wrap a (Action_native a keys) keys.
End building.
