(* ===== verification/EphemeralProps.v ===== *)
(** The ephemeral account oracle: the search for a serial order is exact, predictions conserve
    lamports, and the rent ledger accepts what the predictions move. *)
From Stdlib Require Import Ascii String.
From S2P Require Import Prelude World Cell Instr Build Text Ephemeral.

#[local] Open Scope Z_scope.
#[local] Open Scope list_scope.

(** * Predictions *)

Lemma checked_add64_Some a b x : checked_add64 a b = Some x <-> x = a + b /\ a + b < u64_bound.
Proof. unfold checked_add64. case (Z.ltb_spec (a + b) u64_bound); naive_solver lia. Qed.

Lemma checked_sub64_Some a b x : checked_sub64 a b = Some x <-> x = a - b /\ b <= a.
Proof. unfold checked_sub64. case (Z.leb_spec b a); naive_solver lia. Qed.

Lemma checked_add64_ok a b : a + b < u64_bound -> checked_add64 a b = Some (a + b).
Proof. intros H. by apply checked_add64_Some. Qed.

Lemma checked_sub64_ok a b : b <= a -> checked_sub64 a b = Some (a - b).
Proof. intros H. by apply checked_sub64_Some. Qed.

Section images.
Context (system_id : Pubkey) (rent : Z -> Z).
#[local] Hint Extern 0 (Inhabited Image) => exact (Image_inhabited system_id) : typeclass_instances.

Definition funded (st : list Image) : Prop := Forall (fun i => 0 <= im_lamports i) st.

Lemma funded_lookup st i : funded st -> 0 <= im_lamports (st !!! i).
Proof.
  intros H. destruct (st !! i) as [x|] eqn:E.
  - rewrite (list_lookup_total_correct _ _ _ E). by eapply Forall_lookup in H.
  - by rewrite list_lookup_total_alt, E.
Qed.

Lemma funded_alter f i st : funded st -> (forall x, 0 <= im_lamports x -> 0 <= im_lamports (f x)) -> funded (alter f i st).
Proof. intros H Hf. apply Forall_alter; [done|]. intros x _ Hx. by apply Hf. Qed.

(** What a successful action did. *)
Lemma Action_apply_None a st deposit st' :
  Action_apply system_id rent a st deposit = (None, st') ->
  exists new_rent, new_rent_of system_id rent a (st !!! TARGET) = Ok new_rent /\
    let old_rent := old_rent_of system_id rent (st !!! TARGET) in
    let refund := Z.min (saturating_sub old_rent new_rent) deposit in
    let payment := saturating_sub new_rent old_rent in
    payment <= im_lamports (st !!! ea_sponsor a) + refund < u64_bound /\
    refund <= im_lamports (st !!! VAULT) + payment < u64_bound /\
    st' = alter (set_lamports (im_lamports (st !!! VAULT) + payment - refund)) VAULT
            (alter (set_lamports (im_lamports (st !!! ea_sponsor a) + refund - payment)) (ea_sponsor a)
              (alter (lifecycle_image system_id a) TARGET st)).
Proof.
  unfold Action_apply. destruct (new_rent_of _ _ a _) as [nr|e] eqn:Hn; [|done]. cbv zeta.
  destruct (checked_add64 (im_lamports (st !!! ea_sponsor a)) _) as [b1|] eqn:H1; [|done]. cbn [mbind option_bind].
  destruct (checked_sub64 b1 _) as [sp|] eqn:H2; [|done].
  destruct (checked_add64 (im_lamports (st !!! VAULT)) _) as [b2|] eqn:H3; [|done]. cbn [mbind option_bind].
  destruct (checked_sub64 b2 _) as [va|] eqn:H4; [|done]. intros [= <-].
  apply checked_add64_Some in H1 as [-> H1], H3 as [-> H3]. apply checked_sub64_Some in H2 as [-> H2], H4 as [-> H4].
  exists nr. split_and!; done || lia.
Qed.

Lemma Action_apply_Some a st deposit e st' : Action_apply system_id rent a st deposit = (Some e, st') -> st' = st.
Proof. unfold Action_apply. repeat case_match; by intros [= -> <-] || congruence. Qed.

Lemma lifecycle_image_funded a x : 0 <= im_lamports x -> 0 <= im_lamports (lifecycle_image system_id a x).
Proof. intros H. unfold lifecycle_image. destruct (ea_operation a), (ea_fill a =? 0); cbn; lia. Qed.

Lemma Action_apply_funded a st deposit e st' : funded st -> Action_apply system_id rent a st deposit = (e, st') -> funded st'.
Proof.
  intros Hf Ha. destruct e as [e|]; [by rewrite (Action_apply_Some _ _ _ _ _ Ha)|].
  apply Action_apply_None in Ha as (nr & _ & Hs & Hv & ->).
  repeat (apply funded_alter; [|intros x Hx; cbn; lia || by apply lifecycle_image_funded]). done.
Qed.

Lemma charge_fee_funded fee st st' : funded st -> charge_fee system_id fee st = Some st' -> funded st'.
Proof.
  intros Hf. unfold charge_fee. intros (b & [-> Hb]%checked_sub64_Some & [= <-])%bind_Some. apply funded_alter; [done|]. cbn. lia.
Qed.

End images.

(** * The search *)

(** ** Masks *)

Lemma land_bit used i : 0 <= i -> Z.land used (Z.shiftl 1 i) = 0 <-> Z.testbit used i = false.
Proof.
  intros Hi. split.
  - intros H. apply (f_equal (fun z => Z.testbit z i)) in H. rewrite Z.land_spec, Z.shiftl_spec, Z.sub_diag, Z.bits_0 in H by done.
    by rewrite andb_true_r in H.
  - intros H. apply Z.bits_inj'. intros n Hn. rewrite Z.land_spec, Z.bits_0, Z.shiftl_spec by done.
    destruct (decide (n = i)) as [->|Hne]; [by rewrite H|]. change 1 with (2 ^ 0).
    rewrite Z.pow2_bits_false by lia. by rewrite andb_false_r.
Qed.

Lemma testbit_set used i n : 0 <= i -> 0 <= n -> Z.testbit (Z.lor used (Z.shiftl 1 i)) n = bool_decide (n = i) || Z.testbit used n.
Proof.
  intros Hi Hn. rewrite Z.lor_spec, Z.shiftl_spec by done. change 1 with (2 ^ 0). case_bool_decide as E.
  - subst. by rewrite Z.sub_diag, Z.pow2_bits_true, orb_true_r.
  - by rewrite Z.pow2_bits_false, orb_false_r by lia.
Qed.

(** The mask of a search over [n] records. *)
Definition mask_ok (used : Z) (n : nat) : Prop := forall i, 0 <= i -> Z.testbit used i = true -> i < Z.of_nat n.

Lemma length_filter_split {A} (P : A -> Prop) `{!forall x, Decision (P x)} (Q : A -> Prop) `{!forall x, Decision (Q x)} (l : list A) :
  (forall x, x ∈ l -> Q x <-> ~ P x) -> (length (filter P l) + length (filter Q l) = length l)%nat.
Proof.
  induction l as [|x l IH]; intros HPQ; [done|]. rewrite !filter_cons. assert (Hx := HPQ x ltac:(by left)).
  pose proof (IH ltac:(intros y Hy; apply HPQ; by right)). repeat case_decide; cbn [length]; tauto || lia.
Qed.

Lemma filter_fmap_fst {A B} (P : A -> Prop) `{!forall x, Decision (P x)} (l : list (A * B)) :
  (filter (fun x => P x.1) l).*1 = filter P l.*1.
Proof. induction l as [|[a b] l IH]; [done|]. rewrite fmap_cons, !filter_cons. cbn. case_decide; cbn; by rewrite IH. Qed.

(** The records with their positions. *)
Definition indexed {A} (l : list A) : list (Z * A) := imap (fun i r => (Z.of_nat i, r)) l.

Lemma indexed_fst {A} (l : list A) : (indexed l).*1 = seqZ 0 (Z.of_nat (length l)).
Proof.
  apply list_eq. intros i. unfold indexed. rewrite list_lookup_fmap, list_lookup_imap. destruct (l !! i) as [x|] eqn:Hx; cbn.
  - symmetry. apply lookup_seqZ. apply lookup_lt_Some in Hx. lia.
  - symmetry. apply lookup_seqZ_ge. apply lookup_ge_None in Hx. lia.
Qed.

Lemma indexed_snd {A} (l : list A) : (indexed l).*2 = l.
Proof. apply list_eq. intros i. unfold indexed. rewrite list_lookup_fmap, list_lookup_imap. by destruct (l !! i). Qed.

Lemma indexed_NoDup {A} (l : list A) : NoDup (indexed l).
Proof. apply (NoDup_fmap_1 fst). rewrite indexed_fst. apply NoDup_seqZ. Qed.

Lemma indexed_pos {A} (l : list A) i x : (i, x) ∈ indexed l -> 0 <= i < Z.of_nat (length l).
Proof. intros H. apply (list_elem_of_fmap_2 fst) in H. rewrite indexed_fst in H. apply elem_of_seqZ in H. cbn in H. lia. Qed.

Lemma filter_none {A} (P : A -> Prop) `{!forall x, Decision (P x)} (l : list A) : (forall x, x ∈ l -> ~ P x) -> filter P l = [].
Proof.
  intros Hn. destruct (filter P l) as [|x k] eqn:E; [done|]. assert (Hx : x ∈ filter P l) by (rewrite E; by left).
  apply list_elem_of_filter in Hx as [Hp Hl]. by destruct (Hn x Hl).
Qed.

Lemma filter_iff_in {A} (P : A -> Prop) `{!forall x, Decision (P x)} (Q : A -> Prop) `{!forall x, Decision (Q x)} (l : list A) :
  (forall x, x ∈ l -> P x <-> Q x) -> filter P l = filter Q l.
Proof.
  induction l as [|x l IH]; intros HPQ; [done|]. rewrite !filter_cons, IH by (intros y Hy; apply HPQ; by right).
  pose proof (HPQ x ltac:(by left)). repeat case_decide; tauto || done.
Qed.

Lemma filter_every {A} (P : A -> Prop) `{!forall x, Decision (P x)} (l : list A) : (forall x, P x) -> filter P l = l.
Proof. intros HP. induction l as [|x l IH]; [done|]. by rewrite filter_cons, decide_True, IH by done. Qed.

(** The used bits and the records left make up all records. *)
Lemma count_unused used (records : list (EphAction * TxRecord)) :
  mask_ok used (length records) -> (length records <= 32)%nat ->
  (count_ones used + length (unused used records) = length records)%nat.
Proof.
  intros Hm Hn. set (n := Z.of_nat (length records)).
  assert (Hc : count_ones used = length (filter (fun i => Z.testbit used i = true) (seqZ 0 n))).
  { unfold count_ones. replace 32 with (n + (32 - n)) by lia. rewrite seqZ_app, filter_app, length_app by lia.
    rewrite (filter_none _ (seqZ (0 + n) (32 - n))); [cbn; lia|]. intros i Hi%elem_of_seqZ Hb. apply Hm in Hb; lia. }
  assert (Hu : length (unused used records) = length (filter (fun i => Z.testbit used i = false) (seqZ 0 n))).
  { pose proof (filter_fmap_fst (fun i => Z.land used (Z.shiftl 1 i) = 0) (indexed records)) as Hf.
    rewrite indexed_fst in Hf. rewrite <- (length_fmap fst (unused used records)). unfold unused. fold (indexed records). rewrite Hf. f_equal. apply filter_iff_in. intros i Hi%elem_of_seqZ. apply land_bit. lia. }
  rewrite Hc, Hu. rewrite (length_filter_split (fun i => Z.testbit used i = true) (fun i => Z.testbit used i = false)).
  - rewrite length_seqZ. lia.
  - intros i _. destruct (Z.testbit used i); naive_solver.
Qed.

Lemma filter_remove `{EqDecision A} (P : A -> Prop) `{!forall x, Decision (P x)} (Q : A -> Prop) `{!forall x, Decision (Q x)} (l : list A) x :
  NoDup l -> x ∈ l -> P x -> (forall y, y ∈ l -> Q y <-> P y /\ y <> x) -> filter P l ≡ₚ x :: filter Q l.
Proof.
  intros Hnd Hx Hp HQ. apply NoDup_Permutation; [by apply NoDup_filter| |].
  - constructor; [|by apply NoDup_filter]. rewrite list_elem_of_filter. intros [Hq Hl]. by apply HQ in Hq as [_ ?].
  - intros y. rewrite elem_of_cons, !list_elem_of_filter. destruct (decide (y = x)) as [->|Hne]; [naive_solver|].
    specialize (HQ y). naive_solver.
Qed.

(** Using a record takes it from those left. *)
Lemma unused_step used (records : list (EphAction * TxRecord)) i r :
  (i, r) ∈ unused used records -> unused used records ≡ₚ (i, r) :: unused (Z.lor used (Z.shiftl 1 i)) records.
Proof.
  intros [Hu Hin]%list_elem_of_filter. fold (indexed records) in Hin. pose proof (indexed_pos _ _ _ Hin) as Hi.
  apply filter_remove; [apply indexed_NoDup|done|done|]. intros [j r'] Hj. pose proof (indexed_pos _ _ _ Hj) as Hjb.
  cbn [fst] in *. rewrite !land_bit, testbit_set by lia. rewrite land_bit in Hu by lia. case_bool_decide as E; [|naive_solver].
  subst j. split; [done|]. intros [_ Hne]. destruct Hne. f_equal.
  unfold indexed in Hj, Hin. apply elem_of_lookup_imap in Hj as (a & ? & [= Ha ->] & Hla), Hin as (b & ? & [= Hb ->] & Hlb).
  assert (a = b) as -> by lia. congruence.
Qed.

Lemma unused_mask used (records : list (EphAction * TxRecord)) i r :
  mask_ok used (length records) -> (i, r) ∈ unused used records -> mask_ok (Z.lor used (Z.shiftl 1 i)) (length records).
Proof.
  intros Hm [Hu Hin]%list_elem_of_filter. fold (indexed records) in Hin. pose proof (indexed_pos _ _ _ Hin) as Hi.
  intros j Hj. rewrite testbit_set by lia. case_bool_decide; [subst; lia|]. by apply Hm.
Qed.

Section search.
Context (system_id : Pubkey) (rent : Z -> Z) (show_key : Pubkey -> string) (show_hash : list Z -> string).
Context (keys : list Pubkey).

#[local] Hint Extern 0 (Inhabited Image) => exact (Image_inhabited system_id) : typeclass_instances.

(** ** What explains a record *)

(** A record explained at a state and ledger, and those it leads to. *)
Definition explains (ar : EphAction * TxRecord) (s s' : list Image * RentLedger) : Prop :=
  exists deposit refusal after,
    rl_deposits s.2 !! (keys !!! TARGET) = Some deposit /\
    Action_apply system_id rent ar.1 s.1 deposit = (refusal, after) /\
    charge_fee system_id (tr_fee ar.2) after = Some s'.1 /\
    Record_check system_id show_key show_hash ar.2 keys s.1 s'.1 (error 0 <$> refusal) = Ok tt /\
    RentLedger_apply system_id s.2 keys (keys !!! ea_sponsor ar.1) s.1 s'.1 = Ok s'.2.

(** Records one after the other. *)
Inductive serial : list (EphAction * TxRecord) -> list Image * RentLedger -> list Image * RentLedger -> Prop :=
| serial_nil s : serial [] s s
| serial_cons ar ars s s1 s2 : explains ar s s1 -> serial ars s1 s2 -> serial (ar :: ars) s s2.

Lemma is_ok_unit {E} (r : Result unit E) : is_ok r = true <-> r = Ok tt.
Proof. destruct r as [[]|]; naive_solver. Qed.

Lemma try_records_sound search before used ledger recs l' :
  try_records system_id rent show_key show_hash search keys before used ledger recs = Some l' ->
  exists i ar after next, (i, ar) ∈ recs /\ explains ar (before, ledger) (after, next) /\
    search after (Z.lor used (Z.shiftl 1 i)) next = Some l'.
Proof.
  induction recs as [|[i [a r]] recs IH]; cbn [try_records]; [done|].
  destruct (rl_deposits ledger !! (keys !!! TARGET)) as [deposit|] eqn:Hd; [|done]. cbn [mbind option_bind].
  destruct (Action_apply system_id rent a before deposit) as [refusal after] eqn:Ha.
  destruct (charge_fee system_id (tr_fee r) after) as [after'|] eqn:Hc; [|done]. cbn [mbind option_bind].
  intros H. assert (Hrec : forall (H' : try_records system_id rent show_key show_hash search keys before used ledger recs = Some l'),
    exists i0 ar after next, (i0, ar) ∈ (i, (a, r)) :: recs /\ explains ar (before, ledger) (after, next) /\
    search after (Z.lor used (Z.shiftl 1 i0)) next = Some l').
  { intros H'. destruct (IH H') as (i0 & ar & af & nx & Hin & ?). exists i0, ar, af, nx. split; [by right|done]. }
  destruct (is_ok (Record_check _ _ _ r keys before after' _)) eqn:Hk; [|by apply Hrec].
  destruct (RentLedger_apply _ ledger keys _ before after') as [next|] eqn:Hl; [|by apply Hrec].
  destruct (search after' _ next) as [x|] eqn:Hs; [|by apply Hrec]. simplify_eq.
  exists i, (a, r), after', next. split; [by left|]. split; [|done]. exists deposit, refusal, after. apply is_ok_unit in Hk. done.
Qed.

Lemma find_sound fuel before final_state records used ledger l' :
  mask_ok used (length records) -> (length records <= 32)%nat ->
  find_serialization system_id rent show_key show_hash fuel keys before final_state records used ledger = Some l' ->
  exists order, order ≡ₚ (unused used records).*2 /\ serial order (before, ledger) (final_state, l').
Proof.
  intros Hm Hn. revert before used ledger Hm. induction fuel as [|fuel IH]; intros before used ledger Hm; cbn [find_serialization];
    pose proof (count_unused used records Hm Hn) as Hcount.
  all: destruct (Nat.eqb_spec (count_ones used) (length records)) as [E|E].
  1,3: case_bool_decide; [|done]; intros [= <-]; subst; exists []; destruct (unused used records); cbn in Hcount; [|lia]; split; [done|constructor].
  - done.
  - intros (i & ar & after & next & Hin & Hex & Hs)%try_records_sound.
    destruct (IH _ _ _ (unused_mask used records i ar Hm Hin) Hs) as (order & Hp & Hser).
    exists (ar :: order). split; [|by econstructor]. rewrite (unused_step used records i ar Hin). cbn. by rewrite Hp.
Qed.

(** ** Nothing is missed *)

(** The target keeps its entry of the ledger. *)
Lemma RentLedger_apply_deposit l sponsor before after l' :
  is_Some (rl_deposits l !! (keys !!! TARGET)) -> RentLedger_apply system_id l keys sponsor before after = Ok l' ->
  is_Some (rl_deposits l' !! (keys !!! TARGET)).
Proof.
  intros Hd. assert (Hc : forall l0, checked system_id l0 keys after = Ok l' -> l0 = l').
  { intros l0. unfold checked. destruct (RentLedger_check l0 _); [|done]. cbn. destruct (RentLedger_check_sponsors _ l0 _ _); [|done]. by intros [= ->]. }
  unfold RentLedger_apply. case_match; [intros Heq; by rewrite <- (Hc _ Heq)|]. case_match.
  - intros Heq. rewrite <- (Hc _ Heq). cbn. rewrite lookup_insert_eq. by eexists.
  - case_match; [|done]. intros Heq. rewrite <- (Hc _ Heq). cbn. rewrite lookup_insert_eq. by eexists.
Qed.

Definition searchable (s : list Image * RentLedger) : Prop := funded s.1 /\ is_Some (rl_deposits s.2 !! (keys !!! TARGET)).

Lemma explains_searchable ar s s' : searchable s -> explains ar s s' -> searchable s'.
Proof.
  intros [Hf Hd] (deposit & refusal & after & _ & Ha & Hc & _ & Hl). split.
  - eapply charge_fee_funded; [|exact Hc]. by eapply Action_apply_funded.
  - by eapply RentLedger_apply_deposit.
Qed.

Lemma try_records_complete search before used ledger recs i ar after next l' :
  searchable (before, ledger) -> Forall (fun ir => tr_fee ir.2.2 = 0) recs ->
  (i, ar) ∈ recs -> explains ar (before, ledger) (after, next) -> search after (Z.lor used (Z.shiftl 1 i)) next = Some l' ->
  is_Some (try_records system_id rent show_key show_hash search keys before used ledger recs).
Proof.
  intros [Hf Hd] Hfee Hin Hex Hs. cbn in Hf, Hd. induction Hfee as [|[j [a r]] recs Hj Hfee IH]; [by apply not_elem_of_nil in Hin|].
  cbn [try_records]. destruct Hd as [deposit Hd]. rewrite Hd. cbn [mbind option_bind].
  destruct (Action_apply system_id rent a before deposit) as [refusal af] eqn:Ha.
  assert (Hpay : is_Some (charge_fee system_id (tr_fee r) af)).
  { unfold charge_fee. cbn in Hj. rewrite Hj. pose proof (funded_lookup system_id af PAYER (Action_apply_funded _ _ _ _ _ _ _ Hf Ha)) as Hp.
    unfold checked_sub64. rewrite (proj2 (Z.leb_le _ _) Hp). by eexists. }
  destruct Hpay as [af' Hc]. rewrite Hc. cbn [mbind option_bind]. apply elem_of_cons in Hin as [[= -> ->]|Hin].
  - destruct Hex as (d & rf & af2 & Hd2 & Ha2 & Hc2 & Hk & Hl). cbn [fst snd] in *.
    rewrite Hd in Hd2. injection Hd2 as <-. rewrite Ha in Ha2. injection Ha2 as <- <-. rewrite Hc in Hc2. injection Hc2 as <-. rewrite Hk. cbn [is_ok]. rewrite Hl, Hs. by eexists.
  - case_match; [by eexists|]. by apply IH.
Qed.

Lemma find_complete fuel before final_state records used ledger order l' :
  mask_ok used (length records) -> (length records <= 32)%nat -> (length (unused used records) <= fuel)%nat ->
  Forall (fun ar => tr_fee ar.2 = 0) records -> searchable (before, ledger) ->
  order ≡ₚ (unused used records).*2 -> serial order (before, ledger) (final_state, l') ->
  is_Some (find_serialization system_id rent show_key show_hash fuel keys before final_state records used ledger).
Proof.
  intros Hm Hn Hfuel Hfee. revert before used ledger order Hm Hfuel.
  induction fuel as [|fuel IH]; intros before used ledger order Hm Hfuel Hok Hp Hser; cbn [find_serialization];
    pose proof (count_unused used records Hm Hn) as Hcount.
  all: destruct (Nat.eqb_spec (count_ones used) (length records)) as [E|E]; [|try lia].
  1,2: assert (order = []) as -> by (apply Permutation_nil_r; rewrite Hp; destruct (unused used records); [done|cbn in Hcount; lia]).
  1,2: inversion Hser; subst; rewrite bool_decide_eq_true_2 by done; by eexists.
  inversion Hser as [|ar ars s s1 s2 Hex Hrest]; subst.
  - apply Permutation_length in Hp. rewrite length_fmap in Hp. cbn in Hp. lia.
  - assert (Hin : ar ∈ (unused used records).*2) by (rewrite <- Hp; by left).
    apply list_elem_of_fmap in Hin as ([i ar'] & -> & Hin). cbn [snd] in *. destruct s1 as [after next].
    pose proof (unused_step used records i ar' Hin) as Hstep. rewrite Hstep in Hp. cbn in Hp. apply Permutation_cons_inv in Hp.
    destruct (IH after (Z.lor used (Z.shiftl 1 i)) next ars) as [x Hx]; [by eapply unused_mask| |by eapply explains_searchable|done|done|].
    { apply Permutation_length in Hstep. cbn in Hstep. lia. }
    eapply try_records_complete; [done| |done|exact Hex|exact Hx].
    apply Forall_forall. intros [j r] [_ Hj]%list_elem_of_filter. fold (indexed records) in Hj.
    apply (list_elem_of_fmap_2 snd) in Hj. rewrite indexed_snd in Hj. by eapply Forall_forall in Hfee.
Qed.
End search.

(** * Lamports *)

Definition total (st : list Image) : Z := sum_Z (im_lamports <$> st).

Lemma total_alter f i st x : st !! i = Some x -> total (alter f i st) = total st - im_lamports x + im_lamports (f x).
Proof.
  unfold total, sum_Z. revert i. induction st as [|y st IH]; intros [|i] Hi; cbn in Hi |- *; simplify_eq; [lia|]. fold (@alter nat _ (list Image) _ f i st). rewrite IH by done. lia.
Qed.

Section lamports.
Context (system_id : Pubkey) (rent : Z -> Z).
#[local] Hint Extern 0 (Inhabited Image) => exact (Image_inhabited system_id) : typeclass_instances.

Lemma total_set x i st y : st !! i = Some y -> total (alter (set_lamports x) i st) = total st + x - im_lamports y.
Proof. intros H. rewrite (total_alter _ _ _ _ H). cbn. lia. Qed.

(** An action moves lamports and makes none: unless it closes an account that holds lamports
    of its own, the images after it hold as much as before, and a refused action leaves them as
    they were. *)
Theorem action_conserves_lamports a st deposit refusal st' :
  length st = 6%nat -> (ea_sponsor a < 6)%nat -> ea_sponsor a <> VAULT ->
  (ea_operation a = Close -> ea_sponsor a = TARGET \/ im_lamports (st !!! TARGET) = 0) ->
  Action_apply system_id rent a st deposit = (refusal, st') ->
  total st' = total st /\ (is_Some refusal -> st' = st).
Proof.
  intros Hlen Hsp Hne Hclose Ha. destruct refusal as [e|]; [apply Action_apply_Some in Ha as ->; by split|]. split; [|by intros []].
  apply Action_apply_None in Ha as (nr & _ & _ & _ & ->). cbv zeta.
  destruct (lookup_lt_is_Some_2 st TARGET) as [t Ht]; [rewrite Hlen; unfold TARGET; lia|].
  destruct (lookup_lt_is_Some_2 st VAULT) as [v Hv]; [rewrite Hlen; unfold VAULT; lia|].
  destruct (lookup_lt_is_Some_2 st (ea_sponsor a)) as [s Hs]; [lia|].
  rewrite (list_lookup_total_correct _ _ _ Hv), (list_lookup_total_correct _ _ _ Hs).
  rewrite (total_set _ VAULT _ v) by (by rewrite !list_lookup_alter_ne by done).
  destruct (decide (ea_sponsor a = TARGET)) as [E|E].
  - rewrite E in *. simplify_eq. rewrite (total_set _ TARGET _ (lifecycle_image system_id a t)) by (by rewrite list_lookup_alter_eq, Ht).
    rewrite (total_alter _ _ _ _ Ht). lia.
  - rewrite (total_set _ _ _ s) by (by rewrite list_lookup_alter_ne by done). rewrite (total_alter _ _ _ _ Ht).
    rewrite (list_lookup_total_correct _ _ _ Ht) in Hclose.
    assert (im_lamports (lifecycle_image system_id a t) = im_lamports t); [|lia].
    unfold lifecycle_image. destruct (ea_operation a), (ea_fill a =? 0); cbn; try done; destruct Hclose; done || lia.
Qed.
End lamports.

(** * The ledger *)

Definition map_sum (m : gmap Pubkey Z) : Z := sum_Z (map_to_list m).*2.

Lemma map_sum_insert m k d v : m !! k = Some d -> map_sum (<[k := v]> m) = map_sum m - d + v.
Proof.
  intros Hk. unfold map_sum. rewrite <- (insert_delete_eq m k v).
  rewrite (sum_Z_perm _ _ (fmap_Permutation snd _ _ (map_to_list_insert (delete k m) k v (lookup_delete_eq m k)))).
  rewrite <- (sum_Z_perm _ _ (fmap_Permutation snd _ _ (map_to_list_delete m k d Hk))). cbn. unfold sum_Z. lia.
Qed.

Lemma map_sum_nonneg m : (forall k d, m !! k = Some d -> 0 <= d) -> 0 <= map_sum m.
Proof.
  intros H. unfold map_sum. assert (Ha : forall kd, kd ∈ map_to_list m -> 0 <= kd.2) by (intros [k d] Hin%elem_of_map_to_list; by eapply H).
  induction (map_to_list m) as [|kd l IH]; [done|]. cbn. pose proof (Ha kd ltac:(by left)).
  assert (0 <= sum_Z l.*2) by (apply IH; intros; apply Ha; by right). unfold sum_Z in *. lia.
Qed.

Section ledger.
Context (system_id : Pubkey) (rent : Z -> Z) (keys : list Pubkey).
#[local] Hint Extern 0 (Inhabited Image) => exact (Image_inhabited system_id) : typeclass_instances.

(** The accounts that pay rent. *)
Definition payers : list nat := [PAYER; SPONSOR; SUBSTITUTE].

Definition totals_of (l : RentLedger) (k : Pubkey) : Z * Z := default (0, 0) (rl_sponsors l !! k).
Definition surplus_of (l : RentLedger) (i : nat) : Z := if decide (i = PAYER) then rl_surplus l else 0.

(** A sponsor's balance is its opening balance with its charges and refunds. *)
Definition sponsor_tracked (st : list Image) (l : RentLedger) (i : nat) : Prop :=
  exists opening, rl_opening l !! (keys !!! i) = Some opening /\ opening + (totals_of l (keys !!! i)).2 < u64_bound /\
    0 <= im_lamports (st !!! i) /\ im_lamports (st !!! i) = opening + (totals_of l (keys !!! i)).2 - (totals_of l (keys !!! i)).1 - surplus_of l i.

(** The ledger describes the images: every deposit is backed by the vault. *)
Record tracked (st : list Image) (l : RentLedger) : Prop := mkTracked
  { tk_length : length st = 6%nat;
    tk_deposits : forall k d, rl_deposits l !! k = Some d -> 0 <= d;
    tk_target : is_Some (rl_deposits l !! (keys !!! TARGET));
    tk_surplus : 0 <= rl_surplus l;
    tk_backed : map_sum (rl_deposits l) + rl_surplus l <= im_lamports (st !!! VAULT) - rl_floor l;
    tk_known : forall k t, rl_sponsors l !! k = Some t -> exists i, i ∈ payers /\ keys !! i = Some k;
    tk_sponsors : forall i, i ∈ payers -> sponsor_tracked st l i }.

Lemma check_ok st l : tracked st l -> RentLedger_check l (im_lamports (st !!! VAULT)) = Ok tt.
Proof.
  intros [? Hd ? Hs Hb ? ?]. unfold RentLedger_check. pose proof (map_sum_nonneg _ Hd). fold (map_sum (rl_deposits l)).
  by rewrite !(proj2 (Z.leb_le _ _)) by lia.
Qed.

Hypothesis (Hnodup : NoDup keys) (Hlen : length keys = 6%nat).

Lemma payers_lt i : i ∈ payers -> (i < 6)%nat /\ i <> VAULT /\ i <> TARGET.
Proof. intros H. repeat (apply elem_of_cons in H as [->|H]; [unfold PAYER, SPONSOR, SUBSTITUTE, VAULT, TARGET; lia|]). by apply not_elem_of_nil in H. Qed.

Lemma keys_lookup i : (i < 6)%nat -> keys !! i = Some (keys !!! i).
Proof. intros Hi. apply list_lookup_lookup_total_lt. lia. Qed.

Lemma position_wl_key i : (i < 6)%nat -> position (fun k : Pubkey => bool_decide (k = keys !!! i)) keys = Some i.
Proof.
  intros Hi. pose proof (keys_lookup i Hi) as Hk. destruct (position (fun k : Pubkey => bool_decide (k = keys !!! i)) keys) as [j|] eqn:E.
  - apply position_Some in E as (x & Hx & Heq%bool_decide_eq_true & _). subst x. f_equal. by eapply NoDup_lookup.
  - exfalso. rewrite position_None in E. specialize (E (keys !!! i) ltac:(by eapply list_elem_of_lookup_2)). by rewrite bool_decide_eq_true_2 in E.
Qed.

Lemma payer_key i : i ∈ payers -> bool_decide (keys !! PAYER = Some (keys !!! i)) = bool_decide (i = PAYER).
Proof.
  intros Hi. apply payers_lt in Hi as [Hi _]. apply bool_decide_ext. split; [|intros ->; by apply keys_lookup].
  intros H. eapply NoDup_lookup; [done|by apply keys_lookup|done].
Qed.

Lemma check_sponsor_ok st l i paid refunded :
  i ∈ payers -> 0 <= rl_surplus l -> sponsor_tracked st l i -> rl_sponsors l !! (keys !!! i) = Some (paid, refunded) ->
  check_sponsor system_id l keys st (keys !!! i, (paid, refunded)) = Ok tt.
Proof.
  intros Hi Hs (opening & Ho & Hroom & Hpos & Hbal) Ht. unfold check_sponsor. cbv beta iota zeta. rewrite (position_wl_key i) by (by apply payers_lt). cbn [ok_or res_bind].
  rewrite Ho. cbn [ok_or res_bind]. unfold totals_of in *. rewrite Ht in *. cbn in Hroom, Hbal. rewrite (payer_key i Hi).
  unfold surplus_of in Hbal. unfold checked_add64. rewrite (proj2 (Z.ltb_lt _ _) Hroom). cbn [mbind option_bind]. unfold checked_sub64.
  case_bool_decide as E; [rewrite decide_True in Hbal by done|rewrite decide_False in Hbal by done].
  all: rewrite (proj2 (Z.leb_le _ _)) by lia; cbn [mbind option_bind]; rewrite (proj2 (Z.leb_le _ _)) by lia; cbn [ok_or res_bind].
  all: by rewrite (proj2 (Z.eqb_eq _ _)) by lia.
Qed.

Lemma sponsors_ok st l : tracked st l -> RentLedger_check_sponsors system_id l keys st = Ok tt.
Proof.
  intros Htk. unfold RentLedger_check_sponsors.
  assert (Hall : forall e, e ∈ merge_sort by_key (map_to_list (rl_sponsors l)) -> check_sponsor system_id l keys st e = Ok tt).
  { intros [k [paid refunded]] Hin. rewrite merge_sort_Permutation in Hin. apply elem_of_map_to_list in Hin.
    destruct (tk_known _ _ Htk _ _ Hin) as (i & Hi & Hk). rewrite (keys_lookup i) in Hk by (by apply payers_lt). simplify_eq.
    apply check_sponsor_ok; [done|by apply (tk_surplus _ _ Htk)|by apply (tk_sponsors _ _ Htk)|done]. }
  induction (merge_sort _ _) as [|e es IH]; [done|]. cbn. rewrite Hall by (by left). cbn. apply IH. intros e' He. apply Hall. by right.
Qed.

Lemma checked_ok st l : tracked st l -> checked system_id l keys st = Ok l.
Proof. intros H. unfold checked. by rewrite check_ok, sponsors_ok. Qed.

(** ** Moving rent *)

Lemma lookup_total_alter_eq (f : Image -> Image) (i : nat) (st : list Image) : (i < length st)%nat -> alter f i st !!! i = f (st !!! i).
Proof.
  intros Hi. apply list_lookup_total_correct. rewrite list_lookup_alter_eq. by rewrite (list_lookup_lookup_total_lt st i).
Qed.

Lemma lookup_total_alter_ne (f : Image -> Image) (i j : nat) (st : list Image) : i <> j -> alter f i st !!! j = st !!! j.
Proof. intros H. rewrite !list_lookup_total_alt. by rewrite list_lookup_alter_ne. Qed.

(** A successful action moves rent between the sponsor and the vault only. *)
Lemma action_moves a st deposit st' :
  length st = 6%nat -> ea_sponsor a ∈ payers -> 0 <= deposit -> Action_apply system_id rent a st deposit = (None, st') ->
  length st' = 6%nat /\
  exists moved, im_lamports (st' !!! VAULT) = im_lamports (st !!! VAULT) + moved /\ - deposit <= moved /\
    im_lamports (st' !!! ea_sponsor a) = im_lamports (st !!! ea_sponsor a) - moved /\ 0 <= im_lamports (st' !!! ea_sponsor a) /\
    forall i, i ∈ payers -> i <> ea_sponsor a -> im_lamports (st' !!! i) = im_lamports (st !!! i).
Proof.
  intros Hst Hsp Hd Ha. apply payers_lt in Hsp as (Hlt & Hnv & Hnt). apply Action_apply_None in Ha as (nr & _ & Hs & Hv & ->).
  set (old := old_rent_of system_id rent (st !!! TARGET)) in *. cbv zeta in Hs, Hv |- *. split; [by rewrite !length_alter|].
  exists (saturating_sub nr old - Z.min (saturating_sub old nr) deposit).
  rewrite lookup_total_alter_eq by (rewrite !length_alter, Hst; unfold VAULT; lia). cbn [im_lamports set_lamports].
  rewrite (lookup_total_alter_ne _ VAULT (ea_sponsor a)), lookup_total_alter_eq by (done || rewrite ?length_alter; lia). cbn [im_lamports set_lamports].
  split_and!; [lia|unfold saturating_sub; lia|lia|lia|]. intros i (Hi & Hiv & Hit)%payers_lt Hne. by rewrite !lookup_total_alter_ne by done.
Qed.

(** The ledger after rent moved. *)
Definition moved_ledger (l : RentLedger) (sponsor : Pubkey) (deposit moved : Z) : RentLedger :=
  let totals := totals_of l sponsor in
  mkLedger (<[keys !!! TARGET := deposit + moved]> (rl_deposits l))
    (<[sponsor := if 0 <=? moved then (totals.1 + moved, totals.2) else (totals.1, totals.2 - moved)]> (rl_sponsors l))
    (rl_opening l) (rl_floor l) (rl_surplus l).

Lemma moved_tracked st st' l sponsor deposit moved :
  tracked st l -> length st' = 6%nat -> sponsor ∈ payers -> rl_deposits l !! (keys !!! TARGET) = Some deposit -> - deposit <= moved ->
  im_lamports (st' !!! VAULT) = im_lamports (st !!! VAULT) + moved ->
  im_lamports (st' !!! sponsor) = im_lamports (st !!! sponsor) - moved -> 0 <= im_lamports (st' !!! sponsor) ->
  (forall i, i ∈ payers -> i <> sponsor -> im_lamports (st' !!! i) = im_lamports (st !!! i)) ->
  (forall opening, rl_opening l !! (keys !!! sponsor) = Some opening -> opening + (totals_of l (keys !!! sponsor)).2 + Z.max 0 (- moved) < u64_bound) ->
  tracked st' (moved_ledger l (keys !!! sponsor) deposit moved).
Proof.
  intros Htk Hst Hsp Hd Hm Hv Hs Hpos Hrest Hroom. pose proof (tk_deposits _ _ Htk _ _ Hd) as Hd0.
  split; cbn [rl_deposits rl_sponsors rl_opening rl_floor rl_surplus moved_ledger]; [done| | | | | |].
  - intros k d. rewrite lookup_insert_Some. intros [[<- <-]|[_ Hk]]; [lia|]. by apply (tk_deposits _ _ Htk k).
  - rewrite lookup_insert_eq. by eexists.
  - apply (tk_surplus _ _ Htk).
  - rewrite (map_sum_insert _ _ deposit) by done. pose proof (tk_backed _ _ Htk). lia.
  - intros k t. rewrite lookup_insert_Some. intros [[<- _]|[_ Hk]]; [|by apply (tk_known _ _ Htk k t)].
    exists sponsor. split; [done|]. apply keys_lookup. by apply payers_lt.
  - intros i Hi. destruct (tk_sponsors _ _ Htk i Hi) as (opening & Ho & Hr & Hp & Hb). exists opening. split; [done|].
    unfold totals_of in *. cbn [rl_sponsors moved_ledger]. destruct (decide (i = sponsor)) as [->|Hne].
    + rewrite lookup_insert_eq. cbn [default]. specialize (Hroom _ Ho). unfold surplus_of in *. cbn [rl_surplus moved_ledger].
      destruct (Z.leb_spec 0 moved); cbn [fst snd Datatypes.id]; unfold totals_of; split_and!; lia.
    + rewrite lookup_insert_ne; [rewrite Hrest by done; unfold surplus_of; done|]. intros E. apply Hne. symmetry.
      eapply NoDup_lookup; [done|apply keys_lookup; by apply payers_lt|rewrite E; apply keys_lookup; by apply payers_lt].
Qed.

Lemma same_tracked st st' l :
  tracked st l -> length st' = 6%nat -> im_lamports (st' !!! VAULT) = im_lamports (st !!! VAULT) ->
  (forall i, i ∈ payers -> im_lamports (st' !!! i) = im_lamports (st !!! i)) -> tracked st' l.
Proof.
  intros [? ? ? ? ? ? Hs] Hst Hv Hi. split; try done; [by rewrite Hv|]. intros i Hin. destruct (Hs i Hin) as (o & ?). exists o. by rewrite Hi.
Qed.

(** Refunds of a sponsor still fit 64 bits. *)
Definition room (l : RentLedger) (sponsor : Pubkey) (st st' : list Image) : Prop :=
  forall opening, rl_opening l !! sponsor = Some opening ->
    opening + (totals_of l sponsor).2 + Z.max 0 (im_lamports (st !!! VAULT) - im_lamports (st' !!! VAULT)) < u64_bound.

Lemma predicted_step a st st' l deposit refusal :
  tracked st l -> ea_sponsor a ∈ payers -> rl_deposits l !! (keys !!! TARGET) = Some deposit ->
  Action_apply system_id rent a st deposit = (refusal, st') -> room l (keys !!! ea_sponsor a) st st' ->
  exists l', RentLedger_apply system_id l keys (keys !!! ea_sponsor a) st st' = Ok l' /\ tracked st' l'.
Proof.
  intros Htk Hsp Hd Ha Hroom. unfold RentLedger_apply. cbv zeta. rewrite Hd. cbn [default Datatypes.id].
  destruct refusal as [e|].
  { apply Action_apply_Some in Ha as ->. rewrite Z.eqb_refl, (checked_ok st l Htk). eauto. }
  destruct (action_moves a st deposit st' (tk_length _ _ Htk) Hsp (tk_deposits _ _ Htk _ _ Hd) Ha) as (Hst & moved & Hv & Hm & Hs & Hpos & Hrest).
  destruct (decide (moved = 0)) as [->|Hne].
  { assert (Htk' : tracked st' l).
    { apply (same_tracked st); [done|done|lia|]. intros i Hi. destruct (decide (i = ea_sponsor a)) as [->|]; [lia|by apply Hrest]. }
    rewrite (proj2 (Z.eqb_eq _ _)) by lia. rewrite (checked_ok st' l Htk'). eauto. }
  assert (Htk' : tracked st' (moved_ledger l (keys !!! ea_sponsor a) deposit moved)).
  { apply (moved_tracked st); try done. intros o Ho. specialize (Hroom o Ho). lia. }
  exists (moved_ledger l (keys !!! ea_sponsor a) deposit moved). split; [|done]. apply checked_ok in Htk'.
  rewrite (proj2 (Z.eqb_neq _ _)) by lia. unfold moved_ledger, totals_of in Htk' |- *.
  destruct (Z.leb_spec 0 moved) as [Hp|Hp].
  - rewrite (proj2 (Z.leb_le _ _)) by lia. replace (im_lamports (st' !!! VAULT) - im_lamports (st !!! VAULT)) with moved by lia. exact Htk'.
  - rewrite (proj2 (Z.leb_gt _ _)) by lia. rewrite (proj2 (Z.leb_le _ _)) by lia.
    replace (im_lamports (st !!! VAULT) - im_lamports (st' !!! VAULT)) with (- moved) by lia. rewrite !Z.sub_opp_r, Z.add_opp_r. exact Htk'.
Qed.
End ledger.

(** * The workload *)

Section workload.
Context (system_id : Pubkey) (rent : Z -> Z) (show_key : Pubkey -> string) (show_hash : list Z -> string).
#[local] Hint Extern 0 (Inhabited Image) => exact (Image_inhabited system_id) : typeclass_instances.

Lemma alter_same (f : Image -> Image) (i : nat) (st : list Image) : f (st !!! i) = st !!! i -> alter f i st = st.
Proof.
  intros H. apply list_eq. intros j. destruct (decide (j = i)) as [->|Hne]; [|by rewrite list_lookup_alter_ne].
  rewrite list_lookup_alter_eq. destruct (st !! i) as [x|] eqn:E; [|done]. cbn. rewrite (list_lookup_total_correct _ _ _ E) in H. by rewrite H.
Qed.

Lemma charge_fee_zero st : 0 <= im_lamports (st !!! PAYER) -> charge_fee system_id 0 st = Some st.
Proof.
  intros H. unfold charge_fee, checked_sub64. rewrite (proj2 (Z.leb_le _ _) H), Z.sub_0_r. cbn. f_equal. apply alter_same. by destruct (st !!! PAYER).
Qed.

(** The workload accepts exactly the predicted execution.  On images its ledger describes, a
    free transaction is accepted if and only if the images read before are the expected ones, those
    read after are the predicted ones, the record agrees and the base did not change: the rent
    ledger never objects to a predicted movement.  What is accepted is described by the new ledger,
    so every deposit stays backed by the vault and every sponsor's balance is accounted for. *)
Theorem workload_accepts_the_prediction w a an r deposit refusal after :
  NoDup (wl_keys w) -> length (wl_keys w) = 6%nat -> tracked system_id (wl_keys w) (wl_expected w) (wl_ledger w) ->
  ea_sponsor a ∈ payers -> rl_deposits (wl_ledger w) !! (wl_keys w !!! TARGET) = Some deposit ->
  an_record an = Some r -> tr_fee r = 0 ->
  Action_apply system_id rent a (wl_expected w) deposit = (refusal, after) ->
  room system_id (wl_ledger w) (wl_keys w !!! ea_sponsor a) (wl_expected w) after ->
  (is_ok (Workload_step system_id rent show_key show_hash w a an) = true <->
     read_state system_id (an_before an) = Ok (wl_expected w) /\ read_state system_id (an_after an) = Ok after /\
     Record_check system_id show_key show_hash r (wl_keys w) (wl_expected w) after (error 0 <$> refusal) = Ok tt /\
     an_base an = wl_base_images w) /\
  forall w', Workload_step system_id rent show_key show_hash w a an = Ok w' ->
    wl_expected w' = after /\ tracked system_id (wl_keys w') (wl_expected w') (wl_ledger w').
Proof.
  intros Hnd Hlen Htk Hsp Hd Hrec Hfee Ha Hroom.
  destruct (predicted_step system_id rent (wl_keys w) Hnd Hlen a _ _ _ deposit refusal Htk Hsp Hd Ha Hroom) as (l' & Hl & Htk').
  assert (Hpay : charge_fee system_id (tr_fee r) after = Some after).
  { rewrite Hfee. apply charge_fee_zero. destruct (tk_sponsors _ _ _ _ Htk' PAYER ltac:(by left)) as (? & _ & _ & ? & _). done. }
  unfold Workload_step, Workload_run. destruct (read_state system_id (an_before an)) as [current|e]; cbn [res_bind]; [|naive_solver].
  case_bool_decide as Hcur; [|naive_solver]. subst current. rewrite Hrec. cbn [ok_or res_bind]. rewrite Hd. cbn [ok_or res_bind].
  rewrite Ha. cbn [res_bind fst snd]. rewrite Hpay. cbn [ok_or res_bind].
  destruct (read_state system_id (an_after an)) as [observed|e]; cbn [res_bind]; [|naive_solver].
  case_bool_decide as Hobs; [|naive_solver]. subst observed.
  destruct (Record_check _ _ _ r _ _ after _) as [[]|e]; cbn [map_err res_bind]; [|naive_solver]. rewrite Hl. cbn [map_err res_bind].
  case_bool_decide as Hbase; [|naive_solver]. split; [naive_solver|]. intros w' [= <-]. done.
Qed.
End workload.

(** * The exact charge *)

Section boundary.
Context (system_id : Pubkey) (rent : Z -> Z).
#[local] Hint Extern 0 (Inhabited Image) => exact (Image_inhabited system_id) : typeclass_instances.

(** [revert] undoes what [a] does to a target image, and asks back the rent [a] paid. *)
Definition reverts (a revert : EphAction) (t : Image) : Prop :=
  ea_sponsor revert = ea_sponsor a /\
  exists paid, new_rent_of system_id rent a t = Ok paid /\ old_rent_of system_id rent (lifecycle_image system_id a t) = paid /\
    new_rent_of system_id rent revert (lifecycle_image system_id a t) = Ok (old_rent_of system_id rent t) /\
    lifecycle_image system_id revert (lifecycle_image system_id a t) = t.

Lemma close_reverts_create caller sponsor n :
  caller <> system_id -> 0 <= n < u32_bound ->
  reverts (mkEphAction (Create n) caller 0 sponsor) (mkEphAction Close caller 0 sponsor) (empty system_id).
Proof.
  intros Hc Hn. split; [done|]. exists (rent n). unfold new_rent_of, old_rent_of, lifecycle_image. cbn.
  rewrite (bool_decide_eq_true_2 (system_id = system_id)), (bool_decide_eq_false_2 (caller = system_id)), (bool_decide_eq_true_2 (caller = caller)) by done.
  rewrite length_replicate, Z2Nat.id, Z.mod_small by lia. done.
Qed.

Lemma resize_reverts_growth caller sponsor n t :
  caller <> system_id -> im_owner t = caller -> Z.of_nat (length (im_data t)) <= n < u32_bound ->
  reverts (mkEphAction (Resize n) caller 0 sponsor) (mkEphAction (Resize (Z.of_nat (length (im_data t)))) caller 0 sponsor) t.
Proof.
  intros Hc Ho Hn. split; [done|]. exists (rent n). unfold new_rent_of, old_rent_of, lifecycle_image. cbn.
  rewrite Ho, (bool_decide_eq_false_2 (caller = system_id)), (bool_decide_eq_true_2 (caller = caller)) by done. cbn. unfold resized.
  rewrite length_app, length_take, length_replicate, Nat2Z.id.
  replace (Z.of_nat (Z.to_nat n `min` length (im_data t) + (Z.to_nat n - length (im_data t)))) with n by lia.
  rewrite !Z.mod_small by lia. split_and!; try done. rewrite (take_ge (im_data t)) by lia. rewrite take_app_length.
  replace (length (im_data t) - (Z.to_nat n `min` length (im_data t) + (Z.to_nat n - length (im_data t))))%nat with 0%nat by lia.
  cbn. rewrite app_nil_r. by destruct t.
Qed.

Definition boundary_sponsors : list nat := [SPONSOR; SUBSTITUTE].

Lemma boundary_sponsors_lt i : i ∈ boundary_sponsors -> (i < 6)%nat /\ i <> PAYER /\ i <> TARGET /\ i <> VAULT.
Proof.
  intros H. repeat (apply elem_of_cons in H as [->|H]; [unfold PAYER, SPONSOR, SUBSTITUTE, VAULT, TARGET; lia|]). by apply not_elem_of_nil in H.
Qed.

(** The charge of a funded sponsor is the rent it lacks, and nothing comes back. *)
Lemma boundary_charge_spec a revert before deposit charge :
  length before = 6%nat -> ea_sponsor a ∈ boundary_sponsors -> 0 <= deposit ->
  boundary_charge system_id rent a revert before deposit = Ok charge ->
  exists paid, new_rent_of system_id rent a (before !!! TARGET) = Ok paid /\ charge = paid - old_rent_of system_id rent (before !!! TARGET) /\
    0 < charge < im_lamports (before !!! ea_sponsor a) /\ im_lamports (before !!! VAULT) + charge < u64_bound.
Proof.
  intros Hlen (Hlt & Hnp & Hnt & Hnv)%boundary_sponsors_lt Hd. unfold boundary_charge. case_match; [|done].
  destruct (Action_apply _ _ a _ deposit) as [refusal probe] eqn:Ha. case_bool_decide; [subst refusal|done].
  apply Action_apply_None in Ha as (paid & Hn & _ & Hv & ->). rewrite !lookup_total_alter_ne in Hn by done. cbv zeta in Hv |- *.
  rewrite !lookup_total_alter_ne in Hv by done.
  rewrite lookup_total_alter_eq by (rewrite !length_alter, Hlen; unfold VAULT; lia). cbn [im_lamports set_lamports].
  rewrite !lookup_total_alter_ne by done. set (old := old_rent_of _ _ _) in *.
  destruct (checked_sub64 _ _) as [c|] eqn:Hc; [|done]. apply checked_sub64_Some in Hc as [-> Hc]. cbn [ok_or res_bind].
  case_match; [|done]. bools. intros [= <-]. unfold saturating_sub in *. exists paid. split; [done|]. lia.
Qed.

Lemma set_lamports_eq n x : n = im_lamports x -> set_lamports n x = x.
Proof. intros ->. by destruct x. Qed.

Lemma set_lamports_twice n m x : set_lamports n (set_lamports m x) = set_lamports n x.
Proof. done. Qed.

(** An action whose rent a sponsor lacks, given what the sponsor and the vault hold. *)
Lemma Action_apply_charge a st deposit paid :
  0 <= deposit -> new_rent_of system_id rent a (st !!! TARGET) = Ok paid ->
  let charge := paid - old_rent_of system_id rent (st !!! TARGET) in
  0 < charge -> im_lamports (st !!! ea_sponsor a) < u64_bound -> im_lamports (st !!! VAULT) + charge < u64_bound -> 0 <= im_lamports (st !!! VAULT) ->
  Action_apply system_id rent a st deposit =
    if charge <=? im_lamports (st !!! ea_sponsor a) then
      (None, alter (set_lamports (im_lamports (st !!! VAULT) + charge)) VAULT
               (alter (set_lamports (im_lamports (st !!! ea_sponsor a) - charge)) (ea_sponsor a) (alter (lifecycle_image system_id a) TARGET st)))
    else (Some InsufficientFunds, st).
Proof.
  intros Hd Hn charge Hc Hs Hv Hv0. unfold Action_apply. rewrite Hn. cbv zeta.
  replace (saturating_sub (old_rent_of _ _ _) paid `min` deposit) with 0 by (unfold saturating_sub; lia).
  replace (saturating_sub paid _) with charge by (unfold saturating_sub; lia).
  unfold checked_add64. rewrite !Z.add_0_r. rewrite (proj2 (Z.ltb_lt _ _) Hs), (proj2 (Z.ltb_lt _ _) Hv). cbn [mbind option_bind]. unfold checked_sub64.
  destruct (Z.leb_spec charge (im_lamports (st !!! ea_sponsor a))); [|done]. rewrite (proj2 (Z.leb_le _ _)) by lia. by rewrite Z.sub_0_r.
Qed.

(** An action that gives rent back out of a deposit that covers it. *)
Lemma Action_apply_refund a st deposit paid :
  new_rent_of system_id rent a (st !!! TARGET) = Ok paid ->
  let refund := old_rent_of system_id rent (st !!! TARGET) - paid in
  0 <= refund <= deposit -> im_lamports (st !!! ea_sponsor a) + refund < u64_bound -> 0 <= im_lamports (st !!! ea_sponsor a) ->
  refund <= im_lamports (st !!! VAULT) < u64_bound ->
  Action_apply system_id rent a st deposit =
    (None, alter (set_lamports (im_lamports (st !!! VAULT) - refund)) VAULT
             (alter (set_lamports (im_lamports (st !!! ea_sponsor a) + refund)) (ea_sponsor a) (alter (lifecycle_image system_id a) TARGET st))).
Proof.
  intros Hn refund Hr Hs Hs0 Hv. unfold Action_apply. rewrite Hn. cbv zeta.
  replace (saturating_sub (old_rent_of _ _ _) paid `min` deposit) with refund by (unfold saturating_sub; lia).
  replace (saturating_sub paid _) with 0 by (unfold saturating_sub; lia).
  unfold checked_add64. rewrite !Z.add_0_r. rewrite (proj2 (Z.ltb_lt _ _) Hs), (proj2 (Z.ltb_lt _ _) (proj2 Hv)). cbn [mbind option_bind]. unfold checked_sub64.
  rewrite !(proj2 (Z.leb_le _ _)) by lia. cbn. by rewrite !Z.sub_0_r.
Qed.

(** The sweep around a rent charge always comes out as the scenario demands.  Whenever an action
    has a charge within a sponsor's balance and another action reverts it, the sponsor left with one
    lamport less than the charge is refused for insufficient funds, and left with exactly the charge
    is accepted, spends all of it, and after the revert and the transfers back every image is as it
    was. *)
Theorem charge_boundary_is_exact a revert before deposit charge :
  length before = 6%nat -> ea_sponsor a ∈ boundary_sponsors -> reverts a revert (before !!! TARGET) ->
  0 <= deposit -> deposit + charge < u64_bound -> 0 <= im_lamports (before !!! PAYER) -> 0 <= im_lamports (before !!! VAULT) ->
  im_lamports (before !!! PAYER) + im_lamports (before !!! ea_sponsor a) < u64_bound ->
  boundary_charge system_id rent a revert before deposit = Ok charge ->
  boundary_point system_id rent a revert before deposit charge true = Ok (Some InsufficientFunds, []) /\
  exists images, boundary_point system_id rent a revert before deposit charge false = Ok (None, images).
Proof.
  intros Hlen Hsp (Hrs & paid' & Hn' & Hold & Hrev & Himg) Hd Hroom Hp0 Hv0 Hbal Hc.
  destruct (boundary_charge_spec _ _ _ _ _ Hlen Hsp Hd Hc) as (paid & Hn & Hch & Hin & Hv). clear Hc. rewrite Hn in Hn'. injection Hn' as <-.
  apply boundary_sponsors_lt in Hsp as (Hlt & Hnp & Hnt & Hnv). unfold boundary_point. cbv zeta.
  destruct before as [|p [|x [|t [|v [|y [|z [|]]]]]]]; try done. unfold SPONSOR, SUBSTITUTE, PAYER, TARGET, VAULT in *.
  assert (ea_sponsor a = 1%nat \/ ea_sponsor a = 4%nat \/ ea_sponsor a = 5%nat) as [E|[E|E]] by lia; rewrite E in *; cbn in *.
  all: split; [|eexists].
  all: rewrite checked_sub64_ok by lia; cbn [ok_or res_bind]; rewrite checked_add64_ok by lia; cbn [ok_or res_bind].
  all: match goal with |- context [Action_apply _ _ ?act ?st ?d] =>
    rewrite (Action_apply_charge act st d paid Hd Hn) by (rewrite ?E; cbn; lia) end; rewrite E; cbn -[u64_bound u64_max]; rewrite <- Hch.
  1,3,5: by rewrite (proj2 (Z.leb_gt _ _)) by lia.
  all: rewrite (proj2 (Z.leb_le _ _)) by lia; cbn -[u64_bound u64_max].
  all: rewrite (proj2 (Z.eqb_eq _ _)) by lia; rewrite checked_add64_ok by lia; cbn [ok_or res_bind].
  all: match goal with |- context [Action_apply _ _ ?act ?st ?d] =>
    rewrite (Action_apply_refund act st d (old_rent_of system_id rent t))
      by (rewrite ?Hrs; cbn -[u64_bound u64_max]; rewrite ?Hold; lia || exact Hrev) end; rewrite Hrs; cbn -[u64_bound u64_max set_lamports]; rewrite Hold, Himg.
  all: cbn [set_lamports im_lamports]; rewrite checked_add64_ok by lia; cbn [ok_or res_bind]; rewrite checked_sub64_ok by lia; cbn [ok_or res_bind].
  all: rewrite bool_decide_eq_true_2; [done|]; rewrite !set_lamports_twice, !set_lamports_eq by lia; done.
Qed.
End boundary.

Section exact.
Context (system_id : Pubkey) (rent : Z -> Z) (show_key : Pubkey -> string) (show_hash : list Z -> string).

(** C19: what the search over conflicting lifecycle operations finds is always an explanation: some
    order of all the records, each explained at the state the earlier ones lead to, that ends in the
    observed state with the ledger returned.  When no record paid a fee, which is what the
    scenario demands of the rollup elsewhere, it finds one exactly when there is one.  With fees only the first
    half holds: a fee the payer of one record cannot pay ends the search ([fee_hides_the_order]). *)
Theorem serialization_search_is_exact keys before final_state records ledger :
  (length records <= 32)%nat ->
  (forall ledger', find_serialization system_id rent show_key show_hash (length records) keys before final_state records 0 ledger = Some ledger' ->
     exists order, order ≡ₚ records /\
       serial system_id rent show_key show_hash keys order (before, ledger) (final_state, ledger')) /\
  (Forall (fun ar => tr_fee ar.2 = 0) records ->
   Forall (fun i => 0 <= im_lamports i) before -> is_Some (rl_deposits ledger !! (keys !!! TARGET)) ->
   is_Some (find_serialization system_id rent show_key show_hash (length records) keys before final_state records 0 ledger) <->
   exists order ledger', order ≡ₚ records /\
     serial system_id rent show_key show_hash keys order (before, ledger) (final_state, ledger')).
Proof.
  intros Hn. assert (Hm : mask_ok 0 (length records)) by (intros i _; by rewrite Z.bits_0).
  assert (Hall : unused 0 records = indexed records).
  { unfold unused. by apply filter_every. }
  assert (Hsound : forall ledger', find_serialization system_id rent show_key show_hash (length records) keys before final_state records 0 ledger = Some ledger' ->
    exists order, order ≡ₚ records /\ serial system_id rent show_key show_hash keys order (before, ledger) (final_state, ledger')).
  { intros l' H. destruct (find_sound _ _ _ _ _ _ _ _ _ _ _ _ Hm Hn H) as (order & Hp & Hser).
    exists order. rewrite Hall, indexed_snd in Hp. done. }
  split; [exact Hsound|]. intros Hfee Hf Hd. split.
  - intros [l' H]. destruct (Hsound l' H) as (order & ? & ?). by exists order, l'.
  - intros (order & l' & Hp & Hser). apply (find_complete system_id rent show_key show_hash keys _ before final_state records 0 ledger order l' Hm Hn); try done.
    + rewrite Hall. unfold indexed. by rewrite length_imap.
    + by rewrite Hall, indexed_snd.
Qed.
End exact.

(** ** Examples *)

Section examples.
#[local] Open Scope string_scope.
#[local] Open Scope Z_scope.
#[local] Open Scope list_scope.

Definition demo_rent (n : Z) : Z := 10 + n.
Definition demo_show_key (k : Pubkey) : string := show_u64 k.
Definition demo_show_hash (d : list Z) : string := show_u64 (sum_Z d).
Definition demo_keys : list Pubkey := [1; 2; 3; 4; 5; 6].
Definition demo_image (x : Z) : Image := mkImage x [] 0 false u64_max.
Definition demo_images : list Image := demo_image <$> [12; 100; 0; 50; 7; 0].
Definition demo_ledger : RentLedger := mkLedger {[ 3 := 0 ]} ∅ (list_to_map [(1, 12); (2, 100); (5, 7)]) 0 0.
Definition demo_created : list Image :=
  [demo_image 12; demo_image 90; mkImage 0 [] 9 false u64_max; demo_image 60; demo_image 7; demo_image 0].

Definition demo_create (sponsor : nat) : EphAction := mkEphAction (Create 0) 9 0 sponsor.
Definition demo_lines (before after : list Image) : list string :=
  (fun l => "Program log: CellObservation: " +:+ l) <$>
    observation 0 demo_show_key demo_show_hash before ++ observation 0 demo_show_key demo_show_hash after.

(** The sponsor's create went first and the payer's was refused. *)
Definition demo_first : EphAction * TxRecord :=
  (demo_create SPONSOR, mkTxRecord [1; 2; 3; 4] None 0 [12; 100; 0; 50] [12; 90; 0; 60] (demo_lines demo_images demo_created)).
Definition demo_second (fee : Z) : EphAction * TxRecord :=
  (demo_create PAYER,
   mkTxRecord [1; 2; 3; 4] (Some (TxInstructionError 0 InvalidAccountData)) fee [12; 90; 0; 60] [12 - fee; 90; 0; 60] []).
Definition demo_final (fee : Z) : list Image := <[0%nat := demo_image (12 - fee)]> demo_created.

Definition demo_search (fee : Z) (records : list (EphAction * TxRecord)) : option RentLedger :=
  find_serialization 0 demo_rent demo_show_key demo_show_hash (length records) demo_keys demo_images (demo_final fee) records 0 demo_ledger.

Lemma serialization_search_is_exact_witness :
  exists order ledger', order ≡ₚ [demo_second 0; demo_first] /\
    serial 0 demo_rent demo_show_key demo_show_hash demo_keys order (demo_images, demo_ledger) (demo_final 0, ledger').
Proof.
  apply (serialization_search_is_exact 0 demo_rent demo_show_key demo_show_hash demo_keys demo_images (demo_final 0)
    [demo_second 0; demo_first] demo_ledger).
  - cbn. lia.
  - by repeat constructor.
  - repeat constructor; cbn; lia.
  - by eexists.
  - vm_compute. by eexists.
Defined.

Lemma action_conserves_lamports_witness :
  Action_apply 0 demo_rent (demo_create SPONSOR) demo_images 0 = (None, demo_created) /\ total demo_created = total demo_images.
Proof.
  split; [by vm_compute|].
  refine (proj1 (action_conserves_lamports 0 demo_rent (demo_create SPONSOR) demo_images 0 None demo_created _ _ _ _ _)).
  - done.
  - cbn. unfold SPONSOR. lia.
  - done.
  - done.
  - by vm_compute.
Defined.

Definition demo_workload : Workload := mkWorkload demo_keys demo_images 0 demo_ledger 50 [].
Definition demo_answers : Answers :=
  mkAnswers (Some <$> demo_images) (Some demo_first.2) (Some <$> demo_created) [].

Lemma demo_tracked : tracked 0 demo_keys demo_images demo_ledger.
Proof.
  split.
  - done.
  - intros k d. cbn. by intros [_ <-]%lookup_singleton_Some.
  - by eexists.
  - done.
  - by vm_compute.
  - intros k t. cbn. by rewrite lookup_empty.
  - intros i Hi. apply elem_of_cons in Hi as [->|Hi]; [exists 12; split_and!; by vm_compute|].
    apply elem_of_cons in Hi as [->|Hi]; [exists 100; split_and!; by vm_compute|].
    apply elem_of_cons in Hi as [->|Hi]; [exists 7; split_and!; by vm_compute|]. by apply not_elem_of_nil in Hi.
Qed.

Lemma workload_accepts_the_prediction_witness :
  is_ok (Workload_step 0 demo_rent demo_show_key demo_show_hash demo_workload (demo_create SPONSOR) demo_answers) = true.
Proof.
  refine (proj2 (proj1 (workload_accepts_the_prediction 0 demo_rent demo_show_key demo_show_hash demo_workload (demo_create SPONSOR)
    demo_answers demo_first.2 0 None demo_created _ _ demo_tracked _ _ _ _ _ _)) _).
  - repeat constructor; set_solver by lia.
  - done.
  - right. left.
  - done.
  - done.
  - done.
  - by vm_compute.
  - intros opening Ho. vm_compute in Ho. injection Ho as <-. by vm_compute.
  - split_and!; by vm_compute.
Defined.

Lemma charge_boundary_is_exact_witness :
  boundary_charge 0 demo_rent (demo_create SPONSOR) (mkEphAction Close 9 0 SPONSOR) demo_images 0 = Ok 10 /\
  boundary_point 0 demo_rent (demo_create SPONSOR) (mkEphAction Close 9 0 SPONSOR) demo_images 0 10 true = Ok (Some InsufficientFunds, []).
Proof.
  split; [by vm_compute|].
  refine (proj1 (charge_boundary_is_exact 0 demo_rent (demo_create SPONSOR) (mkEphAction Close 9 0 SPONSOR) demo_images 0 10 _ _ _ _ _ _ _ _ _)).
  - done.
  - by left.
  - by apply (close_reverts_create 0 demo_rent 9 SPONSOR 0).
  - done.
  - done.
  - done.
  - done.
  - by vm_compute.
  - by vm_compute.
Defined.

(** With a fee, the order of the records decides: the payer's create is tried first, succeeds in
    the prediction and leaves less than the fee, and the search ends without trying the other. *)
Example fee_hides_the_order :
  demo_search 5 [demo_second 5; demo_first] = None /\ is_Some (demo_search 5 [demo_first; demo_second 5]).
Proof. split; [by vm_compute|]. vm_compute. by eexists. Qed.
End examples.
