(* ===== verification/Restart.v ===== *)
(** Restarting a rollup under load: [redshift/src/scenarios/lifecycle/restart_under_load.rs].

    Concurrent writers journal what they send ([lane_step]); after a restart the journal is resolved
    against the recovered ledger, its losses are judged and the accounts are compared
    ([resolve], [settle_after_restart], [check_state]).  The chain answers through arguments: what a
    signature's transaction is, and what an account holds; both are quiescent while they are read. *)
From S2P Require Import Prelude World Cell Instr.

#[local] Open Scope Z_scope.
#[local] Open Scope list_scope.

Inductive Mode := Graceful | Sigkill.

#[export] Instance RestartMode_eq_dec : EqDecision Mode.
Proof. solve_decision. Defined.

Definition hard_kill (m : Mode) : bool := match m with Sigkill => true | Graceful => false end.

Definition READY_TIMEOUT_SECS : Z := 120.
Definition LANES : nat := 8.
Definition FILL : nat := 128.
Definition SIGKILL : Z := 9.

Record RestartConfig := mkRestartConfig { rc_hard_kill : bool; rc_reset : bool; rc_ready_timeout : Z }.
Definition restart_config (m : Mode) : RestartConfig := mkRestartConfig (hard_kill m) false READY_TIMEOUT_SECS.

Inductive Outcome := Unresolved | Confirmed | Failed | Dropped.

#[export] Instance Outcome_eq_dec : EqDecision Outcome.
Proof. solve_decision. Defined.

Record JRecord := mkJRecord { jr_id : Z; jr_lane : nat; jr_signature : Z; jr_outcome : Outcome }.

#[export] Instance JRecord_eq_dec : EqDecision JRecord.
Proof. solve_decision. Defined.

Definition with_outcome (o : Outcome) (r : JRecord) : JRecord := mkJRecord (jr_id r) (jr_lane r) (jr_signature r) o.

(** * The writers *)

(** Where the task of a lane is. *)
Inductive Phase :=
| Ready                       (** at the loop's condition *)
| Preparing (id : Z)          (** awaiting [prepare] *)
| Submitting (index : nat)    (** awaiting [submit_prepared] *)
| Confirming (index : nat)    (** awaiting the status or the stop signal *)
| Backoff                     (** sleeping after a failed send *)
| Finished.

Record LaneState := mkLaneState
  { ls_admit : bool; ls_stop : bool; ls_records : list JRecord; ls_next_id : Z; ls_lanes : list Phase }.

(** What a task awaits: a prepared transaction's signature, a submission, a status. *)
Inductive LaneEvent :=
| Loop (lane : nat)
| Prepared (lane : nat) (signature : option Z)
| Submitted (lane : nat) (accepted : bool)
| Stopped (lane : nat)
| Status (lane : nat) (confirmed : option bool)  (** [None]: the request failed *)
| Slept (lane : nat)
| Halt
| StopAdmitting.

Definition set_phase (lane : nat) (p : Phase) (s : LaneState) : LaneState :=
  mkLaneState (ls_admit s) (ls_stop s) (ls_records s) (ls_next_id s) (<[lane := p]> (ls_lanes s)).

(** The record's outcome is stored and the loop goes on. *)
Definition record_outcome (lane index : nat) (o : Outcome) (s : LaneState) : LaneState :=
  mkLaneState (ls_admit s) (ls_stop s) (alter (with_outcome o) index (ls_records s)) (ls_next_id s) (<[lane := Ready]> (ls_lanes s)).

(** The first check of [await_status]. *)
Definition enter_status (lane index : nat) (s : LaneState) : LaneState :=
  if ls_stop s then record_outcome lane index Unresolved s else set_phase lane (Confirming index) s.

(** [None] where the event is not awaited. *)
Definition lane_step (s : LaneState) (e : LaneEvent) : option LaneState :=
  match e with
  | Loop lane =>
      match ls_lanes s !! lane with
      | Some Ready =>
          if ls_admit s then
            Some (mkLaneState (ls_admit s) (ls_stop s) (ls_records s) (ls_next_id s + 1)
                    (<[lane := Preparing (ls_next_id s)]> (ls_lanes s)))
          else Some (set_phase lane Finished s)
      | _ => None
      end
  | Prepared lane signature =>
      match ls_lanes s !! lane, signature with
      | Some (Preparing id), Some signature =>
          Some (mkLaneState (ls_admit s) (ls_stop s) (ls_records s ++ [mkJRecord id lane signature Unresolved]) (ls_next_id s)
                  (<[lane := Submitting (length (ls_records s))]> (ls_lanes s)))
      | Some (Preparing _), None => Some (set_phase lane Backoff s)
      | _, _ => None
      end
  | Submitted lane accepted =>
      match ls_lanes s !! lane with
      | Some (Submitting index) =>
          Some (if accepted : bool then enter_status lane index s else record_outcome lane index Unresolved s)
      | _ => None
      end
  | Stopped lane =>
      match ls_lanes s !! lane with
      | Some (Confirming index) => if ls_stop s then Some (record_outcome lane index Unresolved s) else None
      | _ => None
      end
  | Status lane confirmed =>
      match ls_lanes s !! lane with
      | Some (Confirming index) =>
          Some (record_outcome lane index
                  (match confirmed with Some true => Confirmed | Some false => Failed | None => Unresolved end) s)
      | _ => None
      end
  | Slept lane =>
      match ls_lanes s !! lane with
      | Some Backoff => Some (set_phase lane Ready s)
      | _ => None
      end
  | Halt => Some (mkLaneState false true (ls_records s) (ls_next_id s) (ls_lanes s))
  | StopAdmitting => Some (mkLaneState false (ls_stop s) (ls_records s) (ls_next_id s) (ls_lanes s))
  end.

(** [Lanes::start]: one task per sender. *)
Definition Lanes_start (senders : nat) (next_id : Z) : LaneState :=
  mkLaneState true false [] next_id (replicate senders Ready).

Fixpoint lane_run (s : LaneState) (es : list LaneEvent) : option LaneState :=
  match es with
  | [] => Some s
  | e :: es => s ← lane_step s e; lane_run s es
  end.

(** [Lanes::confirmed] *)
Definition confirmed (s : LaneState) : nat := length (filter (fun r => jr_outcome r = Confirmed) (ls_records s)).

(** [Lanes::drain], after [StopAdmitting]: the journal, once every task has ended. *)
Definition drain (s : LaneState) : option (list JRecord) :=
  if forallb (fun p => match p with Finished => true | _ => false end) (ls_lanes s) then Some (ls_records s) else None.

(** What [fill] waits for. *)
Definition filled (s : LaneState) (superblocks superblocks_at_boot snapshots snapshots_at_boot : Z) : bool :=
  (FILL <=? confirmed s)%nat && (superblocks_at_boot <? superblocks) && (snapshots_at_boot <? snapshots).

(** * Judging the recovered ledger *)

(** What a query for a transaction gives: an error, nothing, a transaction without metadata, or one
    that succeeded or failed. *)
Inductive TxAnswer := QueryFailed | Absent | NoMeta | Found (succeeded : bool).

Inductive RecoveryError :=
| LedgerQuery | MissingMeta | MissingAfterRestart | FailedAfterRestart | AccountQuery | AccountMissing | DataTooShort | WrongId | LaneOutOfRange.

Section judge.
Context (tx_of : Z -> TxAnswer).

Definition resolve_one (r : JRecord) : Result JRecord RecoveryError :=
  match jr_outcome r with
  | Unresolved =>
      match tx_of (jr_signature r) with
      | QueryFailed => Err LedgerQuery
      | NoMeta => Err MissingMeta
      | Found true => Ok (with_outcome Confirmed r)
      | Found false => Ok (with_outcome Failed r)
      | Absent => Ok (with_outcome Dropped r)
      end
  | _ => Ok r
  end.

Definition resolve (records : list JRecord) : Result (list JRecord) RecoveryError := collect_results resolve_one records.

(** A lane's confirmed records from the newest; [recovered] once one was found.  The positions of
    the records that were lost. *)
Fixpoint settle_lane (mode : Mode) (recovered : bool) (lane : list (nat * JRecord)) : Result (list nat) RecoveryError :=
  match lane with
  | [] => Ok []
  | (index, r) :: lane =>
      match tx_of (jr_signature r) with
      | QueryFailed => Err LedgerQuery
      | Absent =>
          if hard_kill mode && negb recovered then
            let? dropped := settle_lane mode recovered lane in Ok (index :: dropped)
          else Err MissingAfterRestart
      | NoMeta => Err MissingMeta
      | Found false => Err FailedAfterRestart
      | Found true => settle_lane mode true lane
      end
  end.

Definition by_id (a b : nat * JRecord) : Prop := jr_id a.2 <= jr_id b.2.

#[local] Instance by_id_dec a b : Decision (by_id a b).
Proof. unfold by_id. apply _. Defined.

(** The confirmed records of a lane, in id order. *)
Definition lane_records (records : list JRecord) (lane : nat) : list (nat * JRecord) :=
  merge_sort by_id
    (filter (fun ir => jr_outcome ir.2 = Confirmed /\ jr_lane ir.2 = lane) (imap (fun i r => (i, r)) records)).

Fixpoint settle_lanes (mode : Mode) (records : list JRecord) (lanes : list nat) : Result (list nat) RecoveryError :=
  match lanes with
  | [] => Ok []
  | lane :: lanes =>
      let? dropped := settle_lane mode false (reverse (lane_records records lane)) in
      let? rest := settle_lanes mode records lanes in
      Ok (dropped ++ rest)
  end.

(** The lanes that have confirmed records, in order. *)
Definition confirmed_lanes (records : list JRecord) : list nat :=
  merge_sort le (remove_dups (jr_lane <$> filter (fun r => jr_outcome r = Confirmed) records)).

Definition settle_after_restart (mode : Mode) (records : list JRecord) : Result (list JRecord) RecoveryError :=
  let? dropped := settle_lanes mode records (confirmed_lanes records) in
  Ok (imap (fun i r => if bool_decide (i ∈ dropped) then with_outcome Dropped r else r) records).
End judge.

(** ** The accounts *)

Section state.
Context `{HC : HeaderCodec}.
(** [er.account]: an error, nothing, or data. *)
Context (account_of : Pubkey -> Result (option (list Z)) unit).

(** The newest confirmed id of every lane; [None] where a lane is not one of the pool. *)
Fixpoint expected_ids (records : list JRecord) (expected : list (option Z)) : option (list (option Z)) :=
  match records with
  | [] => Some expected
  | r :: records =>
      if bool_decide (jr_outcome r = Confirmed) then
        match expected !! jr_lane r with
        | Some id => expected_ids records (<[jr_lane r := Some (Z.max (default 0 id) (jr_id r))]> expected)
        | None => None
        end
      else expected_ids records expected
  end.

Definition check_account (pda : Pubkey) (expected : option Z) : Result unit RecoveryError :=
  match expected with
  | None => Ok tt
  | Some id =>
      match account_of pda with
      | Err _ => Err AccountQuery
      | Ok None => Err AccountMissing
      | Ok (Some d) =>
          match CellHeader_written_id d with
          | None => Err DataTooShort
          | Some on_chain => ensure! (on_chain =? id) else WrongId in Ok tt
          end
      end
  end.

Fixpoint check_accounts (l : list (Pubkey * option Z)) : Result unit RecoveryError :=
  match l with
  | [] => Ok tt
  | (pda, expected) :: l => let? _ := check_account pda expected in check_accounts l
  end.

Definition check_state (pool : list Pubkey) (records : list JRecord) : Result unit RecoveryError :=
  match expected_ids records (replicate (length pool) None) with
  | None => Err LaneOutOfRange
  | Some expected => check_accounts (zip pool expected)
  end.
End state.

(** ** The exit *)

Record RestartOutcome := mkRestartOutcome
  { ro_needed_sigkill : bool; ro_exit_code : option Z; ro_exit_signal : option Z; ro_slot_before : option Z; ro_slot_after : option Z }.

Definition check_exit (mode : Mode) (o : RestartOutcome) : bool :=
  (match mode with
   | Graceful => negb (ro_needed_sigkill o) && bool_decide (ro_exit_code o = Some 0)
   | Sigkill => bool_decide (ro_exit_signal o = Some SIGKILL)
   end) &&
  match ro_slot_before o, ro_slot_after o with
  | Some before, Some after => before / 2 <=? after
  | _, _ => true
  end.

(** * The checks of [run_mode] after a restart *)

(** The judgement of a journal: resolve, settle, compare. *)
Definition recover `{HC : HeaderCodec} (tx_of : Z -> TxAnswer) (account_of : Pubkey -> Result (option (list Z)) unit)
    (mode : Mode) (pool : list Pubkey) (records : list JRecord) : Result (list JRecord) RecoveryError :=
  let? records := resolve tx_of records in
  let? records := settle_after_restart tx_of mode records in
  let? _ := check_state account_of pool records in
  Ok records.

(** What the chain answers at the stages of [run_mode]: the journals of both loads, the exits of both
    restarts, and the ledger and the accounts whenever they are read. *)
Record Stages := mkStages
  { sg_first_exit : RestartOutcome; sg_journal : list JRecord; sg_ledger1 : Z -> TxAnswer;
    sg_accounts1 : Pubkey -> Result (option (list Z)) unit;
    sg_resumed : list JRecord; sg_ledger2 : Z -> TxAnswer; sg_accounts2 : Pubkey -> Result (option (list Z)) unit;
    sg_second_exit : RestartOutcome; sg_ledger3 : Z -> TxAnswer; sg_accounts3 : Pubkey -> Result (option (list Z)) unit }.

Inductive ModeError := BadExit | NothingConfirmed | NothingResumed | NotAllConfirmed | BadRecovery (e : RecoveryError).

Definition recovery {A} (r : Result A RecoveryError) : Result A ModeError :=
  match r with Ok a => Ok a | Err e => Err (BadRecovery e) end.

Definition is_confirmed (r : JRecord) : bool := bool_decide (jr_outcome r = Confirmed).

(** [run_mode], after [fill] and [halt]. *)
Definition run_mode `{HC : HeaderCodec} (mode : Mode) (pool : list Pubkey) (sg : Stages) : Result unit ModeError :=
  ensure! check_exit mode (sg_first_exit sg) else BadExit in
  ensure! existsb is_confirmed (sg_journal sg) else NothingConfirmed in
  let? records := recovery (recover (sg_ledger1 sg) (sg_accounts1 sg) mode pool (sg_journal sg)) in
  let? resumed := recovery (resolve (sg_ledger2 sg) (sg_resumed sg)) in
  ensure! (0 <? length resumed)%nat else NothingResumed in
  ensure! forallb is_confirmed resumed else NotAllConfirmed in
  let records := records ++ resumed in
  let? _ := recovery (check_state (sg_accounts2 sg) pool records) in
  ensure! check_exit mode (sg_second_exit sg) else BadExit in
  let? records := recovery (settle_after_restart (sg_ledger3 sg) mode records) in
  recovery (check_state (sg_accounts3 sg) pool records).
