(* ===== verification/RestartProps.v ===== *)
(** Restarting under load: the journal is well formed however the writers run, and the judgement of a
    recovered ledger is exactly the durability rule. *)
From S2P Require Import Prelude World Cell Instr RefCodec Restart.

#[local] Open Scope Z_scope.
#[local] Open Scope list_scope.

(** * Settling *)

Section settle.
Context (tx_of : Z -> TxAnswer).

Definition kept (r : JRecord) : Prop := tx_of (jr_signature r) = Found true.
Definition absent (r : JRecord) : Prop := tx_of (jr_signature r) = Absent.

#[local] Instance absent_dec r : Decision (absent r).
Proof. unfold absent. destruct (tx_of _); (left; done) || (right; done). Defined.

(** A record of a lane, given those judged before it. *)
Definition accepted (mode : Mode) (recovered : bool) (before : list (nat * JRecord)) (r : JRecord) : Prop :=
  kept r \/ (absent r /\ hard_kill mode = true /\ recovered = false /\ Forall (fun x => absent x.2) before).

Lemma settle_lane_spec mode recovered l d :
  settle_lane tx_of mode recovered l = Ok d <->
  (forall l1 x l2, l = l1 ++ x :: l2 -> accepted mode recovered l1 x.2) /\ d = (filter (fun x => absent x.2) l).*1.
Proof.
  revert recovered d. induction l as [|[i r] l IH]; intros recovered d; cbn [settle_lane].
  - split; [intros [= <-]; split; [by intros [] ?|done]|by intros [_ ->]].
  - rewrite filter_cons. cbn [snd]. destruct (tx_of (jr_signature r)) as [| | |[]] eqn:E.
    + split; [done|]. intros [H _]. destruct (H [] (i, r) l eq_refl) as [Hk|[Hk _]]; unfold kept, absent in Hk; cbn in Hk; congruence.
    + rewrite decide_True by exact E. destruct (hard_kill mode && negb recovered) eqn:Hm.
      * apply andb_true_iff in Hm as [Hm Hn%negb_true_iff]. subst recovered. split.
        -- destruct (settle_lane tx_of mode false l) as [d'|] eqn:Hl; [|done]. cbn. intros [= <-]. apply IH in Hl as [Hacc ->].
           split; [|done]. intros [|y l1] x l2 Heq; simplify_eq/=.
           ++ right. split_and!; try done.
           ++ destruct (Hacc l1 x l2 eq_refl) as [Hk|(? & ? & ? & ?)]; [by left|right]. split_and!; try done. by constructor.
        -- intros [Hacc ->]. destruct (IH false (filter (fun x => absent x.2) l).*1) as [_ Hb]. rewrite Hb; [done|]. split; [|done].
           intros l1 x l2 ->. destruct (Hacc ((i, r) :: l1) x l2 eq_refl) as [Hk|(? & ? & ? & Hf)]; [by left|right].
           split_and!; try done. by inversion Hf.
      * split; [done|]. intros [H _]. destruct (H [] (i, r) l eq_refl) as [Hk|(_ & Hh & -> & _)]; [unfold kept in Hk; cbn in Hk; congruence|].
        by rewrite Hh in Hm.
    + split; [done|]. intros [H _]. destruct (H [] (i, r) l eq_refl) as [Hk|[Hk _]]; unfold kept, absent in Hk; cbn in Hk; congruence.
    + rewrite decide_False by (unfold absent; congruence). rewrite IH. apply and_iff_compat_r. split.
      * intros H [|y l1] x l2 Heq; simplify_eq/=; [by left|]. destruct (H l1 x l2 eq_refl) as [Hk|(_ & _ & [=] & _)]. by left.
      * intros H l1 x l2 ->. destruct (H ((i, r) :: l1) x l2 eq_refl) as [Hk|(_ & _ & _ & Hf)]; [by left|].
        inversion Hf as [|? ? Ha]; subst. unfold absent in Ha. cbn in Ha. congruence.
    + split; [done|]. intros [H _]. destruct (H [] (i, r) l eq_refl) as [Hk|[Hk _]]; unfold kept, absent in Hk; cbn in Hk; congruence.
Qed.

(** ** One lane *)

(** The durability rule for a confirmed record: it is in the ledger, or a hard kill lost it together
    with everything newer of its lane. *)
Definition durable (mode : Mode) (records : list JRecord) (r : JRecord) : Prop :=
  kept r \/
  (absent r /\ mode = Sigkill /\
   forall r', r' ∈ records -> jr_outcome r' = Confirmed -> jr_lane r' = jr_lane r -> kept r' -> jr_id r' < jr_id r).

Lemma lane_records_elem records lane i r :
  (i, r) ∈ lane_records records lane <-> records !! i = Some r /\ jr_outcome r = Confirmed /\ jr_lane r = lane.
Proof.
  unfold lane_records. rewrite merge_sort_Permutation, list_elem_of_filter. cbn [snd].
  assert (Hi : (i, r) ∈ imap (fun i r => (i, r)) records <-> records !! i = Some r).
  { rewrite elem_of_lookup_imap. split; [by intros (j & y & [= -> ->] & ?)|by exists i, r]. }
  rewrite Hi. naive_solver.
Qed.

Lemma lane_records_sorted records lane : StronglySorted by_id (lane_records records lane).
Proof.
  apply StronglySorted_merge_sort; [intros x y z; unfold by_id; lia|intros x y; unfold by_id; lia].
Qed.

Lemma lane_records_NoDup records lane : NoDup (lane_records records lane).
Proof.
  unfold lane_records. rewrite merge_sort_Permutation. apply NoDup_filter.
  assert (Hf : (imap (fun i r => (i, r)) records).*1 = seq 0 (length records)).
  { rewrite fmap_imap. etrans; [apply (imap_seq_0 records (fun n => n))|apply list_fmap_id]. }
  apply (NoDup_fmap_1 fst). rewrite Hf. apply NoDup_ListNoDup, seq_NoDup.
Qed.

(** Before a record, from the newest, are those with greater ids. *)
Lemma reverse_lane_before records lane l1 x l2 y :
  NoDup (jr_id <$> records) -> reverse (lane_records records lane) = l1 ++ x :: l2 ->
  y ∈ lane_records records lane -> y ∈ l1 <-> jr_id x.2 < jr_id y.2.
Proof.
  intros Hnd Hrev Hy. assert (Hl : lane_records records lane = reverse l2 ++ x :: reverse l1).
  { rewrite <- (reverse_involutive (lane_records records lane)), Hrev, reverse_app, reverse_cons, <- app_assoc. done. }
  pose proof (lane_records_sorted records lane) as Hs. rewrite Hl in Hs. apply StronglySorted_app in Hs as (Hcross & _ & Hs).
  apply StronglySorted_cons in Hs as [Hx _]. rewrite Forall_forall in Hx. unfold by_id in *.
  assert (Hxin : x ∈ lane_records records lane) by (rewrite Hl; set_solver). destruct x as [i r], y as [j s]. cbn [snd] in *.
  apply lane_records_elem in Hxin as (Hr & _), Hy as Hyr. destruct Hyr as (Hsr & _).
  assert (Heq : jr_id r = jr_id s -> (i, r) = (j, s)).
  { intros E. assert (i = j) as ->; [|congruence].
    eapply NoDup_lookup; [exact Hnd|by rewrite list_lookup_fmap, Hr|]. rewrite list_lookup_fmap, Hsr. cbn. by rewrite E. }
  split.
  - intros Hin. specialize (Hx (j, s) ltac:(by apply elem_of_reverse)). cbn in Hx. destruct (decide (jr_id r = jr_id s)) as [E|]; [|lia].
    pose proof (lane_records_NoDup records lane) as Hd. rewrite Hl, (Heq E) in Hd. apply NoDup_app in Hd as (_ & _ & Hd).
    apply NoDup_cons in Hd as [Hd _]. by rewrite elem_of_reverse in Hd.
  - intros Hlt. rewrite Hl in Hy. apply elem_of_app in Hy as [Hy|[Hy|Hy]%elem_of_cons].
    + specialize (Hcross (j, s) (i, r) Hy ltac:(by left)). cbn in Hcross. lia.
    + simplify_eq. lia.
    + by rewrite elem_of_reverse in Hy.
Qed.

(** What becomes of a confirmed record of the journal. *)
Definition settled (r : JRecord) : JRecord :=
  if decide (jr_outcome r = Confirmed /\ absent r) then with_outcome Dropped r else r.

Lemma accepted_durable mode records lane l1 x l2 :
  NoDup (jr_id <$> records) -> reverse (lane_records records lane) = l1 ++ x :: l2 ->
  (forall y, y ∈ l1 -> kept y.2 \/ absent y.2) ->
  accepted mode false l1 x.2 <-> durable mode records x.2.
Proof.
  intros Hnd Hrev Hdec. assert (Hx : x ∈ lane_records records lane) by (rewrite <- elem_of_reverse, Hrev; set_solver).
  destruct x as [i r]. cbn [snd] in *. pose proof Hx as Hxr. apply lane_records_elem in Hxr as (Hi & Hc & Hlane).
  unfold accepted, durable. split; (intros [Hk|H]; [by left|right]).
  - destruct H as (Ha & Hh & _ & Hf). split_and!; [done|by destruct mode|]. intros r' [j Hj]%list_elem_of_lookup Hc' Hl' Hk'.
    assert (Hy : (j, r') ∈ lane_records records lane) by (apply lane_records_elem; split_and!; [done..|congruence]).
    pose proof (reverse_lane_before records lane l1 (i, r) l2 (j, r') Hnd Hrev Hy) as Hb. cbn [snd] in Hb.
    destruct (decide (jr_id r < jr_id r')) as [Hlt|]; [|destruct (decide (jr_id r = jr_id r')) as [E|]; [|lia]].
    + apply Hb in Hlt. rewrite Forall_forall in Hf. specialize (Hf _ Hlt). unfold absent, kept in *. cbn in Hf. congruence.
    + assert (i = j) as ->; [|unfold absent, kept in *; congruence].
      eapply NoDup_lookup; [exact Hnd|by rewrite list_lookup_fmap, Hi|]. rewrite list_lookup_fmap, Hj. cbn. by rewrite E.
  - destruct H as (Ha & -> & Hnew). split_and!; try done. apply Forall_forall. intros [j s] Hin. cbn [snd].
    assert (Hy : (j, s) ∈ lane_records records lane) by (rewrite <- elem_of_reverse, Hrev; set_solver).
    pose proof (proj1 (reverse_lane_before records lane l1 (i, r) l2 (j, s) Hnd Hrev Hy) Hin) as Hlt. cbn [snd] in Hlt.
    destruct (Hdec _ Hin) as [Hk|]; [|done]. apply lane_records_elem in Hy as (Hj & Hcj & Hlj).
    enough (jr_id s < jr_id r) by lia. apply Hnew; [by eapply list_elem_of_lookup_2|done|congruence|done].
Qed.

(** One lane: every record is durable, and those lost are dropped. *)
Lemma settle_lane_exact mode records lane d :
  NoDup (jr_id <$> records) ->
  settle_lane tx_of mode false (reverse (lane_records records lane)) = Ok d <->
  (forall r, r ∈ records -> jr_outcome r = Confirmed -> jr_lane r = lane -> durable mode records r) /\
  d = (filter (fun x => absent x.2) (reverse (lane_records records lane))).*1.
Proof.
  intros Hnd. rewrite settle_lane_spec. apply and_iff_compat_r. split.
  - intros H r [i Hi]%list_elem_of_lookup Hc Hl. assert (Hin : (i, r) ∈ reverse (lane_records records lane)).
    { by rewrite elem_of_reverse, lane_records_elem. }
    apply list_elem_of_split in Hin as (l1 & l2 & Hsplit).
    apply (accepted_durable mode records lane l1 (i, r) l2 Hnd Hsplit); [|by eapply H].
    intros y Hy. apply list_elem_of_split in Hy as (a & b & ->). rewrite <- app_assoc in Hsplit. cbn in Hsplit.
    destruct (H _ _ _ Hsplit) as [|[? _]]; auto.
  - intros H l1 x l2 Hsplit. assert (Hd : forall y, y ∈ l1 ++ x :: l2 -> durable mode records y.2).
    { intros [j s] Hy. rewrite <- Hsplit, elem_of_reverse, lane_records_elem in Hy. destruct Hy as (? & ? & ?).
      apply H; [by eapply list_elem_of_lookup_2|done..]. }
    apply (accepted_durable mode records lane l1 x l2 Hnd Hsplit); [|apply Hd; set_solver].
    intros y Hy. destruct (Hd y) as [|[? _]]; [set_solver|auto..].
Qed.

(** All lanes. *)
Lemma settle_lanes_exact mode records lanes d :
  NoDup (jr_id <$> records) ->
  settle_lanes tx_of mode records lanes = Ok d <->
  (forall r, r ∈ records -> jr_outcome r = Confirmed -> jr_lane r ∈ lanes -> durable mode records r) /\
  d = mjoin ((fun lane => (filter (fun x => absent x.2) (reverse (lane_records records lane))).*1) <$> lanes).
Proof.
  intros Hnd. revert d. induction lanes as [|lane lanes IH]; intros d; cbn [settle_lanes].
  - split; [intros [= <-]; split; [by intros ? ? ? ?%not_elem_of_nil|done]|by intros [_ ->]].
  - rewrite fmap_cons. cbn [mjoin list_join]. split.
    + destruct (settle_lane _ _ _ _) as [d1|] eqn:H1; [|done]. cbn. destruct (settle_lanes _ _ _ _) as [d2|] eqn:H2; [|done]. cbn.
      intros [= <-]. apply settle_lane_exact in H1 as [H1 ->]; [|done]. destruct (proj1 (IH d2) eq_refl) as [H3 ->]. split; [|done].
      intros r Hr Hc [Hl|Hl]%elem_of_cons; auto.
    + intros [H ->]. rewrite (proj2 (settle_lane_exact mode records lane _ Hnd)) by (split; [|reflexivity]; intros; apply H; set_solver).
      cbn. rewrite (proj2 (IH _)) by (split; [|reflexivity]; intros; apply H; set_solver). done.
Qed.

Lemma confirmed_lanes_elem records lane :
  lane ∈ confirmed_lanes records <-> exists r, r ∈ records /\ jr_outcome r = Confirmed /\ jr_lane r = lane.
Proof.
  unfold confirmed_lanes. rewrite merge_sort_Permutation, elem_of_remove_dups, list_elem_of_fmap.
  setoid_rewrite list_elem_of_filter. naive_solver.
Qed.

(** The judgement after a restart: it passes exactly when every confirmed record is durable, and the
    records a kill lost are dropped from the journal. *)
Lemma settle_exact mode records records' :
  NoDup (jr_id <$> records) ->
  settle_after_restart tx_of mode records = Ok records' <->
  (forall r, r ∈ records -> jr_outcome r = Confirmed -> durable mode records r) /\ records' = settled <$> records.
Proof.
  intros Hnd. unfold settle_after_restart.
  assert (Himap : forall d, d = mjoin ((fun lane => (filter (fun x => absent x.2) (reverse (lane_records records lane))).*1) <$> confirmed_lanes records) ->
    imap (fun i r => if bool_decide (i ∈ d) then with_outcome Dropped r else r) records = settled <$> records).
  { intros d ->. apply list_eq. intros i. rewrite list_lookup_imap, list_lookup_fmap. destruct (records !! i) as [r|] eqn:Hi; [|done]. cbn.
    f_equal. unfold settled. case_decide as Hs; [rewrite bool_decide_true|rewrite bool_decide_false]; try done.
    - apply list_elem_of_join. eexists. split; [|apply list_elem_of_fmap_2; apply confirmed_lanes_elem; exists r; split_and!; [by eapply list_elem_of_lookup_2|apply Hs|reflexivity]].
      apply list_elem_of_fmap. exists (i, r). split; [done|]. apply list_elem_of_filter. split; [apply Hs|].
      rewrite elem_of_reverse, lane_records_elem. split_and!; [done|apply Hs|done].
    - intros Hin. apply Hs. apply list_elem_of_join in Hin as (l & Hil & Hl). apply list_elem_of_fmap in Hl as (lane & -> & _).
      apply list_elem_of_fmap in Hil as ([j s] & -> & Hf). apply list_elem_of_filter in Hf as [Ha Hin].
      rewrite elem_of_reverse, lane_records_elem in Hin. destruct Hin as (Hj & Hc & _). cbn in *. simplify_eq. done. }
  split.
  - destruct (settle_lanes _ _ _ _) as [d|] eqn:Hd; [|done]. cbn. intros [= <-]. apply settle_lanes_exact in Hd as [H Hd]; [|done].
    split; [|by apply Himap]. intros r Hr Hc. apply H; [done..|]. apply confirmed_lanes_elem. eauto.
  - intros [H ->]. rewrite (proj2 (settle_lanes_exact mode records _ _ Hnd)) by (split; [|reflexivity]; eauto). cbn. f_equal. by apply Himap.
Qed.
End settle.

(** * The journal *)

(** Ids are fresh: every id used is below the counter, no two records share one, and no lane prepares
    a transaction under an id that is journaled or being prepared elsewhere. *)
Record jwf (n0 : Z) (width : nat) (s : LaneState) : Prop := mkJwf
  { jw_width : length (ls_lanes s) = width;
    jw_range : forall r, r ∈ ls_records s -> n0 <= jr_id r < ls_next_id s /\ (jr_lane r < width)%nat;
    jw_ids : NoDup (jr_id <$> ls_records s);
    jw_pending : forall l id, ls_lanes s !! l = Some (Preparing id) -> n0 <= id < ls_next_id s /\ id ∉ (jr_id <$> ls_records s);
    jw_apart : forall l1 l2 id, ls_lanes s !! l1 = Some (Preparing id) -> ls_lanes s !! l2 = Some (Preparing id) -> l1 = l2;
    jw_next : n0 <= ls_next_id s }.

Lemma jwf_start n0 width : jwf n0 width (Lanes_start width n0).
Proof.
  split; cbn; [by rewrite length_replicate|by intros ? ?%not_elem_of_nil|constructor| | |lia];
    intros *; rewrite lookup_replicate; intros [[=] _].
Qed.

(** A phase that prepares nothing. *)
Definition quiet (p : Phase) : bool := match p with Preparing _ => false | _ => true end.

Lemma insert_quiet (lanes : list Phase) lane p l id :
  quiet p = true -> <[lane := p]> lanes !! l = Some (Preparing id) -> lanes !! l = Some (Preparing id).
Proof. intros Hq [(_ & -> & _)|[_ H]]%list_lookup_insert_Some; [done|exact H]. Qed.

Lemma jwf_set_phase n0 width s lane p : quiet p = true -> jwf n0 width s -> jwf n0 width (set_phase lane p s).
Proof.
  intros Hq [Hw Hr Hd Hp Ha Hn]. split; cbn; [by rewrite length_insert|done|done| | |done].
  - intros l id H. eapply Hp, insert_quiet; eassumption.
  - intros l1 l2 id H1 H2. eapply Ha; eapply insert_quiet; eassumption.
Qed.

Lemma alter_outcome_ids o index (records : list JRecord) : jr_id <$> alter (with_outcome o) index records = jr_id <$> records.
Proof. revert index. induction records as [|r records IH]; intros [|index]; f_equal/=; auto. Qed.

Lemma jwf_record_outcome n0 width s lane index o : jwf n0 width s -> jwf n0 width (record_outcome lane index o s).
Proof.
  intros H. apply (jwf_set_phase _ _ _ lane Ready eq_refl) in H as [Hw Hr Hd Hp Ha Hn].
  split; cbn in *; [done| |by rewrite alter_outcome_ids|by rewrite alter_outcome_ids|done|done].
  intros r [i Hi]%list_elem_of_lookup. destruct (decide (index = i)) as [->|Hne].
  - rewrite list_lookup_alter_eq in Hi. apply fmap_Some in Hi as (r0 & Hi & ->). apply list_elem_of_lookup_2 in Hi. by apply Hr in Hi.
  - rewrite list_lookup_alter_ne in Hi by done. apply list_elem_of_lookup_2 in Hi. by apply Hr in Hi.
Qed.

Lemma jwf_step n0 width s e s' : lane_step s e = Some s' -> jwf n0 width s -> jwf n0 width s'.
Proof.
  intros Hs Hj. assert (Hqs := fun lane p Hq => jwf_set_phase n0 width s lane p Hq Hj).
  assert (Hro := fun lane i o => jwf_record_outcome n0 width s lane i o Hj).
  destruct e as [lane|lane [g|]|lane b|lane|lane c|lane| |]; cbn in Hs;
    try (destruct (ls_lanes s !! lane) as [[]|] eqn:Hl; try done); repeat case_match; simplify_eq; auto;
    try (destruct Hj; by split).
  - destruct Hj as [Hw Hr Hd Hp Ha Hn]. split; cbn; [by rewrite length_insert| |done| | |lia].
    + intros r Hin. apply Hr in Hin. lia.
    + intros l id [(_ & [= <-] & _)|[_ Hold]]%list_lookup_insert_Some; [|apply Hp in Hold; split; [lia|apply Hold]]. split; [lia|].
      intros (r & Heq & Hin)%list_elem_of_fmap. apply Hr in Hin. lia.
    + intros l1 l2 id [(<- & [= <-] & _)|[N1 E1]]%list_lookup_insert_Some [(<- & E & _)|[N2 E2]]%list_lookup_insert_Some;
        [done|apply Hp in E2; lia|injection E as <-; apply Hp in E1; lia|eauto].
  - destruct Hj as [Hw Hr Hd Hp Ha Hn]. destruct (Hp _ _ Hl) as [Hrange Hfresh].
    assert (Hlt : (lane < width)%nat) by (rewrite <- Hw; by eapply lookup_lt_Some). split; cbn; [by rewrite length_insert| | | | |done].
    + intros r [Hin| ->%list_elem_of_singleton]%elem_of_app; [auto|done].
    + rewrite fmap_app. apply NoDup_app. split_and!; [done| |apply NoDup_singleton]. intros x Hx. cbn. intros ->%list_elem_of_singleton. done.
    + intros l id' H. pose proof (insert_quiet _ _ (Submitting _) _ _ eq_refl H) as H0. split; [exact (proj1 (Hp _ _ H0))|]. rewrite fmap_app. cbn.
      intros [Hin| ->%list_elem_of_singleton]%elem_of_app; [exact (proj2 (Hp _ _ H0) Hin)|].
      assert (l = lane) as -> by eauto. rewrite list_lookup_insert_eq in H; [done|by eapply lookup_lt_Some].
    + intros l1 l2 id' H1 H2. eapply Ha; eapply (insert_quiet _ _ (Submitting _)); eassumption || done.
  - unfold enter_status. case_match; auto.
Qed.

(** However the writers interleave, the journal has distinct ids, on lanes of the pool. *)
Lemma jwf_run n0 width es s s' : lane_run s es = Some s' -> jwf n0 width s -> jwf n0 width s'.
Proof.
  revert s. induction es as [|e es IH]; intros s H Hj; cbn in H; [congruence|]. apply bind_Some in H as (s1 & H1 & H2).
  eapply IH; [exact H2|]. by eapply jwf_step.
Qed.

(** * The accounts *)

Section state.
Context `{HC : HeaderCodec} (account_of : Pubkey -> Result (option (list Z)) unit).

(** The account holds a write with that id. *)
Definition holds (pda : Pubkey) (id : Z) : Prop :=
  exists d, account_of pda = Ok (Some d) /\ CellHeader_written_id d = Some id.

Lemma check_account_exact pda expected :
  check_account account_of pda expected = Ok tt <-> forall id, expected = Some id -> holds pda id.
Proof.
  unfold check_account, holds. destruct expected as [id|]; [|split; done]. split.
  - intros H id' [= <-]. destruct (account_of pda) as [[d|]|]; try done. exists d. split; [done|].
    destruct (CellHeader_written_id d) as [on_chain|]; [|done]. destruct (on_chain =? id) eqn:E; [|done]. f_equal. lia.
  - intros H. destruct (H id eq_refl) as (d & -> & ->). by rewrite Z.eqb_refl.
Qed.

Lemma check_accounts_exact l :
  check_accounts account_of l = Ok tt <-> forall pda id, (pda, Some id) ∈ l -> holds pda id.
Proof.
  induction l as [|[pda e] l IH]; cbn [check_accounts]; [split; [by intros _ ? ? ?%not_elem_of_nil|done]|].
  pose proof (check_account_exact pda e) as Ha. destruct (check_account account_of pda e) as [[]|e0] eqn:E.
  - cbn. rewrite IH. split; [|intros H pda' id Hin; apply H; by right]. intros H pda' id [[= -> <-]|Hin]%elem_of_cons; [|auto].
    by apply Ha.
  - split; [done|]. intros H. exfalso. enough (Hx : @Err unit RecoveryError e0 = Ok tt) by done. apply Ha. intros id ->. apply H. by left.
Qed.

(** The greatest of the ids confirmed on a lane. *)
Definition newest (records : list JRecord) (lane : nat) (id : Z) : Prop :=
  (exists r, r ∈ records /\ jr_outcome r = Confirmed /\ jr_lane r = lane /\ jr_id r = id) /\
  forall r, r ∈ records -> jr_outcome r = Confirmed -> jr_lane r = lane -> jr_id r <= id.

(** The greatest id of [records] on the lane, from [start]. *)
Definition newest_from (start : option Z) (records : list JRecord) (lane : nat) : option Z :=
  foldl (fun m r => if decide (jr_outcome r = Confirmed /\ jr_lane r = lane) then Some (Z.max (default 0 m) (jr_id r)) else m) start records.

Lemma expected_ids_spec records e :
  (forall r, r ∈ records -> (jr_lane r < length e)%nat) ->
  exists e', expected_ids records e = Some e' /\ length e' = length e /\
    forall lane m, e !! lane = Some m -> e' !! lane = Some (newest_from m records lane).
Proof.
  revert e. induction records as [|r records IH]; intros e Hl; cbn [expected_ids]; [by exists e|].
  assert (Hrest : forall r', r' ∈ records -> (jr_lane r' < length e)%nat) by (intros; apply Hl; by right).
  case_bool_decide as Hc.
  - destruct (lookup_lt_is_Some_2 e (jr_lane r)) as [m0 Hm0]; [apply Hl; by left|]. rewrite Hm0.
    destruct (IH (<[jr_lane r := Some (Z.max (default 0 m0) (jr_id r))]> e)) as (e' & He & Hlen & Hnew); [by rewrite length_insert|].
    rewrite length_insert in Hlen. exists e'. split_and!; [done..|]. intros lane m Hm. unfold newest_from. cbn [foldl].
    case_decide as Hd; apply Hnew.
    + destruct Hd as [_ <-]. simplify_eq. apply list_lookup_insert_eq. by eapply lookup_lt_Some.
    + rewrite list_lookup_insert_ne; [done|]. naive_solver.
  - destruct (IH e Hrest) as (e' & He & Hlen & Hnew). exists e'. split_and!; [done..|]. intros lane m Hm. unfold newest_from. cbn [foldl].
    rewrite decide_False by naive_solver. by apply Hnew.
Qed.

Lemma newest_from_Some records lane start id :
  (forall r, r ∈ records -> 0 <= jr_id r) -> newest_from start records lane = Some id ->
  (start = Some id \/ exists r, r ∈ records /\ jr_outcome r = Confirmed /\ jr_lane r = lane /\ jr_id r = id) /\
  (forall m, start = Some m -> m <= id) /\
  forall r, r ∈ records -> jr_outcome r = Confirmed -> jr_lane r = lane -> jr_id r <= id.
Proof.
  revert start. induction records as [|r records IH]; intros start Hpos H; unfold newest_from in H; cbn [foldl] in H.
  - subst. split_and!; [by left|by intros ? [= ->]|by intros ? ?%not_elem_of_nil].
  - assert (Hpos' : forall r', r' ∈ records -> 0 <= jr_id r') by (intros; apply Hpos; by right). pose proof (Hpos r ltac:(by left)) as Hr.
    destruct (IH _ Hpos' H) as (Hex & Hst & Hall). case_decide as Hd.
    + destruct Hd as [Hc Hl]. specialize (Hst _ eq_refl). split_and!.
      * destruct Hex as [[= He]|(r' & ? & ?)]; [|right; exists r'; split; [by right|done]].
        destruct start as [m|]; cbn in *; [destruct (decide (jr_id r <= m)); [left; f_equal; lia|]|];
          right; exists r; split_and!; try done; try lia; by left.
      * intros m ->. cbn in Hst. lia.
      * intros r' [->|Hin]%elem_of_cons Hc' Hl'; [|by apply Hall]. destruct start; cbn in Hst; lia.
    + split_and!; [|done|].
      * destruct Hex as [?|(r' & ? & ?)]; [by left|right; exists r'; split; [by right|done]].
      * intros r' [->|Hin]%elem_of_cons Hc' Hl'; [by destruct Hd|by apply Hall].
Qed.

Lemma newest_from_None records lane start :
  newest_from start records lane = None -> start = None /\ forall r, r ∈ records -> jr_outcome r = Confirmed -> jr_lane r <> lane.
Proof.
  revert start. induction records as [|r records IH]; intros start H; unfold newest_from in H; cbn [foldl] in H.
  - split; [done|by intros ? ?%not_elem_of_nil].
  - apply IH in H as [Hs Hall]. case_decide as Hd; [done|]. split; [done|]. intros r' [->|Hin]%elem_of_cons; [|by apply Hall]. naive_solver.
Qed.

(** The state check passes exactly when every account that keeps a confirmed write holds the newest one. *)
Lemma check_state_exact pool records :
  (forall r, r ∈ records -> 0 <= jr_id r /\ (jr_lane r < length pool)%nat) ->
  check_state account_of pool records = Ok tt <->
  forall lane pda id, pool !! lane = Some pda -> newest records lane id -> holds pda id.
Proof.
  intros Hwf. unfold check_state. assert (Hpos : forall r, r ∈ records -> 0 <= jr_id r) by (intros r Hr; apply (Hwf r Hr)).
  destruct (expected_ids_spec records (replicate (length pool) None)) as (e & -> & Hlen & He).
  { intros r Hr. rewrite length_replicate. apply (Hwf r Hr). }
  rewrite length_replicate in Hlen. rewrite check_accounts_exact.
  assert (He' : forall lane, (lane < length pool)%nat -> e !! lane = Some (newest_from None records lane)).
  { intros lane Hl. apply He. apply lookup_replicate. split; [done|exact Hl]. }
  split.
  - intros H lane pda id Hp [(r & Hr & Hc & Hl & Hid) Hmax]. apply H. apply list_elem_of_lookup. exists lane.
    apply lookup_zip_Some. split; [done|]. rewrite He' by (by eapply lookup_lt_Some). f_equal.
    destruct (newest_from None records lane) as [m|] eqn:Hm.
    + apply newest_from_Some in Hm as ([[=]|(r' & Hr' & Hc' & Hl' & Hid')] & _ & Hall); [|done]. f_equal.
      specialize (Hmax r' Hr' Hc' Hl'). specialize (Hall r Hr Hc Hl). lia.
    + apply newest_from_None in Hm as [_ Hm]. by destruct (Hm r Hr Hc).
  - intros H pda id [lane Hin]%list_elem_of_lookup. apply lookup_zip_Some in Hin as [Hp Hid]. apply (H lane); [done|].
    rewrite He' in Hid by (by eapply lookup_lt_Some). injection Hid as Hid.
    apply newest_from_Some in Hid as ([[=]|Hex] & _ & Hall); [|done]. by split.
Qed.
End state.

(** * The whole judgement *)

Section recovery.
Context `{HC : HeaderCodec} (tx_of : Z -> TxAnswer) (account_of : Pubkey -> Result (option (list Z)) unit).

(** A write the recovered ledger has: sent, not known to have failed, and found as a success. *)
Definition retained (r : JRecord) : Prop :=
  (jr_outcome r = Unresolved \/ jr_outcome r = Confirmed) /\ kept tx_of r.

Definition answered (r : JRecord) : Prop :=
  jr_outcome r = Unresolved -> tx_of (jr_signature r) = Absent \/ exists b, tx_of (jr_signature r) = Found b.

Definition resolved (r : JRecord) : JRecord :=
  match jr_outcome r with
  | Unresolved =>
      with_outcome (match tx_of (jr_signature r) with Found true => Confirmed | Found false => Failed | _ => Dropped end) r
  | _ => r
  end.

Lemma resolve_one_exact r r' : resolve_one tx_of r = Ok r' <-> answered r /\ r' = resolved r.
Proof.
  unfold resolve_one, answered, resolved. destruct (jr_outcome r); [|naive_solver..].
  destruct (tx_of (jr_signature r)) as [| | |[]]; naive_solver.
Qed.

Lemma resolve_exact records l : resolve tx_of records = Ok l <-> Forall answered records /\ l = resolved <$> records.
Proof.
  unfold resolve. rewrite collect_results_Ok. split.
  - induction 1 as [|r r' records l H _ [IH ->]]; [done|]. apply resolve_one_exact in H as [? ->]. split; [by constructor|done].
  - intros [H ->]. apply Forall2_fmap_r. induction H as [|r records H _ IH]; constructor; [|done]. by apply resolve_one_exact.
Qed.

Lemma resolved_id r : jr_id (resolved r) = jr_id r /\ jr_lane (resolved r) = jr_lane r /\ jr_signature (resolved r) = jr_signature r.
Proof. unfold resolved. by destruct (jr_outcome r). Qed.

Lemma settled_id r : jr_id (settled tx_of r) = jr_id r /\ jr_lane (settled tx_of r) = jr_lane r.
Proof. unfold settled. by case_decide. Qed.

Lemma kept_resolved r : kept tx_of (resolved r) <-> kept tx_of r.
Proof. unfold kept. by rewrite (proj2 (proj2 (resolved_id r))). Qed.

Lemma absent_resolved r : absent tx_of (resolved r) <-> absent tx_of r.
Proof. unfold absent. by rewrite (proj2 (proj2 (resolved_id r))). Qed.

Lemma resolved_confirmed r :
  jr_outcome (resolved r) = Confirmed <-> jr_outcome r = Confirmed \/ (jr_outcome r = Unresolved /\ kept tx_of r).
Proof.
  unfold resolved, kept. destruct (jr_outcome r) eqn:E; rewrite ?E; [|naive_solver..].
  destruct (tx_of (jr_signature r)) as [| | |[]]; cbn; naive_solver.
Qed.

(** The durability rule on the journal as it was written. *)
Definition durable_write (mode : Mode) (records : list JRecord) (r : JRecord) : Prop :=
  kept tx_of r \/
  (absent tx_of r /\ mode = Sigkill /\
   forall r', r' ∈ records -> retained r' -> jr_lane r' = jr_lane r -> jr_id r' < jr_id r).

Lemma durable_resolved mode records :
  (forall r, r ∈ resolved <$> records -> jr_outcome r = Confirmed -> durable tx_of mode (resolved <$> records) r) <->
  (forall r, r ∈ records -> jr_outcome r = Confirmed -> durable_write mode records r).
Proof.
  unfold durable, durable_write. split.
  - intros H r Hr Hc. destruct (resolved_id r) as (Hi & Hl & _). destruct (H (resolved r)) as [Hk|(Ha & -> & Hn)];
      [by apply list_elem_of_fmap_2|apply resolved_confirmed; by left|left; by apply kept_resolved|].
    right. split_and!; [by apply absent_resolved|done|]. intros r' Hr' [Ho Hk] Hl'. destruct (resolved_id r') as (Hi' & Hl1 & _).
    rewrite <- Hi, <- Hi'. apply Hn; [by apply list_elem_of_fmap_2|apply resolved_confirmed; naive_solver|congruence|by apply kept_resolved].
  - intros H r (r0 & -> & Hr)%list_elem_of_fmap Hc. rewrite kept_resolved, absent_resolved.
    apply resolved_confirmed in Hc as [Hc|[_ Hk]]; [|by left]. destruct (resolved_id r0) as (-> & -> & _).
    destruct (H r0 Hr Hc) as [Hk|(Ha & -> & Hn)]; [by left|right]. split_and!; [done..|].
    intros r' (r1 & -> & Hr1)%list_elem_of_fmap Hc1. destruct (resolved_id r1) as (-> & -> & _). rewrite kept_resolved. intros Hl Hk.
    apply Hn; [done| |done]. split; [|done]. apply resolved_confirmed in Hc1. naive_solver.
Qed.

Lemma final_confirmed mode records r :
  (forall r, r ∈ records -> jr_outcome r = Confirmed -> durable_write mode records r) -> r ∈ records ->
  jr_outcome (settled tx_of (resolved r)) = Confirmed <-> retained r.
Proof.
  intros Hd Hr. unfold settled, retained. case_decide as H.
  - destruct H as [_ Ha]. rewrite absent_resolved in Ha. cbn. split; [done|]. intros [_ Hk]. unfold kept, absent in *. congruence.
  - rewrite resolved_confirmed, absent_resolved in *. split; [|naive_solver].
    intros [Hc|[Hu Hk]]; [|naive_solver]. split; [by right|]. destruct (Hd r Hr Hc) as [|[Ha _]]; [done|]. naive_solver.
Qed.

Lemma newest_final mode records lane id :
  (forall r, r ∈ records -> jr_outcome r = Confirmed -> durable_write mode records r) ->
  newest (settled tx_of <$> (resolved <$> records)) lane id <->
  (exists r, r ∈ records /\ retained r /\ jr_lane r = lane /\ jr_id r = id) /\
  forall r, r ∈ records -> retained r -> jr_lane r = lane -> jr_id r <= id.
Proof.
  intros Hd. assert (Hids : forall r, jr_id (settled tx_of (resolved r)) = jr_id r /\ jr_lane (settled tx_of (resolved r)) = jr_lane r).
  { intros r. destruct (settled_id (resolved r)) as [-> ->], (resolved_id r) as (-> & -> & _). done. }
  unfold newest. split.
  - intros [(r & Hin & Hc & Hl & Hi) Hall]. rewrite <- list_fmap_compose in Hin. apply list_elem_of_fmap in Hin as (r0 & -> & Hr0). cbn in *.
    destruct (Hids r0) as [E1 E2]. split.
    + exists r0. rewrite E1, E2 in *. split_and!; [done| |done|done]. by eapply final_confirmed.
    + intros r1 Hr1 Hk Hl1. destruct (Hids r1) as [F1 F2]. rewrite <- F1. apply Hall; [by do 2 apply list_elem_of_fmap_2|by eapply final_confirmed|congruence].
  - intros [(r & Hr & Hk & Hl & Hi) Hall]. destruct (Hids r) as [E1 E2]. split.
    + exists (settled tx_of (resolved r)). split_and!; [by do 2 apply list_elem_of_fmap_2|by eapply final_confirmed|congruence|congruence].
    + intros r' Hin Hc Hl'. rewrite <- list_fmap_compose in Hin. apply list_elem_of_fmap in Hin as (r0 & -> & Hr0). cbn in *.
      destruct (Hids r0) as [F1 F2]. rewrite F1. apply Hall; [done|by eapply final_confirmed|congruence].
Qed.

Lemma recover_exact mode pool records :
  NoDup (jr_id <$> records) -> (forall r, r ∈ records -> 0 <= jr_id r /\ (jr_lane r < length pool)%nat) ->
  (exists out, recover tx_of account_of mode pool records = Ok out) <->
  Forall answered records /\
  (forall r, r ∈ records -> jr_outcome r = Confirmed -> durable_write mode records r) /\
  (forall r pda, r ∈ records -> retained r -> pool !! jr_lane r = Some pda ->
     (forall r', r' ∈ records -> retained r' -> jr_lane r' = jr_lane r -> jr_id r' <= jr_id r) -> holds account_of pda (jr_id r)).
Proof.
  intros Hnd Hwf. assert (Hnd' : NoDup (jr_id <$> (resolved <$> records))).
  { rewrite <- list_fmap_compose. erewrite list_fmap_ext; [exact Hnd|]. intros i r _. apply resolved_id. }
  assert (Hwf' : forall r, r ∈ settled tx_of <$> (resolved <$> records) -> 0 <= jr_id r /\ (jr_lane r < length pool)%nat).
  { intros r (r1 & -> & (r0 & -> & Hr)%list_elem_of_fmap)%list_elem_of_fmap. destruct (settled_id (resolved r0)) as [-> ->].
    destruct (resolved_id r0) as (-> & -> & _). by apply Hwf. }
  unfold recover. split.
  - intros [out H]. destruct (resolve tx_of records) as [l|] eqn:Hres; [|done]. cbn in H. apply resolve_exact in Hres as [Hans ->].
    destruct (settle_after_restart _ _ _) as [l|] eqn:Hset; [|done]. cbn in H. apply settle_exact in Hset as [Hd ->]; [|done].
    pose proof (proj1 (durable_resolved mode records) Hd) as Hd'. clear Hd. destruct (check_state _ _ _) as [[]|] eqn:Hst; [|done].
    pose proof (proj1 (check_state_exact _ pool _ Hwf') Hst) as Hst'. split_and!; [done..|].
    intros r pda Hr Hk Hp Hmax. apply (Hst' (jr_lane r)); [done|]. apply (newest_final mode); [done|]. split; [by exists r|done].
  - intros (Hans & Hd & Hacc). rewrite (proj2 (resolve_exact records _) (conj Hans eq_refl)). cbn.
    rewrite (proj2 (settle_exact tx_of mode _ _ Hnd') (conj (proj2 (durable_resolved mode records) Hd) eq_refl)). cbn.
    rewrite (proj2 (check_state_exact account_of pool _ Hwf')); [by eexists|]. intros lane pda id Hp Hn.
    apply (newest_final mode) in Hn as [(r & Hr & Hk & <- & <-) Hmax]; [|done]. by apply (Hacc r pda).
Qed.
End recovery.

(** C15: recovering from a restart is judged exactly by the durability rule: over any interleaving of
    the writers' tasks, the journal they leave passes [resolve], [settle_after_restart] and
    [check_state] if and only if the ledger answers for every write whose outcome was unknown; every
    write that was confirmed before the restart is still in the ledger as a success, or (only after a
    hard kill) is gone together with every newer write of its lane; and every account holds the
    newest write that the ledger retains for its lane. *)
Theorem recovery_check_is_exact `{HC : HeaderCodec} tx_of account_of mode pool next_id es s records :
  0 <= next_id -> lane_run (Lanes_start (length pool) next_id) es = Some s -> drain s = Some records ->
  (exists out, recover tx_of account_of mode pool records = Ok out) <->
  (forall r, r ∈ records -> jr_outcome r = Unresolved ->
     tx_of (jr_signature r) = Absent \/ exists b, tx_of (jr_signature r) = Found b) /\
  (forall r, r ∈ records -> jr_outcome r = Confirmed -> durable_write tx_of mode records r) /\
  (forall r pda, r ∈ records -> retained tx_of r -> pool !! jr_lane r = Some pda ->
     (forall r', r' ∈ records -> retained tx_of r' -> jr_lane r' = jr_lane r -> jr_id r' <= jr_id r) ->
     exists d, account_of pda = Ok (Some d) /\ CellHeader_written_id d = Some (jr_id r)).
Proof.
  intros Hn Hrun Hdrain. pose proof (jwf_run _ _ _ _ _ Hrun (jwf_start next_id (length pool))) as [_ Hr Hd _ _ _].
  unfold drain in Hdrain. case_match; [|done]. injection Hdrain as <-. rewrite recover_exact, Forall_forall; [done|done|].
  intros r Hin. apply Hr in Hin. lia.
Qed.

(** Two lanes: lane 0 has ids 100 and 102 confirmed, lane 1 sent 101 and was stopped before its status;
    the kill loses 102. *)
Definition restart_events : list LaneEvent :=
  [Loop 0; Prepared 0 (Some 1); Loop 1; Prepared 1 (Some 2); Submitted 0 true; Submitted 1 true; Status 0 (Some true);
   Loop 0; Prepared 0 (Some 3); Submitted 0 true; Status 0 (Some true); Loop 0; Prepared 0 None; Halt; Stopped 1; Loop 1; Slept 0; Loop 0].

Definition restart_journal : list JRecord :=
  [mkJRecord 100 0 1 Confirmed; mkJRecord 101 1 2 Unresolved; mkJRecord 102 0 3 Confirmed].

Definition restart_ledger (signature : Z) : TxAnswer := if signature =? 3 then Absent else Found true.

Definition restart_cell (k : Pubkey) : Result (option (list Z)) unit :=
  Ok (Some (header_bytes (mkHeader (mkCellId 7 0) (if k =? 11 then 100 else 101) 1 Accept))).

Definition restart_final : LaneState := mkLaneState false true restart_journal 104 [Finished; Finished].

Lemma recovery_check_is_exact_witness :
  recover restart_ledger restart_cell Sigkill [11; 12] restart_journal =
    Ok [mkJRecord 100 0 1 Confirmed; mkJRecord 101 1 2 Confirmed; mkJRecord 102 0 3 Dropped] /\
  recover restart_ledger restart_cell Graceful [11; 12] restart_journal = Err MissingAfterRestart /\
  durable_write restart_ledger Sigkill restart_journal (mkJRecord 102 0 3 Confirmed).
Proof.
  assert (Hr : recover restart_ledger restart_cell Sigkill [11; 12] restart_journal =
    Ok [mkJRecord 100 0 1 Confirmed; mkJRecord 101 1 2 Confirmed; mkJRecord 102 0 3 Dropped]) by (by vm_compute).
  split_and!; [exact Hr|by vm_compute|].
  apply (recovery_check_is_exact restart_ledger restart_cell Sigkill [11; 12] 100 restart_events restart_final restart_journal);
    [lia|by vm_compute|by vm_compute|by eexists|set_solver|done].
Defined.
