(* ===== verification/Contention.v ===== *)
(** Scheduler contention: [redline/src/scenarios/scheduler/scheduler_contention/mod.rs],
    [background.rs] and [report.rs], and the helpers of [redline/src/lib.rs] they use.

    Pairs of accounts are driven through complete X, Y, Z chains beside a load on disjoint accounts.
    What the chain, the clock and the stop signal answer is an argument, by the id of the step or the
    number of the chain it is asked for; pairs advance concurrently and touch only their own state,
    so each is a fold of its own and the samples they share are merged by a given interleaving. *)
From Stdlib Require Import String.
From Stdlib Require Import SpecFloat.
From S2P Require Import Prelude World Cell Instr Build Causal Float64 Stats Rate Runner Metrics Text Report.

#[local] Open Scope string_scope.
#[local] Open Scope Z_scope.
#[local] Open Scope list_scope.

Definition f64_eq (x y : f64) : bool := SFeqb x y.

Definition DRAIN_TIMEOUT : Duration := 600 * NANOS_PER_SEC.
Definition SETTLE_TIMEOUT : Duration := 60 * NANOS_PER_SEC.
Definition STALL_BOUND : Duration := 10 * NANOS_PER_SEC.
Definition OPEN_CONCURRENCY : Z := 128.
Definition LANES_PER_EXECUTOR : Z := 12.
Definition MIN_EXECUTORS : f64 := f64_of 2.
Definition PAYERS_PER_PAIR : nat := 3.
Definition STEPS : Z := 3.

Definition TX_COUNT : string := "engine_ledger_transactions".
Definition BUSY_EXECUTORS : string := "engine_processor_busy_executors".
Definition BLOCKED_TRANSACTIONS : string := "engine_processor_blocked_transactions".
Definition PENDING_TRANSACTIONS : string := "engine_ledger_pending_transactions".
Definition ORDERING_DEPENDENCIES : string := "engine_processor_ordering_dependencies".
Definition FAILED_TRANSACTIONS : string := "engine_processor_failed_transactions".
Definition REQUIRED_METRICS : list string :=
  [TX_COUNT; BUSY_EXECUTORS; BLOCKED_TRANSACTIONS; PENDING_TRANSACTIONS; ORDERING_DEPENDENCIES].

Record Profile := mkProfile
  { pf_name : string; pf_pairs : nat; pf_chains : Z; pf_heavy_iters : Z; pf_independent_accounts : nat;
    pf_independent_iters : Z; pf_driver_threads : nat; pf_phase_span : Duration }.

Definition LITE : Profile := mkProfile "lite" 8 40 180 256 180 4 (4 * NANOS_PER_SEC).
Definition FULL : Profile := mkProfile "full" 32 200 180 512 180 8 (10 * NANOS_PER_SEC).

(** * Naming the work *)

Definition heavy_step (chain : Z) : Step := nth (Z.to_nat (chain mod STEPS)) Step_ALL StepX.

Record ChainSpace := mkSpace { cs_pairs : Z; cs_chains : Z }.

Definition step_id (space : ChainSpace) (batch pair chain : Z) (s : Step) : Z :=
  let chain_ordinal := (batch * cs_pairs space + pair) * cs_chains space + chain in
  chain_ordinal * STEPS + Z.of_nat (Step_index s) + 1.

Definition phase_ranges (chains : Z) : list (Z * Z) :=
  let split := (chains + 1) / 2 in [(0, split); (split, chains)].

(** * The pairs *)

Record Pair := mkPairState { pr_chain : CausalPair; pr_steps : list (Z * Step * Z) }.

Inductive LoadMode := Bounded (lanes : Z) | Open (concurrency : Z).

Definition LoadMode_label (m : LoadMode) : string := match m with Bounded _ => "contention" | Open _ => "backpressure" end.

Record PhasePlan := mkPlan
  { pp_batch : Z; pp_space : ChainSpace; pp_range : Z * Z; pp_heavy_iters : Z; pp_span : Duration; pp_mode : LoadMode }.

Section drive.
Context `{R : Runtime, HC : HeaderCodec, C : InstructionCodec}.
Context (redline compute_budget : Pubkey).
Context {Error : Type} (panic : Error).
(** What the validator answers to the step with this id, and how long the send took; whether the
    deadline had passed or the stop signal was set when a chain was about to start. *)
Context (submit : Z -> nat -> list SolInstruction -> Result Z Error) (elapsed : Z -> Duration) (halted : Z -> bool).

(** The inner loop of [drive_pair]; the samples are those pushed into the phase's statistics. *)
Fixpoint drive_steps (plan : PhasePlan) (pair_index chain : Z) (steps : list Step) (p : Pair) (sent : list Z) :
    Result unit Error * (Pair * list Z) :=
  match steps with
  | [] => (Ok tt, (p, sent))
  | step :: steps =>
      let id := step_id (pp_space plan) (pp_batch plan) pair_index chain step in
      let iters := if decide (Step_index step = Step_index (heavy_step chain)) then pp_heavy_iters plan else 0 in
      match CausalPair_send redline compute_budget (submit id) panic (pr_chain p) step id iters with
      | (Err e, c) => (Err e, (mkPairState c (pr_steps p), sent))
      | (Ok signature, c) =>
          drive_steps plan pair_index chain steps (mkPairState c (pr_steps p ++ [(id, step, signature)]))
            (sent ++ [micros_u32 (elapsed id)])
      end
  end.

Fixpoint drive_chains (plan : PhasePlan) (pair_index : Z) (chains : list Z) (p : Pair) (sent : list Z) :
    Result unit Error * (Pair * list Z) :=
  match chains with
  | [] => (Ok tt, (p, sent))
  | chain :: chains =>
      if halted chain then (Ok tt, (p, sent))
      else
        match drive_steps plan pair_index chain Step_ALL p sent with
        | (Err e, s) => (Err e, s)
        | (Ok _, (p, sent)) => drive_chains plan pair_index chains p sent
        end
  end.

Definition drive_pair (plan : PhasePlan) (pair_index : Z) (p : Pair) : Result unit Error * (Pair * list Z) :=
  let '(first, last) := pp_range plan in
  drive_chains plan pair_index (seqZ first (last - first)) p [].
End drive.

(** * Sampling the executors *)

Record Samples := mkSamples { sa_busy : MeanMax; sa_blocked_max : f64; sa_max_stall : Duration }.
Definition Samples_default : Samples := mkSamples MeanMax_default f64_zero 0.

(** The observation with the closure's own state; it reads the clock twice. *)
Definition observe_executors (progress_at now : Instant) (metrics : Metrics) (last_txs : option f64) (last_progress : Instant)
    (s : Samples) : option unit * (option f64 * Instant * Samples) :=
  match metrics_get BUSY_EXECUTORS metrics, metrics_get BLOCKED_TRANSACTIONS metrics, metrics_get TX_COUNT metrics with
  | Some busy, Some blocked, Some txs =>
      let last_progress :=
        match last_txs with
        | Some last => if f64_lt last txs then progress_at else last_progress
        | None => progress_at
        end in
      (Some tt, (Some txs, last_progress,
         mkSamples (mean_push busy (sa_busy s)) (f64_max (sa_blocked_max s) blocked)
           (Z.max (sa_max_stall s) (Z.max 0 (now - last_progress)))))
  | _, _, _ => (None, (last_txs, last_progress, s))
  end.

(** * Draining *)

Record DrainState := mkDrain { dn_elapsed : Duration; dn_blocked : f64; dn_busy : f64; dn_pending : f64 }.

Definition idle_values (m : Metrics) : f64 * f64 * f64 :=
  (default S754_nan (metrics_get BLOCKED_TRANSACTIONS m), default S754_nan (metrics_get BUSY_EXECUTORS m),
   default S754_nan (metrics_get PENDING_TRANSACTIONS m)).

Definition is_idle (m : Metrics) : bool :=
  let '(blocked, busy, pending) := idle_values m in
  f64_eq blocked f64_zero && f64_eq busy f64_zero && f64_eq pending f64_zero.

(** One poll of [await_executed]. *)
Definition executed_poll (target : f64) (scrape : Result Metrics string) : Result unit string :=
  let? metrics := scrape in
  let? count := ok_or (metrics_get TX_COUNT metrics) "transaction count metric missing" in
  ensure! f64_le target count else "count" in Ok tt.

(** One poll of the settling. *)
Definition idle_poll (scrape : Result Metrics string) : Result (f64 * f64 * f64) string :=
  let? metrics := scrape in
  ensure! is_idle metrics else "idle" in Ok (idle_values metrics).

(** * A phase *)

Record PhaseOutcome := mkPhaseOutcome
  { po_label : string; po_chains : Z; po_chain_txs : Z; po_send : ObservationsStats;
    po_load : RunOutcome ObservationsStats; po_samples : Sampled Samples }.

Section phase.
Context `{R : Runtime, HC : HeaderCodec, C : InstructionCodec, G : RandSource}.
Context (redline compute_budget : Pubkey) {Error : Type} (panic : Error).
Context (submit : Z -> nat -> list SolInstruction -> Result Z Error) (elapsed : Z -> Duration).
(** The stop signal as each pair saw it, and the order in which the pairs' samples arrived. *)
Context (halted : Z -> Z -> bool) (interleave : list (list Z) -> list Z).

Definition drive_all (plan : PhasePlan) (pairs : list Pair) : list (Result unit Error * (Pair * list Z)) :=
  imap (fun i p => drive_pair redline compute_budget panic submit elapsed (halted (Z.of_nat i)) plan (Z.of_nat i) p) pairs.

(** [results.into_iter().collect()] *)
Definition collect_driven {A} (l : list (Result unit Error * A)) : Result unit Error :=
  let? _ := collect_results fst l in Ok tt.

(** [run_phase]: the load's outcome, its warm-in and the sampler's result are given; the pairs keep
    what they sent also when a step failed.  [None] is a panic: of the statistics, or of the division
    by no pairs. *)
Definition run_phase (plan : PhasePlan) (pairs : list Pair) (rng : Rng) (warm : Result unit Error)
    (load : Result (RunOutcome ObservationsStats) Error) (samples : Result (Sampled Samples) Error) :
    option (Result PhaseOutcome Error * list Pair) :=
  match warm with
  | Err e => Some (Err e, pairs)
  | Ok _ =>
      let driven := drive_all plan pairs in
      let pairs := (fun d => d.2.1) <$> driven in
      match load, samples, collect_driven driven with
      | Err e, _, _ => Some (Err e, pairs)
      | Ok _, Err e, _ => Some (Err e, pairs)
      | Ok _, Ok _, Err e => Some (Err e, pairs)
      | Ok load, Ok samples, Ok _ =>
          sent ← stats_finalize (foldl stats_push (StreamingStats_new rng) (interleave ((fun d => d.2.2) <$> driven))) false;
          if (length pairs =? 0)%nat then None
          else
            Some (Ok (mkPhaseOutcome (LoadMode_label (pp_mode plan)) (o_count sent / (STEPS * Z.of_nat (length pairs)))
                        (o_count sent) sent load samples), pairs)
      end
  end.
End phase.

(** * The competing load *)

(** The account indices of a worker: [(index..limit.min(len)).step_by(threads)]. *)
Definition worker_lanes (mode : LoadMode) (threads accounts index : nat) : list nat :=
  let limit := Nat.min (match mode with Bounded lanes => Z.to_nat lanes | Open _ => accounts end) accounts in
  filter (fun i => Nat.modulo i threads = Nat.modulo index threads /\ index <= i)%nat (seq 0 limit).

(** [threads.clamp(1, accounts.len().max(1))] *)
Definition load_threads (threads accounts : nat) : nat := Nat.max 1 (Nat.min threads (Nat.max accounts 1)).

(** What a worker runs. *)
Inductive WorkerLoad := NoLoad | OpenLoad (lanes : list nat) (concurrency : Z) | BoundedLoad (lanes : list nat).

Definition worker_load (mode : LoadMode) (threads accounts index : nat) : WorkerLoad :=
  let lanes := worker_lanes mode threads accounts index in
  if bool_decide (lanes = []) then NoLoad
  else match mode with
       | Open concurrency =>
           let share := default 0 (split_budget concurrency (Z.of_nat threads) !! index) in
           if share =? 0 then NoLoad else OpenLoad lanes share
       | Bounded _ => BoundedLoad lanes
       end.

Definition spawn_load (mode : LoadMode) (threads accounts : nat) : list WorkerLoad :=
  let threads := load_threads threads accounts in worker_load mode threads accounts <$> seq 0 threads.

(** The account of a request of [open_load]. *)
Definition open_account (lanes : list nat) (id : Z) : option nat := lanes !! Nat.modulo (Z.to_nat (id - 1)) (length lanes).

(** ** Confirmation-gated lanes *)

(** Where the task of a lane is in [deliver]. *)
Inductive LanePhase :=
| LReady | LPreparing (id : Z) | LSubscribing (id : Z) | LSubmitting (id : Z) | LAwaiting (id : Z) | LEnded.

Record Tally := mkTally { ta_delivered : Z; ta_failed : Z; ta_first_error : option string; ta_delivery : list Z }.
Definition Tally_default : Tally := mkTally 0 0 None [].

Record BoundedState := mkBounded { bl_tally : Tally; bl_next_id : Z; bl_lanes : list LanePhase }.

Inductive BoundedEvent :=
| Turn (lane : nat) (stop : bool)                         (** the loop's condition *)
| LanePrepared (lane : nat) (r : Result unit string)
| LaneSubscribed (lane : nat) (r : Result unit string)
| LaneSubmitted (lane : nat) (r : Result Duration string)
| LaneSettled (lane : nat) (r : Result unit string).

Definition in_phase (lane : nat) (p : LanePhase) (s : BoundedState) : BoundedState :=
  mkBounded (bl_tally s) (bl_next_id s) (<[lane := p]> (bl_lanes s)).

(** The tally of a delivery, then the loop again or its end. *)
Definition delivered_lane (lane : nat) (s : BoundedState) : BoundedState :=
  let t := bl_tally s in
  mkBounded (mkTally (ta_delivered t + 1) (ta_failed t) (ta_first_error t) (ta_delivery t)) (bl_next_id s) (<[lane := LReady]> (bl_lanes s)).

Definition failed_lane (lane : nat) (error : string) (s : BoundedState) : BoundedState :=
  let t := bl_tally s in
  mkBounded (mkTally (ta_delivered t) (ta_failed t + 1) (Some (default error (ta_first_error t))) (ta_delivery t)) (bl_next_id s)
    (<[lane := LEnded]> (bl_lanes s)).

Definition timed (elapsed : Duration) (s : BoundedState) : BoundedState :=
  let t := bl_tally s in
  mkBounded (mkTally (ta_delivered t) (ta_failed t) (ta_first_error t) (ta_delivery t ++ [micros_u32 elapsed])) (bl_next_id s) (bl_lanes s).

Definition bounded_step (s : BoundedState) (e : BoundedEvent) : option BoundedState :=
  match e with
  | Turn lane stop =>
      match bl_lanes s !! lane with
      | Some LReady =>
          if stop : bool then Some (in_phase lane LEnded s)
          else
            let id := bl_next_id s + 1 in
            Some (mkBounded (bl_tally s) id (<[lane := LPreparing id]> (bl_lanes s)))
      | _ => None
      end
  | LanePrepared lane r =>
      match bl_lanes s !! lane with
      | Some (LPreparing id) => Some (match r with Ok _ => in_phase lane (LSubscribing id) s | Err e => failed_lane lane e s end)
      | _ => None
      end
  | LaneSubscribed lane r =>
      match bl_lanes s !! lane with
      | Some (LSubscribing id) => Some (match r with Ok _ => in_phase lane (LSubmitting id) s | Err e => failed_lane lane e s end)
      | _ => None
      end
  | LaneSubmitted lane r =>
      match bl_lanes s !! lane with
      | Some (LSubmitting id) =>
          Some (match r with Ok elapsed => in_phase lane (LAwaiting id) (timed elapsed s) | Err e => failed_lane lane e s end)
      | _ => None
      end
  | LaneSettled lane r =>
      match bl_lanes s !! lane with
      | Some (LAwaiting _) => Some (match r with Ok _ => delivered_lane lane s | Err e => failed_lane lane e s end)
      | _ => None
      end
  end.

Definition bounded_start (lanes : nat) : BoundedState := mkBounded Tally_default 0 (replicate lanes LReady).

Fixpoint bounded_run (s : BoundedState) (es : list BoundedEvent) : option BoundedState :=
  match es with
  | [] => Some s
  | e :: es => s ← bounded_step s e; bounded_run s es
  end.

(** The outcome once every lane has ended: the confirmations' failures are added. *)
Definition bounded_outcome (s : BoundedState) (confirmation_failures : Z) (first_failure : option string) : option (Z * Z * option string) :=
  if forallb (fun p => match p with LEnded => true | _ => false end) (bl_lanes s) then
    let t := bl_tally s in
    Some (ta_delivered t, ta_failed t + confirmation_failures,
          match ta_first_error t with Some e => Some e | None => first_failure end)
  else None.

(** * Verifying *)

(** What a query for a step's transaction gives. *)
Inductive StepAnswer := StepQueryFailed | NotPublished | NoStepMeta (error : string) | Executed (err : option string).

Fixpoint first_failed_step (tx_of : Z -> StepAnswer) (steps : list (Z * Step * Z)) : option string :=
  match steps with
  | [] => None
  | (id, step, signature) :: steps =>
      match tx_of signature with
      | NotPublished => Some ("step " +:+ Step_label step +:+ " id " +:+ show_integer id +:+ " not published")
      | NoStepMeta error => Some error
      | Executed (Some err) => Some ("step " +:+ Step_label step +:+ " id " +:+ show_integer id +:+ " failed: " +:+ err)
      | Executed None | StepQueryFailed => first_failed_step tx_of steps
      end
  end.

(** A pair whose accounts do not match, with the first step that explains it. *)
Record Divergence := mkDivergence { dv_pair : nat; dv_error : CompareError; dv_step : string }.

Section verify.
Context `{R : Runtime, HC : HeaderCodec} {Error : Type}.
Context (read : Pubkey -> Result (option (list Z)) Error) (tx_of : Z -> StepAnswer).

(** [CausalPair::read]: both accounts, the first first. *)
Definition read_pair (c : CausalPair) : Result (option (list Z) * option (list Z)) Error :=
  let? a := read (cp_a c) in
  let? b := read (cp_b c) in
  Ok (a, b).

Definition verify_pair (index : nat) (p : Pair) : Result (list Divergence) Error :=
  let? accounts := read_pair (pr_chain p) in
  match CausalPair_compare (pr_chain p) accounts with
  | Ok _ => Ok []
  | Err e =>
      Ok [mkDivergence index e (default "none — every step executed successfully" (first_failed_step tx_of (pr_steps p)))]
  end.

(** The divergences in order and the pairs afterwards; a failed read leaves the rest as they are. *)
Fixpoint verify_pairs (index : nat) (pairs : list Pair) : Result (list Divergence) Error * list Pair :=
  match pairs with
  | [] => (Ok [], [])
  | p :: pairs =>
      match verify_pair index p with
      | Err e => (Err e, p :: pairs)
      | Ok found =>
          let '(r, pairs) := verify_pairs (S index) pairs in
          ((let? rest := r in Ok (found ++ rest)), mkPairState (pr_chain p) [] :: pairs)
      end
  end.

(** Of the independent accounts: missing ones and wrong hashes, by index; [None] is the panic of the
    slice. *)
Inductive Miss := MissingAccount (index : nat) | WrongHash (index : nat).

Fixpoint verify_independent_from (expected : list Z) (index : nat) (accounts : list Pubkey) : option (Result (list Miss) Error) :=
  match accounts with
  | [] => Some (Ok [])
  | address :: accounts =>
      match read address with
      | Err e => Some (Err e)
      | Ok None => rest ← verify_independent_from expected (S index) accounts; Some (let? rest := rest in Ok (MissingAccount index :: rest))
      | Ok (Some d) =>
          if bool_decide (layout_HASH_OFFSET + layout_HASH_SIZE <= length d)%nat then
            let hash := take layout_HASH_SIZE (drop layout_HASH_OFFSET d) in
            rest ← verify_independent_from expected (S index) accounts;
            Some (let? rest := rest in Ok (if bool_decide (hash = expected) then rest else WrongHash index :: rest))
          else None
      end
  end.

Definition verify_independent (accounts : list Pubkey) (iters : Z) : option (Result (list Miss) Error) :=
  verify_independent_from (HashState_chain HASH_INIT iters) 0 accounts.
End verify.

(** * Batches *)

Record BatchOutcome := mkBatch
  { bo_phases : list PhaseOutcome; bo_drained : DrainState; bo_engine_txs : f64; bo_dependencies : f64;
    bo_dropped : option f64; bo_execution_failed : option f64 }.

Definition sum_phases (f : PhaseOutcome -> Z) (phases : list PhaseOutcome) : Z := foldr Z.add 0 (f <$> phases).

Definition batch_chain_txs (b : BatchOutcome) : Z := sum_phases po_chain_txs (bo_phases b).
Definition batch_independent_txs (b : BatchOutcome) : Z := sum_phases (fun p => delivered (po_load p)) (bo_phases b).
Definition batch_chains (b : BatchOutcome) : Z := sum_phases po_chains (bo_phases b).
Definition workload (phases : list PhaseOutcome) : Z := sum_phases (fun p => po_chain_txs p + delivered (po_load p)) phases.

(** The checks of a batch; a missed one is logged and the run goes on. *)
Inductive BatchCheck :=
| FewExecutors (phase : nat) | IdleExecutors (phase : nat) | Stalled (phase : nat)
| StillBlocked | StillBusy | StillPending | EngineBehind | TransactionsDropped | ExecutionsFailed
| NoPhaseObserved | FewDependencies.

Definition missed (c : BatchCheck) (holds : bool) : list BatchCheck := if holds then [] else [c].

Definition check_phase (index : nat) (p : PhaseOutcome) : list BatchCheck :=
  let samples := sp_value (po_samples p) in
  missed (FewExecutors index) (f64_le MIN_EXECUTORS (mm_max (sa_busy samples))) ++
  missed (IdleExecutors index) (f64_lt (f64_of 1) (mean (sa_busy samples))) ++
  missed (Stalled index) (sa_max_stall samples <=? STALL_BOUND).

(** The checks of [check_batch] before it verifies the pairs. *)
Definition batch_checks (pairs : nat) (b : BatchOutcome) : list BatchCheck :=
  concat (imap check_phase (bo_phases b)) ++
  missed StillBlocked (f64_eq (dn_blocked (bo_drained b)) f64_zero) ++
  missed StillBusy (f64_eq (dn_busy (bo_drained b)) f64_zero) ++
  missed StillPending (f64_eq (dn_pending (bo_drained b)) f64_zero) ++
  missed EngineBehind (f64_le (f64_of (workload (bo_phases b))) (bo_engine_txs b)) ++
  missed TransactionsDropped (match bo_dropped b with Some dropped => f64_eq dropped f64_zero | None => true end) ++
  missed ExecutionsFailed (match bo_execution_failed b with Some n => f64_eq n f64_zero | None => true end) ++
  missed NoPhaseObserved (negb (bool_decide (bo_phases b = []))) ++
  (let contention_chains := default 0 (po_chains <$> head (bo_phases b)) * Z.of_nat pairs in
   missed FewDependencies (f64_le (f64_of contention_chains) (bo_dependencies b))).

Definition quoted (s : string) : string := String (Ascii.ascii_of_nat 34) (s +:+ String (Ascii.ascii_of_nat 34) EmptyString).

(** [executors] from the calibration's samples to the number of bounded lanes. *)
Definition contention_lanes (executors : f64) (accounts : nat) : Z :=
  Z.max (Z.min (f64_as 0 u64_max executors * LANES_PER_EXECUTOR) (Z.of_nat accounts)) 1.

(** [RunControl::completion] *)
Definition completion {E} (interrupted : bool) (r : Result unit E) : string :=
  if interrupted then "interrupted" else match r with Ok _ => "completed" | Err _ => "failed" end.

(** What one phase meets. *)
Record PhaseEnv `{RandSource} (Error : Type) := mkPhaseEnv
  { pe_stopped : bool; pe_left : Duration;
    pe_submit : Z -> nat -> list SolInstruction -> Result Z Error; pe_elapsed : Z -> Duration;
    pe_halted : Z -> Z -> bool; pe_interleave : list (list Z) -> list Z; pe_rng : Rng; pe_warm : Result unit Error;
    pe_load : Result (RunOutcome ObservationsStats) Error; pe_samples : Result (Sampled Samples) Error }.
Arguments pe_stopped {_ _} _. Arguments pe_left {_ _} _. Arguments pe_submit {_ _} _. Arguments pe_elapsed {_ _} _.
Arguments pe_halted {_ _} _. Arguments pe_interleave {_ _} _. Arguments pe_rng {_ _} _. Arguments pe_warm {_ _} _.
Arguments pe_load {_ _} _. Arguments pe_samples {_ _} _.

Section batch.
Context `{R : Runtime, HC : HeaderCodec, C : InstructionCodec, G : RandSource}.
Context (redline compute_budget : Pubkey) {Error : Type} (panic : Error) (profile : Profile).

Definition phase_plan (batch : Z) (mode : LoadMode) (range : Z * Z) (left : Duration) : PhasePlan :=
  mkPlan batch (mkSpace (Z.of_nat (pf_pairs profile)) (pf_chains profile)) range (pf_heavy_iters profile)
    (Z.min (pf_phase_span profile) left) mode.

(** The loop over the modes; [None] is a panic of [run_phase]. *)
Fixpoint run_phases (batch : Z) (plans : list (LoadMode * (Z * Z))) (envs : list (PhaseEnv Error)) (pairs : list Pair) :
    option (Result (list PhaseOutcome) Error * list Pair) :=
  match plans, envs with
  | (mode, range) :: plans, env :: envs =>
      if pe_stopped env then Some (Ok [], pairs)
      else
        run ← run_phase redline compute_budget panic (pe_submit env) (pe_elapsed env) (pe_halted env) (pe_interleave env)
                (phase_plan batch mode range (pe_left env)) pairs (pe_rng env) (pe_warm env) (pe_load env) (pe_samples env);
        let '(r, pairs) := run in
        match r with
        | Err e => Some (Err e, pairs)
        | Ok phase =>
            more ← run_phases batch plans envs pairs;
            let '(r, pairs) := more in
            Some ((let? phases := r in Ok (phase :: phases)), pairs)
        end
  | _, _ => Some (Ok [], pairs)
  end.

Definition batch_plans (lanes : Z) : list (LoadMode * (Z * Z)) :=
  zip [Bounded lanes; Open OPEN_CONCURRENCY] (phase_ranges (pf_chains profile)).

(** [measure_batch]: the scrapes and the drain are given; the drain is asked to reach the target. *)
Definition measure_batch (batch lanes : Z) (before : Result Metrics Error) (envs : list (PhaseEnv Error))
    (drained : f64 -> Result DrainState Error) (after : Result Metrics Error) (pairs : list Pair) :
    option (Result BatchOutcome Error * list Pair) :=
  match before with
  | Err e => Some (Err e, pairs)
  | Ok before =>
      run ← run_phases batch (batch_plans lanes) envs pairs;
      let '(r, pairs) := run in
      Some ((let? phases := r in
             let? drained := drained (f64_add (f64_unwrap_zero (metrics_get TX_COUNT before)) (f64_of (workload phases))) in
             let? after := after in
             let delta := mkDelta before after in
             let failed_kind kind := delta_counter (FAILED_TRANSACTIONS +:+ "{kind=" +:+ kind +:+ "}") delta in
             Ok (mkBatch phases drained (f64_unwrap_zero (delta_counter TX_COUNT delta))
                   (f64_unwrap_zero (delta_counter ORDERING_DEPENDENCIES delta))
                   (failed_kind (quoted "dropped")) (failed_kind (quoted "execution")))), pairs)
  end.
End batch.

(** * The run *)

(** What one turn of the loop meets. *)
Record BatchEnv `{RandSource} (Error : Type) := mkBatchEnv
  { be_before : Result Metrics Error; be_phases : list (PhaseEnv Error); be_drained : f64 -> Result DrainState Error;
    be_after : Result Metrics Error; be_read : Pubkey -> Result (option (list Z)) Error; be_tx_of : Z -> StepAnswer }.
Arguments be_before {_ _} _. Arguments be_phases {_ _} _. Arguments be_drained {_ _} _.
Arguments be_after {_ _} _. Arguments be_read {_ _} _. Arguments be_tx_of {_ _} _.

(** A checked batch: what was measured, the checks it missed and the pairs that diverged. *)
Record Window := mkWindow { wi_batch : BatchOutcome; wi_missed : list BatchCheck; wi_diverged : list Divergence }.

Section run.
Context `{R : Runtime, HC : HeaderCodec, C : InstructionCodec, G : RandSource}.
Context (redline compute_budget : Pubkey) {Error : Type} (panic : Error) (profile : Profile).

(** [measure_batch], then [check_batch]. *)
Definition run_batch (batch lanes : Z) (env : BatchEnv Error) (pairs : list Pair) : option (Result Window Error * list Pair) :=
  measured ← measure_batch redline compute_budget panic profile batch lanes (be_before env) (be_phases env) (be_drained env)
               (be_after env) pairs;
  let '(r, pairs) := measured in
  match r with
  | Err e => Some (Err e, pairs)
  | Ok outcome =>
      let '(r, pairs) := verify_pairs (be_read env) (be_tx_of env) 0 pairs in
      Some ((let? diverged := r in Ok (mkWindow outcome (batch_checks (pf_pairs profile) outcome) diverged)), pairs)
  end.

(** The loop: one environment per batch that was started before the deadline and the stop signal; the
    last checked batch is kept. *)
Fixpoint run_batches (batch lanes : Z) (envs : list (BatchEnv Error)) (pairs : list Pair) (last : option Window) :
    option (Result unit Error * option Window * list Pair) :=
  match envs with
  | [] => Some (Ok tt, last, pairs)
  | env :: envs =>
      run ← run_batch batch lanes env pairs;
      let '(r, pairs) := run in
      match r with
      | Err e => Some (Err e, last, pairs)
      | Ok window => run_batches (batch + 1) lanes envs pairs (Some window)
      end
  end.

(** [pair_accounts.chunks_exact(2)] *)
Fixpoint new_pairs (accounts : list Pubkey) : list Pair :=
  match accounts with
  | a :: b :: accounts => mkPairState (CausalPair_new a b) [] :: new_pairs accounts
  | _ => []
  end.
End run.
