(* ===== verification/ContentionProps.v ===== *)
(** Scheduler contention: the ids are unique, a phase sends whole chains in order, any execution that
    keeps each pair's order is accepted, and the competing load is partitioned and accounted for. *)
From Stdlib Require Import String.
From S2P Require Import Prelude World Cell Instr Settlement RefCodec SettlementFacts Execute CellSpec Build BuildSpec Fixture FixtureProps Causal Float64 Stats Rate Runner Metrics Report Contention.

#[local] Open Scope Z_scope.
#[local] Open Scope list_scope.

(** * Names *)

Lemma euclid_unique n q r q' r' : 0 <= r < n -> 0 <= r' < n -> q * n + r = q' * n + r' -> q = q' /\ r = r'.
Proof. intros Hr Hr' H. apply (Z.div_mod_unique n); lia. Qed.

Lemma Step_index_lt s : (Step_index s < 3)%nat.
Proof. destruct s; cbn; lia. Qed.

#[local] Instance Step_index_inj : Inj (=) (=) Step_index.
Proof. intros [] []; cbn; done || lia. Qed.

(** transaction ids never repeat in a run: two steps with the same id are the same step of the
    same chain of the same pair in the same batch. *)
Theorem step_ids_are_unique space batch pair chain s batch' pair' chain' s' :
  0 <= pair < cs_pairs space -> 0 <= pair' < cs_pairs space ->
  0 <= chain < cs_chains space -> 0 <= chain' < cs_chains space ->
  step_id space batch pair chain s = step_id space batch' pair' chain' s' ->
  batch = batch' /\ pair = pair' /\ chain = chain' /\ s = s'.
Proof.
  intros Hp Hp' Hc Hc' H. unfold step_id, STEPS in H. pose proof (Step_index_lt s). pose proof (Step_index_lt s').
  destruct (euclid_unique 3 ((batch * cs_pairs space + pair) * cs_chains space + chain) (Z.of_nat (Step_index s))
    ((batch' * cs_pairs space + pair') * cs_chains space + chain') (Z.of_nat (Step_index s'))) as [Ho Hs]; [lia..|].
  apply euclid_unique in Ho as [Hb ->]; [|done..]. apply euclid_unique in Hb as [-> ->]; [|done..].
  split_and!; [done..|]. apply (inj Step_index). lia.
Qed.

Lemma step_ids_are_unique_witness :
  step_id (mkSpace 8 40) 1 0 0 StepX <> step_id (mkSpace 8 40) 0 7 39 StepZ.
Proof.
  intros H. destruct (step_ids_are_unique (mkSpace 8 40) 1 0 0 StepX 0 7 39 StepZ) as [Hb _]; cbn [cs_pairs cs_chains]; [lia..|exact H|].
  discriminate Hb.
Defined.

(** The phases share the chains of a batch: each is in one of them. *)
Lemma phases_partition chains : 0 <= chains ->
  concat ((fun r => seqZ r.1 (r.2 - r.1)) <$> phase_ranges chains) = seqZ 0 chains.
Proof.
  intros H. unfold phase_ranges. cbn [fmap list_fmap concat fst snd]. rewrite app_nil_r, Z.sub_0_r.
  assert (Hs : 0 <= (chains + 1) / 2 <= chains \/ chains = 0).
  { destruct (decide (chains = 0)) as [->|]; [by right|left]. split; [apply Z.div_pos; lia|]. apply Z.div_le_upper_bound; lia. }
  destruct Hs as [Hs| ->]; [|done].
  set (split := (chains + 1) / 2) in *. symmetry. etrans; [|apply seqZ_app; lia]. f_equal. lia.
Qed.

(** * What a pair sends *)

(** The drives of a chain, and of a plan for a pair. *)
Definition chain_drives (plan : PhasePlan) (pair_index chain : Z) (steps : list Step) : list Drive :=
  (fun step => mkDrive step (step_id (pp_space plan) (pp_batch plan) pair_index chain step)
     (if decide (Step_index step = Step_index (heavy_step chain)) then pp_heavy_iters plan else 0)) <$> steps.

Definition planned (plan : PhasePlan) (pair_index : Z) (chains : list Z) : list Drive :=
  concat ((fun chain => chain_drives plan pair_index chain Step_ALL) <$> chains).

Section drive.
Context `{R : Runtime, HC : HeaderCodec, C : InstructionCodec}.
Context (redline compute_budget : Pubkey) {Error : Type} (panic : Error).
Context (submit : Z -> nat -> list SolInstruction -> Result Z Error) (elapsed : Z -> Duration) (halted : Z -> bool).

(** A pair after the drives [ds] were accepted. *)
Record advanced (p p' : Pair) (ds : list Drive) : Prop := mkAdvanced
  { ad_a : cp_a (pr_chain p') = cp_a (pr_chain p); ad_b : cp_b (pr_chain p') = cp_b (pr_chain p);
    ad_model : cp_model (pr_chain p') = predict (cp_model (pr_chain p)) ds;
    ad_steps : (fun s => s.1) <$> pr_steps p' = ((fun s => s.1) <$> pr_steps p) ++ ((fun d => (dr_id d, dr_step d)) <$> ds) }.

Lemma advanced_refl p : advanced p p [].
Proof. split; try done. by rewrite app_nil_r. Qed.

Lemma advanced_trans p p1 p2 ds1 ds2 : advanced p p1 ds1 -> advanced p1 p2 ds2 -> advanced p p2 (ds1 ++ ds2).
Proof.
  intros [A1 B1 M1 S1] [A2 B2 M2 S2]. split; try congruence.
  - unfold predict in *. by rewrite foldl_app, <- M1.
  - by rewrite S2, S1, fmap_app, app_assoc.
Qed.

Lemma drive_steps_spec plan i chain steps p sent r p' sent' :
  drive_steps redline compute_budget panic submit elapsed plan i chain steps p sent = (r, (p', sent')) ->
  exists n, (n <= length steps)%nat /\ advanced p p' (take n (chain_drives plan i chain steps)) /\
    length sent' = (length sent + n)%nat /\ (r = Ok tt -> n = length steps).
Proof.
  revert p sent. induction steps as [|s steps IH]; intros p sent; cbn [drive_steps].
  - intros [= <- <- <-]. exists 0%nat. split_and!; [done|apply advanced_refl|lia|done].
  - set (id := step_id _ _ _ _ _). set (iters := if decide _ then _ else _). unfold CausalPair_send.
    destruct (chain_ixs _ _ _ _ _) as [ixs|].
    + destruct (submit id (Step_index s) ixs) as [g|e].
      * intros H. apply IH in H as (n & Hn & Had & Hl & Hok). exists (S n). split_and!; [cbn; lia| |rewrite Hl, length_app; cbn; lia|].
        -- cbn [chain_drives fmap list_fmap take]. change (?x :: ?l) with ([x] ++ l). eapply advanced_trans; [|exact Had].
           split; try done. cbn [pr_steps]. by rewrite fmap_app.
        -- intros E. by rewrite (Hok E).
      * intros [= <- <- <-]. exists 0%nat. split_and!; [lia|by destruct p as [[]]; apply advanced_refl|lia|done].
    + intros [= <- <- <-]. exists 0%nat. split_and!; [lia|by destruct p as [[]]; apply advanced_refl|lia|done].
Qed.

Lemma length_chain_drives plan i chain steps : length (chain_drives plan i chain steps) = length steps.
Proof. apply length_fmap. Qed.

(** What was sent is the plan up to a point; without an error that point ends a chain, and is the end
    unless the run was halted there. *)
Lemma drive_chains_spec plan i chains p sent r p' sent' :
  drive_chains redline compute_budget panic submit elapsed halted plan i chains p sent = (r, (p', sent')) ->
  exists n, advanced p p' (take n (planned plan i chains)) /\ length sent' = (length sent + n)%nat /\
    (r = Ok tt -> exists m, n = (3 * m)%nat /\ (m <= length chains)%nat /\ (m = length chains \/ exists c, chains !! m = Some c /\ halted c = true)).
Proof.
  revert p sent. induction chains as [|chain chains IH]; intros p sent; cbn [drive_chains].
  - intros [= <- <- <-]. exists 0%nat. split_and!; [apply advanced_refl|lia|]. intros _. exists 0%nat. split_and!; [lia|done|by left].
  - destruct (halted chain) eqn:Hh.
    + intros [= <- <- <-]. exists 0%nat. split_and!; [apply advanced_refl|lia|]. intros _. exists 0%nat. split_and!; [lia|lia|right]. by exists chain.
    + unfold planned. cbn [fmap list_fmap concat].
      destruct (drive_steps _ _ _ _ _ _ _ _ _ _ _) as [[[]|e] [p1 sent1]] eqn:Hd;
        apply drive_steps_spec in Hd as (n & Hn & Had & Hl & Hok).
      * specialize (Hok eq_refl). subst n. intros H. apply IH in H as (n & Had' & Hl' & Hend).
        exists (3 + n)%nat. split_and!; [|rewrite Hl', Hl; cbn; lia|].
        -- change (length Step_ALL) with 3%nat in Had. rewrite take_ge in Had by (by rewrite length_chain_drives).
           rewrite take_app_ge by (rewrite length_chain_drives; cbn; lia). rewrite length_chain_drives.
           replace (3 + n - length Step_ALL)%nat with n by (cbn; lia). by eapply advanced_trans.
        -- intros E. destruct (Hend E) as (m & -> & Hm & Hor). exists (S m). split_and!; [lia|cbn; lia|].
           destruct Hor as [->|(c & Hc & Hhc)]; [by left|right; by exists c].
      * intros [= <- <- <-]. exists n. split_and!; [|done|done]. rewrite take_app_le; [done|]. by rewrite length_chain_drives.
Qed.
End drive.

(** * Executing the pairs in any order *)

(** The drives of one pair in a schedule of all of them. *)
Definition of_pair (i : nat) (sched : list (nat * Drive)) : list Drive := snd <$> filter (fun x => x.1 = i) sched.

Section execution.
Context `{R : Runtime, !RuntimeLaws R, HC : HeaderCodec, !HeaderCodecLaws HC}.
Context `{C : InstructionCodec, !InstructionCodecLaws R C, K : IntentSdk}.
Context (redline compute_budget : Pubkey).

(** Execute one scheduled step on its pair's accounts. *)
Definition execute_at (pairs : list Pair) (x : nat * Drive) : M unit := fun w =>
  match pairs !! x.1 with
  | Some p => drive_one redline (cp_a (pr_chain p)) (cp_b (pr_chain p)) x.2 w
  | None => (Err InvalidArgument, w)
  end.

(** No account is shared. *)
Definition disjoint_pairs (pairs : list Pair) : Prop :=
  NoDup (concat ((fun p => [cp_a (pr_chain p); cp_b (pr_chain p)]) <$> pairs)).

Lemma disjoint_within pairs i p : disjoint_pairs pairs -> pairs !! i = Some p -> cp_a (pr_chain p) <> cp_b (pr_chain p).
Proof.
  unfold disjoint_pairs. intros H Hi. apply list_elem_of_lookup_2, list_elem_of_split in Hi as (l1 & l2 & ->).
  rewrite fmap_app, concat_app in H. apply NoDup_app in H as (_ & _ & H). cbn in H. apply NoDup_cons in H as [H _]. set_solver.
Qed.

Lemma disjoint_across pairs i j p q :
  disjoint_pairs pairs -> pairs !! i = Some p -> pairs !! j = Some q -> i <> j ->
  forall k, k ∈ [cp_a (pr_chain q); cp_b (pr_chain q)] -> k <> cp_a (pr_chain p) /\ k <> cp_b (pr_chain p).
Proof.
  unfold disjoint_pairs. revert i j. induction pairs as [|x pairs IH]; intros i j H Hi Hj Hne k Hk; [done|]. cbn in H.
  apply NoDup_cons in H as [Ha H]. apply NoDup_cons in H as [Hb H].
  assert (Hin : forall n y z, pairs !! n = Some y -> z ∈ [cp_a (pr_chain y); cp_b (pr_chain y)] ->
    z ∈ concat ((fun p => [cp_a (pr_chain p); cp_b (pr_chain p)]) <$> pairs)).
  { intros n y z Hy Hz. apply list_elem_of_In, in_concat. exists [cp_a (pr_chain y); cp_b (pr_chain y)]. split; [|by apply list_elem_of_In].
    apply list_elem_of_In, list_elem_of_fmap. exists y. split; [done|by eapply list_elem_of_lookup_2]. }
  destruct i as [|i], j as [|j]; cbn in Hi, Hj; simplify_eq; [| |exact (IH i j H Hi Hj ltac:(lia) k Hk)]; clear IH H;
    set (rest := concat _) in *; clearbody rest.
  - pose proof (Hin _ _ _ Hj Hk). set_solver.
  - pose proof (Hin _ _ (cp_a (pr_chain p)) Hi ltac:(set_solver)). pose proof (Hin _ _ (cp_b (pr_chain p)) Hi ltac:(set_solver)). set_solver.
Qed.

(** Every pair's cells hold what its model says. *)
Definition all_agree (pairs : list Pair) (models : nat -> PairModel) (σ : Abs) (n : nat) : Prop :=
  forall i p, pairs !! i = Some p -> agrees (cp_a (pr_chain p)) (cp_b (pr_chain p)) σ (models i) n.

Lemma agrees_frame a b σ σ' m n :
  σ' !! a = σ !! a -> σ' !! b = σ !! b -> agrees a b σ m (S n) -> agrees a b σ' m n.
Proof.
  intros Ha Hb [H1 H2]. split; apply cell_agrees_weaken; [destruct H1 as (h & p & ?)|destruct H2 as (h & p & ?)];
    exists h, p; [rewrite Ha|rewrite Hb]; done.
Qed.

Lemma execute_all pairs sched w σ models :
  disjoint_pairs pairs -> Forall (fun x => (x.1 < length pairs)%nat /\ Drive_wf x.2) sched ->
  represents σ w -> borrowed w = ∅ -> all_agree pairs models σ (length sched) ->
  exists w' σ', for_each (execute_at pairs) sched w = (Ok tt, w') /\ represents σ' w' /\
    all_agree pairs (fun i => predict (models i) (of_pair i sched)) σ' 0.
Proof.
  intros Hdis Hs. revert w σ models. induction Hs as [|[i d] sched [Hi Hd] _ IH]; intros w σ models Hr Hb Hag.
  - exists w, σ. split_and!; done.
  - cbn [fst snd] in *. apply lookup_lt_is_Some in Hi as [p Hp].
    destruct (drive_one_reaches redline (cp_a (pr_chain p)) (cp_b (pr_chain p)) (disjoint_within _ _ _ Hdis Hp) d w σ (models i) (length sched))
      as (σ1 & (w1 & H1 & R1 & F1 & D1) & Hag1 & Hfr); [done..|by apply Hag|].
    destruct (IH w1 σ1 (fun j => if decide (j = i) then PairModel_apply (models i) (dr_step d) (dr_id d) (dr_iters d) else models j))
      as (w2 & σ2 & H2 & R2 & Hag2); [done|by rewrite (proj1 F1)| |].
    { intros j q Hq. case_decide as Hj; [subst j; by simplify_eq|]. pose proof (Hag j q Hq) as Hold.
      pose proof (disjoint_across pairs i j p q Hdis Hp Hq (not_eq_sym Hj)) as Hk.
      destruct (Hk (cp_a (pr_chain q)) ltac:(set_solver)), (Hk (cp_b (pr_chain q)) ltac:(set_solver)).
      eapply agrees_frame; [by apply Hfr|by apply Hfr|exact Hold]. }
    exists w2, σ2. split_and!; [|done|].
    + cbn [for_each]. rewrite (bind_run_Ok _ _ w tt w1); [exact H2|]. unfold execute_at. cbn. by rewrite Hp.
    + intros j q Hq. specialize (Hag2 j q Hq). unfold of_pair in *. rewrite filter_cons. cbn [fst].
      destruct (decide (i = j)) as [->|Hne]; [by rewrite decide_True in Hag2|]. by rewrite decide_False in Hag2.
Qed.

(** Pairs that match are verified and their signatures retired. *)
Lemma verify_pairs_ok (w : World) σ tx_of pairs index {Error : Type} :
  represents σ w -> (forall i p, pairs !! i = Some p -> agrees (cp_a (pr_chain p)) (cp_b (pr_chain p)) σ (cp_model (pr_chain p)) 0) ->
  verify_pairs (Error := Error) (fun k => Ok (Some (data (account w k)))) tx_of index pairs =
    (Ok [], (fun p => mkPairState (pr_chain p) []) <$> pairs).
Proof.
  intros Hr. revert index. induction pairs as [|p pairs IH]; intros index Hag; [done|]. cbn [verify_pairs]. unfold verify_pair, read_pair.
  cbn [res_bind]. unfold CausalPair_compare. rewrite (compare_Ok _ _ σ w _ 0 Hr (Hag 0%nat p eq_refl)).
  by rewrite (IH (S index) (fun i => Hag (S i))).
Qed.
End execution.

Lemma elem_of_take_in {A} (l : list A) n x : x ∈ take n l -> x ∈ l.
Proof. intros H. rewrite <- (take_drop n l). apply elem_of_app. by left. Qed.

(** A plan whose ids and iterations fit their machine integers. *)
Record plan_fits (plan : PhasePlan) (pairs : nat) : Prop := mkPlanFits
  { pf_batch : 0 <= pp_batch plan; pf_range : 0 <= (pp_range plan).1 /\ (pp_range plan).2 <= cs_chains (pp_space plan);
    pf_count : Z.of_nat pairs <= cs_pairs (pp_space plan); pf_heavy : is_u 32 (pp_heavy_iters plan);
    pf_ids : 3 * (pp_batch plan + 1) * cs_pairs (pp_space plan) * cs_chains (pp_space plan) < 2 ^ 64 }.

(** What a plan has a pair send. *)
Definition plan_drives (plan : PhasePlan) (i : nat) : list Drive :=
  planned plan (Z.of_nat i) (seqZ (pp_range plan).1 ((pp_range plan).2 - (pp_range plan).1)).

Lemma step_id_bounds space batch pair chain s :
  0 <= batch -> 0 <= pair < cs_pairs space -> 0 <= chain < cs_chains space ->
  1 <= step_id space batch pair chain s <= 3 * (batch + 1) * cs_pairs space * cs_chains space.
Proof.
  intros Hb Hp Hc. unfold step_id, STEPS. pose proof (Step_index_lt s).
  set (P := cs_pairs space) in *. set (N := cs_chains space) in *.
  assert (H1 : 0 <= batch * P + pair <= (batch + 1) * P - 1) by nia.
  set (q := batch * P + pair) in *. assert (H2 : 0 <= q * N + chain <= (batch + 1) * P * N - 1) by nia. nia.
Qed.

Lemma plan_drives_wf plan pairs i : plan_fits plan pairs -> (i < pairs)%nat -> Forall Drive_wf (plan_drives plan i).
Proof.
  intros [Hb [Hr1 Hr2] Hc Hh Hids] Hi. apply Forall_forall. intros d Hd. unfold plan_drives, planned in Hd.
  apply list_elem_of_In, in_concat in Hd as (l & Hl & Hd). apply list_elem_of_In, list_elem_of_fmap in Hl as (chain & -> & Hch).
  apply elem_of_seqZ in Hch. apply list_elem_of_In, list_elem_of_fmap in Hd as (s & -> & _). split; cbn.
  - unfold is_u. pose proof (step_id_bounds (pp_space plan) (pp_batch plan) (Z.of_nat i) chain s). lia.
  - case_decide; [done|]. by vm_compute.
Qed.

Section phase.
Context `{R : Runtime, !RuntimeLaws R, HC : HeaderCodec, !HeaderCodecLaws HC}.
Context `{C : InstructionCodec, !InstructionCodecLaws R C, K : IntentSdk}.

Lemma drive_pair_spec redline compute_budget {Error} (panic : Error) submit elapsed halted plan i p r p' sent :
  drive_pair redline compute_budget panic submit elapsed halted plan (Z.of_nat i) p = (r, (p', sent)) ->
  advanced p p' (take (length sent) (plan_drives plan i)).
Proof.
  unfold drive_pair, plan_drives. destruct (pp_range plan) as [first last]. intros H.
  apply drive_chains_spec in H as (n & Had & Hl & _). by rewrite Hl.
Qed.

(** C12: a phase's causal chains are verified whatever order the scheduler picks.  Drive any number of
    disjoint pairs through a phase, with whatever halts and rejected sends; let the fixture program
    execute the accepted steps in any order that keeps each pair's own order.  Then every execution
    succeeds, and [verify_pairs] finds no pair diverging from its model and retires all signatures. *)
Theorem phase_is_verified_in_any_order redline compute_budget {Error} (panic : Error) submit elapsed halted tx_of plan pairs sched w σ :
  disjoint_pairs pairs -> plan_fits plan (length pairs) ->
  let driven := drive_all redline compute_budget panic submit elapsed halted plan pairs in
  Forall (fun x => (x.1 < length pairs)%nat) sched ->
  (forall i d, driven !! i = Some d -> of_pair i sched = take (length d.2.2) (plan_drives plan i)) ->
  represents σ w -> borrowed w = ∅ ->
  (forall i p, pairs !! i = Some p -> agrees (cp_a (pr_chain p)) (cp_b (pr_chain p)) σ (cp_model (pr_chain p)) (length sched)) ->
  let after := (fun d => d.2.1) <$> driven in
  exists w', for_each (execute_at redline pairs) sched w = (Ok tt, w') /\
    verify_pairs (Error := Error) (fun k => Ok (Some (data (account w' k)))) tx_of 0 after = (Ok [], (fun p => mkPairState (pr_chain p) []) <$> after).
Proof.
  intros Hdis Hfit driven Hin Hsub Hr Hb Hag after.
  assert (Hlk : forall i p, pairs !! i = Some p -> exists r p' sent, driven !! i = Some (r, (p', sent)) /\ advanced p p' (of_pair i sched)).
  { intros i p Hp. destruct (drive_pair redline compute_budget panic submit elapsed (halted (Z.of_nat i)) plan (Z.of_nat i) p) as [r [p' sent]] eqn:Hd.
    exists r, p', sent. assert (Hdi : driven !! i = Some (r, (p', sent))) by (unfold driven, drive_all; by rewrite list_lookup_imap, Hp; cbn; rewrite Hd).
    split; [done|]. rewrite (Hsub i _ Hdi). by eapply drive_pair_spec. }
  set (models := fun i => match pairs !! i with Some p => cp_model (pr_chain p) | None => PairModel_default end).
  destruct (execute_all redline pairs sched w σ models) as (w' & σ' & Hrun & Hr' & Hag'); [done| |done|done| |].
  - rewrite Forall_forall in Hin |- *. intros [i d] Hx. specialize (Hin _ Hx). split; [done|]. cbn [fst snd] in *.
    destruct (lookup_lt_is_Some_2 pairs i Hin) as [p Hp]. destruct (Hlk i p Hp) as (r & p' & sent & Hd & _).
    pose proof (plan_drives_wf plan (length pairs) i Hfit Hin) as Hwf. rewrite Forall_forall in Hwf. apply Hwf.
    pose proof (Hsub i _ Hd) as Hs. cbn in Hs. eapply (elem_of_take_in _ (length sent)). rewrite <- Hs. apply list_elem_of_fmap. exists (i, d). split; [done|].
    by apply list_elem_of_filter.
  - intros i p Hp. unfold models. rewrite Hp. by apply (Hag i).
  - exists w'. split; [done|]. apply (verify_pairs_ok w' σ'); [done|]. intros i p' Hi. unfold after in Hi.
    rewrite list_lookup_fmap in Hi. destruct (driven !! i) as [[r [q sent]]|] eqn:Hd; [|done]. cbn in Hi. injection Hi as <-.
    destruct (lookup_lt_is_Some_2 pairs i) as [p Hp].
    { apply lookup_lt_Some in Hd. unfold driven, drive_all in Hd. by rewrite length_imap in Hd. }
    destruct (Hlk i p Hp) as (r' & p'' & sent' & Hd' & [Ea Eb Em _]). simplify_eq. rewrite Ea, Eb, Em.
    specialize (Hag' i p Hp). unfold models in Hag'. by rewrite Hp in Hag'.
Qed.
End phase.

(** * The competing load *)

Lemma worker_lanes_elem mode threads accounts index i :
  (index < threads)%nat ->
  i ∈ worker_lanes mode threads accounts index <->
  (i < Nat.min (match mode with Bounded lanes => Z.to_nat lanes | Open _ => accounts end) accounts)%nat /\ Nat.modulo i threads = index.
Proof.
  intros Hi. unfold worker_lanes. rewrite list_elem_of_filter, elem_of_seq, (Nat.mod_small index) by done.
  split; [naive_solver lia|]. intros [Hl Hm]. split_and!; [done| |lia|lia]. pose proof (Nat.Div0.mod_le i threads). lia.
Qed.

Lemma worker_lanes_NoDup mode threads accounts index : NoDup (worker_lanes mode threads accounts index).
Proof. apply NoDup_filter, NoDup_seq. Qed.

Lemma concat_NoDup {A} (f : nat -> list A) n m :
  (forall i, NoDup (f i)) -> (forall i j x, x ∈ f i -> x ∈ f j -> (i < n + m)%nat -> (j < n + m)%nat -> i = j) -> NoDup (concat (f <$> seq n m)).
Proof.
  intros Hn. revert n. induction m as [|m IH]; intros n Hd; [constructor|]. cbn. apply NoDup_app. split_and!; [done| |apply IH; intros i j x ? ? ? ?; apply (Hd i j x); by rewrite ?Nat.add_succ_r in *].
  intros x Hx Hc. apply list_elem_of_In, in_concat in Hc as (l & Hl & Hxl). apply list_elem_of_In, list_elem_of_fmap in Hl as (j & -> & Hj).
  apply elem_of_seq in Hj. apply list_elem_of_In in Hxl. specialize (Hd n j x Hx Hxl). lia.
Qed.

(** the workers of the competing load share the lanes: together they drive exactly the first
    [lanes] accounts (all of them in the open mode), and no account is driven by two workers. *)
Theorem load_lanes_are_partitioned mode threads accounts :
  concat (worker_lanes mode (load_threads threads accounts) accounts <$> seq 0 (load_threads threads accounts)) ≡ₚ
  seq 0 (Nat.min (match mode with Bounded lanes => Z.to_nat lanes | Open _ => accounts end) accounts).
Proof.
  set (t := load_threads threads accounts). assert (Ht : (0 < t)%nat) by (subst t; unfold load_threads; lia).
  apply NoDup_Permutation; [|apply NoDup_seq|].
  - apply concat_NoDup; [intros; apply worker_lanes_NoDup|]. intros i j x Hi Hj Hli Hlj.
    apply worker_lanes_elem in Hi, Hj; [|lia..]. naive_solver.
  - intros x. rewrite elem_of_seq, list_elem_of_In, in_concat. split.
    + intros (l & Hl & Hx). apply list_elem_of_In, list_elem_of_fmap in Hl as (i & -> & Hi%elem_of_seq).
      apply list_elem_of_In, worker_lanes_elem in Hx; lia.
    + intros Hx. exists (worker_lanes mode t accounts (Nat.modulo x t)). pose proof (Nat.mod_upper_bound x t ltac:(lia)) as Hm. split.
      * apply list_elem_of_In, list_elem_of_fmap. exists (Nat.modulo x t). split; [done|]. apply elem_of_seq. lia.
      * apply list_elem_of_In, worker_lanes_elem; [done|]. split; [lia|done].
Qed.

(** ** Accounting of the bounded lanes *)

Definition weigh {A} (f : A -> Z) (l : list A) : Z := foldr Z.add 0 (f <$> l).

Lemma weigh_insert {A} (f : A -> Z) (l : list A) i x y : l !! i = Some x -> weigh f (<[i := y]> l) = weigh f l - f x + f y.
Proof.
  revert i. induction l as [|z l IH]; intros [|i] H; try done; cbn in *; simplify_eq; unfold weigh in *; cbn.
  - lia.
  - rewrite IH by done. lia.
Qed.

Lemma weigh_replicate {A} (f : A -> Z) n x : weigh f (replicate n x) = Z.of_nat n * f x.
Proof. induction n as [|n IH]; [done|]. unfold weigh in *. cbn [replicate fmap list_fmap foldr]. rewrite IH. lia. Qed.

Lemma weigh_all {A} (f g : A -> Z) (l : list A) : (forall x, x ∈ l -> f x = g x) -> weigh f l = weigh g l.
Proof.
  induction l as [|x l IH]; intros H; [done|]. unfold weigh in *. cbn. rewrite IH, (H x); [done|by left|]. intros; apply H; by right.
Qed.

Definition in_flight (p : LanePhase) : Z := match p with LReady | LEnded => 0 | _ => 1 end.
Definition ended (p : LanePhase) : Z := match p with LEnded => 1 | _ => 0 end.
Definition awaiting (p : LanePhase) : Z := match p with LAwaiting _ => 1 | _ => 0 end.

(** Every id drawn is delivered, failed or in flight; a lane fails at most once; every delivery was
    timed. *)
Record accounted (n : nat) (s : BoundedState) : Prop := mkAccounted
  { ac_lanes : length (bl_lanes s) = n;
    ac_ids : ta_delivered (bl_tally s) + ta_failed (bl_tally s) + weigh in_flight (bl_lanes s) = bl_next_id s;
    ac_failed : 0 <= ta_failed (bl_tally s) <= weigh ended (bl_lanes s);
    ac_error : ta_first_error (bl_tally s) = None <-> ta_failed (bl_tally s) = 0;
    ac_timed : ta_delivered (bl_tally s) + weigh awaiting (bl_lanes s) <= Z.of_nat (length (ta_delivery (bl_tally s)));
    ac_sent : Z.of_nat (length (ta_delivery (bl_tally s))) <= ta_delivered (bl_tally s) + weigh awaiting (bl_lanes s) + ta_failed (bl_tally s) }.

Lemma accounted_start n : accounted n (bounded_start n).
Proof.
  unfold bounded_start, Tally_default. split; cbn [bl_lanes bl_tally bl_next_id ta_delivered ta_failed ta_first_error ta_delivery];
    rewrite ?length_replicate, ?weigh_replicate; cbn [in_flight ended awaiting length]; try lia. done.
Qed.

Lemma accounted_step n s e s' : bounded_step s e = Some s' -> accounted n s -> accounted n s'.
Proof.
  intros Hs [Hl Hi Hf He Ht Hn].
  destruct e as [lane stop|lane r|lane r|lane r|lane r]; cbn in Hs; destruct (bl_lanes s !! lane) as [[]|] eqn:El; try done;
    [destruct stop|destruct r|destruct r|destruct r|destruct r]; injection Hs as <-;
    unfold in_phase, failed_lane, delivered_lane, timed; split; cbn [bl_lanes bl_tally bl_next_id ta_delivered ta_failed ta_first_error ta_delivery];
    rewrite ?length_insert, ?(weigh_insert _ _ _ _ _ El), ?length_app; cbn [in_flight ended awaiting length]; try done; try lia;
    (split; [done|lia]).
Qed.

Lemma accounted_run n es s s' : bounded_run s es = Some s' -> accounted n s -> accounted n s'.
Proof.
  revert s. induction es as [|e es IH]; intros s H Ha; cbn in H; [congruence|]. apply bind_Some in H as (s1 & H1 & H2).
  eapply IH; [exact H2|]. by eapply accounted_step.
Qed.

(** The error an event brings. *)
Definition event_error (e : BoundedEvent) : option string :=
  match e with
  | LanePrepared _ (Err e) | LaneSubscribed _ (Err e) | LaneSubmitted _ (Err e) | LaneSettled _ (Err e) => Some e
  | _ => None
  end.

(** The failures are the errors of the events, and the first of them is the one kept. *)
Lemma step_errors s e s' :
  bounded_step s e = Some s' ->
  ta_failed (bl_tally s') = ta_failed (bl_tally s) + Z.of_nat (length (option_list (event_error e))) /\
  ta_first_error (bl_tally s') = match ta_first_error (bl_tally s) with Some x => Some x | None => event_error e end.
Proof.
  intros Hs. destruct e as [lane stop|lane r|lane r|lane r|lane r]; cbn in Hs; destruct (bl_lanes s !! lane) as [[]|]; try done;
    [destruct stop|destruct r|destruct r|destruct r|destruct r]; injection Hs as <-; cbn;
    destruct (ta_first_error (bl_tally s)); (split; [lia|done]).
Qed.

Lemma run_errors es s s' :
  bounded_run s es = Some s' ->
  ta_failed (bl_tally s') = ta_failed (bl_tally s) + Z.of_nat (length (omap event_error es)) /\
  ta_first_error (bl_tally s') = match ta_first_error (bl_tally s) with Some x => Some x | None => head (omap event_error es) end.
Proof.
  revert s. induction es as [|e es IH]; intros s H; cbn in H.
  - injection H as <-. split; [cbn; lia|by destruct (ta_first_error _)].
  - apply bind_Some in H as (s1 & H1 & H2). destruct (step_errors _ _ _ H1) as [Hf He]. destruct (IH _ H2) as [-> ->].
    rewrite Hf, He. cbn. destruct (event_error e); destruct (ta_first_error (bl_tally s)); (split; [cbn; lia|done]).
Qed.

(** C20: the bounded load loses nothing, however its lanes interleave and fail: once every lane has
    ended, each id that was drawn was delivered or failed, no more failed than there are lanes, each
    failure is an error of one of the lanes' steps, the error kept is the first of them in the order
    they came (the first of the confirmations when no lane failed), and the latencies are those of the
    deliveries and of sends whose confirmation then failed. *)
Theorem bounded_load_is_accounted lanes es s confirmation_failures first_failure delivered failed first_error :
  bounded_run (bounded_start lanes) es = Some s ->
  bounded_outcome s confirmation_failures first_failure = Some (delivered, failed, first_error) ->
  delivered + (failed - confirmation_failures) = bl_next_id s /\
  0 <= failed - confirmation_failures <= Z.of_nat lanes /\
  failed - confirmation_failures = Z.of_nat (length (omap event_error es)) /\
  first_error = match head (omap event_error es) with Some e => Some e | None => first_failure end /\
  (first_error = None <-> failed = confirmation_failures /\ first_failure = None) /\
  delivered <= Z.of_nat (length (ta_delivery (bl_tally s))) <= delivered + (failed - confirmation_failures).
Proof.
  intros Hrun Hout. pose proof (accounted_run lanes es _ _ Hrun (accounted_start lanes)) as [Hl Hi Hf He Ht Hn].
  destruct (run_errors _ _ _ Hrun) as [Hcount Hfirst]. cbn in Hcount, Hfirst.
  unfold bounded_outcome in Hout. destruct (forallb _ _) eqn:Hall; [|done]. injection Hout as <- <- <-.
  assert (Hend : forall p, p ∈ bl_lanes s -> p = LEnded).
  { intros p Hp. rewrite forallb_forall in Hall. specialize (Hall p ltac:(by apply list_elem_of_In)). by destruct p. }
  assert (Hsum : forall f k, f LEnded = k -> weigh f (bl_lanes s) = Z.of_nat (length (bl_lanes s)) * k).
  { intros f k Hk. rewrite (weigh_all _ (fun _ => k)) by (intros p Hp; by rewrite (Hend p Hp)). unfold weigh. clear. induction (bl_lanes s); cbn; lia. }
  pose proof (Hsum in_flight 0 eq_refl). pose proof (Hsum awaiting 0 eq_refl). pose proof (Hsum ended 1 eq_refl).
  split_and!; try lia; [by rewrite Hfirst|]. destruct (ta_first_error (bl_tally s)) as [e|].
  - split; [done|]. intros [E _]. assert (Hz : ta_failed (bl_tally s) = 0) by lia. by apply He in Hz.
  - assert (Hz : ta_failed (bl_tally s) = 0) by (by apply He). split; [intros ->; split; [lia|done]|by intros [_ ->]].
Qed.

(** Two lanes: the first delivers and ends, the second fails its second confirmation. *)
Definition bounded_events : list BoundedEvent :=
  [Turn 0 false; LanePrepared 0 (Ok tt); Turn 1 false; LaneSubscribed 0 (Ok tt); LanePrepared 1 (Ok tt); LaneSubmitted 0 (Ok 5000);
   LaneSubscribed 1 (Ok tt); LaneSubmitted 1 (Ok 7000); LaneSettled 1 (Ok tt); Turn 1 false; LanePrepared 1 (Ok tt);
   LaneSubscribed 1 (Ok tt); LaneSettled 0 (Ok tt); Turn 0 true; LaneSubmitted 1 (Ok 9000); LaneSettled 1 (Err "closed"%string)].

Definition bounded_end : BoundedState := mkBounded (mkTally 2 1 (Some "closed"%string) [5; 7; 9]) 3 [LEnded; LEnded].

Lemma bounded_load_is_accounted_witness :
  bounded_run (bounded_start 2) bounded_events = Some bounded_end /\ 2 + (1 - 0) = bl_next_id bounded_end.
Proof.
  assert (H : bounded_run (bounded_start 2) bounded_events = Some bounded_end) by (by vm_compute).
  split; [exact H|].
  apply (bounded_load_is_accounted 2 bounded_events bounded_end 0 None 2 1 (Some "closed"%string) H). by vm_compute.
Defined.

(** Two pairs through one chain; the second pair's last send is rejected and its steps run in between. *)
Definition contention_pairs : list Pair := new_pairs [11; 12; 13; 14].
Definition contention_plan : PhasePlan := mkPlan 0 (mkSpace 2 2) (0, 1) 1 0 (Bounded 4).
Definition contention_submit (id : Z) (_ : nat) (_ : list SolInstruction) : Result Z unit := if id =? 9 then Err tt else Ok (id + 1000).

Definition contention_sched : list (nat * Drive) :=
  [(1%nat, mkDrive StepX 7 1); (0%nat, mkDrive StepX 1 1); (0%nat, mkDrive StepY 2 0); (1%nat, mkDrive StepY 8 0); (0%nat, mkDrive StepZ 3 0)].

Definition contention_world : World :=
  mkWorld {[ 11 := mkCell 42 0 (demo_data (demo_header 5 0 0) (replicate 40 0)); 12 := mkCell 42 0 (demo_data (demo_header 6 0 0) (replicate 40 0));
             13 := mkCell 42 0 (demo_data (demo_header 7 0 0) (replicate 40 0)); 14 := mkCell 42 0 (demo_data (demo_header 8 0 0) (replicate 40 0)) ]} ∅ [].
Definition contention_state : Abs :=
  {[ 11 := (demo_header 5 0 0, replicate 40 0); 12 := (demo_header 6 0 0, replicate 40 0);
     13 := (demo_header 7 0 0, replicate 40 0); 14 := (demo_header 8 0 0, replicate 40 0) ]}.

Lemma contention_represents : represents contention_state contention_world.
Proof.
  intros k c. unfold contention_state. rewrite !lookup_insert_Some, lookup_singleton_Some.
  intros [[<- <-]|[_ [[<- <-]|[_ [[<- <-]|[_ [<- <-]]]]]]]; by vm_compute.
Qed.

Lemma phase_is_verified_in_any_order_witness :
  exists w', for_each (execute_at 42 contention_pairs) contention_sched contention_world = (Ok tt, w').
Proof.
  destruct (phase_is_verified_in_any_order 42 43 tt contention_submit (fun _ => 1000) (fun _ _ => false) (fun _ => StepQueryFailed) contention_plan
    contention_pairs contention_sched contention_world contention_state) as (w' & Hw & _).
  - unfold disjoint_pairs. cbn. repeat constructor; set_solver by lia.
  - split; by vm_compute.
  - repeat constructor; cbn; lia.
  - intros [|[|i]] d Hd; [injection Hd as <-; by vm_compute..|]. by vm_compute in Hd.
  - exact contention_represents.
  - done.
  - intros [|[|i]] p Hp; [injection Hp as <-..|done]; split; eexists _, _; (split_and!; [by vm_compute..|vm_compute; lia| by vm_compute|by vm_compute]).
  - by exists w'.
Defined.
