(* ===== verification/Retention.v ===== *)
(** Ledger retention: [redshift/src/scenarios/storage/ledger_retention_consistency.rs].

    The scenario remembers every transaction it sent, also those the ledger prunes, and compares what
    the transaction, block and address-history queries say with that memory.  The ledger answers
    through a [LedgerView], one for every time it is asked. *)
From Stdlib Require Import SpecFloat.
From S2P Require Import Prelude World Cell Float64 Metrics.

#[local] Open Scope Z_scope.
#[local] Open Scope list_scope.

Definition RETENTION_EVENTS : Z := 3.
Definition RETENTION_TIMEOUT : Duration := 180 * NANOS_PER_SEC.
Definition TX_INTERVAL : Duration := 200000000.
Definition SIGNATURE_WINDOW : nat := 1000.
Definition BLOCK_SETTLE_SLOTS : Z := 2.
Definition BLOCK_CLEANED_UP : Z := -32001.

Record Sent := mkSent { se_signature : Z; se_slot : Z }.

#[export] Instance Sent_eq_dec : EqDecision Sent.
Proof. solve_decision. Defined.

Record HistoryView := mkView { hv_pruned : list Sent; hv_retained : list Sent }.

(** [Iterator::max] and [Iterator::min] of the slots. *)
Fixpoint max_slot (l : list Sent) : option Z :=
  match l with [] => None | s :: l => Some (match max_slot l with Some m => Z.max (se_slot s) m | None => se_slot s end) end.
Fixpoint min_slot (l : list Sent) : option Z :=
  match l with [] => None | s :: l => Some (match min_slot l with Some m => Z.min (se_slot s) m | None => se_slot s end) end.

Definition max_pruned_slot (v : HistoryView) : option Z := max_slot (hv_pruned v).
Definition min_retained_slot (v : HistoryView) : option Z := min_slot (hv_retained v).

Definition add_count (adds : Z) : Z := adds mod 255 + 1.

Inductive RetentionError :=
| Query                      (** a request failed *)
| WrongSlot | PrunedShrank | PrunedNotOlder | PrunedBlockServed | PrunedBlockCode | RetainedBlockMissing
| WrongSignatures | CellMissing | CellInvalid | WrongTotal
| SendFailed | TransactionFailed | ListedMissing | TimedOut | NothingRetained | BadExit
| SubOverflow                (** the panic of a subtraction below zero *).

(** What the ledger answers; [Err tt] is a failed request. *)
Record LedgerView := mkLedger
  { lv_tx : Z -> Result (option Z) unit;              (** the slot of a transaction *)
    lv_tip : Result Z unit;
    lv_try_block : Z -> Result (Result unit Z) unit;  (** a block, or the code of the error *)
    lv_block : Z -> Result bool unit;                 (** whether there is a block *)
    lv_listed : Result (list Z) unit;                 (** the cell's signatures, the newest first *)
    lv_account : Result (option (list Z)) unit }.

Definition query {A} (r : Result A unit) : Result A RetentionError := match r with Ok a => Ok a | Err _ => Err Query end.

Record History := mkHistory { hi_sent : list Sent; hi_adds : Z; hi_total : Z }.

(** [History::observe] *)
Fixpoint observe (lv : LedgerView) (sent : list Sent) : Result HistoryView RetentionError :=
  match sent with
  | [] => Ok (mkView [] [])
  | entry :: sent =>
      let? tx := query (lv_tx lv (se_signature entry)) in
      match tx with
      | Some slot =>
          ensure! (slot =? se_slot entry) else WrongSlot in
          let? view := observe lv sent in Ok (mkView (hv_pruned view) (entry :: hv_retained view))
      | None => let? view := observe lv sent in Ok (mkView (entry :: hv_pruned view) (hv_retained view))
      end
  end.

Fixpoint check_pruned (lv : LedgerView) (pruned : list Sent) : Result unit RetentionError :=
  match pruned with
  | [] => Ok tt
  | entry :: pruned =>
      let? block := query (lv_try_block lv (se_slot entry)) in
      match block with
      | Ok _ => Err PrunedBlockServed
      | Err code => ensure! (code =? BLOCK_CLEANED_UP) else PrunedBlockCode in check_pruned lv pruned
      end
  end.

Fixpoint check_retained (lv : LedgerView) (tip : Z) (retained : list Sent) : Result unit RetentionError :=
  match retained with
  | [] => Ok tt
  | entry :: retained =>
      if tip <? se_slot entry + BLOCK_SETTLE_SLOTS then check_retained lv tip retained
      else
        let? block := query (lv_block lv (se_slot entry)) in
        ensure! block else RetainedBlockMissing in check_retained lv tip retained
  end.

Section history.
Context `{HC : HeaderCodec}.

(** [History::verify] *)
Definition verify (h : History) (lv : LedgerView) (view : HistoryView) (previous_pruned : nat) : Result unit RetentionError :=
  ensure! (previous_pruned <=? length (hv_pruned view))%nat else PrunedShrank in
  let? _ :=
    match max_pruned_slot view, min_retained_slot view with
    | Some max_pruned, Some min_retained => ensure! (max_pruned <? min_retained) else PrunedNotOlder in Ok tt
    | _, _ => Ok tt
    end in
  let? tip := query (lv_tip lv) in
  let? _ := check_pruned lv (hv_pruned view) in
  let? _ := check_retained lv tip (hv_retained view) in
  let? listed := query (lv_listed lv) in
  ensure! bool_decide (listed = reverse (se_signature <$> hv_retained view)) else WrongSignatures in
  let? account := query (lv_account lv) in
  let? d := ok_or account CellMissing in
  let? header := ok_or (CellHeader_try_decode d) CellInvalid in
  ensure! (value header =? hi_total h) else WrongTotal in Ok tt.

Definition check_history (h : History) (lv : LedgerView) (previous_pruned : nat) : Result HistoryView RetentionError :=
  let? view := observe lv (hi_sent h) in
  let? _ := verify h lv view previous_pruned in
  Ok view.

(** [send_add]: the signature of the confirmed send, its slot and whether it failed. *)
Definition send_add (h : History) (answer : Result (Z * Z * bool) unit) : Result (list Sent) RetentionError :=
  match answer with
  | Err _ => Err SendFailed
  | Ok (signature, slot, failed) =>
      ensure! negb failed else TransactionFailed in Ok (hi_sent h ++ [mkSent signature slot])
  end.

(** [seed_history]: the transactions listed for the cell, the oldest first. *)
Fixpoint seed_history (lv : LedgerView) (listed : list Z) : Result (list Sent) RetentionError :=
  match listed with
  | [] => Ok []
  | signature :: listed =>
      let? older := seed_history lv listed in
      let? tx := query (lv_tx lv signature) in
      let? slot := ok_or tx ListedMissing in
      Ok (older ++ [mkSent signature slot])
  end.

(** ** Pruning *)

Record Turn := mkTurn
  { tu_send : Result (Z * Z * bool) unit; tu_truncations : Result Z unit; tu_ledger : LedgerView; tu_superblocks : Result Z unit;
    tu_elapsed : Duration }.

Record PruneState := mkPrune { ps_history : History; ps_events : Z; ps_previous : nat; ps_seen : bool }.

(** The subtraction of two [u64]s: below zero it panics in a build that checks for overflow and
    wraps in one that does not. *)
Definition u64_sub (checks : bool) (a b : Z) : Result Z RetentionError :=
  match checked_sub64 a b with
  | Some n => Ok n
  | None => if checks then Err SubOverflow else Ok ((a - b) mod u64_bound)
  end.

(** A turn of the loop, and whether it was the last. *)
Definition prune_turn (checks : bool) (baseline : Z) (s : PruneState) (t : Turn) : Result (bool * PruneState) RetentionError :=
  let h := ps_history s in
  let count := add_count (hi_adds h) in
  let? sent := send_add h (tu_send t) in
  let h := mkHistory sent (hi_adds h + 1) (hi_total h + count) in
  let? truncations := query (tu_truncations t) in
  let? observed := u64_sub checks truncations baseline in
  let? s :=
    if ps_events s <? observed then
      let? view := check_history h (tu_ledger t) (ps_previous s) in
      let? _ := query (tu_superblocks t) in
      Ok (mkPrune h observed (length (hv_pruned view)) (ps_seen s || (ps_previous s <? length (hv_pruned view))%nat))
    else Ok (mkPrune h (ps_events s) (ps_previous s) (ps_seen s)) in
  if (RETENTION_EVENTS <=? ps_events s) && ps_seen s then Ok (true, s)
  else ensure! (tu_elapsed t <? RETENTION_TIMEOUT) else TimedOut in Ok (false, s).

(** The loop over the turns that happened; [None] while it has not ended. *)
Fixpoint prune_loop (checks : bool) (baseline : Z) (s : PruneState) (turns : list Turn) : option (Result PruneState RetentionError) :=
  match turns with
  | [] => None
  | t :: turns =>
      match prune_turn checks baseline s t with
      | Err e => Some (Err e)
      | Ok (true, s) => Some (Ok s)
      | Ok (false, s) => prune_loop checks baseline s turns
      end
  end.

Definition prune (checks : bool) (baseline : Z) (h : History) (turns : list Turn) (lv : LedgerView) :
    option (Result (PruneState * HistoryView) RetentionError) :=
  match prune_loop checks baseline (mkPrune h 0 0 false) turns with
  | None => None
  | Some (Err e) => Some (Err e)
  | Some (Ok s) => Some (let? view := check_history (ps_history s) lv (ps_previous s) in Ok (s, view))
  end.

(** [run]: prune, restart, check, write once more, check again. *)
Definition run (checks : bool) (baseline : Z) (h : History) (turns : list Turn) (pruned : LedgerView)
    (exit_code : option Z) (needed_sigkill : bool) (restarted : LedgerView) (last : Result (Z * Z * bool) unit) (final : LedgerView) :
    option (Result HistoryView RetentionError) :=
  match prune checks baseline h turns pruned with
  | None => None
  | Some (Err e) => Some (Err e)
  | Some (Ok (s, before)) => Some (
      ensure! negb (bool_decide (hv_retained before = [])) else NothingRetained in
      ensure! bool_decide (exit_code = Some 0) else BadExit in
      ensure! negb needed_sigkill else BadExit in
      let h := ps_history s in
      let? after := check_history h restarted (length (hv_pruned before)) in
      ensure! negb (bool_decide (hv_retained after = [])) else NothingRetained in
      let count := add_count (hi_adds h) in
      let? sent := send_add h last in
      check_history (mkHistory sent (hi_adds h) (hi_total h + count)) final (length (hv_pruned after)))
  end.
End history.
