(* ===== verification/RetentionProps.v ===== *)
(** Ledger retention: a passing check means that a prefix of the writes was pruned and everything else
    agrees with the memory of the run; the run stays inside the window of the signature query. *)
From S2P Require Import Prelude World Cell RefCodec SettlementFacts FixtureProps Float64 Metrics Retention.

#[local] Open Scope Z_scope.
#[local] Open Scope list_scope.

(** * Slots *)

Lemma max_slot_spec l m : max_slot l = Some m <-> (exists s, s ∈ l /\ se_slot s = m) /\ forall s, s ∈ l -> se_slot s <= m.
Proof.
  revert m. induction l as [|x l IH]; intros m; cbn; [split; [done|by intros [(s & Hs%not_elem_of_nil & _) _]]|].
  destruct (max_slot l) as [n|] eqn:E.
  - destruct (proj1 (IH n) eq_refl) as [(s & Hs & Hsn) Hall]. split.
    + intros [= <-]. split.
      * destruct (decide (n <= se_slot x)); [exists x; split; [by left|lia]|exists s; split; [by right|lia]].
      * intros y [->|Hy]%elem_of_cons; [lia|]. specialize (Hall y Hy). lia.
    + intros [(y & Hy & <-) Hm]. f_equal. pose proof (Hm x ltac:(by left)). pose proof (Hm s ltac:(by right)).
      apply elem_of_cons in Hy as [->|Hy]; [lia|]. specialize (Hall y Hy). lia.
  - assert (l = []) as ->; [|].
    { destruct l as [|y l]; [done|]. cbn in E. done. }
    split; [intros [= <-]; split; [exists x; split; [by left|done]|by intros s ->%list_elem_of_singleton]|].
    by intros [(s & ->%list_elem_of_singleton & <-) _].
Qed.

Lemma min_slot_spec l m : min_slot l = Some m <-> (exists s, s ∈ l /\ se_slot s = m) /\ forall s, s ∈ l -> m <= se_slot s.
Proof.
  revert m. induction l as [|x l IH]; intros m; cbn; [split; [done|by intros [(s & Hs%not_elem_of_nil & _) _]]|].
  destruct (min_slot l) as [n|] eqn:E.
  - destruct (proj1 (IH n) eq_refl) as [(s & Hs & Hsn) Hall]. split.
    + intros [= <-]. split.
      * destruct (decide (se_slot x <= n)); [exists x; split; [by left|lia]|exists s; split; [by right|lia]].
      * intros y [->|Hy]%elem_of_cons; [lia|]. specialize (Hall y Hy). lia.
    + intros [(y & Hy & <-) Hm]. f_equal. pose proof (Hm x ltac:(by left)). pose proof (Hm s ltac:(by right)).
      apply elem_of_cons in Hy as [->|Hy]; [lia|]. specialize (Hall y Hy). lia.
  - assert (l = []) as ->; [|].
    { destruct l as [|y l]; [done|]. cbn in E. done. }
    split; [intros [= <-]; split; [exists x; split; [by left|done]|by intros s ->%list_elem_of_singleton]|].
    by intros [(s & ->%list_elem_of_singleton & <-) _].
Qed.

Lemma max_slot_None l : max_slot l = None -> l = [].
Proof. by destruct l. Qed.

Lemma min_slot_None l : min_slot l = None -> l = [].
Proof. by destruct l. Qed.

(** The comparison of [verify] says that every pruned slot is below every retained one. *)
Definition older (pruned retained : list Sent) : Prop :=
  forall p r, p ∈ pruned -> r ∈ retained -> se_slot p < se_slot r.

Lemma older_check v :
  match max_pruned_slot v, min_retained_slot v with
  | Some max_pruned, Some min_retained => ensure! (max_pruned <? min_retained) else PrunedNotOlder in Ok tt
  | _, _ => Ok tt
  end = Ok tt <-> older (hv_pruned v) (hv_retained v).
Proof.
  unfold max_pruned_slot, min_retained_slot, older.
  destruct (max_slot (hv_pruned v)) as [a|] eqn:Ea; [|apply max_slot_None in Ea as ->; split; [by intros _ ? ? ?%not_elem_of_nil|done]].
  destruct (min_slot (hv_retained v)) as [b|] eqn:Eb; [|apply min_slot_None in Eb as ->; split; [by intros _ ? ? _ ?%not_elem_of_nil|done]].
  apply max_slot_spec in Ea as [(p & Hp & <-) Ha]. apply min_slot_spec in Eb as [(r & Hr & <-) Hb].
  destruct (se_slot p <? se_slot r) eqn:E; cbn; split; try done.
  - intros _ p' r' Hp' Hr'. specialize (Ha p' Hp'). specialize (Hb r' Hr'). lia.
  - intros H. specialize (H p r Hp Hr). lia.
Qed.

(** * Observing *)

Lemma retention_observe_spec lv sent v :
  observe lv sent = Ok v <->
  (forall s, s ∈ sent -> lv_tx lv (se_signature s) = Ok None \/ lv_tx lv (se_signature s) = Ok (Some (se_slot s))) /\
  v = mkView (filter (fun s => lv_tx lv (se_signature s) = Ok None) sent) (filter (fun s => lv_tx lv (se_signature s) <> Ok None) sent).
Proof.
  revert v. induction sent as [|s sent IH]; intros v; cbn [observe].
  - split; [intros [= <-]; split; [by intros ? ?%not_elem_of_nil|done]|by intros [_ ->]].
  - rewrite !filter_cons. destruct (lv_tx lv (se_signature s)) as [[slot|]|] eqn:E; cbn [query res_bind].
    + rewrite decide_False by congruence. rewrite decide_True by congruence. destruct (slot =? se_slot s) eqn:Hs.
      * assert (slot = se_slot s) as -> by lia. split.
        -- destruct (observe lv sent) as [w|] eqn:Ho; [|done]. cbn. intros [= <-]. destruct (proj1 (IH w) eq_refl) as [Hall ->].
           split; [|done]. intros x [->|Hx]%elem_of_cons; [by right|auto].
        -- intros [Hall ->]. rewrite (proj2 (IH _) (conj (fun x Hx => Hall x (list_elem_of_further x s sent Hx)) eq_refl)). done.
      * split; [done|]. intros [Hall _]. destruct (Hall s ltac:(by left)) as [H|H]; rewrite E in H; [done|]. injection H as ->. lia.
    + rewrite decide_True by congruence. rewrite decide_False by congruence. split.
      * destruct (observe lv sent) as [w|] eqn:Ho; [|done]. cbn. intros [= <-]. destruct (proj1 (IH w) eq_refl) as [Hall ->].
        split; [|done]. intros x [->|Hx]%elem_of_cons; [by left|auto].
      * intros [Hall ->]. rewrite (proj2 (IH _) (conj (fun x Hx => Hall x (list_elem_of_further x s sent Hx)) eq_refl)). done.
    + split; [done|]. intros [Hall _]. destruct (Hall s ltac:(by left)) as [H|H]; by rewrite E in H.
Qed.

Lemma filter_all_elems {A} (P : A -> Prop) `{!forall x, Decision (P x)} (l : list A) : Forall P l -> filter P l = l.
Proof. induction 1 as [|x l Hx _ IH]; [done|]. by rewrite filter_cons, decide_True, IH. Qed.

Lemma filter_none_elems {A} (P : A -> Prop) `{!forall x, Decision (P x)} (l : list A) : Forall (fun x => ~ P x) l -> filter P l = [].
Proof. induction 1 as [|x l Hx _ IH]; [done|]. by rewrite filter_cons, decide_False, IH. Qed.

(** In send order, pruned writes older than every retained one are a prefix. *)
Lemma older_is_prefix (P : Sent -> Prop) `{!forall s, Decision (P s)} sent :
  Sorted Z.le (se_slot <$> sent) -> older (filter P sent) (filter (fun s => ~ P s) sent) ->
  exists k, (k <= length sent)%nat /\ filter P sent = take k sent /\ filter (fun s => ~ P s) sent = drop k sent.
Proof.
  intros Hs%Sorted_StronglySorted; [|intros x y z; lia]. induction sent as [|s sent IH]; intros Ho; [by exists 0%nat|].
  cbn in Hs. apply StronglySorted_cons in Hs as [Hle Hs]. rewrite !filter_cons in Ho |- *. destruct (decide (P s)) as [HP|HP].
  - rewrite decide_False in Ho |- * by tauto. destruct IH as (k & Hk & Hp & Hr); [done| |].
    { intros p r Hp Hr. apply Ho; [by right|done]. }
    exists (S k). cbn. split_and!; [lia|by rewrite Hp|done].
  - rewrite decide_True in Ho |- * by tauto. exists 0%nat. split_and!; [lia| |].
    + cbn. destruct (filter P sent) as [|p l] eqn:E; [done|]. exfalso.
      assert (Hp : p ∈ filter P sent) by (rewrite E; by left). pose proof Hp as Hin. apply list_elem_of_filter in Hin as [_ Hin].
      rewrite Forall_fmap, Forall_forall in Hle. specialize (Hle p Hin). cbn in Hle. specialize (Ho p s ltac:(by left) ltac:(by left)). lia.
    + cbn. f_equal. rewrite filter_all_elems; [done|]. apply Forall_forall. intros x Hx HPx.
      rewrite Forall_fmap, Forall_forall in Hle. specialize (Hle x Hx). cbn in Hle.
      specialize (Ho x s ltac:(by apply list_elem_of_filter) ltac:(by left)). lia.
Qed.

(** * The blocks *)

Lemma check_pruned_spec lv l :
  check_pruned lv l = Ok tt <-> forall s, s ∈ l -> lv_try_block lv (se_slot s) = Ok (Err BLOCK_CLEANED_UP).
Proof.
  induction l as [|s l IH]; cbn [check_pruned]; [split; [by intros _ ? ?%not_elem_of_nil|done]|].
  destruct (lv_try_block lv (se_slot s)) as [[u|code]|] eqn:E; cbn [query res_bind].
  - split; [done|]. intros H. specialize (H s ltac:(by left)). congruence.
  - destruct (code =? BLOCK_CLEANED_UP) eqn:Hc.
    + apply Z.eqb_eq in Hc as ->. rewrite IH. split; [|intros H x Hx; apply H; by right]. intros H x [->|Hx]%elem_of_cons; auto.
    + split; [done|]. intros H. specialize (H s ltac:(by left)). rewrite E in H. injection H as ->. lia.
  - split; [done|]. intros H. specialize (H s ltac:(by left)). congruence.
Qed.

Lemma check_retained_spec lv tip l :
  check_retained lv tip l = Ok tt <-> forall s, s ∈ l -> se_slot s + BLOCK_SETTLE_SLOTS <= tip -> lv_block lv (se_slot s) = Ok true.
Proof.
  induction l as [|s l IH]; cbn [check_retained]; [split; [by intros _ ? ?%not_elem_of_nil|done]|].
  destruct (tip <? se_slot s + BLOCK_SETTLE_SLOTS) eqn:Ht.
  - rewrite IH. split; [|intros H x Hx; apply H; by right]. intros H x [->|Hx]%elem_of_cons Hle; [lia|auto].
  - destruct (lv_block lv (se_slot s)) as [[]|] eqn:E; cbn [query res_bind].
    + rewrite IH. split; [|intros H x Hx; apply H; by right]. intros H x [->|Hx]%elem_of_cons Hle; auto.
    + split; [done|]. intros H. specialize (H s ltac:(by left) ltac:(lia)). congruence.
    + split; [done|]. intros H. specialize (H s ltac:(by left) ltac:(lia)). congruence.
Qed.

Section history.
Context `{HC : HeaderCodec}.

(** What the ledger shows once it has pruned the first [k] writes. *)
Record shows (h : History) (lv : LedgerView) (k : nat) : Prop := mkShows
  { sh_bound : (k <= length (hi_sent h))%nat;
    sh_pruned : forall s, s ∈ take k (hi_sent h) -> lv_tx lv (se_signature s) = Ok None /\ lv_try_block lv (se_slot s) = Ok (Err BLOCK_CLEANED_UP);
    sh_retained : forall s, s ∈ drop k (hi_sent h) -> lv_tx lv (se_signature s) = Ok (Some (se_slot s));
    sh_older : older (take k (hi_sent h)) (drop k (hi_sent h));
    sh_blocks : exists tip, lv_tip lv = Ok tip /\
      forall s, s ∈ drop k (hi_sent h) -> se_slot s + BLOCK_SETTLE_SLOTS <= tip -> lv_block lv (se_slot s) = Ok true;
    sh_listed : lv_listed lv = Ok (reverse (se_signature <$> drop k (hi_sent h)));
    sh_value : exists d header, lv_account lv = Ok (Some d) /\ CellHeader_try_decode d = Some header /\ value header = hi_total h }.

Lemma retention_verify_spec h lv view previous :
  verify h lv view previous = Ok tt <->
  (previous <= length (hv_pruned view))%nat /\ older (hv_pruned view) (hv_retained view) /\
  (exists tip, lv_tip lv = Ok tip /\ forall s, s ∈ hv_retained view -> se_slot s + BLOCK_SETTLE_SLOTS <= tip -> lv_block lv (se_slot s) = Ok true) /\
  (forall s, s ∈ hv_pruned view -> lv_try_block lv (se_slot s) = Ok (Err BLOCK_CLEANED_UP)) /\
  lv_listed lv = Ok (reverse (se_signature <$> hv_retained view)) /\
  exists d header, lv_account lv = Ok (Some d) /\ CellHeader_try_decode d = Some header /\ value header = hi_total h.
Proof.
  unfold verify. rewrite <- (older_check view), <- (check_pruned_spec lv). setoid_rewrite <- (check_retained_spec lv). split.
  - intros H. destruct (previous <=? length (hv_pruned view))%nat eqn:Hp; [|done]. apply Nat.leb_le in Hp. cbn in H. split; [done|].
    destruct (match max_pruned_slot view with Some _ => _ | None => _ end) as [[]|]; [|done]. cbn in H. split; [done|].
    destruct (lv_tip lv) as [tip|]; [|done]. cbn in H. destruct (check_pruned _ _) as [[]|]; [|done]. cbn in H.
    destruct (check_retained _ _ _) as [[]|] eqn:Hr; [|done]. cbn in H. destruct (lv_listed lv) as [listed|]; [|done]. cbn in H.
    case_bool_decide as Hl; [|done]. subst listed. destruct (lv_account lv) as [[d|]|]; [|done..]. cbn in H.
    destruct (CellHeader_try_decode d) as [header|] eqn:Hd; [|done]. cbn in H. destruct (value header =? hi_total h) eqn:Hv; [|done].
    split_and!; [by exists tip|done|done|]. exists d, header. split_and!; [done|done|lia].
  - intros (Hp & -> & (tip & -> & Hr) & -> & -> & d & header & -> & Hd & Hv). rewrite (proj2 (Nat.leb_le _ _) Hp). cbn.
    rewrite Hr. cbn. rewrite bool_decide_true by done. rewrite Hd. cbn. by rewrite Hv, Z.eqb_refl.
Qed.

Lemma check_history_spec h lv previous view :
  Sorted Z.le (se_slot <$> hi_sent h) ->
  check_history h lv previous = Ok view <->
  exists k, (previous <= k)%nat /\ view = mkView (take k (hi_sent h)) (drop k (hi_sent h)) /\ shows h lv k.
Proof.
  intros Hs. unfold check_history. split.
  - destruct (observe lv (hi_sent h)) as [v|] eqn:Ho; [|done]. cbn. destruct (verify h lv v previous) as [[]|] eqn:Hv; [|done]. cbn. intros [= <-].
    apply retention_observe_spec in Ho as [Htx ->]. apply retention_verify_spec in Hv as (Hp & Hold & Hb & Hpr & Hl & Hval). cbn [hv_pruned hv_retained] in *.
    destruct (older_is_prefix _ _ Hs Hold) as (k & Hk & Ep & Er). rewrite Ep, Er in *. exists k.
    split_and!; [rewrite length_take in Hp; lia|done|]. split; try done.
    + intros s Hin. split; [|by apply Hpr]. rewrite <- Ep in Hin. by apply list_elem_of_filter in Hin as [? _].
    + intros s Hin. rewrite <- Er in Hin. apply list_elem_of_filter in Hin as [Hne Hin]. by destruct (Htx s Hin).
  - intros (k & Hp & -> & [Hb Hpr Hre Hold Hbl Hl Hval]).
    assert (Hsplit : forall s, s ∈ hi_sent h -> s ∈ take k (hi_sent h) \/ s ∈ drop k (hi_sent h)).
    { intros s Hin. by rewrite <- (take_drop k (hi_sent h)) in Hin; apply elem_of_app in Hin. }
    assert (Ho : observe lv (hi_sent h) = Ok (mkView (take k (hi_sent h)) (drop k (hi_sent h)))).
    { apply retention_observe_spec. split; [intros s [Hin|Hin]%Hsplit; [left; by apply Hpr|right; by apply Hre]|].
      rewrite <- (take_drop k (hi_sent h)) at 3 4. rewrite !filter_app. f_equal; symmetry.
      - rewrite filter_all_elems, filter_none_elems, app_nil_r; [done|..]; apply Forall_forall; intros s Hin; [by rewrite Hre|by apply Hpr].
      - rewrite filter_none_elems, filter_all_elems; [done|..]; apply Forall_forall; intros s Hin; [by rewrite Hre|]. intros Hn. apply Hn. by apply Hpr. }
    rewrite Ho. cbn. rewrite (proj2 (retention_verify_spec h lv _ previous)); [done|]. cbn [hv_pruned hv_retained].
    split_and!; try done; [rewrite length_take; lia|]. intros s Hin. by apply Hpr.
Qed.

(** * The run *)

(** The writes of the turns. *)
Definition write_of (answer : Result (Z * Z * bool) unit) : list Sent :=
  match answer with Ok (signature, slot, _) => [mkSent signature slot] | Err _ => [] end.
Definition writes (turns : list Turn) : list Sent := concat ((fun t => write_of (tu_send t)) <$> turns).

(** The sum of the next [n] counts. *)
Definition added (adds : Z) (n : nat) : Z := foldr Z.add 0 (add_count <$> seqZ adds (Z.of_nat n)).

Lemma added_S adds n : added adds (S n) = add_count adds + added (adds + 1) n.
Proof. unfold added. rewrite Nat2Z.inj_succ, seqZ_cons by lia. cbn. do 4 f_equal; lia. Qed.

Lemma send_add_spec h answer sent :
  send_add h answer = Ok sent -> sent = hi_sent h ++ write_of answer /\ length (write_of answer) = 1%nat.
Proof.
  unfold send_add. destruct answer as [[[g slot] failed]|]; [|done]. destruct failed; cbn; [done|]. by intros [= <-].
Qed.

Lemma check_history_mono h lv previous view : check_history h lv previous = Ok view -> (previous <= length (hv_pruned view))%nat.
Proof.
  unfold check_history. destruct (observe _ _) as [v|]; [|done]. cbn. destruct (verify _ _ _ _) as [[]|] eqn:Hv; [|done]. cbn.
  intros [= <-]. by apply retention_verify_spec in Hv as [? _].
Qed.

(** One turn writes once; a turn that is not the last ended in time, and what it saw pruned has not
    shrunk. *)
Lemma prune_turn_spec checks baseline s t b s' :
  prune_turn checks baseline s t = Ok (b, s') ->
  hi_sent (ps_history s') = hi_sent (ps_history s) ++ write_of (tu_send t) /\ length (write_of (tu_send t)) = 1%nat /\
  hi_adds (ps_history s') = hi_adds (ps_history s) + 1 /\
  hi_total (ps_history s') = hi_total (ps_history s) + add_count (hi_adds (ps_history s)) /\
  (b = false -> tu_elapsed t < RETENTION_TIMEOUT) /\ (b = true -> ps_seen s' = true) /\
  (ps_previous s <= ps_previous s')%nat /\ (ps_seen s' = true -> ps_seen s = true \/ (0 < ps_previous s')%nat).
Proof.
  unfold prune_turn. destruct (send_add (ps_history s) (tu_send t)) as [sent|] eqn:Hsend; [|done]. cbn [res_bind].
  apply send_add_spec in Hsend as [-> Hlen]. destruct (query (tu_truncations t)) as [truncations|]; [|done]. cbn [res_bind].
  destruct (u64_sub checks truncations baseline) as [observed|]; [|done]. cbn [res_bind].
  destruct (ps_events s <? observed).
  - set (h := mkHistory _ _ _). destruct (check_history h (tu_ledger t) (ps_previous s)) as [view|] eqn:Hc; [|done]. cbn [res_bind].
    pose proof (check_history_mono _ _ _ _ Hc) as Hmono.
    destruct (query (tu_superblocks t)); [|done]. cbn [res_bind ps_events ps_seen].
    destruct (_ && _) eqn:Hb; [|destruct (tu_elapsed t <? RETENTION_TIMEOUT) eqn:He; [|done]]; intros [= <- <-]; cbn; split_and!; try done; try lia.
    + intros _. by apply andb_true_iff in Hb as [_ Hb].
    + intros [->|?%Nat.ltb_lt]%orb_true_iff; [by left|right; lia].
    + intros [->|?%Nat.ltb_lt]%orb_true_iff; [by left|right; lia].
  - cbn [res_bind ps_events ps_seen]. destruct (_ && _) eqn:Hb; [|destruct (tu_elapsed t <? RETENTION_TIMEOUT) eqn:He; [|done]];
      intros [= <- <-]; cbn; split_and!; try done; try lia; auto.
    intros _. by apply andb_true_iff in Hb as [_ Hb].
Qed.

Lemma prune_loop_spec checks baseline s turns s' :
  prune_loop checks baseline s turns = Some (Ok s') -> (ps_seen s = true -> (0 < ps_previous s)%nat) ->
  exists n, (n < length turns)%nat /\ hi_sent (ps_history s') = hi_sent (ps_history s) ++ writes (take (S n) turns) /\
    length (writes (take (S n) turns)) = S n /\
    hi_adds (ps_history s') = hi_adds (ps_history s) + Z.of_nat (S n) /\
    hi_total (ps_history s') = hi_total (ps_history s) + added (hi_adds (ps_history s)) (S n) /\
    (forall i t, (i < n)%nat -> turns !! i = Some t -> tu_elapsed t < RETENTION_TIMEOUT) /\
    (0 < ps_previous s')%nat.
Proof.
  revert s. induction turns as [|t turns IH]; intros s; cbn [prune_loop]; [done|].
  destruct (prune_turn checks baseline s t) as [[[] s1]|] eqn:Ht; [| |done]; apply prune_turn_spec in Ht as (Hs & Hl & Ha & Htot & Hf & Htr & Hp & Hseen); intros H Hpos.
  - injection H as <-. exists 0%nat. unfold writes. cbn [take fmap list_fmap concat length]. rewrite app_nil_r, Hl.
    rewrite added_S. split_and!; try done; try lia.
    + unfold added. rewrite seqZ_nil by lia. cbn. lia.
    + destruct (Hseen (Htr eq_refl)); [|done]. specialize (Hpos ltac:(done)). lia.
  - destruct (IH s1 H) as (n & Hn & Hs' & Hl' & Ha' & Htot' & He & Hp').
    { intros Hx. destruct (Hseen Hx) as [Hy|]; [|done]. specialize (Hpos Hy). lia. }
    exists (S n). cbn [length]. split_and!; [lia| | |lia| | |done].
    + rewrite Hs', Hs, <- app_assoc. done.
    + unfold writes in *. change (take (S (S n)) (t :: turns)) with (t :: take (S n) turns). cbn [fmap list_fmap concat]. rewrite length_app, Hl, Hl'. done.
    + rewrite Htot', Htot, Ha, (added_S _ (S n)). lia.
    + intros [|i] t' Hi Hti; cbn in Hti; [injection Hti as <-; auto|]. apply (He i); [lia|done].
Qed.

Lemma foldr_add_app l1 l2 : foldr Z.add 0 (l1 ++ l2) = foldr Z.add 0 l1 + foldr Z.add 0 l2.
Proof. induction l1 as [|x l1 IH]; cbn; [done|]. rewrite IH. lia. Qed.

Lemma added_snoc adds n : added adds (S n) = added adds n + add_count (adds + Z.of_nat n).
Proof.
  unfold added. rewrite Nat2Z.inj_succ, <- Z.add_1_r, seqZ_app by lia. rewrite fmap_app, foldr_add_app, (seqZ_cons (adds + Z.of_nat n)), (seqZ_nil _ (Z.pred 1)) by lia.
  cbn. lia.
Qed.

Lemma sorted_turns (h : list Sent) turns n last :
  Sorted Z.le (se_slot <$> h ++ writes turns ++ write_of last) ->
  Sorted Z.le (se_slot <$> h ++ writes (take (S n) turns) ++ write_of last).
Proof.
  assert (Hw : writes turns = writes (take (S n) turns) ++ writes (drop (S n) turns)).
  { unfold writes. rewrite <- concat_app, <- fmap_app, take_drop. done. }
  intros Hs%Sorted_StronglySorted; [|intros x y z; lia]. apply StronglySorted_Sorted. revert Hs. rewrite Hw, !fmap_app.
  set (a := se_slot <$> h). set (b := se_slot <$> writes (take _ _)). set (c := se_slot <$> writes (drop _ _)). set (d := se_slot <$> write_of last).
  rewrite !StronglySorted_app. set_solver.
Qed.

(** The turns sleep between them. *)
Definition paced (turns : list Turn) : Prop := forall i t, turns !! i = Some t -> Z.of_nat i * TX_INTERVAL <= tu_elapsed t.

(** C18: a passing run accounts for every write.  If [run] succeeds on turns that sleep the interval
    between them and on writes in slot order, then the history it ends with has every seeded write,
    one per turn, at most 901 of them, and the last; the ledger shows exactly that history with a
    nonempty prefix of it pruned, and the cell holds the sum of all counts that were ever added.  So
    with at most 98 seeded writes the signature query's window of 1,000 is never exceeded. *)
Theorem retention_run_accounts_for_every_write checks baseline h turns pruned exit_code needed_sigkill restarted last final view :
  paced turns -> hi_adds h = 0 -> hi_total h = 0 ->
  Sorted Z.le (se_slot <$> hi_sent h ++ writes turns ++ write_of last) ->
  run checks baseline h turns pruned exit_code needed_sigkill restarted last final = Some (Ok view) ->
  exists n k, (n < length turns)%nat /\ (n <= 900)%nat /\
    let h' := mkHistory (hi_sent h ++ writes (take (S n) turns) ++ write_of last) (Z.of_nat (S n)) (added 0 (S (S n))) in
    length (hi_sent h') = (length (hi_sent h) + S n + 1)%nat /\ (0 < k)%nat /\ shows h' final k /\
    view = mkView (take k (hi_sent h')) (drop k (hi_sent h')).
Proof.
  intros Hpace Ha0 Ht0 Hsort. unfold run, prune. destruct (prune_loop _ _ _ turns) as [[s|]|] eqn:Hloop; [|done..].
  apply prune_loop_spec in Hloop as (n & Hn & Hs & Hw & Ha & Ht & He & Hp); [|done]. cbn [ps_history] in *.
  destruct (check_history (ps_history s) pruned (ps_previous s)) as [before|] eqn:Hbefore; [|done]. cbn [res_bind]. intros [= H].
  case_bool_decide; [done|]. case_bool_decide; [|done]. destruct needed_sigkill; [done|]. cbn in H.
  destruct (check_history (ps_history s) restarted _) as [after|] eqn:Hafter; [|done]. cbn in H. case_bool_decide; [done|]. cbn in H.
  destruct (send_add (ps_history s) last) as [sent|] eqn:Hsend; [|done]. cbn in H. apply send_add_spec in Hsend as [-> Hlast].
  apply check_history_mono in Hbefore, Hafter. rewrite Hs, <- app_assoc in H.
  apply check_history_spec in H as (k & Hk & -> & Hshow); [|by eapply sorted_turns]. cbn [hi_sent hi_total hi_adds] in *.
  exists n, k. assert (Hn900 : (n <= 900)%nat).
  { destruct (decide (n <= 900)%nat) as [|Hgt]; [done|]. destruct (lookup_lt_is_Some_2 turns 900) as [t Htt]; [lia|].
    specialize (He 900%nat t ltac:(lia) Htt). specialize (Hpace _ _ Htt). unfold RETENTION_TIMEOUT, TX_INTERVAL, NANOS_PER_SEC in *. lia. }
  split_and!; [done|done| |lia| |done].
  - rewrite !length_app, Hw, Hlast. lia.
  - rewrite Ha, Ht, Ha0, Ht0 in Hshow. cbn [Z.add] in Hshow. by rewrite (added_snoc 0 (S n)).
Qed.
End history.

(** A ledger that has pruned the first [k] of some writes. *)
Definition pruned_ledger (sent : list Sent) (k : nat) (total : Z) : LedgerView :=
  mkLedger
    (fun signature => Ok (se_slot <$> find (fun s => se_signature s =? signature) (drop k sent)))
    (Ok 100) (fun slot => Ok (if existsb (fun s => se_slot s =? slot) (take k sent) then Err BLOCK_CLEANED_UP else Ok tt))
    (fun _ => Ok true) (Ok (reverse (se_signature <$> drop k sent)))
    (Ok (Some (header_bytes (mkHeader (mkCellId 7 0) total 1 Accept)))).

Definition seeded : list Sent := [mkSent 1 10].
Definition turn_at (i : Z) (sent : list Sent) (k : nat) (total : Z) : Turn :=
  mkTurn (Ok (2 + i, 11 + i, false)) (Ok (6 + i)) (pruned_ledger sent k total) (Ok 9) (i * TX_INTERVAL + 7).

Definition retention_turns : list Turn :=
  let s1 := seeded ++ [mkSent 2 11] in
  let s2 := s1 ++ [mkSent 3 12] in
  let s3 := s2 ++ [mkSent 4 13] in
  [turn_at 0 s1 0 1; turn_at 1 s2 0 3; turn_at 2 s3 1 6].

Definition retention_sent : list Sent := [mkSent 1 10; mkSent 2 11; mkSent 3 12; mkSent 4 13].
Definition retention_final : list Sent := retention_sent ++ [mkSent 5 20].

Lemma retention_run_accounts_for_every_write_witness :
  run true 5 (mkHistory seeded 0 0) retention_turns (pruned_ledger retention_sent 1 6) (Some 0) false (pruned_ledger retention_sent 2 6)
    (Ok (5, 20, false)) (pruned_ledger retention_final 3 10) = Some (Ok (mkView (take 3 retention_final) (drop 3 retention_final))) /\
  exists k, (0 < k)%nat /\ take 3 retention_final = take k retention_final.
Proof.
  assert (Hrun : run true 5 (mkHistory seeded 0 0) retention_turns (pruned_ledger retention_sent 1 6) (Some 0) false (pruned_ledger retention_sent 2 6)
    (Ok (5, 20, false)) (pruned_ledger retention_final 3 10) = Some (Ok (mkView (take 3 retention_final) (drop 3 retention_final)))) by (by vm_compute).
  split; [exact Hrun|].
  destruct (retention_run_accounts_for_every_write true 5 (mkHistory seeded 0 0) retention_turns (pruned_ledger retention_sent 1 6) (Some 0) false
    (pruned_ledger retention_sent 2 6) (Ok (5, 20, false)) (pruned_ledger retention_final 3 10)
    (mkView (take 3 retention_final) (drop 3 retention_final))) as (n & k & Hn & _ & Hlen & Hk & Hs & Hv); [|done|done| |exact Hrun|].
  - intros [|[|[|i]]] t Ht; [injection Ht as <-; vm_compute; discriminate..|done].
  - cbn. repeat constructor; lia.
  - by exists 3%nat; split; [lia|].
Defined.
