(* ===== verification/Checkpoint.v ===== *)
(** Recovering from a checkpoint: [redshift/src/scenarios/storage/checkpoint_recovery.rs].

    The rollup is an interface: the state it is in and its answers to the requests the scenario makes,
    some of which may change that state, and its clock.  The scenario is a program over it; the archives' directory, the key
    pairs and the blockhash are part of what [Rollup_send] hides. *)
From Stdlib Require Import SpecFloat.
From S2P Require Import Prelude World Cell Float64 Rate Waiting.

#[local] Open Scope Z_scope.
#[local] Open Scope list_scope.

Definition ROUNDS : nat := 2.
Definition CHECKPOINT_TIMEOUT : Duration := 120 * NANOS_PER_SEC.

(** [meta.err]: the instruction error the scenario plans, or another. *)
Inductive TxFault := InstructionFault (index code : Z) | OtherFault.

#[export] Instance TxFault_eq_dec : EqDecision TxFault.
Proof. solve_decision. Defined.

Record Meta := mkMeta { me_err : option TxFault; me_fee : Z; me_pre : list Z; me_post : list Z }.

#[export] Instance Meta_eq_dec : EqDecision Meta.
Proof. solve_decision. Defined.

(** A transaction the ledger returns; its metadata may be missing. *)
Record Evidence := mkEvidence { ev_slot : Z; ev_meta : option Meta }.

#[export] Instance Evidence_eq_dec : EqDecision Evidence.
Proof. solve_decision. Defined.

Record State := mkState { st_payer_lamports : Z; st_cell_lamports : Z; st_cell : CellHeader }.

#[export] Instance CheckpointState_eq_dec : EqDecision State.
Proof. solve_decision. Defined.

Inductive CheckpointError :=
| RequestFailed | MetaMissing | FeePayerExhausted | FeePayerMissing | MissingCell | InvalidCell | WrongOutcome | NoPayerBalance
| FeeExceedsBalance | WrongBalances | EvidenceChanged | WrongState | IdsExhausted | BoundaryNotNewer | EvidenceLost | WrongSignal | Overflow
| HeadMissing | NotSealed | NotArchived.

Record CRecord := mkCRecord { cr_id : Z; cr_signature : Z; cr_evidence : option Evidence }.

(** [id.is_multiple_of(2)] *)
Definition fails (id : Z) : bool := id mod 2 =? 0.

(** [State::apply]; the additions are to [u64]. *)
Definition State_apply (s : State) (id : Z) (evidence : Evidence) : Result State CheckpointError :=
  let? meta := ok_or (ev_meta evidence) MetaMissing in
  ensure! (me_fee meta <=? st_payer_lamports s) else FeePayerExhausted in
  let payer := st_payer_lamports s - me_fee meta in
  let c := st_cell s in
  if fails id then Ok (mkState payer (st_cell_lamports s) c)
  else
    ensure! (value c + id <? u64_bound) && (revision c + 1 <? u64_bound) else Overflow in
    Ok (mkState payer (st_cell_lamports s) (mkHeader (Cell.id c) (value c + id) (revision c + 1) (undelegation c))).

(** [Record::check] *)
Definition CRecord_check (r : CRecord) (evidence : Evidence) : Result unit CheckpointError :=
  let? meta := ok_or (ev_meta evidence) MetaMissing in
  let error := if fails (cr_id r) then Some (InstructionFault 1 0) else None in
  ensure! bool_decide (me_err meta = error) else WrongOutcome in
  match me_pre meta with
  | [] => Err NoPayerBalance
  | payer :: others =>
      ensure! (me_fee meta <=? payer) else FeeExceedsBalance in
      ensure! bool_decide (me_post meta = (payer - me_fee meta) :: others) else WrongBalances in
      match cr_evidence r with
      | Some before => ensure! bool_decide (evidence = before) else EvidenceChanged in Ok tt
      | None => Ok tt
      end
  end.

Section decode.
Context `{HC : HeaderCodec}.

(** [State::decode]: lamports and data of the payer and of the cell. *)
Definition State_decode (payer cell : option (Z * list Z)) : Result State CheckpointError :=
  let? payer := ok_or payer FeePayerMissing in
  let? cell := ok_or cell MissingCell in
  let? header := ok_or (CellHeader_try_decode cell.2) InvalidCell in
  Ok (mkState payer.1 cell.1 header).
End decode.

(** * The rollup *)

Record Rollup (St : Type) := mkRollup
  { Rollup_send : Z -> St -> Result Z unit * St;             (** send the transaction for an id: its signature *)
    Rollup_await : Z -> St -> Result Evidence unit;          (** wait for a signature *)
    Rollup_get : Z -> St -> Result (option Evidence) unit;
    Rollup_accounts : St -> Result (option (Z * list Z) * option (Z * list Z)) unit;
    Rollup_superblocks : St -> Result (option f64) unit * St; (** the metric of sealed superblocks *)
    Rollup_archived : Z -> St -> bool;                       (** a superblock's archive is a file with something in it *)
    Rollup_now : St -> Instant;
    Rollup_sleep : Duration -> St -> St;
    Rollup_kill : St -> Result (option Z) unit * St }.       (** a hard restart: the exit signal *)
Arguments Rollup_send {St} _ _ _. Arguments Rollup_await {St} _ _ _. Arguments Rollup_get {St} _ _ _.
Arguments Rollup_accounts {St} _ _. Arguments Rollup_superblocks {St} _ _. Arguments Rollup_archived {St} _ _ _.
Arguments Rollup_now {St} _ _. Arguments Rollup_sleep {St} _ _ _. Arguments Rollup_kill {St} _ _.

Definition request {A} (r : Result A unit) : Result A CheckpointError := match r with Ok a => Ok a | Err _ => Err RequestFailed end.

Record Workload := mkWorkload { wl_next_id : Z; wl_expected : State }.

Section scenario.
Context `{HC : HeaderCodec} {St : Type} (er : Rollup St).

Definition State_read (s : St) : Result State CheckpointError :=
  let? accounts := request (Rollup_accounts er s) in State_decode accounts.1 accounts.2.

Definition Workload_check (w : Workload) (s : St) : Result unit CheckpointError :=
  let? read := State_read s in
  ensure! bool_decide (read = wl_expected w) else WrongState in Ok tt.

(** [Workload::submit]; ids are [u8]. *)
Definition submit (confirm : bool) (w : Workload) (s : St) : Result (CRecord * Workload * St) CheckpointError :=
  ensure! (wl_next_id w <? 255) else IdsExhausted in
  let id := wl_next_id w + 1 in
  let w := mkWorkload id (wl_expected w) in
  let '(sent, s) := Rollup_send er id s in
  let? signature := request sent in
  let record := mkCRecord id signature None in
  if confirm then
    let? evidence := request (Rollup_await er signature s) in
    let? _ := CRecord_check record evidence in
    let? expected := State_apply (wl_expected w) id evidence in
    let w := mkWorkload id expected in
    let? _ := Workload_check w s in
    Ok (mkCRecord id signature (Some evidence), w, s)
  else Ok (record, w, s).

(** One submission per flag. *)
Fixpoint submit_all (flags : list bool) (w : Workload) (s : St) : Result (list CRecord * Workload * St) CheckpointError :=
  match flags with
  | [] => Ok ([], w, s)
  | confirm :: flags =>
      let? one := submit confirm w s in
      let? rest := submit_all flags one.1.2 one.2 in
      Ok (one.1.1 :: rest.1.1, rest.1.2, rest.2)
  end.

(** [verify] *)
Fixpoint verify (protected : list CRecord) (s : St) : Result unit CheckpointError :=
  match protected with
  | [] => Ok tt
  | r :: protected =>
      let? found := request (Rollup_get er (cr_signature r) s) in
      ensure! bool_decide (found = cr_evidence r) else EvidenceLost in
      verify protected s
  end.

(** The loop over the crash tail: only retained records contribute. *)
Fixpoint replay (tail : list CRecord) (expected : State) (s : St) : Result (list CRecord * State) CheckpointError :=
  match tail with
  | [] => Ok ([], expected)
  | r :: tail =>
      let? found := request (Rollup_get er (cr_signature r) s) in
      match found with
      | None => replay tail expected s
      | Some evidence =>
          let? _ := CRecord_check r evidence in
          let? expected := State_apply expected (cr_id r) evidence in
          let? rest := replay tail expected s in
          Ok (mkCRecord (cr_id r) (cr_signature r) (Some evidence) :: rest.1, rest.2)
      end
  end.

(** [head]: the metric cast to [u64] *)
Definition ledger_head (s : St) : Result Z CheckpointError * St :=
  let '(found, s) := Rollup_superblocks er s in
  ((let? found := request found in let? x := ok_or found HeadMissing in Ok (f64_as 0 u64_max x)), s).

(** One attempt of [checkpoint]: the head has moved on and the next superblock is archived. *)
Definition checkpoint_attempt (sealed : Z) (s : St) : Result unit CheckpointError * St :=
  let '(current, s) := ledger_head s in
  ((let? current := current in
    ensure! sealed <? current else NotSealed in
    ensure! Rollup_archived er (sealed + 1) s else NotArchived in Ok tt), s).

(** [checkpoint]: the boundary is the head that was read before the wait. *)
Definition checkpoint (s : St) : Result Z CheckpointError * St :=
  let '(sealed, s) := ledger_head s in
  match sealed with
  | Err e => (Err e, s)
  | Ok sealed =>
      let '(waited, s) := retry_with (Rollup_now er) (Rollup_sleep er) (checkpoint_attempt sealed) CHECKPOINT_TIMEOUT s in
      ((let? _ := waited in Ok sealed), s)
  end.

Definition tail_flags : list bool := replicate 4 true ++ replicate 12 false.

Record RunState := mkRunState { rs_protected : list CRecord; rs_boundary : Z; rs_workload : Workload; rs_rollup : St }.

(** One round of [run]. *)
Definition run_round (r : RunState) : Result RunState CheckpointError :=
  let? first := submit_all (replicate 8 true) (rs_workload r) (rs_rollup r) in
  let '(records, w, s) := first in
  let protected := rs_protected r ++ records in
  let '(sealed, s) := checkpoint s in
  let? boundary := sealed in
  ensure! (rs_boundary r <? boundary) else BoundaryNotNewer in
  let? _ := verify protected s in
  let? _ := Workload_check w s in
  let baseline := wl_expected w in
  let? crash := submit_all tail_flags w s in
  let '(tail, w, s) := crash in
  let '(exit, s) := Rollup_kill er s in
  let? signal := request exit in
  ensure! bool_decide (signal = Some 9) else WrongSignal in
  let? _ := verify protected s in
  let? replayed := replay tail baseline s in
  let w := mkWorkload (wl_next_id w) replayed.2 in
  let? _ := Workload_check w s in
  let? last := submit_all (replicate 2 true) w s in
  let '(records, w, s) := last in
  Ok (mkRunState (protected ++ replayed.1 ++ records) boundary w s).

Fixpoint run_rounds (n : nat) (r : RunState) : Result RunState CheckpointError :=
  match n with
  | O => Ok r
  | S n => let? r := run_round r in run_rounds n r
  end.

Definition checkpoint_run (expected : State) (s : St) : Result RunState CheckpointError :=
  run_rounds ROUNDS (mkRunState [] 0 (mkWorkload 0 expected) s).
End scenario.
