(* ===== verification/CheckpointProps.v ===== *)
(** Recovering from a checkpoint: what a passing run has established about any rollup, and that a
    rollup which loses nothing but the end of its log after a checkpoint passes. *)
From S2P Require Import Prelude World Cell RefCodec Float64 Rate Waiting WaitingProps Checkpoint.

#[local] Open Scope Z_scope.
#[local] Open Scope list_scope.

(** * Soundness, for any rollup *)

(** The state after records that carry their evidence. *)
Fixpoint replay_of (s : State) (records : list CRecord) : Result State CheckpointError :=
  match records with
  | [] => Ok s
  | r :: records =>
      let? evidence := ok_or (cr_evidence r) EvidenceLost in
      let? s := State_apply s (cr_id r) evidence in
      replay_of s records
  end.

Lemma replay_of_app s r1 r2 s1 : replay_of s r1 = Ok s1 -> replay_of s (r1 ++ r2) = replay_of s1 r2.
Proof.
  revert s. induction r1 as [|r r1 IH]; intros s; cbn; [by intros [= ->]|]. destruct (cr_evidence r) as [e|]; cbn; [|done].
  destruct (State_apply s (cr_id r) e) as [s'|]; cbn; [|done]. apply IH.
Qed.

(** A record whose evidence is as planned. *)
Definition planned_outcome (r : CRecord) : Prop :=
  exists e m, cr_evidence r = Some e /\ ev_meta e = Some m /\
    me_err m = (if fails (cr_id r) then Some (InstructionFault 1 0) else None) /\
    exists payer others, me_pre m = payer :: others /\ me_post m = payer - me_fee m :: others /\ me_fee m <= payer.

Lemma CRecord_check_Ok r e :
  CRecord_check r e = Ok tt -> planned_outcome (mkCRecord (cr_id r) (cr_signature r) (Some e)).
Proof.
  unfold CRecord_check, planned_outcome. destruct (ev_meta e) as [m|] eqn:Hm; [|done]. cbn. case_bool_decide as He; [|done].
  destruct (me_pre m) as [|payer others] eqn:Hpre; [done|]. destruct (me_fee m <=? payer) eqn:Hf; [|done]. case_bool_decide as Hp; [|done]. intros _.
  exists e, m. split_and!; try done. exists payer, others. split_and!; done || lia.
Qed.

Section sound.
Context `{HC : HeaderCodec} {St : Type} (er : Rollup St).

(** Submissions: the ids follow on, confirmed records are applied and the state read back agrees. *)
Lemma submit_spec confirm w s r w' s' :
  submit er confirm w s = Ok (r, w', s') ->
  cr_id r = wl_next_id w + 1 /\ wl_next_id w' = cr_id r /\ wl_next_id w' <= 255 /\
  (confirm = true -> planned_outcome r /\ replay_of (wl_expected w) [r] = Ok (wl_expected w') /\ State_read er s' = Ok (wl_expected w')).
Proof.
  unfold submit. destruct (wl_next_id w <? 255) eqn:Hn; [|done]. destruct (Rollup_send er _ s) as [sent s1]. destruct sent as [g|]; [|done]. cbn [request res_bind].
  destruct confirm; [|intros [= <- <- <-]; cbn; split_and!; [done|done|lia|done]].
  destruct (Rollup_await er g s1) as [e|]; [|done]. cbn [request res_bind]. destruct (CRecord_check _ e) as [[]|] eqn:Hc; [|done]. cbn [res_bind wl_expected].
  destruct (State_apply (wl_expected w) (wl_next_id w + 1) e) as [x|] eqn:Ha; [|done]. cbn [res_bind].
  destruct (Workload_check er _ s1) as [[]|] eqn:Hw; [|done]. cbn [res_bind]. intros [= <- <- <-]. cbn.
  split_and!; [done|done|lia|]. intros _. split_and!; [by apply (CRecord_check_Ok _ _ Hc)|by rewrite Ha|].
  unfold Workload_check in Hw. destruct (State_read er s1) as [y|]; [|done]. cbn in Hw. by case_bool_decide; [subst|].
Qed.

Lemma submit_confirmed n w s records w' s' :
  submit_all er (replicate n true) w s = Ok (records, w', s') ->
  Forall planned_outcome records /\ replay_of (wl_expected w) records = Ok (wl_expected w') /\
  wl_next_id w' = wl_next_id w + Z.of_nat n /\ cr_id <$> records = seqZ (wl_next_id w + 1) (Z.of_nat n) /\
  (State_read er s = Ok (wl_expected w) \/ (0 < n)%nat -> State_read er s' = Ok (wl_expected w')).
Proof.
  revert w s records. induction n as [|n IH]; intros w s records; cbn [replicate submit_all].
  - intros [= <- <- <-]. split_and!; [constructor|done|lia|done|]. intros [?|?]; [done|lia].
  - destruct (submit er true w s) as [[[r w1] s1]|] eqn:Hs; [|done]. cbn. apply submit_spec in Hs as (Hi & Hw & Hle & Hc).
    destruct (Hc eq_refl) as (Hp & Hr & Hread). destruct (submit_all er (replicate n true) w1 s1) as [[[rest w2] s2]|] eqn:Ha; [|done]. cbn.
    intros [= <- <- <-]. apply IH in Ha as (Hps & Hrs & Hn & Hids & Hend). split_and!; [by constructor| |lia| |auto].
    + change (r :: rest) with ([r] ++ rest). by rewrite (replay_of_app _ _ _ _ Hr).
    + rewrite fmap_cons, Hids, Hw, Hi. rewrite (seqZ_cons (wl_next_id w + 1)) by lia. f_equal. f_equal; lia.
Qed.

(** Of the crash tail only the ids matter: its records are judged again. *)
Lemma submit_tail flags w s records w' s' :
  submit_all er flags w s = Ok (records, w', s') ->
  wl_next_id w' = wl_next_id w + Z.of_nat (length flags) /\ cr_id <$> records = seqZ (wl_next_id w + 1) (Z.of_nat (length flags)).
Proof.
  revert w s records. induction flags as [|b flags IH]; intros w s records; cbn [submit_all].
  - intros [= <- <- <-]. split; [cbn; lia|done].
  - destruct (submit er b w s) as [[[r w1] s1]|] eqn:Hs; [|done]. cbn. apply submit_spec in Hs as (Hi & Hw & _).
    destruct (submit_all er flags w1 s1) as [[[rest w2] s2]|] eqn:Ha; [|done]. cbn. intros [= <- <- <-]. apply IH in Ha as (Hn & Hids).
    split; [lia|]. rewrite fmap_cons, Hids, Hw, Hi, (seqZ_cons (wl_next_id w + 1)) by lia. f_equal. f_equal; lia.
Qed.

Lemma replay_spec tail expected s kept final :
  replay er tail expected s = Ok (kept, final) ->
  Forall planned_outcome kept /\ replay_of expected kept = Ok final /\ (cr_id <$> kept) `sublist_of` (cr_id <$> tail).
Proof.
  revert expected kept. induction tail as [|r tail IH]; intros expected kept; cbn [replay].
  - intros [= <- <-]. split_and!; [constructor|done|constructor].
  - destruct (Rollup_get er (cr_signature r) s) as [[e|]|]; [| |done]; cbn [request res_bind].
    + destruct (CRecord_check r e) as [[]|] eqn:Hc; [|done]. cbn [res_bind]. destruct (State_apply expected (cr_id r) e) as [x|] eqn:Ha; [|done]. cbn [res_bind].
      destruct (replay er tail x s) as [[rest y]|] eqn:Hr; [|done]. cbn. intros [= <- <-]. apply IH in Hr as (Hp & Hre & Hsub).
      split_and!; [constructor; [by apply CRecord_check_Ok|done]|cbn; by rewrite Ha|]. cbn. by constructor.
    + intros H. apply IH in H as (Hp & Hre & Hsub). split_and!; [done|done|]. cbn. by constructor.
Qed.

(** What holds between rounds. *)
Record consistent (s0 : State) (n : Z) (r : RunState (St := St)) : Prop := mkConsistent
  { co_planned : Forall planned_outcome (rs_protected r); co_replay : replay_of s0 (rs_protected r) = Ok (wl_expected (rs_workload r));
    co_next : wl_next_id (rs_workload r) = n; co_ids : (cr_id <$> rs_protected r) `sublist_of` seqZ 1 n }.

Lemma run_round_spec s0 n r r' : 0 <= n ->
  consistent s0 n r -> run_round er r = Ok r' ->
  consistent s0 (n + 26) r' /\ State_read er (rs_rollup r') = Ok (wl_expected (rs_workload r')) /\ rs_boundary r < rs_boundary r'.
Proof.
  intros Hn0 [Hp Hr Hn Hids]. unfold run_round.
  destruct (submit_all er (replicate 8 true) _ _) as [[[first w1] s1]|] eqn:H1; [|done]. cbn [res_bind].
  apply submit_confirmed in H1 as (P1 & R1 & N1 & I1 & _). destruct (checkpoint er s1) as [sealed s2]. destruct sealed as [boundary|]; [|done]. cbn [res_bind].
  destruct (rs_boundary r <? boundary) eqn:Hb; [|done]. destruct (verify er _ s2) as [[]|]; [|done]. cbn [res_bind].
  destruct (Workload_check er w1 s2) as [[]|]; [|done]. cbn [res_bind].
  destruct (submit_all er tail_flags w1 s2) as [[[tail w3] s3]|] eqn:H3; [|done]. cbn [res_bind]. apply submit_tail in H3 as (N3 & I3).
  destruct (Rollup_kill er s3) as [exit s4]. destruct exit as [signal|]; [|done]. cbn [request res_bind]. case_bool_decide; [|done].
  destruct (verify er _ s4) as [[]|]; [|done]. cbn [res_bind]. destruct (replay er tail (wl_expected w1) s4) as [[kept x]|] eqn:H4; [|done]. cbn [res_bind snd fst].
  apply replay_spec in H4 as (P4 & R4 & S4). destruct (Workload_check er _ s4) as [[]|]; [|done]. cbn [res_bind].
  destruct (submit_all er (replicate 2 true) _ s4) as [[[last w5] s5]|] eqn:H5; [|done]. cbn [res_bind]. apply submit_confirmed in H5 as (P5 & R5 & N5 & I5 & E5).
  intros [= <-]. cbn [rs_protected rs_workload rs_boundary rs_rollup wl_next_id wl_expected] in *. split_and!; [|apply E5; right; lia|lia]. split; cbn.
  - rewrite !Forall_app. done.
  - rewrite <- app_assoc, (replay_of_app _ _ _ _ Hr), (replay_of_app _ _ _ _ R1), (replay_of_app _ _ _ _ R4). done.
  - change (length tail_flags) with 16%nat in N3. lia.
  - rewrite !fmap_app, I1, I5. change (length tail_flags) with 16%nat in *. rewrite N3, N1, Hn in *.
    replace (seqZ 1 (n + 26)) with ((seqZ 1 n ++ seqZ (n + 1) 8) ++ seqZ (n + 8 + 1) 16 ++ seqZ (n + 8 + 16 + 1) 2).
    + apply sublist_app; [apply sublist_app; [done|reflexivity]|]. apply sublist_app; [|reflexivity]. etrans; [exact S4|]. by rewrite I3.
    + replace (n + 26) with (n + 8 + (16 + 2)) by lia. rewrite !(seqZ_app 1), seqZ_app by lia. do 2 f_equal; try (f_equal; lia).
Qed.

Lemma run_rounds_spec s0 k n r r' : 0 <= n ->
  consistent s0 n r -> run_rounds er k r = Ok r' ->
  consistent s0 (n + 26 * Z.of_nat k) r' /\
  ((0 < k)%nat -> State_read er (rs_rollup r') = Ok (wl_expected (rs_workload r')) /\ rs_boundary r < rs_boundary r').
Proof.
  revert n r. induction k as [|k IH]; intros n r Hn Hc; cbn [run_rounds].
  - intros [= <-]. split; [by replace (n + 26 * Z.of_nat 0) with n by lia|lia].
  - destruct (run_round er r) as [r1|] eqn:H1; [|done]. cbn [res_bind]. intros H. destruct (run_round_spec s0 n r r1 Hn Hc H1) as (C1 & S1 & B1).
    destruct (IH (n + 26) r1 ltac:(lia) C1 H) as [C2 E2]. split; [by replace (n + 26 * Z.of_nat (S k)) with (n + 26 + 26 * Z.of_nat k) by lia|].
    intros _. destruct k as [|k]; [cbn in H; injection H as <-; done|]. destruct (E2 ltac:(lia)). split; [done|lia].
Qed.
End sound.

(** What records add to a cell. *)
Definition sum_added (records : list CRecord) : Z := foldr (fun r acc => (if fails (cr_id r) then 0 else cr_id r) + acc) 0 records.
Definition count_added (records : list CRecord) : Z := foldr (fun r acc => (if fails (cr_id r) then 0 else 1) + acc) 0 records.
Definition fees (records : list CRecord) : Z :=
  foldr (fun r acc => match cr_evidence r ≫= ev_meta with Some m => me_fee m | None => 0 end + acc) 0 records.

Lemma replay_of_effect s records s' :
  replay_of s records = Ok s' ->
  st_payer_lamports s' = st_payer_lamports s - fees records /\ st_cell_lamports s' = st_cell_lamports s /\
  st_cell s' = mkHeader (Cell.id (st_cell s)) (value (st_cell s) + sum_added records) (revision (st_cell s) + count_added records)
    (undelegation (st_cell s)).
Proof.
  revert s. induction records as [|r records IH]; intros s; cbn [replay_of].
  - intros [= <-]. cbn. split_and!; [lia|done|]. destruct (st_cell s); cbn. f_equal; lia.
  - destruct (cr_evidence r) as [e|] eqn:He; [|done]. cbn [ok_or res_bind]. unfold State_apply at 1. destruct (ev_meta e) as [m|] eqn:Hm; [|done]. cbn [ok_or res_bind].
    destruct (me_fee m <=? st_payer_lamports s); [|done]. cbn [sum_added count_added fees foldr]. rewrite He. cbn. rewrite Hm.
    fold (sum_added records) (count_added records) (fees records).
    destruct (fails (cr_id r)); [|destruct (_ && _); [|done]]; cbn; intros H; apply IH in H as (-> & -> & ->); cbn; split_and!; try lia; f_equal; lia.
Qed.

(** C16: a recovery that passes is a replay of what the ledger kept.  Whatever the rollup does, if both
    checkpoint and crash rounds of the scenario pass then every record kept as protected has evidence
    of its planned outcome; their ids increase and lie among the 52 ids drawn, so that none is
    counted twice; and the state read from the rollup at the end is exactly the initial state with
    those records' updates and fees, failed ones charging only their fee. *)
Theorem checkpoint_recovery_is_a_replay `{HC : HeaderCodec} {St : Type} (er : Rollup St) s0 st r :
  checkpoint_run er s0 st = Ok r ->
  Forall planned_outcome (rs_protected r) /\ (cr_id <$> rs_protected r) `sublist_of` seqZ 1 52 /\
  exists final, State_read er (rs_rollup r) = Ok final /\
    st_payer_lamports final = st_payer_lamports s0 - fees (rs_protected r) /\ st_cell_lamports final = st_cell_lamports s0 /\
    value (st_cell final) = value (st_cell s0) + sum_added (rs_protected r) /\
    revision (st_cell final) = revision (st_cell s0) + count_added (rs_protected r).
Proof.
  unfold checkpoint_run. intros H. assert (Hc : consistent s0 0 (mkRunState [] 0 (mkWorkload 0 s0) st)) by (by split; cbn).
  pose proof (run_rounds_spec er s0 ROUNDS 0 _ r ltac:(lia) Hc H) as [[Hp Hr _ Hids] E].
  destruct (E ltac:(unfold ROUNDS; lia)) as [Hread _]. split_and!; [done|done|]. exists (wl_expected (rs_workload r)).
  destruct (replay_of_effect _ _ _ Hr) as (E1 & E2 & E3). split_and!; [done..| |]; by rewrite E3.
Qed.

(** * Completeness: a rollup that only loses the end of its log *)

Section honest.
Context (fee slot : Z) (s0 : State) (first : Z) (period : Duration).

(** What executing the transaction of an id does. *)
Definition execute (s : State) (id : Z) : State :=
  let c := st_cell s in
  mkState (st_payer_lamports s - fee) (st_cell_lamports s)
    (if fails id then c else mkHeader (Cell.id c) (value c + id) (revision c + 1) (undelegation c)).

Definition state_of (log : list Z) : State := foldl execute s0 log.

Definition evidence_after (s : State) (id : Z) : Evidence :=
  mkEvidence slot (Some (mkMeta (if fails id then Some (InstructionFault 1 0) else None) fee
    [st_payer_lamports s; st_cell_lamports s] [st_payer_lamports s - fee; st_cell_lamports s])).

(** The log, its length when the last superblock was sealed, the clock, and how much of what follows
    each kill keeps. *)
Record Honest := mkHonest { ho_log : list Z; ho_mark : nat; ho_now : Instant; ho_keeps : list nat }.

(** One superblock is sealed in every [period]. *)
Definition sealed_at (now : Instant) : Z := first + now / period.

Definition pass (d : Duration) (s : Honest) : Honest :=
  let now := ho_now s + d in
  mkHonest (ho_log s) (if sealed_at (ho_now s) <? sealed_at now then length (ho_log s) else ho_mark s) now (ho_keeps s).

Definition find_evidence (id : Z) (log : list Z) : option Evidence :=
  (fun p => evidence_after (state_of (take p.1 log)) id) <$> list_find (fun i => i = id) log.

Definition honest : Rollup Honest :=
  mkRollup Honest
    (fun id s => (Ok id, mkHonest (ho_log s ++ [id]) (ho_mark s) (ho_now s) (ho_keeps s)))
    (fun signature s => match find_evidence signature (ho_log s) with Some e => Ok e | None => Err tt end)
    (fun signature s => Ok (find_evidence signature (ho_log s)))
    (fun s => let x := state_of (ho_log s) in
       Ok (Some (st_payer_lamports x, []), Some (st_cell_lamports x, header_bytes (st_cell x))))
    (fun s => (Ok (Some (f64_of (sealed_at (ho_now s)))), s))
    (fun n s => n <=? sealed_at (ho_now s))
    ho_now pass
    (fun s => (Ok (Some 9), mkHonest (take (ho_mark s + default 0%nat (head (ho_keeps s))) (ho_log s)) (ho_mark s) (ho_now s) (tail (ho_keeps s)))).

(** Room for [k] more transactions with ids of a byte. *)
Definition room (s : State) (k : nat) : Prop :=
  CellHeader_wf (st_cell s) /\ Z.of_nat k * fee <= st_payer_lamports s /\ value (st_cell s) + 255 * Z.of_nat k < u64_bound /\
  revision (st_cell s) + Z.of_nat k < u64_bound.

Context (Hfee : 0 <= fee).

Lemma room_weaken s k k' : (k' <= k)%nat -> room s k -> room s k'.
Proof. intros Hk (Hw & Hf & Hv & Hr). split_and!; [done|nia|lia|lia]. Qed.

Lemma room_execute s id k : 0 <= id <= 255 -> room s (S k) -> room (execute s id) k.
Proof.
  intros Hid (Hw & Hf & Hv & Hr). destruct Hw as (Ha & Hi & Hval & Hrev). unfold room, execute, CellHeader_wf, is_u, u64_bound in *. cbn.
  destruct (fails id); cbn; split_and!; try done; try nia; lia.
Qed.

Lemma room_state_of log k : Forall (fun id => 0 <= id <= 255) log -> room s0 (length log + k) -> room (state_of log) k.
Proof.
  unfold state_of. intros Hl. generalize s0. induction Hl as [|id log Hid _ IH]; intros s Hr; [done|]. cbn. apply IH. by apply room_execute.
Qed.

Lemma State_apply_execute s id k : 0 <= id <= 255 -> room s (S k) -> State_apply s id (evidence_after s id) = Ok (execute s id).
Proof.
  intros Hid (Hw & Hf & Hv & Hr). unfold State_apply, execute. cbn. rewrite (proj2 (Z.leb_le _ _)) by nia.
  destruct (fails id); [done|]. rewrite (proj2 (Z.ltb_lt _ _)), (proj2 (Z.ltb_lt _ _)) by lia. done.
Qed.

Lemma CRecord_check_execute s id signature evidence k :
  room s (S k) -> evidence = None \/ evidence = Some (evidence_after s id) ->
  CRecord_check (mkCRecord id signature evidence) (evidence_after s id) = Ok tt.
Proof.
  intros (Hw & Hf & Hv & Hr) He. unfold CRecord_check. cbn. rewrite bool_decide_true by done. rewrite (proj2 (Z.leb_le _ _)) by nia.
  rewrite bool_decide_true by done. destruct He as [->| ->]; [done|]. by rewrite bool_decide_true.
Qed.

Lemma honest_read s : room (state_of (ho_log s)) 0 -> State_read honest s = Ok (state_of (ho_log s)).
Proof.
  intros (Hw & _). set (x := state_of (ho_log s)) in *.
  assert (Hd : CellHeader_try_decode (header_bytes (st_cell x)) = Some (st_cell x)).
  { unfold CellHeader_try_decode. cbn [header_deserialize ref_header_codec]. rewrite CellHeader_SIZE_eq, length_header_bytes. cbn [Nat.leb].
    rewrite take_ge by (rewrite length_header_bytes; lia). by apply header_of_header_bytes. }
  unfold State_read. cbn [Rollup_accounts honest request res_bind fst snd]. fold x. unfold State_decode. cbn [ok_or res_bind fst snd].
  rewrite Hd. cbn [ok_or res_bind]. by destruct x.
Qed.

(** ** Evidence is stable as the log grows *)

Lemma find_evidence_prefix id log more : id ∈ log -> find_evidence id (log ++ more) = find_evidence id log.
Proof.
  intros Hin. unfold find_evidence. destruct (list_find (fun i => i = id) log) as [[i x]|] eqn:E.
  - rewrite (list_find_app_l _ _ _ _ _ E). cbn. apply list_find_Some in E as (Hl & _). apply lookup_lt_Some in Hl.
    by rewrite take_app_le by lia.
  - apply list_find_None in E. rewrite Forall_forall in E. by destruct (E id Hin).
Qed.

Lemma find_evidence_new id log : id ∉ log -> find_evidence id (log ++ [id]) = Some (evidence_after (state_of log) id).
Proof.
  intros Hin. unfold find_evidence. rewrite list_find_app_r.
  - cbn. rewrite decide_True by done. cbn. by rewrite take_app_length.
  - apply list_find_None, Forall_forall. intros x Hx ->. done.
Qed.

Lemma find_evidence_absent id log : id ∉ log -> find_evidence id log = None.
Proof.
  intros Hin. unfold find_evidence. assert (list_find (fun i => i = id) log = None) as ->; [|done].
  apply list_find_None, Forall_forall. intros x Hx ->. done.
Qed.
(** ** The scenario on it *)

(** A record whose evidence is the log's. *)
Definition good (log : list Z) (r : CRecord) : Prop :=
  cr_signature r = cr_id r /\ cr_id r ∈ log /\ cr_evidence r = find_evidence (cr_id r) log.

Lemma good_app log more r : good log r -> good (log ++ more) r.
Proof. intros (Hs & Hin & He). split_and!; [done|set_solver|]. by rewrite find_evidence_prefix. Qed.

Lemma verify_good s records : Forall (good (ho_log s)) records -> verify honest records s = Ok tt.
Proof.
  induction 1 as [|r records (Hs & _ & He) _ IH]; [done|]. cbn [verify Rollup_get honest request res_bind]. rewrite Hs, He.
  by rewrite bool_decide_true.
Qed.

(** The ids of a log are those drawn so far. *)
Definition drawn (n : Z) (log : list Z) : Prop := Forall (fun id => 1 <= id <= n) log /\ Z.of_nat (length log) <= n /\ n <= 52.

Context (Hroom : room s0 52).

Lemma drawn_room n log k : drawn n log -> n + Z.of_nat k <= 52 -> room (state_of log) k.
Proof.
  intros (Hl & Hn & _) Hk. apply room_state_of; [eapply Forall_impl; [exact Hl|]; cbn; lia|]. eapply room_weaken; [|exact Hroom]. lia.
Qed.

Lemma drawn_snoc n log : drawn n log -> n < 52 -> drawn (n + 1) (log ++ [n + 1]) /\ n + 1 ∉ log.
Proof.
  intros (Hl & Hn & _) Hk. split; [split_and!; [|rewrite length_app; cbn; lia|lia]|].
  - apply Forall_app. split; [eapply Forall_impl; [exact Hl|]; cbn; lia|]. repeat constructor; lia.
  - rewrite Forall_forall in Hl. intros Hin. specialize (Hl _ Hin). cbn in Hl. lia.
Qed.

Lemma drawn_le n n' log : drawn n log -> n <= n' <= 52 -> drawn n' log.
Proof. intros (Hl & Hn & _) Hk. split_and!; [eapply Forall_impl; [exact Hl|]; cbn; lia|lia|lia]. Qed.

Definition logged (s : Honest) (log : list Z) : Honest := mkHonest log (ho_mark s) (ho_now s) (ho_keeps s).

Lemma honest_submit confirm n expected s :
  drawn n (ho_log s) -> n < 52 -> (confirm = true -> expected = state_of (ho_log s)) ->
  submit honest confirm (mkWorkload n expected) s =
    Ok (mkCRecord (n + 1) (n + 1) (if confirm then Some (evidence_after (state_of (ho_log s)) (n + 1)) else None),
        mkWorkload (n + 1) (if confirm then state_of (ho_log s ++ [n + 1]) else expected), logged s (ho_log s ++ [n + 1])).
Proof.
  intros Hd Hn He. destruct (drawn_snoc n (ho_log s) Hd Hn) as [Hd' Hfresh]. unfold submit. cbn [wl_next_id wl_expected].
  rewrite (proj2 (Z.ltb_lt _ _)) by lia. cbn [Rollup_send honest request res_bind]. destruct confirm; [|done].
  rewrite (He eq_refl). cbn [Rollup_await honest ho_log]. rewrite find_evidence_new by done. cbn [request res_bind].
  assert (Hr : room (state_of (ho_log s)) 1) by (apply (drawn_room n); [done|lia]).
  rewrite (CRecord_check_execute _ _ _ None 0 Hr) by auto. cbn [res_bind]. destruct Hd as (Hl & Hlen & _).
  rewrite (State_apply_execute _ _ 0) by (lia || done). cbn [res_bind]. unfold Workload_check. cbn [wl_expected].
  assert (Hs : state_of (ho_log s ++ [n + 1]) = execute (state_of (ho_log s)) (n + 1)) by (unfold state_of; by rewrite foldl_app).
  rewrite honest_read; cbn [ho_log]; [|apply (drawn_room (n + 1)); [done|lia]]. cbn [res_bind]. rewrite Hs, bool_decide_true by done. done.
Qed.

Lemma submit_all_app {St} (er : Rollup St) f1 f2 w s r1 w1 s1 r2 w2 s2 :
  submit_all er f1 w s = Ok (r1, w1, s1) -> submit_all er f2 w1 s1 = Ok (r2, w2, s2) -> submit_all er (f1 ++ f2) w s = Ok (r1 ++ r2, w2, s2).
Proof.
  revert w s r1. induction f1 as [|b f1 IH]; intros w s r1; cbn [submit_all app].
  - intros [= <- <- <-] H. exact H.
  - destruct (submit er b w s) as [[[r w'] s']|]; [|done]. cbn. destruct (submit_all er f1 w' s') as [[[rest w''] s'']|] eqn:E; [|done]. cbn.
    intros [= <- <- <-] H. by rewrite (IH _ _ _ E H).
Qed.

Lemma seqZ_snoc_l n k : seqZ (n + 1) (Z.of_nat (S k)) = (n + 1) :: seqZ (n + 1 + 1) (Z.of_nat k).
Proof. rewrite seqZ_cons by lia. f_equal. f_equal; lia. Qed.

Lemma honest_confirmed k n s :
  drawn n (ho_log s) -> n + Z.of_nat k <= 52 ->
  let log := ho_log s ++ seqZ (n + 1) (Z.of_nat k) in
  exists records, submit_all honest (replicate k true) (mkWorkload n (state_of (ho_log s))) s =
      Ok (records, mkWorkload (n + Z.of_nat k) (state_of log), logged s log) /\
    Forall (good log) records /\ drawn (n + Z.of_nat k) log /\ cr_id <$> records = seqZ (n + 1) (Z.of_nat k).
Proof.
  revert n s. induction k as [|k IH]; intros n s Hd Hk log.
  - exists []. subst log. cbn. rewrite app_nil_r, Z.add_0_r. split_and!; [by destruct s|constructor|done|done].
  - cbn [replicate submit_all]. rewrite honest_submit by (lia || done). cbn [res_bind fst snd]. destruct (drawn_snoc n (ho_log s) Hd ltac:(lia)) as [Hd' Hfresh].
    destruct (IH (n + 1) (logged s (ho_log s ++ [n + 1])) Hd' ltac:(lia)) as (records & Hr & Hg & Hdr & Hids). cbn [ho_log logged] in *.
    assert (Hlog : (ho_log s ++ [n + 1]) ++ seqZ (n + 1 + 1) (Z.of_nat k) = log) by (subst log; by rewrite seqZ_snoc_l, <- app_assoc).
    rewrite Hlog in *. rewrite Hr. cbn [res_bind fst snd]. eexists. split; [|split_and!].
    + do 3 f_equal. f_equal. lia.
    + constructor; [|done]. rewrite <- Hlog. apply good_app. split_and!; cbn; [done|set_solver|by rewrite find_evidence_new].
    + by replace (n + Z.of_nat (S k)) with (n + 1 + Z.of_nat k) by lia.
    + by rewrite fmap_cons, Hids, seqZ_snoc_l.
Qed.

Lemma honest_unconfirmed k n expected s :
  drawn n (ho_log s) -> n + Z.of_nat k <= 52 ->
  let log := ho_log s ++ seqZ (n + 1) (Z.of_nat k) in
  exists records, submit_all honest (replicate k false) (mkWorkload n expected) s = Ok (records, mkWorkload (n + Z.of_nat k) expected, logged s log) /\
    Forall (fun r => cr_signature r = cr_id r /\ cr_evidence r = None) records /\ cr_id <$> records = seqZ (n + 1) (Z.of_nat k).
Proof.
  revert n s. induction k as [|k IH]; intros n s Hd Hk log.
  - exists []. subst log. cbn. rewrite app_nil_r, Z.add_0_r. split_and!; [by destruct s|constructor|done].
  - cbn [replicate submit_all]. rewrite honest_submit by (lia || done). cbn [res_bind fst snd]. destruct (drawn_snoc n (ho_log s) Hd ltac:(lia)) as [Hd' Hfresh].
    destruct (IH (n + 1) (logged s (ho_log s ++ [n + 1])) Hd' ltac:(lia)) as (records & Hr & Hg & Hids). cbn [ho_log logged] in *.
    assert (Hlog : (ho_log s ++ [n + 1]) ++ seqZ (n + 1 + 1) (Z.of_nat k) = log) by (subst log; by rewrite seqZ_snoc_l, <- app_assoc).
    rewrite Hlog in *. rewrite Hr. cbn [res_bind fst snd]. eexists. split; [|split_and!].
    + do 3 f_equal. f_equal. lia.
    + by constructor.
    + by rewrite fmap_cons, Hids, seqZ_snoc_l.
Qed.
(** A record of the crash tail: its evidence, if it has some, is the log's. *)
Definition tail_record (log : list Z) (r : CRecord) : Prop :=
  cr_signature r = cr_id r /\ (cr_evidence r = None \/ cr_evidence r = find_evidence (cr_id r) log).

Lemma replay_absent s records expected :
  Forall (fun r => cr_signature r = cr_id r /\ cr_id r ∉ ho_log s) records -> replay honest records expected s = Ok ([], expected).
Proof.
  induction 1 as [|r records [Hs Hn] _ IH]; [done|]. cbn [replay Rollup_get honest request res_bind]. by rewrite Hs, find_evidence_absent.
Qed.

Lemma honest_replay base records keep s :
  Forall (fun id => 0 <= id <= 255) (base ++ (cr_id <$> records)) -> (length (base ++ (cr_id <$> records)) <= 52)%nat ->
  NoDup (base ++ (cr_id <$> records)) -> Forall (tail_record (base ++ (cr_id <$> records))) records ->
  ho_log s = base ++ take keep (cr_id <$> records) ->
  exists kept, replay honest records (state_of base) s = Ok (kept, state_of (ho_log s)) /\ Forall (good (ho_log s)) kept.
Proof.
  revert base keep. induction records as [|r records IH]; intros base keep Hb Hlen Hnd Ht Hlog.
  - exists []. rewrite fmap_nil, take_nil, app_nil_r in Hlog. by rewrite Hlog.
  - apply Forall_cons in Ht as [[Hsig Hev] Ht]. assert (Hfresh : cr_id r ∉ base) by (apply NoDup_app in Hnd as (_ & Hd & _); intros Hin; apply (Hd _ Hin); by left).
    destruct keep as [|keep].
    + exists []. cbn [take] in Hlog. rewrite app_nil_r in Hlog. split; [|constructor]. rewrite replay_absent; [by rewrite Hlog|].
      apply Forall_forall. intros x Hx. split; [apply elem_of_cons in Hx as [->|Hx]; [done|]; rewrite Forall_forall in Ht; by apply Ht|].
      rewrite Hlog. apply NoDup_app in Hnd as (_ & Hd & _). intros Hin. apply (Hd _ Hin). apply list_elem_of_fmap_2. done.
    + change (cr_id <$> r :: records) with (cr_id r :: (cr_id <$> records)) in *. cbn [take] in Hlog.
      assert (Hsplit : forall l, base ++ cr_id r :: l = (base ++ [cr_id r]) ++ l) by (intros; by rewrite <- app_assoc).
      assert (He : forall l, find_evidence (cr_id r) (base ++ cr_id r :: l) = Some (evidence_after (state_of base) (cr_id r))).
      { intros l. rewrite Hsplit, find_evidence_prefix by set_solver. by apply find_evidence_new. }
      assert (Hroom1 : room (state_of base) 1).
      { apply room_state_of; [by apply Forall_app in Hb as [? _]|]. eapply room_weaken; [|exact Hroom]. rewrite length_app in Hlen. cbn in Hlen. lia. }
      assert (Hid : 0 <= cr_id r <= 255) by (apply Forall_app in Hb as [_ Hb]; by apply Forall_cons in Hb as [? _]).
      cbn [replay Rollup_get honest request res_bind]. rewrite Hsig, Hlog, He. cbn [res_bind]. destruct r as [id g ev]. cbn [cr_id cr_signature cr_evidence] in *.
      rewrite (CRecord_check_execute _ _ _ _ 0 Hroom1); [|destruct Hev as [->|Hev]; [by left|right; by rewrite He in Hev]].
      cbn [res_bind]. rewrite (State_apply_execute _ _ 0 Hid Hroom1). cbn [res_bind].
      destruct (IH (base ++ [id]) keep) as (kept & Hk & Hg); try (by rewrite <- Hsplit).
      rewrite <- Hlog in *. assert (Hst : state_of (base ++ [id]) = execute (state_of base) id) by (unfold state_of; by rewrite foldl_app).
      rewrite Hst in Hk. rewrite Hk. cbn [res_bind fst snd]. eexists. split; [reflexivity|]. constructor; [|done].
      split_and!; cbn; [done|rewrite Hlog; set_solver|]. by rewrite Hlog, He.
Qed.

(** ** The wait for an archive *)

Context (Hfirst : 0 <= first) (Hperiod : 0 < period <= CHECKPOINT_TIMEOUT).

(** The clock has room for [k] waits. *)
Definition in_time (k : Z) (s : Honest) : Prop := 0 <= ho_now s /\ first + ho_now s + k * CHECKPOINT_TIMEOUT < 2 ^ 53.

Lemma sealed_mono a b : a <= b -> sealed_at a <= sealed_at b.
Proof. intros H. unfold sealed_at. pose proof (Z.div_le_mono a b period ltac:(lia) H). lia. Qed.

Lemma sealed_range k s : 0 <= k -> in_time k s -> first <= sealed_at (ho_now s) < 2 ^ 53.
Proof.
  intros Hk [Hn Hb]. unfold sealed_at, CHECKPOINT_TIMEOUT, NANOS_PER_SEC in *. pose proof (Z.div_pos (ho_now s) period Hn ltac:(lia)).
  pose proof (Z.div_le_upper_bound (ho_now s) period (ho_now s) ltac:(lia) ltac:(nia)). lia.
Qed.

Lemma honest_head k s : 0 <= k -> in_time k s -> ledger_head honest s = (Ok (sealed_at (ho_now s)), s).
Proof.
  intros Hk Hs. unfold ledger_head. cbn [Rollup_superblocks honest request res_bind ok_or]. pose proof (sealed_range k s Hk Hs). by rewrite f64_as_of by lia.
Qed.

(** A checkpoint returns the head it saw, and the log is sealed when it returns. *)
Lemma honest_checkpoint k s :
  0 <= k -> in_time (k + 1) s -> exists s', checkpoint honest s = (Ok (sealed_at (ho_now s)), s') /\ in_time k s' /\
    ho_log s' = ho_log s /\ ho_keeps s' = ho_keeps s /\ ho_mark s' = length (ho_log s) /\ sealed_at (ho_now s) < sealed_at (ho_now s').
Proof.
  intros Hk Hs. unfold checkpoint. rewrite (honest_head (k + 1)) by (done || lia).
  set (sealed := sealed_at (ho_now s)). set (op := checkpoint_attempt honest sealed).
  set (P := fun x : Honest => ho_log x = ho_log s /\ ho_keeps x = ho_keeps s /\ ho_now s <= ho_now x /\ (sealed < sealed_at (ho_now x) -> ho_mark x = length (ho_log s))).
  destruct (retry_with_succeeds ho_now pass op P) with (timeout := CHECKPOINT_TIMEOUT) (s := s) as (u & s' & Hr & HP & Hok & Hn).
  - intros d x Hd (Hl & Hke & Hnx & Hm). split; [done|]. unfold P, pass. cbn. split_and!; [done|done|lia|]. intros Hlt.
    destruct (Z.ltb_spec (sealed_at (ho_now x)) (sealed_at (ho_now x + d))); [by rewrite Hl|apply Hm; lia].
  - intros x. unfold op, checkpoint_attempt, ledger_head. cbn. done.
  - vm_compute. done.
  - unfold P. split_and!; [done|done|lia|]. subst sealed. lia.
  - intros x (Hl & Hke & Hnx & _) Hlate. unfold op, checkpoint_attempt. rewrite (honest_head k) by (done || (unfold in_time in *; lia)). cbn [res_bind].
    assert (Hlt : sealed < sealed_at (ho_now x)).
    { subst sealed. rewrite Hlate. unfold sealed_at. pose proof (Z.div_le_mono (ho_now s + 1 * period) (ho_now s + CHECKPOINT_TIMEOUT) period ltac:(lia) ltac:(lia)) as H.
      rewrite Z.div_add in H by lia. lia. }
    cbn [Rollup_archived honest]. rewrite (proj2 (Z.ltb_lt _ _) Hlt), (proj2 (Z.leb_le _ _)) by lia. done.
  - change (Rollup_now honest) with ho_now. change (Rollup_sleep honest) with pass. rewrite Hr. exists s'. destruct HP as (Hl & Hke & Hnx & Hm). assert (Ht : in_time k s') by (unfold in_time in *; lia).
    unfold op, checkpoint_attempt in Hok. rewrite (honest_head k) in Hok by done. cbn [res_bind fst] in Hok.
    destruct (Z.ltb_spec sealed (sealed_at (ho_now s'))); [|done]. by rewrite Hm.
Qed.

(** Between rounds: the expected state is the log's and every protected record is in it. *)
Record recovering (n k : Z) (r : RunState (St := Honest)) : Prop := mkRecovering
  { rg_drawn : drawn n (ho_log (rs_rollup r)); rg_nodup : NoDup (ho_log (rs_rollup r)); rg_next : rs_workload r = mkWorkload n (state_of (ho_log (rs_rollup r)));
    rg_good : Forall (good (ho_log (rs_rollup r))) (rs_protected r); rg_boundary : rs_boundary r < sealed_at (ho_now (rs_rollup r));
    rg_time : in_time k (rs_rollup r) }.

Lemma drawn_NoDup_app n log k : drawn n log -> NoDup log -> NoDup (log ++ seqZ (n + 1) k).
Proof.
  intros (Hl & _) Hn. apply NoDup_app. split_and!; [done| |apply NoDup_seqZ]. intros x Hx Hs%elem_of_seqZ.
  rewrite Forall_forall in Hl. specialize (Hl x Hx). cbn in Hl. lia.
Qed.

Lemma drawn_bytes n log : drawn n log -> Forall (fun id => 0 <= id <= 255) log.
Proof. intros (Hl & _ & Hn). eapply Forall_impl; [exact Hl|]. cbn. lia. Qed.

Lemma seqZ_tail n : seqZ (n + 1) 16 = seqZ (n + 1) (Z.of_nat 4) ++ seqZ (n + Z.of_nat 4 + 1) (Z.of_nat 12).
Proof. change 16 with (4 + 12). rewrite seqZ_app by lia. f_equal. f_equal. lia. Qed.

(** The crash tail on the log. *)
Lemma honest_tail n s :
  drawn n (ho_log s) -> n + 16 <= 52 ->
  let log := ho_log s ++ seqZ (n + 1) 16 in
  exists records expected, submit_all honest tail_flags (mkWorkload n (state_of (ho_log s))) s = Ok (records, mkWorkload (n + 16) expected, logged s log) /\
    Forall (tail_record log) records /\ drawn (n + 16) log /\ cr_id <$> records = seqZ (n + 1) 16.
Proof.
  intros Hd Hn log. destruct (honest_confirmed 4 n s Hd ltac:(lia)) as (r1 & H1 & G1 & D1 & I1).
  destruct (honest_unconfirmed 12 (n + Z.of_nat 4) (state_of (ho_log s ++ seqZ (n + 1) (Z.of_nat 4))) (logged s (ho_log s ++ seqZ (n + 1) (Z.of_nat 4))) D1 ltac:(lia))
    as (r2 & H2 & G2 & I2). cbn [ho_log logged] in *.
  assert (Hlog : (ho_log s ++ seqZ (n + 1) (Z.of_nat 4)) ++ seqZ (n + Z.of_nat 4 + 1) (Z.of_nat 12) = log).
  { subst log. rewrite <- app_assoc. f_equal. by rewrite <- seqZ_tail. }
  rewrite Hlog in *. pose proof (submit_all_app _ _ _ _ _ _ _ _ _ _ _ H1 H2) as H. eexists (r1 ++ r2), _. split_and!.
  - unfold tail_flags. rewrite H. do 3 f_equal. f_equal. lia.
  - apply Forall_app. split; eapply Forall_impl; [exact G1| |exact G2|].
    + intros r (Hs & Hin & He). split; [done|right]. rewrite He, <- Hlog. symmetry. by apply find_evidence_prefix.
    + intros r [Hs He]. split; [done|by left].
  - destruct Hd as (Hl & Hlen & _). subst log. split_and!; [apply Forall_app; split; [eapply Forall_impl; [exact Hl|]; cbn; lia|]|rewrite length_app, length_seqZ; lia|lia].
    apply Forall_forall. intros x Hx%elem_of_seqZ. lia.
  - by rewrite fmap_app, I1, I2, <- seqZ_tail.
Qed.

Lemma honest_round n k r : 0 <= k -> recovering n (k + 1) r -> n + 26 <= 52 -> exists r', run_round honest r = Ok r' /\ recovering (n + 26) k r'.
Proof.
  destruct r as [protected boundary w s]. intros Hk0 [Hd Hnd Hw Hg Hb Ht] Hn. cbn [rs_protected rs_boundary rs_workload rs_rollup] in *. subst w.
  unfold run_round. cbn [rs_protected rs_boundary rs_workload rs_rollup].
  destruct (honest_confirmed 8 n s Hd ltac:(lia)) as (r1 & H1 & G1 & D1 & _). rewrite H1. cbn [res_bind].
  set (log1 := ho_log s ++ seqZ (n + 1) (Z.of_nat 8)) in *.
  destruct (honest_checkpoint k (logged s log1) Hk0 Ht) as (s2 & Hc & Ht2 & Hlog2 & _ & Hmark2 & Hsealed2). rewrite Hc.
  cbn [res_bind logged ho_log ho_now] in *. rewrite (proj2 (Z.ltb_lt _ _) Hb).
  assert (Hprot : Forall (good log1) (protected ++ r1)) by (apply Forall_app; split; [eapply Forall_impl; [exact Hg|]; intros; by apply good_app|done]).
  rewrite <- Hlog2 in Hprot, D1. rewrite (verify_good s2) by done. cbn [res_bind]. unfold Workload_check at 1.
  rewrite (honest_read s2) by (apply (drawn_room (n + Z.of_nat 8)); [done|lia]).
  cbn [res_bind wl_expected wl_next_id]. rewrite <- Hlog2, bool_decide_true by done.
  destruct (honest_tail (n + Z.of_nat 8) s2 D1 ltac:(lia)) as (tail & exp & H3 & G3 & D3 & I3).
  rewrite Hlog2 in *. rewrite H3. cbn [res_bind Rollup_kill honest request logged ho_log ho_mark ho_keeps ho_now]. rewrite bool_decide_true by done.
  set (keep := default 0%nat (head (ho_keeps s2))). set (log3 := log1 ++ seqZ (n + Z.of_nat 8 + 1) 16) in *. rewrite Hmark2.
  set (s4 := mkHonest _ _ _ _). assert (Hlog4 : ho_log s4 = log1 ++ take keep (cr_id <$> tail)).
  { subst s4 log3. cbn. rewrite I3. rewrite take_app_ge by lia. do 2 f_equal. lia. }
  assert (Hprot4 : Forall (good (ho_log s4)) (protected ++ r1)) by (rewrite Hlog4; eapply Forall_impl; [exact Hprot|]; intros; by apply good_app).
  rewrite (verify_good s4) by done. cbn [res_bind wl_expected].
  assert (N1 : NoDup log1) by (by apply drawn_NoDup_app). assert (N3 : NoDup log3) by (by apply drawn_NoDup_app).
  destruct (honest_replay log1 tail keep s4) as (kept & Hk & Gk); [rewrite I3; by eapply drawn_bytes| | | |done|].
  { rewrite I3. fold log3. destruct D3 as (_ & ? & ?). lia. } { by rewrite I3. } { by rewrite I3. }
  rewrite Hk. cbn [res_bind snd fst wl_next_id].
  assert (D4 : drawn (n + Z.of_nat 8 + 16) (ho_log s4)).
  { destruct D3 as (Hl & Hlen & Hle). assert (Hp : ho_log s4 `prefix_of` log3) by (subst s4; cbn; apply prefix_take).
    split_and!; [|apply prefix_length in Hp; lia|done]. rewrite Forall_forall in Hl |- *. intros x Hx. apply Hl. by eapply elem_of_prefix. }
  unfold Workload_check at 1. rewrite (honest_read s4) by (apply (drawn_room (n + Z.of_nat 8 + 16)); [done|lia]). cbn [res_bind wl_expected].
  rewrite bool_decide_true by done. destruct (honest_confirmed 2 (n + Z.of_nat 8 + 16) s4 D4 ltac:(lia)) as (r5 & H5 & G5 & D5 & _). rewrite H5. cbn [res_bind].
  eexists. split; [reflexivity|]. replace (n + 26) with (n + Z.of_nat 8 + 16 + Z.of_nat 2) by lia. split; cbn [rs_protected rs_boundary rs_workload rs_rollup logged ho_log ho_now].
  - done.
  - apply drawn_NoDup_app; [done|]. subst s4. cbn [ho_log]. rewrite <- (take_drop (length log1 + keep) log3) in N3. by apply NoDup_app in N3 as [? _].
  - done.
  - apply Forall_app. split; [eapply Forall_impl; [exact Hprot4|]; intros; by apply good_app|]. apply Forall_app.
    split; [eapply Forall_impl; [exact Gk|]; intros; by apply good_app|done].
  - done.
  - done.
Qed.
End honest.

(** C17: the scenario does not reject a sound rollup.  A rollup that executes every transaction in
    order for a fixed fee, seals and archives a superblock in every period of at most the wait for a
    checkpoint, has sealed one before the scenario starts, and on a hard kill keeps its log up to the
    last seal and any part of the rest up to some point, passes both rounds, whatever each kill keeps,
    as long as the payer can pay for all 52 transactions, the cell's counters have room for them, and
    the metric of superblocks, a float, is exact. *)
Theorem honest_rollup_recovers fee slot s0 first period now keeps :
  0 <= fee -> room fee s0 52 -> 1 <= first -> 0 < period <= CHECKPOINT_TIMEOUT ->
  0 <= now -> first + now + 2 * CHECKPOINT_TIMEOUT < 2 ^ 53 ->
  exists r, checkpoint_run (honest fee slot s0 first period) s0 (mkHonest [] 0 now keeps) = Ok r.
Proof.
  intros Hfee Hroom Hfirst Hperiod Hnow Htime. unfold checkpoint_run. set (r0 := mkRunState _ _ _ _).
  assert (H0 : recovering fee slot s0 first period 0 2 r0).
  { pose proof (Z.div_pos now period Hnow ltac:(lia)).
    split; cbn; [split_and!; [constructor|done|lia]|constructor|done|constructor|unfold sealed_at; lia|split; cbn; lia]. }
  destruct (honest_round fee slot s0 first period Hfee Hroom ltac:(lia) Hperiod 0 1 r0 ltac:(lia) H0 ltac:(lia)) as (r1 & E1 & H1).
  destruct (honest_round fee slot s0 first period Hfee Hroom ltac:(lia) Hperiod (0 + 26) 0 r1 ltac:(lia) H1 ltac:(lia)) as (r2 & E2 & H2).
  exists r2. cbn [run_rounds ROUNDS]. rewrite E1. cbn [res_bind]. by rewrite E2.
Qed.

Definition recovery_start : State := mkState 1000000 890880 (mkHeader (mkCellId 7 0) 0 0 Accept).
Definition sealing : Rollup Honest := honest 5000 3 recovery_start 1 (20480 * 1000000).

Lemma honest_rollup_recovers_witness :
  exists r, checkpoint_run sealing recovery_start (mkHonest [] 0 0 [6%nat; 40%nat]) = Ok r.
Proof.
  apply (honest_rollup_recovers 5000 3 recovery_start 1 (20480 * 1000000) 0 [6%nat; 40%nat]); [lia| |lia|by vm_compute|lia|by vm_compute].
  unfold room. split_and!; by vm_compute.
Defined.

(** The boundary is the head read before the wait: a rollup that has sealed nothing when its first
    checkpoint is asked for is refused although it lost nothing. *)
Example unsealed_rollup_is_refused :
  checkpoint_run (honest 5000 3 recovery_start 0 (20480 * 1000000)) recovery_start (mkHonest [] 0 0 []) = Err BoundaryNotNewer.
Proof. by vm_compute. Qed.

Lemma checkpoint_recovery_is_a_replay_witness :
  exists r, checkpoint_run sealing recovery_start (mkHonest [] 0 0 [6%nat; 0%nat]) = Ok r /\
    (cr_id <$> rs_protected r) `sublist_of` seqZ 1 52.
Proof.
  destruct (checkpoint_run sealing recovery_start (mkHonest [] 0 0 [6%nat; 0%nat])) as [r|e] eqn:H.
  - exists r. split; [done|]. apply (checkpoint_recovery_is_a_replay sealing recovery_start (mkHonest [] 0 0 [6%nat; 0%nat]) r H).
  - exfalso. vm_compute in H. discriminate H.
Defined.
