(* ===== verification/Cli.v ===== *)
(** The command line: [cli/src/args.rs], [cli/src/main.rs], [core/src/config.rs],
    [core/src/frontend.rs] and [RunControl] of [redline/src/lib.rs].

    What clap hands over is the argument record; the conditions it is asked to enforce
    ([requires], [requires_all]) are [clap_accepts].  URLs and durations are parsed by other crates
    and are arguments, and so is what the suites and the front end's commands return.  The theorems say that accepted
    arguments name a whole environment and that the exit code is the outcome. *)
From Stdlib Require Import String.
From S2P Require Import Prelude World Float64 Stats Rate Text Suite Continuous.

#[local] Open Scope string_scope.
#[local] Open Scope Z_scope.
#[local] Open Scope list_scope.

(** * Configuration *)

Inductive Profile := Lite | Full.
Definition Profile_name (p : Profile) : string := match p with Lite => "lite" | Full => "full" end.

Inductive LoopMode := OpenLoop | ClosedLoop.
Definition LoopMode_name (m : LoopMode) : string := match m with OpenLoop => "open" | ClosedLoop => "closed" end.

Record ProfileValues (T : Type) := mkProfileValues { pv_lite : T; pv_full : T }.
Arguments mkProfileValues {T} _ _. Arguments pv_lite {T} _. Arguments pv_full {T} _.
Definition ProfileValues_select {T} (v : ProfileValues T) (p : Profile) : T := match p with Lite => pv_lite v | Full => pv_full v end.

Section urls.
Context {Url : Type}.

Record ErEndpoints := mkErEndpoints { ee_rpc : Url; ee_ws : Url; ee_metrics : Url }.
Record Environment := mkEnvironment { en_base_rpc : Url; en_base_ws : Url; en_er_endpoints : option ErEndpoints; en_payer : string }.

(** The stop signal is the value last sent; [None] where there is no channel. *)
Record ExecutionConfig := mkConfig
  { ec_profile : Profile; ec_loop_mode : LoopMode; ec_seed : Z; ec_duration : option Duration; ec_stop : option bool;
    ec_environment : option Environment; ec_continuous : bool }.

Definition ExecutionConfig_default : ExecutionConfig := mkConfig Lite OpenLoop 0 None None None false.

Definition config_stopped (c : ExecutionConfig) : bool := default false (ec_stop c).

(** [RunControl::from_config] *)
Definition RunControl_from_config (c : ExecutionConfig) : Result (Duration * bool) string :=
  let? duration := ok_or (ec_duration c) "Redline requires --duration" in
  let? stop := ok_or (ec_stop c) "missing benchmark stop signal" in
  Ok (duration, stop).

(** * Arguments *)

Record Run := mkRun { ru_selections : list string; ru_cleanup : bool }.

Record CheckRun := mkCheckRun
  { ck_run : Run; ck_seed : option Z; ck_fresh_concurrency : Z; ck_shared_concurrency : Z; ck_serial : bool }.

Record BenchmarkRun := mkBenchmarkRun
  { br_run : Run; br_profile : Profile; br_duration : Duration; br_base_rpc : option string; br_base_ws : option string;
    br_er_rpc : option string; br_er_ws : option string; br_metrics : option string; br_payer : option string; br_loop : LoopMode }.

Record ContinuousRun := mkContinuousRun { cn_seed : option Z; cn_duration : Duration; cn_shared_concurrency : Z; cn_profile : Profile }.

Inductive Checks := ChecksList (selections : list string) | ChecksRun (args : CheckRun).
Inductive Benchmarks := BenchmarksList (selections : list string) | BenchmarksRun (args : BenchmarkRun).
Inductive StackCommand := StackStatus | StackDown.
Inductive FrontendCommand := StackCmd (c : StackCommand) | ReportBmf (out : option string).
Inductive Command :=
| CmdRedline (c : Benchmarks) | CmdRedshift (c : Checks) | CmdRedhat (c : Checks) | CmdContinuous (a : ContinuousRun)
| CmdShared (c : FrontendCommand).

Definition given {A} (o : option A) : bool := match o with Some _ => true | None => false end.
Definition requires (a : bool) (bs : list bool) : bool := negb a || forallb (fun b => b) bs.

(** The [requires] and [requires_all] of the benchmark arguments. *)
Definition clap_accepts (a : BenchmarkRun) : bool :=
  requires (given (br_base_rpc a)) [given (br_base_ws a); given (br_payer a)] &&
  requires (given (br_base_ws a)) [given (br_base_rpc a)] &&
  requires (given (br_er_rpc a)) [given (br_base_rpc a); given (br_er_ws a); given (br_metrics a)] &&
  requires (given (br_er_ws a)) [given (br_er_rpc a)] &&
  requires (given (br_metrics a)) [given (br_er_rpc a)] &&
  requires (given (br_payer a)) [given (br_base_rpc a)].

(** [duration]: [parsed] is what humantime makes of the text, [latest] the last instant the clock has. *)
Definition duration (parsed : Result Duration string) (now latest : Instant) : Result Duration string :=
  let? duration := parsed in
  if (duration =? 0) || (latest <? now + duration) then Err "duration must be positive and fit a monotonic deadline" else Ok duration.

(** * Dispatch *)

Context (parse_url : string -> Result Url string).

Definition er_endpoints (a : BenchmarkRun) : Result (option ErEndpoints) string :=
  match br_er_rpc a with
  | None => Ok None
  | Some rpc =>
      let? rpc := parse_url rpc in
      let? ws := ok_or (br_er_ws a) "missing --er-ws" in
      let? ws := parse_url ws in
      let? metrics := ok_or (br_metrics a) "missing --metrics" in
      let? metrics := parse_url metrics in
      Ok (Some (mkErEndpoints rpc ws metrics))
  end.

Definition environment (a : BenchmarkRun) : Result (option Environment) string :=
  match br_base_rpc a with
  | None => Ok None
  | Some base_rpc =>
      let? er := er_endpoints a in
      let? base_rpc := parse_url base_rpc in
      let? base_ws := ok_or (br_base_ws a) "missing --base-ws" in
      let? base_ws := parse_url base_ws in
      let? payer := ok_or (br_payer a) "missing --payer" in
      Ok (Some (mkEnvironment base_rpc base_ws er payer))
  end.

(** The catalogue and everything behind it. *)
Record Services := mkServices
  { sv_catalog : Family -> list ScenarioEntry;
    sv_suite : Family -> Run -> ExecutionConfig -> bool -> Z -> Z -> Result unit string;
    sv_continuous : ExecutionConfig -> Z -> Result unit string;
    sv_status : Result unit string; sv_down : Result unit string; sv_bmf : option string -> Result unit string;
    sv_random_seed : Z }.

Inductive ExitCode := SUCCESS | FAILURE | INTERRUPTED.
Definition exit_status (c : ExitCode) : Z := match c with SUCCESS => 0 | FAILURE => 1 | INTERRUPTED => 130 end.

Section dispatch.
Context (sv : Services).

(** The lines [list] prints. *)
Definition list_lines (family : Family) (selections : list string) : Result (list string) string :=
  let? entries :=
    match selections with
    | [] => Ok (sv_catalog sv family)
    | _ => select family (sv_catalog sv family) selections
    end in
  Ok ((fun e => entry_name family e +:+ (if explicit_only e then " (explicit only)" else EmptyString)) <$> entries).

Definition run_seed (seed : option Z) : Z := default (sv_random_seed sv) seed.

(** [interruptible]: the run, and whether Ctrl+C had come by its end. *)
Definition interruptible (run : Result unit string) (interrupted : bool) : Result ExitCode string :=
  if interrupted then Ok INTERRUPTED else let? _ := run in Ok SUCCESS.

Definition checks (family : Family) (c : Checks) : Result (list string) string :=
  match c with
  | ChecksList selections => list_lines family selections
  | ChecksRun a =>
      let config := mkConfig Lite OpenLoop (run_seed (ck_seed a)) None None None false in
      let? _ := sv_suite sv family (ck_run a) config (ck_serial a) (ck_fresh_concurrency a) (ck_shared_concurrency a) in
      Ok []
  end.

Definition benchmark_config (a : BenchmarkRun) (env : option Environment) : ExecutionConfig :=
  mkConfig (br_profile a) (br_loop a) 0 (Some (br_duration a)) (Some false) env false.

Definition continuous_config (a : ContinuousRun) : ExecutionConfig :=
  mkConfig (cn_profile a) OpenLoop (run_seed (cn_seed a)) (Some (cn_duration a)) (Some false) None true.

Definition frontend_run (c : FrontendCommand) : Result unit string :=
  match c with
  | StackCmd StackStatus => sv_status sv
  | StackCmd StackDown => sv_down sv
  | ReportBmf out => sv_bmf sv out
  end.

(** The exit code and the lines printed. *)
Definition dispatch (c : Command) (interrupted : bool) : Result (ExitCode * list string) string :=
  match c with
  | CmdRedshift c => let? lines := checks Redshift c in Ok (SUCCESS, lines)
  | CmdRedhat c => let? lines := checks Redhat c in Ok (SUCCESS, lines)
  | CmdRedline (BenchmarksList selections) => let? lines := list_lines Redline selections in Ok (SUCCESS, lines)
  | CmdRedline (BenchmarksRun a) =>
      let? env := environment a in
      let? code := interruptible (sv_suite sv Redline (br_run a) (benchmark_config a env) true 1 1) interrupted in
      Ok (code, [])
  | CmdContinuous a =>
      let? code := interruptible (sv_continuous sv (continuous_config a) (cn_shared_concurrency a)) interrupted in
      Ok (code, [])
  | CmdShared c => let? _ := frontend_run c in Ok (SUCCESS, [])
  end.

(** [main], once the arguments are parsed. *)
Definition main (logging : Result unit string) (c : Command) (interrupted : bool) : ExitCode :=
  match logging with
  | Err _ => FAILURE
  | Ok _ => match dispatch c interrupted with Ok (code, _) => code | Err _ => FAILURE end
  end.
End dispatch.
End urls.

(** * What the command line promises *)

Section cli.
Context {Url : Type} (parse_url : string -> Result Url string).

(** The URLs the arguments give. *)
Definition given_urls (a : BenchmarkRun) : list string :=
  omap (fun o => o) [br_base_rpc a; br_base_ws a; br_er_rpc a; br_er_ws a; br_metrics a].

(** the arguments clap lets through name a whole environment.  With its [requires] conditions
    met, building the environment fails only with the error of a URL that was given and does not
    parse; otherwise it is an existing one exactly when a base endpoint was given, with the endpoints
    of an existing rollup exactly when its endpoint was given.  The errors about missing arguments
    are unreachable. *)
Theorem accepted_environment_is_complete a :
  clap_accepts a = true ->
  match environment parse_url a with
  | Err e => exists u, u ∈ given_urls a /\ parse_url u = Err e
  | Ok None => br_base_rpc a = None /\ br_er_rpc a = None /\ br_payer a = None
  | Ok (Some env) =>
      (exists base, br_base_rpc a = Some base /\ parse_url base = Ok (en_base_rpc env)) /\ br_payer a = Some (en_payer env) /\
      (given (en_er_endpoints env) = given (br_er_rpc a))
  end.
Proof.
  destruct a as [run profile dur base_rpc base_ws er_rpc er_ws metrics payer mode]. unfold clap_accepts, environment, er_endpoints, given_urls.
  cbn [br_base_rpc br_base_ws br_er_rpc br_er_ws br_metrics br_payer].
  destruct base_rpc as [b|], base_ws as [bw|], er_rpc as [r|], er_ws as [rw|], metrics as [m|], payer as [p|]; cbn; try done; intros _;
    repeat match goal with |- context [res_bind (parse_url ?u) _] => destruct (parse_url u) eqn:?; cbn end;
    first [by split_and! | by split_and!; [eexists| |] | by eexists; split; [|eassumption]; set_solver].
Qed.

(** The work of a command, and whether it can be interrupted. *)
Definition work (sv : Services) (c : Command) : Result unit string :=
  match c with
  | CmdRedline (BenchmarksRun a) =>
      let? env := environment parse_url a in sv_suite sv Redline (br_run a) (benchmark_config a env) true 1 1
  | CmdContinuous a => sv_continuous sv (continuous_config sv a) (cn_shared_concurrency a)
  | CmdRedline (BenchmarksList l) => let? _ := list_lines sv Redline l in Ok tt
  | CmdRedshift k => let? _ := checks sv Redshift k in Ok tt
  | CmdRedhat k => let? _ := checks sv Redhat k in Ok tt
  | CmdShared k => frontend_run sv k
  end.

Definition started (c : Command) : bool :=
  match c with
  | CmdRedline (BenchmarksRun a) => match environment parse_url a with Ok _ => true | Err _ => false end
  | CmdContinuous _ => true
  | _ => false
  end.

(** the exit code is the outcome: 130 exactly when a load that had started was interrupted, even
    if it failed while stopping; otherwise 0 exactly when the command's work succeeded, and 1 when
    it, or setting up the logging, failed. *)
Theorem exit_code_is_the_outcome sv logging c interrupted :
  exit_status (main parse_url sv logging c interrupted) =
    match logging with
    | Err _ => 1
    | Ok _ => if interrupted && started c then 130 else match work sv c with Ok _ => 0 | Err _ => 1 end
    end.
Proof.
  unfold main. destruct logging as [u|]; [|done].
  destruct c as [[l|a]|k|k|a|k]; cbn [dispatch work started]; rewrite ?andb_false_r, ?andb_true_r.
  - by destruct (list_lines sv Redline l).
  - destruct (environment parse_url a) as [env|]; cbn; [|by rewrite andb_false_r]. rewrite andb_true_r. unfold interruptible. destruct interrupted; [done|].
    by destruct (sv_suite _ _ _ _ _ _ _).
  - by destruct (checks sv Redshift k).
  - by destruct (checks sv Redhat k).
  - unfold interruptible. destruct interrupted; [done|]. by destruct (sv_continuous _ _ _).
  - by destruct (frontend_run sv k).
Qed.
End cli.

(** A benchmark on an existing rollup, with URLs that parse when they start with a scheme. *)
Definition sample_parse (u : string) : Result string string := if String.prefix "http" u || String.prefix "ws" u then Ok u else Err ("bad url " +:+ u).
Definition sample_run : BenchmarkRun :=
  mkBenchmarkRun (mkRun [] false) Lite 1000 (Some "http://base") (Some "ws://base") (Some "http://er") (Some "er") (Some "http://metrics") (Some "key.json") OpenLoop.

Lemma accepted_environment_is_complete_witness :
  clap_accepts sample_run = true /\ exists u, u ∈ given_urls sample_run /\ sample_parse u = Err "bad url er".
Proof.
  split; [by vm_compute|]. exact (accepted_environment_is_complete sample_parse sample_run eq_refl).
Defined.
