(* ===== verification/Rpc.v ===== *)
(** The RPC client: [core/src/transport/http.rs], [core/src/transport/rpc.rs] and the requests of
    [core/src/api/mod.rs].

    The HTTP exchange, JSON and the decoding of accounts, keys, hashes and signatures are arguments.
    A call has two layers of failure: the outer one for what went wrong on the way, the inner one for
    a refusal the server reported.  The theorems say that the two are never confused, and that a batch
    numbers its requests from one. *)
From Stdlib Require Import String.
From S2P Require Import Prelude World Text.

#[local] Open Scope string_scope.
#[local] Open Scope Z_scope.
#[local] Open Scope list_scope.

(** [RpcRequest]: the methods the client uses. *)
Inductive Method :=
| GetHealth | GetSlot | GetBalance | RequestAirdrop | GetAccountInfo | GetMultipleAccounts | GetProgramAccounts
| GetLatestBlockhash | IsBlockhashValid | SimulateTransaction | SendTransaction | GetSignatureStatuses | GetTransaction
| GetBlockTime | GetBlock | GetSignaturesForAddress.

(** [TransportError]: the request failed, or a status that is no success came with a body. *)
Inductive TransportError := RequestError (e : string) | StatusError (status : Z) (body : string).

Definition is_success (status : Z) : bool := (200 <=? status) && (status <? 300).

Record HttpResponse := mkResponse { rs_status : Z; rs_headers : list (string * string); rs_text : Result string string }.

(** [send]: the response arrived and its text was read. *)
Definition http_send (response : Result HttpResponse string) : Result (list (string * string) * string) TransportError :=
  match response with
  | Err e => Err (RequestError e)
  | Ok r =>
      match rs_text r with
      | Err e => Err (RequestError e)
      | Ok text => if is_success (rs_status r) then Ok (rs_headers r, text) else Err (StatusError (rs_status r) text)
      end
  end.

Record RpcError := mkRpcError { re_code : Z; re_message : string; re_method : Method }.

(** [jsonrpc_core::Output] and [Response]. *)
Inductive Output (V : Type) := Success (result : V) | Failure (code : Z) (message : string).
Arguments Success {V} _. Arguments Failure {V} _ _.
Inductive RpcResponse (V : Type) := Single (o : Output V) | Batch (os : list (Output V)).
Arguments Single {V} _. Arguments Batch {V} _.

(** The outer errors of a call. *)
Inductive CallError :=
| Encoding (e : string) | Transport (m : Method) (e : TransportError) | Decoding (e : string)
| ClaimsMissing | ClaimsInvalid | Refused (e : RpcError) | BadAccount | BadKey | BadHash | BadSignature.

Definition REMOTE_ACCOUNT_CLAIMS : string := "x-mb-remote-account-claims".

Section client.
Context {Value : Type}.
(** [serde_json]: requests to text, and replies from text. *)
Context (encode_request : Z -> Method -> Value -> Result string string) (encode_batch : list string -> Result string string).
Context (decode_output : string -> Result (Output Value) string) (decode_response : string -> Result (RpcResponse Value) string).
(** The server, for a body. *)
Context (exchange : string -> Result HttpResponse string).
(** [str::parse::<u64>] *)
Context (parse_u64 : string -> option Z).

Definition post_headed (m : Method) (body : string) : Result (list (string * string) * string) CallError :=
  match http_send (exchange body) with Ok r => Ok r | Err e => Err (Transport m e) end.

Definition lift_call {A} (wrap : string -> CallError) (r : Result A string) : Result A CallError :=
  match r with Ok a => Ok a | Err e => Err (wrap e) end.

(** [try_call_headed], with the decoding of the result. *)
Definition try_call_headed {T} (from_value : Value -> Result T string) (m : Method) (params : Value) :
    Result (list (string * string) * Result T RpcError) CallError :=
  let? body := lift_call Encoding (encode_request 1 m params) in
  let? reply := post_headed m body in
  let? output := lift_call Decoding (decode_output reply.2) in
  match output with
  | Success result => let? value := lift_call Decoding (from_value result) in Ok (reply.1, Ok value)
  | Failure code message => Ok (reply.1, Err (mkRpcError code message m))
  end.

Definition try_call {T} (from_value : Value -> Result T string) (m : Method) (params : Value) : Result (Result T RpcError) CallError :=
  let? r := try_call_headed from_value m params in Ok r.2.

Definition find_header (name : string) (headers : list (string * string)) : option string :=
  snd <$> find (fun h => String.eqb h.1 name) headers.

Definition try_call_claimed {T} (from_value : Value -> Result T string) (m : Method) (params : Value) :
    Result (Z * Result T RpcError) CallError :=
  let? r := try_call_headed from_value m params in
  let? header := ok_or (find_header REMOTE_ACCOUNT_CLAIMS r.1) ClaimsMissing in
  let? claims := ok_or (parse_u64 header) ClaimsInvalid in
  Ok (claims, r.2).

Definition call {T} (from_value : Value -> Result T string) (m : Method) (params : Value) : Result T CallError :=
  let? r := try_call from_value m params in
  match r with Ok v => Ok v | Err e => Err (Refused e) end.

(** [call_value]: the value of a response with its context. *)
Definition call_value {T} (from_value : Value -> Result T string) (context_value : Value -> Result Value string) (m : Method) (params : Value) :
    Result T CallError :=
  call (fun v => let? inner := context_value v in from_value inner) m params.

Definition server_alive (params : Value) (from_value : Value -> Result string string) : bool :=
  match try_call from_value GetHealth params with Ok _ => true | Err _ => false end.

(** [primary_ready]: the status of the health endpoint. *)
Definition primary_ready (status : Result Z string) : bool := match status with Ok 200 => true | _ => false end.

(** ** Decoding what a call returned *)

Section accounts.
Context {Ui Acc : Type} (to_account : Ui -> option Acc) (parse_key : string -> option Pubkey) (parse_signature : string -> option Z).

Definition decode_account (raw : Ui) : Result Acc CallError := ok_or (to_account raw) BadAccount.

(** [account.map(decode_account).transpose()] *)
Definition decode_optional (raw : option Ui) : Result (option Acc) CallError :=
  match raw with None => Ok None | Some raw => let? a := decode_account raw in Ok (Some a) end.

Definition get_account (answer : Result (option Ui) CallError) : Result (option Acc) CallError :=
  let? raw := answer in decode_optional raw.

Definition get_multiple_accounts (answer : Result (list (option Ui)) CallError) : Result (list (option Acc)) CallError :=
  let? raw := answer in collect_results decode_optional raw.

Definition get_program_accounts (answer : Result (list (string * Ui)) CallError) : Result (list (Pubkey * Acc)) CallError :=
  let? raw := answer in
  collect_results (fun keyed =>
    let? k := ok_or (parse_key keyed.1) BadKey in
    let? a := decode_account keyed.2 in Ok (k, a)) raw.

Definition get_signatures_for_address (answer : Result (list string) CallError) : Result (list Z) CallError :=
  let? infos := answer in collect_results (fun s => ok_or (parse_signature s) BadSignature) infos.

(** [try_send_transaction] *)
Definition try_send_transaction (answer : Result (Result string RpcError) CallError) : Result (Result Z RpcError) CallError :=
  let? r := answer in
  match r with
  | Ok sig => let? g := ok_or (parse_signature sig) BadSignature in Ok (Ok g)
  | Err e => Ok (Err e)
  end.

Definition send_transaction (answer : Result (Result string RpcError) CallError) : Result Z CallError :=
  let? r := try_send_transaction answer in
  match r with Ok g => Ok g | Err e => Err (Refused e) end.
End accounts.

(** [get_signature_status]: [pop] of the statuses. *)
Definition get_signature_status {S} (answer : Result (list (option S)) CallError) : Result (option S) CallError :=
  let? statuses := answer in Ok (last statuses ≫= fun s => s).

(** ** Batches *)

Record SendBody := mkSendBody { sb_body : string; sb_count : nat }.

(** [send_body]: one request alone, or an array of them, numbered from one. *)
Definition send_body (params : list (Result Value string)) : Result SendBody CallError :=
  let? requests := collect_results (fun ip : nat * Result Value string =>
    let? p := lift_call Encoding ip.2 in
    lift_call Encoding (encode_request (Z.of_nat ip.1 + 1) SendTransaction p)) (imap (fun i p => (i, p)) params) in
  let? body := match requests with
               | [one] => Ok one
               | _ => lift_call Encoding (encode_batch requests)
               end in
  Ok (mkSendBody body (length params)).

Definition is_failure (o : Output Value) : bool := match o with Failure _ _ => true | Success _ => false end.

(** [send_prepared]: how many were rejected. *)
Definition send_prepared (b : SendBody) : Result nat CallError :=
  if (sb_count b =? 0)%nat then Ok 0%nat
  else
    let? reply := post_headed SendTransaction (sb_body b) in
    let? response := lift_call Decoding (decode_response reply.2) in
    Ok (match response with
        | Single o => if is_failure o then 1%nat else 0%nat
        | Batch os => length (filter (fun o => is_failure o = true) os)
        end).
End client.

(** * What the client promises *)

Section client.
Context {Value : Type} (encode_request : Z -> Method -> Value -> Result string string) (encode_batch : list string -> Result string string).
Context (decode_output : string -> Result (Output Value) string) (decode_response : string -> Result (RpcResponse Value) string).
Context (exchange : string -> Result HttpResponse string).

(** The server answered a request with this output: it was sent, the status was a success and the
    text decodes. *)
Definition answered (m : Method) (params : Value) (o : Output Value) : Prop :=
  exists body r text, encode_request 1 m params = Ok body /\ exchange body = Ok r /\ is_success (rs_status r) = true /\
    rs_text r = Ok text /\ decode_output text = Ok o.

Lemma http_send_Ok r h text : http_send r = Ok (h, text) <-> exists x, r = Ok x /\ is_success (rs_status x) = true /\ rs_text x = Ok text /\ rs_headers x = h.
Proof.
  unfold http_send. split.
  - destruct r as [x|]; [|done]. destruct (rs_text x) as [t|] eqn:Ht; [|done]. destruct (is_success (rs_status x)) eqn:Hs; [|done].
    intros [= <- <-]. by exists x.
  - intros (x & -> & Hs & -> & <-). by rewrite Hs.
Qed.

Lemma try_call_answered {T} (from_value : Value -> Result T string) m params o :
  answered m params o ->
  try_call encode_request decode_output exchange from_value m params =
    match o with
    | Success v => match from_value v with Ok t => Ok (Ok t) | Err e => Err (Decoding e) end
    | Failure code message => Ok (Err (mkRpcError code message m))
    end.
Proof.
  intros (body & r & text & He & Hx & Hs & Ht & Hd). unfold try_call, try_call_headed, post_headed. rewrite He. cbn.
  rewrite (proj2 (http_send_Ok (exchange body) (rs_headers r) text)) by (by exists r). cbn. rewrite Hd. cbn.
  destruct o as [v|code message]; [|done]. cbn. by destruct (from_value v).
Qed.

(** C21: the two layers of a call say where it failed.  [try_call] returns a value, or a refusal, only
    when the server answered the request with a success status and a reply that decodes; a refusal
    exactly when that reply is a JSON-RPC failure, with its code and message and the method called;
    in every other case the error is an outer one, which is never a refusal.  [call] turns the
    refusal, and nothing else, into [Refused]. *)
Theorem refusals_are_told_apart {T} (from_value : Value -> Result T string) m params :
  match try_call encode_request decode_output exchange from_value m params with
  | Ok (Ok t) => exists v, answered m params (Success v) /\ from_value v = Ok t
  | Ok (Err e) => answered m params (Failure (re_code e) (re_message e)) /\ re_method e = m
  | Err e => (forall refusal, e <> Refused refusal) /\ forall code message, ~ answered m params (Failure code message)
  end /\
  forall e, call encode_request decode_output exchange from_value m params = Err (Refused e) <->
    answered m params (Failure (re_code e) (re_message e)) /\ re_method e = m.
Proof.
  assert (Hfirst : match try_call encode_request decode_output exchange from_value m params with
    | Ok (Ok t) => exists v, answered m params (Success v) /\ from_value v = Ok t
    | Ok (Err e) => answered m params (Failure (re_code e) (re_message e)) /\ re_method e = m
    | Err e => (forall refusal, e <> Refused refusal) /\ forall code message, ~ answered m params (Failure code message)
    end).
  { unfold try_call, try_call_headed, post_headed. destruct (encode_request 1 m params) as [body|] eqn:He; cbn; [|split; [done|by intros ? ? (? & ? & ? & ? & _); congruence]].
    destruct (http_send (exchange body)) as [[h text]|] eqn:Hh; cbn.
    - apply http_send_Ok in Hh as (r & Hx & Hs & Ht & <-).
      destruct (decode_output text) as [[v|code message]|] eqn:Hd; cbn.
      + destruct (from_value v) eqn:Hv; cbn; [exists v; split; [by exists body, r, text|done]|].
        split; [done|]. intros ? ? (b & x & t & ? & ? & ? & ? & ?). congruence.
      + split; [by exists body, r, text|done].
      + split; [done|]. intros ? ? (b & x & t & ? & ? & ? & ? & ?). congruence.
    - split; [done|]. intros ? ? (b & x & t & Hb & Hx & Hs & Ht & ?). assert (b = body) as -> by congruence.
      rewrite (proj2 (http_send_Ok (exchange body) (rs_headers x) t)) in Hh; [done|by exists x]. }
  split; [exact Hfirst|]. intros e. unfold call. split.
  - destruct (try_call _ _ _ _ _ _) as [[t|e']|e']; cbn; [done| |].
    + intros [= ->]. exact Hfirst.
    + intros [= ->]. destruct Hfirst as [Hr _]. by destruct (Hr e).
  - intros [Ha Hm]. rewrite (try_call_answered _ _ _ _ Ha). cbn. by destruct e; subst.
Qed.

(** The requests of a batch, numbered from one in order. *)
Lemma send_body_numbers params b :
  send_body encode_request encode_batch params = Ok b ->
  sb_count b = length params /\
  exists requests, length requests = length params /\
    (forall i p, params !! i = Some p -> exists v r, p = Ok v /\ requests !! i = Some r /\ encode_request (Z.of_nat i + 1) SendTransaction v = Ok r) /\
    (requests = [sb_body b] \/ encode_batch requests = Ok (sb_body b)).
Proof.
  unfold send_body. destruct (collect_results _ _) as [requests|] eqn:Hc; [|done]. cbn. apply collect_results_Ok in Hc.
  assert (Hlen : length requests = length params) by (apply Forall2_length in Hc; by rewrite length_imap in Hc). intros H.
  assert (Hb : sb_count b = length params /\ (requests = [sb_body b] \/ encode_batch requests = Ok (sb_body b))).
  { destruct requests as [|r [|r2 rs]]; cbn in H; [|injection H as <-; cbn; by split; [|left]|];
      (destruct (encode_batch _) as [body|] eqn:Eb; [|done]; cbn in H; injection H as <-; cbn; split; [done|right; done]). }
  split; [apply Hb|]. exists requests. split_and!; [done| |apply Hb]. intros i p Hp.
  destruct (Forall2_lookup_l _ _ _ i (i, p) Hc) as (r & Hr & Hf); [by rewrite list_lookup_imap, Hp|]. cbn in Hf.
  destruct p as [v|]; [|done]. cbn in Hf. exists v, r. split_and!; [done|done|]. by destruct (encode_request _ _ _); cbn in Hf; [injection Hf as ->|].
Qed.
End client.
