(* ===== verification/TransactionLoad.v ===== *)
(** Transaction load: [redline/src/scenarios/aperture/transaction_load.rs], with the compute-unit
    probe of [redline/src/lib.rs].

    Ids are dealt to accounts in turn: [targets] says which accounts an id writes, [instructions] what
    is sent for it.  Windows of ids are measured until the time is used up, each from where the last
    one stopped, and after each window the last write of every account is looked up.  The load's
    outcome, the observers' counts, the scrapes and the reads of a window are in a [WindowEnv].
    A missed [check!] is logged and the run goes on: the misses of the steps that complete are part of
    the result. *)
From Stdlib Require Import String.
From Stdlib Require Import SpecFloat.
From S2P Require Import Prelude World Cell Instr Build Causal Float64 Stats Rate Runner Updates Metrics Text Suite Report Cli MixedLoad.

#[local] Open Scope string_scope.
#[local] Open Scope Z_scope.
#[local] Open Scope list_scope.

(** * The workload *)

Record LoadProfile := mkLoadProfile
  { lp_name : string; lp_payers : nat; lp_accounts : nat; lp_warmup : Z; lp_iterations : Z; lp_rate : Z; lp_concurrency : Z }.

Definition LOAD_LITE : LoadProfile := mkLoadProfile "lite" 8 16 100 400 200 64.
Definition LOAD_FULL : LoadProfile := mkLoadProfile "full" 32 64 3000 1024 1000 256.
Definition WRITE : LoadProfile := mkLoadProfile "write" 1 4 4 40 20 1.
Definition COMPUTE : LoadProfile := mkLoadProfile "compute" 256 256 256 1024 2000 256.
Definition PROFILES : ProfileValues LoadProfile := mkProfileValues LOAD_LITE LOAD_FULL.

Inductive Shape := ShapeWrite | ShapeCopy | ShapeCompute.

#[export] Instance Shape_eq_dec : EqDecision Shape.
Proof. solve_decision. Defined.

Definition shape_profile (shape : Shape) (selected : Cli.Profile) : LoadProfile :=
  match shape with
  | ShapeWrite => WRITE
  | ShapeCopy => ProfileValues_select PROFILES selected
  | ShapeCompute => COMPUTE
  end.

Definition shape_payload (shape : Shape) : string :=
  match shape with ShapeWrite => "write" | ShapeCopy => "copy" | ShapeCompute => "sha256" end.

Definition COMPUTE_ITERS : Z := 180.

(** The sender of an id; no sender is a remainder by zero. *)
Definition sender_index (senders : nat) (id : Z) : option nat :=
  if (senders =? 0)%nat then None else Some (Nat.modulo (Z.to_nat id) senders).

Section shapes.
Context `{R : Runtime, C : InstructionCodec}.
Context (redline compute_budget : Pubkey) (pdas : list Pubkey).

(** [None] is a panic: an id of zero, or no accounts. *)
Definition targets (shape : Shape) (id : Z) : option (Pubkey * Pubkey) :=
  match shape with
  | ShapeWrite | ShapeCompute =>
      if (id <? 1) || (length pdas =? 0)%nat then None
      else
        pda ← pdas !! Nat.modulo (Z.to_nat (id - 1)) (length pdas);
        Some (pda, pda)
  | ShapeCopy => snd <$> Program_copy_three redline pdas id
  end.

Definition instructions (shape : Shape) (id : Z) : option (list SolInstruction) :=
  match shape with
  | ShapeWrite =>
      t ← targets shape id;
      ix ← Program_write redline id [t.1];
      Some [ix]
  | ShapeCopy =>
      copy ← Program_copy_three redline pdas id;
      Some [copy.1]
  | ShapeCompute =>
      t ← targets shape id;
      ix ← Program_hash redline id HASH_INIT COMPUTE_ITERS [t.1];
      Some [compute_unit_limit compute_budget CU_LIMIT; ix]
  end.

(** What an id sends: by which sender, which instructions, and whose update is waited for. *)
Record LoadRequest := mkLoadRequest { lr_id : Z; lr_sender : nat; lr_instructions : list SolInstruction; lr_tracked : Pubkey }.

Definition request (shape : Shape) (senders : nat) (offset iteration : Z) : option LoadRequest :=
  let id := offset + iteration in
  sender ← sender_index senders id;
  ixs ← instructions shape id;
  t ← targets shape id;
  Some (mkLoadRequest id sender ixs t.1).

(** * The final state *)

(** [(offset + 1..=offset + count).rev().find(..)]: the last of these ids that writes the account. *)
Fixpoint last_write (shape : Shape) (pda : Pubkey) (offset : Z) (count : nat) : option (option Z) :=
  match count with
  | O => Some None
  | S before =>
      t ← targets shape (offset + Z.of_nat count);
      if bool_decide (pda = t.1 \/ pda = t.2) then Some (Some (offset + Z.of_nat count))
      else last_write shape pda offset before
  end.

Inductive StateMiss := NotOnEr (pda : Pubkey) | WrongId (pda : Pubkey) | WrongHash (pda : Pubkey).

Section final.
Context `{HC : HeaderCodec} {Error : Type} (read : Pubkey -> Result (option (list Z)) Error).

(** One account: what is missed there.  [None] is the panic of the slice. *)
Definition check_account (shape : Shape) (offset : Z) (count : nat) (pda : Pubkey) : option (Result (list StateMiss) Error) :=
  last_id ← last_write shape pda offset count;
  match last_id with
  | None => Some (Ok [])
  | Some last_id =>
      match read pda with
      | Err e => Some (Err e)
      | Ok None => Some (Ok [NotOnEr pda])
      | Ok (Some d) =>
          let ids := if bool_decide (CellHeader_written_id d = Some last_id) then [] else [WrongId pda] in
          match shape with
          | ShapeCompute =>
              hash ← slice_at layout_HASH_OFFSET layout_HASH_SIZE d;
              Some (Ok (ids ++ if bool_decide (hash = HashState_chain HASH_INIT COMPUTE_ITERS) then [] else [WrongHash pda]))
          | _ => Some (Ok ids)
          end
      end
  end.

Fixpoint check_accounts (shape : Shape) (offset : Z) (count : nat) (l : list Pubkey) : option (Result (list StateMiss) Error) :=
  match l with
  | [] => Some (Ok [])
  | pda :: l =>
      r ← check_account shape offset count pda;
      match r with
      | Err e => Some (Err e)
      | Ok found =>
          rest ← check_accounts shape offset count l;
          Some (let? rest := rest in Ok (found ++ rest))
      end
  end.

Definition check_final_state (shape : Shape) (offset : Z) (count : nat) : option (Result (list StateMiss) Error) :=
  check_accounts shape offset count pdas.
End final.
End shapes.

(** * One window *)

Record LoadMeasurement := mkLoadMeasurement
  { me_outcome : RunOutcome ObservationsStats; me_signatures : SignatureOutcome; me_updates : UpdateOutcome; me_delta : MetricsDelta }.

Inductive WindowMiss :=
| RunFailures (n : Z) | UpdatesUnaccounted | SignaturesFailed | SignaturesUnconfirmed | FinalState (m : StateMiss).

Record LoadConfig := mkLoadConfig { lc_deadline : option Instant; lc_iterations : Z; lc_rate : Pacing; lc_concurrency : Z; lc_closed : bool }.

(** What one window meets: the stop signal before it, the subscriptions it opens, the clock, the run of
    the load under its configuration, the drain, the scrapes, the observers' counts and the reads. *)
Record WindowEnv (Error : Type) := mkWindowEnv
  { we_stopped : bool; we_subscribed : Result unit Error; we_now : Instant; we_latest : Instant;
    we_before : Result Metrics Error; we_run : LoadConfig -> (Z -> option LoadRequest) -> Result (RunOutcome ObservationsStats) Error;
    we_drain : Result unit Error; we_after : Result Metrics Error; we_updates : UpdateOutcome;
    we_signatures : SignatureOutcome; we_read : Pubkey -> Result (option (list Z)) Error }.
Arguments we_stopped {_} _. Arguments we_subscribed {_} _. Arguments we_now {_} _. Arguments we_latest {_} _.
Arguments we_before {_} _. Arguments we_run {_} _. Arguments we_drain {_} _. Arguments we_after {_} _.
Arguments we_updates {_} _. Arguments we_signatures {_} _. Arguments we_read {_} _.
Arguments mkWindowEnv {_} _ _ _ _ _ _ _ _ _ _ _.

Definition missed_check (m : WindowMiss) (holds : bool) : list WindowMiss := if holds then [] else [m].

Definition failure_misses (o : RunOutcome ObservationsStats) : list WindowMiss :=
  match check_failures o with Ok _ => [] | Err (n, _) => [RunFailures n] end.

Definition count_misses (o : RunOutcome ObservationsStats) (u : UpdateOutcome) (s : SignatureOutcome) : list WindowMiss :=
  missed_check UpdatesUnaccounted (uo_observed u + uo_superseded u =? delivered o) ++
  missed_check SignaturesFailed (so_failed s =? 0) ++
  missed_check SignaturesUnconfirmed (so_confirmed s =? delivered o).

Definition measure {Error} (overflow : Error) (profile : LoadProfile) (mode : LoopMode) (request : Z -> option LoadRequest) (remaining : Duration)
    (env : WindowEnv Error) :
    Result (LoadMeasurement * list WindowMiss) Error :=
  let? _ := we_subscribed env in
  let? before := we_before env in
  ensure! (we_now env + remaining <=? we_latest env) else overflow in
  let closed := match mode with ClosedLoop => true | OpenLoop => false end in
  let config := mkLoadConfig (Some (we_now env + remaining)) (lp_iterations profile) (PerSecond (lp_rate profile)) (lp_concurrency profile) closed in
  let? outcome := we_run env config request in
  let? _ := if failed outcome =? 0 then we_drain env else Ok tt in
  let? after := we_after env in
  Ok (mkLoadMeasurement outcome (we_signatures env) (we_updates env) (mkDelta before after),
      failure_misses outcome ++ count_misses outcome (we_updates env) (we_signatures env)).

(** The ids before the first window, whose samples are thrown away: they only have to be delivered. *)
Definition warm_up {Error} (profile : LoadProfile)
    (execute : LoadConfig -> (Z -> option (nat * list SolInstruction)) -> Result (RunOutcome ObservationsStats) Error)
    (instructions : Z -> option (list SolInstruction)) (senders : nat) : Result (list WindowMiss) Error :=
  let config := mkLoadConfig None (lp_warmup profile) (PerSecond (lp_rate profile)) (lp_concurrency profile) false in
  let? outcome := execute config (fun id => sender ← sender_index senders id; ixs ← instructions id; Some (sender, ixs)) in
  Ok (failure_misses outcome).

(** ** Its report *)

Definition ENGINE_TRANSACTIONS : string := "engine_ledger_transactions".
Definition in_micros (seconds : f64) : f64 := f64_mul seconds (f64_of 1000000).
Definition QUOTED_TRANSACTION : string := String (Ascii.ascii_of_nat 34) ("transaction" +:+ String (Ascii.ascii_of_nat 34) EmptyString).

Definition window_report (m : LoadMeasurement) (profile : LoadProfile) (mode : LoopMode) : ScenarioReport :=
  let o := me_outcome m in
  let r := setting "profile" (lp_name profile) report_ok in
  let r := setting "shape" "read-write 3/tx (1 src + 2 dst data-copy)" r in
  let r := setting "loop" (LoopMode_name mode) r in
  let r := setting "confirm timeout s" (show_integer (as_secs NETWORK_TIMEOUT)) r in
  let r := setting "payers" (show_integer (Z.of_nat (lp_payers profile))) r in
  let r := setting "accounts" (show_integer (Z.of_nat (lp_accounts profile))) r in
  let r := setting "warmup iters" (show_integer (lp_warmup profile)) r in
  let r := setting "window capacity" (show_integer (lp_iterations profile)) r in
  let r := setting "offered tps" (show_integer (lp_rate profile)) r in
  let r := setting "concurrency" (show_integer (lp_concurrency profile)) r in
  let r := report_observe "delivery us" Micros (delivery o) r in
  let r := client_side o r in
  let r := report_observe "signature latency us" Micros (so_latency (me_signatures m)) r in
  let r := report_observe "achieved rps" Rps (rps o) r in
  let r := report_observe "account-update lag us" Micros (uo_lag (me_updates m)) r in
  let r := metric "achieved tps" Tps (achieved_rps o) r in
  let r := metric "measured wall s" Seconds (as_secs_f64 (wall o)) r in
  let r := metric "superseded" Count (f64_of (uo_superseded (me_updates m))) r in
  let r := metric_if "validator tx processing avg us" Micros (in_micros <$> histogram_avg "mbv_transaction_processing_time" (me_delta m)) r in
  let r := metric_if "validator ensure accounts avg us" Micros
             (in_micros <$> histogram_avg ("mbv_ensure_accounts_time{kind=" +:+ QUOTED_TRANSACTION +:+ "}") (me_delta m)) r in
  let r := metric_if "validator txs in window" Count (delta_counter ENGINE_TRANSACTIONS (me_delta m)) r in
  let r := metric_if "monitored accounts (gauge)" Count (delta_gauge "mbv_monitored_accounts_gauge" (me_delta m)) r in
  match sync o with Some s => report_observe "sync round-trip us" Micros s r | None => r end.

(** * The run *)

(** [consumed_cus]: the first line that says how many units were used. *)
Definition consumed_line (line : string) : option f64 :=
  '(_, rest) ← split_once " consumed " line;
  '(cus, tail) ← split_once " of " rest;
  if contains "compute units" tail then parse_f64 cus else None.

Fixpoint consumed_cus (logs : list string) : option f64 :=
  match logs with
  | [] => None
  | line :: logs => match consumed_line line with Some cus => Some cus | None => consumed_cus logs end
  end.

(** The contrast of the compute shape: the costs of one and of [COMPUTE_ITERS] rounds. *)
Definition compute_contrast (light heavy : f64) : f64 * bool :=
  let ratio := f64_div heavy light in (ratio, f64_le (f64_of 10) ratio).

Record RunState := mkRunState
  { rs_remaining : Duration; rs_cursor : Z; rs_delivered : Z; rs_peak : Z; rs_report : ScenarioReport; rs_misses : list WindowMiss }.

Inductive LoopEnd (Error : Type) := Ended (r : Result unit Error) | Running.
Arguments Ended {_} _. Arguments Running {_}.

Section run.
Context `{R : Runtime, C : InstructionCodec, HC : HeaderCodec}.
Context (redline compute_budget : Pubkey) (pdas : list Pubkey) (senders : nat).
Context {Error : Type} (overflow : Error) (profile : LoadProfile) (mode : LoopMode) (shape : Shape).

(** The end of a window that delivered something and was checked. *)
Definition next_state (m : LoadMeasurement) (found : list WindowMiss) (s : RunState) : RunState :=
  let o := me_outcome m in
  mkRunState (saturating_sub (rs_remaining s) (admission_wall o)) (rs_cursor s + delivered o) (rs_delivered s + delivered o)
    (Z.max (rs_peak s) (o_max (delivery o))) (setting "scope" "last observation window" (window_report m profile mode))
    (rs_misses s ++ found).

Definition note_misses (found : list WindowMiss) (s : RunState) : RunState :=
  mkRunState (rs_remaining s) (rs_cursor s) (rs_delivered s) (rs_peak s) (rs_report s) (rs_misses s ++ found).

(** The loop over the windows that were met; [Running] when it goes on after them.  [None] is a
    panic. *)
Fixpoint run_windows (envs : list (WindowEnv Error)) (s : RunState) : option (LoopEnd Error * RunState) :=
  if rs_remaining s =? 0 then Some (Ended (Ok tt), s)
  else
    match envs with
    | [] => Some (Running, s)
    | env :: envs =>
        if we_stopped env then Some (Ended (Ok tt), s)
        else
          match measure overflow profile mode (request redline compute_budget pdas shape senders (rs_cursor s)) (rs_remaining s) env with
          | Err e => Some (Ended (Err e), s)
          | Ok (m, found) =>
              let s := note_misses found s in
              let count := delivered (me_outcome m) in
              if count =? 0 then Some (Ended (Ok tt), s)
              else
                checked ← check_final_state redline pdas (we_read env) shape (rs_cursor s) (Z.to_nat count);
                match checked with
                | Err e => Some (Ended (Err e), s)
                | Ok misses => run_windows envs (next_state m (FinalState <$> misses) s)
                end
          end
    end.

Definition run_start (duration : Duration) : RunState := mkRunState duration (lp_warmup profile) 0 0 report_ok [].

(** [RunControl::completion] *)
Definition run_completion (stopped : bool) (r : Result unit Error) : string :=
  if stopped then "interrupted" else match r with Ok _ => "completed" | Err _ => "failed" end.

(** The report that is kept whether or not the run went well; the flag is the last [check!]. *)
Definition final_report (stopped : bool) (r : Result unit Error) (ratio : option f64) (s : RunState) : ScenarioReport * bool :=
  let report := setting "completion" (run_completion stopped r) (rs_report s) in
  let report := setting "payload" (shape_payload shape) report in
  let report := metric "total delivered" Count (f64_of (rs_delivered s)) report in
  let report := metric "peak delivery us" Micros (f64_of (rs_peak s)) report in
  (metric_if "heavy/light compute-unit ratio" Ratio ratio report,
   match r with Ok _ => (0 <? rs_delivered s) || stopped | Err _ => true end).
End run.
