(* ===== verification/TransactionLoadProps.v ===== *)
(** The transaction load finds every account as its last id left it, in whatever order the accounts
    allow, and its windows follow one another without a gap until the time is used up. *)
From Stdlib Require Import SpecFloat.
From S2P Require Import Prelude World Cell Instr Settlement RefCodec SettlementFacts Execute CellSpec Build BuildSpec Fixture FixtureProps Rate Runner Causal Upgrade Float64 Stats Updates Metrics Report Cli MixedLoad TransactionLoad MixedLoadProps.

#[local] Open Scope Z_scope.
#[local] Open Scope list_scope.

(** The checks of a window are about its counts, not about the accounts. *)
Lemma measure_found {Error} (overflow : Error) profile mode request remaining env m found :
  measure overflow profile mode request remaining env = Ok (m, found) -> forall x, FinalState x ∉ found.
Proof.
  intros H x. unfold measure in H.
  destruct (we_subscribed env); [|done]. cbn [res_bind] in H. destruct (we_before env); [|done]. cbn [res_bind] in H.
  destruct (_ <=? _); [|done]. destruct (we_run env _ _) as [o|]; [|done]. cbn [res_bind] in H.
  destruct (if failed o =? 0 then we_drain env else Ok tt); [|done]. cbn [res_bind] in H.
  destruct (we_after env); [|done]. cbn [res_bind] in H. injection H as <- <-.
  unfold failure_misses, check_failures, count_misses, missed_check. repeat case_match; simplify_eq; set_solver.
Qed.

(** * One id *)

Section load.
Context `{R : Runtime, !RuntimeLaws R, HC : HeaderCodec, !HeaderCodecLaws HC}.
Context `{C : InstructionCodec, !InstructionCodecLaws R C, K : IntentSdk}.
Context (redline compute_budget : Pubkey) (pdas : list Pubkey) (shape : Shape).

(** The instructions of an id, run on the ER. *)
Definition land_load (id : Z) : M unit := fun w =>
  match instructions redline compute_budget pdas shape id with
  | Some ixs => for_each (land_ix redline) ixs w
  | None => (Err InvalidArgument, w)
  end.

(** A cell that has room for [r] more updates and, where something is known of it, was written last by
    this id. *)
Definition cell_ok (σ : Abs) (r : Z) (k : Pubkey) (last : option Z) : Prop :=
  exists h p, σ !! k = Some (h, p) /\ (32 <= length p)%nat /\ revision h + r <= u64_max /\
    match last with
    | Some id => value h = id /\ (shape = ShapeCompute -> take 32 p = HashState_chain HASH_INIT COMPUTE_ITERS)
    | None => True
    end.

Definition cells_ok (σ : Abs) (r : Z) (last : Pubkey -> option Z) : Prop := forall k, k ∈ pdas -> cell_ok σ r k (last k).

Definition with_last (ks : list Pubkey) (id : Z) (last : Pubkey -> option Z) (k : Pubkey) : option Z :=
  if bool_decide (k ∈ ks) then Some id else last k.

Lemma cell_ok_weaken σ r r' k last : r' <= r -> cell_ok σ r k last -> cell_ok σ r' k last.
Proof. intros Hr (h & p & Hl & Hp & Hrev & Hv). exists h, p. split_and!; try done. lia. Qed.

Lemma cell_ok_insert σ r k c k' last last' :
  cell_ok (<[k := c]> σ) r k last -> (k' <> k -> cell_ok σ r k' last') -> (k' = k -> last' = last) -> cell_ok (<[k := c]> σ) r k' last'.
Proof.
  intros Hk Hne Heq. destruct (decide (k' = k)) as [->|Hk']; [by rewrite (Heq eq_refl)|].
  destruct (Hne Hk') as (h & p & Hl & ?). exists h, p. by rewrite lookup_insert_ne.
Qed.

(** ** Updates of a shape that does not check hashes *)

Lemma cells_ok_update σ r k h p h' p' last last' :
  cells_ok σ (r + 1) last -> σ !! k = Some (h, p) -> revision h' = revision h + 1 -> length p' = length p ->
  match last' k with
  | Some id => value h' = id /\ (shape = ShapeCompute -> take 32 p' = HashState_chain HASH_INIT COMPUTE_ITERS)
  | None => True
  end -> k ∈ pdas -> (forall k', k' <> k -> last' k' = last k') -> cells_ok (<[k := (h', p')]> σ) r last'.
Proof.
  intros Hok Hl Hrev Hlen Hv Hk Hlast k' Hk'. destruct (decide (k' = k)) as [->|Hne].
  - destruct (Hok k Hk) as (h0 & p0 & Hl0 & Hp0 & Hr0 & _). simplify_eq. exists h', p'. rewrite lookup_insert_eq.
    split_and!; [done|lia|lia|done].
  - rewrite Hlast by done. destruct (Hok k' Hk') as (h0 & p0 & Hl0 & Hp0 & Hr0 & Hv0).
    exists h0, p0. rewrite lookup_insert_ne by done. split_and!; [done|lia|lia|done].
Qed.

Lemma set_step σ r k id last :
  0 <= r -> shape <> ShapeCompute -> cells_ok σ (r + 1) last -> k ∈ pdas ->
  exists σ', abs_update (fun h p => Some (with_value id h, p)) k σ = Some σ' /\ cells_ok σ' r (with_last [k] id last).
Proof.
  intros Hr0 Hs Hok Hk. destruct (Hok k Hk) as (h & p & Hl & Hp & Hr & _).
  eexists. split; [apply (abs_update_Some _ k σ h p (with_value id h) p); [done|done|simpl; lia]|].
  eapply cells_ok_update; [done..| |done|].
  - unfold with_last. by rewrite bool_decide_eq_true_2 by set_solver.
  - intros k' Hne. unfold with_last. by rewrite bool_decide_eq_false_2 by set_solver.
Qed.

Lemma copy_step σ r k src last :
  0 <= r -> shape <> ShapeCompute -> cells_ok σ (r + 1) last -> k ∈ pdas ->
  exists σ', abs_update (fun h p => Some (h, copied src p)) k σ = Some σ' /\ cells_ok σ' r last.
Proof.
  intros Hr0 Hs Hok Hk. destruct (Hok k Hk) as (h & p & Hl & Hp & Hr & Hv).
  eexists. split; [apply (abs_update_Some _ k σ h p h (copied src p)); [done|done|simpl; lia]|].
  eapply cells_ok_update; [done|done|done| | |done|done].
  - unfold copied. rewrite length_app, length_take, length_drop. lia.
  - destruct (last k); [|done]. by destruct Hv.
Qed.

Lemma copy_effect σ r s d1 d2 id last :
  0 <= r -> shape <> ShapeCompute -> cells_ok σ (r + 4) last -> s ∈ pdas -> d1 ∈ pdas -> d2 ∈ pdas ->
  exists σ', effects [CSet [d1; d2] id; CCopy [s] [d1; d2]] σ = Some σ' /\ cells_ok σ' r (with_last [d1; d2] id last).
Proof.
  intros Hr Hs Hok Hks Hk1 Hk2. cbn [effects effect key_each key_copy length].
  destruct (set_step σ (r + 3) d1 id last) as (σ1 & -> & H1); [lia|done|by replace (r + 3 + 1) with (r + 4) by lia|done|].
  cbn [mbind option_bind]. destruct (set_step σ1 (r + 2) d2 id (with_last [d1] id last)) as (σ2 & -> & H2);
    [lia|done|by replace (r + 2 + 1) with (r + 3) by lia|done|].
  cbn [mbind option_bind]. rewrite ?Nat.mod_1_r. cbn [lookup list_lookup mbind option_bind].
  destruct (H2 s Hks) as (h & p & -> & _). cbn [mbind option_bind].
  destruct (copy_step σ2 (r + 1) d1 p (with_last [d2] id (with_last [d1] id last))) as (σ3 & -> & H3);
    [lia|done|by replace (r + 1 + 1) with (r + 2) by lia|done|].
  cbn [mbind option_bind]. rewrite ?Nat.mod_1_r. cbn [lookup list_lookup mbind option_bind].
  destruct (H3 s Hks) as (h' & p' & -> & _). cbn [mbind option_bind].
  destruct (copy_step σ3 r d2 p' (with_last [d2] id (with_last [d1] id last))) as (σ4 & -> & H4); [lia|done|done|done|].
  cbn [mbind option_bind]. exists σ4. split; [done|]. intros k Hk. specialize (H4 k Hk). revert H4. unfold with_last.
  repeat case_bool_decide; (done || set_solver).
Qed.

(** ** The calls of an id *)

Definition load_calls (id : Z) (s d1 d2 : Pubkey) : list Call :=
  match shape with
  | ShapeWrite => [CSet [d1] id; CFill [d1] id 0]
  | ShapeCopy => [CSet [d1; d2] id; CCopy [s] [d1; d2]]
  | ShapeCompute => [CSet [d1] id; CHash [d1] HASH_INIT COMPUTE_ITERS]
  end.

Lemma cells_ok_weaken σ r r' last : r' <= r -> cells_ok σ r last -> cells_ok σ r' last.
Proof. intros Hr Hok k Hk. by eapply cell_ok_weaken; [|apply Hok]. Qed.

(** A single account overwritten by two updates. *)
Lemma cells_ok_single σ r k h p h' p' id last :
  0 <= r -> cells_ok σ (r + 4) last -> k ∈ pdas -> σ !! k = Some (h, p) -> revision h' = revision h + 2 -> length p' = length p ->
  value h' = id -> (shape = ShapeCompute -> take 32 p' = HashState_chain HASH_INIT COMPUTE_ITERS) ->
  cells_ok (<[k := (h', p')]> σ) r (with_last [k; k] id last).
Proof.
  intros Hr Hok Hk Hl Hrev Hlen Hv Hh k' Hk'. unfold with_last. case_bool_decide as Hin.
  - assert (k' = k) as -> by set_solver. destruct (Hok k Hk) as (h0 & p0 & Hl0 & Hp0 & Hr0 & _). simplify_eq.
    exists h', p'. rewrite lookup_insert_eq. split_and!; [done|lia|lia|done|done].
  - destruct (Hok k' Hk') as (h0 & p0 & Hl0 & Hp0 & Hr0 & Hv0). exists h0, p0. rewrite lookup_insert_ne by set_solver.
    split_and!; [done|lia|lia|done].
Qed.

Lemma load_effect σ r id s d1 d2 last :
  0 <= r -> cells_ok σ (r + 4) last -> s ∈ pdas -> d1 ∈ pdas -> d2 ∈ pdas -> (shape <> ShapeCopy -> d2 = d1) ->
  exists σ', effects (load_calls id s d1 d2) σ = Some σ' /\ cells_ok σ' r (with_last [d1; d2] id last).
Proof.
  intros Hr Hok Hs H1 H2 Hd. unfold load_calls. destruct (Hok d1 H1) as (h & p & Hl & Hp & Hrev & _).
  destruct shape eqn:Esh; [rewrite Hd by done|by apply copy_effect; rewrite ?Esh|rewrite Hd by done].
  - eexists. split; [apply write_effect; [done|lia]|]. eapply cells_ok_single; [done..|cbn; lia| |done|by rewrite Esh].
    unfold filled. by rewrite length_imap.
  - pose proof (length_HashState_chain HASH_INIT COMPUTE_ITERS eq_refl) as Hc.
    pose proof (set_then_overwrite (HashState_chain HASH_INIT COMPUTE_ITERS) d1 id σ h p Hl ltac:(lia) ltac:(lia)) as He.
    eexists. split; [cbn [effects effect key_each] in *; rewrite <- He; by destruct (abs_update _ d1 σ) as [σ1|]; cbn; [destruct (overwrite _ d1 σ1)|]|].
    eapply cells_ok_single; [done..|cbn; lia| |done|intros _; by rewrite take_app_length'].
    rewrite length_app, length_drop. lia.
Qed.

(** ** The instructions are those calls *)

Hypothesis (Hbudget : compute_budget <> redline) (Hpdas : pdas <> []).

Lemma pdas_pos : 0 < Z.of_nat (length pdas).
Proof. destruct pdas; [done|]. cbn. lia. Qed.

Lemma pda_at (i : Z) : exists k, pdas !! Z.to_nat (i mod Z.of_nat (length pdas)) = Some k /\ k ∈ pdas.
Proof.
  pose proof (Z.mod_pos_bound i _ pdas_pos) as Hb.
  destruct (lookup_lt_is_Some_2 pdas (Z.to_nat (i mod Z.of_nat (length pdas)))) as [k Hk]; [lia|].
  exists k. split; [done|]. by eapply list_elem_of_lookup_2.
Qed.

Lemma copy_calls id s d1 d2 :
  exists bt, calls [CSet [d1; d2] id; CCopy [s] [d1; d2]] (Program_batch redline) = Some bt /\
    Program_copy redline id [s] [d1; d2] = Some (Batch_build bt).
Proof.
  unfold Program_copy. cbn [calls call]. unfold Batch_set, Batch_copy.
  destruct (Batch_cells_Some [d1; d2] true (Program_batch redline)) as (i1 & b1 & H1 & L1); [simpl; unfold u16_bound; lia|].
  rewrite H1. cbn [mbind option_bind]. simpl in L1.
  destruct (Batch_cells_Some [s] false (push (OpSet i1 id) b1)) as (i2 & b2 & H2 & L2); [simpl; unfold u16_bound; lia|].
  rewrite H2. cbn [mbind option_bind]. simpl in L2.
  destruct (Batch_cells_Some [d1; d2] true b2) as (i3 & b3 & H3 & L3); [simpl; unfold u16_bound; lia|].
  rewrite H3. by eexists.
Qed.

Lemma single_target id :
  shape <> ShapeCopy -> 1 <= id -> exists t, targets redline pdas shape id = Some (t, t) /\ t ∈ pdas.
Proof.
  intros Hs Hid. destruct (pda_at (id - 1)) as (t & Ht & Hin). exists t. split; [|done].
  assert (Hi : Nat.modulo (Z.to_nat (id - 1)) (length pdas) = Z.to_nat ((id - 1) mod Z.of_nat (length pdas))).
  { pose proof pdas_pos. apply Nat2Z.inj. rewrite Nat2Z.inj_mod, !Z2Nat.id; [done|by apply Z.mod_pos_bound|lia]. }
  unfold targets. rewrite (proj2 (Z.ltb_ge id 1)) by done. destruct (Nat.eqb_spec (length pdas) 0) as [H0|_]; [by destruct pdas|].
  cbn [orb]. rewrite Hi, Ht. by destruct shape.
Qed.

Lemma load_instructions id :
  1 <= id ->
  exists s d1 d2 bt pre, targets redline pdas shape id = Some (d1, d2) /\ s ∈ pdas /\ d1 ∈ pdas /\ d2 ∈ pdas /\
    (shape <> ShapeCopy -> d2 = d1) /\ calls (load_calls id s d1 d2) (Program_batch redline) = Some bt /\
    instructions redline compute_budget pdas shape id = Some (pre ++ [Batch_build bt]) /\
    Forall (fun ix => ix_program_id ix = compute_budget) pre.
Proof.
  intros Hid. destruct (decide (shape = ShapeCopy)) as [Hs|Hs].
  - unfold instructions, targets, load_calls. rewrite Hs. unfold Program_copy_three. pose proof pdas_pos as Hpos.
    destruct (Z.eqb_spec (Z.of_nat (length pdas)) 0) as [H0|_]; [lia|].
    set (first := wrapping_mul64 _ _ mod _) in *.
    destruct (pda_at (wrapping_mul64 (wrapping_sub64 id 1) 3)) as (s & Hk & Hin). fold first in Hk.
    destruct (pda_at (first + 1)) as (d1 & Hk1 & Hin1). destruct (pda_at (first + 2)) as (d2 & Hk2 & Hin2).
    destruct (copy_calls id s d1 d2) as (bt & Hc & Hix). exists s, d1, d2, bt, [].
    rewrite Hk. cbn [mbind option_bind]. rewrite Hk1. cbn [mbind option_bind]. rewrite Hk2. cbn [mbind option_bind]. rewrite Hix.
    by split_and!.
  - destruct (single_target id Hs Hid) as (t & Ht & Hin). destruct (set_Some redline t id) as (b1 & H1 & L1).
    change (Batch_set [t] id (Program_batch redline)) with (call (CSet [t] id) (Program_batch redline)) in H1.
    exists t, t, t. unfold instructions, load_calls, Program_write, Batch_write, Program_hash. rewrite Ht. cbn [mbind option_bind fst].
    destruct shape; [|done|]; cbn [calls].
    + destruct (second_Some (CFill [t] id 0) b1) as (b2 & H2); [done|done|]. exists b2, []. rewrite H1. cbn [mbind option_bind].
      rewrite H2. cbn [call] in H1, H2. rewrite H1. cbn [mbind option_bind]. rewrite H2. by split_and!.
    + destruct (second_Some (CHash [t] HASH_INIT COMPUTE_ITERS) b1) as (b2 & H2); [done|done|].
      eexists b2, [_]. rewrite H1. cbn [mbind option_bind]. rewrite H2. cbn [call] in H1, H2. rewrite H1. cbn [mbind option_bind]. rewrite H2.
      split_and!; try done. by constructor.
Qed.

Lemma load_calls_fit id s d1 d2 : is_u 64 id -> Forall Call_wf (load_calls id s d1 d2) /\ fits (load_calls id s d1 d2).
Proof.
  intros Hid. unfold load_calls. destruct shape; (split; [|done]); repeat (apply Forall_cons; split); try apply Forall_nil; try done;
    cbn; split_and!; try done; by repeat constructor.
Qed.

(** An id lands on its targets and leaves the other accounts alone. *)
Lemma land_load_reaches id w σ r last :
  is_u 64 id -> 1 <= id -> 0 <= r -> represents σ w -> borrowed w = ∅ -> cells_ok σ (r + 4) last ->
  exists σ' t, targets redline pdas shape id = Some t /\ reaches (land_load id) w σ σ' /\ cells_ok σ' r (with_last [t.1; t.2] id last).
Proof.
  intros Hid H1 Hr Hw Hb Hok. destruct (load_instructions id H1) as (s & d1 & d2 & bt & pre & Ht & Hs & Hd1 & Hd2 & Hd & Hc & Hix & Hpre).
  destruct (load_effect σ r id s d1 d2 last) as (σ' & He & Hok'); [done..|]. exists σ', (d1, d2). split; [done|]. split; [|done].
  destruct (load_calls_fit id s d1 d2 Hid) as [Hwf Hfit]. unfold reaches, land_load. rewrite Hix.
  rewrite (land_prefix redline compute_budget) by done. cbn [for_each].
  destruct (calls_end_to_end redline _ bt (infos_of (ix_accounts (Batch_build bt))) w σ σ' Hc Hfit Hwf) as (w' & Hw' & Hrest);
    [apply keys_infos_of|done..|].
  exists w'. split; [|done]. rewrite (bind_run_Ok _ _ w tt w'); [done|]. unfold land_ix.
  rewrite bool_decide_eq_true_2; [done|]. by eapply batch_build_program.
Qed.

(** * A window of ids *)

Definition writes (k : Pubkey) (id : Z) : bool :=
  match targets redline pdas shape id with Some t => bool_decide (k = t.1 \/ k = t.2) | None => false end.

(** The last of some ids that writes an account, in the order they landed. *)
Definition last_landed (ids : list Z) (k : Pubkey) : option Z := last (filter (fun id => writes k id) ids).

Definition after (ids : list Z) (was : Pubkey -> option Z) (k : Pubkey) : option Z :=
  match last_landed ids k with Some id => Some id | None => was k end.

Lemma cells_ok_ext σ r was was' : (forall k, was k = was' k) -> cells_ok σ r was -> cells_ok σ r was'.
Proof. intros H Hok k Hk. rewrite <- H. by apply Hok. Qed.

Lemma after_cons id ids was t k :
  targets redline pdas shape id = Some t -> after ids (with_last [t.1; t.2] id was) k = after (id :: ids) was k.
Proof.
  intros Ht. unfold after, last_landed, with_last. rewrite filter_cons.
  assert (Hw : writes k id = bool_decide (k ∈ [t.1; t.2])).
  { unfold writes. rewrite Ht. apply bool_decide_ext. set_solver. }
  rewrite Hw. destruct (filter _ ids) as [|x l] eqn:El.
  - case_bool_decide; [by rewrite decide_True|by rewrite decide_False by (intros [])].
  - destruct (last (x :: l)) as [y|] eqn:Ey; [|by apply last_None in Ey].
    destruct (bool_decide (k ∈ [t.1; t.2])); [rewrite decide_True by done; by rewrite last_cons_cons, Ey|rewrite decide_False by (intros []); by rewrite Ey].
Qed.

Lemma land_ids ids w σ r was :
  Forall (fun id => is_u 64 id /\ 1 <= id) ids -> 0 <= r -> represents σ w -> borrowed w = ∅ ->
  cells_ok σ (r + 4 * Z.of_nat (length ids)) was ->
  exists σ', reaches (for_each land_load ids) w σ σ' /\ cells_ok σ' r (after ids was).
Proof.
  intros Hids Hr. revert w σ was. induction Hids as [|id ids [Hid H1] _ IH]; intros w σ was Hw Hb Hok.
  - exists σ. split; [by apply reaches_ret|]. eapply cells_ok_weaken; [|done]. cbn. lia.
  - destruct (land_load_reaches id w σ (r + 4 * Z.of_nat (length ids)) was) as (σ1 & t & Ht & (w1 & E1 & R1 & F1 & D1) & Hok1);
      [done|done|lia|done|done|by replace (r + 4 * Z.of_nat (length ids) + 4) with (r + 4 * Z.of_nat (length (id :: ids))) by (cbn; lia)|].
    destruct (IH w1 σ1 (with_last [t.1; t.2] id was)) as (σ2 & (w2 & E2 & R2 & F2 & D2) & Hok2); [done|by rewrite (proj1 F1)|done|].
    exists σ2. split; [|eapply cells_ok_ext; [intros k; by apply after_cons|done]].
    exists w2. cbn [for_each]. split_and!; [by rewrite (bind_run_Ok _ _ _ _ _ E1)|done|by eapply framed_trans|congruence].
Qed.

Lemma targets_Some id : 1 <= id -> exists t, targets redline pdas shape id = Some t.
Proof. intros H. destruct (load_instructions id H) as (s & d1 & d2 & bt & pre & Ht & _). by eexists. Qed.

Lemma seqZ_snoc (m : Z) (n : nat) : seqZ m (Z.of_nat (S n)) = seqZ m (Z.of_nat n) ++ [m + Z.of_nat n].
Proof. by rewrite Nat2Z.inj_succ, <- Z.add_1_r, seqZ_app by lia. Qed.

(** The search backwards finds the last id of the window that writes the account. *)
Lemma last_write_spec k offset count :
  0 <= offset -> last_write redline pdas shape k offset count = Some (last_landed (seqZ (offset + 1) (Z.of_nat count)) k).
Proof.
  intros Ho. induction count as [|count IH]; [done|]. unfold last_landed. rewrite seqZ_snoc, filter_app, filter_cons. cbn [last_write].
  destruct (targets_Some (offset + Z.of_nat (S count))) as [t Ht]; [lia|]. rewrite Ht. cbn [mbind option_bind].
  assert (Hw : writes k (offset + 1 + Z.of_nat count) = bool_decide (k = t.1 \/ k = t.2)).
  { unfold writes. replace (offset + 1 + Z.of_nat count) with (offset + Z.of_nat (S count)) by lia. by rewrite Ht. }
  rewrite Hw. destruct (bool_decide (k = t.1 \/ k = t.2)).
  - rewrite decide_True by done. cbn [filter list_filter]. rewrite last_snoc. do 2 f_equal. lia.
  - rewrite decide_False by (intros []). cbn [filter list_filter]. rewrite app_nil_r. by rewrite IH.
Qed.

(** The order of an account's own writes is all that matters. *)
Definition in_order (ids : list Z) : Prop := forall k, k ∈ pdas -> StronglySorted Z.le (filter (fun id => writes k id) ids).

Lemma seqZ_sorted m n : StronglySorted Z.le (seqZ m n).
Proof.
  unfold seqZ. generalize (Z.to_nat n). clear n. intros n. generalize 0%nat. induction n as [|n IH]; intros i; cbn; constructor; [by apply IH|].
  apply Forall_fmap, Forall_forall. intros j Hj%elem_of_seq. cbn. lia.
Qed.

Lemma filter_sorted (P : Z -> Prop) `{!forall x, Decision (P x)} l : StronglySorted Z.le l -> StronglySorted Z.le (filter P l).
Proof.
  intros Hs. induction Hs as [|x l _ IH Hall]; [constructor|]. rewrite filter_cons. case_decide; [|done]. constructor; [done|].
  apply Forall_forall. intros y [_ Hy]%list_elem_of_filter. by eapply Forall_forall in Hall.
Qed.

Lemma last_landed_order landed offset count k :
  landed ≡ₚ seqZ (offset + 1) count -> in_order landed -> k ∈ pdas -> last_landed landed k = last_landed (seqZ (offset + 1) count) k.
Proof.
  intros Hp Ho Hk. unfold last_landed. f_equal. apply (StronglySorted_unique Z.le); [by apply Ho| |].
  - apply filter_sorted, seqZ_sorted.
  - by rewrite Hp.
Qed.

Lemma check_account_ok {Error} (read : Pubkey -> Result (option (list Z)) Error) σ w r was offset count k :
  represents σ w -> cells_ok σ r was -> k ∈ pdas -> 0 <= offset ->
  (forall id, last_landed (seqZ (offset + 1) (Z.of_nat count)) k = Some id -> was k = Some id) ->
  read k = Ok (Some (data (account w k))) -> check_account redline pdas read shape offset count k = Some (Ok []).
Proof.
  intros Hw Hok Hk Ho Hl Hread. unfold check_account. rewrite last_write_spec by done. cbn [mbind option_bind].
  destruct (last_landed _ k) as [id|] eqn:El; [|done]. rewrite Hread. destruct (Hok k Hk) as (h & p & Hc & Hp & _ & Hv). rewrite (Hl id eq_refl) in Hv.
  destruct Hv as [Hv Hh]. apply Hw in Hc. apply cell_of_Some in Hc as [Hd ->]. pose proof (try_decode_size _ _ Hd) as Hsz.
  unfold CellHeader_written_id. rewrite Hd. cbn [fmap option_fmap option_map]. rewrite Hv, bool_decide_eq_true_2 by done.
  destruct shape; [done|done|]. unfold slice_at, layout_HASH_OFFSET, layout_HASH_SIZE, HashState_SIZE, layout_DATA_OFFSET.
  rewrite length_drop in Hp. rewrite (proj2 (Nat.leb_le _ _)) by lia. cbn [mbind option_bind]. by rewrite Hh, bool_decide_eq_true_2.
Qed.

Lemma check_accounts_ok {Error} (read : Pubkey -> Result (option (list Z)) Error) offset count l :
  Forall (fun k => check_account redline pdas read shape offset count k = Some (Ok [])) l ->
  check_accounts redline pdas read shape offset count l = Some (Ok []).
Proof. intros Hl. induction Hl as [|k l Hk _ IH]; [done|]. cbn [check_accounts]. rewrite Hk. cbn. by rewrite IH. Qed.

(** * The run *)

Section windows.
Context {Error : Type} (overflow : Error) (profile : LoadProfile) (mode : LoopMode) (senders : nat).

Abbreviation measured cursor := (measure overflow profile mode (request redline compute_budget pdas shape senders cursor)).

(** The windows of a run on a chain that executes what it delivers: the ids of a window land in some
    order that keeps the order of every account's own writes, and the reads see what they left; [room]
    bounds the ids still to come. *)
Fixpoint lands (envs : list (WindowEnv Error)) (remaining : Duration) (cursor : Z) (w : World) (room : Z) : Prop :=
  match envs with
  | [] => True
  | env :: envs =>
      forall m found, measured cursor remaining env = Ok (m, found) ->
      let count := delivered (me_outcome m) in
      0 <= count <= room /\ cursor + count < u64_bound /\
      (0 < count ->
       exists landed, landed ≡ₚ seqZ (cursor + 1) count /\ in_order landed /\
         let w' := (for_each land_load landed w).2 in
         (forall k, we_read env k = Ok (Some (data (account w' k)))) /\
         lands envs (saturating_sub remaining (admission_wall (me_outcome m))) (cursor + count) w' (room - count))
  end.

Lemma window_verified landed cursor count w σ room was env :
  0 <= cursor -> 0 < count <= room -> cursor + count < u64_bound -> landed ≡ₚ seqZ (cursor + 1) count -> in_order landed ->
  represents σ w -> borrowed w = ∅ -> cells_ok σ (4 * room) was ->
  let w' := (for_each land_load landed w).2 in
  (forall k, we_read env k = Ok (Some (data (account w' k)))) ->
  exists σ' was', represents σ' w' /\ borrowed w' = ∅ /\ cells_ok σ' (4 * (room - count)) was' /\
    check_final_state (Error := Error) redline pdas (we_read env) shape cursor (Z.to_nat count) = Some (Ok []).
Proof.
  intros Hc Hn Hu Hp Ho Hw Hb Hok w' Hread. assert (Hlen : Z.of_nat (length landed) = count) by (rewrite Hp, length_seqZ; lia).
  destruct (land_ids landed w σ (4 * (room - count)) was) as (σ' & (w2 & E2 & R2 & F2 & _) & Hok').
  - apply Forall_forall. intros id Hid. rewrite Hp in Hid. apply elem_of_seqZ in Hid. unfold is_u. change (2 ^ 64) with u64_bound. lia.
  - lia.
  - done.
  - done.
  - by replace (4 * (room - count) + 4 * Z.of_nat (length landed)) with (4 * room) by lia.
  - assert (w2 = w') as -> by (subst w'; by rewrite E2). exists σ', (after landed was).
    split_and!; [done|by rewrite (proj1 F2)|done|]. unfold check_final_state. apply check_accounts_ok, Forall_forall. intros k Hk.
    eapply (check_account_ok _ σ' w'); [done|done|done|done| |done]. intros id. rewrite Z2Nat.id by lia.
    rewrite <- (last_landed_order landed) by done. unfold after. by intros ->.
Qed.

(** C36: The transaction load predicts the state it leaves, window after window. Let the ids of
    every window land in any order that keeps each account's own writes in order; then no read of any
    window finds an account other than its last id left it, nothing panics, the windows cover
    consecutive ids and their counts add up, and the run ends once the windows that were met took as
    long as it was given. *)
Theorem transaction_load_is_verified envs s w σ room :
  0 <= rs_cursor s -> 0 <= room -> represents σ w -> borrowed w = ∅ -> cells_ok σ (4 * room) (fun _ => None) ->
  lands envs (rs_remaining s) (rs_cursor s) w room ->
  exists e s', run_windows redline compute_budget pdas senders overflow profile mode shape envs s = Some (e, s') /\
    (forall m, FinalState m ∈ rs_misses s' -> FinalState m ∈ rs_misses s) /\
    rs_cursor s' - rs_cursor s = rs_delivered s' - rs_delivered s /\
    (forall d, 0 < d -> rs_remaining s <= d * Z.of_nat (length envs) -> 0 <= rs_remaining s ->
      (forall env from left m found, env ∈ envs -> measured from left env = Ok (m, found) -> d <= admission_wall (me_outcome m)) -> e <> Running).
Proof.
  intros Hc Hroom Hw Hb Hok. cut (exists was, cells_ok σ (4 * room) was); [clear Hok; intros [was Hok]|by eexists].
  revert s w σ room was Hc Hroom Hw Hb Hok. induction envs as [|env envs IH]; intros s w σ room was Hc Hroom Hw Hb Hok Hl; cbn [run_windows].
  - destruct (Z.eqb_spec (rs_remaining s) 0) as [H0|H0]; eexists _, s; (split_and!; [done|done|lia|]); [done|].
    intros d Hd Hle Hge. cbn in Hle. lia.
  - destruct (Z.eqb_spec (rs_remaining s) 0) as [H0|H0]; [eexists _, s; split_and!; [done|done|lia|done]|].
    destruct (we_stopped env); [eexists _, s; split_and!; [done|done|lia|done]|].
    destruct (measured (rs_cursor s) (rs_remaining s) env) as [[m found]|e] eqn:Em; [|eexists _, s; split_and!; [done|done|lia|done]].
    destruct (Hl m found Em) as (Hcnt & Hu & Hland). cbn [note_misses rs_cursor rs_remaining].
    assert (Hfound : forall x, FinalState x ∉ found) by by eapply measure_found.
    destruct (Z.eqb_spec (delivered (me_outcome m)) 0) as [Hz|Hz].
    + eexists _, _. split_and!; [done| |cbn; lia|done]. intros x [Hx|Hx]%elem_of_app; [done|]. by destruct (Hfound x).
    + destruct Hland as (landed & Hp & Ho & Hread & Hrest); [lia|].
      destruct (window_verified landed (rs_cursor s) (delivered (me_outcome m)) w σ room was env) as (σ' & was' & Hw' & Hb' & Hok' & Hcheck);
        [done|lia|done..|].
      rewrite Hcheck. cbn [mbind option_bind].
      destruct (IH (next_state profile mode m (FinalState <$> []) (note_misses found s)) (for_each land_load landed w).2 σ' (room - delivered (me_outcome m)) was')
        as (e & s' & Hrun & Hmiss & Hcur & Hend); [cbn; lia|lia|done|done|done|done|].
      exists e, s'. cbn in Hmiss, Hcur, Hend. split_and!; [done| |lia|].
      * intros x Hx. specialize (Hmiss x Hx). rewrite app_nil_r in Hmiss. apply elem_of_app in Hmiss as [Hin|Hin]; [done|]. by destruct (Hfound x).
      * intros d Hd Hle Hge Hwin. pose proof (Hwin env _ _ m found ltac:(set_solver) Em) as Hwall.
        apply (Hend d Hd); unfold saturating_sub; [cbn in Hle; lia|lia|]. intros env' from left m' found' Hin. apply Hwin. set_solver.
Qed.
End windows.
End load.

(** ** Two windows over three accounts *)

Definition load_outcome (n : Z) : RunOutcome ObservationsStats :=
  mkOutcome n 0 None ObservationsStats_default ObservationsStats_default EmptyString None Unlimited ObservationsStats_default 10 10.

Definition load_env (n : Z) (w : World) : WindowEnv unit :=
  mkWindowEnv false (Ok tt) 0 1000 (Ok ∅) (fun _ _ => Ok (load_outcome n)) (Ok tt) (Ok ∅)
    (mkUpdateOutcome ObservationsStats_default n 0) (mkSignatureOutcome ObservationsStats_default n 0 None 0)
    (fun k => Ok (Some (data (account w k)))).

Definition load_world1 : World := (for_each (land_load 42 77 [11; 12; 13] ShapeWrite) [7; 5; 6] mixed_world).2.
Definition load_world2 : World := (for_each (land_load 42 77 [11; 12; 13] ShapeWrite) [9; 8] load_world1).2.

Lemma load_order ids :
  Forall (fun k => StronglySorted Z.le (filter (fun id => writes 42 [11; 12; 13] ShapeWrite k id) ids)) [11; 12; 13] ->
  in_order 42 [11; 12; 13] ShapeWrite ids.
Proof. intros Hall k Hk. by eapply Forall_forall in Hall. Qed.

Lemma transaction_load_is_verified_witness :
  exists e s', run_windows 42 77 [11; 12; 13] 2 tt WRITE OpenLoop ShapeWrite [load_env 3 load_world1; load_env 2 load_world2] (run_start WRITE 20)
      = Some (e, s') /\
    (forall m, FinalState m ∉ rs_misses s') /\ rs_cursor s' = 4 + rs_delivered s' /\ e <> Running.
Proof.
  destruct (transaction_load_is_verified 42 77 [11; 12; 13] ShapeWrite ltac:(done) ltac:(done) tt WRITE OpenLoop 2
    [load_env 3 load_world1; load_env 2 load_world2] (run_start WRITE 20) mixed_world mixed_state 10) as (e & s' & Hrun & Hm & Hc & Hend).
  - done.
  - done.
  - exact mixed_represents.
  - done.
  - intros k Hk. repeat (apply elem_of_cons in Hk as [->|Hk]; [eexists _, _; split_and!; [by vm_compute|cbn; lia|by vm_compute|done]|]).
    by apply not_elem_of_nil in Hk.
  - intros m found [= <- <-]. cbn [delivered me_outcome load_outcome]. split; [lia|]. split; [by vm_compute|]. intros _. exists [7; 5; 6].
    split; [vm_compute; solve_Permutation|]. split; [apply load_order; vm_compute; repeat constructor; lia|]. split; [done|].
    intros m found [= <- <-]. cbn [delivered me_outcome load_outcome]. split; [lia|]. split; [by vm_compute|]. intros _. exists [9; 8].
    split; [vm_compute; solve_Permutation|]. split; [apply load_order; vm_compute; repeat constructor; lia|]. done.
  - exists e, s'. split; [exact Hrun|]. split_and!.
    + intros m Hin%Hm. by apply not_elem_of_nil in Hin.
    + cbn in Hc. lia.
    + apply (Hend 10); [lia|cbn; lia|cbn; lia|]. intros env from left m found Hin.
      repeat (apply elem_of_cons in Hin as [->|Hin];
        [unfold measure; cbn -[Z.add Z.leb]; destruct (_ <=? _); [|done]; cbn; intros [= <- <-]; cbn; lia|]). by apply not_elem_of_nil in Hin.
Defined.
