(* ===== verification/Spl.v ===== *)
(** Tokens: [redshift/src/scenarios/chainlink/spl.rs], the instructions of the token, associated-token and
    ephemeral-token programs that the scenarios send, and what they read from token accounts.

    The programs' addresses and the builders of the ephemeral-rollups SDK are the class [EsplSdk]. *)
From S2P Require Import Prelude World Cell Instr Prep.

#[local] Open Scope Z_scope.
#[local] Open Scope list_scope.

(** [Pubkey::new_from_array] *)
Definition pubkey_of (bytes : list Z) : Pubkey := le_val (reverse bytes).

Class EsplSdk := {
  TOKEN_PROGRAM_ID : Pubkey;
  ASSOCIATED_TOKEN_PROGRAM_ID : Pubkey;
  ESPL_TOKEN_PROGRAM_ID : Pubkey;
  MAGIC_PROGRAM_ID : Pubkey;
  RENT_SYSVAR_ID : Pubkey;
  (** payer, mint *)
  InitializeGlobalVaultBuilder : Pubkey -> Pubkey -> SolInstruction;
  (** payer, user, mint *)
  InitializeEphemeralAtaBuilder : Pubkey -> Pubkey -> Pubkey -> SolInstruction;
  (** authority, user, mint, amount *)
  DepositSplTokensBuilder : Pubkey -> Pubkey -> Pubkey -> Z -> SolInstruction;
  (** payer, user, mint, validator *)
  DelegateEphemeralAtaBuilder : Pubkey -> Pubkey -> Pubkey -> option Pubkey -> SolInstruction;
  (** payer, user, mint *)
  UndelegateEphemeralAtaBuilder : Pubkey -> Pubkey -> Pubkey -> SolInstruction }.

Definition MINT_LEN : Z := 82.
Definition MINT_RENT : Z := 2000000.
Definition TOKEN_ACCOUNT_LEN : nat := 165.
Definition MINT_OFFSET : nat := 0.
Definition OWNER_OFFSET : nat := 32.
Definition TOKEN_AMOUNT_OFFSET : nat := 64.
Definition DELEGATE_OFFSET : nat := 72.
Definition DELEGATED_AMOUNT_OFFSET : nat := 121.

(** * Reading token accounts *)

(** [data.get(a..b)] *)
Definition get_range (a b : nat) (d : list Z) : option (list Z) :=
  if (a <=? b)%nat && (b <=? length d)%nat then Some (take (b - a) (drop a d)) else None.

(** [data.get(a..)?.first_chunk()?] *)
Definition first_chunk (a n : nat) (d : list Z) : option (list Z) :=
  if (a <=? length d)%nat && (n <=? length (drop a d))%nat then Some (take n (drop a d)) else None.

Section read.
Context `{E : EsplSdk}.

Definition is_magic_ata (d : list Z) : bool :=
  bool_decide (get_range 129 133 d = Some (le_bytes 4 1)) && bool_decide (get_range 133 165 d = Some (pubkey_bytes RENT_SYSVAR_ID)).
End read.

Definition approval (d : list Z) : option (Pubkey * Z) :=
  if negb (bool_decide (get_range DELEGATE_OFFSET (DELEGATE_OFFSET + 4) d = Some (le_bytes 4 1))) then None
  else
    delegate ← first_chunk (DELEGATE_OFFSET + 4) 32 d;
    amount ← first_chunk DELEGATED_AMOUNT_OFFSET 8 d;
    Some (pubkey_of delegate, le_val amount).

Definition account_balance (d : list Z) : option Z := le_val <$> first_chunk TOKEN_AMOUNT_OFFSET 8 d.

(** [token_balance]: no account and an account that is too short are both [None]. *)
Definition token_balance {Error} (read : Result (option (list Z)) Error) : Result (option Z) Error :=
  let? account := read in Ok (account ≫= account_balance).

(** * Instructions *)

Section instructions.
Context `{R : Runtime, E : EsplSdk}.

Definition token_program : Pubkey := TOKEN_PROGRAM_ID.
Definition ata_program : Pubkey := ASSOCIATED_TOKEN_PROGRAM_ID.
Definition eata_program : Pubkey := ESPL_TOKEN_PROGRAM_ID.

Definition derive_eata (owner mint : Pubkey) : Pubkey :=
  (find_program_address [pubkey_bytes owner; pubkey_bytes mint] eata_program).1.
Definition derive_global_vault (mint : Pubkey) : Pubkey := (find_program_address [pubkey_bytes mint] eata_program).1.
Definition derive_ata (owner mint : Pubkey) : Pubkey :=
  (find_program_address [pubkey_bytes owner; pubkey_bytes token_program; pubkey_bytes mint] ata_program).1.

Definition ensure_magic_ata (payer owner mint : Pubkey) : SolInstruction :=
  mkIx eata_program
    [meta_new_readonly payer true; meta_new_readonly owner false; meta_new (derive_ata owner mint) false;
     meta_new_readonly mint false; meta_new_readonly token_program false; meta_new_readonly MAGIC_PROGRAM_ID false] [36].

Definition close_magic_ata (owner mint : Pubkey) : SolInstruction :=
  mkIx MAGIC_PROGRAM_ID [meta_new_readonly owner true; meta_new (derive_ata owner mint) false] (le_bytes 4 26).

Definition allocate_mint (payer mint : Pubkey) : SolInstruction :=
  system_create_account payer mint MINT_RENT MINT_LEN (pubkey_bytes token_program).

Definition initialize_mint (mint authority : Pubkey) : SolInstruction :=
  mkIx token_program [meta_new mint false] ([20; 0] ++ pubkey_bytes authority ++ [1] ++ pubkey_bytes authority).

Definition create_ata_idempotent (funder owner mint : Pubkey) : SolInstruction :=
  mkIx ata_program
    [meta_new funder true; meta_new (derive_ata owner mint) false; meta_new_readonly owner false; meta_new_readonly mint false;
     meta_new_readonly system_program_id false; meta_new_readonly token_program false] [1].

Definition mint_to (mint destination authority : Pubkey) (amount : Z) : SolInstruction :=
  mkIx token_program [meta_new mint false; meta_new destination false; meta_new_readonly authority true] (7 :: le_bytes 8 amount).

Definition transfer (source destination authority : Pubkey) (amount : Z) : SolInstruction :=
  mkIx token_program [meta_new source false; meta_new destination false; meta_new_readonly authority true] (3 :: le_bytes 8 amount).

Definition approve (source delegate owner : Pubkey) (amount : Z) : SolInstruction :=
  mkIx token_program [meta_new source false; meta_new_readonly delegate false; meta_new_readonly owner true] (4 :: le_bytes 8 amount).

Definition revoke (source owner : Pubkey) : SolInstruction :=
  mkIx token_program [meta_new source false; meta_new_readonly owner true] [5].

Definition freeze_account (account mint authority : Pubkey) : SolInstruction :=
  mkIx token_program [meta_new account false; meta_new_readonly mint false; meta_new_readonly authority true] [10].

Definition initialize_global_vault (payer mint : Pubkey) : SolInstruction := InitializeGlobalVaultBuilder payer mint.
Definition initialize_eata (payer user mint : Pubkey) : SolInstruction := InitializeEphemeralAtaBuilder payer user mint.
Definition deposit_spl_tokens (user mint : Pubkey) (amount : Z) : SolInstruction := DepositSplTokensBuilder user user mint amount.

Definition withdraw_spl_tokens (user mint : Pubkey) (amount : Z) : SolInstruction :=
  let vault := derive_global_vault mint in
  mkIx eata_program
    [meta_new_readonly user true; meta_new (derive_eata user mint) false; meta_new_readonly vault false; meta_new_readonly mint false;
     meta_new (derive_ata vault mint) false; meta_new (derive_ata user mint) false; meta_new_readonly token_program false]
    (3 :: le_bytes 8 amount).

Definition delegate_eata (payer user mint validator : Pubkey) : SolInstruction :=
  DelegateEphemeralAtaBuilder payer user mint (Some validator).
End instructions.
