(* ===== verification/TokenViews.v ===== *)
(** Token views: [redshift/src/scenarios/aperture/token_rpc_views.rs].

    The scenario prepares token accounts of contrasting roles and compares what the RPC methods for
    tokens say of them with what it knows.  The RPC node is the record [TokenRpc]; base64 and base58
    are arguments. *)
From Stdlib Require Import String.
From S2P Require Import Prelude World Cell Instr Text Float64 Receipt Spl.

#[local] Open Scope string_scope.
#[local] Open Scope Z_scope.
#[local] Open Scope list_scope.

Definition AIRDROP : Z := 2000000000.
Definition OWNER_A_BALANCE : Z := 500.
Definition OWNER_B_BALANCE : Z := 300.
Definition OTHER_MINT_BALANCE : Z := 70.
Definition UNRELATED_BALANCE : Z := 40.
Definition DELEGATED_AMOUNT : Z := 200.
Definition BURST_DEADLINE : Duration := 20 * NANOS_PER_SEC.
Definition NEGATIVE_DEADLINE : Duration := 5 * NANOS_PER_SEC.

Record Fixture := mkFixture
  { fx_mint : Pubkey; fx_other_mint : Pubkey; fx_owner_a : Pubkey; fx_owner_b : Pubkey; fx_delegate : Pubkey; fx_unrelated_owner : Pubkey;
    fx_ata_a : Pubkey; fx_ata_b : Pubkey; fx_ata_a_other : Pubkey; fx_ata_unrelated : Pubkey }.

Inductive Query :=
| ProgramAccountsByMint | ProgramAccountsByOwner | BalanceA | BalanceB | OwnerAByMint | OwnerAByProgram | OwnerBByMint
| DelegateByMint | DelegateByProgram | UnrelatedOwnerByMint.

#[export] Instance Query_eq_dec : EqDecision Query.
Proof. solve_decision. Defined.

Definition CYCLE : list Query :=
  [ProgramAccountsByMint; ProgramAccountsByOwner; BalanceA; BalanceB; OwnerAByMint; OwnerAByProgram; OwnerBByMint; DelegateByMint;
   DelegateByProgram; UnrelatedOwnerByMint].

(** * What the node returns *)

(** [serde_json::Value], as far as it is looked into. *)
Inductive Json := JString (s : string) | JObject (fields : list (string * Json)) | JOther.

(** [value.get(key)] *)
Definition json_get (key : string) (v : Json) : option Json :=
  match v with
  | JObject fields => snd <$> find (fun '(k, _) => (k =? key)%string) fields
  | _ => None
  end.

Definition json_str (v : Json) : option string := match v with JString s => Some s | _ => None end.

Inductive UiEncoding := Base64Encoding | OtherEncoding.
Inductive UiAccountData := UiJson (program : string) (parsed : Json) | UiBinary (data : string) (encoding : UiEncoding) | UiLegacy (data : string).
Record UiAccount := mkUi { ui_owner : string; ui_data : UiAccountData }.
Record RpcKeyedAccount := mkKeyed { ka_pubkey : string; ka_account : UiAccount }.

Inductive TokenFilter := FilterMint (mint : string) | FilterProgramId (program : string).
Inductive RpcFilterType := DataSize (n : nat) | Memcmp (offset : nat) (bytes : list Z).

Inductive ViewError :=
| RpcFailed | DeadlineExceeded | BadBase64 | NotBase64 | NotToken | BadLength | BadEncoding
| WrongProgramOwner | WrongMint | WrongOwner | WrongAmount | WrongDelegate | WrongAllowance | UnexpectedDelegate
| WrongKeys | WrongBalance | WrongDecimals | NotRejected | WrongRejection.

(** [getProgramAccounts], [getTokenAccountBalance] (amount and decimals), [getTokenAccountsByOwner] and
    [getTokenAccountsByDelegate]; the last two ask for parsed data. *)
Record TokenRpc := mkTokenRpc
  { tr_program_accounts : string -> list RpcFilterType -> Result (list RpcKeyedAccount) ViewError;
    tr_balance : string -> Result (string * Z) ViewError;
    tr_by_owner : string -> TokenFilter -> Result (list RpcKeyedAccount) ViewError;
    tr_by_delegate : string -> TokenFilter -> Result (list RpcKeyedAccount) ViewError }.

(** * Reading an account *)

Definition keys (accounts : list RpcKeyedAccount) : gset string := list_to_set (ka_pubkey <$> accounts).

Definition read_pubkey (data : list Z) (offset : nat) : option Pubkey := pubkey_of <$> get_range offset (offset + 32) data.
Definition read_u64 (data : list Z) (offset : nat) : option Z := le_val <$> get_range offset (offset + 8) data.

Fixpoint parsed_value (info : Json) (path : list string) : option Json :=
  match path with
  | [] => Some info
  | key :: path => value ← json_get key info; parsed_value value path
  end.
Definition parsed_str (info : Json) (path : list string) : option string := parsed_value info path ≫= json_str.

Record TokenView := mkTokenView
  { tv_encoding : string; tv_mint : option Pubkey; tv_owner : option Pubkey; tv_amount : option Z; tv_delegate : option Pubkey;
    tv_delegated_amount : option Z }.

Section views.
Context `{R : Runtime, E : EsplSdk, B : Base58} (base64_decode : string -> option (list Z)).

Definition expected (pubkeys : list Pubkey) : gset string := list_to_set (pubkey_to_string <$> pubkeys).

Definition raw_data (account : UiAccount) : Result (list Z) ViewError :=
  match ui_data account with
  | UiBinary data Base64Encoding => ok_or (base64_decode data) BadBase64
  | _ => Err NotBase64
  end.

Definition token_view (account : UiAccount) : Result TokenView ViewError :=
  match ui_data account with
  | UiJson program parsed =>
      ensure! (program =? "spl-token")%string else NotToken in
      let info := default JOther (json_get "info" parsed) in
      let key path := parsed_str info path ≫= pubkey_from_str in
      let amount path := parsed_str info path ≫= parse_u64 in
      Ok (mkTokenView "jsonParsed" (key ["mint"]) (key ["owner"]) (amount ["tokenAmount"; "amount"]) (key ["delegate"])
            (amount ["delegatedAmount"; "amount"]))
  | UiBinary _ Base64Encoding =>
      let? data := raw_data account in
      ensure! (length data =? TOKEN_ACCOUNT_LEN)%nat else BadLength in
      let a := approval data in
      Ok (mkTokenView "base64" (read_pubkey data MINT_OFFSET) (read_pubkey data OWNER_OFFSET) (read_u64 data 64) (fst <$> a) (snd <$> a))
  | _ => Err BadEncoding
  end.

Definition check_token_account (entry : RpcKeyedAccount) (mint owner : Pubkey) (amount : Z) (delegate : option (Pubkey * Z)) :
    Result string ViewError :=
  let? view := token_view (ka_account entry) in
  ensure! (ui_owner (ka_account entry) =? pubkey_to_string token_program)%string else WrongProgramOwner in
  ensure! bool_decide (tv_mint view = Some mint) else WrongMint in
  ensure! bool_decide (tv_owner view = Some owner) else WrongOwner in
  ensure! bool_decide (tv_amount view = Some amount) else WrongAmount in
  match delegate with
  | Some (delegate, delegated_amount) =>
      ensure! bool_decide (tv_delegate view = Some delegate) else WrongDelegate in
      ensure! bool_decide (tv_delegated_amount view = Some delegated_amount) else WrongAllowance in
      Ok (tv_encoding view)
  | None =>
      ensure! bool_decide (tv_delegate view = None) else UnexpectedDelegate in
      Ok (tv_encoding view)
  end.

(** * The queries *)

Context (rpc : TokenRpc) (f : Fixture).

Fixpoint check_all {A} (check : A -> Result unit ViewError) (l : list A) : Result unit ViewError :=
  match l with
  | [] => Ok tt
  | x :: l => let? _ := check x in check_all check l
  end.

Definition the_approval : option (Pubkey * Z) := Some (fx_delegate f, DELEGATED_AMOUNT).

(** What is known of an account found by its mint. *)
Definition program_entry (entry : RpcKeyedAccount) : Result unit ViewError :=
  let '(owner, amount, delegate) :=
    if (ka_pubkey entry =? pubkey_to_string (fx_ata_a f))%string then (fx_owner_a f, OWNER_A_BALANCE, the_approval)
    else (fx_owner_b f, OWNER_B_BALANCE, None) in
  let? encoding := check_token_account entry (fx_mint f) owner amount delegate in
  ensure! (encoding =? "base64")%string else BadEncoding in Ok tt.

(** What is known of an account found by its owner. *)
Definition owner_entry (owner : Pubkey) (entry : RpcKeyedAccount) : Result unit ViewError :=
  let '(mint, amount, delegate) :=
    if (ka_pubkey entry =? pubkey_to_string (fx_ata_a f))%string then (fx_mint f, OWNER_A_BALANCE, the_approval)
    else if (ka_pubkey entry =? pubkey_to_string (fx_ata_b f))%string then (fx_mint f, OWNER_B_BALANCE, None)
    else (fx_other_mint f, OTHER_MINT_BALANCE, None) in
  let? _ := check_token_account entry mint owner amount delegate in Ok tt.

Definition program_query (offset : nat) (key : Pubkey) (wanted : list Pubkey) : Result (list RpcKeyedAccount) ViewError :=
  let? accounts := tr_program_accounts rpc (pubkey_to_string token_program) [DataSize TOKEN_ACCOUNT_LEN; Memcmp offset (pubkey_bytes key)] in
  ensure! bool_decide (keys accounts = expected wanted) else WrongKeys in Ok accounts.

Definition balance_query (ata : Pubkey) (amount : Z) : Result unit ViewError :=
  let? balance := tr_balance rpc (pubkey_to_string ata) in
  ensure! (balance.1 =? show_u64 amount)%string else WrongBalance in
  ensure! (balance.2 =? 0) else WrongDecimals in Ok tt.

Definition owner_query (owner : Pubkey) (filter : TokenFilter) (wanted : list Pubkey) : Result unit ViewError :=
  let? accounts := tr_by_owner rpc (pubkey_to_string owner) filter in
  ensure! bool_decide (keys accounts = expected wanted) else WrongKeys in
  check_all (owner_entry owner) accounts.

(** [None] is the panic of [accounts[0]]. *)
Definition delegate_query (filter : TokenFilter) : option (Result unit ViewError) :=
  match tr_by_delegate rpc (pubkey_to_string (fx_delegate f)) filter with
  | Err e => Some (Err e)
  | Ok accounts =>
      if bool_decide (keys accounts = expected [fx_ata_a f]) then
        first ← head accounts;
        Some (let? _ := check_token_account first (fx_mint f) (fx_owner_a f) OWNER_A_BALANCE the_approval in Ok tt)
      else Some (Err WrongKeys)
  end.

Definition by_mint : TokenFilter := FilterMint (pubkey_to_string (fx_mint f)).
Definition by_program : TokenFilter := FilterProgramId (pubkey_to_string token_program).

Definition run_query (q : Query) : option (Result unit ViewError) :=
  match q with
  | ProgramAccountsByMint =>
      Some (let? accounts := program_query MINT_OFFSET (fx_mint f) [fx_ata_a f; fx_ata_b f] in check_all program_entry accounts)
  | ProgramAccountsByOwner =>
      Some (let? _ := program_query OWNER_OFFSET (fx_owner_a f) [fx_ata_a f; fx_ata_a_other f] in Ok tt)
  | BalanceA => Some (balance_query (fx_ata_a f) OWNER_A_BALANCE)
  | BalanceB => Some (balance_query (fx_ata_b f) OWNER_B_BALANCE)
  | OwnerAByMint => Some (owner_query (fx_owner_a f) by_mint [fx_ata_a f])
  | OwnerAByProgram => Some (owner_query (fx_owner_a f) by_program [fx_ata_a f; fx_ata_a_other f])
  | OwnerBByMint => Some (owner_query (fx_owner_b f) by_mint [fx_ata_b f])
  | UnrelatedOwnerByMint => Some (owner_query (fx_unrelated_owner f) by_mint [])
  | DelegateByMint => delegate_query by_mint
  | DelegateByProgram => delegate_query by_program
  end.

(** The reads run at the same time and are judged in the order of the cycle, when all are there in
    time. *)
Definition check_reads (elapsed : Duration) : option (Result unit ViewError) :=
  outcomes ← mapM run_query CYCLE;
  Some (ensure! elapsed <? BURST_DEADLINE else DeadlineExceeded in check_all (fun outcome => outcome) outcomes).

(** * Refusals *)

(** What [try_call] gave within the deadline: an outer failure, a refusal with its code and message, or
    an answer. *)
Inductive TryAnswer := TryTimeout | TryFailed | TryRefused (code : Z) (message : string) | TryAnswered.

Definition expect_rejection (needles : list string) (answer : TryAnswer) : Result unit ViewError :=
  match answer with
  | TryTimeout => Err DeadlineExceeded
  | TryFailed => Err RpcFailed
  | TryAnswered => Err NotRejected
  | TryRefused code message =>
      ensure! (code =? -32602) && existsb (fun needle => contains needle message) needles else WrongRejection in Ok tt
  end.

Inductive InvalidCall :=
| OwnerMissingMint (owner mint : string) | OwnerBogusProgram (owner program : string) | DelegateMissingMint (delegate mint : string)
| BalanceMissing (account : string).

Definition check_invalid_filters (missing_mint bogus_program : Pubkey) (ask : InvalidCall -> TryAnswer) : Result unit ViewError :=
  let missing := pubkey_to_string missing_mint in
  let owner := pubkey_to_string (fx_owner_a f) in
  let? _ := expect_rejection ["mint account not found"] (ask (OwnerMissingMint owner missing)) in
  let? _ := expect_rejection ["unknown token program id"] (ask (OwnerBogusProgram owner (pubkey_to_string bogus_program))) in
  let? _ := expect_rejection ["mint account not found"] (ask (DelegateMissingMint (pubkey_to_string (fx_delegate f)) missing)) in
  expect_rejection ["token account not found"; "not a token account"] (ask (BalanceMissing missing)).

Definition views_run (elapsed : Duration) (missing_mint bogus_program : Pubkey) (ask : InvalidCall -> TryAnswer) : option (Result unit ViewError) :=
  reads ← check_reads elapsed;
  Some (let? _ := reads in check_invalid_filters missing_mint bogus_program ask).
End views.

(** * Preparing the accounts *)

Section setup.
Context `{R : Runtime, E : EsplSdk}.

Definition new_fixture (mint other_mint owner_a owner_b delegate unrelated_owner : Pubkey) : Fixture :=
  mkFixture mint other_mint owner_a owner_b delegate unrelated_owner
    (derive_ata owner_a mint) (derive_ata owner_b mint) (derive_ata owner_a other_mint) (derive_ata unrelated_owner mint).

(** The transactions of the setup on the base chain, in order, each with its signers beside the payer,
    and the one on the ER. *)
Definition setup_base (f : Fixture) (payer validator : Pubkey) : list (list Pubkey * list SolInstruction) :=
  let create owner mint := create_ata_idempotent payer owner mint in
  [([fx_mint f; fx_other_mint f; fx_owner_a f],
    [allocate_mint payer (fx_mint f); initialize_mint (fx_mint f) (fx_owner_a f);
     allocate_mint payer (fx_other_mint f); initialize_mint (fx_other_mint f) (fx_owner_a f);
     create (fx_owner_a f) (fx_mint f); create (fx_owner_b f) (fx_mint f); create (fx_owner_a f) (fx_other_mint f);
     create (fx_unrelated_owner f) (fx_mint f);
     mint_to (fx_mint f) (fx_ata_a f) (fx_owner_a f) OWNER_A_BALANCE;
     mint_to (fx_mint f) (fx_ata_b f) (fx_owner_a f) OWNER_B_BALANCE;
     mint_to (fx_other_mint f) (fx_ata_a_other f) (fx_owner_a f) OTHER_MINT_BALANCE;
     mint_to (fx_mint f) (fx_ata_unrelated f) (fx_owner_a f) UNRELATED_BALANCE]);
   ([], [initialize_global_vault payer (fx_mint f); initialize_eata payer (fx_owner_a f) (fx_mint f);
         initialize_eata payer (fx_owner_b f) (fx_mint f)]);
   ([fx_owner_a f; fx_owner_b f],
    [deposit_spl_tokens (fx_owner_a f) (fx_mint f) OWNER_A_BALANCE; deposit_spl_tokens (fx_owner_b f) (fx_mint f) OWNER_B_BALANCE]);
   ([], [delegate_eata payer (fx_owner_a f) (fx_mint f) validator; delegate_eata payer (fx_owner_b f) (fx_mint f) validator])].

Definition setup_er (f : Fixture) : list SolInstruction := [approve (fx_ata_a f) (fx_delegate f) (fx_owner_a f) DELEGATED_AMOUNT].

(** The condition the setup waits for, on the two mints and the three token accounts. *)
Definition materialized (accounts : list (option (list Z))) : bool :=
  forallb (fun a => bool_decide (is_Some a)) (take 2 accounts) &&
  forallb (fun '(a, amount) => match a with Some d => bool_decide (account_balance d = Some amount) | None => false end)
    (zip (drop 2 accounts) [OWNER_A_BALANCE; OWNER_B_BALANCE; OTHER_MINT_BALANCE]).
End setup.
