(* ===== verification/TokenViewsProps.v ===== *)
(** Token views: both wire encodings of a token account are read alike, and the burst of reads is
    accepted exactly when the node holds the accounts the scenario prepared and no others like them. *)
From Stdlib Require Import String Ascii.
From S2P Require Import Prelude World Cell Instr Text Float64 RefCodec Receipt ReceiptProps Spl TokenViews.

#[local] Open Scope string_scope.
#[local] Open Scope Z_scope.
#[local] Open Scope list_scope.

(** * Token accounts *)

Record Token := mkToken { tk_mint : Pubkey; tk_owner : Pubkey; tk_amount : Z; tk_delegate : option (Pubkey * Z) }.

#[export] Instance Token_eq_dec : EqDecision Token.
Proof. solve_decision. Defined.

Definition token_wf (t : Token) : Prop :=
  is_u 256 (tk_mint t) /\ is_u 256 (tk_owner t) /\ is_u 64 (tk_amount t) /\
  match tk_delegate t with Some (k, a) => is_u 256 k /\ is_u 64 a | None => True end.

(** The layout of an SPL token account: [s] are its state and native reserve, [c] its close authority. *)
Definition token_bytes (s c : list Z) (t : Token) : list Z :=
  pubkey_bytes (tk_mint t) ++ pubkey_bytes (tk_owner t) ++ le_bytes 8 (tk_amount t) ++
  match tk_delegate t with
  | Some (k, _) => le_bytes 4 1 ++ pubkey_bytes k
  | None => le_bytes 4 0 ++ replicate 32 0
  end ++ s ++ le_bytes 8 (match tk_delegate t with Some (_, a) => a | None => 0 end) ++ c.
Definition STATE_LEN : nat := 13.
Definition CLOSE_LEN : nat := 36.

Lemma length_pubkey_bytes k : length (pubkey_bytes k) = 32%nat.
Proof. unfold pubkey_bytes. by rewrite length_reverse, length_le_bytes. Qed.

Lemma pubkey_of_bytes k : is_u 256 k -> pubkey_of (pubkey_bytes k) = k.
Proof. intros Hk. unfold pubkey_of, pubkey_bytes. rewrite reverse_involutive. by apply le_val_bytes. Qed.

Lemma length_token_bytes s c t :
  length s = STATE_LEN -> length c = CLOSE_LEN -> length (token_bytes s c t) = TOKEN_ACCOUNT_LEN.
Proof.
  intros Hs Hc. unfold token_bytes. rewrite !length_app, Hs, Hc, !length_pubkey_bytes, !length_le_bytes.
  destruct (tk_delegate t) as [[k a]|]; rewrite length_app, ?length_pubkey_bytes, ?length_replicate, length_le_bytes; reflexivity.
Qed.

(** A field behind a prefix of known length. *)
Lemma take_drop_app (pre x post : list Z) n m :
  length pre = n -> length x = m -> take m (drop n (pre ++ x ++ post)) = x.
Proof. intros <- <-. by rewrite drop_app_length, take_app_length. Qed.

Lemma field_of (d pre x post : list Z) a b :
  d = pre ++ x ++ post -> length pre = a -> length x = (b - a)%nat -> (a <= b)%nat -> get_range a b d = Some x.
Proof.
  intros -> Hp Hx Hab. unfold get_range. rewrite (proj2 (Nat.leb_le _ _)) by done.
  rewrite (proj2 (Nat.leb_le _ _)) by (rewrite !length_app; lia). cbn [andb]. f_equal. by apply take_drop_app.
Qed.

Lemma first_chunk_range a n d : first_chunk a n d = get_range a (a + n) d.
Proof.
  unfold first_chunk, get_range. rewrite (proj2 (Nat.leb_le a (a + n))) by lia. cbn [andb]. replace (a + n - a)%nat with n by lia.
  rewrite length_drop. destruct (Nat.leb_spec a (length d)), (Nat.leb_spec n (length d - a)), (Nat.leb_spec (a + n) (length d)); cbn; done || lia.
Qed.

Section fields.
Context (s c : list Z) (t : Token).
Let pm := pubkey_bytes (tk_mint t).
Let po := pubkey_bytes (tk_owner t).
Let am := le_bytes 8 (tk_amount t).
Let tag := match tk_delegate t with Some (k, _) => le_bytes 4 1 | None => le_bytes 4 0 end.
Let dk := match tk_delegate t with Some (k, _) => pubkey_bytes k | None => replicate 32 0 end.
Let da := le_bytes 8 (match tk_delegate t with Some (_, a) => a | None => 0 end).

Lemma token_bytes_fields : token_bytes s c t = pm ++ po ++ am ++ tag ++ dk ++ s ++ da ++ c.
Proof. unfold token_bytes, pm, po, am, tag, dk, da. destruct (tk_delegate t) as [[k a]|]; by rewrite <- !app_assoc. Qed.

Lemma field_lengths :
  length pm = 32%nat /\ length po = 32%nat /\ length am = 8%nat /\ length tag = 4%nat /\ length dk = 32%nat /\ length da = 8%nat.
Proof.
  subst pm po am tag dk da. rewrite !length_pubkey_bytes, !length_le_bytes. by destruct (tk_delegate t) as [[k a]|]; rewrite ?length_le_bytes, ?length_pubkey_bytes.
Qed.

Ltac at_field := destruct field_lengths as (? & ? & ? & ? & ? & ?); rewrite token_bytes_fields.

Lemma mint_field : get_range 0 32 (token_bytes s c t) = Some pm.
Proof. at_field. by apply (field_of _ [] pm (po ++ am ++ tag ++ dk ++ s ++ da ++ c)); lia || done. Qed.

Lemma owner_field : get_range 32 64 (token_bytes s c t) = Some po.
Proof. at_field. apply (field_of _ pm po (am ++ tag ++ dk ++ s ++ da ++ c)); lia || done. Qed.

Lemma amount_field : get_range 64 72 (token_bytes s c t) = Some am.
Proof.
  at_field. apply (field_of _ (pm ++ po) am (tag ++ dk ++ s ++ da ++ c)); rewrite ?length_app;
    lia || by rewrite <- !app_assoc.
Qed.

Lemma tag_field : get_range 72 76 (token_bytes s c t) = Some tag.
Proof.
  at_field. apply (field_of _ (pm ++ po ++ am) tag (dk ++ s ++ da ++ c)); rewrite ?length_app;
    lia || by rewrite <- !app_assoc.
Qed.

Lemma delegate_field : get_range 76 108 (token_bytes s c t) = Some dk.
Proof.
  at_field. apply (field_of _ (pm ++ po ++ am ++ tag) dk (s ++ da ++ c)); rewrite ?length_app;
    lia || by rewrite <- !app_assoc.
Qed.

Lemma allowance_field : length s = STATE_LEN -> get_range 121 129 (token_bytes s c t) = Some da.
Proof.
  unfold STATE_LEN. intros Hs. at_field.
  apply (field_of _ (pm ++ po ++ am ++ tag ++ dk ++ s) da c);
    rewrite ?length_app; lia || by rewrite <- !app_assoc.
Qed.

End fields.

(** The readers of [spl.rs] find the fields of a token account. *)
Lemma approval_token s c t : length s = STATE_LEN -> token_wf t -> approval (token_bytes s c t) = tk_delegate t.
Proof.
  intros Hs (_ & _ & _ & Hd). unfold approval. rewrite !first_chunk_range. change (get_range DELEGATE_OFFSET _ _) with (get_range 72 76 (token_bytes s c t)).
  rewrite tag_field. destruct (tk_delegate t) as [[k a]|] eqn:Ed.
  - rewrite bool_decide_eq_true_2 by done. cbn [negb]. change (get_range (DELEGATE_OFFSET + 4) _ _) with (get_range 76 108 (token_bytes s c t)).
    change (get_range DELEGATED_AMOUNT_OFFSET _ _) with (get_range 121 129 (token_bytes s c t)). rewrite delegate_field, (allowance_field s c t Hs), Ed.
    cbn [mbind option_bind]. destruct Hd as [Hk Ha]. rewrite pubkey_of_bytes by done. by rewrite le_val_bytes.
  - rewrite bool_decide_eq_false_2; [done|]. intros [=].
Qed.

Lemma balance_token s c t : token_wf t -> account_balance (token_bytes s c t) = Some (tk_amount t).
Proof.
  intros (_ & _ & Ha & _). unfold account_balance. rewrite first_chunk_range.
  change (get_range TOKEN_AMOUNT_OFFSET _ _) with (get_range 64 72 (token_bytes s c t)). rewrite amount_field. cbn [fmap option_fmap option_map]. f_equal. by apply le_val_bytes.
Qed.

(** A key of an association list without duplicates has one value. *)
Lemma NoDup_fmap_fst_eq {A B} (l : list (A * B)) k x y : NoDup l.*1 -> (k, x) ∈ l -> (k, y) ∈ l -> x = y.
Proof.
  intros Hn (i & Hi)%list_elem_of_lookup_1 (j & Hj)%list_elem_of_lookup_1.
  assert (i = j) as ->; [|congruence]. eapply (NoDup_lookup l.*1); [done|rewrite list_lookup_fmap, Hi|rewrite list_lookup_fmap, Hj]; done.
Qed.

(** * A node with these accounts *)

(** How an answer shows an account: under which program, in which encoding. *)
Inductive Method := ByProgram | ByOwner | ByDelegate.
Inductive Wire := WParsed (program : string) | WBase64 | WBinary (data : string) | WLegacy (data : string).
Record Shown := mkShown { sh_owner : string; sh_wire : Wire }.

(** What an account has beside the fields that are read: its state and native reserve, its close
    authority, and their fields in [jsonParsed]. *)
Record Beside := mkBeside { bs_state : list Z; bs_close : list Z; bs_json : list (string * Json) }.

Definition beside_wf (x : Beside) : Prop :=
  length (bs_state x) = STATE_LEN /\ length (bs_close x) = CLOSE_LEN /\ Forall is_byte (bs_state x) /\ Forall is_byte (bs_close x) /\
  json_get "delegate" (JObject (bs_json x)) = None /\ json_get "delegatedAmount" (JObject (bs_json x)) = None.

(** The encodings the scenario reads. *)
Definition encoding_of (w : Wire) : option string :=
  match w with
  | WParsed program => if (program =? "spl-token")%string then Some "jsonParsed" else None
  | WBase64 => Some "base64"
  | _ => None
  end.

Section node.
Context `{R : Runtime, E : EsplSdk, B : Base58, !Base58Laws B}.
Context (base64_encode : list Z -> string) (base64_decode : string -> option (list Z)).
Hypothesis base64_back : forall d, Forall is_byte d -> base64_decode (base64_encode d) = Some d.
Context (present : Method -> Pubkey -> Shown) (beside : Pubkey -> Beside) (decimals : Pubkey -> Z).
Hypothesis besides_wf : forall k, beside_wf (beside k).

Definition amount_json (a : Z) : Json := JObject [("amount", JString (show_u64 a)); ("decimals", JOther)].

(** The fields of [jsonParsed]. *)
Definition token_json (k : Pubkey) (t : Token) : Json :=
  JObject [("type", JString "account");
    ("info", JObject ([("mint", JString (pubkey_to_string (tk_mint t))); ("owner", JString (pubkey_to_string (tk_owner t)));
       ("tokenAmount", amount_json (tk_amount t))] ++
       match tk_delegate t with
       | Some (k, a) => [("delegate", JString (pubkey_to_string k)); ("delegatedAmount", amount_json a)]
       | None => []
       end ++ bs_json (beside k)))].

Definition bytes_of (k : Pubkey) (t : Token) : list Z := token_bytes (bs_state (beside k)) (bs_close (beside k)) t.

Definition ui_of (m : Method) (k : Pubkey) (t : Token) : UiAccount :=
  mkUi (sh_owner (present m k))
    match sh_wire (present m k) with
    | WParsed program => UiJson program (token_json k t)
    | WBase64 => UiBinary (base64_encode (bytes_of k t)) Base64Encoding
    | WBinary data => UiBinary data OtherEncoding
    | WLegacy data => UiLegacy data
    end.

Definition keyed (m : Method) (e : Pubkey * Token) : RpcKeyedAccount := mkKeyed (pubkey_to_string e.1) (ui_of m e.1 e.2).

Definition view_of (encoding : string) (t : Token) : TokenView :=
  mkTokenView encoding (Some (tk_mint t)) (Some (tk_owner t)) (Some (tk_amount t)) (fst <$> tk_delegate t) (snd <$> tk_delegate t).

Lemma pubkey_bytes_bytes k : Forall is_byte (pubkey_bytes k).
Proof. unfold pubkey_bytes. apply Forall_reverse, le_bytes_bytes. Qed.

Lemma bytes_of_bytes k t : Forall is_byte (bytes_of k t).
Proof.
  destruct (besides_wf k) as (_ & _ & Hs & Hc & _). unfold bytes_of. rewrite token_bytes_fields.
  repeat (apply Forall_app; split); try apply pubkey_bytes_bytes; try apply le_bytes_bytes; try done.
  - destruct (tk_delegate t) as [[d a]|]; apply le_bytes_bytes.
  - destruct (tk_delegate t) as [[d a]|]; [apply pubkey_bytes_bytes|apply Forall_replicate; unfold is_byte; lia].
Qed.

Lemma parsed_view k t : token_wf t -> token_view base64_decode (mkUi EmptyString (UiJson "spl-token" (token_json k t))) = Ok (view_of "jsonParsed" t).
Proof.
  intros (Hm & Ho & Ha & Hd). destruct (besides_wf k) as (_ & _ & _ & _ & Hk & Hv). unfold token_view, view_of, token_json.
  cbn -[show_u64]. unfold parsed_str. cbn -[show_u64]. rewrite !pubkey_back by done. rewrite parse_show_u64 by done.
  destruct (tk_delegate t) as [[d a]|]; cbn -[show_u64].
  - destruct Hd. rewrite pubkey_back by done. by rewrite parse_show_u64.
  - cbn in Hk, Hv. by rewrite Hk, Hv.
Qed.

Lemma binary_view k t : token_wf t -> token_view base64_decode (mkUi EmptyString (UiBinary (base64_encode (bytes_of k t)) Base64Encoding)) = Ok (view_of "base64" t).
Proof.
  intros Hwf. pose proof Hwf as (Hm & Ho & Ha & Hd). destruct (besides_wf k) as (Hs & Hc & _). unfold token_view, raw_data. cbn [ui_data].
  rewrite base64_back by apply bytes_of_bytes. cbn [ok_or res_bind]. unfold bytes_of.
  rewrite length_token_bytes, Nat.eqb_refl by done. rewrite approval_token by done. unfold read_pubkey, read_u64.
  change (get_range MINT_OFFSET _ ?d) with (get_range 0 32 d). rewrite mint_field.
  change (get_range OWNER_OFFSET _ ?d) with (get_range 32 64 d). rewrite owner_field.
  change (get_range 64 _ ?d) with (get_range 64 72 d). rewrite amount_field.
  cbn [fmap option_fmap option_map]. rewrite !pubkey_of_bytes by done. by rewrite le_val_bytes.
Qed.

(** Both encodings of a token account are read alike, and no other. *)
Lemma token_view_of m k t :
  token_wf t ->
  match encoding_of (sh_wire (present m k)) with
  | Some e => token_view base64_decode (ui_of m k t) = Ok (view_of e t)
  | None => is_ok (token_view base64_decode (ui_of m k t)) = false
  end.
Proof.
  intros Hwf. unfold ui_of. destruct (sh_wire (present m k)) as [program| | |]; cbn [encoding_of].
  - destruct (String.eqb_spec program "spl-token") as [->|Hne]; [by apply parsed_view|].
    unfold token_view. cbn [ui_data]. by rewrite (proj2 (String.eqb_neq _ _) Hne).
  - by apply binary_view.
  - done.
  - done.
Qed.

Lemma ui_owner_of m k t : ui_owner (ui_of m k t) = sh_owner (present m k).
Proof. done. Qed.

(** An entry passes exactly when it is the token it should be, shown as a token account in an
    encoding that is read. *)
Lemma check_entry m k t mint owner amount delegate e :
  token_wf t ->
  check_token_account base64_decode (keyed m (k, t)) mint owner amount delegate = Ok e <->
  (sh_owner (present m k) = pubkey_to_string token_program /\ encoding_of (sh_wire (present m k)) = Some e) /\
  t = mkToken mint owner amount delegate.
Proof.
  intros Hwf. unfold check_token_account. cbn [ka_account keyed fst snd]. pose proof (token_view_of m k t Hwf) as Hv.
  rewrite ui_owner_of. destruct (encoding_of _) as [e'|]; [|destruct (token_view _ _); [done|]; cbn; split; [done|naive_solver]].
  rewrite Hv. cbn [res_bind view_of tv_mint tv_owner tv_amount tv_delegate tv_delegated_amount tv_encoding].
  destruct (String.eqb_spec (sh_owner (present m k)) (pubkey_to_string token_program)) as [Hp|Hp]; [|split; [done|naive_solver]].
  split.
  - intros H. destruct t as [m' o a d]. cbn [tk_mint tk_owner tk_amount tk_delegate] in *.
    destruct delegate as [[k' a']|], d as [[k0 a0]|]; cbn in H; repeat (case_bool_decide; [simplify_eq|done]); simplify_eq; done.
  - intros ([_ [= ->]] & ->). cbn [tk_mint tk_owner tk_amount tk_delegate]. rewrite !bool_decide_eq_true_2 by done.
    destruct delegate as [[k' a']|]; cbn; by rewrite ?bool_decide_eq_true_2.
Qed.

(** ** Its answers *)

Definition matches_filter (d : list Z) (flt : RpcFilterType) : bool :=
  match flt with
  | DataSize n => (length d =? n)%nat
  | Memcmp offset bytes => bool_decide (get_range offset (offset + length bytes) d = Some bytes)
  end.

Definition filter_ok (flt : TokenFilter) (t : Token) : bool :=
  match flt with
  | FilterMint m => (pubkey_to_string (tk_mint t) =? m)%string
  | FilterProgramId p => (p =? pubkey_to_string token_program)%string
  end.

Definition select (p : Token -> bool) (store : list (Pubkey * Token)) : list (Pubkey * Token) := filter (fun e => p e.2) store.

Definition delegate_of (t : Token) : option string := pubkey_to_string ∘ fst <$> tk_delegate t.

(** A node that holds these token accounts and selects among them as the methods document; how it
    shows them, and the decimals of a mint, are its own. *)
Definition node (store : list (Pubkey * Token)) : TokenRpc :=
  mkTokenRpc
    (fun program filters =>
       Ok (if (program =? pubkey_to_string token_program)%string
           then keyed ByProgram <$> filter (fun e => forallb (matches_filter (bytes_of e.1 e.2)) filters) store else []))
    (fun k => match find (fun e => (pubkey_to_string e.1 =? k)%string) store with
              | Some e => Ok (show_u64 (tk_amount e.2), decimals (tk_mint e.2))
              | None => Err RpcFailed
              end)
    (fun o flt => Ok (keyed ByOwner <$> select (fun t => (pubkey_to_string (tk_owner t) =? o)%string && filter_ok flt t) store))
    (fun d flt => Ok (keyed ByDelegate <$> select (fun t => bool_decide (delegate_of t = Some d) && filter_ok flt t) store)).

Context (store : list (Pubkey * Token)) (f : Fixture).
Hypothesis store_wf : forall k t, (k, t) ∈ store -> is_u 256 k /\ token_wf t.
Hypothesis store_keys : NoDup store.*1.
Hypothesis fixture_wf :
  Forall (is_u 256) [fx_mint f; fx_other_mint f; fx_owner_a f; fx_owner_b f; fx_delegate f; fx_unrelated_owner f; fx_ata_a f; fx_ata_b f; fx_ata_a_other f].
Hypothesis fixture_keys : NoDup [fx_ata_a f; fx_ata_b f; fx_ata_a_other f].
Hypothesis fixture_roles : NoDup [fx_owner_a f; fx_owner_b f; fx_unrelated_owner f] /\ fx_mint f <> fx_other_mint f.

Definition token_a : Token := mkToken (fx_mint f) (fx_owner_a f) OWNER_A_BALANCE (Some (fx_delegate f, DELEGATED_AMOUNT)).
Definition token_b : Token := mkToken (fx_mint f) (fx_owner_b f) OWNER_B_BALANCE None.
Definition token_other : Token := mkToken (fx_other_mint f) (fx_owner_a f) OTHER_MINT_BALANCE None.
Definition fixture_store : list (Pubkey * Token) := [(fx_ata_a f, token_a); (fx_ata_b f, token_b); (fx_ata_a_other f, token_other)].

(** The accounts the queries are about. *)
Definition relevant (t : Token) : Prop := tk_mint t = fx_mint f \/ tk_owner t = fx_owner_a f \/ fst <$> tk_delegate t = Some (fx_delegate f).

Lemma text_inj (k k' : Pubkey) : is_u 256 k -> is_u 256 k' -> (pubkey_to_string k =? pubkey_to_string k')%string = bool_decide (k = k').
Proof.
  intros Hk Hk'. case_bool_decide as Hkk; [subst; apply String.eqb_refl|]. apply String.eqb_neq. intros Heq. apply Hkk.
  apply (f_equal pubkey_from_str) in Heq. rewrite !pubkey_back in Heq by done. by simplify_eq.
Qed.

(** The keys of the selected accounts. *)
Definition exact (p : Token -> bool) (wanted : list Pubkey) : Prop :=
  forall k, (exists t, (k, t) ∈ store /\ p t = true) <-> k ∈ wanted.

Lemma elem_of_select p k t : (k, t) ∈ select p store <-> (k, t) ∈ store /\ p t = true.
Proof. unfold select. rewrite list_elem_of_filter. cbn. rewrite Is_true_true. naive_solver. Qed.

Lemma keys_exact m p wanted :
  Forall (is_u 256) wanted -> keys (keyed m <$> select p store) = expected wanted <-> exact p wanted.
Proof.
  intros Hw. unfold keys, expected, exact. rewrite set_eq. split.
  - intros H k. split.
    + intros (t & Hin & Hp). destruct (store_wf _ _ Hin) as [Hk _]. specialize (H (pubkey_to_string k)). rewrite !elem_of_list_to_set in H.
      destruct H as [H _]. assert (Hs : pubkey_to_string k ∈ ka_pubkey <$> (keyed m <$> select p store)).
      { apply list_elem_of_fmap. exists (keyed m (k, t)). split; [done|]. apply list_elem_of_fmap. exists (k, t). by rewrite elem_of_select. }
      apply H, list_elem_of_fmap in Hs as (k' & Hk' & Hin').
      pose proof (proj1 (Forall_forall _ _) Hw k' Hin') as Hu. pose proof (text_inj k k' Hk Hu) as Ht. rewrite Hk', String.eqb_refl in Ht.
      symmetry in Ht. apply bool_decide_eq_true_1 in Ht. by subst.
    + intros Hin. specialize (H (pubkey_to_string k)). rewrite !elem_of_list_to_set in H. destruct H as [_ H].
      assert (Hs : pubkey_to_string k ∈ pubkey_to_string <$> wanted) by by apply list_elem_of_fmap_2.
      apply H, list_elem_of_fmap in Hs as (e & He & Hin'). clear H. apply list_elem_of_fmap in Hin' as ([k' t] & -> & Hs%elem_of_select). destruct Hs as [Hs Hp]. exists t. split; [|done].
      destruct (store_wf _ _ Hs) as [Hk' _]. pose proof (text_inj k k' ltac:(by eapply Forall_forall in Hw) Hk') as Ht.
      cbn in He. rewrite He, String.eqb_refl in Ht. symmetry in Ht. apply bool_decide_eq_true_1 in Ht. by subst.
  - intros H s. rewrite !elem_of_list_to_set, !list_elem_of_fmap. split.
    + intros (e & -> & ([k t] & -> & Hs%elem_of_select)%list_elem_of_fmap). exists k. split; [done|]. apply H. by exists t.
    + intros (k & -> & Hin). apply H in Hin as (t & Hin). exists (keyed m (k, t)). split; [done|]. apply list_elem_of_fmap.
      exists (k, t). by rewrite elem_of_select.
Qed.

Lemma check_all_Ok {A} (check : A -> Result unit ViewError) l : check_all check l = Ok tt <-> forall x, x ∈ l -> check x = Ok tt.
Proof.
  induction l as [|x l IH]; cbn [check_all]; [split; [intros _ x Hx; by apply not_elem_of_nil in Hx|done]|].
  destruct (check x) as [[]|e] eqn:Ex; cbn [res_bind].
  - rewrite IH. split; [intros H y [->|Hy]%elem_of_cons; [done|by apply H]|intros H y Hy; apply H; by right].
  - split; [done|]. intros H. rewrite H in Ex by (by left). done.
Qed.

Lemma check_selected m p (check : RpcKeyedAccount -> Result unit ViewError) (shown : Pubkey -> Prop) (want : Pubkey -> Token) :
  (forall k t, (k, t) ∈ store -> check (keyed m (k, t)) = Ok tt <-> shown k /\ t = want k) ->
  check_all check (keyed m <$> select p store) = Ok tt <-> forall k t, (k, t) ∈ store -> p t = true -> shown k /\ t = want k.
Proof.
  intros Hc. rewrite check_all_Ok. split.
  - intros H k t Hin Hp. apply (Hc k t Hin), H, list_elem_of_fmap. exists (k, t). by rewrite elem_of_select.
  - intros H x ([k t] & -> & [Hin Hp]%elem_of_select)%list_elem_of_fmap. apply (Hc k t Hin). by eapply H.
Qed.

(** An account shown as one of the token program, in an encoding that is read; for program
    accounts that is base64. *)
Definition shown_as (ok : Wire -> Prop) (m : Method) (k : Pubkey) : Prop :=
  sh_owner (present m k) = pubkey_to_string token_program /\ ok (sh_wire (present m k)).
Definition in_base64 (w : Wire) : Prop := w = WBase64.
Definition in_either (w : Wire) : Prop := w = WBase64 \/ w = WParsed "spl-token".

Lemma encoding_spec w e : encoding_of w = Some e <-> e = "base64" /\ w = WBase64 \/ e = "jsonParsed" /\ w = WParsed "spl-token".
Proof.
  destruct w as [program| | |]; cbn; [destruct (String.eqb_spec program "spl-token")| | |]; naive_solver.
Qed.

(** What each query is about, and what it demands. *)
Definition has_mint (t : Token) : bool := bool_decide (tk_mint t = fx_mint f).
Definition has_owner (o : Pubkey) (t : Token) : bool := bool_decide (tk_owner t = o).
Definition has_delegate (t : Token) : bool := bool_decide (fst <$> tk_delegate t = Some (fx_delegate f)).

Definition by_mint_token (k : Pubkey) : Token := if bool_decide (k = fx_ata_a f) then token_a else token_b.
Definition by_owner_token (o k : Pubkey) : Token :=
  let '(m, a, d) := if bool_decide (k = fx_ata_a f) then (fx_mint f, OWNER_A_BALANCE, the_approval f)
    else if bool_decide (k = fx_ata_b f) then (fx_mint f, OWNER_B_BALANCE, None) else (fx_other_mint f, OTHER_MINT_BALANCE, None) in
  mkToken m o a d.

Lemma result_bind_Ok {A} (r : Result A ViewError) : (let? _ := r in Ok tt) = Ok tt <-> exists x, r = Ok x.
Proof. destruct r; cbn; naive_solver. Qed.

Lemma check_entry_Ok m k t mint owner amount delegate :
  token_wf t -> (exists x, check_token_account base64_decode (keyed m (k, t)) mint owner amount delegate = Ok x) <->
  shown_as in_either m k /\ t = mkToken mint owner amount delegate.
Proof.
  intros Hwf. setoid_rewrite check_entry; [|done]. setoid_rewrite encoding_spec. unfold shown_as, in_either. naive_solver.
Qed.

Lemma program_entry_Ok k t :
  (k, t) ∈ store -> program_entry base64_decode f (keyed ByProgram (k, t)) = Ok tt <-> shown_as in_base64 ByProgram k /\ t = by_mint_token k.
Proof.
  intros Hin. destruct (store_wf _ _ Hin) as [Hk Hwf]. unfold program_entry, by_mint_token, token_a, token_b. cbn [ka_pubkey keyed fst].
  rewrite text_inj by (done || by apply (proj1 (Forall_forall _ _) fixture_wf); rewrite !elem_of_cons; tauto).
  assert (H : forall mint owner amount delegate,
    (let? encoding := check_token_account base64_decode (keyed ByProgram (k, t)) mint owner amount delegate in
     ensure! (encoding =? "base64")%string else BadEncoding in Ok tt) = Ok tt <->
    shown_as in_base64 ByProgram k /\ t = mkToken mint owner amount delegate).
  { intros mint owner amount delegate. pose proof (fun e => check_entry ByProgram k t mint owner amount delegate e Hwf) as Hc.
    setoid_rewrite encoding_spec in Hc. unfold shown_as, in_base64.
    destruct (check_token_account _ _ _ _ _ _) as [x|e] eqn:Ec; cbn [res_bind].
    - destruct (String.eqb_spec x "base64") as [->|Hne]; [|split; [done|]; intros ((? & ?) & ?);
        pose proof (proj2 (Hc "base64") ltac:(naive_solver)); congruence].
      pose proof (proj1 (Hc "base64") eq_refl). naive_solver.
    - split; [done|]. intros ((? & ?) & ?). pose proof (proj2 (Hc "base64") ltac:(naive_solver)). congruence. }
  destruct (bool_decide (k = fx_ata_a f)); apply H.
Qed.

Lemma owner_entry_Ok o k t :
  (k, t) ∈ store -> owner_entry base64_decode f o (keyed ByOwner (k, t)) = Ok tt <-> shown_as in_either ByOwner k /\ t = by_owner_token o k.
Proof.
  intros Hin. destruct (store_wf _ _ Hin) as [Hk Hwf]. unfold owner_entry, by_owner_token. cbn [ka_pubkey keyed fst].
  rewrite !text_inj by (done || by apply (proj1 (Forall_forall _ _) fixture_wf); rewrite !elem_of_cons; tauto).
  destruct (bool_decide (k = fx_ata_a f)); [|destruct (bool_decide (k = fx_ata_b f))]; by rewrite result_bind_Ok, check_entry_Ok.
Qed.

Ltac listed := rewrite ?elem_of_cons; tauto.
Ltac fixture_key := apply (proj1 (Forall_forall _ _) fixture_wf); listed.

Lemma in_CYCLE q : q ∈ CYCLE.
Proof. unfold CYCLE. destruct q; listed. Qed.

Lemma select_ext p q : (forall k t, (k, t) ∈ store -> p t = q t) -> select p store = select q store.
Proof.
  intros H. unfold select. clear store_wf store_keys. induction store as [|[k t] l IH]; [done|]. rewrite !filter_cons. cbn [snd].
  rewrite (H k t) by (by left). rewrite IH by (intros k' t' Hin; eapply H; by right). done.
Qed.

(** Selecting by the bytes of an account is selecting by the token in it. *)
Lemma filter_select (q : Pubkey * Token -> bool) p :
  (forall k t, (k, t) ∈ store -> q (k, t) = p t) -> filter (fun e => q e) store = select p store.
Proof.
  intros H. unfold select. clear store_wf store_keys. induction store as [|[k t] l IH]; [done|]. rewrite !filter_cons. cbn [snd].
  rewrite (H k t) by (by left). rewrite IH by (intros k' t' Hin; eapply H; by right). done.
Qed.

Lemma bool_decide_iff (P Q : Prop) `{!Decision P, !Decision Q} : (P <-> Q) -> bool_decide P = bool_decide Q.
Proof. apply bool_decide_ext. Qed.

Lemma memcmp_field offset field k t :
  (k, t) ∈ store -> is_u 256 field -> offset = MINT_OFFSET \/ offset = OWNER_OFFSET ->
  forallb (matches_filter (bytes_of k t)) [DataSize TOKEN_ACCOUNT_LEN; Memcmp offset (pubkey_bytes field)] =
  bool_decide ((if (offset =? 0)%nat then tk_mint t else tk_owner t) = field).
Proof.
  intros Hin Hf Ho. destruct (store_wf _ _ Hin) as [_ (Hm & Hw & _)]. destruct (besides_wf k) as (Hs & Hc & _).
  cbn [forallb matches_filter]. unfold bytes_of. rewrite length_token_bytes by done. rewrite Nat.eqb_refl, length_pubkey_bytes, andb_true_r. cbn [andb]. apply bool_decide_ext.
  assert (Hg : get_range offset (offset + 32) (bytes_of k t) = Some (pubkey_bytes (if (offset =? 0)%nat then tk_mint t else tk_owner t))).
  { unfold bytes_of. destruct Ho as [-> | ->]; [exact (mint_field _ _ t)|exact (owner_field _ _ t)]. }
  unfold bytes_of in Hg. rewrite Hg. split; [|by intros ->]. intros Heq%(inj Some). rewrite <- (pubkey_of_bytes field), <- Heq by done. symmetry. apply pubkey_of_bytes.
  by destruct (offset =? 0)%nat.
Qed.

Definition field_is (offset : nat) (field : Pubkey) (t : Token) : bool :=
  bool_decide ((if (offset =? 0)%nat then tk_mint t else tk_owner t) = field).

Lemma program_query_Ok offset field wanted accounts :
  is_u 256 field -> offset = MINT_OFFSET \/ offset = OWNER_OFFSET -> Forall (is_u 256) wanted ->
  program_query (node store) offset field wanted = Ok accounts <->
  exact (field_is offset field) wanted /\ accounts = keyed ByProgram <$> select (field_is offset field) store.
Proof.
  intros Hf Ho Hw. unfold program_query, node. cbn [tr_program_accounts]. rewrite String.eqb_refl. cbn [res_bind].
  rewrite (filter_select _ (field_is offset field)) by (intros k t Hin; by eapply memcmp_field). case_bool_decide as Hk.
  - apply keys_exact in Hk; [|done]. naive_solver.
  - split; [done|]. intros [He _]. destruct Hk. by apply keys_exact.
Qed.

Lemma balance_query_Ok ata amount :
  is_u 256 ata -> is_u 64 amount ->
  balance_query (node store) ata amount = Ok tt <-> exists t, (ata, t) ∈ store /\ tk_amount t = amount /\ decimals (tk_mint t) = 0.
Proof.
  intros Ha Hm. unfold balance_query, node. cbn [tr_balance]. destruct (find _ store) as [[k t]|] eqn:Ef; cbn [res_bind].
  - apply find_some in Ef as [Hin%list_elem_of_In Hk]. cbn in Hk. destruct (store_wf _ _ Hin) as [Hu (_ & _ & Hv & _)].
    rewrite text_inj in Hk by done. apply bool_decide_eq_true_1 in Hk as ->. cbn [fst snd].
    destruct (String.eqb_spec (show_u64 (tk_amount t)) (show_u64 amount)) as [He|He].
    + apply (f_equal parse_u64) in He. rewrite !parse_show_u64 in He by done. injection He as He. destruct (Z.eqb_spec (decimals (tk_mint t)) 0) as [Hz|Hz].
      * split; [|done]. intros _. by exists t.
      * split; [done|]. intros (t' & Hin' & _ & Hz'). by rewrite (NoDup_fmap_fst_eq store _ _ _ store_keys Hin' Hin) in Hz'.
    + split; [done|]. intros (t' & Hin' & Ht' & _). destruct He. f_equal. rewrite <- Ht'. f_equal.
      by eapply (NoDup_fmap_fst_eq store).
  - split; [done|]. intros (t & Hin & _). eapply find_none in Ef; [|by apply list_elem_of_In]. cbn in Ef. by rewrite String.eqb_refl in Ef.
Qed.

Lemma filter_by_mint k t : (k, t) ∈ store -> filter_ok (by_mint f) t = has_mint t.
Proof. intros Hin. destruct (store_wf _ _ Hin) as [_ (Hm & _)]. cbn. apply text_inj; [done|fixture_key]. Qed.

Lemma filter_by_program t : filter_ok by_program t = true.
Proof. apply String.eqb_refl. Qed.

(** The filters of the queries, on the accounts of the node. *)
Definition filter_spec (flt : TokenFilter) (t : Token) : bool := match flt with FilterMint _ => has_mint t | FilterProgramId _ => true end.

Lemma filter_spec_ok flt k t : flt = by_mint f \/ flt = by_program -> (k, t) ∈ store -> filter_ok flt t = filter_spec flt t.
Proof. intros [-> | ->] Hin; [by eapply filter_by_mint|apply filter_by_program]. Qed.

Definition owner_p (o : Pubkey) (flt : TokenFilter) (t : Token) : bool := has_owner o t && filter_spec flt t.
Definition delegate_p (flt : TokenFilter) (t : Token) : bool := has_delegate t && filter_spec flt t.

Lemma owner_query_Ok o flt wanted :
  is_u 256 o -> flt = by_mint f \/ flt = by_program -> Forall (is_u 256) wanted ->
  owner_query base64_decode (node store) f o flt wanted = Ok tt <->
  exact (owner_p o flt) wanted /\ forall k t, (k, t) ∈ store -> owner_p o flt t = true -> shown_as in_either ByOwner k /\ t = by_owner_token o k.
Proof.
  intros Ho Hf Hw. set (p := owner_p o flt). unfold owner_query, node. cbn [tr_by_owner res_bind]. rewrite (select_ext _ p).
  - rewrite <- (keys_exact ByOwner) by done. rewrite <- (check_selected ByOwner p (owner_entry base64_decode f o) (shown_as in_either ByOwner)) by apply owner_entry_Ok.
    case_bool_decide; naive_solver.
  - intros k t Hin. subst p. unfold owner_p. destruct (store_wf _ _ Hin) as [_ (_ & Hw' & _)]. rewrite text_inj by done.
    by rewrite (filter_spec_ok flt k t).
Qed.

Lemma delegate_query_Ok flt :
  flt = by_mint f \/ flt = by_program ->
  delegate_query base64_decode (node store) f flt = Some (Ok tt) <->
  exact (delegate_p flt) [fx_ata_a f] /\ shown_as in_either ByDelegate (fx_ata_a f) /\ forall t, (fx_ata_a f, t) ∈ store -> delegate_p flt t = true -> t = token_a.
Proof.
  intros Hf. set (p := delegate_p flt). assert (Ha : is_u 256 (fx_ata_a f)) by fixture_key. unfold delegate_query, node. cbn [tr_by_delegate].
  rewrite (select_ext _ p).
  - case_bool_decide as Hk; [|split; [done|]; intros [He _]; destruct Hk; apply keys_exact; [by apply Forall_singleton|done]].
    apply keys_exact in Hk; [|by apply Forall_singleton]. destruct (proj2 (Hk (fx_ata_a f)) ltac:(by left)) as (t & Hin & Hp).
    destruct (select p store) as [|[k1 t1] l] eqn:Es; [by pose proof (proj2 (elem_of_select p (fx_ata_a f) t) (conj Hin Hp)) as He; rewrite Es in He; apply not_elem_of_nil in He|].
    assert (Hs : (k1, t1) ∈ select p store) by (rewrite Es; by left). apply elem_of_select in Hs as [Hs Hp1].
    assert (k1 = fx_ata_a f) as -> by (pose proof (proj1 (Hk k1) ltac:(by exists t1)); set_solver).
    destruct (store_wf _ _ Hs) as [_ Hwf]. cbn [fmap list_fmap head mbind option_bind].
    rewrite (inj_iff Some), result_bind_Ok, check_entry_Ok by done. fold token_a. split.
    + intros [Hsh ->]. split_and!; [done|done|]. intros t' Hin' _. by eapply (NoDup_fmap_fst_eq store).
    + intros (_ & Hsh & H). split; [done|]. by apply H.
  - intros k t Hin. subst p. unfold delegate_p. rewrite (filter_spec_ok flt k t) by done. f_equal. destruct (store_wf _ _ Hin) as [_ (_ & _ & _ & Hd)].
    unfold has_delegate, delegate_of. apply bool_decide_ext. destruct (tk_delegate t) as [[d a]|]; cbn; [|done].
    split; [|by intros [= ->]]. intros [= Heq]. f_equal. assert (Hu : is_u 256 (fx_delegate f)) by fixture_key.
    apply (f_equal pubkey_from_str) in Heq. rewrite !pubkey_back in Heq by naive_solver. by simplify_eq.
Qed.

(** ** All the reads *)

Lemma check_reads_Ok rpc elapsed :
  check_reads base64_decode rpc f elapsed = Some (Ok tt) <->
  elapsed < BURST_DEADLINE /\ forall q, q ∈ CYCLE -> run_query base64_decode rpc f q = Some (Ok tt).
Proof.
  unfold check_reads. split.
  - destruct (mapM _ CYCLE) as [outs|] eqn:Em; [|done]. cbn [mbind option_bind]. intros [= H]. destruct (Z.ltb_spec elapsed BURST_DEADLINE); [|done].
    split; [done|]. rewrite check_all_Ok in H. apply mapM_Some_1 in Em. intros q (i & Hi)%list_elem_of_lookup_1.
    destruct (Forall2_lookup_l _ _ _ _ _ Em Hi) as (r & Hr & ->). f_equal. apply H. by eapply list_elem_of_lookup_2.
  - intros [He H]. assert (Hm : mapM (run_query base64_decode rpc f) CYCLE = Some (replicate 10 (Ok tt))).
    { apply mapM_Some_2. repeat (constructor; [apply H, in_CYCLE|]). constructor. }
    rewrite Hm. cbn [mbind option_bind]. rewrite (proj2 (Z.ltb_lt _ _)) by done. done.
Qed.

(** The node holds the fixture's accounts, and nothing else that a query asks for. *)
Definition holds_fixture : Prop := (forall e, e ∈ fixture_store -> e ∈ store) /\ forall k t, (k, t) ∈ store -> relevant t -> (k, t) ∈ fixture_store.

(** It shows them as accounts of the token program, program accounts in base64 and the others in
    either encoding, and the mint without decimals. *)
Definition shows_fixture : Prop :=
  (forall k, k ∈ [fx_ata_a f; fx_ata_b f] -> shown_as in_base64 ByProgram k) /\
  (forall k, k ∈ [fx_ata_a f; fx_ata_b f; fx_ata_a_other f] -> shown_as in_either ByOwner k) /\
  shown_as in_either ByDelegate (fx_ata_a f) /\ decimals (fx_mint f) = 0.

Lemma exact_of p wanted :
  holds_fixture -> (forall t, p t = true -> relevant t) -> (select p fixture_store).*1 = wanted -> exact p wanted.
Proof.
  intros [Hin Hrel] Hp <- k. split.
  - intros (t & Hs & Ht). apply list_elem_of_fmap. exists (k, t). split; [done|]. apply list_elem_of_filter. cbn. rewrite Ht. naive_solver.
  - intros ([k' t] & -> & [Ht Hs]%list_elem_of_filter)%list_elem_of_fmap. exists t. cbn in Ht |- *. apply Is_true_true in Ht. naive_solver.
Qed.

Lemma selected_fixture (p : Token -> bool) k t :
  holds_fixture -> (forall t, p t = true -> relevant t) -> (k, t) ∈ store -> p t = true ->
  (k = fx_ata_a f /\ t = token_a) \/ (k = fx_ata_b f /\ t = token_b) \/ (k = fx_ata_a_other f /\ t = token_other).
Proof.
  intros [_ Hrel] Hp Hin Ht. specialize (Hrel k t Hin (Hp t Ht)). unfold fixture_store in Hrel.
  rewrite !elem_of_cons, elem_of_nil in Hrel. naive_solver.
Qed.

Lemma fixture_neq :
  fx_ata_a f <> fx_ata_b f /\ fx_ata_a f <> fx_ata_a_other f /\ fx_ata_b f <> fx_ata_a_other f /\
  fx_owner_a f <> fx_owner_b f /\ fx_owner_a f <> fx_unrelated_owner f /\ fx_owner_b f <> fx_unrelated_owner f.
Proof.
  destruct fixture_roles as [Hr _]. rewrite !NoDup_cons, !elem_of_cons in Hr. pose proof fixture_keys as Hk. rewrite !NoDup_cons, !elem_of_cons in Hk.
  destruct Hr as (? & ? & _), Hk as (? & ? & _). split_and!; intros Heq; rewrite Heq in *; tauto.
Qed.

(** Deciding the predicates of the queries on the three accounts. *)
Ltac decide_tokens :=
  unfold select, fixture_store; rewrite !filter_cons; cbn [snd];
  unfold field_is, owner_p, delegate_p, has_owner, has_mint, has_delegate, filter_spec, token_a, token_b, token_other;
  cbn; unfold has_mint; cbn; destruct fixture_neq as (? & ? & ? & ? & ? & ?); destruct fixture_roles as [_ ?];
  repeat (first [rewrite (bool_decide_eq_true_2) by done|rewrite (bool_decide_eq_false_2) by (done || congruence)]); try reflexivity.

Ltac predicate_relevant :=
  intros ?; unfold relevant, field_is, owner_p, delegate_p, has_owner, has_mint, has_delegate, filter_spec; cbn; unfold has_mint;
  rewrite ?andb_true_iff, ?bool_decide_eq_true; naive_solver.

Lemma ata_wf l : l ⊆ [fx_ata_a f; fx_ata_b f; fx_ata_a_other f] -> Forall (is_u 256) l.
Proof. intros Hl. apply Forall_forall. intros k Hk%Hl. rewrite !elem_of_cons, elem_of_nil in Hk. fixture_key. Qed.

Lemma owner_query_holds o flt wanted :
  holds_fixture -> shows_fixture -> is_u 256 o -> flt = by_mint f \/ flt = by_program -> Forall (is_u 256) wanted ->
  (forall t, owner_p o flt t = true -> relevant t) -> (select (owner_p o flt) fixture_store).*1 = wanted ->
  owner_query base64_decode (node store) f o flt wanted = Ok tt.
Proof.
  intros Hh (_ & Hshown & _) Ho Hflt Hw Hr Hs. apply owner_query_Ok; [done..|]. split; [by apply exact_of|]. intros k t Hin Ht.
  split; [apply Hshown; destruct (selected_fixture (owner_p o flt) k t) as [[-> _]|[[-> _]|[-> _]]]; [done..|listed|listed|listed]|].
  pose proof Ht as Hto. unfold owner_p, has_owner in Hto. apply andb_true_iff in Hto as [Hto%bool_decide_eq_true_1 _].
  destruct fixture_neq as (Hab & Hao & Hbo & _). unfold by_owner_token, the_approval.
  destruct (selected_fixture (owner_p o flt) k t) as [[-> ->]|[[-> ->]|[-> ->]]]; [done..| | |]; cbn in Hto; subst o.
  - by rewrite bool_decide_eq_true_2.
  - rewrite bool_decide_eq_false_2 by congruence. by rewrite bool_decide_eq_true_2.
  - rewrite bool_decide_eq_false_2 by congruence. by rewrite bool_decide_eq_false_2 by congruence.
Qed.

Lemma delegate_query_holds flt :
  holds_fixture -> shows_fixture -> flt = by_mint f \/ flt = by_program -> (select (delegate_p flt) fixture_store).*1 = [fx_ata_a f] ->
  delegate_query base64_decode (node store) f flt = Some (Ok tt).
Proof.
  intros Hh (_ & _ & Hsh & _) Hf Hs. apply delegate_query_Ok; [done|]. assert (Hr : forall t, delegate_p flt t = true -> relevant t) by predicate_relevant.
  split_and!; [by apply exact_of|done|]. intros t Hin Ht. destruct fixture_neq as (Hab & Hao & _).
  destruct (selected_fixture (delegate_p flt) (fx_ata_a f) t) as [[_ ->]|[[? _]|[? _]]]; done.
Qed.

Lemma balance_query_holds ata t amount :
  holds_fixture -> shows_fixture -> (ata, t) ∈ fixture_store -> tk_mint t = fx_mint f -> tk_amount t = amount -> is_u 256 ata ->
  is_u 64 amount -> balance_query (node store) ata amount = Ok tt.
Proof.
  intros [Hin _] (_ & _ & _ & Hz) Hf Hm Ha Hk Hu. apply balance_query_Ok; [done..|]. exists t. rewrite Hm. by split_and!; [apply Hin| |].
Qed.

Lemma program_query_holds offset field wanted :
  holds_fixture -> is_u 256 field -> offset = MINT_OFFSET \/ offset = OWNER_OFFSET -> Forall (is_u 256) wanted ->
  (forall t, field_is offset field t = true -> relevant t) -> (select (field_is offset field) fixture_store).*1 = wanted ->
  program_query (node store) offset field wanted = Ok (keyed ByProgram <$> select (field_is offset field) store).
Proof. intros Hh Hf Ho Hw Hr Hs. apply program_query_Ok; [done..|]. split; [by apply exact_of|done]. Qed.

Lemma run_query_holds q : holds_fixture -> shows_fixture -> run_query base64_decode (node store) f q = Some (Ok tt).
Proof.
  intros Hh Hsh. destruct q; cbn [run_query].
  - rewrite program_query_holds; [|done|fixture_key|by left|apply ata_wf; set_solver|predicate_relevant|decide_tokens].
    cbn [res_bind]. f_equal. apply (check_selected ByProgram _ _ (shown_as in_base64 ByProgram) by_mint_token); [apply program_entry_Ok|]. intros k t Hin Ht.
    destruct fixture_neq as (Hab & Hao & Hbo & _). unfold by_mint_token.
    destruct (selected_fixture (field_is MINT_OFFSET (fx_mint f)) k t) as [[-> ->]|[[-> ->]|[-> ->]]]; [done|predicate_relevant|done|done| | |].
    + rewrite bool_decide_eq_true_2 by done. split; [apply Hsh; listed|done].
    + rewrite bool_decide_eq_false_2 by congruence. split; [apply Hsh; listed|done].
    + unfold field_is in Ht. apply bool_decide_eq_true_1 in Ht. cbn in Ht. by destruct (proj2 fixture_roles).
  - by rewrite program_query_holds; [|done|fixture_key|by right|apply ata_wf; set_solver|predicate_relevant|decide_tokens].
  - f_equal. apply (balance_query_holds _ token_a); [done|done|unfold fixture_store; listed|done|done|fixture_key|done].
  - f_equal. apply (balance_query_holds _ token_b); [done|done|unfold fixture_store; listed|done|done|fixture_key|done].
  - f_equal. apply owner_query_holds; [done|done|fixture_key|by left|apply ata_wf; set_solver|predicate_relevant|decide_tokens].
  - f_equal. apply owner_query_holds; [done|done|fixture_key|by right|apply ata_wf; set_solver|predicate_relevant|decide_tokens].
  - f_equal. apply owner_query_holds; [done|done|fixture_key|by left|apply ata_wf; set_solver|predicate_relevant|decide_tokens].
  - apply delegate_query_holds; [done|done|by left|decide_tokens].
  - apply delegate_query_holds; [done|done|by right|decide_tokens].
  - f_equal. apply owner_query_holds; [done|done|fixture_key|by left|done|predicate_relevant|decide_tokens].
Qed.

Abbreviation accepted := (forall q, q ∈ CYCLE -> run_query base64_decode (node store) f q = Some (Ok tt)).

Lemma accepted_mint :
  accepted -> exact (field_is MINT_OFFSET (fx_mint f)) [fx_ata_a f; fx_ata_b f] /\
  forall k t, (k, t) ∈ store -> tk_mint t = fx_mint f -> shown_as in_base64 ByProgram k /\ t = by_mint_token k.
Proof.
  intros H. specialize (H ProgramAccountsByMint (in_CYCLE _)). cbn [run_query] in H. apply (inj Some) in H.
  destruct (program_query _ _ _ _) as [l|] eqn:Eq; [|done]. apply program_query_Ok in Eq as [He ->]; [|fixture_key|by left|apply ata_wf; set_solver].
  cbn [res_bind] in H. split; [done|]. pose proof (proj1 (check_selected ByProgram _ _ _ _ program_entry_Ok) H) as Ht.
  intros k t Hin Hm. apply (Ht k t Hin). by apply bool_decide_eq_true_2.
Qed.

Lemma accepted_owner :
  accepted -> exact (owner_p (fx_owner_a f) by_program) [fx_ata_a f; fx_ata_a_other f] /\
  forall k t, (k, t) ∈ store -> tk_owner t = fx_owner_a f -> shown_as in_either ByOwner k /\ t = by_owner_token (fx_owner_a f) k.
Proof.
  intros H. specialize (H OwnerAByProgram (in_CYCLE _)). cbn [run_query] in H. apply (inj Some) in H.
  apply owner_query_Ok in H as [He Ht]; [|fixture_key|by right|apply ata_wf; set_solver]. split; [done|].
  intros k t Hin Ho. apply (Ht k t Hin). unfold owner_p, has_owner. by rewrite bool_decide_eq_true_2.
Qed.

Lemma accepted_fixture_tokens k t :
  accepted -> (k, t) ∈ store -> tk_mint t = fx_mint f \/ tk_owner t = fx_owner_a f -> (k, t) ∈ fixture_store.
Proof.
  intros H Hin. destruct fixture_neq as (Hab & Hao & Hbo & _). unfold fixture_store. intros [Hm|Ho].
  - destruct (accepted_mint H) as [He Ht]. rewrite (proj2 (Ht k t Hin Hm)).
    assert (Hk : k ∈ [fx_ata_a f; fx_ata_b f]) by (apply He; exists t; split; [done|]; by apply bool_decide_eq_true_2).
    unfold by_mint_token. rewrite !elem_of_cons, elem_of_nil in Hk. destruct Hk as [-> |[-> |[]]]; [rewrite bool_decide_eq_true_2 by done; by left|].
    rewrite bool_decide_eq_false_2 by congruence. by right; left.
  - destruct (accepted_owner H) as [He Ht]. rewrite (proj2 (Ht k t Hin Ho)).
    assert (Hk : k ∈ [fx_ata_a f; fx_ata_a_other f]).
    { apply He. exists t. split; [done|]. unfold owner_p, has_owner. by rewrite bool_decide_eq_true_2. }
    unfold by_owner_token. rewrite !elem_of_cons, elem_of_nil in Hk. destruct Hk as [-> |[-> |[]]]; [rewrite bool_decide_eq_true_2 by done; by left|].
    rewrite bool_decide_eq_false_2 by congruence. rewrite bool_decide_eq_false_2 by congruence. by right; right; left.
Qed.

(** The other way round: each of the three accounts is found. *)
Lemma accepted_found k : accepted -> k ∈ [fx_ata_a f; fx_ata_b f; fx_ata_a_other f] -> exists t, (k, t) ∈ store /\ (k, t) ∈ fixture_store.
Proof.
  intros H Hk. destruct (accepted_mint H) as [Hm _], (accepted_owner H) as [Ho _].
  assert (Hin : k ∈ [fx_ata_a f; fx_ata_b f] \/ k ∈ [fx_ata_a f; fx_ata_a_other f]) by set_solver. destruct Hin as [Hin|Hin].
  - apply Hm in Hin as (t & Hin & Hp%bool_decide_eq_true_1). exists t. split; [done|]. apply accepted_fixture_tokens; [done|done|by left].
  - apply Ho in Hin as (t & Hin & Hp). unfold owner_p, has_owner in Hp. apply andb_true_iff in Hp as [Hp%bool_decide_eq_true_1 _].
    exists t. split; [done|]. apply accepted_fixture_tokens; [done|done|by right].
Qed.

Lemma fixture_store_keys : NoDup fixture_store.*1.
Proof. exact fixture_keys. Qed.

Lemma accepted_holds : accepted -> holds_fixture.
Proof.
  intros H. split.
  - intros [k t] Hf. assert (Hk : k ∈ [fx_ata_a f; fx_ata_b f; fx_ata_a_other f]) by (apply (list_elem_of_fmap_2 fst) in Hf; exact Hf).
    destruct (accepted_found k H Hk) as (t' & Hin & Hf'). by rewrite (NoDup_fmap_fst_eq _ _ _ _ fixture_store_keys Hf Hf').
  - intros k t Hin [Hm|[Ho|Hd]]; [apply accepted_fixture_tokens; by auto..|].
    assert (Hdel : exact (delegate_p by_program) [fx_ata_a f]).
    { pose proof (H DelegateByProgram (in_CYCLE _)) as Hq. cbn [run_query] in Hq. apply delegate_query_Ok in Hq as [He _]; [done|by right]. }
    assert (Hk : k ∈ [fx_ata_a f]).
    { apply Hdel. exists t. split; [done|]. unfold delegate_p, has_delegate. by rewrite bool_decide_eq_true_2. }
    apply list_elem_of_singleton in Hk as ->. destruct (accepted_found (fx_ata_a f) H ltac:(set_solver)) as (t' & Hin' & Hf').
    by rewrite (NoDup_fmap_fst_eq store _ _ _ store_keys Hin Hin').
Qed.

Lemma accepted_shows : accepted -> shows_fixture.
Proof.
  intros H. destruct (accepted_holds H) as [Hin _].
  assert (Ha : (fx_ata_a f, token_a) ∈ store) by (apply Hin; unfold fixture_store; listed).
  assert (Hb : (fx_ata_b f, token_b) ∈ store) by (apply Hin; unfold fixture_store; listed).
  assert (Ho : (fx_ata_a_other f, token_other) ∈ store) by (apply Hin; unfold fixture_store; listed).
  destruct (accepted_mint H) as [_ Hm], (accepted_owner H) as [_ How]. split_and!.
  - intros k [->|[->|[]%not_elem_of_nil]%elem_of_cons]%elem_of_cons; [by destruct (Hm _ _ Ha eq_refl)|by destruct (Hm _ _ Hb eq_refl)].
  - intros k [->|[->|[->|[]%not_elem_of_nil]%elem_of_cons]%elem_of_cons]%elem_of_cons;
      [by destruct (How _ _ Ha eq_refl)| |by destruct (How _ _ Ho eq_refl)].
    pose proof (H OwnerBByMint (in_CYCLE _)) as Hq. cbn [run_query] in Hq. apply (inj Some) in Hq.
    apply owner_query_Ok in Hq as [_ Hq]; [|fixture_key|by left|apply ata_wf; set_solver].
    apply (Hq _ _ Hb). unfold owner_p, has_owner, filter_spec, by_mint, has_mint. by rewrite !bool_decide_eq_true_2.
  - pose proof (H DelegateByProgram (in_CYCLE _)) as Hq. cbn [run_query] in Hq. apply delegate_query_Ok in Hq as (_ & Hq & _); [done|by right].
  - pose proof (H BalanceA (in_CYCLE _)) as Hq. cbn [run_query] in Hq. apply (inj Some) in Hq.
    apply balance_query_Ok in Hq as (t & Ht & _ & Hz); [|fixture_key|done]. by rewrite (NoDup_fmap_fst_eq store _ _ _ store_keys Ht Ha) in Hz.
Qed.

End node.

(** ** A node with the fixture and a stranger *)

#[local] Instance demo_espl : EsplSdk := {|
  TOKEN_PROGRAM_ID := 100; ASSOCIATED_TOKEN_PROGRAM_ID := 101; ESPL_TOKEN_PROGRAM_ID := 102; MAGIC_PROGRAM_ID := 103; RENT_SYSVAR_ID := 104;
  InitializeGlobalVaultBuilder payer mint := mkIx 102 [meta_new payer true; meta_new mint false] [0];
  InitializeEphemeralAtaBuilder payer user mint := mkIx 102 [meta_new payer true; meta_new user false; meta_new mint false] [1];
  DepositSplTokensBuilder auth user mint amount := mkIx 102 [meta_new auth true; meta_new user false; meta_new mint false] (2 :: le_bytes 8 amount);
  DelegateEphemeralAtaBuilder payer user mint _ := mkIx 102 [meta_new payer true; meta_new user false; meta_new mint false] [4];
  UndelegateEphemeralAtaBuilder payer user mint := mkIx 102 [meta_new payer true; meta_new user false; meta_new mint false] [5] |}.
#[local] Existing Instance decimal_base58.

(** A transparent text for bytes: one character each. *)
Definition byte_text (d : list Z) : string := String.string_of_list_ascii ((fun b => ascii_of_nat (Z.to_nat b)) <$> d).
Definition text_bytes (s : string) : option (list Z) := Some ((fun c => Z.of_nat (nat_of_ascii c)) <$> String.list_ascii_of_string s).

Lemma byte_text_back d : Forall is_byte d -> text_bytes (byte_text d) = Some d.
Proof.
  intros Hd. unfold text_bytes, byte_text. rewrite String.list_ascii_of_string_of_list_ascii. f_equal. rewrite <- list_fmap_compose.
  induction Hd as [|b d Hb _ IH]; [done|]. cbn [fmap list_fmap compose]. unfold is_byte in Hb. rewrite nat_ascii_embedding by lia.
  rewrite Z2Nat.id by lia. f_equal. exact IH.
Qed.

Definition demo_fixture : Fixture := mkFixture 1 2 3 4 5 6 11 12 13 14.
Definition demo_store : list (Pubkey * Token) :=
  [(20, mkToken 2 9 40 None); (13, token_other demo_fixture); (11, token_a demo_fixture); (12, token_b demo_fixture)].

Definition demo_present (m : Method) (k : Pubkey) : Shown :=
  mkShown "100" match m with ByProgram => WBase64 | _ => if k =? 11 then WParsed "spl-token" else if k =? 20 then WLegacy "?" else WBase64 end.
Definition demo_beside (k : Pubkey) : Beside :=
  mkBeside (1 :: replicate 12 0) (if k =? 12 then le_bytes 4 1 ++ pubkey_bytes 9 else replicate 36 0) [("state", JString "initialized")].

