(* ===== verification/Context.v ===== *)
(** Contexts: [core/src/context/mod.rs], [core/src/context/transaction.rs], the preparation of payers and
    clones in [core/src/prep.rs], and the wrappers of [core/src/dlp.rs].

    A node is a record of the requests a context makes; each may change the state [S] behind it and reads
    the node's own clock.  A context is that state with the blockhash cache, which all senders of the
    context share.  Sending is a program that stops where the code awaits, since other senders and a
    reset may come in between; the other operations are state-passing functions that may fail. *)
From Stdlib Require Import String.
From S2P Require Import Prelude World Cell Instr Build Text Float64 Rate Receipt Waiting Prep Cli.

#[local] Open Scope string_scope.
#[local] Open Scope Z_scope.
#[local] Open Scope list_scope.

Definition BASE_BLOCKHASH_TTL : Duration := 20 * NANOS_PER_SEC.
Definition ER_BLOCKHASH_TTL : Duration := 2 * NANOS_PER_SEC.

(** [Transaction::new_signed_with_payer]: what was signed, by whom and over which blockhash. *)
Record Signed := mkSigned { sx_tx : Tx; sx_hash : Z }.

Definition sign_with_payer (payer : Pubkey) (cosigners : list Pubkey) (ixs : list SolInstruction) (hash : Z) : Signed :=
  mkSigned (mkTx payer cosigners ixs) hash.

(** * Nodes *)

Record Node (S : Type) := mkNode
  { nd_now : S -> Instant;
    nd_blockhash : S -> Result Z WaitError * S;
    nd_send : Signed -> S -> Result (Result Z string) WaitError * S;
    nd_send_and_confirm : Signed -> S -> Result (Result Z SendError) WaitError * S;
    nd_account : Pubkey -> S -> Result (option Account) WaitError * S;
    nd_program_accounts : Pubkey -> S -> Result (list (Pubkey * Account)) WaitError * S;
    nd_await_account : Pubkey -> (Account -> Result unit string) -> S -> Result Account WaitError * S;
    nd_airdrop : Pubkey -> Z -> S -> Result string WaitError * S;
    nd_confirm : Z -> S -> Result unit WaitError * S;
    nd_delegation_status : Pubkey -> S -> Result bool WaitError * S }.
Arguments nd_now {S} _. Arguments nd_blockhash {S} _. Arguments nd_send {S} _. Arguments nd_send_and_confirm {S} _.
Arguments nd_account {S} _. Arguments nd_program_accounts {S} _. Arguments nd_await_account {S} _. Arguments nd_airdrop {S} _.
Arguments nd_confirm {S} _. Arguments nd_delegation_status {S} _.

(** A context: the node's state and the cache. *)
Record Ctx (S : Type) := mkCtx { cx_node : S; cx_cache : BlockhashCache }.
Arguments mkCtx {S} _ _. Arguments cx_node {S} _. Arguments cx_cache {S} _.

Definition CtxM (S A : Type) : Type := Ctx S -> Result A WaitError * Ctx S.

Section monad.
Context {S : Type}.
Definition ctx_ret {A} (a : A) : CtxM S A := fun c => (Ok a, c).
Definition ctx_fail {A} (e : WaitError) : CtxM S A := fun c => (Err e, c).
Definition ctx_bind {A B} (m : CtxM S A) (k : A -> CtxM S B) : CtxM S B := fun c =>
  match m c with (Ok a, c) => k a c | (Err e, c) => (Err e, c) end.
(** A request to the node. *)
Definition ask {A} (request : S -> Result A WaitError * S) : CtxM S A := fun c =>
  let '(r, s) := request (cx_node c) in (r, mkCtx s (cx_cache c)).
Definition ctx_ensure (b : bool) (why : string) : CtxM S unit := if b then ctx_ret tt else ctx_fail (WNotReady why).
Definition ctx_result {A} (r : Result A WaitError) : CtxM S A := match r with Ok a => ctx_ret a | Err e => ctx_fail e end.
End monad.

Declare Scope ctx_scope.
Delimit Scope ctx_scope with ctx.
Notation "'let^' x := m 'in' f" := (ctx_bind m (fun x => f)) (at level 200, x name, m at level 100, f at level 200) : ctx_scope.
Notation "'do^' m 'in' f" := (ctx_bind m (fun _ => f)) (at level 200, m at level 100, f at level 200) : ctx_scope.
#[local] Open Scope ctx_scope.

(** * Transactions *)

(** What is awaited: requests to the node, and the caller's own delay between two calls. *)
Inductive Request : Type -> Type :=
| GetLatestBlockhash : Request Z
| SendTransaction (tx : Signed) : Request (Result Z string)
| TrySendAndConfirm (tx : Signed) : Request (Result Z SendError)
| Pause : Request unit.

(** Where a signed transaction has its blockhash from: the cache's [get], or the node past it. *)
Inductive HashSource := FromCache | PastCache.

(** A sender: it ends, awaits, reads the cache, writes it, or signs. *)
Inductive Sender (A : Type) : Type :=
| Done (r : Result A WaitError)
| Await {X : Type} (c : Request X) (k : Result X WaitError -> Sender A)
| ReadCache (k : option Z -> Sender A)
| WriteCache (hash : Z) (k : Sender A)
| Sign (source : HashSource) (payer : Pubkey) (cosigners : list Pubkey) (ixs : list SolInstruction) (hash : Z) (k : Signed -> Sender A).
Arguments Done {A} r. Arguments Await {A X} c k. Arguments ReadCache {A} k. Arguments WriteCache {A} hash k.
Arguments Sign {A} source payer cosigners ixs hash k.

Fixpoint and_then {A B} (p : Sender A) (f : A -> Sender B) : Sender B :=
  match p with
  | Done (Ok a) => f a
  | Done (Err e) => Done (Err e)
  | Await c k => Await c (fun x => and_then (k x) f)
  | ReadCache k => ReadCache (fun o => and_then (k o) f)
  | WriteCache hash k => WriteCache hash (and_then k f)
  | Sign source payer cosigners ixs hash k => Sign source payer cosigners ixs hash (fun tx => and_then (k tx) f)
  end.

Notation "'let+' x := m 'in' f" := (and_then m (fun x => f)) (at level 200, x name, m at level 100, f at level 200) : ctx_scope.

Definition await {X} (c : Request X) : Sender X := Await c Done.
Definition sign (source : HashSource) (payer : Pubkey) (cosigners : list Pubkey) (ixs : list SolInstruction) (hash : Z) : Sender Signed :=
  Sign source payer cosigners ixs hash (fun tx => Done (Ok tx)).

(** [BlockhashCache::get]: what is cached and younger than the lifetime, or else a fetch, whose
    answer is cached. *)
Definition cached_hash (now : Instant) (c : BlockhashCache) : option Z :=
  '(hash, at_) ← bc_cached c; if now - at_ <? bc_ttl c then Some hash else None.

Definition get_blockhash : Sender Z :=
  ReadCache (fun cached =>
    match cached with
    | Some hash => Done (Ok hash)
    | None =>
        let+ hash := await GetLatestBlockhash in
        WriteCache hash (Done (Ok hash))
    end).

(** Turning a refusal into the outer error. *)
Definition refusal_text (e : SendError) : string := match e with Rejected e => e | Execution e => e end.
Definition flatten_send {A} (m : Sender (Result A SendError)) : Sender A :=
  let+ r := m in
  match r with Ok a => Done (Ok a) | Err e => Done (Err (WRpc (refusal_text e))) end.

Definition try_submit_and_confirm (payer : Pubkey) (cosigners : list Pubkey) (ixs : list SolInstruction) : Sender (Result Z SendError) :=
  let+ hash := get_blockhash in
  let+ tx := sign FromCache payer cosigners ixs hash in
  await (TrySendAndConfirm tx).

Definition ctx_submit_and_confirm_with (payer : Pubkey) (cosigners : list Pubkey) (ixs : list SolInstruction) : Sender Z :=
  flatten_send (try_submit_and_confirm payer cosigners ixs).
Definition ctx_submit_and_confirm (payer : Pubkey) (ixs : list SolInstruction) : Sender Z := ctx_submit_and_confirm_with payer [] ixs.

(** ** [TxSender] *)

(** [send_transaction]: a refusal is an error. *)
Definition submit_prepared (tx : Signed) : Sender Z :=
  let+ r := await (SendTransaction tx) in
  match r with Ok sig => Done (Ok sig) | Err e => Done (Err (WRpc e)) end.

Definition prepare (payer : Pubkey) (ixs : list SolInstruction) : Sender Signed :=
  let+ hash := get_blockhash in sign FromCache payer [] ixs hash.

(** What is left of [deliver] to do when the runner sends it. *)
Definition deliver (tx : Signed) : Sender unit := let+ sig := submit_prepared tx in Done (Ok tt).
Definition staged (payer : Pubkey) (ixs : list SolInstruction) : Sender (Sender unit) :=
  let+ tx := prepare payer ixs in Done (Ok (deliver tx)).

Definition submit (payer : Pubkey) (ixs : list SolInstruction) : Sender Z :=
  let+ tx := prepare payer ixs in submit_prepared tx.

(** Past the cache. *)
Definition submit_fresh (payer : Pubkey) (ixs : list SolInstruction) : Sender Z :=
  let+ hash := await GetLatestBlockhash in
  let+ tx := sign PastCache payer [] ixs hash in
  submit_prepared tx.

Definition sender_submit_and_confirm (payer : Pubkey) (ixs : list SolInstruction) : Sender Z :=
  let+ tx := prepare payer ixs in
  flatten_send (await (TrySendAndConfirm tx)).

Definition reset_blockhash {S} (c : Ctx S) : Ctx S := mkCtx (cx_node c) (cache_reset (cx_cache c)).

(** ** Running senders *)

Section transactions.
Context {S : Type} (node : Node S).

Definition handle {X} (c : Request X) : S -> Result X WaitError * S :=
  match c with
  | GetLatestBlockhash => nd_blockhash node
  | SendTransaction tx => nd_send node tx
  | TrySendAndConfirm tx => nd_send_and_confirm node tx
  | Pause => fun s => (Ok tt, s)
  end.

Definition store_hash (now : Instant) (hash : Z) (c : BlockhashCache) : BlockhashCache := mkCache (bc_ttl c) (Some (hash, now)).

(** A sender that runs to its end with nothing in between. *)
Fixpoint alone {A} (p : Sender A) (c : Ctx S) : Result A WaitError * Ctx S :=
  let now := nd_now node (cx_node c) in
  match p with
  | Done r => (r, c)
  | Await q k => let '(x, s) := handle q (cx_node c) in alone (k x) (mkCtx s (cx_cache c))
  | ReadCache k => alone (k (cached_hash now (cx_cache c))) c
  | WriteCache hash k => alone k (mkCtx (cx_node c) (store_hash now hash (cx_cache c)))
  | Sign _ payer cosigners ixs hash k => alone (k (sign_with_payer payer cosigners ixs hash)) c
  end.

(** What is seen of the senders: a blockhash the node gave out, one that was cached on its arrival, a
    transaction signed and one that reached the node. *)
Inductive SendEvent :=
| Fetched (at_ : Instant) (hash : Z)
| Cached (at_ : Instant) (hash : Z)
| SignedAt (at_ : Instant) (source : HashSource) (tx : Signed)
| Received (at_ : Instant) (tx : Signed).

(** One poll of a sender: it goes on until it awaits or ends. *)
Fixpoint poll {A} (now : Instant) (p : Sender A) (c : BlockhashCache) : Sender A * BlockhashCache * list SendEvent :=
  match p with
  | Done _ | Await _ _ => (p, c, [])
  | ReadCache k => poll now (k (cached_hash now c)) c
  | WriteCache hash k =>
      let '(p, c, es) := poll now k (store_hash now hash c) in (p, c, Cached now hash :: es)
  | Sign source payer cosigners ixs hash k =>
      let tx := sign_with_payer payer cosigners ixs hash in
      let '(p, c, es) := poll now (k tx) c in (p, c, SignedAt now source tx :: es)
  end.

(** What the node's handling of a request shows; an answer counts from when it is given. *)
Definition request_event {X} (c : Request X) (before after : Instant) : Result X WaitError -> list SendEvent :=
  match c with
  | GetLatestBlockhash => fun x => match x with Ok hash => [Fetched after hash] | Err _ => [] end
  | SendTransaction tx | TrySendAndConfirm tx => fun _ => [Received before tx]
  | Pause => fun _ => []
  end.

(** The senders of a context, which share it. *)
Record Senders := mkSenders { se_ctx : Ctx S; se_tasks : list (Sender unit); se_trace : list SendEvent }.

(** What a task of a context does. *)
Inductive SendOp :=
| OpTry (payer : Pubkey) (cosigners : list Pubkey) (ixs : list SolInstruction)
| OpSubmit (payer : Pubkey) (ixs : list SolInstruction)
| OpFresh (payer : Pubkey) (ixs : list SolInstruction)
| OpConfirm (payer : Pubkey) (ixs : list SolInstruction)
| OpPrepared (payer : Pubkey) (ixs : list SolInstruction)
| OpStaged (payer : Pubkey) (ixs : list SolInstruction).

(** A prepared or staged transaction is sent when its caller gets to it. *)
Definition op_sender (o : SendOp) : Sender unit :=
  match o with
  | OpTry payer cosigners ixs => let+ r := try_submit_and_confirm payer cosigners ixs in Done (Ok tt)
  | OpSubmit payer ixs => let+ sig := submit payer ixs in Done (Ok tt)
  | OpFresh payer ixs => let+ sig := submit_fresh payer ixs in Done (Ok tt)
  | OpConfirm payer ixs => let+ sig := sender_submit_and_confirm payer ixs in Done (Ok tt)
  | OpPrepared payer ixs =>
      let+ tx := prepare payer ixs in
      let+ u := await Pause in
      let+ sig := submit_prepared tx in Done (Ok tt)
  | OpStaged payer ixs =>
      let+ delivery := staged payer ixs in
      let+ u := await Pause in delivery
  end.

(** Time passes, tasks start, the node handles what is awaited, and tasks are polled, in any order. *)
Inductive send_step : Senders -> Senders -> Prop :=
| step_time s s' cache tasks trace :
    nd_now node s <= nd_now node s' -> send_step (mkSenders (mkCtx s cache) tasks trace) (mkSenders (mkCtx s' cache) tasks trace)
| step_start c tasks trace o : send_step (mkSenders c tasks trace) (mkSenders c (tasks ++ [op_sender o]) trace)
| step_poll s cache tasks trace i p p' cache' es :
    tasks !! i = Some p -> poll (nd_now node s) p cache = (p', cache', es) ->
    send_step (mkSenders (mkCtx s cache) tasks trace) (mkSenders (mkCtx s cache') (<[i := p']> tasks) (trace ++ es))
| step_handle s cache tasks trace i X (c : Request X) k x s' :
    tasks !! i = Some (Await c k) -> handle c s = (x, s') ->
    send_step (mkSenders (mkCtx s cache) tasks trace)
      (mkSenders (mkCtx s' cache) (<[i := k x]> tasks) (trace ++ request_event c (nd_now node s) (nd_now node s') x)).

Definition reset_senders (s : Senders) : Senders := mkSenders (reset_blockhash (se_ctx s)) (se_tasks s) (se_trace s).

(** * The base context *)

Context `{R : Runtime, B : Base58} {Url : Type} (keypair_of_file : string -> Result Pubkey string).

(** [airdrop_and_confirm]: the request is retried, the signature it answers with is confirmed. *)
Definition airdrop_and_confirm (pk : Pubkey) (lamports : Z) : CtxM S unit :=
  let^ text := ask (nd_airdrop node pk lamports) in
  let^ signature := ctx_result (ok_or (signature_from_str text) (WRpc "airdrop signature")) in
  ask (nd_confirm node signature).

(** With an environment the setup payer pays. *)
Definition airdrop (config : ExecutionConfig (Url := Url)) (pk : Pubkey) (lamports : Z) : CtxM S unit :=
  match ec_environment config with
  | Some environment =>
      match keypair_of_file (en_payer environment) with
      | Err e => ctx_fail (WRpc ("reading setup payer: " +:+ e))
      | Ok payer => do^ alone (ctx_submit_and_confirm payer [Prep.system_transfer payer pk lamports]) in ctx_ret tt
      end
  | None => airdrop_and_confirm pk lamports
  end.

(** [report_cell]: only inside a scenario. *)
Definition report_cell (scenario : option string) (label : string) : Result (string * string) string :=
  let? name := ok_or scenario "cell report outside a scenario run" in Ok (name, label).

(** ** Payers *)

Context (config : ExecutionConfig (Url := Url)) (dlp_id : Pubkey) (dlp_delegate : Pubkey -> Pubkey -> option Pubkey -> Z -> Pubkey -> SolInstruction).

(** [delegate_account]: payer, delegatee, no owner, the longest commit frequency, the validator. *)
Definition delegate_account (payer delegatee validator : Pubkey) : SolInstruction := dlp_delegate payer delegatee None u32_max validator.

(** The fresh key pair is an argument. *)
Definition funded_payer (fresh : Pubkey) (lamports : Z) : CtxM S Pubkey :=
  do^ airdrop config fresh lamports in ctx_ret fresh.

Definition seeded_payer (seeded : Pubkey) (lamports : Z) : CtxM S Pubkey :=
  let^ existing := ask (nd_account node seeded) in
  do^ ctx_ensure (match existing with None => true | Some _ => false end) "seeded payer already exists on this stack" in
  do^ airdrop config seeded lamports in ctx_ret seeded.

(** [bounded] with requests one after the other. *)
Fixpoint funded_payers (fresh : list Pubkey) (lamports : Z) : CtxM S (list Pubkey) :=
  match fresh with
  | [] => ctx_ret []
  | k :: fresh =>
      let^ payer := funded_payer k lamports in
      let^ payers := funded_payers fresh lamports in ctx_ret (payer :: payers)
  end.

Definition delegate_payer (funder delegatee validator : Pubkey) : CtxM S unit :=
  do^ alone (ctx_submit_and_confirm_with funder [delegatee]
        [system_assign delegatee (pubkey_bytes dlp_id); delegate_account funder delegatee validator]) in
  let^ found := ask (nd_account node delegatee) in
  let^ on_chain := ctx_result (ok_or found (WNotReady "delegated payer account missing after delegation")) in
  ctx_ensure (ac_owner on_chain =? dlp_id) "owner".

Definition delegated_payer (fresh funder validator : Pubkey) (lamports : Z) : CtxM S Pubkey :=
  let^ delegatee := funded_payer fresh lamports in
  do^ delegate_payer funder delegatee validator in ctx_ret delegatee.

(** * The rollup's context *)

(** [BTreeMap::extend]: later entries replace earlier ones. *)
Definition extend_accounts (listed : list (Pubkey * Account)) (m : gmap Pubkey Account) : gmap Pubkey Account :=
  fold_left (fun m '(k, a) => <[k := a]> m) listed m.

Fixpoint local_program_accounts (owners : list Pubkey) (m : gmap Pubkey Account) : CtxM S (gmap Pubkey Account) :=
  match owners with
  | [] => ctx_ret m
  | owner :: owners =>
      let^ listed := ask (nd_program_accounts node owner) in
      local_program_accounts owners (extend_accounts listed m)
  end.

Definition local_accounts (owners keys : list Pubkey) : CtxM S (list (option Account)) :=
  let^ accounts := local_program_accounts owners ∅ in ctx_ret ((fun k => accounts !! k) <$> keys).

Definition await_delegated_attempt (account : Pubkey) : CtxM S unit :=
  let^ is_delegated := ask (nd_delegation_status node account) in ctx_ensure is_delegated "is_delegated".

Fixpoint await_clones (pdas : list Pubkey) (space : nat) : CtxM S unit :=
  match pdas with
  | [] => ctx_ret tt
  | pda :: pdas =>
      do^ ask (nd_await_account node pda (fun a => if (length (ac_data a) =? space)%nat then Ok tt else Err "space")) in
      await_clones pdas space
  end.

(** The results of the reads are dropped. *)
Fixpoint touch (accounts : list Pubkey) (c : Ctx S) : Ctx S :=
  match accounts with
  | [] => c
  | account :: accounts => touch accounts (ask (nd_account node account) c).2
  end.

Definition prewarm (accounts : list Pubkey) (space : nat) : CtxM S unit := fun c => await_clones accounts space (touch accounts c).

Fixpoint await_cloned_payers (payers : list Pubkey) : CtxM S unit :=
  match payers with
  | [] => ctx_ret tt
  | payer :: payers =>
      do^ ask (nd_await_account node payer (fun a => if 0 <? ac_lamports a then Ok tt else Err "lamports")) in
      await_cloned_payers payers
  end.

Definition await_program_clone (program : Pubkey) : CtxM S unit :=
  do^ ask (nd_await_account node program (fun a => if ac_executable a then Ok tt else Err "executable")) in ctx_ret tt.
End transactions.

(** * Attached and owned rollups *)

(** The owner of a rollup's process, if there is one and it is still there. *)
Record ErCtx := mkErCtx { er_identity : Pubkey; er_pid : Z; er_owner : option Z; er_faults : bool }.

(** [pid]: the owner's, unless it is locked; [None] of [owner_pid] is a lock that is taken. *)
Definition ErCtx_pid (owner_pid : Z -> option Z) (e : ErCtx) : Z :=
  match er_owner e with Some owner => default (er_pid e) (owner_pid owner) | None => er_pid e end.

Definition local_pid (owner_pid : Z -> option Z) (e : ErCtx) : option Z :=
  let pid := ErCtx_pid owner_pid e in if pid =? 0 then None else Some pid.

Definition ErCtx_restart {A} (restart : Z -> Result A string) (e : ErCtx) : Result A string :=
  let? owner := ok_or (er_owner e) "only a group ER is restartable through its context" in restart owner.

Definition ErCtx_storage_dir {A} (storage_dir : Z -> A) (e : ErCtx) : Result A string :=
  let? owner := ok_or (er_owner e) "attached ER storage is not locally owned" in Ok (storage_dir owner).

Definition ErCtx_faults {A} (faults : option A) : Result A string := ok_or faults "scenario requires a fault proxy".

(** [attach]: the identity the node reports; no process of ours. *)
Definition attach `{B : Base58} (identity : Result string string) : Result ErCtx string :=
  let? text := identity in
  let? key := ok_or (pubkey_from_str text) "identity" in
  Ok (mkErCtx key 0 None false).
