(* ===== verification/ContextProps.v ===== *)
(** Contexts: every transaction a context signs from its cache carries a blockhash that arrived less
    than the cache's lifetime ago and after the last reset, and local reads see exactly the resident accounts of
    the owners asked for. *)
From Stdlib Require Import String.
From S2P Require Import Prelude World Cell Instr Build Text Float64 Rate Receipt ReceiptProps Waiting Prep Cli Context.

#[local] Open Scope string_scope.
#[local] Open Scope Z_scope.
#[local] Open Scope list_scope.
#[local] Open Scope ctx_scope.

(** * Blockhashes *)

(** The node's clock does not run back while it handles a request. *)
Definition clock_monotone {S} (node : Node S) : Prop :=
  (forall s, nd_now node s <= nd_now node (nd_blockhash node s).2) /\
  (forall tx s, nd_now node s <= nd_now node (nd_send node tx s).2) /\
  (forall tx s, nd_now node s <= nd_now node (nd_send_and_confirm node tx s).2).

Lemma handle_monotone {S} (node : Node S) {X} (c : Request X) s x s' :
  clock_monotone node -> handle node c s = (x, s') -> nd_now node s <= nd_now node s'.
Proof.
  intros (Hb & Hs & Hc). destruct c; cbn [handle]; intros H.
  - specialize (Hb s). by rewrite H in Hb.
  - specialize (Hs tx s). by rewrite H in Hs.
  - specialize (Hc tx s). by rewrite H in Hc.
  - injection H as <- <-. lia.
Qed.

Section fresh.
Context (ttl : Duration).

(** Events before a reset, and since. *)
Implicit Types (base T : list SendEvent).

Definition fetched (base T : list SendEvent) (t : Instant) (h : Z) : Prop := exists n, Fetched n h ∈ base ++ T /\ n <= t.

(** What a transaction may be signed with at [now]: a hash the node gave out and, from the cache, one
    that arrived since the reset and is younger than the lifetime. *)
Definition usable (base T : list SendEvent) (now : Instant) (source : HashSource) (h : Z) : Prop :=
  match source with
  | PastCache => fetched base T now h
  | FromCache => exists a, Cached a h ∈ T /\ fetched base T a h /\ a <= now /\ (a = now \/ now - a < ttl)
  end.

Definition answer_ok {X} (c : Request X) (base T : list SendEvent) (now : Instant) : Result X WaitError -> Prop :=
  match c with
  | GetLatestBlockhash => fun x => match x with Ok h => fetched base T now h | Err _ => True end
  | _ => fun _ => True
  end.

(** A sender that signs with usable hashes only, whatever happens while it waits. *)
Fixpoint ok {A} (base T : list SendEvent) (now : Instant) (p : Sender A) : Prop :=
  match p with
  | Done _ => True
  | Await c k => forall x base' T' now', answer_ok c base' T' now' x -> ok base' T' now' (k x)
  | ReadCache k => (forall h, usable base T now FromCache h -> ok base T now (k (Some h))) /\ ok base T now (k None)
  | WriteCache h k => fetched base T now h /\ ok base (T ++ [Cached now h]) now k
  | Sign source payer cosigners ixs h k =>
      let tx := sign_with_payer payer cosigners ixs h in
      usable base T now source h /\ ok base (T ++ [SignedAt now source tx]) now (k tx)
  end.

Lemma fetched_now base T now h : fetched base T now h -> usable base (T ++ [Cached now h]) now FromCache h.
Proof.
  intros (n & Hin & Hn). exists now. split_and!; [apply elem_of_app; right; by left| |lia|by left].
  exists n. split; [|done]. rewrite !elem_of_app in *. tauto.
Qed.

(** What follows an awaited answer, whatever it is. *)
#[local] Ltac answered := let x := fresh "x" in intros x ? ? ? _; destruct x as [[]|]; done.

Lemma op_ok o base T now : ok base T now (op_sender o).
Proof.
  destruct o.
  1, 2, 4: split; [intros h Hu; split; [done|answered]|]; intros [h|e] base' T' now' Hx; [|done];
    (split; [done|]); (split; [by apply fetched_now|answered]).
  - intros [h|e] base' T' now' Hx; [|done]. split; [done|answered].
  - split; [intros h Hu; split; [done|]|]; [intros [u|e] ? ? ? _; [answered|done]|].
    intros [h|e] base' T' now' Hx; [|done]. split; [done|]. split; [by apply fetched_now|]. intros [u|e] ? ? ? _; [answered|done].
  - split; [intros h Hu; split; [done|]|]; [intros [u|e] ? ? ? _; [answered|done]|].
    intros [h|e] base' T' now' Hx; [|done]. split; [done|]. split; [by apply fetched_now|]. intros [u|e] ? ? ? _; [answered|done].
Qed.

(** A sender that awaits or has ended is [ok] wherever time has got to. *)
Definition waits {A} (p : Sender A) : bool := match p with Done _ | Await _ _ => true | _ => false end.
Definition waits_for_hash {A} (p : Sender A) : bool :=
  match p with Done _ => false | Await c _ => match c with GetLatestBlockhash => true | _ => false end | _ => true end.

Lemma waits_ok {A} (p : Sender A) base T now base' T' now' : waits p = true -> ok base T now p -> ok base' T' now' p.
Proof. by destruct p. Qed.

(** ** Polling *)

Record trace_ok (base T : list SendEvent) (t0 now : Instant) (cache : BlockhashCache) : Prop := {
  to_ttl : bc_ttl cache = ttl;
  to_cache : forall h a, bc_cached cache = Some (h, a) -> Cached a h ∈ T /\ fetched base T a h /\ a <= now;
  to_signed : forall p source tx, SignedAt p source tx ∈ T -> usable base T p source (sx_hash tx) /\ t0 <= p;
  to_fetched : forall n h, Fetched n h ∈ T -> t0 <= n;
}.

Lemma fetched_more base T more t h : fetched base T t h -> fetched base (T ++ more) t h.
Proof. intros (n & Hin & ?). exists n. split; [|done]. rewrite !elem_of_app in *. tauto. Qed.

Lemma usable_more base T more t source h : usable base T t source h -> usable base (T ++ more) t source h.
Proof.
  destruct source; cbn; [|apply fetched_more]. intros (a & Hin & Hf & ?). exists a. split_and!; try tauto; [apply elem_of_app; by left|by apply fetched_more].
Qed.

Lemma cached_hash_usable base T t0 now cache h :
  trace_ok base T t0 now cache -> cached_hash now cache = Some h -> usable base T now FromCache h.
Proof.
  intros [Httl Hc _ _]. unfold cached_hash. destruct (bc_cached cache) as [[h' a]|]; [|done]. cbn.
  destruct (Z.ltb_spec (now - a) (bc_ttl cache)) as [Hlt|]; [|done]. intros [= ->]. destruct (Hc h a eq_refl) as (? & ? & ?).
  exists a. split_and!; try done. right. by rewrite <- Httl.
Qed.

Lemma trace_ok_more base T more t0 now now' cache :
  now <= now' -> (forall p source tx, SignedAt p source tx ∉ more) -> (forall n h, Fetched n h ∈ more -> t0 <= n) ->
  trace_ok base T t0 now cache -> trace_ok base (T ++ more) t0 now' cache.
Proof.
  intros Hn Hm Hf [Httl Hc Hs Hfe]. split; [done| | |].
  - intros h a Ha. destruct (Hc h a Ha) as (? & ? & ?). split_and!; [apply elem_of_app; by left|by apply fetched_more|lia].
  - intros p source tx [Hin|Hin]%elem_of_app; [|by apply Hm in Hin]. destruct (Hs p source tx Hin). split; [by apply usable_more|done].
  - intros n h [Hin|Hin]%elem_of_app; eauto.
Qed.

Lemma poll_ok {A} (p : Sender A) base T t0 now cache p' cache' es :
  t0 <= now -> trace_ok base T t0 now cache -> ok base T now p -> poll now p cache = (p', cache', es) ->
  trace_ok base (T ++ es) t0 now cache' /\ ok base (T ++ es) now p' /\ waits p' = true /\ forall n h, Fetched n h ∉ es.
Proof.
  intros Ht. revert T cache p' cache' es. induction p as [r|X c k _|k IH|h k IH|source payer cosigners ixs h k IH]; intros T cache p' cache' es Htr Hok; cbn [poll].
  - intros [= <- <- <-]. rewrite app_nil_r. split_and!; try done. intros n h. apply not_elem_of_nil.
  - intros [= <- <- <-]. rewrite app_nil_r. split_and!; try done. intros n h. apply not_elem_of_nil.
  - apply IH; [done|]. destruct Hok as [Hsome Hnone]. destruct (cached_hash now cache) as [h|] eqn:Hh; [|done].
    by eapply Hsome, cached_hash_usable.
  - destruct (poll now k _) as [[p1 c1] es1] eqn:E. intros [= <- <- <-]. destruct Hok as [Hf Hok].
    rewrite (cons_middle _ T es1), app_assoc. eapply (IH (T ++ [Cached now h])) in E as (H1 & H2 & H3 & H4); [| |done].
    + split_and!; [done|done|done|]. intros n h' [Hin|Hin]%elem_of_cons; [done|by eapply H4].
    + pose proof (trace_ok_more base T [Cached now h] t0 now now cache ltac:(lia)) as [Httl Hc Hs Hfe]; try done.
      { intros p source tx Hin%list_elem_of_singleton. done. }
      { intros n h' Hin%list_elem_of_singleton. done. }
      split; [done| |done|done]. cbn. intros h' a [= <- <-]. split_and!; [apply elem_of_app; right; by left|by apply fetched_more|lia].
  - destruct (poll now (k _) cache) as [[p1 c1] es1] eqn:E. intros [= <- <- <-]. destruct Hok as [Hu Hok]. set (tx := sign_with_payer _ _ _ _) in *.
    rewrite (cons_middle _ T es1), app_assoc. eapply (IH tx (T ++ [SignedAt now source tx])) in E as (H1 & H2 & H3 & H4); [| |done].
    + split_and!; [done|done|done|]. intros n h' [Hin|Hin]%elem_of_cons; [done|by eapply H4].
    + destruct Htr as [Httl Hc Hs Hfe]. split; [done| | |].
      * intros h' a Ha. destruct (Hc h' a Ha) as (? & ? & ?). split_and!; [apply elem_of_app; by left|by apply fetched_more|done].
      * intros q src tx' [Hin|Hin]%elem_of_app.
        -- destruct (Hs q src tx' Hin). split; [by apply usable_more|done].
        -- apply list_elem_of_singleton in Hin. injection Hin as -> -> ->. split; [by apply usable_more|done].
      * intros n h' [Hin|Hin]%elem_of_app; [eauto|]. by apply list_elem_of_singleton in Hin.
Qed.
End fresh.

(** ** What is sent was signed *)

(** A sender that hands on only the transactions it has signed, or that are known. *)
Fixpoint sends {A} (known : list Signed) (p : Sender A) : Prop :=
  match p with
  | Done _ => True
  | Await c k =>
      match c with SendTransaction tx | TrySendAndConfirm tx => tx ∈ known | _ => True end /\ forall x, sends known (k x)
  | ReadCache k => forall o, sends known (k o)
  | WriteCache h k => sends known k
  | Sign source payer cosigners ixs h k =>
      let tx := sign_with_payer payer cosigners ixs h in sends (tx :: known) (k tx)
  end.

Lemma op_sends o : sends [] (op_sender o).
Proof.
  destruct o; repeat (first [intros [[]|]|intros [|]|split]; cbn; try done; try (by left)).
Qed.

Lemma poll_sends {A} (p : Sender A) known now cache p' cache' es :
  sends known p -> poll now p cache = (p', cache', es) ->
  (exists known', sends known' p' /\ forall tx, tx ∈ known' -> tx ∈ known \/ exists source, SignedAt now source tx ∈ es) /\
  forall t tx, Received t tx ∉ es.
Proof.
  revert known cache p' cache' es. induction p as [r|X c k _|k IH|h k IH|source payer cosigners ixs h k IH]; intros known cache p' cache' es Hs; cbn [poll].
  - intros [= <- <- <-]. split; [exists known; split; [done|tauto]|]. intros t tx. apply not_elem_of_nil.
  - intros [= <- <- <-]. split; [exists known; split; [done|tauto]|]. intros t tx. apply not_elem_of_nil.
  - by eapply IH.
  - destruct (poll now k _) as [[p1 c1] es1] eqn:E. intros [= <- <- <-]. eapply IH in E as [(known' & Hp & Hk) Hr]; [|done].
    split.
    + exists known'. split; [done|]. intros tx Hin. destruct (Hk tx Hin) as [?|[src ?]]; [by left|right; exists src; by right].
    + intros t tx [Hin|Hin]%elem_of_cons; [done|by eapply Hr].
  - destruct (poll now (k _) cache) as [[p1 c1] es1] eqn:E. intros [= <- <- <-]. eapply IH in E as [(known' & Hp & Hk) Hr]; [|exact Hs].
    split.
    + exists known'. split; [done|]. intros tx Hin. destruct (Hk tx Hin) as [[->|?]%elem_of_cons|[src ?]];
        [right; exists source; by left|by left|right; exists src; by right].
    + intros t tx [Hin|Hin]%elem_of_cons; [done|by eapply Hr].
Qed.

(** ** The senders together *)

Section senders.
Context {S : Type} (node : Node S).
Hypothesis Hclock : clock_monotone node.
Abbreviation now s := (nd_now node (cx_node (se_ctx s))).

Definition signed_before (trace : list SendEvent) (t : Instant) (tx : Signed) : Prop :=
  exists p source, SignedAt p source tx ∈ trace /\ p <= t.

Record sent_ok (s : Senders) : Prop := {
  st_tasks : forall p, p ∈ se_tasks s -> exists known, sends known p /\ forall tx, tx ∈ known -> signed_before (se_trace s) (now s) tx;
  st_received : forall t tx, Received t tx ∈ se_trace s -> signed_before (se_trace s) t tx;
}.

Lemma signed_more trace more t t' tx : t <= t' -> signed_before trace t tx -> signed_before (trace ++ more) t' tx.
Proof. intros Ht (p & source & Hin & ?). exists p, source. split; [apply elem_of_app; by left|lia]. Qed.

Lemma elem_of_insert {A} (l : list A) i x y : y ∈ <[i := x]> l -> y = x \/ y ∈ l.
Proof.
  intros [j Hj]%list_elem_of_lookup_1. apply list_lookup_insert_Some in Hj as [(_ & -> & _)|[_ Hj]]; [by left|].
  right. by eapply list_elem_of_lookup_2.
Qed.

Lemma send_step_sent s s' : send_step node s s' -> sent_ok s -> sent_ok s'.
Proof.
  intros Hstep [Ht Hr]. destruct Hstep as [s s' cache tasks trace Htime|c tasks trace o|s cache tasks trace i p p' cache' es Hi Hp|s cache tasks trace i X c k x s' Hi Hh];
    cbn [se_ctx se_tasks se_trace cx_node] in *.
  - split; cbn; [|done]. intros p Hp. destruct (Ht p Hp) as (known & ? & Hk). exists known. split; [done|].
    intros tx Hin. destruct (Hk tx Hin) as (q & src & ? & ?). exists q, src. split; [done|lia].
  - split; cbn; [|done]. intros p [Hp|Hp%list_elem_of_singleton]%elem_of_app; [by apply Ht|]. subst p. exists []. split; [apply op_sends|].
    intros tx Hin. by apply not_elem_of_nil in Hin.
  - pose proof (list_elem_of_lookup_2 _ _ _ Hi) as Hin. destruct (Ht p Hin) as (known & Hs & Hk).
    destruct (poll_sends _ _ _ _ _ _ _ Hs Hp) as [(known' & Hs' & Hk') Hno]. split; cbn.
    + intros q [->|Hq]%elem_of_insert.
      * exists known'. split; [done|]. intros tx Htx. destruct (Hk' tx Htx) as [?|[src ?]]; [apply (signed_more _ _ _ _ _ (Z.le_refl _)); by apply Hk|].
        exists (nd_now node s), src. split; [apply elem_of_app; by right|lia].
      * destruct (Ht q Hq) as (kq & ? & Hkq). exists kq. split; [done|]. intros tx Htx. apply (signed_more _ _ _ _ _ (Z.le_refl _)). by apply Hkq.
    + intros t tx [Htx|Htx]%elem_of_app; [|by apply Hno in Htx]. apply (signed_more _ _ _ _ _ (Z.le_refl _)). by apply Hr.
  - pose proof (list_elem_of_lookup_2 _ _ _ Hi) as Hin. destruct (Ht _ Hin) as (known & [Hc Hs] & Hk).
    pose proof (handle_monotone node c s x s' Hclock Hh) as Htime. split; cbn.
    + intros q [->|Hq]%elem_of_insert.
      * exists known. split; [apply Hs|]. intros tx Htx. apply (signed_more _ _ _ _ _ Htime). by apply Hk.
      * destruct (Ht q Hq) as (kq & ? & Hkq). exists kq. split; [done|]. intros tx Htx. apply (signed_more _ _ _ _ _ Htime). by apply Hkq.
    + intros t tx [Htx|Htx]%elem_of_app; [apply (signed_more _ _ _ _ _ (Z.le_refl _)); by apply Hr|].
      assert (H : t = nd_now node s /\ tx ∈ known).
      { destruct c; cbn in Htx; try (destruct x; cbn in Htx);
          rewrite ?list_elem_of_singleton in Htx; first [by simplify_eq|by apply not_elem_of_nil in Htx]. }
      destruct H as [-> Hkn]. apply (signed_more _ _ _ _ _ (Z.le_refl _)). by apply Hk.
Qed.

(** What holds since a moment [t0], of the events [base] before and [T] since. *)
Record fresh_ok (ttl : Duration) (pre base T : list SendEvent) (t0 : Instant) (s : Senders) : Prop := {
  fo_trace : se_trace s = pre ++ T;
  fo_time : t0 <= now s;
  fo_ok : trace_ok ttl base T t0 (now s) (cx_cache (se_ctx s));
  fo_tasks : forall p, p ∈ se_tasks s -> forall base' T' now',
    (forall n h, Fetched n h ∈ base ++ T -> Fetched n h ∈ base' ++ T') -> now s <= now' -> ok ttl base' T' now' p;
}.

Lemma send_step_fresh ttl pre base T t0 s s' :
  send_step node s s' -> fresh_ok ttl pre base T t0 s -> exists T', fresh_ok ttl pre base T' t0 s'.
Proof.
  intros Hstep [Htr Htime Hok Ht]. destruct Hstep as [s s' cache tasks trace Hn|c tasks trace o|s cache tasks trace i p p' cache' es Hi Hp|s cache tasks trace i X c k x s' Hi Hh];
    cbn [se_ctx se_tasks se_trace cx_node cx_cache] in *; subst trace.
  - exists T. split; cbn; [done|lia| |].
    + rewrite <- (app_nil_r T). eapply trace_ok_more; [exact Hn| | |done]; intros *; [apply not_elem_of_nil|intros []%not_elem_of_nil].
    + intros p Hp base' T' now' Hf Hle. apply Ht; [done|done|lia].
  - exists T. split; cbn; [done|done|done|]. intros p [Hp|Hp%list_elem_of_singleton]%elem_of_app; [by apply Ht|]. subst p.
    intros base' T' now' _ _. apply op_ok.
  - pose proof (list_elem_of_lookup_2 _ _ _ Hi) as Hin.
    destruct (poll_ok ttl p base T t0 _ _ _ _ _ Htime Hok (Ht p Hin base T _ (fun _ _ H => H) (Z.le_refl _)) Hp) as (H1 & H2 & H3 & H4).
    exists (T ++ es). split; cbn; [by rewrite app_assoc|done|done|]. intros q [->|Hq]%elem_of_insert base' T' now' Hf Hle; [by eapply waits_ok|].
    apply Ht; [done| |done]. intros n h Hnh. apply Hf. rewrite !elem_of_app in *. tauto.
  - pose proof (list_elem_of_lookup_2 _ _ _ Hi) as Hin. pose proof (handle_monotone node c s x s' Hclock Hh) as Hn.
    set (es := request_event c (nd_now node s) (nd_now node s') x). exists (T ++ es). split; cbn; [by rewrite app_assoc|lia| |].
    + eapply trace_ok_more; [exact Hn| | |done].
      * intros p src tx Htx. subst es. destruct c; cbn in Htx; try (destruct x; cbn in Htx); rewrite ?list_elem_of_singleton in Htx; first [done|by apply not_elem_of_nil in Htx].
      * intros n h Hnh. subst es. destruct c; cbn in Hnh; try (destruct x; cbn in Hnh);
          rewrite ?list_elem_of_singleton in Hnh;
          first [injection Hnh as -> ->; lia|by apply not_elem_of_nil in Hnh|done].
    + intros q [->|Hq]%elem_of_insert base' T' now' Hf Hle.
      * pose proof (Ht _ Hin base T (nd_now node s) (fun _ _ H => H) (Z.le_refl _)) as Hk. apply Hk.
        destruct c; cbn; try done. destruct x as [h|e]; [|done]. exists (nd_now node s'). split; [|done]. apply Hf. subst es. cbn.
        rewrite !elem_of_app, list_elem_of_singleton. tauto.
      * apply Ht; [done| |lia]. intros n h Hnh. apply Hf. rewrite !elem_of_app in *. tauto.
Qed.

Lemma send_steps_ok ttl pre base T t0 s s' :
  rtc (send_step node) s s' -> fresh_ok ttl pre base T t0 s -> sent_ok s -> sent_ok s' /\ exists T', fresh_ok ttl pre base T' t0 s'.
Proof.
  intros Hr. revert T. induction Hr as [s|s s1 s2 Hs _ IH]; intros T Hf Hsent; [eauto|].
  destruct (send_step_fresh _ _ _ _ _ _ _ Hs Hf) as [T' Hf']. eapply IH; [done|]. by eapply send_step_sent.
Qed.

(** No [get] or fetch is under way: every task waits for something else, or has ended.  (One that
    was never polled counts as being under way.) *)
Definition no_fetch (s : Senders (S := S)) : bool := forallb (fun p => negb (waits_for_hash p)) (se_tasks s).

(** A context as it is made. *)
Definition new_senders (s : S) (ttl : Duration) : Senders (S := S) := mkSenders (mkCtx s (BlockhashCache_new ttl)) [] [].

Lemma new_ok s ttl : fresh_ok ttl [] [] [] (nd_now node s) (new_senders s ttl) /\ sent_ok (new_senders s ttl).
Proof.
  split; [split; cbn; [done|lia| |]|split; cbn].
  - split; cbn; [done|done| |]; intros *; intros []%not_elem_of_nil.
  - intros p []%not_elem_of_nil.
  - intros p []%not_elem_of_nil.
  - intros t tx []%not_elem_of_nil.
Qed.

(** Resetting the cache starts a new window. *)
Lemma reset_ok ttl T t0 s :
  fresh_ok ttl [] [] T t0 s -> sent_ok s ->
  fresh_ok ttl (se_trace s) (if no_fetch s then [] else se_trace s) [] (now s) (reset_senders s) /\ sent_ok (reset_senders s).
Proof.
  intros [Htr Htime [Httl _ _ _] Ht] [Hs1 Hs2]. cbn in Htr. subst T. split; [|by split]. split; cbn.
  - by rewrite app_nil_r.
  - lia.
  - split; cbn; [done|done| |]; intros *; intros []%not_elem_of_nil.
  - intros p Hp base' T' now' Hf Hle. destruct (no_fetch s) eqn:Hq.
    + pose proof (proj1 (forallb_forall _ _) Hq p (proj1 (list_elem_of_In _ _) Hp)) as Hw.
      apply (waits_ok ttl p [] (se_trace s) (now s)); [by destruct p|]. apply Ht; [done|done|lia].
    + apply Ht; [done| |done]. intros n h Hnh. apply Hf. by rewrite app_nil_r.
Qed.
End senders.

(** C38: A context never signs with a stale blockhash.  However its senders, prepared and staged
    transactions and the node take turns, once the cache is reset, as a restart of the rollup does,
    every transaction signed with the cache's hash carries one that arrived after the reset and less than the
    lifetime ago, and that the node gave out after the reset too unless a [get] or fetch was under way
    then; past the cache it is one the node gave out.  Whatever the node receives was signed before. *)
Theorem blockhashes_are_fresh {S} (node : Node S) s0 ttl s s' :
  clock_monotone node -> rtc (send_step node) (new_senders s0 ttl) s -> rtc (send_step node) (reset_senders s) s' ->
  exists since, se_trace s' = se_trace s ++ since /\
    (forall t tx, Received t tx ∈ since -> exists p source, SignedAt p source tx ∈ se_trace s' /\ p <= t) /\
    (forall p source tx, SignedAt p source tx ∈ since ->
       exists n a, Fetched n (sx_hash tx) ∈ se_trace s' /\ n <= a <= p /\ nd_now node (cx_node (se_ctx s)) <= p /\
         (no_fetch s = true -> Fetched n (sx_hash tx) ∈ since /\ nd_now node (cx_node (se_ctx s)) <= n) /\
         (source = FromCache -> Cached a (sx_hash tx) ∈ since /\ (a = p \/ p - a < ttl))).
Proof.
  intros Hclock Hr Hr'. destruct (new_ok node s0 ttl) as [H0 H0'].
  destruct (send_steps_ok node Hclock _ _ _ _ _ _ _ Hr H0 H0') as [Hsent [T Hf]].
  destruct (reset_ok node _ _ _ _ Hf Hsent) as [H1 H1']. destruct (send_steps_ok node Hclock _ _ _ _ _ _ _ Hr' H1 H1') as [Hsent' [since Hf']].
  destruct Hf' as [Htr Htime [Httl _ Hsig Hfe] _]. exists since. split; [exact Htr|]. split.
  - intros t tx Hin. apply (st_received _ _ Hsent'). rewrite Htr. apply elem_of_app. by right.
  - intros p source tx Hin. destruct (Hsig p source tx Hin) as [Hu Hp].
    assert (Hget : forall a, fetched (if no_fetch s then [] else se_trace s) since a (sx_hash tx) ->
      exists n, Fetched n (sx_hash tx) ∈ se_trace s' /\ n <= a /\
        (no_fetch s = true -> Fetched n (sx_hash tx) ∈ since /\ nd_now node (cx_node (se_ctx s)) <= n)).
    { intros a (n & Hn & Hle). exists n. split; [|split; [done|]].
      - rewrite Htr. apply elem_of_app in Hn as [Hn|Hn]; apply elem_of_app; [|by right].
        destruct (no_fetch s); [by apply not_elem_of_nil in Hn|by left].
      - intros Hq. rewrite Hq in Hn. cbn in Hn. split; [done|]. by apply Hfe in Hn. }
    destruct source.
    + destruct Hu as (a & Hc & Hfa & Hap & Hage). destruct (Hget a Hfa) as (n & ? & ? & ?). exists n, a. split_and!; done || lia.
    + destruct (Hget p Hu) as (n & ? & ? & ?). exists n, p. split_and!; done || lia.
Qed.

(** ** A node whose blockhash is its clock *)

Definition tick {A} (d : Z) (a : A) (s : Z) : Result A WaitError * Z := (Ok a, s + d).
Definition clock_node : Node Z :=
  mkNode _ (fun s => s) (fun s => (Ok s, s + 1)) (fun _ => tick 7 (Ok 1)) (fun _ => tick 7 (Ok 1)) (fun _ => tick 1 None)
    (fun _ => tick 1 []) (fun _ _ => tick 1 Account_default) (fun _ _ => tick 1 EmptyString) (fun _ => tick 1 tt) (fun _ => tick 1 true).

Lemma clock_node_monotone : clock_monotone clock_node.
Proof. unfold clock_monotone, clock_node, tick; cbn; split_and!; intros; lia. Qed.

#[local] Ltac polls i := eapply rtc_l; [eapply (step_poll clock_node _ _ _ _ i); reflexivity|]; cbn.
#[local] Ltac handles i := eapply rtc_l; [eapply (step_handle clock_node _ _ _ _ i); reflexivity|]; cbn.
#[local] Ltac starts o := eapply rtc_l; [apply (step_start clock_node _ _ _ o)|]; cbn.

(** A transaction that is prepared before the reset is delivered after it; the next one is signed anew. *)
Definition tx_over (hash : Z) : Signed := mkSigned (mkTx 5 [] []) hash.

Lemma reset_run : exists s s',
  rtc (send_step clock_node) (new_senders 100 10) s /\ rtc (send_step clock_node) (reset_senders s) s' /\ no_fetch s = true /\
  se_trace s = [Fetched 101 100; Cached 101 100; SignedAt 101 FromCache (tx_over 100)] /\
  se_trace s' = se_trace s ++ [Received 101 (tx_over 100); Fetched 109 108; Cached 109 108; SignedAt 109 FromCache (tx_over 108);
                               Received 109 (tx_over 108)].
Proof.
  eexists. eexists. split; [starts (OpPrepared 5 []); polls 0%nat; handles 0%nat; polls 0%nat; apply rtc_refl|].
  split; [unfold reset_senders, reset_blockhash; cbn; handles 0%nat; handles 0%nat;
    starts (OpSubmit 5 []); polls 1%nat; handles 1%nat; polls 1%nat; handles 1%nat; apply rtc_refl|].
  split; [reflexivity|]. split; reflexivity.
Qed.

Lemma blockhashes_are_fresh_witness :
  exists s s', rtc (send_step clock_node) (new_senders 100 10) s /\ rtc (send_step clock_node) (reset_senders s) s' /\
    exists since, se_trace s' = se_trace s ++ since /\ SignedAt 109 FromCache (tx_over 108) ∈ since /\
      exists n, Fetched n 108 ∈ since /\ nd_now clock_node (cx_node (se_ctx s)) <= n <= 109.
Proof.
  destruct reset_run as (s & s' & Hr & Hr' & Hq & Ht & Ht'). exists s, s'. split; [exact Hr|]. split; [exact Hr'|].
  destruct (blockhashes_are_fresh clock_node 100 10 s s' clock_node_monotone Hr Hr') as (since & Hs & _ & H).
  exists since. split; [exact Hs|]. rewrite Hs in Ht'. apply app_inv_head in Ht'.
  assert (Hin : SignedAt 109 FromCache (tx_over 108) ∈ since) by (rewrite Ht'; do 3 right; left). split; [exact Hin|].
  destruct (H 109 FromCache (tx_over 108) Hin) as (n & a & _ & Hle & _ & Hfetch & _). destruct (Hfetch Hq) as [Hf Hn].
  exists n. split; [exact Hf|lia].
Defined.

(** * Local accounts *)

Lemma extend_accounts_lookup l m k :
  NoDup l.*1 -> extend_accounts l m !! k = match (list_to_map l : gmap Pubkey Account) !! k with Some a => Some a | None => m !! k end.
Proof.
  unfold extend_accounts. revert m. induction l as [|[k' a] l IH]; intros m Hn; [done|]. cbn [fmap list_fmap fst] in Hn. apply NoDup_cons in Hn as [Hk Hn].
  cbn [fold_left list_to_map foldr uncurry]. rewrite IH by done. destruct (decide (k = k')) as [->|Hne].
  - rewrite !lookup_insert_eq. by rewrite (not_elem_of_list_to_map_1 l k' Hk).
  - by rewrite !lookup_insert_ne.
Qed.

(** A node that lists the resident accounts of a program, and keeps them. *)
Definition lists_residents {S} (node : Node S) (residents : gmap Pubkey Account) : Prop :=
  forall owner s, exists listed, nd_program_accounts node owner s = (Ok listed, s) /\ NoDup listed.*1 /\
    forall k a, (k, a) ∈ listed <-> residents !! k = Some a /\ ac_owner a = owner.

Section local.
Context {S : Type} (node : Node S) (residents : gmap Pubkey Account).
Hypothesis Hlists : lists_residents node residents.

Lemma listed_lookup owner listed k :
  NoDup listed.*1 -> (forall k a, (k, a) ∈ listed <-> residents !! k = Some a /\ ac_owner a = owner) ->
  (list_to_map listed : gmap Pubkey Account) !! k = a ← residents !! k; if bool_decide (ac_owner a = owner) then Some a else None.
Proof.
  intros Hn Hl. destruct (list_to_map listed !! k) as [a|] eqn:El.
  - apply elem_of_list_to_map_2, Hl in El as [-> Ho]. cbn. by rewrite bool_decide_eq_true_2.
  - apply not_elem_of_list_to_map_2 in El. destruct (residents !! k) as [a|] eqn:Er; [|done]. cbn. rewrite bool_decide_eq_false_2; [done|].
    intros Ho. apply El, list_elem_of_fmap. exists (k, a). split; [done|]. by apply Hl.
Qed.

Lemma local_program_accounts_spec owners m c :
  exists m', local_program_accounts node owners m c = (Ok m', c) /\
    forall k, m' !! k = match residents !! k with
                        | Some a => if bool_decide (ac_owner a ∈ owners) then Some a else m !! k
                        | None => m !! k
                        end.
Proof.
  revert m. induction owners as [|owner owners IH]; intros m; cbn [local_program_accounts].
  - exists m. split; [done|]. intros k. destruct (residents !! k); [|done]. by rewrite bool_decide_eq_false_2 by apply not_elem_of_nil.
  - destruct (Hlists owner (cx_node c)) as (listed & Hl & Hn & Hin). destruct (IH (extend_accounts listed m)) as (m' & Hm' & Hk).
    exists m'. unfold ctx_bind, ask. rewrite Hl. replace (mkCtx (cx_node c) (cx_cache c)) with c by (by destruct c). split; [done|].
    intros k. rewrite Hk, extend_accounts_lookup, (listed_lookup owner) by done. destruct (residents !! k) as [a|] eqn:Er; [|done].
    cbn [mbind option_bind]. repeat case_bool_decide; try done; set_solver.
Qed.

(** Local reads see the resident accounts of the owners asked for, in the order of the keys, and change
    nothing. *)
Lemma local_accounts_are_resident owners keys c :
  local_accounts node owners keys c =
  (Ok ((fun k => a ← residents !! k; if bool_decide (ac_owner a ∈ owners) then Some a else None) <$> keys), c).
Proof.
  unfold local_accounts, ctx_bind. destruct (local_program_accounts_spec owners ∅ c) as (m & -> & Hm). unfold ctx_ret. do 2 f_equal.
  apply list_fmap_ext. intros i k _. rewrite Hm. by destruct (residents !! k).
Qed.
End local.

(** A delegated payer is seen to belong to the delegation program before it is used. *)
Lemma delegate_payer_checked {S} `{Runtime} (node : Node S) dlp_id dlp_delegate funder delegatee validator c c' :
  delegate_payer node dlp_id dlp_delegate funder delegatee validator c = (Ok tt, c') ->
  exists s a s', nd_account node delegatee s = (Ok (Some a), s') /\ ac_owner a = dlp_id /\ cx_node c' = s'.
Proof.
  unfold delegate_payer, ctx_bind. destruct (alone node (ctx_submit_and_confirm_with _ _ _) c) as [[sig|e] c1]; [|done].
  unfold ask. destruct (nd_account node delegatee (cx_node c1)) as [[[a|]|e] s'] eqn:Ea; [|done|done]. cbn.
  unfold ctx_ensure. destruct (Z.eqb_spec (ac_owner a) dlp_id) as [Ho|]; [|done]. intros [= <-]. by exists (cx_node c1), a, s'.
Qed.
