(* ===== verification/Projected.v ===== *)
(** Projected tokens: [redshift/src/scenarios/chainlink/projected_token_lifecycle/mod.rs] and
    [magic_atas.rs] beside it.

    The base chain, the rollup and the fault proxy between them are the record [TokenNet]: the requests
    the scenario makes, each of which may change the state [S] behind it.  Fresh key pairs are
    arguments.  The instructions are those of [Spl.v]. *)
From Stdlib Require Import String.
From S2P Require Import Prelude World Cell Instr Build Text Float64 Waiting Prep Spl.

#[local] Open Scope string_scope.
#[local] Open Scope Z_scope.
#[local] Open Scope list_scope.

Definition INITIAL : list Z := [200; 100; 70; 45].
Definition SUPPLY : Z := 415.
Definition ACTION_AMOUNT : Z := 100.
Definition FAILING_AMOUNT : Z := 1000000.
Definition PAYER_LAMPORTS : Z := 2000000000.

(** * Refusals *)

Inductive TxInstructionError := ExternalAccountDataModified | ReadonlyDataModified | Immutable | OtherInstruction.
Inductive TxFailure := InvalidWritableAccount | InInstruction (index : Z) (e : TxInstructionError) | OtherFailure.
Inductive Refusal := RefusedByRpc (code : Z) (message : string) | RefusedInExecution (e : TxFailure).

Inductive TokenError := TNet | TMissing | TMismatch | TNotReadonly | TAccepted | TUnderflow.

Definition check_readonly (r : Refusal) : bool :=
  match r with
  | RefusedByRpc code message =>
      (code =? -32003) &&
      existsb (fun name => contains name message) ["InvalidWritableAccount"; "ExternalAccountDataModified"; "ReadonlyDataModified"; "Immutable"]
  | RefusedInExecution InvalidWritableAccount => true
  | RefusedInExecution (InInstruction _ (ExternalAccountDataModified | ReadonlyDataModified | Immutable)) => true
  | RefusedInExecution _ => false
  end.

(** * Balances *)

Record Balances := mkBalances { bl_base_atas : list Z; bl_eatas : list (option Z); bl_projected : list Z; bl_vault : list Z }.

#[export] Instance Balances_eq_dec : EqDecision Balances.
Proof. solve_decision. Defined.

Definition sum_of (l : list Z) : Z := foldr Z.add 0 l.

(** The sums are of a few hundred tokens; a missing entry stands for the panic of the index. *)
Definition check_supply (b : Balances) (active_claims extra_base supply : Z) : bool :=
  let claims := active_claims + default 0 (default None (bl_eatas b !! 3%nat)) + default 0 (bl_vault b !! 1%nat) in
  let vault := default 0 (bl_vault b !! 0%nat) in
  (vault =? claims) && (sum_of (bl_base_atas b) + vault + extra_base =? supply).

(** * The network *)

Inductive Side := Base | Er.
(** [AwaitHeld]: the send is held and its transaction is seen to have landed without an error. *)
Inductive FaultStep := StallStatuses | StallNotifications | InterceptSend (account : Pubkey) | AwaitHeld | DiscardHeld | DisconnectHttp | DisconnectWs | RemoveRules | ResetFaults.

Record TokenNet (S : Type) := mkTokenNet
  { tn_submit : Side -> Pubkey -> list Pubkey -> list SolInstruction -> S -> Result Z TokenError * S;
    tn_try_submit : Side -> Pubkey -> list Pubkey -> list SolInstruction -> S -> Result (Result Z Refusal) TokenError * S;
    tn_account : Side -> Pubkey -> S -> Result (option Account) TokenError * S;
    tn_accounts : Side -> list Pubkey -> S -> Result (list (option Account)) TokenError * S;
    tn_await : Side -> list Pubkey -> (list (option Account) -> bool) -> S -> Result (list (option Account)) TokenError * S;
    tn_airdrop : Pubkey -> Z -> S -> Result unit TokenError * S;
    (** the receipt of a settlement: fetched, successful, with these accounts in this mode, and confirmed *)
    tn_settled : Z -> list Pubkey -> bool -> S -> Result unit TokenError * S;
    tn_fault : FaultStep -> S -> Result unit TokenError * S;
    (** a close is sent, and the account's subscription sees the empty system account *)
    tn_close : Pubkey -> list Pubkey -> SolInstruction -> Pubkey -> S -> Result unit TokenError * S }.
Arguments tn_submit {S} _. Arguments tn_try_submit {S} _. Arguments tn_account {S} _. Arguments tn_accounts {S} _. Arguments tn_await {S} _. Arguments tn_airdrop {S} _.
Arguments tn_settled {S} _. Arguments tn_fault {S} _. Arguments tn_close {S} _.

(** A request that may fail and may change the state behind it. *)
Definition Eff (E S A : Type) : Type := S -> Result A E * S.
Definition Tok (S A : Type) : Type := Eff TokenError S A.

Section monad.
Context {S E : Type}.
Definition tok_ret {A} (a : A) : Eff E S A := fun s => (Ok a, s).
Definition tok_fail {A} (e : E) : Eff E S A := fun s => (Err e, s).
Definition tok_bind {A B} (m : Eff E S A) (k : A -> Eff E S B) : Eff E S B := fun s =>
  match m s with (Ok a, s) => k a s | (Err e, s) => (Err e, s) end.
Fixpoint tok_each {A} (f : A -> Eff E S unit) (l : list A) : Eff E S unit :=
  match l with
  | [] => tok_ret tt
  | a :: l => tok_bind (f a) (fun _ => tok_each f l)
  end.
Fixpoint tok_map {A B} (f : A -> Eff E S B) (l : list A) : Eff E S (list B) :=
  match l with
  | [] => tok_ret []
  | a :: l => tok_bind (f a) (fun b => tok_bind (tok_map f l) (fun bs => tok_ret (b :: bs)))
  end.
End monad.

Section checks.
Context {S : Type}.
Definition tok_ensure (b : bool) : Tok S unit := if b then tok_ret tt else tok_fail TMismatch.
Definition tok_some {A} (o : option A) : Tok S A := match o with Some a => tok_ret a | None => tok_fail TMissing end.
End checks.

Declare Scope tok_scope.
Delimit Scope tok_scope with tok.
Notation "'let~' x := m 'in' f" := (tok_bind m (fun x => f)) (at level 200, x name, m at level 100, f at level 200) : tok_scope.
Notation "'do~' m 'in' f" := (tok_bind m (fun _ => f)) (at level 200, m at level 100, f at level 200) : tok_scope.
#[local] Open Scope tok_scope.

(** * Wallets *)

Record Wallet := mkWallet { wl_owner : Pubkey; wl_mint : Pubkey; wl_ata : Pubkey; wl_eata : Pubkey }.

Section wallets.
Context `{R : Runtime, E : EsplSdk}.

Definition Wallet_new (mint owner : Pubkey) : Wallet := mkWallet owner mint (derive_ata owner mint) (derive_eata owner mint).
(** The token account of the vault of the mint, and its eATA. *)
Definition vault_accounts (mint : Pubkey) : list Pubkey :=
  let global_vault := derive_global_vault mint in [derive_ata global_vault mint; derive_eata global_vault mint].
Definition transfer_to (w to_ : Wallet) (amount : Z) : SolInstruction := transfer (wl_ata w) (wl_ata to_) (wl_owner w) amount.
Definition w_create (w : Wallet) (payer : Pubkey) : SolInstruction := create_ata_idempotent payer (wl_owner w) (wl_mint w).
Definition w_mint_to (w : Wallet) (payer : Pubkey) (amount : Z) : SolInstruction := mint_to (wl_mint w) (wl_ata w) payer amount.
Definition w_initialize (w : Wallet) (payer : Pubkey) : SolInstruction := initialize_eata payer (wl_owner w) (wl_mint w).
Definition w_delegate (w : Wallet) (payer validator : Pubkey) : SolInstruction := delegate_eata payer (wl_owner w) (wl_mint w) validator.
Definition w_deposit (w : Wallet) (amount : Z) : SolInstruction := deposit_spl_tokens (wl_owner w) (wl_mint w) amount.
Definition w_approve (w : Wallet) (delegate : Pubkey) (amount : Z) : SolInstruction := approve (wl_ata w) delegate (wl_owner w) amount.
Definition w_revoke (w : Wallet) : SolInstruction := revoke (wl_ata w) (wl_owner w).
Definition w_freeze (w : Wallet) (auth : Pubkey) : SolInstruction := freeze_account (wl_ata w) (wl_mint w) auth.
Definition w_ensure (w : Wallet) (payer : Pubkey) : SolInstruction := ensure_magic_ata payer (wl_owner w) (wl_mint w).
Definition w_close (w : Wallet) : SolInstruction := close_magic_ata (wl_owner w) (wl_mint w).
End wallets.

(** * The lifecycle *)

Section lifecycle.
Context `{R : Runtime, C : InstructionCodec, B : BuildSdk, E : EsplSdk} {S : Type} (net : TokenNet S).
Context (redline dlp_id : Pubkey) (delegate_with_actions : Pubkey -> Pubkey -> Pubkey -> list SolInstruction -> SolInstruction).
Context (validator payer mint : Pubkey) (wallets : list Wallet) (vault : list Pubkey).

Definition wallet (i : nat) : Wallet := nth i wallets (mkWallet 0 0 0 0).
Definition atas : list Pubkey := wl_ata <$> wallets.
Definition active : list Wallet := take 2 wallets.

(** ** Reading *)

Definition token_balance_at (side : Side) (k : Pubkey) : Tok S (option Z) :=
  let~ a := tn_account net side k in tok_ret (a ≫= fun a => account_balance (ac_data a)).

Definition amount (side : Side) (k : Pubkey) : Tok S Z :=
  let~ b := token_balance_at side k in tok_some b.

Definition read_wallet (w : Wallet) : Tok S (Z * option Z * Z) :=
  let~ b := amount Base (wl_ata w) in
  let~ e := token_balance_at Base (wl_eata w) in
  let~ p := amount Er (wl_ata w) in
  tok_ret (b, e, p).

Definition balances : Tok S Balances :=
  let~ rows := tok_map read_wallet wallets in
  let~ v := tok_map (amount Base) vault in
  tok_ret (mkBalances ((fun r => r.1.1) <$> rows) ((fun r => r.1.2) <$> rows) (snd <$> rows) v).

Definition check_balances (expected : Balances) : Tok S unit :=
  let~ observed := balances in tok_ensure (bool_decide (observed = expected)).

Definition projection_ready (expected : list Z) (accounts : list (option Account)) : bool :=
  forallb (fun '(a, e) => match a with Some a => bool_decide (account_balance (ac_data a) = Some e) | None => false end) (zip accounts expected).

Definition await_projection (expected : list Z) : Tok S unit :=
  do~ tn_await net Er atas (projection_ready expected) in tok_ret tt.

Definition check_owner (k owner : Pubkey) : Tok S unit :=
  let~ a := tn_account net Base k in tok_ensure (bool_decide (ac_owner <$> a = Some owner)).

(** ** Acting *)

Definition submit_to (side : Side) (signer : Pubkey) (ixs : list SolInstruction) : Tok S Z := tn_submit net side signer [] ixs.

Definition w_transfer (i j : nat) (amount : Z) : Tok S Z := submit_to Er (wl_owner (wallet i)) [transfer_to (wallet i) (wallet j) amount].

Definition delegate (payer : Pubkey) (w : Wallet) (validator : Pubkey) : Tok S unit :=
  do~ submit_to Base payer [w_delegate w payer validator] in check_owner (wl_eata w) dlp_id.

Definition commit (id : Z) (ws : list Wallet) : Tok S Z :=
  let~ batch := tok_some (Batch_settle validator (wl_ata <$> ws) Commit (Batch_nonce id (Program_batch redline))) in
  submit_to Er validator [Batch_build batch].

Definition create_wallet (i : nat) (w : Wallet) : Tok S unit :=
  do~ tn_airdrop net (wl_owner w) PAYER_LAMPORTS in
  do~ submit_to Base payer
        ([w_create w payer; w_mint_to w payer (nth i INITIAL 0)] ++ if (i =? 2)%nat then [] else [w_initialize w payer]) in
  tok_ret tt.

Definition await_clone (expected : Balances) (control : nat) : Tok S unit :=
  let~ first := tn_await net Er [wl_ata (wallet control)]
    (fun accounts => match accounts !! 0%nat with Some (Some a) => bool_decide (is_Some (account_balance (ac_data a))) | _ => false end) in
  tok_ensure (bool_decide (((default None (first !! 0%nat)) ≫= fun a => account_balance (ac_data a)) = bl_projected expected !! control)).

Definition create_tokens (foreign_validator : Pubkey) (expected : Balances) : Tok S unit :=
  do~ tn_submit net Base payer [mint] [allocate_mint payer mint; initialize_mint mint payer; initialize_global_vault payer mint] in
  do~ tok_each (fun '(i, w) => create_wallet i w) (imap pair wallets) in
  do~ submit_to Base (wl_owner (wallet 3)) [w_deposit (wallet 3) 40] in
  do~ delegate payer (wallet 3) foreign_validator in
  do~ tok_each (await_clone expected) [2; 3]%nat in
  await_projection (bl_projected expected).

Definition deposit : Tok S unit :=
  tok_each (fun '(w, initial) => do~ submit_to Base (wl_owner w) [w_deposit w initial] in tok_ret tt) (zip active INITIAL).

Definition delegate_wallets : Tok S unit := tok_each (fun w => delegate payer w validator) active.
Definition redelegate : Tok S unit := tok_each (fun w => delegate (wl_owner w) w validator) active.

(** A funded payer is assigned to the delegation program and delegated with a transfer to run then. *)
Definition delegate_with_transfer (fresh : Pubkey) (amount : Z) : Tok S Pubkey :=
  do~ tn_airdrop net fresh PAYER_LAMPORTS in
  do~ tn_submit net Base payer [fresh; wl_owner (wallet 0)]
        [system_assign fresh (pubkey_bytes dlp_id);
         delegate_with_actions payer fresh validator [transfer_to (wallet 0) (wallet 1) amount]] in
  tok_ret fresh.

Definition check_failing_action (fresh : Pubkey) : Tok S unit :=
  let~ failing := delegate_with_transfer fresh FAILING_AMOUNT in
  do~ tn_await net Base [failing]
        (fun accounts => match accounts !! 0%nat with Some (Some a) => bool_decide (ac_owner a = system_program_id) | _ => false end) in
  tok_ret tt.

(** The control wallets can neither send nor receive, and nothing changes. *)
Definition check_control (before : list (option Account)) (amount : Z) (ends : nat * nat) : Tok S unit :=
  let '(from, to_) := ends in
  let~ r := tn_try_submit net Er (wl_owner (wallet from)) [] [transfer_to (wallet from) (wallet to_) amount] in
  match r with
  | Ok _ => tok_fail TAccepted
  | Err e =>
      if check_readonly e then
        let~ now := tn_accounts net Er atas in tok_ensure (bool_decide (now = before))
      else tok_fail TNotReadonly
  end.

Definition check_controls (amount : Z) : Tok S unit :=
  let~ before := tn_accounts net Er atas in
  tok_each (check_control before amount) [(2, 0); (0, 2); (3, 0); (0, 3)]%nat.

(** The base commit lands, its answer and both ways to confirm it are held back. *)
Definition commit_withheld : Tok S Z :=
  do~ tn_fault net StallStatuses in
  do~ tn_fault net StallNotifications in
  do~ tn_fault net (InterceptSend (wl_eata (wallet 0))) in
  let~ signature := commit 1 active in
  do~ tn_fault net AwaitHeld in
  tok_ret signature.

Definition eatas : list Pubkey := wl_eata <$> active.

Definition recover_confirmation (signature : Z) : Tok S unit :=
  do~ tn_fault net DiscardHeld in
  do~ tn_fault net DisconnectHttp in
  do~ tn_fault net DisconnectWs in
  do~ tn_fault net RemoveRules in
  tn_settled net signature eatas false.

Definition undelegate_wallet (w : Wallet) : Tok S unit :=
  let~ signature := submit_to Er (wl_owner w) [UndelegateEphemeralAtaBuilder (wl_owner w) (wl_owner w) mint] in
  do~ tn_settled net signature [wl_eata w] true in
  check_owner (wl_eata w) eata_program.

Definition undelegate_wallets : Tok S unit := tok_each undelegate_wallet active.

Definition withdraw : Tok S unit :=
  do~ submit_to Base (wl_owner (wallet 0)) [withdraw_spl_tokens (wl_owner (wallet 0)) mint 20] in tok_ret tt.

Definition finish : Tok S unit := tn_fault net ResetFaults.

(** ** The run *)

Definition with_eatas (b : Balances) (e : list (option Z)) : Balances :=
  mkBalances (bl_base_atas b) (e ++ drop 2 (bl_eatas b)) (bl_projected b) (bl_vault b).
Definition with_projected (b : Balances) (p : list Z) : Balances := mkBalances (bl_base_atas b) (bl_eatas b) p (bl_vault b).

Definition created : Balances := mkBalances [200; 100; 70; 5] [Some 0; Some 0; None; Some 40] [200; 100; 70; 5] [40; 0].
Definition deposited : Balances := mkBalances [0; 0; 70; 5] [Some 200; Some 100; None; Some 40] [0; 0; 70; 5] [340; 0].
Definition delegated : Balances := with_projected deposited [200; 100; 70; 5].
Definition acted : Balances := with_projected delegated [100; 200; 70; 5].
Definition moved_37 : Balances := with_projected acted [63; 237; 70; 5].
Definition landed : Balances := with_eatas moved_37 [Some 63; Some 237].
Definition moved_11 : Balances := with_projected landed [52; 248; 70; 5].
Definition recommitted : Balances := with_eatas moved_11 [Some 52; Some 248].
Definition undelegated : Balances := with_projected recommitted (bl_base_atas recommitted).
Definition withdrawn : Balances := mkBalances [20; 0; 70; 5] [Some 32; Some 248; None; Some 40] [20; 0; 70; 5] [320; 0].
Definition redelegated : Balances := with_projected withdrawn [32; 248; 70; 5].
Definition moved_7 : Balances := with_projected redelegated [25; 255; 70; 5].
Definition settled_again : Balances := with_eatas moved_7 [Some 25; Some 255].

(** Up to the delegation both modes share. *)
Definition establish (foreign_validator : Pubkey) : Tok S unit :=
  do~ create_tokens foreign_validator created in
  do~ check_balances created in
  do~ deposit in
  do~ await_projection (bl_projected deposited) in
  do~ check_balances deposited in
  do~ delegate_wallets in
  await_projection (bl_projected delegated).

(** Commits, a lost confirmation, and newer transfers that must survive it. *)
Definition settle_backing (fresh1 fresh2 : Pubkey) : Tok S unit :=
  do~ check_controls 1 in
  do~ check_balances delegated in
  let~ trigger := delegate_with_transfer fresh1 ACTION_AMOUNT in
  do~ await_projection (bl_projected acted) in
  do~ check_owner trigger dlp_id in
  do~ check_balances acted in
  do~ check_failing_action fresh2 in
  do~ check_balances acted in
  do~ w_transfer 0 1 37 in
  do~ check_balances moved_37 in
  let~ signature := commit_withheld in
  do~ check_balances landed in
  do~ w_transfer 0 1 11 in
  do~ check_balances moved_11 in
  do~ recover_confirmation signature in
  do~ check_controls 2 in
  do~ check_balances moved_11 in
  let~ signature := commit 2 active in
  do~ tn_settled net signature eatas false in
  check_balances recommitted.

(** Undelegation, withdrawal and redelegation. *)
Definition return_backing : Tok S unit :=
  do~ undelegate_wallets in
  do~ await_projection (bl_projected undelegated) in
  do~ check_balances undelegated in
  do~ withdraw in
  do~ await_projection (bl_projected withdrawn) in
  do~ check_balances withdrawn in
  do~ redelegate in
  do~ await_projection (bl_projected redelegated) in
  do~ check_controls 3 in
  do~ check_balances redelegated in
  do~ w_transfer 0 1 7 in
  do~ check_balances moved_7 in
  let~ signature := commit 3 active in
  do~ tn_settled net signature eatas false in
  check_balances settled_again.

Definition run_backing (foreign_validator fresh1 fresh2 : Pubkey) : Tok S unit :=
  do~ establish foreign_validator in
  do~ settle_backing fresh1 fresh2 in
  do~ return_backing in
  finish.
End lifecycle.

(** * Magic ATAs *)

Definition RECEIVE : Z := 60.
Definition DEPOSIT : Z := 45.
Definition ALLOWANCE : Z := 25.
Definition RETURNED : Z := 10.
Definition DELEGATE : Pubkey := pubkey_of (replicate 32 1).
Definition OTHER_DELEGATE : Pubkey := pubkey_of (replicate 32 2).

Inductive Case := Drain | Readonly | Projection | Funded | Shared | Conflict | FrozenOverlay | FrozenBase | Overlap | FullShuttle | TransparentShuttle.

#[export] Instance Case_eq_dec : EqDecision Case.
Proof. solve_decision. Defined.

Definition Case_ALL : list Case :=
  [Drain; Readonly; Projection; Funded; Shared; Conflict; FrozenOverlay; FrozenBase; Overlap; FullShuttle; TransparentShuttle].

Definition Case_label (c : Case) : string :=
  match c with
  | Drain => "receive/drain/close"
  | Readonly => "readonly overlay"
  | Projection => "automatic projection over empty overlay"
  | Funded => "funded takeover with a sole approval"
  | Shared => "takeover merging a shared approval"
  | Conflict => "takeover refused for conflicting approvals"
  | FrozenOverlay => "funded takeover refused for a frozen overlay"
  | FrozenBase => "funded takeover refused for a frozen base ATA"
  | Overlap => "transfer and revoke overlapping takeover"
  | FullShuttle => "full shuttle withdrawal"
  | TransparentShuttle => "transparent shuttle withdrawal"
  end.

(** The balance and the approval after a takeover that merges the overlay. *)
Definition merged (c : Case) : option (Z * option (Pubkey * Z)) :=
  let funded := RECEIVE + DEPOSIT in
  match c with
  | Projection => Some (DEPOSIT, None)
  | Funded => Some (funded, Some (DELEGATE, ALLOWANCE))
  | Shared => Some (funded, Some (DELEGATE, ALLOWANCE + DEPOSIT))
  | Overlap => Some (funded - RETURNED, None)
  | _ => None
  end.

Record MagicAtas := mkSuite { su_source_balance : Z; su_extra_base : Z; su_extra_claims : Z; su_supply : Z }.

(** A debit of the source, which panics below zero. *)
Definition debit (m : MagicAtas) (n : Z) : option Z := checked_sub64 (su_source_balance m) n.

Section magic.
Context `{R : Runtime, C : InstructionCodec, B : BuildSdk, E : EsplSdk} {S : Type} (net : TokenNet S).
Context (redline dlp_id : Pubkey) (validator payer mint rent_pda : Pubkey) (top_up : Pubkey -> Z -> Z -> SolInstruction).
(** [WithdrawThroughDelegatedShuttleWithMergeBuilder]: payer, owner, ATA, mint, shuttle, amount, validator *)
Context (shuttle_withdrawal : Pubkey -> Pubkey -> Pubkey -> Pubkey -> Z -> Z -> option Pubkey -> SolInstruction).
Context (wallets : list Wallet) (vault : list Pubkey).
(** How often the settlement of a shuttle is asked for before the deadline. *)
Context (polls : nat).
(** In an overlap the delegation and the transfer run at the same time; this says which is served first. *)
Context (transfer_first : bool).

Abbreviation source := (wallet wallets 1).
Abbreviation amount := (amount net).

Definition magic_prepare : Tok S unit :=
  do~ tn_submit net Base payer [] [Prep.system_transfer payer rent_pda 100000000; top_up payer 10000000 255] in tok_ret tt.

Definition underflow {A} (o : option A) : Tok S A := match o with Some a => tok_ret a | None => tok_fail TUnderflow end.

(** [readonly]: a base balance that cannot be spent before there is an overlay. *)
Definition readonly (d : Wallet) (m : MagicAtas) : Tok S (Account * MagicAtas) :=
  do~ tn_submit net Base payer [] [w_create d payer; w_mint_to d payer DEPOSIT] in
  let m := mkSuite (su_source_balance m) (su_extra_base m + DEPOSIT) (su_extra_claims m) (su_supply m + DEPOSIT) in
  let~ found := tn_account net Base (wl_ata d) in
  let~ original := tok_some found in
  let~ seen := tn_account net Er (wl_ata d) in
  do~ tok_ensure (bool_decide (seen = Some original)) in
  let~ r := tn_try_submit net Er payer [wl_owner d; wl_owner source]
              [transfer_to d source DEPOSIT; w_ensure d payer; transfer_to source d RECEIVE] in
  match r with
  | Ok _ => tok_fail TAccepted
  | Err e =>
      if check_readonly e then
        let~ seen := tn_account net Er (wl_ata d) in
        do~ tok_ensure (bool_decide (seen = Some original)) in
        let~ left := amount Er (wl_ata source) in
        do~ tok_ensure (left =? su_source_balance m) in
        tok_ret (original, m)
      else tok_fail TNotReadonly
  end.

Definition receive (d : Wallet) (expected_base : option Z) (m : MagicAtas) : Tok S unit :=
  do~ tn_submit net Er payer [wl_owner source] [w_ensure d payer; transfer_to source d RECEIVE] in
  let~ got := amount Er (wl_ata d) in
  do~ tok_ensure (got =? RECEIVE) in
  let~ left := amount Er (wl_ata source) in
  let~ expected := underflow (debit m RECEIVE) in
  do~ tok_ensure (left =? expected) in
  let~ found := tn_account net Er (wl_ata d) in
  let~ account := tok_some found in
  do~ tok_ensure (is_magic_ata (ac_data account)) in
  let~ base := token_balance_at net Base (wl_ata d) in
  tok_ensure (bool_decide (base = expected_base)).

Definition drain (d : Wallet) (drained : Z) (m : MagicAtas) : Tok S unit :=
  do~ tn_submit net Er payer [wl_owner d] [transfer_to d source drained] in
  let~ left := amount Er (wl_ata source) in
  tok_ensure (left =? su_source_balance m).

(** The transactions of a takeover: on the overlay first, then on the base chain. *)
Definition local_ixs (c : Case) (d : Wallet) : list SolInstruction :=
  [w_approve d DELEGATE ALLOWANCE] ++ if decide (c = FrozenOverlay) then [w_freeze d payer] else [].

Definition backing_ixs (c : Case) (d : Wallet) : list SolInstruction :=
  [w_create d payer; w_mint_to d payer DEPOSIT; w_initialize d payer; w_deposit d DEPOSIT] ++
  match c with
  | Shared => [w_approve d DELEGATE (2 * DEPOSIT)]
  | Conflict => [w_approve d OTHER_DELEGATE ALLOWANCE]
  | FrozenBase => [w_freeze d payer]
  | _ => []
  end ++ [w_delegate d payer validator].

Definition taken_over (balance : Z) (allowance : option (Pubkey * Z)) (lamports : Z) (accounts : list (option Account)) : bool :=
  match accounts !! 0%nat with
  | Some (Some a) =>
      negb (is_magic_ata (ac_data a)) && (ac_owner a =? token_program) && (length (ac_data a) =? TOKEN_ACCOUNT_LEN)%nat &&
      (ac_lamports a =? lamports) && bool_decide (account_balance (ac_data a) = Some balance) &&
      bool_decide (approval (ac_data a) = allowance)
  | _ => false
  end.

Definition take_over (d : Wallet) (c : Case) (m : MagicAtas) : Tok S MagicAtas :=
  do~ (if decide (c = Projection) then drain d RECEIVE m
       else do~ tn_submit net Er payer [wl_owner d] (local_ixs c d) in tok_ret tt) in
  let~ overlay := tn_account net Er (wl_ata d) in
  let delegation := tn_submit net Base payer [wl_owner d] (backing_ixs c d) in
  let returned := tn_submit net Er payer [wl_owner d] [transfer_to d source RETURNED] in
  do~ (if decide (c = Overlap) then
         do~ (if transfer_first then do~ returned in delegation else do~ delegation in returned) in
         tn_submit net Er payer [wl_owner d] [w_revoke d]
       else delegation) in
  let supply := su_supply m + DEPOSIT in
  match merged c with
  | None =>
      let~ now := tn_account net Er (wl_ata d) in
      do~ tok_ensure (bool_decide (now = overlay)) in
      let~ left := underflow (debit m RECEIVE) in
      tok_ret (mkSuite left (su_extra_base m) (su_extra_claims m + (RECEIVE + DEPOSIT)) supply)
  | Some (balance, allowance) =>
      let~ found := tn_account net Base (wl_ata d) in
      let~ base_ata := tok_some found in
      do~ tn_await net Er [wl_ata d] (taken_over balance allowance (ac_lamports base_ata)) in
      do~ (if decide (c = Funded) then
             let~ signature := commit net redline validator 1 [d] in
             do~ tn_settled net signature [wl_eata d] false in
             let~ backing := amount Base (wl_eata d) in
             do~ tok_ensure (backing =? balance) in
             let~ projected := amount Er (wl_ata d) in
             tok_ensure (projected =? balance)
           else tok_ret tt) in
      let m := mkSuite (su_source_balance m + DEPOSIT) (su_extra_base m) (su_extra_claims m) supply in
      do~ drain d balance m in
      tok_ret m
  end.

Definition close (d : Wallet) (original : option Account) : Tok S unit :=
  do~ tn_close net payer [wl_owner d] (w_close d) (wl_ata d) in
  do~ tn_await net Er [wl_ata d] (fun accounts => bool_decide (default None (accounts !! 0%nat) = original)) in tok_ret tt.

(** The settlement of a shuttle, asked for until it is there or the polls are used up. *)
Fixpoint shuttle_settled (polls : nat) (d : Wallet) (shuttles : list Pubkey) : Tok S unit :=
  match polls with
  | O => tok_fail TMismatch
  | Datatypes.S polls =>
      let~ balance := amount Base (wl_ata d) in
      let~ local := tn_account net Er (wl_ata d) in
      let~ found := tn_accounts net Base shuttles in
      let projected := match local with Some a => is_magic_ata (ac_data a) | None => false end in
      let cleaned := bool_decide (found = replicate (length shuttles) None) in
      if (balance =? RECEIVE) && negb projected && cleaned then tok_ret tt else shuttle_settled polls d shuttles
  end.

Definition magic_withdraw (d : Wallet) (transparent : bool) (m : MagicAtas) : Tok S MagicAtas :=
  let shuttle := shuttle_withdrawal payer (wl_owner d) (wl_ata d) mint (if transparent then 4 else 3) RECEIVE (Some validator) in
  let shuttles := pubkey <$> take 3 (drop 2 (ix_accounts shuttle)) in
  do~ tn_submit net Base payer [wl_owner d]
        ([w_create d payer] ++ (if transparent then [w_initialize d payer; w_delegate d payer validator] else []) ++ [shuttle]) in
  do~ shuttle_settled polls d shuttles in
  do~ (if transparent then check_owner net (wl_eata d) dlp_id else tok_ret tt) in
  let~ left := underflow (debit m RECEIVE) in
  tok_ret (mkSuite left (su_extra_base m + RECEIVE) (su_extra_claims m) (su_supply m)).

Definition check_conservation (m : MagicAtas) : Tok S unit :=
  let~ left := amount Er (wl_ata source) in
  do~ tok_ensure (left =? su_source_balance m) in
  let~ state := balances net wallets vault in
  tok_ensure (check_supply state (sum_of (take 2 (bl_projected state)) + su_extra_claims m) (su_extra_base m) (su_supply m)).

(** What comes before the overlay of a case, and what follows it. *)
Definition open_case (d : Wallet) (c : Case) (m : MagicAtas) : Tok S (option Account * MagicAtas) :=
  if decide (c = Readonly) then let~ r := readonly d m in tok_ret (Some r.1, r.2) else tok_ret (None, m).

Definition end_case (d : Wallet) (c : Case) (original : option Account) (m : MagicAtas) : Tok S MagicAtas :=
  match c with
  | Drain | Readonly => do~ drain d RECEIVE m in do~ close d original in tok_ret m
  | FullShuttle => magic_withdraw d false m
  | TransparentShuttle => magic_withdraw d true m
  | _ => take_over d c m
  end.

Definition run_case (d : Wallet) (c : Case) (m : MagicAtas) : Tok S MagicAtas :=
  let~ opened := open_case d c m in
  do~ receive d (match opened.1 with Some _ => Some DEPOSIT | None => None end) opened.2 in
  let~ m := end_case d c opened.1 opened.2 in
  do~ check_conservation m in
  tok_ret m.

Fixpoint run_cases (cases : list (Case * Wallet)) (m : MagicAtas) : Tok S MagicAtas :=
  match cases with
  | [] => tok_ret m
  | (c, d) :: cases => let~ m := run_case d c m in run_cases cases m
  end.

Definition magic_run (destinations : list Wallet) : Tok S MagicAtas :=
  let~ balance := amount Er (wl_ata source) in
  do~ magic_prepare in
  run_cases (zip Case_ALL destinations) (mkSuite balance 0 0 SUPPLY).

(** The overlay mode of the scenario. *)
Definition run_overlay (foreign_validator : Pubkey) (destinations : list Wallet) : Tok S unit :=
  do~ establish net dlp_id validator payer mint wallets vault foreign_validator in
  do~ w_transfer net wallets 0 1 155 in
  do~ magic_run destinations in
  finish net.
End magic.
