(* ===== verification/ProjectedProps.v ===== *)
(** Projected tokens: an accepted run has seen balances that conserve the supply at every checkpoint,
    each overlay case has been seen, in order, to do what it is there for, and the accounting of the
    cases is exact. *)
From Stdlib Require Import String.
From S2P Require Import Prelude World Cell Instr Settlement RefCodec Build FixtureProps Text Waiting Prep Spl Projected.

#[local] Open Scope Z_scope.
#[local] Open Scope list_scope.

(** * The monad *)

Lemma tok_bind_Ok {S E A B} (m : Eff E S A) (k : A -> Eff E S B) s b s' :
  tok_bind m k s = (Ok b, s') <-> exists a s1, m s = (Ok a, s1) /\ k a s1 = (Ok b, s').
Proof. unfold tok_bind. destruct (m s) as [[a|e] s1]; naive_solver. Qed.

Lemma tok_ensure_Ok {S} b (s s' : S) : tok_ensure b s = (Ok tt, s') <-> b = true /\ s' = s.
Proof. destruct b; cbn; (split; [|by intros [? ->]]); [by intros [= ->]|done]. Qed.

Ltac tok_inv :=
  repeat match goal with
  | H : tok_bind _ _ _ = (Ok _, _) |- _ => apply tok_bind_Ok in H as (? & ? & ? & H)
  | H : tok_ensure _ _ = (Ok ?u, _) |- _ => destruct u; apply tok_ensure_Ok in H as [? ->]
  | H : tok_ret _ _ = (Ok _, _) |- _ => injection H as ? ?; subst
  | H : tok_fail _ _ = (Ok _, _) |- _ => discriminate H
  end.

(** * Checkpoints *)

Section backing.
Context `{R : Runtime, C : InstructionCodec, B : BuildSdk, E : EsplSdk} {S : Type} (net : TokenNet S).
Context (redline dlp_id : Pubkey) (dwa : Pubkey -> Pubkey -> Pubkey -> list SolInstruction -> SolInstruction).
Context (validator payer mint : Pubkey) (wallets : list Wallet) (vault : list Pubkey).

(** What the scenario reads in a state. *)
Definition observed_at (b : Balances) (s : S) : Prop := exists s', balances net wallets vault s = (Ok b, s').

Lemma check_balances_Ok b u s s' : check_balances net wallets vault b s = (Ok u, s') -> observed_at b s.
Proof. unfold check_balances. intros H. tok_inv. case_bool_decide; [subst; by eexists|done]. Qed.

Definition checkpoints : list Balances :=
  [created; deposited; delegated; acted; acted; moved_37; landed; moved_11; moved_11; recommitted; undelegated; withdrawn; redelegated; moved_7;
   settled_again].

(** Every claim is backed by the vault, and no token was made or lost. *)
Definition conserved (b : Balances) : Prop :=
  check_supply b (sum_of (default 0 <$> take 2 (bl_eatas b))) 0 SUPPLY = true.

Lemma checkpoints_conserved : Forall conserved checkpoints.
Proof. repeat constructor. Qed.

Ltac observed := repeat match goal with H : check_balances _ _ _ _ _ = (Ok _, _) |- _ => apply check_balances_Ok in H end.

(** An accepted run of the token lifecycle has seen its tokens conserved all along: at each of
    its fifteen checkpoints, over deposits, delegations, actions, commits, a lost confirmation, an
    undelegation, a withdrawal and a redelegation, the balances read from both chains are exactly the
    expected ones, and in those the vault backs every claim and the supply is the one minted. *)
Theorem token_lifecycle_is_conserved foreign fresh1 fresh2 s s' :
  run_backing net redline dlp_id dwa validator payer mint wallets vault foreign fresh1 fresh2 s = (Ok tt, s') ->
  exists states, Forall2 observed_at checkpoints states /\ Forall conserved checkpoints.
Proof.
  intros H. unfold run_backing, establish, settle_backing, return_backing in H. tok_inv. observed.
  eexists [_; _; _; _; _; _; _; _; _; _; _; _; _; _; _]. split; [|exact checkpoints_conserved].
  repeat (constructor; [eassumption|]). constructor.
Qed.
End backing.

(** * The overlay cases *)

(** What a case does to the accounting. *)
Definition case_effect (c : Case) (m : MagicAtas) : option MagicAtas :=
  match c with
  | Drain => Some m
  | Readonly => Some (mkSuite (su_source_balance m) (su_extra_base m + DEPOSIT) (su_extra_claims m) (su_supply m + DEPOSIT))
  | Projection | Funded | Shared | Overlap =>
      Some (mkSuite (su_source_balance m + DEPOSIT) (su_extra_base m) (su_extra_claims m) (su_supply m + DEPOSIT))
  | Conflict | FrozenOverlay | FrozenBase =>
      left ← debit m RECEIVE;
      Some (mkSuite left (su_extra_base m) (su_extra_claims m + (RECEIVE + DEPOSIT)) (su_supply m + DEPOSIT))
  | FullShuttle | TransparentShuttle =>
      left ← debit m RECEIVE; Some (mkSuite left (su_extra_base m + RECEIVE) (su_extra_claims m) (su_supply m))
  end.

Fixpoint cases_effect (cs : list Case) (m : MagicAtas) : option MagicAtas :=
  match cs with
  | [] => Some m
  | c :: cs => m ← case_effect c m; cases_effect cs m
  end.

Section magic.
Context `{R : Runtime, C : InstructionCodec, B : BuildSdk, E : EsplSdk} {S : Type} (net : TokenNet S).
Context (redline dlp_id validator payer mint rent_pda : Pubkey) (top_up : Pubkey -> Z -> Z -> SolInstruction).
Context (shuttle_withdrawal : Pubkey -> Pubkey -> Pubkey -> Pubkey -> Z -> Z -> option Pubkey -> SolInstruction).
Context (wallets : list Wallet) (vault : list Pubkey) (polls : nat) (transfer_first : bool).

(** ** What a run saw, and in which order *)

(** One request of the scenario, answered or refused. *)
Inductive request : S -> S -> Prop :=
| R_submit side k ks ixs r s s' : tn_submit net side k ks ixs s = (r, s') -> request s s'
| R_try_submit side k ks ixs r s s' : tn_try_submit net side k ks ixs s = (r, s') -> request s s'
| R_account side k r s s' : tn_account net side k s = (r, s') -> request s s'
| R_accounts side ks r s s' : tn_accounts net side ks s = (r, s') -> request s s'
| R_await side ks cond r s s' : tn_await net side ks cond s = (r, s') -> request s s'
| R_settled signature ks und r s s' : tn_settled net signature ks und s = (r, s') -> request s s'
| R_close k ks ix a r s s' : tn_close net k ks ix a s = (r, s') -> request s s'.

Definition later : S -> S -> Prop := rtc request.

(** From [s] to [s'] these held one after the other, each in a state the run went through. *)
Fixpoint during (Ps : list (S -> Prop)) (s s' : S) : Prop :=
  match Ps with
  | [] => later s s'
  | P :: Ps => exists s1, later s s1 /\ P s1 /\ during Ps s1 s'
  end.

Definition sees (side : Side) (k : Pubkey) (o : option Account) (s : S) : Prop := exists s', tn_account net side k s = (Ok o, s').
Definition shows (side : Side) (k : Pubkey) (b : option Z) (s : S) : Prop :=
  exists o, sees side k o s /\ (o ≫= fun a => account_balance (ac_data a)) = b.
(** An account read that way has the property. *)
Definition sees_one (side : Side) (k : Pubkey) (P : Account -> Prop) (s : S) : Prop := exists a, sees side k (Some a) s /\ P a.
Definition landed_on (side : Side) (ks : list Pubkey) (ixs : list SolInstruction) (s : S) : Prop :=
  exists signature s', tn_submit net side payer ks ixs s = (Ok signature, s').
Definition refused_on (side : Side) (ks : list Pubkey) (ixs : list SolInstruction) (s : S) : Prop :=
  exists e s', tn_try_submit net side payer ks ixs s = (Ok (Err e), s') /\ check_readonly e = true.
(** A wait for one account ended with it in this condition. *)
Definition awaited (k : Pubkey) (P : option Account -> Prop) (s : S) : Prop :=
  exists cond accounts s', tn_await net Er [k] cond s = (Ok accounts, s') /\ P (default None (accounts !! 0%nat)).

(** What [await_accounts] promises: the accounts it returns are the ones it was asked to wait for. *)
Definition awaits_hold : Prop :=
  forall side ks cond s accounts s', tn_await net side ks cond s = (Ok accounts, s') -> cond accounts = true.

(** ** What each step of a case must have seen *)

Abbreviation source_ata := (wl_ata (wallet wallets 1)).

(** A base balance that cannot be spent: shown on the rollup, refused as read-only, unchanged by the attempt. *)
Definition readonly_seen (d : Wallet) (original : Account) (m : MagicAtas) : list (S -> Prop) :=
  [sees Base (wl_ata d) (Some original); sees Er (wl_ata d) (Some original);
   refused_on Er [wl_owner d; wl_owner (wallet wallets 1)]
     [transfer_to d (wallet wallets 1) DEPOSIT; w_ensure d payer; transfer_to (wallet wallets 1) d RECEIVE];
   sees Er (wl_ata d) (Some original); shows Er source_ata (Some (su_source_balance m))].

(** The overlay holds what it received, the source has paid it, and the base chain is as it was. *)
Definition receive_seen (d : Wallet) (base : option Z) (m : MagicAtas) : list (S -> Prop) :=
  [shows Er (wl_ata d) (Some RECEIVE); shows Er source_ata (Some (su_source_balance m - RECEIVE));
   sees_one Er (wl_ata d) (fun a => is_magic_ata (ac_data a) = true); shows Base (wl_ata d) base].

Definition drain_seen (d : Wallet) (drained : Z) (m : MagicAtas) : list (S -> Prop) :=
  [landed_on Er [wl_owner d] [transfer_to d (wallet wallets 1) drained]; shows Er source_ata (Some (su_source_balance m))].

Definition close_seen (d : Wallet) (original : option Account) : list (S -> Prop) :=
  [(fun s => exists s', tn_close net payer [wl_owner d] (w_close d) (wl_ata d) s = (Ok tt, s')); awaited (wl_ata d) (fun o => o = original)].

(** The transactions that bring the backing, which in an overlap meet a transfer and a revocation. *)
Definition backing_seen (d : Wallet) (c : Case) : list (S -> Prop) :=
  let delegation := landed_on Base [wl_owner d] (backing_ixs validator payer c d) in
  let returned := landed_on Er [wl_owner d] [transfer_to d (wallet wallets 1) RETURNED] in
  if decide (c = Overlap) then
    (if transfer_first then [returned; delegation] else [delegation; returned]) ++ [landed_on Er [wl_owner d] [w_revoke d]]
  else [delegation].

(** What the owner does with the overlay before it is taken over: empties it, or approves a delegate (and freezes it). *)
Definition local_seen (d : Wallet) (c : Case) (m : MagicAtas) : list (S -> Prop) :=
  if decide (c = Projection) then drain_seen d RECEIVE m else [landed_on Er [wl_owner d] (local_ixs payer c d)].

(** A refused takeover leaves the overlay exactly as it was before the delegation. *)
Definition refused_seen (d : Wallet) (c : Case) (overlay : option Account) (m : MagicAtas) : list (S -> Prop) :=
  local_seen d c m ++ [sees Er (wl_ata d) overlay] ++ backing_seen d c ++ [sees Er (wl_ata d) overlay].

(** The overlay has become an ordinary token account with the merged balance and approval. *)
Definition projected_as (balance : Z) (allowance : option (Pubkey * Z)) (lamports : Z) (o : option Account) : Prop :=
  exists a, o = Some a /\ is_magic_ata (ac_data a) = false /\ ac_owner a = token_program /\ length (ac_data a) = TOKEN_ACCOUNT_LEN /\
    ac_lamports a = lamports /\ account_balance (ac_data a) = Some balance /\ approval (ac_data a) = allowance.

Definition merged_seen (d : Wallet) (c : Case) (balance : Z) (allowance : option (Pubkey * Z)) (base_ata : Account) (m m' : MagicAtas) : list (S -> Prop) :=
  local_seen d c m ++ backing_seen d c ++
  [sees Base (wl_ata d) (Some base_ata); awaited (wl_ata d) (projected_as balance allowance (ac_lamports base_ata))] ++
  (if decide (c = Funded) then [(fun s => exists signature s', tn_settled net signature [wl_eata d] false s = (Ok tt, s')); shows Base (wl_eata d) (Some balance); shows Er (wl_ata d) (Some balance)] else []) ++
  drain_seen d balance m'.

(** The tokens are on the base chain, the overlay is gone and the shuttle cleaned up; a delegated eATA stays delegated. *)
Definition withdraw_seen (d : Wallet) (transparent : bool) : list (S -> Prop) :=
  let shuttle := shuttle_withdrawal payer (wl_owner d) (wl_ata d) mint (if transparent then 4 else 3) RECEIVE (Some validator) in
  let shuttles := pubkey <$> take 3 (drop 2 (ix_accounts shuttle)) in
  [shows Base (wl_ata d) (Some RECEIVE);
   (fun s => exists o, sees Er (wl_ata d) o s /\ forall a, o = Some a -> is_magic_ata (ac_data a) = false);
   (fun s => exists s', tn_accounts net Base shuttles s = (Ok (replicate (length shuttles) None), s'))] ++
  (if transparent then [sees_one Base (wl_eata d) (fun a => ac_owner a = dlp_id)] else []).

Definition end_seen (d : Wallet) (c : Case) (original overlay : option Account) (base_ata : Account) (m m' : MagicAtas) : list (S -> Prop) :=
  match c with
  | Drain | Readonly => drain_seen d RECEIVE m' ++ close_seen d original
  | FullShuttle => withdraw_seen d false
  | TransparentShuttle => withdraw_seen d true
  | _ => match merged c with
         | Some (balance, allowance) => merged_seen d c balance allowance base_ata m m'
         | None => refused_seen d c overlay m
         end
  end.

(** Every claim is backed by the vault, and no token was made or lost but those accounted for. *)
Definition accounted (m : MagicAtas) (b : Balances) : Prop :=
  let vault := default 0 (bl_vault b !! 0%nat) in
  vault = sum_of (take 2 (bl_projected b)) + su_extra_claims m + default 0 (default None (bl_eatas b !! 3%nat)) + default 0 (bl_vault b !! 1%nat) /\
  sum_of (bl_base_atas b) + vault + su_extra_base m = su_supply m.

Definition conservation_seen (m : MagicAtas) : list (S -> Prop) :=
  [shows Er source_ata (Some (su_source_balance m)); (fun s => exists b, observed_at net wallets vault b s /\ accounted m b)].

(** A case took the run from [s] to [s'] and the accounting from [m] to [m']. *)
Definition case_seen (d : Wallet) (c : Case) (m m' : MagicAtas) (s s' : S) : Prop :=
  exists original overlay base_ata,
    during ((if decide (c = Readonly) then readonly_seen d original m else []) ++
            receive_seen d (if decide (c = Readonly) then Some DEPOSIT else None) m ++
            end_seen d c (if decide (c = Readonly) then Some original else None) overlay base_ata m m' ++
            conservation_seen m') s s'.

(** The cases one after the other, each from the state the one before it left. *)
Fixpoint cases_seen (cases : list (Case * Wallet)) (m m' : MagicAtas) (s s' : S) : Prop :=
  match cases with
  | [] => m = m' /\ s = s'
  | (c, d) :: cases => exists m1 s1, case_effect c m = Some m1 /\ case_seen d c m m1 s s1 /\ cases_seen cases m1 m' s1 s'
  end.

Lemma underflow_Ok {A} (o : option A) a (s s' : S) : underflow o s = (Ok a, s') -> o = Some a /\ s' = s.
Proof. destruct o; cbn; [by intros [= -> ->]|done]. Qed.

Ltac under := repeat match goal with H : underflow _ _ = (Ok _, _) |- _ => apply underflow_Ok in H as [? ->] end.

(** ** Requests follow one another *)

Definition ordered {A} (m : Tok S A) : Prop := forall s r s', m s = (r, s') -> later s s'.

Lemma ordered_ret {A} (a : A) : ordered (tok_ret a).
Proof. intros s r s' [= _ <-]. constructor. Qed.

Lemma ordered_fail {A} e : ordered (A := A) (tok_fail e).
Proof. intros s r s' [= _ <-]. constructor. Qed.

Lemma ordered_bind {A B'} (m : Tok S A) (k : A -> Tok S B') : ordered m -> (forall a, ordered (k a)) -> ordered (tok_bind m k).
Proof.
  intros Hm Hk s r s'. unfold tok_bind. destruct (m s) as [[a|e] s1] eqn:Em; intros H; [|injection H as _ <-; by eapply Hm].
  etrans; [by eapply Hm|by eapply Hk].
Qed.

Lemma ordered_each {A} (f : A -> Tok S unit) l : (forall a, ordered (f a)) -> ordered (tok_each f l).
Proof. intros Hf. induction l; [apply ordered_ret|]. by apply ordered_bind. Qed.

Lemma ordered_map {A B'} (f : A -> Tok S B') l : (forall a, ordered (f a)) -> ordered (tok_map f l).
Proof. intros Hf. induction l; [apply ordered_ret|]. apply ordered_bind; [done|]. intros. apply ordered_bind; [done|]. intros. apply ordered_ret. Qed.

Lemma ordered_ensure b : ordered (tok_ensure b).
Proof. destruct b; [apply ordered_ret|apply ordered_fail]. Qed.

Lemma ordered_some {A} (o : option A) : ordered (tok_some o).
Proof. destruct o; [apply ordered_ret|apply ordered_fail]. Qed.

Ltac requested := intros s r s' ?; apply rtc_once; by econstructor.
Lemma ordered_account side k : ordered (tn_account net side k). Proof. requested. Qed.
Lemma ordered_accounts side ks : ordered (tn_accounts net side ks). Proof. requested. Qed.
Lemma ordered_submit side k ks ixs : ordered (tn_submit net side k ks ixs). Proof. requested. Qed.
Lemma ordered_try_submit side k ks ixs : ordered (tn_try_submit net side k ks ixs). Proof. requested. Qed.
Lemma ordered_await side ks cond : ordered (tn_await net side ks cond). Proof. requested. Qed.
Lemma ordered_settled g ks b : ordered (tn_settled net g ks b). Proof. requested. Qed.
Lemma ordered_close k ks ix a : ordered (tn_close net k ks ix a). Proof. requested. Qed.

Hint Resolve ordered_ret ordered_fail ordered_each ordered_map ordered_ensure ordered_some ordered_account ordered_accounts ordered_submit
  ordered_try_submit ordered_await ordered_settled ordered_close : core.

Lemma ordered_amount side k : ordered (amount net side k).
Proof. unfold amount, token_balance_at. repeat (apply ordered_bind; [|intros ?]); auto. Qed.
Lemma ordered_balance side k : ordered (token_balance_at net side k).
Proof. unfold token_balance_at. repeat (apply ordered_bind; [|intros ?]); auto. Qed.
Hint Resolve ordered_amount ordered_balance : core.

Lemma ordered_balances : ordered (balances net wallets vault).
Proof. unfold balances, read_wallet. repeat first [apply ordered_bind; [|intros ?]|apply ordered_map; intros ?]; auto. Qed.

Lemma ordered_commit id ws : ordered (commit net redline validator id ws).
Proof. unfold commit, submit_to. repeat (apply ordered_bind; [|intros ?]); auto. Qed.

Lemma ordered_owner k o : ordered (check_owner net k o).
Proof. unfold check_owner. repeat (apply ordered_bind; [|intros ?]); auto. Qed.
Hint Resolve ordered_balances ordered_commit ordered_owner : core.

Lemma during_app Ps Qs s1 s2 s3 : during Ps s1 s2 -> during Qs s2 s3 -> during (Ps ++ Qs) s1 s3.
Proof.
  revert s1. induction Ps as [|P Ps IH]; intros s1; cbn [during app].
  - intros H1 H2. destruct Qs as [|Q Qs]; cbn [during] in *; [by etrans|]. destruct H2 as (s & ? & ? & ?). exists s. split; [by etrans|done].
  - intros (s & ? & ? & ?) H2. exists s. auto.
Qed.

Lemma amount_shows side k n s s' : amount net side k s = (Ok n, s') -> shows side k (Some n) s.
Proof.
  unfold amount, token_balance_at. intros H. tok_inv. destruct (_ ≫= _) as [b|] eqn:Eb in H; [|done]. injection H as -> ->.
  eexists. split; [by eexists|done].
Qed.

Lemma balance_shows side k b s s' : token_balance_at net side k s = (Ok b, s') -> shows side k b s.
Proof. unfold token_balance_at. intros H. tok_inv. eexists. split; [by eexists|done]. Qed.

Lemma some_Ok {A} (o : option A) a (s s' : S) : tok_some o s = (Ok a, s') -> o = Some a /\ s' = s.
Proof. destruct o; cbn; [by intros [= -> ->]|done]. Qed.

(** The states of a run in order, from one request to the next. *)
Ltac go := match goal with
  | |- later ?s ?s => constructor
  | H : ?m ?s = (_, ?s') |- later ?s _ => transitivity s'; [refine ((_ : ordered m) _ _ _ H); solve [auto]|go]
  end.
(** The next thing that was seen, in the first state that shows it. *)
Ltac seen tac := match reverse goal with H : _ ?s1 = (Ok _, _) |- exists s, _ => exists s1; split; [solve [go]|split; [solve [tac H]|]] end.
Ltac clean := repeat first [progress tok_inv|progress under|
  match goal with H : tok_some _ _ = (Ok _, _) |- _ => apply some_Ok in H as [-> ->]
  | H : (_ =? _) = true |- _ => apply Z.eqb_eq in H; try subst | H : bool_decide _ = true |- _ => apply bool_decide_eq_true in H; try subst end].
Ltac evidence H := first [eapply amount_shows; exact H|eapply balance_shows; exact H|eexists; exact H|eexists _, _; exact H].

Lemma drain_sees d n m s u s' : drain net payer wallets d n m s = (Ok u, s') -> during (drain_seen d n m) s s'.
Proof. unfold drain, drain_seen. intros H. clean. cbn [during]. seen evidence. seen evidence. go. Qed.

Lemma take_over_effect d c m s m' s' :
  take_over net redline validator payer wallets transfer_first d c m s = (Ok m', s') ->
  c ∉ [Drain; Readonly; FullShuttle; TransparentShuttle] -> case_effect c m = Some m'.
Proof.
  unfold take_over. intros H Hc. tok_inv. destruct (merged c) as [[balance allowance]|] eqn:Em; tok_inv; under.
  - destruct c; try done; exfalso; set_solver.
  - destruct c; try done; cbn; try (exfalso; set_solver); match goal with Hd : debit _ _ = Some _ |- _ => rewrite Hd end; done.
Qed.

Lemma magic_withdraw_effect d b c m s m' s' :
  magic_withdraw net dlp_id validator payer mint shuttle_withdrawal polls d b m s = (Ok m', s') ->
  c ∈ [FullShuttle; TransparentShuttle] -> case_effect c m = Some m'.
Proof.
  unfold magic_withdraw. intros H Hc. tok_inv. under. tok_inv.
  rewrite !elem_of_cons, elem_of_nil in Hc. destruct Hc as [-> |[-> |[]]]; cbn; match goal with Hd : debit _ _ = Some _ |- _ => rewrite Hd end; done.
Qed.

Lemma readonly_sees d m s r s' :
  readonly net payer wallets d m s = (Ok r, s') -> during (readonly_seen d r.1 m) s s' /\ case_effect Readonly m = Some r.2 /\ su_source_balance r.2 = su_source_balance m.
Proof.
  unfold readonly, readonly_seen. intros H. clean. case_match; clean. case_match; clean. split; [|done]. cbn [during fst].
  do 2 seen evidence. seen ltac:(fun H => by eexists _, _; split; [exact H|]). do 2 seen evidence. go.
Qed.

Lemma receive_sees d base m s u s' :
  receive net payer wallets d base m s = (Ok u, s') -> during (receive_seen d base m) s s' /\ RECEIVE <= su_source_balance m.
Proof.
  unfold receive, receive_seen. intros H. clean. unfold debit, checked_sub64 in *. case_match; simplify_eq/=. split; [|by apply Z.leb_le].
  do 2 seen evidence. seen ltac:(fun H => by eexists; split; [by eexists; exact H|]). seen evidence. go.
Qed.

Lemma taken_over_projected balance allowance lamports accounts :
  taken_over balance allowance lamports accounts = true -> projected_as balance allowance lamports (default None (accounts !! 0%nat)).
Proof.
  unfold taken_over. destruct (accounts !! 0%nat) as [[a|]|]; try done. rewrite !andb_true_iff, negb_true_iff, !bool_decide_eq_true.
  intros (((((? & ?) & ?) & ?) & ?) & ?). exists a. rewrite Z.eqb_eq in *. rewrite Nat.eqb_eq in *. done.
Qed.

Context (waits : awaits_hold).

Lemma close_sees d original s u s' : close net payer d original s = (Ok u, s') -> during (close_seen d original) s s'.
Proof.
  unfold close, close_seen. intros H. clean. destruct x. cbn [during]. seen ltac:(fun H => by eexists; exact H).
  seen ltac:(fun H => by eexists _, _, _; split; [exact H|]; apply waits in H; apply bool_decide_eq_true in H). go.
Qed.

Lemma local_sees d c m s u s' :
  (if decide (c = Projection) then drain net payer wallets d RECEIVE m
   else tok_bind (tn_submit net Er payer [wl_owner d] (local_ixs payer c d)) (fun _ => tok_ret tt)) s = (Ok u, s') ->
  during (local_seen d c m) s s'.
Proof. unfold local_seen. destruct (decide (c = Projection)); intros H; [by eapply drain_sees|]. clean. cbn [during]. seen evidence. go. Qed.

Lemma backing_sees d c s u s' :
  (if decide (c = Overlap) then
     tok_bind (if transfer_first then tok_bind (tn_submit net Er payer [wl_owner d] [transfer_to d (wallet wallets 1) RETURNED])
                                        (fun _ => tn_submit net Base payer [wl_owner d] (backing_ixs validator payer c d))
               else tok_bind (tn_submit net Base payer [wl_owner d] (backing_ixs validator payer c d))
                      (fun _ => tn_submit net Er payer [wl_owner d] [transfer_to d (wallet wallets 1) RETURNED]))
       (fun _ => tn_submit net Er payer [wl_owner d] [w_revoke d])
   else tn_submit net Base payer [wl_owner d] (backing_ixs validator payer c d)) s = (Ok u, s') ->
  during (backing_seen d c) s s'.
Proof.
  unfold backing_seen. destruct (decide (c = Overlap)); intros H; [|cbn [during]; seen evidence; go].
  destruct transfer_first; clean; cbn [during app]; do 3 seen evidence; go.
Qed.

Lemma funded_sees d (c : Case) balance s u s' :
  (if decide (c = Funded) then
     tok_bind (commit net redline validator 1 [d]) (fun signature =>
     tok_bind (tn_settled net signature [wl_eata d] false) (fun _ =>
     tok_bind (amount net Base (wl_eata d)) (fun backing =>
     tok_bind (tok_ensure (backing =? balance)) (fun _ =>
     tok_bind (amount net Er (wl_ata d)) (fun projected => tok_ensure (projected =? balance))))))
   else tok_ret tt) s = (Ok u, s') ->
  during (if decide (c = Funded) then [(fun s => exists signature s', tn_settled net signature [wl_eata d] false s = (Ok tt, s'));
    shows Base (wl_eata d) (Some balance); shows Er (wl_ata d) (Some balance)] else []) s s'.
Proof.
  destruct (decide (c = Funded)); intros H; clean; [|constructor]. cbn [during].
  match goal with Hs : tn_settled _ _ _ _ _ = (Ok ?v, _) |- _ => destruct v end.
  seen evidence. do 2 seen evidence. go.
Qed.

Lemma take_over_sees d c m s m' s' :
  take_over net redline validator payer wallets transfer_first d c m s = (Ok m', s') ->
  c ∉ [Drain; Readonly; FullShuttle; TransparentShuttle] ->
  exists overlay base_ata, forall original, during (end_seen d c original overlay base_ata m m') s s'.
Proof.
  unfold take_over. intros H Hc.
  apply tok_bind_Ok in H as (u & s1 & Hl & H). apply local_sees in Hl.
  apply tok_bind_Ok in H as (overlay & s2 & Ho & H). apply tok_bind_Ok in H as (? & s3 & Hb & H). apply backing_sees in Hb. exists overlay.
  assert (He : forall original base_ata, end_seen d c original overlay base_ata m m' = match merged c with
         | Some (balance, allowance) => merged_seen d c balance allowance base_ata m m'
         | None => refused_seen d c overlay m
         end) by (intros; destruct c; try done; exfalso; set_solver).
  destruct (merged c) as [[balance allowance]|].
  - apply tok_bind_Ok in H as (found & s4 & Hf & H). apply tok_bind_Ok in H as (base_ata & s5 & Hs & H). apply some_Ok in Hs as [-> ->].
    apply tok_bind_Ok in H as (accounts & s6 & Hw & H). apply tok_bind_Ok in H as (? & s7 & Hc' & H). apply funded_sees in Hc'.
    apply tok_bind_Ok in H as (? & s8 & Hd & H). injection H as <- <-. apply drain_sees in Hd.
    exists base_ata. intros original. rewrite He. unfold merged_seen.
    eapply during_app; [exact Hl|]. eapply (during_app []); [exact (ordered_account _ _ _ _ _ Ho)|]. eapply during_app; [exact Hb|].
    eapply during_app; [|eapply during_app; [exact Hc'|exact Hd]]. cbn [during]. seen evidence.
    seen ltac:(fun H => by eexists _, _, _; split; [exact H|]; apply waits in H; apply taken_over_projected). go.
  - exists (mkAccount 0 [] 0 false 0). intros original. rewrite He. clean. unfold refused_seen.
    eapply during_app; [exact Hl|]. cbn [app during]. exists s1. split; [constructor|]. split; [by eexists|].
    eapply (during_app []); [exact (ordered_account _ _ _ _ _ Ho)|]. eapply during_app; [exact Hb|]. cbn [during]. seen evidence. go.
Qed.

Lemma settled_sees n d shuttles s u s' :
  shuttle_settled net n d shuttles s = (Ok u, s') ->
  during [shows Base (wl_ata d) (Some RECEIVE); (fun s => exists o, sees Er (wl_ata d) o s /\ forall a, o = Some a -> is_magic_ata (ac_data a) = false);
    (fun s => exists s', tn_accounts net Base shuttles s = (Ok (replicate (length shuttles) None), s'))] s s'.
Proof.
  revert s. induction n as [|n IH]; intros s H; cbn [shuttle_settled] in H; clean.
  destruct (_ && _ && _) eqn:Er in H.
  - rewrite !andb_true_iff, negb_true_iff, bool_decide_eq_true, Z.eqb_eq in Er. destruct Er as [[-> Hm] ->]. clean. cbn [during].
    seen evidence. seen ltac:(fun H => eexists; split; [by eexists; exact H|]; by intros ? ->). seen evidence. go.
  - apply IH in H. eapply (during_app []); [|exact H]. cbn [during]. go.
Qed.

Lemma withdraw_sees d b m s m' s' :
  magic_withdraw net dlp_id validator payer mint shuttle_withdrawal polls d b m s = (Ok m', s') -> during (withdraw_seen d b) s s'.
Proof.
  unfold magic_withdraw, withdraw_seen. intros H. apply tok_bind_Ok in H as (? & s1 & H1 & H). apply tok_bind_Ok in H as (? & s2 & H2 & H).
  apply settled_sees in H2. cbv zeta. eapply (during_app [] (_ ++ _)); [exact (ordered_submit _ _ _ _ _ _ _ H1)|]. eapply during_app; [exact H2|].
  apply tok_bind_Ok in H as (? & s3 & H3 & H). clean. destruct b; [|injection H3 as _ ->; constructor].
  unfold check_owner in H3. clean. cbn [during].
  match goal with Ho : ac_owner <$> ?o = Some _ |- _ => destruct o as [a|] eqn:Ea; [|done]; injection Ho as Ho end.
  seen ltac:(fun H => by eexists; split; [by eexists; exact H|]). go.
Qed.

Lemma conservation_sees m s u s' : check_conservation net wallets vault m s = (Ok u, s') -> during (conservation_seen m) s s'.
Proof.
  unfold check_conservation, conservation_seen. intros H. clean. cbn [during]. seen evidence.
  seen ltac:(fun H => eexists; split; [by eexists; exact H|]; unfold check_supply in *; rewrite andb_true_iff, !Z.eqb_eq in *; unfold accounted; lia). go.
Qed.

Lemma end_case_sees d c original m s m' s' :
  end_case net redline dlp_id validator payer mint shuttle_withdrawal wallets polls transfer_first d c original m s = (Ok m', s') ->
  (exists overlay base_ata, during (end_seen d c original overlay base_ata m m') s s') /\
  (if decide (c = Readonly) then m' = m else case_effect c m = Some m').
Proof.
  assert (Hdrain : tok_bind (drain net payer wallets d RECEIVE m) (fun _ => tok_bind (close net payer d original) (fun _ => tok_ret m)) s = (Ok m', s') ->
    during (drain_seen d RECEIVE m' ++ close_seen d original) s s' /\ m' = m).
  { intros H. tok_inv. split; [|done]. eapply during_app; [by eapply drain_sees|by eapply close_sees]. }
  assert (a0 : Account) by exact (mkAccount 0 [] 0 false 0). intros H.
  destruct c; cbn [end_case] in H; cbn [decide]; try rewrite decide_False by done; try rewrite decide_True by done;
    try (apply Hdrain in H as [H ->]; split; [|done]; by exists None, a0);
    try (split; [exists None, a0; by eapply withdraw_sees|eapply magic_withdraw_effect; [exact H|set_solver]]);
    (split; [|eapply take_over_effect; [exact H|set_solver]]; apply take_over_sees in H as (o & a & H); [exists o, a; apply H|set_solver]).
Qed.

Lemma run_case_sees d c m s m' s' :
  run_case net redline dlp_id validator payer mint shuttle_withdrawal wallets vault polls transfer_first d c m s = (Ok m', s') ->
  case_effect c m = Some m' /\ case_seen d c m m' s s'.
Proof.
  unfold run_case, open_case, case_seen. intros H. apply tok_bind_Ok in H as ([original m1] & s1 & Ho & H). cbn [fst snd] in H.
  apply tok_bind_Ok in H as (? & s2 & Hr & H). apply receive_sees in Hr as [Hr _]. apply tok_bind_Ok in H as (? & s3 & He & H).
  apply end_case_sees in He as [(overlay & base_ata & He) Heff]. apply tok_bind_Ok in H as (? & s4 & Hc & H). injection H as <- <-.
  apply conservation_sees in Hc. destruct (decide (c = Readonly)) as [->|Hc'].
  - apply tok_bind_Ok in Ho as (r & s0 & Ho & Hx). injection Hx as <- <- <-. apply readonly_sees in Ho as (Ho & Hm & Hs). subst.
    split; [done|]. exists r.1, overlay, base_ata. unfold receive_seen in *. rewrite Hs in Hr.
    eapply during_app; [exact Ho|]. eapply during_app; [exact Hr|]. by eapply during_app.
  - injection Ho as <- <- <-. split; [done|]. exists (mkAccount 0 [] 0 false 0), overlay, base_ata.
    cbn [app]. eapply during_app; [exact Hr|]. by eapply during_app.
Qed.

Lemma run_cases_sees cases m s m' s' :
  run_cases net redline dlp_id validator payer mint shuttle_withdrawal wallets vault polls transfer_first cases m s = (Ok m', s') ->
  cases_seen cases m m' s s' /\ cases_effect cases.*1 m = Some m'.
Proof.
  revert m s. induction cases as [|[c d] cases IH]; intros m s H; cbn [run_cases] in H; [by injection H as <- <-|].
  apply tok_bind_Ok in H as (m1 & s1 & Hc & H). apply run_case_sees in Hc as [He Hs]. apply IH in H as [H1 H2].
  cbn [cases_seen fmap list_fmap fst cases_effect]. split; [by exists m1, s1|]. by rewrite He.
Qed.

(** C39: The accounting of the overlay cases is exact, and every case was really seen to do what it
    is there for. When a wait only ends with what it waits for, an accepted run over the eleven cases, each with its own destination, is a chain of
    states: a case starts where the one before it ended, and on its way, in this order, the overlay was
    received (its balance, the debit of the source, the Magic ATA, the base chain as it was), the case
    was settled, and the accounting then reached was reconciled with balances read from both chains. A
    base balance that may not be spent was refused as read-only and left unchanged; a drained overlay
    was closed and the original account came back; a takeover that must be refused left the overlay
    exactly as it was before the delegation landed; an accepted one turned it into an ordinary token
    account with the base chain's lamports and the merged balance and approval (committed, when funded,
    to the same amount on both sides), all of which was drained back; a shuttle brought the tokens
    to the base chain, removed the overlay, cleaned up after itself and left a delegated eATA
    delegated. No debit went below zero, and at the end the source has paid 120 of the tokens it
    started with, 165 are extra on the base chain, 315 are claims kept in overlays and eATAs, and 775
    were minted in all. The two requests that overlap may be served in either order. *)
Theorem overlay_accounting_is_exact destinations s m s' :
  length destinations = 11%nat ->
  magic_run net redline dlp_id validator payer mint rent_pda top_up shuttle_withdrawal wallets vault polls transfer_first destinations s = (Ok m, s') ->
  exists start s0, during [shows Er source_ata (Some start)] s s0 /\
    cases_seen (zip Case_ALL destinations) (mkSuite start 0 0 SUPPLY) m s0 s' /\
    m = mkSuite (start - 120) 165 315 775 /\ 120 <= start.
Proof.
  intros Hd H. unfold magic_run in H. apply tok_bind_Ok in H as (start & s1 & Ha & H). apply tok_bind_Ok in H as (? & s2 & Hp & H).
  unfold magic_prepare in Hp. tok_inv. apply run_cases_sees in H as [Hsees Hall]. rewrite fst_zip in Hall by (rewrite Hd; cbn; lia).
  exists start. eexists. split; [|split; [exact Hsees|]]; [cbn [during]; seen evidence; go|].
  cbn -[checked_sub64 Z.add Z.sub] in Hall; unfold debit, checked_sub64, RECEIVE, DEPOSIT, SUPPLY in Hall; cbn -[Z.add Z.sub Z.leb] in Hall;
    repeat (case_match; [|discriminate]; cbn -[Z.add Z.sub Z.leb] in Hall); injection Hall as <-. split.
  - f_equal; lia.
  - repeat match goal with Hl : (_ <=? _) = true |- _ => apply Z.leb_le in Hl end. lia.
Qed.
End magic.

(** ** A network with prepared answers *)

#[local] Instance quiet_espl : EsplSdk := {|
  TOKEN_PROGRAM_ID := 100; ASSOCIATED_TOKEN_PROGRAM_ID := 101; ESPL_TOKEN_PROGRAM_ID := 102; MAGIC_PROGRAM_ID := 103; RENT_SYSVAR_ID := 104;
  InitializeGlobalVaultBuilder payer mint := mkIx 102 [meta_new payer true; meta_new mint false] [0];
  InitializeEphemeralAtaBuilder payer user mint := mkIx 102 [meta_new payer true; meta_new user false; meta_new mint false] [1];
  DepositSplTokensBuilder auth user mint amount := mkIx 102 [meta_new auth true; meta_new user false; meta_new mint false] (2 :: le_bytes 8 amount);
  DelegateEphemeralAtaBuilder payer user mint _ := mkIx 102 [meta_new payer true; meta_new user false; meta_new mint false] [4];
  UndelegateEphemeralAtaBuilder payer user mint := mkIx 102 [meta_new payer true; meta_new user false; meta_new mint false] [5] |}.

(** Reads and waits are answered in turn; everything that is sent succeeds, and what should be refused is. *)
Definition canned : TokenNet (list (option Account)) :=
  mkTokenNet _ (fun _ _ _ _ s => (Ok 1, s)) (fun _ _ _ _ s => (Ok (Err (RefusedInExecution InvalidWritableAccount)), s))
    (fun _ _ s => match s with a :: s => (Ok a, s) | [] => (Err TNet, []) end) (fun _ keys s => (Ok (replicate (length keys) None), s)) 
    (fun _ _ cond s => match s with a :: s => if cond [a] then (Ok [a], s) else (Err TNet, s) | [] => (Err TNet, []) end) (fun _ _ s => (Ok tt, s))
    (fun _ _ _ s => (Ok tt, s)) (fun _ s => (Ok tt, s)) (fun _ _ _ _ s => (Ok tt, s)).

(** An overlay account of an amount. *)
Definition overlay_of (a : Z) : option Account :=
  Some (mkAccount 1 (replicate 64 0 ++ le_bytes 8 a ++ replicate 57 0 ++ le_bytes 4 1 ++ pubkey_bytes 104) 7 false 0).

(** The token account that takes its place. *)
Definition projection_of (a : Z) (allowance : option (Pubkey * Z)) : option Account :=
  Some (mkAccount 1 (replicate 64 0 ++ le_bytes 8 a ++ match allowance with Some (k, _) => le_bytes 4 1 ++ pubkey_bytes k | None => replicate 36 0 end ++
    replicate 13 0 ++ le_bytes 8 (match allowance with Some (_, n) => n | None => 0 end) ++ replicate 36 0) 100 false 0).

(** The reads of the conservation check. *)
Definition conservation_reads (m : MagicAtas) : list (option Account) :=
  let source := su_source_balance m in
  [overlay_of source;
   overlay_of 0; overlay_of 200; overlay_of 45; overlay_of 0; overlay_of 100; overlay_of source; overlay_of 70; None; overlay_of 70;
   overlay_of 5; overlay_of 40; overlay_of 5; overlay_of (45 + source + su_extra_claims m + 40); overlay_of 0].

(** The reads of a case, in which the accounting goes from one record to the next. *)
Definition case_reads (c : Case) (m m' : MagicAtas) : list (option Account) :=
  let source := su_source_balance m in
  let taken := match merged c with Some (balance, allowance) => projection_of balance allowance | None => None end in
  let received base := [overlay_of 60; overlay_of (source - 60); overlay_of 60; base] in
  (match c with
   | Drain => received None ++ [overlay_of source; None]
   | Readonly => [overlay_of 45; overlay_of 45; overlay_of 45; overlay_of source] ++ received (overlay_of 45) ++ [overlay_of source; overlay_of 45]
   | Projection => received None ++ [overlay_of source; overlay_of 0; overlay_of 45; taken; overlay_of (source + 45)]
   | Funded => received None ++ [overlay_of 60; overlay_of 45; taken; overlay_of 105; overlay_of 105; overlay_of (source + 45)]
   | Shared | Overlap => received None ++ [overlay_of 60; overlay_of 45; taken; overlay_of (source + 45)]
   | Conflict | FrozenOverlay | FrozenBase => received None ++ [overlay_of 60; overlay_of 60]
   | FullShuttle => received None ++ [overlay_of 0; overlay_of 60; overlay_of 60; None]
   | TransparentShuttle => received None ++ [overlay_of 60; None; overlay_of 60]
   end) ++ conservation_reads m'.

Fixpoint cases_reads (cs : list Case) (m : MagicAtas) : list (option Account) :=
  match cs with
  | [] => []
  | c :: cs => match case_effect c m with Some m' => case_reads c m m' ++ cases_reads cs m' | None => [] end
  end.

Definition four_wallets : list Wallet := [mkWallet 1 9 11 21; mkWallet 2 9 12 22; mkWallet 3 9 13 23; mkWallet 4 9 14 24].

Definition canned_reads : list (option Account) := overlay_of 255 :: cases_reads Case_ALL (mkSuite 255 0 0 SUPPLY).

Lemma canned_awaits : awaits_hold canned.
Proof. intros side ks cond [|a s] accounts s'; cbn; [done|]. destruct (cond [a]) eqn:Ec; [by intros [= <- _]|done]. Qed.

Lemma canned_run :
  magic_run canned 42 7 50 51 9 52 (fun k _ _ => mkIx k [] []) (fun k _ _ _ _ _ _ => mkIx k [] []) four_wallets [31; 32] 3 true
    (replicate 11 (mkWallet 5 9 15 25)) canned_reads = (Ok (mkSuite 135 165 315 775), []).
Proof. vm_compute. reflexivity. Qed.

Lemma overlay_accounting_is_exact_witness :
  exists s0, cases_seen canned 7 50 51 9 (fun k _ _ _ _ _ _ => mkIx k [] []) four_wallets [31; 32] true
    (zip Case_ALL (replicate 11 (mkWallet 5 9 15 25))) (mkSuite 255 0 0 SUPPLY) (mkSuite 135 165 315 775) s0 [].
Proof.
  destruct (overlay_accounting_is_exact canned 42 7 50 51 9 52 (fun k _ _ => mkIx k [] []) (fun k _ _ _ _ _ _ => mkIx k [] []) four_wallets [31; 32] 3 true
    canned_awaits (replicate 11 (mkWallet 5 9 15 25)) canned_reads (mkSuite 135 165 315 775) [] eq_refl canned_run) as (start & s0 & _ & Hs & Hm & _).
  exists s0. injection Hm as Hm. replace start with 255 in Hs by lia. exact Hs.
Defined.
