(* ===== verification/Intents.v ===== *)
(** Intents and their accounting: [redshift/src/scenarios/committor/intent_execution_and_accounting.rs],
    with the native calls of [programs/fixture/src/magic.rs].

    Three actors own a cell each.  Bundles of commits and undelegations are scheduled on the rollup,
    with transfers that run on the base chain after each stage; an oracle of headers says what every
    cell must hold then.  After that the limits of sponsored and paid commits are crossed, and the
    refund of a callback is taken both ways.  The chains are the record [IntentNet] of requests, over
    the monad of [Projected.v]; fresh keys are arguments.  [None] of a builder is its panic. *)
From Stdlib Require Import String.
From S2P Require Import Prelude World Cell Instr Build Text Float64 Waiting Receipt Prep Spl Projected.

#[local] Open Scope string_scope.
#[local] Open Scope Z_scope.
#[local] Open Scope list_scope.
#[local] Open Scope tok_scope.

(** * Native protocol calls *)

Record MagicTask := mkMagicTask { tk_id : Z; tk_interval_ms : Z; tk_iterations : Z }.

(** What bincode makes of a [MagicBlockInstruction] and of a [CallbackInstruction]. *)
Class MagicWire := {
  CallbackArgs : Type;
  wire_schedule_commit : list Z;
  wire_schedule_commit_and_undelegate : list Z;
  wire_schedule_task : MagicTask -> list SolInstruction -> list Z;
  wire_cancel_task : Z -> list Z;
  wire_add_action_callback : CallbackArgs -> list Z;
  wire_execute_callback : SolInstruction -> list Z;
  (** the indices committed and those committed and finalized *)
  wire_schedule_intent_bundle : option (list Z) -> option (list Z) -> list Z;
  wire_callback_signer : Pubkey;
  wire_callback_program_id : Pubkey }.

Section magic_calls.
Context `{B : BuildSdk, W : MagicWire}.

Definition Magic_encode (d : list Z) (accounts : list AccountMeta) : SolInstruction := mkIx magic_program_id accounts d.

Definition Magic_commit (payer : Pubkey) (vault : option Pubkey) (cells : list Pubkey) (mode : SettlementMode) : SolInstruction :=
  let accounts := [meta_new payer true; meta_new magic_context_id false] ++
                  match vault with Some k => [meta_new k false] | None => [] end ++ ((fun k => meta_new k false) <$> cells) in
  Magic_encode match mode with Commit => wire_schedule_commit | Undelegate => wire_schedule_commit_and_undelegate end accounts.

Definition Magic_schedule (payer cell : Pubkey) (task : MagicTask) (ixs : list SolInstruction) : SolInstruction :=
  Magic_encode (wire_schedule_task task ixs) [meta_new payer true; meta_new cell true].

Definition Magic_cancel (payer : Pubkey) (task_id : Z) : SolInstruction := Magic_encode (wire_cancel_task task_id) [meta_new payer true].

Definition Magic_add_callback (payer vault : Pubkey) (args : CallbackArgs) : SolInstruction :=
  Magic_encode (wire_add_action_callback args) [meta_new payer true; meta_new magic_context_id false; meta_new vault false].

Definition Magic_execute_callback (auth : AccountMeta) (ix : SolInstruction) : SolInstruction :=
  mkIx wire_callback_program_id
    ([auth; meta_new_readonly wire_callback_signer false; meta_new_readonly (ix_program_id ix) false] ++ ix_accounts ix)
    (wire_execute_callback ix).

Definition Magic_intents (payer vault : Pubkey) (cells : list Pubkey) (committed finalized : option (list Z)) : SolInstruction :=
  Magic_encode (wire_schedule_intent_bundle committed finalized)
    ([meta_new payer true; meta_new magic_context_id false; meta_new vault false] ++ ((fun k => meta_new k false) <$> cells)).
End magic_calls.

(** * Constants *)

Definition PAID_COMMIT_LIMIT : Z := 25.
Definition ACTION_FEE : Z := 5000.
Definition CALLBACK_FEE : Z := 5000.
Definition TRANSFER_LAMPORTS : Z := 1000000.
Definition ACTION_COMPUTE_UNITS : Z := 100000.
Definition ACTORS : nat := 3.
Definition CALLBACK_AMOUNT : Z := 890880.

Inductive StageMode := ModeCommit | ModeUndelegate (change : Z) | ModeFinalize.

(** * The instructions *)

Section instructions.
Context `{R : Runtime, C : InstructionCodec, B : BuildSdk, W : MagicWire}.
Context (redshift dlp_id : Pubkey).

(** What runs after a commit: a transfer, guarded by the cell still being delegated. *)
Definition commit_action (authority cell destination : Pubkey) : option Action :=
  b ← Batch_transfer_from_escrow destination TRANSFER_LAMPORTS (Program_batch redshift);
  ix ← Batch_action cell dlp_id b;
  Some (Action_new authority ix ACTION_COMPUTE_UNITS).

(** What runs after an undelegation: a change of the cell and a transfer, guarded by its return. *)
Definition undelegate_action (authority cell destination : Pubkey) (change : Z) : option Action :=
  b ← Batch_add [cell] change (Program_batch redshift);
  b ← Batch_transfer_from_escrow destination TRANSFER_LAMPORTS b;
  ix ← Batch_action cell redshift b;
  Some (Action_new authority ix ACTION_COMPUTE_UNITS).

Definition mode_commit (destination : Pubkey) (actions : bool) (authority cell : Pubkey) (mode : StageMode) : option (Intent Pubkey) :=
  let settlement := match mode with ModeUndelegate _ => Undelegate | _ => Commit end in
  if actions then
    committed ← commit_action authority cell destination;
    returned ← match mode with
               | ModeUndelegate change => a ← undelegate_action authority cell destination change; Some [a]
               | _ => Some []
               end;
    Some (mkIntent settlement [cell] [committed] returned)
  else Some (Commit_new settlement [cell]).

(** [authorities.iter().zip(&cells).zip(modes)] *)
Fixpoint mode_commits (destination : Pubkey) (actions : bool) (authorities cells : list Pubkey) (modes : list StageMode) :
    option (list (Intent Pubkey)) :=
  match authorities, cells, modes with
  | authority :: authorities, cell :: cells, mode :: modes =>
      commit ← mode_commit destination actions authority cell mode;
      commits ← mode_commits destination actions authorities cells modes;
      Some (commit :: commits)
  | _, _, _ => Some []
  end.

Definition intents (authorities : list Pubkey) (validator destination : Pubkey) (modes : list StageMode) (actions : bool) : option SolInstruction :=
  let cells := Program_primaries redshift authorities in
  match modes with
  | [ModeCommit; ModeFinalize] =>
      second ← authorities !! 1%nat;
      b ← Batch_require_signer second (Program_batch redshift);
      first ← authorities !! 0%nat;
      b ← Batch_invoke (Magic_intents first (magic_fee_vault_pda validator) cells (Some [3]) (Some [4])) b;
      Some (Batch_build b)
  | _ =>
      first ← authorities !! 0%nat;
      commits ← mode_commits destination actions authorities cells modes;
      b ← Batch_intents (mkIntentBundle first (Some validator) commits []) (Program_batch redshift);
      Some (Batch_build b)
  end.

Definition transfer_with_refund (authority validator destination : Pubkey) (amount : Z) (fail : bool) : option SolInstruction :=
  let cell := Program_primary redshift authority in
  let action := Program_batch redshift in
  let action := if fail then Batch_fail 0xFA11 action else action in
  b ← Batch_transfer_from_escrow destination amount action;
  transfer ← Batch_action cell dlp_id b;
  let callback := mkResultCallback cell (Some (mkRefund authority amount)) 20000 in
  let commit := mkIntent Commit [cell] [Action_then (Action_new authority transfer ACTION_COMPUTE_UNITS) callback] [] in
  b ← Batch_invoke (Prep.system_transfer authority cell amount) (Program_batch redshift);
  b ← Batch_intents (mkIntentBundle authority (Some validator) [commit] []) b;
  Some (Batch_build b).

(** A change of the cell on the rollup, signed by its actor. *)
Definition add_ix (cell key : Pubkey) (change : Z) : option SolInstruction :=
  b ← Batch_add [cell] change (Program_batch redshift);
  b ← Batch_require_signer key b;
  Some (Batch_build b).
End instructions.

(** * The oracle *)

Record Actor := mkActor { at_payer : Pubkey; at_cell : Pubkey; at_expected : CellHeader; at_delegated : bool }.

Definition bump_revision (h : CellHeader) (v : Z) : option CellHeader :=
  rev ← checked_add64 (revision h) 1;
  Some (mkHeader (id h) v rev (undelegation h)).

(** [value += addition as u64], which panics beyond 64 bits as the revision does. *)
Definition expect_addition (addition : Z) (h : CellHeader) : option CellHeader :=
  v ← checked_add64 (value h) (addition mod u64_bound); bump_revision h v.

(** [value.checked_add_signed(change)] *)
Definition expect_change (change : Z) (h : CellHeader) : option CellHeader :=
  v ← checked_add_signed64 (value h) change; bump_revision h v.

Definition with_delegated (d : bool) (a : Actor) : Actor := mkActor (at_payer a) (at_cell a) (at_expected a) d.
Definition with_expected (h : CellHeader) (a : Actor) : Actor := mkActor (at_payer a) (at_cell a) h (at_delegated a).

(** * The chains *)

Record IntentNet (S : Type) := mkIntentNet
  { in_submit : Side -> Pubkey -> list Pubkey -> list SolInstruction -> S -> Result Z TokenError * S;
    (** sent on the rollup without waiting, and the error of the transaction once it is published *)
    in_send : Pubkey -> list SolInstruction -> S -> Result Z TokenError * S;
    in_transaction : Z -> S -> Result (option TransactionError) TokenError * S;
    in_account : Side -> Pubkey -> S -> Result (option Account) TokenError * S;
    in_balance : Side -> Pubkey -> S -> Result Z TokenError * S;
    in_await : list Pubkey -> (list (option Account) -> bool) -> S -> Result unit TokenError * S;
    in_await_delegated : Pubkey -> S -> Result unit TokenError * S;
    (** [check_commit]: the receipt, fetched and verified *)
    in_receipt : Z -> list Pubkey -> bool -> S -> Result CommitReceipt TokenError * S;
    in_airdrop : Pubkey -> Z -> S -> Result unit TokenError * S }.
Arguments in_submit {S} _. Arguments in_send {S} _. Arguments in_transaction {S} _. Arguments in_account {S} _. Arguments in_balance {S} _.
Arguments in_await {S} _. Arguments in_await_delegated {S} _. Arguments in_receipt {S} _. Arguments in_airdrop {S} _.

Section scenario.
Context `{R : Runtime, C : InstructionCodec, B : BuildSdk, W : MagicWire, HC : HeaderCodec} {S : Type} (net : IntentNet S).
Context (redshift dlp_id validator : Pubkey) (COMMIT_FEE_LAMPORTS : Z).
Context (delegation_metadata_pda : Pubkey -> Pubkey) (metadata_last_commit_id : list Z -> option Z).
(** [instruction_builder::delegate] for a payer, and [top_up_ephemeral_balance] *)
Context (dlp_delegate : Pubkey -> Pubkey -> Pubkey -> SolInstruction) (top_up : Pubkey -> Z -> Z -> SolInstruction).

Abbreviation intents := (intents redshift dlp_id).
Abbreviation add_ix := (add_ix redshift).

Definition last_commit_id (k : Pubkey) : Tok S Z :=
  let~ found := in_account net Base (delegation_metadata_pda k) in
  let~ metadata := tok_some found in
  tok_some (metadata_last_commit_id (ac_data metadata)).

Definition fixture_delegate_payer (funder payer : Pubkey) : Tok S unit :=
  do~ in_submit net Base funder [payer] [system_assign payer (pubkey_bytes dlp_id); dlp_delegate funder payer validator] in
  let~ found := in_account net Base payer in
  let~ on_chain := tok_some found in
  do~ tok_ensure (ac_owner on_chain =? dlp_id) in
  in_await_delegated net payer.

Definition check_settled (signature : Z) (accounts : list Pubkey) (undelegates : bool) : Tok S unit :=
  let~ receipt := in_receipt net signature accounts undelegates in tok_ensure (is_ok (check_success receipt)).

Definition redelegate (payer : Pubkey) (phase : string) : Tok S unit :=
  do~ in_submit net Base payer []
        [Program_delegate redshift payer (CellId_new payer 0) (Some validator) COMMIT_FREQUENCY_MS; Program_log redshift phase] in
  tok_ret tt.

(** ** Bundles *)

Definition restored (a : Actor) (accounts : list (option Account)) : bool :=
  match accounts !! 0%nat with
  | Some (Some x) => (ac_owner x =? redshift) && bool_decide (CellHeader_try_decode (ac_data x) = Some (at_expected a))
  | _ => false
  end.

(** An actor before a bundle: delegated again, restored, and changed on the rollup. *)
Definition prepare_actor (label : string) (addition : Z) (a : Actor) : Tok S Actor :=
  do~ (if at_delegated a then tok_ret tt else redelegate (at_payer a) label) in
  let a := with_delegated true a in
  do~ in_await_delegated net (at_cell a) in
  do~ in_await net [at_cell a] (restored a) in
  if addition =? 0 then tok_ret a
  else
    let~ ix := tok_some (add_ix (at_cell a) (at_payer a) addition) in
    do~ in_submit net Er (at_payer a) [] [ix] in
    let~ h := underflow (expect_addition addition (at_expected a)) in
    tok_ret (with_expected h a).

Fixpoint prepare_actors (label : string) (additions : list Z) (actors : list Actor) : Tok S (list Actor) :=
  match additions with
  | [] => tok_ret actors
  | addition :: additions =>
      match actors with
      | [] => tok_fail TMissing
      | a :: actors =>
          let~ a := prepare_actor label addition a in
          let~ actors := prepare_actors label additions actors in
          tok_ret (a :: actors)
      end
  end.

(** An actor after a bundle, and the transfers its actions made. *)
Definition expect_mode (actions : bool) (mode : StageMode) (a : Actor) : option (Actor * Z) :=
  match mode with
  | ModeUndelegate change =>
      h ← expect_change change (at_expected a);
      Some (with_delegated false (with_expected h a), Z.b2z actions + 1)
  | _ => Some (a, Z.b2z actions)
  end.

Definition settle_actor (actions : bool) (mode : StageMode) (a : Actor) : Tok S (Actor * Z) :=
  let~ next := underflow (expect_mode actions mode a) in
  let~ found := in_account net Base (at_cell next.1) in
  let~ account := tok_some found in
  do~ tok_ensure (bool_decide (CellHeader_try_decode (ac_data account) = Some (at_expected next.1))) in
  do~ tok_ensure (ac_owner account =? if at_delegated next.1 then dlp_id else redshift) in
  tok_ret next.

Fixpoint settle_actors (actions : bool) (modes : list StageMode) (actors : list Actor) : Tok S (list Actor * Z) :=
  match modes, actors with
  | mode :: modes, a :: actors =>
      let~ next := settle_actor actions mode a in
      let~ rest := settle_actors actions modes actors in
      tok_ret (next.1 :: rest.1, next.2 + rest.2)
  | _, _ => tok_ret (actors, 0)
  end.

Definition is_undelegate (mode : StageMode) : bool := match mode with ModeUndelegate _ => true | _ => false end.

Definition check_bundle (label : string) (modes : list StageMode) (additions : list Z) (actions : bool) (destination : Pubkey)
    (actors : list Actor) : Tok S (list Actor) :=
  let n := length modes in
  do~ (if (n <=? length additions)%nat then tok_ret tt else tok_fail TMissing) in
  let~ actors := prepare_actors label (take n additions) actors in
  let keys := at_payer <$> take n actors in
  let cells := at_cell <$> take n actors in
  let~ ix := tok_some (intents keys validator destination modes actions) in
  let~ first := tok_some (keys !! 0%nat) in
  let~ signature := in_submit net Er first (drop 1 keys) [ix] in
  do~ check_settled signature cells (existsb is_undelegate modes) in
  let~ settled := settle_actors actions modes actors in
  let~ got := in_balance net Base destination in
  do~ tok_ensure (got =? settled.2 * TRANSFER_LAMPORTS) in
  tok_ret settled.1.

Record BundleCase := mkBundleCase { bc_label : string; bc_modes : list StageMode; bc_additions : list Z; bc_actions : bool }.

Definition BUNDLES : list BundleCase :=
  [mkBundleCase "two-payer undelegate actions" [ModeUndelegate (-50); ModeUndelegate 25] [100; 200] true;
   mkBundleCase "action after redelegation" [ModeUndelegate 102] [0] true;
   mkBundleCase "mixed commit/undelegate bundle" [ModeCommit; ModeCommit; ModeUndelegate (-25)] [0; 0; 200] true;
   mkBundleCase "same-session two-payer commit actions" [ModeCommit; ModeCommit] [2; 0] true;
   mkBundleCase "mixed commit/finalize bundle" [ModeCommit; ModeFinalize] [0; 0] false].

(** [destinations]: the fresh key of every bundle. *)
Fixpoint check_bundles (bundles : list (BundleCase * Pubkey)) (actors : list Actor) : Tok S (list Actor) :=
  match bundles with
  | [] => tok_ret actors
  | (b, destination) :: bundles =>
      let~ actors := check_bundle (bc_label b) (bc_modes b) (bc_additions b) (bc_actions b) destination actors in
      check_bundles bundles actors
  end.

(** ** Commit limits *)

(** [i64::from(nonce as u8 + 1)]; [None] is the overflow of the byte. *)
Definition nonce_change (nonce : Z) : option Z := if nonce mod u8_bound =? 255 then None else Some (nonce mod u8_bound + 1).

Definition increment_and_commit (a : Actor) (nonce : Z) (destination : Pubkey) (actions : bool) : Tok S Z :=
  let~ change := underflow (nonce_change nonce) in
  let~ add := tok_some (add_ix (at_cell a) (at_payer a) change) in
  let~ ix := tok_some (intents [at_payer a] validator destination [ModeCommit] actions) in
  in_submit net Er (at_payer a) [] [add; ix].

Definition sponsored_commit (a : Actor) (destination : Pubkey) (nonce : Z) : Tok S unit :=
  let~ signature := increment_and_commit a nonce destination false in
  do~ check_settled signature [at_cell a] false in
  let~ last := last_commit_id (at_cell a) in
  tok_ensure (last =? nonce + 1).

(** Exhausts a sponsored session, is refused at its limit, and undelegates all the same. *)
Definition check_sponsored_quota (a : Actor) (destination : Pubkey) : Tok S unit :=
  let~ initial := last_commit_id (at_cell a) in
  do~ tok_ensure (initial <? SPONSORED_COMMIT_LIMIT) in
  do~ tok_each (sponsored_commit a destination) (seqZ initial (SPONSORED_COMMIT_LIMIT - initial)) in
  let~ before := in_account net Er (at_cell a) in
  let~ add := tok_some (add_ix (at_cell a) (at_payer a) 99) in
  let~ ix := tok_some (intents [at_payer a] validator destination [ModeCommit] false) in
  let~ signature := in_send net (at_payer a) [add; ix] in
  let~ err := in_transaction net signature in
  do~ tok_ensure (bool_decide (err ≫= custom_error_code = Some COMMIT_LIMIT_ERR)) in
  let~ after := in_account net Er (at_cell a) in
  do~ tok_ensure (bool_decide (after = before)) in
  let~ ix := tok_some (intents [at_payer a] validator destination [ModeUndelegate 0] false) in
  let~ signature := in_submit net Er (at_payer a) [] [ix] in
  do~ check_settled signature [at_cell a] true in
  let~ found := in_account net Base (at_cell a) in
  let~ account := tok_some found in
  do~ tok_ensure (ac_owner account =? redshift) in
  let~ before := tok_some before in
  do~ tok_ensure (bool_decide (ac_data account = ac_data before)) in
  redelegate (at_payer a) "after sponsored quota".

(** What a commit costs at a nonce. *)
Definition commit_fee (nonce : Z) (actions : bool) : Z :=
  (if PAID_COMMIT_LIMIT <=? nonce then COMMIT_FEE_LAMPORTS else 0) + (if actions then ACTION_FEE else 0).

Definition paid_commit (a : Actor) (vault : Pubkey) (turn : Z * Pubkey) : Tok S unit :=
  let '(nonce, destination) := turn in
  let actions := nonce =? PAID_COMMIT_LIMIT + 1 in
  let~ payer_before := in_balance net Er (at_payer a) in
  let~ vault_before := in_balance net Er vault in
  let~ signature := increment_and_commit a nonce destination actions in
  do~ check_settled signature [at_cell a] false in
  let fee := commit_fee nonce actions in
  let~ payer := in_balance net Er (at_payer a) in
  let~ left := underflow (checked_sub64 payer_before fee) in
  do~ tok_ensure (payer =? left) in
  let~ credited := in_balance net Er vault in
  let~ total := underflow (checked_add64 vault_before fee) in
  do~ tok_ensure (credited =? total) in
  let~ last := last_commit_id (at_cell a) in
  do~ tok_ensure (last =? nonce + 1) in
  let~ got := in_balance net Base destination in
  tok_ensure (got =? if actions then TRANSFER_LAMPORTS else 0).

Definition check_paid_threshold (a : Actor) (fresh : Z -> Pubkey) : Tok S unit :=
  let vault := magic_fee_vault_pda validator in
  let~ initial := last_commit_id (at_cell a) in
  do~ tok_ensure (initial <? PAID_COMMIT_LIMIT) in
  tok_each (paid_commit a vault) ((fun nonce => (nonce, fresh nonce)) <$> seqZ initial (PAID_COMMIT_LIMIT + 2 - initial)).

(** ** Callbacks *)

Definition called_back (fail : bool) (state : CellHeader) (cell_lamports payer_lamports : Z) (accounts : list (option Account)) : bool :=
  match accounts with
  | Some cell :: Some payer :: _ =>
      match CellHeader_try_decode (ac_data cell) with
      | Some actual =>
          (revision actual =? revision state + 1) && (value actual =? value state + Z.b2z fail) &&
          (ac_lamports cell =? cell_lamports) && (ac_lamports payer =? payer_lamports)
      | None => false
      end
  | _ => false
  end.

Definition check_callback (a : Actor) (destination : Pubkey) (fail : bool) : Tok S unit :=
  let vault := magic_fee_vault_pda validator in
  let transferred := if fail then 0 else CALLBACK_AMOUNT in
  let fee := ACTION_FEE + CALLBACK_FEE in
  let~ found := in_account net Er (at_cell a) in
  let~ before := tok_some found in
  let~ state := tok_some (CellHeader_try_decode (ac_data before)) in
  let~ payer_before := in_balance net Er (at_payer a) in
  let~ vault_before := in_balance net Er vault in
  let~ ix := tok_some (transfer_with_refund redshift dlp_id (at_payer a) validator destination CALLBACK_AMOUNT fail) in
  let~ signature := in_submit net Er (at_payer a) [] [ix] in
  do~ check_settled signature [at_cell a] false in
  do~ in_await net [at_cell a; at_payer a]
        (called_back fail state (ac_lamports before + transferred) (payer_before - fee - transferred)) in
  let~ got := in_balance net Base destination in
  do~ tok_ensure (got =? transferred) in
  let~ credited := in_balance net Er vault in
  tok_ensure (credited =? vault_before + fee).

(** ** The run *)

Definition new_actor (payer : Pubkey) : Tok S Actor :=
  let '(cell, setup) := prepare_delegated (mkFixtures payer redshift) validator COMMIT_FREQUENCY_MS in
  do~ in_submit net Base payer [] (setup ++ [top_up payer 500000000 1]) in
  let~ found := in_account net Base cell in
  let~ account := tok_some found in
  let~ expected := tok_some (CellHeader_try_decode (ac_data account)) in
  tok_ret (mkActor payer cell expected true).

(** [funder] and [payers] are fresh keys. *)
Definition fixture_prepare (funder : Pubkey) (payers : list Pubkey) : Tok S (list Actor) :=
  do~ tok_each (fun k => in_airdrop net k PAYER_LAMPORTS) (funder :: payers) in
  tok_map new_actor payers.

Definition intents_run (funder : Pubkey) (payers destinations : list Pubkey) (fresh : Z -> Pubkey) (refunds : bool -> Pubkey) : Tok S (list Actor) :=
  let~ actors := fixture_prepare funder payers in
  let~ actors := check_bundles (zip BUNDLES destinations) actors in
  let~ first := tok_some (actors !! 0%nat) in
  let~ second := tok_some (actors !! 1%nat) in
  do~ check_sponsored_quota first (at_payer second) in
  do~ fixture_delegate_payer funder (at_payer first) in
  do~ in_await_delegated net (at_cell first) in
  do~ check_paid_threshold first fresh in
  do~ fixture_delegate_payer funder (at_payer second) in
  do~ tok_each (fun fail => check_callback second (refunds fail) fail) [false; true] in
  tok_ret actors.
End scenario.
