(* ===== verification/IntentsProps.v ===== *)
(** Intents: the oracle of headers, owners and transfers is what the program does.  The instructions
    the scenario builds, processed on the rollup and, stage by stage, on the base chain, leave what its
    checks expect; and the fees it reconciles are those of the two paid commits and one action. *)
From Stdlib Require Import String.
From S2P Require Import Prelude World Cell Instr Settlement RefCodec SettlementFacts Execute CellSpec ExecuteFacts Build BuildSpec Fixture FixtureProps Text Waiting Receipt Prep Spl Projected ProjectedProps Intents.

#[local] Open Scope Z_scope.
#[local] Open Scope list_scope.

(** * The oracle *)

Lemma expect_change_Some change h h' :
  expect_change change h = Some h' ->
  0 <= value h + change < u64_bound /\ revision h < u64_max /\ h' = bump (with_value (value h + change) h).
Proof.
  unfold expect_change, bump_revision, checked_add_signed64, checked_add64. intros H.
  destruct (Z.leb_spec 0 (value h + change)); [|done]. destruct (Z.ltb_spec (value h + change) u64_bound); [|done]. cbn [andb mbind option_bind] in H.
  destruct (Z.ltb_spec (revision h + 1) u64_bound); [|done]. injection H as <-. split_and!; [lia|lia|unfold u64_max; lia|done].
Qed.

(** An addition that fits an [i32] is not changed by its cast. *)
Lemma expect_addition_Some addition h h' :
  0 <= addition < 2 ^ 31 -> 0 <= value h -> expect_addition addition h = Some h' -> expect_change addition h = Some h'.
Proof.
  intros Ha Hv. unfold expect_addition, expect_change, checked_add64, checked_add_signed64.
  rewrite Z.mod_small by (unfold u64_bound; lia). by rewrite (proj2 (Z.leb_le 0 (value h + addition))) by lia.
Qed.

(** * What the builders leave *)

(** A batch that has only gained accounts since it held its calls. *)
Lemma holds_more b b' cs : holds b cs -> interned b' -> grows b b' -> b_operations b' = b_operations b -> holds b' cs.
Proof. intros [_ Hm] Hi Hg Ho. split; [done|]. rewrite Ho. eapply Forall2_impl; [done|]. intros. by eapply means_grows. Qed.

Lemma transfer_batch `{Runtime} destination amount b b' :
  interned b -> Batch_transfer_from_escrow destination amount b = Some b' ->
  interned b' /\ grows b b' /\ exists i j, resolves b' i destination /\ resolves b' j system_program_id /\
    b_operations b' = b_operations b ++ [OpTransferFromEscrow i j amount].
Proof.
  intros Hi ([i b1] & H1 & H2)%bind_Some. apply bind_Some in H2 as ([j b2] & H2 & [= <-]).
  apply Batch_account_spec in H1 as (I1 & G1 & R1 & O1 & _); [|done].
  apply Batch_account_spec in H2 as (I2 & G2 & R2 & O2 & _); [|done].
  split_and!; [done|by do 2 (etransitivity; [done|]); apply grows_push|]. exists i, j. split_and!; [|done|cbn; congruence].
  eapply (resolves_grows b1); [|done]. by etransitivity; [|apply grows_push].
Qed.

Lemma action_batch `{Runtime, InstructionCodec} cell own b ix :
  interned b -> Batch_action cell own b = Some ix ->
  exists b' i, interned b' /\ grows b b' /\ resolves b' i cell /\ b_operations b' = b_operations b /\ ix_accounts ix = b_accounts b' /\
    ix_data ix = Instruction_into_data (IxAction (b_nonce b') (mkGuard cell own) (b_operations b')).
Proof.
  intros Hi ([i b'] & Ha & [= <-])%bind_Some. apply Batch_account_spec in Ha as (I1 & G1 & R1 & O1 & _); [|done]. by exists b', i.
Qed.

Section program.
Context `{R : Runtime, !RuntimeLaws R, HC : HeaderCodec, !HeaderCodecLaws HC}.
Context `{C : InstructionCodec, !InstructionCodecLaws R C, K : IntentSdk, B : BuildSdk}.
Context (redshift dlp_id : Pubkey).

(** * On the rollup *)

Lemma holds_end_to_end b cs w σ σ' :
  holds b cs -> b_nonce b = 0 -> fits cs -> Forall Call_wf cs -> represents σ w -> borrowed w = ∅ -> effects cs σ = Some σ' ->
  reaches (process redshift (infos_of (ix_accounts (Batch_build b))) (ix_data (Batch_build b))) w σ σ'.
Proof.
  intros Hh Hn Hfit Hwf Hr Hb He. pose proof (holds_wf _ _ Hh Hwf) as Hops. destruct Hh as [_ Hm].
  cbn [Batch_build Program_encode ix_data ix_accounts]. unfold reaches. rewrite process_execute; [|by rewrite Hn|split; [done|]].
  - apply run_from_reaches; [done..|]. rewrite keys_infos_of. fold (keys b). by rewrite (abs_run_effects _ _ _ _ Hm).
  - unfold fits in Hfit. by rewrite (Forall2_length _ _ _ Hm).
Qed.

Lemma add_ix_lands cell k change ix w σ h p h' :
  add_ix redshift cell k change = Some ix -> is_i64 change -> represents σ w -> borrowed w = ∅ -> σ !! cell = Some (h, p) ->
  expect_change change h = Some h' ->
  reaches (process redshift (infos_of (ix_accounts ix)) (ix_data ix)) w σ (<[cell := (h', p)]> σ).
Proof.
  intros (b1 & H1 & Hr)%bind_Some Hc Hw Hb Hl He. apply bind_Some in Hr as (b2 & H2 & [= <-]).
  destruct (calls_hold [CAdd [cell] change] [] (Program_batch redshift) b1 (holds_batch _)) as [Hh (_ & Hn & _)]; [cbn [calls call]; by rewrite H1|].
  apply fmap_Some in H2 as ([i b2'] & H2 & ->). apply Batch_account_spec in H2 as (I2 & G2 & R2 & O2 & _); [|by apply Hh].
  apply (holds_end_to_end _ [CAdd [cell] change]); [by eapply holds_more|exact (eq_trans (proj1 (proj2 G2)) Hn)|done| |done|done|].
  - constructor; [|done]. split; [by vm_compute|done].
  - apply expect_change_Some in He as (Hv & Hrev & ->). cbn [effects effect key_each]. unfold abs_update. rewrite Hl. cbn [mbind option_bind].
    rewrite bool_decide_eq_true_2 by done. cbn [mbind option_bind]. rewrite bool_decide_eq_true_2 by (cbn; lia). done.
Qed.

(** * On the base chain *)

(** An action is delivered with the accounts it names, the program that scheduled it, its authority and
    the escrow that signs. *)
Context (source other escrow : AccountInfo) (destination : Pubkey).
Hypothesis (Hsource : key source = redshift) (Hescrow : is_signer escrow = true).

Definition delivered_infos (ix : SolInstruction) : list AccountInfo := infos_of (ix_accounts ix) ++ [source; other; escrow].
Definition land_action (a : Action) : M unit := process redshift (delivered_infos (act_instruction a)) (ix_data (act_instruction a)).

(** The delegation program gives a cell back: it hands the committed state over in a buffer, with the
    seeds of the cell, to the handler the program has for that. *)
Context (buffer returner system : AccountInfo) (handover : Pubkey -> M unit) (seeds_data : list Z) (seeds : list (list Z)).
Hypothesis (Hseeds : decode_seeds seeds_data = Some seeds).

Definition give_back (cell : Pubkey) : M unit :=
  handover cell ;; process redshift [mkInfo cell false true; buffer; returner; system] (external_undelegate_discriminator ++ seeds_data).

(** Neither touches the funds of the actions. *)
Definition funds_kept (w w' : World) : Prop :=
  borrowed w' = borrowed w /\ lamports (account w' destination) = lamports (account w destination) /\
  lamports (account w' (key escrow)) = lamports (account w (key escrow)).

Hypothesis (Hhandover : forall cell w, exists w',
  handover cell w = (Ok tt, w') /\ data (account w' (key buffer)) = data (account w cell) /\ funds_kept w w').
(** The documented effect of [undelegate_account]: the account is the program's again, with what the buffer holds. *)
Hypothesis (Hundelegate : forall cell w, exists w',
  undelegate_account (mkInfo cell false true) redshift buffer returner system seeds w = (Ok tt, w') /\
  owner (account w' cell) = redshift /\ data (account w' cell) = data (account w (key buffer)) /\ funds_kept w w').

(** A committed intent: its actions, then, when it undelegates, the return of the cell through the
    program and the actions after that. *)
Definition settle_on_base (cell : Pubkey) (i : Intent Pubkey) : M unit :=
  for_each land_action (it_after_commit i) ;;
  match it_mode i with
  | Commit => mret tt
  | Undelegate => give_back cell ;; for_each land_action (it_after_undelegate i)
  end.

(** The documented effect of a system transfer. *)
Definition moved (w : World) : World :=
  let w1 := set_lamports (key escrow) (lamports (account w (key escrow)) - TRANSFER_LAMPORTS) w in
  set_lamports destination (lamports (account w1 destination) + TRANSFER_LAMPORTS) w1.
Hypothesis (Htransfer : forall dest sys w, key dest = destination -> key sys = system_program_id ->
  TRANSFER_LAMPORTS <= lamports (account w (key escrow)) ->
  invoke (World.system_transfer (key escrow) destination TRANSFER_LAMPORTS) [escrow; dest; sys] w = (Ok tt, moved w)).

Lemma delivered_lookup ix b i k :
  ix_accounts ix = b_accounts b -> resolves b i k -> exists a, info (delivered_infos ix) i = Ok a /\ key a = k /\ a ∈ delivered_infos ix.
Proof.
  intros Hix [_ Hk]. destruct (info_lookup (delivered_infos ix) i k) as (a & Ha & Hak).
  - unfold delivered_infos. rewrite fmap_app, keys_infos_of, Hix. apply lookup_app_l_Some, Hk.
  - exists a. split_and!; [done..|]. unfold info, ok_or in Ha. case_match; simplify_eq. by eapply list_elem_of_lookup_2.
Qed.

(** A delivered action whose guard holds is a run of its operations. *)
Lemma land_guarded cell own b ix u w :
  interned b -> b_nonce b = 0 -> Batch_action cell own b = Some ix -> is_u 256 cell -> is_u 256 own -> vec_wf Operation_wf (b_operations b) ->
  owner (account w cell) = own ->
  land_action (Action_new u ix ACTION_COMPUTE_UNITS) w = run redshift (delivered_infos ix) (b_operations b) w.
Proof.
  intros Hi Hn Ha Hc Ho Hops Hown. destruct (action_batch _ _ _ _ Hi Ha) as (b' & i & I' & G' & R' & O' & Hacc & Hdat).
  unfold land_action. cbn [Action_new act_instruction]. rewrite Hdat, O', process_built; [|split; [by rewrite (proj1 (proj2 G')), Hn|done]].
  cbn [dispatch]. pose proof (run_action_guarded redshift (delivered_infos ix) (mkGuard cell own) (b_operations b) w) as Hg.
  enough (action_guard redshift (delivered_infos ix) (mkGuard cell own) w = true) as Ht by by rewrite Ht in Hg.
  unfold action_guard, action_tail. unfold delivered_infos at 1. rewrite reverse_app. cbn [reverse rev_append app].
  rewrite Hsource, Z.eqb_refl, Hescrow. cbn [andb g_cell g_owner].
  destruct (delivered_lookup ix b' i cell Hacc R') as (a & _ & Hak & Hin).
  destruct (find_first _ _) as [x|] eqn:Ef.
  - apply find_first_Some in Ef as [_ Hx%Z.eqb_eq]. rewrite Hx, Hown. apply Z.eqb_refl.
  - apply (proj1 (find_first_None _ _)) with (x := a) in Ef; [|done]. by rewrite Hak, Z.eqb_refl in Ef.
Qed.

Lemma last_delivered ix : last (delivered_infos ix) = Some escrow.
Proof. unfold delivered_infos. by rewrite last_app. Qed.

Lemma transfer_applies ix b i j w :
  ix_accounts ix = b_accounts b -> resolves b i destination -> resolves b j system_program_id ->
  TRANSFER_LAMPORTS <= lamports (account w (key escrow)) ->
  apply redshift (delivered_infos ix) (OpTransferFromEscrow i j TRANSFER_LAMPORTS) w = (Ok tt, moved w).
Proof.
  intros Hix Hi Hj Hl. cbn [apply]. unfold transfer_from_escrow. rewrite last_delivered.
  destruct (delivered_lookup ix b i _ Hix Hi) as (d & Hd & Hdk & _). destruct (delivered_lookup ix b j _ Hix Hj) as (s & Hs & Hsk & _).
  unfold mbind, M_bind, lift. cbn [ok_or]. rewrite Hescrow, Hd, Hs, Hdk. by apply Htransfer.
Qed.

Lemma interned_batch : interned (Program_batch redshift).
Proof. exact (proj1 (holds_batch redshift)). Qed.

Lemma commit_action_lands u cell a w :
  commit_action redshift dlp_id u cell destination = Some a -> is_u 256 cell -> is_u 256 dlp_id -> owner (account w cell) = dlp_id ->
  TRANSFER_LAMPORTS <= lamports (account w (key escrow)) -> land_action a w = (Ok tt, moved w).
Proof.
  intros (b & Hb & Ha)%bind_Some Hc Hd Hown Hl. apply bind_Some in Ha as (ix & Hix & [= <-]).
  apply transfer_batch in Hb as (Hi & Hg & i & j & Ri & Rj & Ops); [|exact interned_batch].
  destruct (action_batch _ _ _ _ Hi Hix) as (b' & n & I' & G' & _ & _ & Hacc & _).
  rewrite (land_guarded cell dlp_id b); [|done|exact (proj1 (proj2 Hg))|done..| |done].
  - rewrite Ops. unfold run. cbn [run_from Program_batch b_operations app].
    by rewrite (transfer_applies ix b' i j w Hacc) by (done || by eapply resolves_grows).
  - rewrite Ops. split; [|by vm_compute]. constructor; [|done]. split_and!; [apply Ri|apply Rj|by vm_compute].
Qed.

Lemma undelegate_action_lands u cell change a w h p h' :
  undelegate_action redshift u cell destination change = Some a -> is_i64 change -> is_u 256 cell -> is_u 256 redshift ->
  owner (account w cell) = redshift -> borrowed w = ∅ -> cell_of (data (account w cell)) = Some (h, p) -> expect_change change h = Some h' ->
  TRANSFER_LAMPORTS <= lamports (account w (key escrow)) ->
  exists d, land_action a w = (Ok tt, moved (set_data cell d w)) /\ cell_of d = Some (h', p).
Proof.
  intros (b0 & Hb0 & Ha)%bind_Some Hch Hc Hd Hown Hbor Hcell He Hl. apply bind_Some in Ha as (b & Hb & Ha). apply bind_Some in Ha as (ix & Hix & [= <-]).
  apply bind_Some in Hb0 as ([ids b1] & Hb1 & [= <-]).
  apply Batch_cells_spec in Hb1 as (I1 & G1 & R1 & O1); [|exact interned_batch].
  apply Forall2_cons_inv_r in R1 as (i0 & l0 & R0 & Hnil & ->). apply Forall2_nil_inv_r in Hnil as ->.
  apply transfer_batch in Hb as (Hi & Hg & i & j & Ri & Rj & Ops); [|exact I1].
  destruct (action_batch _ _ _ _ Hi Hix) as (b' & n & I' & G' & _ & _ & Hacc & _).
  assert (Hbb : grows b1 b') by (do 2 (etransitivity; [|done]); apply grows_push).
  assert (Hnon : b_nonce b = 0) by (rewrite (proj1 (proj2 Hg)); exact (proj1 (proj2 G1))).
  rewrite (land_guarded cell redshift b); [|done..| |done].
  - rewrite Ops. unfold run. cbn [push b_operations]. rewrite O1. cbn [run_from Program_batch b_operations app].
    destruct (delivered_lookup ix b' i0 cell Hacc) as (c & Hci & Hck & _); [by eapply resolves_grows|].
    apply expect_change_Some in He as (Hv & Hrev & ->). rewrite <- Hck in Hcell.
    destruct (adjust_Ok c change w h p Hbor Hcell Hv Hrev) as (d & Hadj & Hdc). rewrite Hck in Hadj. exists d. split; [|done].
    assert (Hadd : apply redshift (delivered_infos ix) (OpAdd [i0] change) w = (Ok tt, set_data cell d w)).
    { cbn [apply]. unfold each. cbn [for_each]. rewrite Hci. unfold mbind, M_bind, lift, mret, M_ret. by rewrite Hadj. }
    rewrite Hadd, (transfer_applies ix b' i j (set_data cell d w) Hacc) by (done || (by apply (resolves_grows b)) || by rewrite lamports_set_data). done.
  - rewrite Ops. cbn [push b_operations]. rewrite O1. split; [|by vm_compute]. repeat (apply Forall_cons; split); [|split_and!; [apply Ri|apply Rj|by vm_compute]|done].
    split; [|done]. split; [|by vm_compute]. constructor; [apply R0|done].
Qed.

(** ** An intent of the bundle *)

Lemma data_moved w k : data (account (moved w) k) = data (account w k).
Proof. unfold moved. by rewrite !data_set_lamports. Qed.
Lemma owner_set_lamports k l w k' : owner (account (set_lamports k l w) k') = owner (account w k').
Proof.
  destruct (decide (k = k')) as [->|]; unfold set_lamports; [by rewrite account_set_account_eq|by rewrite account_set_account_ne].
Qed.
Lemma owner_moved w k : owner (account (moved w) k) = owner (account w k).
Proof. unfold moved. by rewrite !owner_set_lamports. Qed.

Hypothesis (Hapart : key escrow <> destination).

Lemma lamports_moved w :
  lamports (account (moved w) destination) = lamports (account w destination) + TRANSFER_LAMPORTS /\
  lamports (account (moved w) (key escrow)) = lamports (account w (key escrow)) - TRANSFER_LAMPORTS.
Proof.
  unfold moved. split; [by rewrite lamports_set_lamports_eq, account_set_lamports_ne by done|].
  rewrite account_set_lamports_ne by congruence. apply lamports_set_lamports_eq.
Qed.

Lemma stripped_discriminator pre l : Instr.strip_prefix pre (pre ++ l) = Some l.
Proof. induction pre as [|x pre IH]; cbn; [done|]. by rewrite Z.eqb_refl. Qed.

(** The return of a cell keeps what it holds, and fails when the cell says so. *)
Lemma given_back cell w h p :
  cell_of (data (account w cell)) = Some (h, p) ->
  exists w', give_back cell w = (if bool_decide (undelegation h = Reject) then Err (World.Custom 111) else Ok tt, w') /\
    owner (account w' cell) = redshift /\ data (account w' cell) = data (account w cell) /\ funds_kept w w'.
Proof.
  intros Hc. destruct (Hhandover cell w) as (w1 & H1 & Hd1 & Hk1). destruct (Hundelegate cell w1) as (w2 & H2 & Ho2 & Hd2 & Hk2).
  exists w2. rewrite Hd1 in Hd2. apply cell_of_Some in Hc as [Hc _].
  split_and!; [|done|done|destruct Hk1 as (? & ? & ?), Hk2 as (? & ? & ?); split_and!; congruence].
  unfold give_back. rewrite (bind_run_Ok _ _ _ _ _ H1). unfold process. rewrite stripped_discriminator.
  eapply undelegate_outcome; [done|done|]. cbn [key]. by rewrite Hd2.
Qed.

(** A cell may refuse its return. *)
Definition returns (mode : StageMode) (h : CellHeader) : bool := negb (is_undelegate mode && bool_decide (undelegation h = Reject)).

(** What the checks of an actor read after its intent was settled. *)
Definition settled_as (a' : Actor) (p : list Z) (n : Z) (w w' : World) : Prop :=
  cell_of (data (account w' (at_cell a'))) = Some (at_expected a', p) /\
  owner (account w' (at_cell a')) = (if at_delegated a' then dlp_id else redshift) /\
  lamports (account w' destination) = lamports (account w destination) + n * TRANSFER_LAMPORTS.

Lemma settles mode u a intent a' n w p :
  mode_commit redshift dlp_id destination true u (at_cell a) mode = Some intent -> expect_mode true mode a = Some (a', n) ->
  at_delegated a = true -> is_u 256 (at_cell a) -> is_u 256 redshift -> is_u 256 dlp_id ->
  match mode with ModeUndelegate change => is_i64 change | _ => True end ->
  cell_of (data (account w (at_cell a))) = Some (at_expected a, p) -> owner (account w (at_cell a)) = dlp_id -> borrowed w = ∅ ->
  n * TRANSFER_LAMPORTS <= lamports (account w (key escrow)) ->
  exists w', if returns mode (at_expected a) then settle_on_base (at_cell a) intent w = (Ok tt, w') /\ settled_as a' p n w w'
             else settle_on_base (at_cell a) intent w = (Err (World.Custom 111), w').
Proof.
  intros Hm He Hdel Hc Hrs Hdl Hmode Hcell Hown Hbor Hl. apply bind_Some in Hm as (ca & Hca & Hm).
  assert (Hn : 1 <= n) by (destruct mode; cbn [expect_mode Z.b2z] in He; [|destruct (expect_change _ _); [|done]|]; injection He as <- <-; lia).
  assert (Hpos : 0 <= TRANSFER_LAMPORTS) by by vm_compute.
  assert (H1 : land_action ca w = (Ok tt, moved w)) by (eapply commit_action_lands; [done..|nia]).
  destruct (lamports_moved w) as [Hd1 He1]. unfold settle_on_base, settled_as.
  destruct mode as [|change|]; cbn [mbind option_bind] in Hm; [simplify_eq| |simplify_eq]; cbn [it_after_commit it_mode it_after_undelegate for_each].
  1,3: injection He as <- <-; exists (moved w); cbn [returns is_undelegate negb andb]; split; [unfold mbind, M_bind, mret, M_ret; by rewrite H1|];
    rewrite data_moved, owner_moved, Hdel, Hd1; split_and!; [done|done|cbn; lia].
  apply bind_Some in Hm as (l & Hl0 & [= <-]). apply bind_Some in Hl0 as (ua & Hua & [= <-]).
  cbn [expect_mode] in He. destruct (expect_change change (at_expected a)) as [h|] eqn:Eh; [|done]. injection He as <- <-.
  destruct (given_back (at_cell a) (moved w) (at_expected a) p) as (w2 & H2 & Ho2 & Hk2 & Hb2 & Hd2 & He2); [by rewrite data_moved|].
  unfold returns. cbn [is_undelegate andb]. destruct (bool_decide (undelegation (at_expected a) = Reject)); cbn [negb].
  { exists w2. cbn [it_after_commit it_mode it_after_undelegate for_each]. unfold mbind, M_bind, mret, M_ret. by rewrite H1, H2. }
  destruct (undelegate_action_lands u (at_cell a) change ua w2 (at_expected a) p h) as (d & H3 & Hd); [done..|by rewrite Hb2| |done| |].
  { by rewrite Hk2, data_moved. }
  { rewrite He2, He1. cbn in Hl. lia. }
  exists (moved (set_data (at_cell a) d w2)). cbn [it_after_commit it_mode it_after_undelegate for_each]. split.
  { unfold mbind, M_bind, mret, M_ret. rewrite H1, H2. by rewrite H3. }
  cbn [with_delegated with_expected at_cell at_expected at_delegated]. rewrite data_moved, owner_moved, data_set_data_eq, owner_set_data.
  split_and!; [done|done|]. rewrite (proj1 (lamports_moved _)), lamports_set_data, Hd2, Hd1. cbn. lia.
Qed.

Lemma expect_mode_cell actions mode a a' n : expect_mode actions mode a = Some (a', n) -> at_cell a' = at_cell a.
Proof. destruct mode; cbn; [by intros [= <- <-]|by destruct (expect_change _ _); intros [= <- <-]|by intros [= <- <-]]. Qed.

(** An actor whose cell reads as expected is accepted. *)
Lemma settle_actor_accepts {S} (net : IntentNet S) mode a a' n p w w' s x :
  expect_mode true mode a = Some (a', n) -> settled_as a' p n w w' ->
  in_account net Base (at_cell a) s = (Ok (Some x), s) -> ac_data x = data (account w' (at_cell a)) -> ac_owner x = owner (account w' (at_cell a)) ->
  settle_actor net redshift dlp_id true mode a s = (Ok (a', n), s).
Proof.
  intros He (Hc & Ho & _) Hx Hxd Hxo. pose proof (expect_mode_cell _ _ _ _ _ He) as Hk. rewrite Hk in Hc, Ho.
  unfold settle_actor. rewrite He. unfold tok_bind, underflow, tok_ret, tok_some. cbn [fst]. rewrite Hk, Hx. cbn.
  apply cell_of_Some in Hc as [Hc _]. rewrite Hxd, Hc, bool_decide_eq_true_2 by done. cbn. by rewrite Hxo, Ho, Z.eqb_refl.
Qed.

(** C40: The oracle of the intents is the program.  Take an actor whose cell the rollup holds as
    expected.  The change it signs is processed and leaves the header the oracle expects.  Commit
    that cell to the base chain and settle the intent the bundle has for the actor, in any mode, giving
    the cell back through the program's own handler when it is undelegated.  Unless it is undelegated
    and its header refuses that, the actions pass their guards before and after the cell is given
    back, and run; the destination is paid once per action, as often as the oracle counted; and the
    check of the actor, reading the cell and its owner, accepts and arrives at the state the next
    bundle starts from.  A cell that refuses is not settled: the handler fails with error 111. *)
Theorem intent_oracle_is_the_program {S} (net : IntentNet S) a0 addition ix h mode intent a' n we σ p :
  let cell := at_cell a0 in
  let a := with_expected h (with_delegated true a0) in
  0 < addition < 2 ^ 31 -> is_u 256 cell -> is_u 256 redshift -> is_u 256 dlp_id ->
  match mode with ModeUndelegate change => is_i64 change | _ => True end ->
  add_ix redshift cell (at_payer a0) addition = Some ix -> expect_addition addition (at_expected a0) = Some h ->
  mode_commit redshift dlp_id destination true (at_payer a0) cell mode = Some intent -> expect_mode true mode a = Some (a', n) ->
  represents σ we -> borrowed we = ∅ -> σ !! cell = Some (at_expected a0, p) ->
  exists we', process redshift (infos_of (ix_accounts ix)) (ix_data ix) we = (Ok tt, we') /\
    cell_of (data (account we' cell)) = Some (h, p) /\
    forall wb, data (account wb cell) = data (account we' cell) -> owner (account wb cell) = dlp_id -> borrowed wb = ∅ ->
      n * TRANSFER_LAMPORTS <= lamports (account wb (key escrow)) ->
      exists wb',
        if returns mode (at_expected a0) then
          settle_on_base cell intent wb = (Ok tt, wb') /\
          lamports (account wb' destination) = lamports (account wb destination) + n * TRANSFER_LAMPORTS /\
          forall s x, in_account net Base cell s = (Ok (Some x), s) ->
            ac_data x = data (account wb' cell) -> ac_owner x = owner (account wb' cell) ->
            settle_actor net redshift dlp_id true mode a s = (Ok (a', n), s)
        else settle_on_base cell intent wb = (Err (World.Custom 111), wb').
Proof.
  intros cell a Hadd Hcu Hru Hdu Hmode Hix Hh Hm He Hw Hb Hl.
  pose proof (Hw _ _ Hl) as Hc0. apply cell_of_Some in Hc0 as [Hdec _]. apply try_decode_wf in Hdec.
  assert (Hch : expect_change addition (at_expected a0) = Some h) by (apply expect_addition_Some; [lia|apply Hdec|done]).
  destruct (add_ix_lands cell (at_payer a0) addition ix we σ (at_expected a0) p h) as (we' & Hrun & Hrep & _ & _); [done|unfold is_i64; lia|done..|].
  assert (Hce : cell_of (data (account we' cell)) = Some (h, p)) by (apply Hrep; by rewrite lookup_insert_eq).
  exists we'. split; [done|]. split; [done|]. intros wb Hdat Hown Hbor Hesc.
  destruct (settles mode (at_payer a0) a intent a' n wb p) as (wb' & Hout); try done; [change (at_cell a) with cell; by rewrite Hdat|].
  exists wb'. assert (Hp : returns mode (at_expected a0) = returns mode (at_expected a)).
  { apply expect_change_Some in Hch as (_ & _ & ->). done. }
  rewrite Hp. destruct (returns mode (at_expected a)); [|exact Hout]. destruct Hout as [Hset Has]. split; [done|]. split; [apply Has|]. intros s x Hx Hxd Hxo. by eapply settle_actor_accepts.
Qed.
End program.

(** * What an accepted run has seen *)

(** The oracle of a bundle, without the chains. *)
Definition prepared (addition : Z) (a : Actor) : option Actor :=
  let a := with_delegated true a in
  if addition =? 0 then Some a else h ← expect_addition addition (at_expected a); Some (with_expected h a).

Fixpoint bundle_model (actions : bool) (modes : list StageMode) (additions : list Z) (actors : list Actor) : option (list Actor) :=
  match modes, additions, actors with
  | mode :: modes, addition :: additions, a :: actors =>
      a ← prepared addition a;
      next ← expect_mode actions mode a;
      rest ← bundle_model actions modes additions actors;
      Some (next.1 :: rest)
  | _, _, _ => Some actors
  end.

Section accepted.
Context `{R : Runtime, C : InstructionCodec, B : BuildSdk, W : MagicWire, HC : HeaderCodec} {S : Type} (net : IntentNet S).
Context (redshift dlp_id validator : Pubkey) (fee : Z) (metadata_pda : Pubkey -> Pubkey) (metadata_id : list Z -> option Z).

Lemma prepare_actor_Ok label addition a s a' s' :
  prepare_actor net redshift validator label addition a s = (Ok a', s') -> prepared addition a = Some a'.
Proof.
  unfold prepare_actor, prepared. intros H. tok_inv. destruct (addition =? 0); tok_inv; [done|].
  match goal with Hu : underflow _ _ = (Ok _, _) |- _ => apply underflow_Ok in Hu as [Hu ->] end. tok_inv.
  match goal with Hu : expect_addition _ _ = _ |- _ => by rewrite Hu end.
Qed.

Lemma settle_actor_Ok actions mode a s r s' :
  settle_actor net redshift dlp_id actions mode a s = (Ok r, s') -> expect_mode actions mode a = Some r.
Proof.
  unfold settle_actor. intros H. tok_inv. match goal with Hu : underflow _ _ = (Ok _, _) |- _ => by apply underflow_Ok in Hu as [? ->] end.
Qed.

Lemma bundle_follows label actions modes additions actors mid s s1 s2 out s3 :
  length additions = length modes -> prepare_actors net redshift validator label additions actors s = (Ok mid, s1) ->
  settle_actors net redshift dlp_id actions modes mid s2 = (Ok out, s3) -> bundle_model actions modes additions actors = Some out.1.
Proof.
  revert additions actors mid s s1 s2 out s3. induction modes as [|mode modes IH]; intros [|addition additions] actors mid s s1 s2 out s3 Hlen Hp Hs;
    try done; cbn [prepare_actors settle_actors bundle_model] in *; [tok_inv; done|].
  destruct actors as [|a actors]; [done|]. tok_inv.
  repeat match goal with
  | H : prepare_actor _ _ _ _ _ _ _ = _ |- _ => apply prepare_actor_Ok in H
  | H : settle_actor _ _ _ _ _ _ _ = _ |- _ => apply settle_actor_Ok in H
  end.
  match goal with H : prepared _ _ = _ |- _ => rewrite H end. cbn [mbind option_bind].
  match goal with H : expect_mode _ _ _ = _ |- _ => rewrite H end. cbn [mbind option_bind].
  erewrite IH; [done|by injection Hlen|done|done].
Qed.

Lemma check_bundle_Ok label modes additions actions destination actors s out s' :
  check_bundle net redshift dlp_id validator label modes additions actions destination actors s = (Ok out, s') ->
  bundle_model actions modes (take (length modes) additions) actors = Some out.
Proof.
  unfold check_bundle. intros H. destruct (Nat.leb_spec (length modes) (length additions)) as [Hle|]; [|done]. tok_inv.
  match goal with H : prepare_actors _ _ _ _ _ _ _ = _, H' : settle_actors _ _ _ _ _ _ _ = _ |- _ =>
    eapply (bundle_follows label) in H'; [exact H'|rewrite length_take; lia|exact H] end.
Qed.

(** What the five bundles do to the three actors. *)
Definition grown (a : Actor) (dv dr : Z) (d : bool) : Actor :=
  mkActor (at_payer a) (at_cell a)
    (mkHeader (id (at_expected a)) (value (at_expected a) + dv) (revision (at_expected a) + dr) (undelegation (at_expected a))) d.

(** The bundles that are accepted leave values and revisions that depend on nothing else. *)
Lemma bundles_arrive destinations a0 a1 a2 s out s' :
  length destinations = 5%nat -> Forall (fun a => 0 <= value (at_expected a)) [a0; a1; a2] ->
  check_bundles net redshift dlp_id validator (zip BUNDLES destinations) [a0; a1; a2] s = (Ok out, s') ->
  out = [grown a0 154 4 true; grown a1 225 2 true; grown a2 175 2 false].
Proof.
  intros Hd Hv H. destruct a0 as [? ? h0 ?], a1 as [? ? h1 ?], a2 as [? ? h2 ?]. cbn [at_expected] in Hv. do 5 (destruct destinations as [|? destinations]; [done|]). destruct destinations; [|done].
  rewrite !Forall_cons in Hv. destruct Hv as (Hv0 & Hv1 & Hv2 & _). cbn [zip zip_with BUNDLES check_bundles bc_label bc_modes bc_additions bc_actions] in H.
  tok_inv. repeat match goal with Hb : check_bundle _ _ _ _ _ _ _ _ _ _ _ = _ |- _ => apply check_bundle_Ok in Hb end.
  cbn [length take] in *.
  repeat match goal with
  | Hb : bundle_model _ _ _ _ = Some _ |- _ => cbn [bundle_model] in Hb; unfold prepared, with_delegated, with_expected in Hb; cbn in Hb
  end.
  simplify_option_eq.
  repeat match goal with
  | He : expect_addition _ _ = Some _ |- _ => apply expect_addition_Some in He; [|lia|cbn; lia]
  | He : expect_change _ _ = Some _ |- _ => apply expect_change_Some in He as (? & ? & ?); subst; cbn in *
  end.
  unfold grown, bump, with_value, with_delegated, with_expected. cbn. repeat (f_equal; try lia).
Qed.

(** ** Fees *)

(** The balances read around a commit: what the payer lost is what the vault gained. *)
Definition charged (a : Actor) (amount : Z) (s : S) : Prop :=
  let vault := magic_fee_vault_pda validator in
  exists s1 s2 s3 s4 s5 paid had kept left,
    in_balance net Er (at_payer a) s = (Ok had, s1) /\ in_balance net Er vault s1 = (Ok kept, s2) /\
    in_balance net Er (at_payer a) s3 = (Ok left, s4) /\ in_balance net Er vault s4 = (Ok paid, s5) /\
    amount <= had /\ had - left = amount /\ paid - kept = amount.

Lemma paid_commit_charges a turn u s s' :
  paid_commit net redshift dlp_id validator fee metadata_pda metadata_id a (magic_fee_vault_pda validator) turn s = (Ok u, s') ->
  charged a (commit_fee fee turn.1 (turn.1 =? PAID_COMMIT_LIMIT + 1)) s.
Proof.
  destruct turn as [nonce destination]. unfold paid_commit. intros H. tok_inv.
  repeat match goal with Hu : underflow _ _ = (Ok _, _) |- _ => apply underflow_Ok in Hu as [Hu ->] end.
  repeat match goal with Hz : (_ =? _) = true |- _ => apply Z.eqb_eq in Hz end. subst. unfold checked_sub64, checked_add64 in *.
  repeat match goal with
  | Hz : (if ?p <=? ?q then _ else _) = Some _ |- _ => destruct (Z.leb_spec p q); [|done]
  | Hz : (if ?p <? ?q then _ else _) = Some _ |- _ => destruct (Z.ltb_spec p q); [|done]
  end. simplify_eq.
  eexists _, _, _, _, _, _, _, _, _. split_and!; [done..| | |]; cbn [fst]; lia.
Qed.

(** A fold of checks passes each of them. *)
Lemma tok_each_Ok {A} (f : A -> Tok S unit) l u s s' :
  tok_each f l s = (Ok u, s') -> exists states, Forall2 (fun x st => exists st', f x st = (Ok tt, st')) l states.
Proof.
  revert s. induction l as [|x l IH]; intros s H; cbn [tok_each] in H; [by exists []|]. tok_inv.
  destruct (IH _ H) as [states Hs]. exists (s :: states). constructor; [|done]. destruct x0. by eexists.
Qed.

Lemma fees_add_up initial :
  initial <= PAID_COMMIT_LIMIT ->
  sum_of ((fun nonce => commit_fee fee nonce (nonce =? PAID_COMMIT_LIMIT + 1)) <$> seqZ initial (PAID_COMMIT_LIMIT + 2 - initial)) = 2 * fee + ACTION_FEE.
Proof.
  intros Hi. replace (PAID_COMMIT_LIMIT + 2 - initial) with ((PAID_COMMIT_LIMIT - initial) + 2) by lia.
  rewrite seqZ_app by lia. replace (initial + (PAID_COMMIT_LIMIT - initial)) with PAID_COMMIT_LIMIT by lia. rewrite fmap_app.
  assert (Hz : forall l, Forall (fun n => n < PAID_COMMIT_LIMIT) l ->
    forall m, sum_of (((fun nonce => commit_fee fee nonce (nonce =? PAID_COMMIT_LIMIT + 1)) <$> l) ++ m) = sum_of m).
  { intros l Hl m. induction Hl as [|n l Hn _ IH]; [done|]. cbn [fmap list_fmap app sum_of foldr] in *. unfold sum_of in IH. rewrite IH. unfold commit_fee.
    rewrite (proj2 (Z.leb_gt _ _)), (proj2 (Z.eqb_neq _ _)) by lia. unfold sum_of. lia. }
  rewrite Hz; [|apply Forall_forall; intros n Hn%elem_of_seqZ; lia].
  change (fee + 0 + (fee + ACTION_FEE + 0) = 2 * fee + ACTION_FEE). lia.
Qed.

(** An accepted crossing of the paid threshold has reconciled every fee.  For each commit from the
    number the session starts with to the second one beyond the limit, the balances read around it
    show the payer losing exactly what the vault gains, and together that is the fee of two commits
    and of one action. *)
Theorem paid_fees_are_reconciled a fresh s s' :
  check_paid_threshold net redshift dlp_id validator fee metadata_pda metadata_id a fresh s = (Ok tt, s') ->
  exists initial fees states, initial < PAID_COMMIT_LIMIT /\ length fees = Z.to_nat (PAID_COMMIT_LIMIT + 2 - initial) /\
    Forall2 (charged a) fees states /\ sum_of fees = 2 * fee + ACTION_FEE.
Proof.
  unfold check_paid_threshold. intros H. tok_inv. apply tok_each_Ok in H as [states Hs].
  match goal with Hz : (?i <? _) = true |- _ => apply Z.ltb_lt in Hz; exists i,
    ((fun nonce => commit_fee fee nonce (nonce =? PAID_COMMIT_LIMIT + 1)) <$> seqZ i (PAID_COMMIT_LIMIT + 2 - i)), states end.
  split_and!; [done|by rewrite length_fmap, length_seqZ| |apply fees_add_up; lia]. apply Forall2_fmap_l in Hs. apply Forall2_fmap_l.
  eapply Forall2_impl; [exact Hs|]. intros nonce st (st' & Hst). apply (paid_commit_charges a (nonce, fresh nonce) _ _ _ Hst).
Qed.
End accepted.

(** * Two chains *)

(** A runtime that moves lamports. *)
#[local] Instance paying_runtime : Runtime := {|
  sha256 := @sha256 ref_runtime;
  find_program_address := @find_program_address ref_runtime;
  invoke_signed ix infos _ := fun w =>
    match infos with
    | from :: to_ :: _ =>
        let amount := le_val (drop 4 (ix_data ix)) in
        if amount <=? lamports (account w (key from)) then
          let w := set_lamports (key from) (lamports (account w (key from)) - amount) w in
          (Ok tt, set_lamports (key to_) (lamports (account w (key to_)) + amount) w)
        else (Err InsufficientFunds, w)
    | _ => (Err NotEnoughAccountKeys, w)
    end;
  World.system_transfer := @World.system_transfer ref_runtime;
  system_program_id := @system_program_id ref_runtime;
  create_pda := @create_pda ref_runtime;
  delegate_account := @delegate_account ref_runtime;
  delegate_account_with_any_validator := @delegate_account_with_any_validator ref_runtime;
  undelegate_account cell program buffer _ _ _ := fun w =>
    (Ok tt, set_account (key cell) (mkCell program (lamports (account w (key cell))) (data (account w (key buffer)))) w);
  rent_minimum_balance := @rent_minimum_balance ref_runtime;
  account_resize := @account_resize ref_runtime;
  external_undelegate_discriminator := @external_undelegate_discriminator ref_runtime;
  decode_seeds := @decode_seeds ref_runtime;
  callback_signer := @callback_signer ref_runtime;
|}.

#[local] Instance paying_laws : RuntimeLaws paying_runtime.
Proof. destruct ref_runtime_laws. by split. Qed.
#[local] Instance paying_codec_laws : InstructionCodecLaws paying_runtime ref_instruction_codec.
Proof. destruct ref_instruction_laws. by split. Qed.

Definition demo_actor : Actor := mkActor 5 11 (demo_header 5 3 0) false.
Definition the_escrow : AccountInfo := mkInfo 800 true true.

(** A network that answers from a cell and its owner; only the reads of accounts matter here. *)
Definition one_cell : IntentNet (list Z * Z) :=
  mkIntentNet _ (fun _ _ _ _ s => (Ok 1, s)) (fun _ _ s => (Ok 1, s)) (fun _ s => (Ok None, s))
    (fun _ _ s => (Ok (Some (mkAccount 1 s.1 s.2 false 0)), s)) (fun _ _ s => (Ok 0, s)) (fun _ _ s => (Ok tt, s)) (fun _ s => (Ok tt, s))
    (fun _ _ _ s => (Err TNet, s)) (fun _ _ s => (Ok tt, s)).

Definition given {A} (o : option A) (d : A) : A := default d o.
Definition the_add : SolInstruction := given (add_ix 42 11 5 100) (mkIx 0 [] []).
Definition the_intent : Intent Pubkey := given (mode_commit 42 7 900 true 5 11 (ModeUndelegate (-50))) (Commit_new Commit []).

Lemma paying_transfer dest sys w :
  key dest = 900 -> key sys = system_program_id -> TRANSFER_LAMPORTS <= lamports (account w (key the_escrow)) ->
  invoke (World.system_transfer (key the_escrow) 900 TRANSFER_LAMPORTS) [the_escrow; dest; sys] w = (Ok tt, moved the_escrow 900 w).
Proof.
  intros Hd _ Hl. unfold invoke, moved. cbn [invoke_signed paying_runtime]. rewrite Hd.
  change (le_val (drop 4 (ix_data (World.system_transfer (key the_escrow) 900 TRANSFER_LAMPORTS)))) with TRANSFER_LAMPORTS.
  by rewrite (proj2 (Z.leb_le _ _) Hl).
Qed.

(** The committed state is handed over in account 801. *)
Definition the_buffer : AccountInfo := mkInfo 801 true true.
Definition copied (cell : Pubkey) : M unit := fun w => (Ok tt, set_data 801 (data (account w cell)) w).

Lemma copied_over cell w : exists w',
  copied cell w = (Ok tt, w') /\ data (account w' (key the_buffer)) = data (account w cell) /\ funds_kept the_escrow 900 w w'.
Proof. eexists. split; [done|]. split; [by rewrite data_set_data_eq|]. unfold funds_kept. by rewrite !lamports_set_data. Qed.

Lemma returned_to (returner system : AccountInfo) seeds cell w : exists w',
  undelegate_account (mkInfo cell false true) 42 the_buffer returner system seeds w = (Ok tt, w') /\
  owner (account w' cell) = 42 /\ data (account w' cell) = data (account w (key the_buffer)) /\ funds_kept the_escrow 900 w w'.
Proof.
  eexists. split; [done|]. cbn [key]. rewrite account_set_account_eq. split; [done|]. split; [done|].
  assert (Hl : forall k, lamports (account (set_account cell (mkCell 42 (lamports (account w cell)) (data (account w 801))) w) k) = lamports (account w k)).
  { intros k. destruct (decide (cell = k)) as [->|]; [by rewrite account_set_account_eq|by rewrite account_set_account_ne]. }
  split; [done|]. split; apply Hl.
Qed.

(** After a change of 100 and an undelegation that takes 50, the cell is the program's, holds 53 in
    revision 2, and the destination was paid twice. *)
Lemma intent_oracle_is_the_program_witness :
  exists we', process 42 (infos_of (ix_accounts the_add)) (ix_data the_add) demo_world = (Ok tt, we') /\
    exists wb', settle_on_base 42 (mkInfo 42 false false) (mkInfo 5 false false) the_escrow
        the_buffer (mkInfo 5 true true) (mkInfo 0 false false) copied demo_seeds 11 the_intent
        (mkWorld {[ 11 := mkCell 7 1000 (data (account we' 11)); 800 := mkCell 0 5000000 [] ]} ∅ []) = (Ok tt, wb') /\
      lamports (account wb' 900) = 2000000 /\
      settle_actor one_cell 42 7 true (ModeUndelegate (-50)) (mkActor 5 11 (mkHeader (mkCellId 5 0) 103 1 Accept) true)
        (data (account wb' 11), owner (account wb' 11)) =
        (Ok (mkActor 5 11 (mkHeader (mkCellId 5 0) 53 2 Accept) false, 2), (data (account wb' 11), owner (account wb' 11))).
Proof.
  destruct (intent_oracle_is_the_program 42 7 (mkInfo 42 false false) (mkInfo 5 false false) the_escrow 900 eq_refl eq_refl
    the_buffer (mkInfo 5 true true) (mkInfo 0 false false) copied demo_seeds [[99]] ltac:(by vm_compute) copied_over (returned_to _ _ _) paying_transfer ltac:(done) one_cell demo_actor 100 the_add (mkHeader (mkCellId 5 0) 103 1 Accept) (ModeUndelegate (-50)) the_intent
    (mkActor 5 11 (mkHeader (mkCellId 5 0) 53 2 Accept) false) 2 demo_world demo_state demo_payload) as (we' & Hrun & _ & Hbase).
  - lia.
  - by vm_compute.
  - by vm_compute.
  - by vm_compute.
  - by vm_compute.
  - vm_compute. reflexivity.
  - vm_compute. reflexivity.
  - vm_compute. reflexivity.
  - vm_compute. reflexivity.
  - exact demo_represents.
  - reflexivity.
  - reflexivity.
  - exists we'. split; [exact Hrun|].
    destruct (Hbase (mkWorld {[ 11 := mkCell 7 1000 (data (account we' 11)); 800 := mkCell 0 5000000 [] ]} ∅ [])) as (wb' & Hout);
      [reflexivity|reflexivity|reflexivity|by vm_compute|]. change (returns _ _) with true in Hout. cbv iota in Hout. destruct Hout as (Hset & Hpaid & Hcheck). exists wb'. split; [exact Hset|]. split; [by rewrite Hpaid|]. by apply (Hcheck _ (mkAccount 1 (data (account wb' 11)) (owner (account wb' 11)) false 0)).
Defined.

(** Balances are read in turn; every commit that is sent is counted and settles. *)
Definition counting : IntentNet (list Z * Z) :=
  mkIntentNet _ (fun _ _ _ _ s => (Ok 1, (s.1, s.2 + 1))) (fun _ _ s => (Ok 1, s)) (fun _ s => (Ok None, s))
    (fun _ _ s => (Ok (Some (mkAccount 1 [s.2] 7 false 0)), s))
    (fun _ _ s => match s with (b :: l, n) => (Ok b, (l, n)) | _ => (Err TNet, s) end) (fun _ _ s => (Ok tt, s)) (fun _ s => (Ok tt, s))
    (fun sig accounts _ s => (Ok (mkReceipt 1 None None accounts [] [9] false None None), s)) (fun _ _ s => (Ok tt, s)).

#[local] Instance quiet_magic : MagicWire := {|
  CallbackArgs := unit; wire_schedule_commit := [1]; wire_schedule_commit_and_undelegate := [2]; wire_schedule_task _ _ := [3];
  wire_cancel_task _ := [4]; wire_add_action_callback _ := [5]; wire_execute_callback _ := [6]; wire_schedule_intent_bundle _ _ := [7];
  wire_callback_signer := 8; wire_callback_program_id := 9 |}.

(** Commits 24, 25 and 26, at a fee of 100. *)
Lemma paid_fees_are_reconciled_witness :
  check_paid_threshold counting 42 7 50 100 (fun k => k) head demo_actor (fun n => 1000 + n)
      ([9000; 0; 9000; 0; 0; 9000; 0; 8900; 100; 0; 8900; 100; 3800; 5200; 1000000], 24) = (Ok tt, ([], 27)) /\
    exists initial fees states, initial < PAID_COMMIT_LIMIT /\ length fees = Z.to_nat (PAID_COMMIT_LIMIT + 2 - initial) /\
      Forall2 (charged counting 50 demo_actor) fees states /\ sum_of fees = 5200.
Proof.
  split; [vm_compute; reflexivity|].
  apply (paid_fees_are_reconciled counting 42 7 50 100 (fun k => k) head demo_actor (fun n => 1000 + n)
    ([9000; 0; 9000; 0; 0; 9000; 0; 8900; 100; 0; 8900; 100; 3800; 5200; 1000000], 24) ([], 27)). vm_compute. reflexivity.
Defined.
