(* ===== verification/Replication.v ===== *)
(** Replication and recovery: [redshift/src/scenarios/replication/replication_recovery/mod.rs], and the
    reads of [core/src/topology/replicated.rs] it makes.

    Writers drive pairs of accounts on the leader while its followers are stopped, outrun, killed and
    wiped; what the leader holds at the end is compared with the writers' own models.  The writers are
    tasks of one thread that share a stop flag and two counters: a task runs from one await to the
    next, so a run of the workload is a sequence of [WriterEvent]s.  The chain, the processes and the
    clock are the record [ReplNet] of requests, over the monad of [Projected.v]. *)
From Stdlib Require Import String Ascii.
From S2P Require Import Prelude World Cell Instr Build Causal Float64 Rate Text Metrics Waiting Receipt Rollup Contention Projected Intents.

#[local] Open Scope string_scope.
#[local] Open Scope Z_scope.
#[local] Open Scope list_scope.
#[local] Open Scope tok_scope.

Definition VERIFIERS : nat := 2.
Definition PAIRS : nat := 4.
Definition PROBES : nat := 4.
Definition PROBE_LAMPORTS : Z := 1000000.
Definition HEAVY_ITERS : Z := 30.
Definition ACCOUNT_SPACE : Z := 128.
Definition millis (n : Z) : Duration := n * 1000000.
Definition secs (n : Z) : Duration := n * NANOS_PER_SEC.
Definition STEADY : Duration := secs 8.
Definition BLOCKTIME : Duration := millis 40.
Definition SUPERBLOCK_SLOTS : Z := 512.
Definition READY_TIMEOUT : Duration := secs 60.
Definition CONNECT_TIMEOUT : Duration := secs 90.
Definition CATCH_UP_TIMEOUT : Duration := secs 120.
Definition DETACH_TIMEOUT : Duration := secs 30.
Definition DRAIN_TIMEOUT : Duration := secs 120.
Definition SEAL_TIMEOUT : Duration := secs 60.
Definition ADVANCE_WINDOW : Duration := secs 2.
Definition LAG_SAMPLE : Duration := millis 500.
Definition RESTART_BUDGET : Duration := secs 16.
Definition RECOVERY_TIMEOUT : Duration := secs 60.
Definition CONNECT_POLL : Duration := millis 100.
Definition BLOCK_CLEANED_UP : Z := -32001.

Definition TRANSACTIONS : string := "engine_ledger_transactions".
Definition BLOCKS : string := "engine_ledger_blocks".
Definition SUPERBLOCKS : string := "engine_ledger_superblocks".
Definition STATE_MISMATCHES : string := "engine_replicator_client_state_mismatches".
Definition STREAM_CONNECTED : string := "engine_replicator_client_stream_connected".
Definition SERVER_CONNECTIONS : string := "engine_replicator_server_connections".
Definition operation_count (component op : string) : string := component +:+ "_operation_duration_micros_count{op=" +:+ quoted op +:+ "}".
Definition CLIENT_SNAPSHOTS : string := operation_count "engine_replicator" "client_stage_snapshot".
Definition SERVER_SNAPSHOTS : string := operation_count "engine_replicator" "server_send_snapshot".
Definition TRUNCATIONS : string := operation_count "engine_ledger" "truncate".

(** * The writers *)

(** Where a writer is when another task runs: before its loop's test, waiting for the answer to a
    step with the steps of the chain after it, or at its end. *)
Inductive WriterAt (Error : Type) := AtLoop | Sending (step : Step) (id : Z) (rest : list Step) | Ended (r : Result unit Error).
Arguments AtLoop {Error}. Arguments Sending {Error} _ _ _. Arguments Ended {Error} _.

Record Writer (Error : Type) := mkWriter { wr_pair : CausalPair; wr_chains : Z; wr_at : WriterAt Error }.
Arguments mkWriter {Error} _ _ _. Arguments wr_pair {Error} _. Arguments wr_chains {Error} _. Arguments wr_at {Error} _.

Record Progress := mkProgress { pg_stop : bool; pg_sent : Z; pg_next_id : Z }.
Definition Progress_default : Progress := mkProgress false 0 0.

(** [wl_ended]: the tasks in the order they ended, which is the order [join_all] gives. *)
Record Workload (Error : Type) := mkWorkload { wl_progress : Progress; wl_tasks : list (Writer Error); wl_ended : list nat }.
Arguments mkWorkload {Error} _ _ _. Arguments wl_progress {Error} _. Arguments wl_tasks {Error} _. Arguments wl_ended {Error} _.

(** [Resume]: a writer is polled for the first time, or its gap is over.  [Answered]: what its
    sender's submission gave. *)
Inductive WriterEvent (Error : Type) := Resume (task : nat) | Answered (task : nat) (r : Result Z Error) | SetStop.
Arguments Resume {Error} _. Arguments Answered {Error} _ _. Arguments SetStop {Error}.

Section writers.
Context `{R : Runtime, HC : HeaderCodec, C : InstructionCodec}.
Context (redline compute_budget : Pubkey) {Error : Type} (panic : Error).

(** The head of the inner loop: draw an id and send, or close the chain and sleep. *)
Definition next_step (steps : list Step) (p : Progress) (cp : CausalPair) (chains : Z) : Progress * Writer Error :=
  match steps with
  | step :: rest =>
      let id := pg_next_id p + 1 in
      (mkProgress (pg_stop p) (pg_sent p) id, mkWriter cp chains (Sending step id rest))
  | [] => (p, mkWriter cp (chains + 1) AtLoop)
  end.

Definition resume (p : Progress) (w : Writer Error) : Progress * Writer Error :=
  match wr_at w with
  | AtLoop =>
      if pg_stop p then (p, mkWriter (wr_pair w) (wr_chains w) (Ended (Ok tt)))
      else next_step Step_ALL p (wr_pair w) (wr_chains w)
  | _ => (p, w)
  end.

Definition answered (r : Result Z Error) (p : Progress) (w : Writer Error) : Progress * Writer Error :=
  match wr_at w with
  | Sending step id rest =>
      let iters := if decide (Step_index step = Step_index (heavy_step (wr_chains w))) then HEAVY_ITERS else 0 in
      match CausalPair_send redline compute_budget (fun _ _ => r) panic (wr_pair w) step id iters with
      | (Err e, cp) => (p, mkWriter cp (wr_chains w) (Ended (Err e)))
      | (Ok _, cp) => next_step rest (mkProgress (pg_stop p) (pg_sent p + 1) (pg_next_id p)) cp (wr_chains w)
      end
  | _ => (p, w)
  end.

Definition is_ended (w : Writer Error) : bool := match wr_at w with Ended _ => true | _ => false end.

(** One task takes its turn. *)
Definition turn (task : nat) (f : Progress -> Writer Error -> Progress * Writer Error) (l : Workload Error) : Workload Error :=
  match wl_tasks l !! task with
  | None => l
  | Some w =>
      let '(p, w') := f (wl_progress l) w in
      mkWorkload p (<[task := w']> (wl_tasks l)) (if negb (is_ended w) && is_ended w' then wl_ended l ++ [task] else wl_ended l)
  end.

Definition set_stop (l : Workload Error) : Workload Error :=
  mkWorkload (mkProgress true (pg_sent (wl_progress l)) (pg_next_id (wl_progress l))) (wl_tasks l) (wl_ended l).

Definition writer_event (l : Workload Error) (e : WriterEvent Error) : Workload Error :=
  match e with
  | Resume task => turn task resume l
  | Answered task r => turn task (answered r) l
  | SetStop => set_stop l
  end.

Definition Workload_start (pairs : list CausalPair) : Workload Error :=
  mkWorkload Progress_default ((fun cp => mkWriter cp 0 AtLoop) <$> pairs) [].

Definition run_events (l : Workload Error) (events : list (WriterEvent Error)) : Workload Error := foldl writer_event l events.

(** [tasks.join_all()] once every task has ended, and [collect]: the first error in that order. *)
Fixpoint collect_pairs (tasks : list (Writer Error)) (order : list nat) : Result (list CausalPair) Error :=
  match order with
  | [] => Ok []
  | task :: order =>
      match tasks !! task with
      | Some (mkWriter cp _ (Ended (Ok _))) => let? pairs := collect_pairs tasks order in Ok (cp :: pairs)
      | Some (mkWriter _ _ (Ended (Err e))) => Err e
      | _ => Err panic
      end
  end.

(** [None]: some task has not ended. *)
Definition join_all (l : Workload Error) : option (Result (list CausalPair) Error) :=
  if forallb is_ended (wl_tasks l) then Some (collect_pairs (wl_tasks l) (wl_ended l)) else None.
End writers.

(** * Log lines *)

Definition ESC : ascii := ascii_of_nat 27.

(** A control sequence runs from its bracket through the first letter. *)
Fixpoint strip_ansi (s : string) : string :=
  match s with
  | EmptyString => EmptyString
  | String c s =>
      if Ascii.eqb c ESC then
        match s with
        | String b rest => if Ascii.eqb b "["%char then strip_sequence rest else strip_ansi s
        | EmptyString => EmptyString
        end
      else String c (strip_ansi s)
  end
with strip_sequence (s : string) : string :=
  match s with
  | EmptyString => EmptyString
  | String c s => if is_alphabetic c then strip_ansi s else strip_sequence s
  end.

(** [log_mentions_mismatch], on the text of the log. *)
Definition mentions_mismatch (text : string) : option string :=
  strip_ansi <$> List.find (fun line => contains "mismatch" (map_chars to_lower line)) (lines text).

(** * The requests *)

Inductive ReplError :=
| RNet (error : string) | RNoMetric (name : string) | RBehind | RExited | RMismatchLine (line : string) | REnsure | RCompare (e : CompareError)
| RRpc (code : Z) | RDeadline | RPanic.

Record ReplNet (S : Type) := mkReplNet
  { rn_now : S -> Instant;
    rn_sleep : Duration -> S -> S;
    rn_leader_metrics : S -> Result Metrics ReplError * S;
    rn_verifier_metrics : nat -> S -> Result Metrics ReplError * S;
    rn_running : nat -> S -> bool;
    rn_log : nat -> S -> Result string ReplError;
    rn_stop : nat -> bool -> S -> Result VerifierStop ReplError * S;
    rn_start : nat -> Duration -> S -> Result unit ReplError * S;
    rn_reset_storage : nat -> S -> Result unit ReplError * S;
    rn_wait_connected : nat -> Duration -> S -> Result unit ReplError * S;
    rn_slot : S -> Result Z ReplError * S;
    (** a subscription to the leader's slots, and its next notification *)
    rn_slots : S -> Result unit ReplError * S;
    rn_next_slot : S -> Result unit ReplError * S;
    (** the outer result is the transport's, the inner the leader's: whether the block is there, or a code *)
    rn_block : Z -> S -> Result (Result bool Z) ReplError * S;
    (** the error of a transaction of the leader, once it is published *)
    rn_transaction : Z -> S -> Result (option string) ReplError * S;
    rn_account : Pubkey -> S -> Result (option (list Z)) ReplError * S;
    rn_funded_payer : Z -> S -> Result Pubkey ReplError * S;
    (** the leader is awaited to hold the account with lamports *)
    rn_await_funded : Pubkey -> S -> Result unit ReplError * S;
    rn_init_delegated : Pubkey -> nat -> S -> Result (list Pubkey) ReplError * S;
    rn_await_clones : list Pubkey -> Z -> S -> Result unit ReplError * S;
    rn_await_cloned_payers : list Pubkey -> S -> Result unit ReplError * S;
    rn_finish : S -> Result unit ReplError * S;
    (** [tokio::try_join!] *)
    rn_try_join : (S -> Result unit ReplError * S) -> (S -> Result unit ReplError * S) -> S -> Result unit ReplError * S }.
Arguments rn_now {S} _. Arguments rn_sleep {S} _. Arguments rn_leader_metrics {S} _. Arguments rn_verifier_metrics {S} _.
Arguments rn_running {S} _. Arguments rn_log {S} _. Arguments rn_stop {S} _. Arguments rn_start {S} _. Arguments rn_reset_storage {S} _.
Arguments rn_wait_connected {S} _. Arguments rn_slot {S} _. Arguments rn_slots {S} _. Arguments rn_next_slot {S} _. Arguments rn_block {S} _.
Arguments rn_transaction {S} _. Arguments rn_account {S} _. Arguments rn_funded_payer {S} _. Arguments rn_await_funded {S} _.
Arguments rn_init_delegated {S} _. Arguments rn_await_clones {S} _. Arguments rn_await_cloned_payers {S} _. Arguments rn_finish {S} _.
Arguments rn_try_join {S} _.

Definition Repl (S A : Type) : Type := Eff ReplError S A.

Inductive Coverage := Recovery | Settlement.

Section requests.
Context {S : Type} (net : ReplNet S).

Definition repl_ensure (b : bool) : Repl S unit := if b then tok_ret tt else tok_fail REnsure.
Definition repl_some {A} (e : ReplError) (o : option A) : Repl S A := match o with Some a => tok_ret a | None => tok_fail e end.
Definition reads {A} (f : S -> A) : Repl S A := fun s => (Ok (f s), s).
Definition sleep (d : Duration) : Repl S unit := fun s => (Ok tt, rn_sleep net d s).
Definition read_log (v : nat) : Repl S string := fun s => (rn_log net v s, s).

(** [wait::retry], on the clock *)
Definition repl_retry {A} (timeout : Duration) (op : Repl S A) : Repl S A := retry_with (rn_now net) (rn_sleep net) op timeout.

(** [time::timeout] *)
Definition within {A} (timeout : Duration) (m : Repl S A) : Repl S A := fun s =>
  let '(r, s') := m s in if rn_now net s' - rn_now net s <=? timeout then (r, s') else (Err RDeadline, s').

(** [query] of a slot subscription; [slots] are those notified before its deadline. *)
Fixpoint repl_query {A} (slots : nat) (observe : Repl S (option A)) : Repl S A :=
  let~ seen := observe in
  match seen with
  | Some a => tok_ret a
  | None =>
      do~ rn_next_slot net in
      match slots with
      | O => tok_fail RDeadline
      | Datatypes.S slots => repl_query slots observe
      end
  end.

(** ** Metrics *)

Definition leader_metric (name : string) : Repl S f64 :=
  let~ metrics := rn_leader_metrics net in repl_some (RNoMetric name) (metrics_get name metrics).
Definition verifier_metric (v : nat) (name : string) : Repl S f64 :=
  let~ metrics := rn_verifier_metrics net v in repl_some (RNoMetric name) (metrics_get name metrics).
Definition leader_count (name : string) : Repl S f64 :=
  let~ metrics := rn_leader_metrics net in tok_ret (f64_unwrap_zero (metrics_get name metrics)).
Definition verifier_count (v : nat) (name : string) : Repl S f64 :=
  let~ metrics := rn_verifier_metrics net v in tok_ret (f64_unwrap_zero (metrics_get name metrics)).

Definition stream_connected (v : nat) : Repl S bool := fun s =>
  match rn_verifier_metrics net v s with
  | (Ok metrics, s) => (Ok (match metrics_get STREAM_CONNECTED metrics with Some x => f64_le (f64_of 1) x | None => false end), s)
  | (Err _, s) => (Ok false, s)
  end.
Definition leader_connections : Repl S f64 := leader_metric SERVER_CONNECTIONS.

Definition fleet : list nat := seq 0 VERIFIERS.

Definition log_mentions_mismatch (v : nat) : Repl S (option string) :=
  let~ text := read_log v in tok_ret (mentions_mismatch text).

(** One attempt of [await_catch_up]: a verifier that is gone ends the wait. *)
Definition catch_up_attempt (v : nat) (name : string) (target : f64) : Repl S bool :=
  let~ running := reads (rn_running net v) in
  if running then
    let~ seen := verifier_metric v name in
    if f64_le target seen then tok_ret true else tok_fail RBehind
  else tok_ret false.

Definition caught_up (caught : Result bool ReplError) : bool := match caught with Ok true => true | _ => false end.

Definition await_catch_up (v : nat) (name : string) (target : f64) : Repl S Duration := fun s =>
  let started := rn_now net s in
  let '(caught, s) := repl_retry CATCH_UP_TIMEOUT (catch_up_attempt v name target) s in
  (do~ (if caught_up caught then tok_ret tt
        else
          let~ line := log_mentions_mismatch v in
          match line with
          | Some line => tok_fail (RMismatchLine line)
          | None => let~ running := reads (rn_running net v) in if running then tok_ret tt else tok_fail RExited
          end) in
   do~ (fun s => (caught, s)) in
   reads (fun s => rn_now net s - started)) s.

Definition await_leader_advance (name : string) (by_ : f64) : Repl S unit :=
  let~ from := leader_metric name in
  let target := f64_add from by_ in
  repl_retry SEAL_TIMEOUT (let~ seen := leader_metric name in repl_ensure (f64_le target seen)).

Definition stop_verifier (v : nat) (hard_kill : bool) : Repl S unit :=
  let~ stop := rn_stop net v hard_kill in
  do~ (if hard_kill then repl_ensure (bool_decide (vs_exit_signal stop = Some 9))
       else do~ repl_ensure (negb (vs_needed_sigkill stop)) in repl_ensure (bool_decide (vs_exit_code stop = Some 0))) in
  fun s => match rn_verifier_metrics net v s with (Err _, s) => (Ok tt, s) | (Ok _, s) => (Err REnsure, s) end.

Definition blocks_advance (v : nat) : Repl S f64 :=
  let~ before := verifier_metric v BLOCKS in
  do~ sleep ADVANCE_WINDOW in
  let~ after := verifier_metric v BLOCKS in
  do~ repl_ensure (f64_lt before after) in
  tok_ret (f64_sub after before).

(** [wait_verifiers_connected] *)
Fixpoint await_connections (fuel : nat) (deadline : Instant) (expected : f64) : Repl S unit :=
  let~ seen := leader_connections in
  if f64_le expected seen then tok_ret tt
  else
    let~ now := reads (rn_now net) in
    do~ repl_ensure (now <? deadline) in
    do~ sleep CONNECT_POLL in
    match fuel with O => tok_fail RDeadline | Datatypes.S fuel => await_connections fuel deadline expected end.

Definition wait_verifiers_connected (timeout : Duration) : Repl S unit := fun s =>
  let deadline := rn_now net s + timeout in
  (do~ tok_each (fun v =>
         let~ running := reads (rn_running net v) in
         if running then let~ now := reads (rn_now net) in rn_wait_connected net v (Z.max 0 (deadline - now)) else tok_ret tt) fleet in
   let~ running := reads (fun s => length (filter (fun v => rn_running net v s = true) fleet)) in
   await_connections (Z.to_nat (timeout / CONNECT_POLL) + 1) deadline (f64_of (Z.of_nat running))) s.

Definition await_leader_connections (expected : nat) : Repl S unit :=
  repl_retry DETACH_TIMEOUT (let~ seen := leader_connections in repl_ensure (f64_eq seen (f64_of (Z.of_nat expected)))).
End requests.

(** * The scenario *)

(** [slots] and [seals] bound the waits that end at a deadline; [joined] is what became of the
    workload once it was told to stop. *)
Section scenario.
Context `{R : Runtime, HC : HeaderCodec} {S : Type} (net : ReplNet S) (coverage : Coverage).

Definition check_ready : Repl S unit :=
  do~ wait_verifiers_connected net CONNECT_TIMEOUT in
  do~ tok_each (fun v => let~ connected := stream_connected net v in repl_ensure connected) fleet in
  let~ connections := leader_connections net in
  repl_ensure (f64_eq connections (f64_of (Z.of_nat VERIFIERS))).

Definition catch_up_fleet (names : list string) : Repl S unit :=
  tok_each (fun name =>
    let~ target := leader_metric net name in
    tok_each (fun v => do~ await_catch_up net v name target in tok_ret tt) fleet) names.

Definition check_verifier (v : nat) : Repl S unit :=
  let~ running := reads (rn_running net v) in
  do~ repl_ensure running in
  let~ connected := stream_connected net v in
  do~ repl_ensure connected in
  do~ match coverage with
      | Recovery => let~ mismatches := verifier_count net v STATE_MISMATCHES in repl_ensure (f64_eq mismatches f64_zero)
      | Settlement =>
          let~ metrics := rn_verifier_metrics net v in
          match metrics_get STATE_MISMATCHES metrics with Some mismatches => repl_ensure (f64_eq mismatches f64_zero) | None => tok_ret tt end
      end in
  let~ line := log_mentions_mismatch net v in
  match line with Some line => tok_fail (RMismatchLine line) | None => tok_ret tt end.

Definition verify_no_mismatch : Repl S unit :=
  do~ match coverage with
      | Settlement =>
          let~ sealed := leader_metric net SUPERBLOCKS in
          do~ (if f64_lt sealed (f64_of 1) then await_leader_advance net SUPERBLOCKS (f64_of 1) else tok_ret tt) in
          catch_up_fleet [SUPERBLOCKS]
      | Recovery => tok_ret tt
      end in
  tok_each check_verifier fleet.

(** [enumerate] over the verifiers, with the largest lag of each. *)
Fixpoint sample_lags (leader : f64) (verifiers : list nat) (max_lag : list f64) : Repl S (list f64) :=
  match verifiers, max_lag with
  | v :: verifiers, lag :: max_lag =>
      let~ seen := verifier_metric net v TRANSACTIONS in
      let~ rest := sample_lags leader verifiers max_lag in
      tok_ret (f64_max lag (f64_sub leader seen) :: rest)
  | _, _ => tok_ret max_lag
  end.

(** Each round sleeps for [LAG_SAMPLE], so [window / LAG_SAMPLE + 1] of them reach the deadline. *)
Fixpoint sample_rounds (fuel : nat) (deadline : Instant) (max_lag : list f64) : Repl S (list f64) :=
  let~ now := reads (rn_now net) in
  if now <? deadline then
    match fuel with
    | O => tok_fail RDeadline
    | Datatypes.S fuel =>
        let~ leader := leader_metric net TRANSACTIONS in
        let~ max_lag := sample_lags leader fleet max_lag in
        do~ sleep net LAG_SAMPLE in
        sample_rounds fuel deadline max_lag
    end
  else tok_ret max_lag.

Definition sample_lag (window : Duration) : Repl S (list f64) := fun s =>
  sample_rounds (Z.to_nat (window / LAG_SAMPLE) + 1) (rn_now net s + window) (replicate VERIFIERS f64_zero) s.

Definition check_steady_load : Repl S unit :=
  do~ sample_lag STEADY in
  do~ catch_up_fleet [TRANSACTIONS] in
  verify_no_mismatch.

(** How long until retention may drop the superblock of [slot]. *)
Definition headroom (slot : Z) : Duration := BLOCKTIME * (SUPERBLOCK_SLOTS - slot mod SUPERBLOCK_SLOTS).

Fixpoint await_headroom (slots seals : nat) : Repl S unit :=
  let~ head := leader_metric net SUPERBLOCKS in
  let~ sealed := repl_query net slots (let~ current := leader_metric net SUPERBLOCKS in tok_ret (if f64_lt head current then Some current else None)) in
  do~ await_catch_up net 0 SUPERBLOCKS sealed in
  let~ slot := rn_slot net in
  if RESTART_BUDGET + millis 500 <? headroom slot then tok_ret tt
  else match seals with O => tok_fail RDeadline | Datatypes.S seals => await_headroom slots seals end.

(** Stopped and started again, and how long that took. *)
Definition timed_restart (v : nat) : Repl S Duration := fun s =>
  let started := rn_now net s in
  (do~ stop_verifier net v false in
   do~ rn_start net v READY_TIMEOUT in
   reads (fun s => rn_now net s - started)) s.

Definition restart_retained_cursor (slots seals : nat) : Repl S unit :=
  do~ rn_slots net in
  do~ await_headroom slots seals in
  let~ restart_elapsed := timed_restart 0 in
  do~ repl_ensure (restart_elapsed <=? RESTART_BUDGET) in
  do~ rn_wait_connected net 0 CONNECT_TIMEOUT in
  let~ snapshots := verifier_count net 0 CLIENT_SNAPSHOTS in
  do~ repl_ensure (f64_eq snapshots f64_zero) in
  let~ target := leader_metric net TRANSACTIONS in
  do~ await_catch_up net 0 TRANSACTIONS target in
  do~ await_leader_connections net VERIFIERS in
  verify_no_mismatch.

(** Whether the leader still has the block; any other refusal is an error. *)
Definition block_present (slot : Z) : Repl S bool :=
  let~ answer := rn_block net slot in
  match answer with
  | Ok present => tok_ret present
  | Err code => if code =? BLOCK_CLEANED_UP then tok_ret false else tok_fail (RRpc code)
  end.

Definition await_block (slots : nat) (slot : Z) (retained : bool) : Repl S unit :=
  do~ rn_slots net in
  do~ repl_query net slots (let~ present := block_present slot in tok_ret (if Bool.eqb present retained then Some present else None)) in
  tok_ret tt.

(** The slots of the leader and the blocks of the first verifier advance. *)
Definition survivor_advances : Repl S unit :=
  let~ slot_before := rn_slot net in
  do~ blocks_advance net 0 in
  let~ slot_after := rn_slot net in
  repl_ensure (slot_before <? slot_after).

Definition check_retention_gap (slots : nat) : Repl S unit :=
  do~ await_leader_connections net 1 in
  let~ current := rn_slot net in
  rn_try_join net
    (tok_each (await_block slots (current + 1)) [true; false])
    (do~ survivor_advances in
     let~ target := leader_metric net TRANSACTIONS in
     do~ await_catch_up net 0 TRANSACTIONS target in
     tok_ret tt).

(** Started and connected, the second verifier has taken a snapshot and the leader served one more. *)
Definition start_from_snapshot (served_before : f64) : Repl S unit :=
  do~ rn_start net 1 READY_TIMEOUT in
  do~ rn_wait_connected net 1 CONNECT_TIMEOUT in
  let~ client_snapshots := verifier_count net 1 CLIENT_SNAPSHOTS in
  do~ repl_ensure (f64_le (f64_of 1) client_snapshots) in
  let~ served := leader_count net SERVER_SNAPSHOTS in
  do~ repl_ensure (f64_le (f64_of 1) (f64_sub served served_before)) in
  let~ target := leader_metric net TRANSACTIONS in
  do~ await_catch_up net 1 TRANSACTIONS target in
  tok_ret tt.

Definition recover_snapshot (server_snapshots_before : f64) : Repl S unit :=
  do~ start_from_snapshot server_snapshots_before in
  do~ await_leader_connections net VERIFIERS in
  do~ verify_no_mismatch in
  do~ leader_count net TRUNCATIONS in
  tok_ret tt.

Definition probe_clones : Repl S unit :=
  tok_each (fun _ => let~ probe := rn_funded_payer net PROBE_LAMPORTS in rn_await_funded net probe) (seq 0 PROBES).

Definition kill_verifier : Repl S unit :=
  do~ stop_verifier net 1 true in
  do~ await_leader_connections net 1 in
  do~ survivor_advances in
  do~ probe_clones in
  let~ target := leader_metric net TRANSACTIONS in
  do~ await_catch_up net 0 TRANSACTIONS target in
  tok_ret tt.

Definition rejoin_wiped : Repl S unit :=
  let~ served_before := leader_count net SERVER_SNAPSHOTS in
  do~ rn_reset_storage net 1 in
  do~ start_from_snapshot served_before in
  do~ blocks_advance net 1 in
  do~ await_leader_connections net VERIFIERS in
  verify_no_mismatch.

(** [pair.verify(leader, ...)] for each pair *)
Definition repl_verify_pair (c : CausalPair) : Repl S unit :=
  let~ a := rn_account net (cp_a c) in
  let~ b := rn_account net (cp_b c) in
  match CausalPair_compare c (a, b) with Ok _ => tok_ret tt | Err e => tok_fail (RCompare e) end.

Definition check_final_boundary (pairs : list CausalPair) : Repl S unit :=
  let~ final_txs := leader_metric net TRANSACTIONS in
  do~ await_leader_advance net SUPERBLOCKS (f64_of 1) in
  do~ catch_up_fleet [SUPERBLOCKS] in
  do~ tok_each (fun v => do~ await_catch_up net v TRANSACTIONS final_txs in tok_ret tt) fleet in
  do~ verify_no_mismatch in
  do~ tok_each repl_verify_pair pairs in
  tok_each (fun v => do~ verifier_metric net v SUPERBLOCKS in tok_ret tt) fleet.

(** The pairs of the workload: three payers each, of which the first owns its accounts. *)
Fixpoint prepare_each (payers : list Pubkey) (indices : list nat) : Repl S (list (CausalPair * list Pubkey)) :=
  match indices with
  | [] => tok_ret []
  | index :: indices =>
      let~ owner := repl_some RPanic (payers !! (index * PAYERS_PER_PAIR)%nat) in
      let~ pdas := rn_init_delegated net owner 2 in
      do~ rn_await_clones net pdas ACCOUNT_SPACE in
      let senders := take PAYERS_PER_PAIR (drop (index * PAYERS_PER_PAIR) payers) in
      let~ a := repl_some RPanic (pdas !! 0%nat) in
      let~ b := repl_some RPanic (pdas !! 1%nat) in
      let~ rest := prepare_each payers indices in
      tok_ret ((CausalPair_new a b, senders) :: rest)
  end.

Definition prepare_pairs (count : nat) : Repl S (list (CausalPair * list Pubkey)) :=
  let~ payers := tok_map (fun _ => rn_funded_payer net PAYER_LAMPORTS) (seq 0 (count * PAYERS_PER_PAIR)) in
  let~ pairs := prepare_each payers (seq 0 count) in
  do~ rn_await_cloned_payers net payers in
  tok_ret pairs.

(** [drain], on what the tasks gave. *)
Definition drain (joined : option (Result (list CausalPair) ReplError)) : Repl S (list CausalPair) :=
  let~ joined := repl_some RDeadline joined in
  let~ pairs := (fun s => (joined, s)) in
  do~ tok_each (fun c =>
        match cp_last_signature c with
        | Some signature => let~ err := rn_transaction net signature in repl_ensure (bool_decide (err = None))
        | None => tok_ret tt
        end) pairs in
  do~ await_leader_advance net BLOCKS (f64_of 1) in
  tok_ret pairs.
End scenario.

Section recovery.
Context `{R : Runtime, HC : HeaderCodec, C : InstructionCodec} {S : Type} (net : ReplNet S) (redline compute_budget : Pubkey).

(** The failures a follower goes through while the writers run. *)
Definition recovery_phases (slots seals : nat) : Repl S unit :=
  do~ check_steady_load net Recovery in
  do~ within net RECOVERY_TIMEOUT (restart_retained_cursor net Recovery slots seals) in
  let~ server_snapshots_before := leader_count net SERVER_SNAPSHOTS in
  do~ leader_count net TRUNCATIONS in
  do~ stop_verifier net 1 false in
  do~ check_retention_gap net slots in
  do~ within net RECOVERY_TIMEOUT (recover_snapshot net Recovery server_snapshots_before) in
  do~ kill_verifier net in
  within net RECOVERY_TIMEOUT (rejoin_wiped net Recovery).

(** [during] and [after] are the turns of the writers before and after they were told to stop. *)
Definition check_recovery (slots seals : nat) (during after : list (WriterEvent ReplError)) : Repl S unit :=
  let~ pairs := prepare_pairs net PAIRS in
  let workload := run_events redline compute_budget RPanic (Workload_start (fst <$> pairs)) during in
  do~ recovery_phases slots seals in
  let~ pairs := within net DRAIN_TIMEOUT (drain net (join_all RPanic (run_events redline compute_budget RPanic (set_stop workload) after))) in
  check_final_boundary net Recovery pairs.

(** [run]; [settlement] is what the other coverage does in between. *)
Definition replication_run (coverage : Coverage) (slots seals : nat) (during after : list (WriterEvent ReplError)) (settlement : Repl S unit) :
    Repl S unit :=
  do~ check_ready net in
  do~ catch_up_fleet net [TRANSACTIONS; SUPERBLOCKS] in
  do~ match coverage with Recovery => check_recovery slots seals during after | Settlement => settlement end in
  rn_finish net.
End recovery.

(** * Settlement and replay: [settlement.rs] *)

Record ReplayNet (S : Type) := mkReplayNet
  { py_fund : Pubkey -> Z -> S -> Result unit ReplError * S;
    py_create_primary : Pubkey -> S -> Result Pubkey ReplError * S;
    py_base_submit : Pubkey -> list SolInstruction -> S -> Result Sig ReplError * S;
    py_delegate_payer : Pubkey -> Pubkey -> S -> Result unit ReplError * S;
    py_await_delegated : Pubkey -> S -> Result unit ReplError * S;
    (** the leader's own listing, for the one cell *)
    py_local : Pubkey -> S -> Result (list (option Account)) ReplError * S;
    py_base_account : Pubkey -> S -> Result (option Account) ReplError * S;
    py_await_account : Pubkey -> (Account -> bool) -> S -> Result unit ReplError * S;
    py_slot : S -> Result Z ReplError * S;
    py_submit : Pubkey -> list SolInstruction -> S -> Result Sig ReplError * S;
    py_send : Pubkey -> list SolInstruction -> S -> Result Sig ReplError * S;
    (** [check_commit] *)
    py_commit : Sig -> list Pubkey -> bool -> S -> Result CommitReceipt ReplError * S;
    (** a transaction as it is recorded, and its error *)
    py_transaction : Sig -> S -> Result (string * option TransactionError) ReplError * S;
    py_status : Sig -> S -> Result (option TransactionStatus) ReplError * S;
    py_restart : S -> Result (option Z * bool) ReplError * S;
    py_audit : Z -> list (Sig * Z) -> S -> Result unit ReplError * S }.
Arguments py_fund {S} _. Arguments py_create_primary {S} _. Arguments py_base_submit {S} _. Arguments py_delegate_payer {S} _.
Arguments py_await_delegated {S} _. Arguments py_local {S} _. Arguments py_base_account {S} _. Arguments py_await_account {S} _.
Arguments py_slot {S} _. Arguments py_submit {S} _. Arguments py_send {S} _. Arguments py_commit {S} _. Arguments py_transaction {S} _.
Arguments py_status {S} _. Arguments py_restart {S} _. Arguments py_audit {S} _.

Section replay.
Context `{R : Runtime, C : InstructionCodec, B : BuildSdk, W : MagicWire, HC : HeaderCodec} {S : Type} (net : ReplNet S) (py : ReplayNet S).
Context (redshift dlp_id validator : Pubkey) (top_up : Pubkey -> Z -> Z -> SolInstruction).

(** The image the cell must have: the value, and a revision for the write and one for the callback;
    [None] is the panic of the sum. *)
Definition settled_header (marker : Z) (h : CellHeader) : option CellHeader :=
  rev ← checked_add64 (revision h) 2; Some (mkHeader (id h) marker rev (undelegation h)).
Definition with_data (d : list Z) (a : Account) : Account := mkAccount (ac_lamports a) d (ac_owner a) (ac_executable a) (ac_rent_epoch a).

Definition expected_image (marker : Z) (before : Account) : option Account :=
  h ← CellHeader_try_decode (ac_data before);
  h ← settled_header marker h;
  match CellHeader_write h (ac_data before) with Ok d => Some (with_data d before) | Err _ => None end.

Definition nonce_batch (nonce : Z) : Batch := Batch_nonce nonce (Program_batch redshift).

(** A write, with a commit whose action calls back. *)
Definition callback_settlement (payer cell : Pubkey) (marker : Z) : option SolInstruction :=
  ix ← Batch_action cell dlp_id (nonce_batch marker);
  let commit := mkIntent Commit [cell] [Action_then (Action_new payer ix 100000) (mkResultCallback cell None 20000)] [] in
  b ← Batch_set [cell] marker (nonce_batch marker);
  b ← Batch_intents (mkIntentBundle payer (Some validator) [commit] []) b;
  Some (Batch_build b).

Definition rolled_back (cell : Pubkey) (marker : Z) : option SolInstruction :=
  b ← Batch_add [cell] 99 (nonce_batch (marker + 1)); Some (Batch_build (Batch_fail 0x247 b)).

Definition plain_commit (payer cell : Pubkey) (nonce : Z) : option SolInstruction :=
  b ← Batch_invoke (Magic_commit payer (Some (magic_fee_vault_pda validator)) [cell] Commit) (nonce_batch nonce);
  Some (Batch_build b).

(** A commit of the cell by its owner, and its receipt. *)
Definition commit_once (payer cell : Pubkey) (ix : option SolInstruction) : Repl S (Sig * CommitReceipt) :=
  let~ ix := repl_some RPanic ix in
  let~ signature := py_submit py payer [ix] in
  let~ receipt := py_commit py signature [cell] false in
  do~ repl_ensure (is_ok (check_success receipt)) in
  tok_ret (signature, receipt).

Definition cell_is (cell : Pubkey) (expected : Account) : Repl S unit :=
  let~ local := py_local py cell in repl_ensure (bool_decide (local = [Some expected])).

(** The cell, created, delegated with its payer and funded for its fees. *)
Definition prepare_cell (funder payer : Pubkey) : Repl S Pubkey :=
  do~ py_fund py funder PAYER_LAMPORTS in
  do~ py_fund py payer PAYER_LAMPORTS in
  let~ cell := py_create_primary py payer in
  do~ py_base_submit py payer [top_up payer 500000000 1] in
  do~ py_delegate_payer py funder payer in
  do~ py_await_delegated py cell in
  do~ py_await_delegated py payer in
  tok_ret cell.

(** What is there before the restart: the image, the base chain's, and the records. *)
Record Settled := mkSettled { sd_expected : Account; sd_base : Account; sd_start : Z; sd_records : list (Sig * string) }.

Definition settle_all (payer cell : Pubkey) (marker : Z) : Repl S Settled :=
  let~ local := py_local py cell in
  let~ before := repl_some RPanic (last local ≫= fun found => found) in
  let~ expected := repl_some RPanic (expected_image marker before) in
  let~ start := py_slot py in
  let~ scheduled := commit_once payer cell (callback_settlement payer cell marker) in
  do~ py_await_account py cell (fun a => bool_decide (a = expected)) in
  let~ ix := repl_some RPanic (rolled_back cell marker) in
  let~ failure := py_send py payer [ix] in
  let~ failed := py_transaction py failure in
  do~ repl_ensure (bool_decide (failed.2 = Some (Receipt.TxInstructionError 0 (Custom 0x247)))) in
  do~ cell_is cell expected in
  let~ settled := commit_once payer cell (plain_commit payer cell (marker + 2)) in
  let~ found := py_base_account py cell in
  let~ base := repl_some RPanic found in
  do~ repl_ensure (bool_decide (ac_data base = ac_data expected) && (ac_lamports base =? ac_lamports expected) && (ac_owner base =? dlp_id)) in
  let~ records := tok_map (fun signature => let~ tx := py_transaction py signature in tok_ret (signature, tx.1))
                    [scheduled.1; Receipt.signature scheduled.2; failure; settled.1; Receipt.signature settled.2] in
  tok_ret (mkSettled expected base start records).

Definition record_is_kept (kept : Sig * string) : Repl S unit :=
  let~ tx := py_transaction py kept.1 in
  do~ repl_ensure (bool_decide (tx.1 = kept.2)) in
  let~ status := py_status py kept.1 in
  repl_ensure (bool_decide (is_Some status)).

(** After the restart: the images and the records as they were, each signature once, and a new commit. *)
Definition check_replayed (payer cell : Pubkey) (marker : Z) (before : Settled) : Repl S unit :=
  do~ cell_is cell (sd_expected before) in
  let~ base := py_base_account py cell in
  do~ repl_ensure (bool_decide (base = Some (sd_base before))) in
  do~ tok_each record_is_kept (sd_records before) in
  do~ py_audit py (sd_start before) ((fun kept => (kept.1, 1)) <$> sd_records before) in
  do~ commit_once payer cell (plain_commit payer cell (marker + 3)) in
  let~ base := py_base_account py cell in
  repl_ensure (match base with Some a => bool_decide (ac_data a = ac_data (sd_expected before)) | None => false end).

(** [marker] is drawn from 1 to 999,999. *)
Definition check_settlement_replay (funder payer : Pubkey) (marker : Z) : Repl S unit :=
  let~ cell := prepare_cell funder payer in
  let~ settled := settle_all payer cell marker in
  do~ check_final_boundary net Settlement [] in
  let~ restart := py_restart py in
  do~ repl_ensure (bool_decide (restart.1 = Some 0) && negb restart.2) in
  do~ wait_verifiers_connected net CONNECT_TIMEOUT in
  do~ check_final_boundary net Settlement [] in
  check_replayed payer cell marker settled.
End replay.
