(* ===== verification/ReplicationProps.v ===== *)
(** Replication and recovery: ids are drawn once over all interleavings of the writers, a stopped
    workload drains, and what it gives back is accepted after any execution that keeps each pair's
    order; a passed recovery has seen its evidence, and log lines lose their colours only. *)
From Stdlib Require Import String Ascii.
From S2P Require Import Prelude World Cell Instr Settlement RefCodec SettlementFacts Execute CellSpec Build BuildSpec Fixture FixtureProps Causal Float64 Rate Text Metrics Waiting Receipt Rollup Contention ContentionProps Projected ProjectedProps Intents Replication.

#[local] Open Scope Z_scope.
#[local] Open Scope list_scope.

(** * What a writer has sent *)

Definition step_iters (chain : Z) (s : Step) : Z := if decide (Step_index s = Step_index (heavy_step chain)) then HEAVY_ITERS else 0.
Definition chain_part (chain : Z) (steps : list Step) : list (Step * Z) := (fun s => (s, step_iters chain s)) <$> steps.

(** The steps of the first [n] chains. *)
Definition whole_chains (n : Z) : list (Step * Z) := concat ((fun chain => chain_part chain Step_ALL) <$> seqZ 0 n).
Definition shape (ds : list Drive) : list (Step * Z) := (fun d => (dr_step d, dr_iters d)) <$> ds.

Lemma whole_chains_succ n : 0 <= n -> whole_chains (n + 1) = whole_chains n ++ chain_part n Step_ALL.
Proof.
  intros Hn. unfold whole_chains. rewrite seqZ_app, fmap_app, concat_app by lia. cbn [seqZ]. rewrite Z.add_0_l.
  change (seqZ n 1) with [n]. cbn [fmap list_fmap concat]. by rewrite app_nil_r.
Qed.

(** The drives of a writer that were accepted, and the ids it drew for others. *)
Record Sent := mkSent { se_drives : list Drive; se_open : list Z }.
Definition sent_ids (g : Sent) : list Z := (dr_id <$> se_drives g) ++ se_open g.

Section writers.
Context `{R : Runtime, HC : HeaderCodec, C : InstructionCodec}.
Context (redline compute_budget : Pubkey) {Error : Type} (panic : Error).

Definition stands (chains : Z) (at_ : WriterAt Error) (g : Sent) : Prop :=
  match at_ with
  | AtLoop | Ended (Ok _) => shape (se_drives g) = whole_chains chains /\ se_open g = []
  | Sending step id rest =>
      se_open g = [id] /\ exists before, Step_ALL = before ++ step :: rest /\ shape (se_drives g) = whole_chains chains ++ chain_part chains before
  | Ended (Err _) => length (se_open g) = 1%nat
  end.

Record writer_inv (c : CausalPair) (w : Writer Error) (g : Sent) : Prop := mkWriterInv
  { wi_a : cp_a (wr_pair w) = cp_a c; wi_b : cp_b (wr_pair w) = cp_b c;
    wi_model : cp_model (wr_pair w) = predict (cp_model c) (se_drives g);
    wi_chains : 0 <= wr_chains w; wi_stands : stands (wr_chains w) (wr_at w) g }.

(** A turn of one task: the ids it draws come next, and the answers it takes are counted. *)
Definition takes_turn (c : CausalPair) (p : Progress) (g : Sent) (ds : list Drive) (p' : Progress) (w' : Writer Error) : Prop :=
  exists g', writer_inv c w' g' /\ se_drives g' = se_drives g ++ ds /\
    sent_ids g' ≡ₚ sent_ids g ++ seqZ (pg_next_id p + 1) (pg_next_id p' - pg_next_id p) /\
    pg_sent p' - pg_sent p = Z.of_nat (length ds) /\ pg_next_id p <= pg_next_id p'.

(** The step an answer has accepted. *)
Definition accepts (r : Result Z Error) (w : Writer Error) : list Drive :=
  match wr_at w with
  | Sending step id _ =>
      let iters := step_iters (wr_chains w) step in
      match (CausalPair_send redline compute_budget (fun _ _ => r) panic (wr_pair w) step id iters).1 with
      | Ok _ => [mkDrive step id iters]
      | Err _ => []
      end
  | _ => []
  end.

Record turn_ok (f : Progress -> Writer Error -> Progress * Writer Error) (acc : Writer Error -> list Drive) : Prop := mkTurnOk
  { to_inv : forall c p w g p' w', f p w = (p', w') -> writer_inv c w g -> takes_turn c p g (acc w) p' w';
    to_ended : forall p w, is_ended w = true -> f p w = (p, w);
    to_stop : forall p w, pg_stop (f p w).1 = pg_stop p }.

Lemma takes_no_id c p g w' : writer_inv c w' g -> takes_turn c p g [] p w'.
Proof. exists g. rewrite Z.sub_diag, !app_nil_r. cbn. split_and!; [done|done|done|lia|lia]. Qed.

Lemma next_step_inv c steps p cp chains ds before p' (w' : Writer Error) :
  next_step steps p cp chains = (p', w') ->
  cp_a cp = cp_a c -> cp_b cp = cp_b c -> cp_model cp = predict (cp_model c) ds -> 0 <= chains ->
  Step_ALL = before ++ steps -> shape ds = whole_chains chains ++ chain_part chains before ->
  exists g', writer_inv c w' g' /\ se_drives g' = ds /\ pg_sent p' = pg_sent p /\ pg_next_id p <= pg_next_id p' /\
    se_open g' = seqZ (pg_next_id p + 1) (pg_next_id p' - pg_next_id p).
Proof.
  intros H Ha Hb Hm Hc Hall Hs. destruct steps as [|s steps]; cbn in H; injection H as <- <-.
  - rewrite app_nil_r in Hall. subst before. exists (mkSent ds []). cbn. rewrite Z.sub_diag. split_and!; [|done..|lia|done].
    split; cbn; try done; [lia|]. by rewrite whole_chains_succ.
  - exists (mkSent ds [pg_next_id p + 1]). cbn. replace (pg_next_id p + 1 - pg_next_id p) with 1 by lia.
    split_and!; [|done..|lia|done]. split; cbn; try done. split; [done|]. by exists before.
Qed.

Lemma resume_ok : turn_ok (resume (Error := Error)) (fun _ => []).
Proof.
  split.
  - intros c p w g p' w' H Hw. destruct w as [cp chains at_]. unfold resume in H. cbn [wr_at wr_pair wr_chains] in H.
    destruct at_ as [|step id rest|r]; [|injection H as <- <-; by apply takes_no_id..].
    destruct Hw as [Ha Hb Hm Hc [Hs Ho]]. cbn [wr_at wr_pair wr_chains] in *. destruct (pg_stop p).
    + injection H as <- <-. apply takes_no_id. by split.
    + destruct (next_step_inv c Step_ALL p cp chains (se_drives g) [] p' w') as (g' & Hi & Hd & Hp & Hn & Hg); [done..|by rewrite app_nil_r|].
      exists g'. unfold sent_ids. rewrite Hd, Hg, Ho, !app_nil_r. cbn. split_and!; [done|done|done|lia|done].
  - intros p [cp chains at_]. by destruct at_.
  - intros p [cp chains at_]. unfold resume. cbn. destruct at_; [|done..]. by destruct (pg_stop p) eqn:E; cbn; rewrite ?E.
Qed.

Lemma answered_ok r : turn_ok (answered redline compute_budget panic r) (accepts r).
Proof.
  split.
  - intros c p w g p' w' H Hw. destruct w as [cp chains at_]. unfold answered in H. cbn [wr_at wr_pair wr_chains] in H.
    destruct at_ as [|step id rest|r']; [injection H as <- <-; by apply takes_no_id| |injection H as <- <-; by apply takes_no_id].
    destruct Hw as [Ha Hb Hm Hc Hs]. cbn in Ha, Hb, Hm, Hc, Hs. destruct Hs as (Ho & before & Hall & Hs).
    unfold accepts. cbn [wr_at wr_chains wr_pair]. unfold CausalPair_send in *.
    assert (Herr : forall e, (p, mkWriter cp chains (Ended (Err e))) = (p', w') -> takes_turn c p g [] p' w').
    { intros e [= <- <-]. apply takes_no_id. split; cbn; try done. by rewrite Ho. }
    change (if decide (Step_index step = Step_index (heavy_step chains)) then HEAVY_ITERS else 0) with (step_iters chains step) in H.
    destruct (chain_ixs _ _ _ _ _); [|by eapply Herr]. destruct r as [signature|e]; [|by eapply Herr]. clear Herr. cbn [fst].
    destruct (next_step_inv c rest _ _ chains (se_drives g ++ [mkDrive step id (step_iters chains step)]) (before ++ [step]) p' w' H)
      as (g' & Hi & Hd & Hp & Hn & Hg); cbn; [done|done| |done|by rewrite <- app_assoc| |].
    { unfold predict in *. rewrite foldl_app. cbn. by rewrite <- Hm. }
    { unfold shape, chain_part in *. rewrite !fmap_app, Hs. cbn. by rewrite app_assoc. }
    cbn in Hp, Hn, Hg. exists g'. unfold sent_ids. rewrite Hd, Hg, Ho, fmap_app. cbn.
    split_and!; [done|done|done|lia|lia].
  - intros p [cp chains at_]. by destruct at_.
  - intros p [cp chains at_]. unfold answered. cbn. destruct at_ as [|s id rest|]; [done| |done].
    destruct (CausalPair_send _ _ _ _ _ _ _ _) as [[z|e] q]; [|done]. by destruct rest.
Qed.

(** * All of them *)

Definition total_sent (gs : list Sent) : Z := foldr Z.add 0 ((fun g => Z.of_nat (length (se_drives g))) <$> gs).

Record workload_inv (pairs : list CausalPair) (l : Workload Error) (gs : list Sent) : Prop := mkWorkloadInv
  { li_writers : Forall3 writer_inv pairs (wl_tasks l) gs;
    li_ids : concat (sent_ids <$> gs) ≡ₚ seqZ 1 (pg_next_id (wl_progress l));
    li_next : 0 <= pg_next_id (wl_progress l);
    li_sent : pg_sent (wl_progress l) = total_sent gs;
    li_ended : NoDup (wl_ended l) /\ forall i, i ∈ wl_ended l <-> exists w, wl_tasks l !! i = Some w /\ is_ended w = true }.

Lemma Forall3_split {A B D} (P : A -> B -> D -> Prop) l k m i y :
  Forall3 P l k m -> k !! i = Some y ->
  exists x z l1 l2 k1 k2 m1 m2, l = l1 ++ x :: l2 /\ k = k1 ++ y :: k2 /\ m = m1 ++ z :: m2 /\ length k1 = i /\
    Forall3 P l1 k1 m1 /\ P x y z /\ Forall3 P l2 k2 m2.
Proof.
  intros H. revert i. induction H as [|x' y' z' l k m HP H IH]; intros [|i] Hi; cbn in Hi; simplify_eq.
  - exists x', z', [], l, [], k, [], m. split_and!; done || constructor.
  - destruct (IH i Hi) as (x & z & l1 & l2 & k1 & k2 & m1 & m2 & -> & -> & -> & Hl & H1 & HP' & H2).
    exists x, z, (x' :: l1), l2, (y' :: k1), k2, (z' :: m1), m2. split_and!; try done; [cbn; lia|by constructor].
Qed.

Lemma Forall3_join {A B D} (P : A -> B -> D -> Prop) l1 x l2 k1 y k2 m1 z m2 :
  Forall3 P l1 k1 m1 -> P x y z -> Forall3 P l2 k2 m2 -> Forall3 P (l1 ++ x :: l2) (k1 ++ y :: k2) (m1 ++ z :: m2).
Proof. intros H1 HP H2. apply Forall3_app; [done|by constructor]. Qed.

Lemma total_sent_app gs1 gs2 : total_sent (gs1 ++ gs2) = total_sent gs1 + total_sent gs2.
Proof. unfold total_sent. rewrite fmap_app, foldr_app. generalize (fmap (M := list) (fun g => Z.of_nat (length (se_drives g))) gs1) as l.
  induction l as [|x l IH]; cbn; [|rewrite IH]; lia. Qed.

(** The steps accepted from the tasks, over a run. *)
Definition turn_accepts (task : nat) (acc : Writer Error -> list Drive) (l : Workload Error) : list (nat * Drive) :=
  (fun d => (task, d)) <$> match wl_tasks l !! task with Some w => acc w | None => [] end.

Definition accepted (l : Workload Error) (e : WriterEvent Error) : list (nat * Drive) :=
  match e with Answered task r => turn_accepts task (accepts r) l | _ => [] end.

Fixpoint accepted_log (l : Workload Error) (events : list (WriterEvent Error)) : list (nat * Drive) :=
  match events with
  | [] => []
  | e :: events => accepted l e ++ accepted_log (writer_event redline compute_budget panic l e) events
  end.

(** The drives of the writers after the steps [log] were accepted. *)
Definition logged (gs : list Sent) (log : list (nat * Drive)) (gs' : list Sent) : Prop :=
  forall i g', gs' !! i = Some g' -> exists g, gs !! i = Some g /\ se_drives g' = se_drives g ++ of_pair i log.

Lemma of_pair_app i l1 l2 : of_pair i (l1 ++ l2) = of_pair i l1 ++ of_pair i l2.
Proof. unfold of_pair. by rewrite filter_app, fmap_app. Qed.

Lemma of_pair_one i task ds : of_pair i ((fun d => (task, d)) <$> ds) = if decide (i = task) then ds else [].
Proof.
  unfold of_pair. induction ds as [|d ds IH]; [by case_decide|]. cbn [fmap list_fmap]. rewrite filter_cons. cbn [fst].
  destruct (decide (i = task)) as [->|Hi]; [rewrite decide_True by done; cbn; by f_equal|by rewrite decide_False by done].
Qed.

Lemma logged_nil gs : logged gs [] gs.
Proof. intros i g Hg. exists g. split; [done|]. by rewrite app_nil_r. Qed.

Lemma logged_app gs gs1 gs2 log1 log2 : logged gs log1 gs1 -> logged gs1 log2 gs2 -> logged gs (log1 ++ log2) gs2.
Proof.
  intros H1 H2 i g2 Hg2. destruct (H2 i g2 Hg2) as (g1 & Hg1 & ->). destruct (H1 i g1 Hg1) as (g & Hg & ->).
  exists g. split; [done|]. by rewrite of_pair_app, app_assoc.
Qed.

Lemma turn_inv task f acc pairs l gs :
  turn_ok f acc -> workload_inv pairs l gs -> exists gs', workload_inv pairs (turn task f l) gs' /\ logged gs (turn_accepts task acc l) gs'.
Proof.
  intros [Hf Hend _] [Hw Hids Hn Hs [Hnd He]]. unfold turn, turn_accepts. destruct (wl_tasks l !! task) as [w|] eqn:Ht; [|exists gs; split; [done|apply logged_nil]].
  destruct (f (wl_progress l) w) as [p' w'] eqn:E.
  destruct (Forall3_split _ _ _ _ _ _ Hw Ht) as (c & g & l1 & l2 & k1 & k2 & m1 & m2 & -> & Hk & -> & Hlen & H1 & Hg & H2).
  destruct (Hf _ _ _ _ _ _ E Hg) as (g' & Hg' & Hd & Hperm & Hsent & Hle). exists (m1 ++ g' :: m2).
  assert (Hm : length m1 = task) by (rewrite <- Hlen, <- (Forall3_length_lm _ _ _ _ H1); symmetry; by eapply Forall3_length_lr).
  split; [split; cbn [wl_tasks wl_progress wl_ended]|].
  - rewrite Hk, <- Hlen, insert_app_r_alt, Nat.sub_diag by lia. cbn. by apply Forall3_join.
  - rewrite !fmap_app, !concat_app in *. cbn [fmap list_fmap concat] in *. rewrite Hperm.
    replace (pg_next_id p') with (pg_next_id (wl_progress l) + (pg_next_id p' - pg_next_id (wl_progress l))) at 2 by lia.
    rewrite seqZ_app, (Z.add_comm 1), <- Hids by lia. by rewrite <- !app_assoc, (Permutation_app_comm _ (concat _)), !app_assoc.
  - lia.
  - rewrite total_sent_app in *. unfold total_sent in *. cbn [fmap list_fmap foldr] in *. rewrite Hd, length_app. lia.
  - destruct (is_ended w) eqn:Hwe; cbn [negb andb].
    { rewrite (Hend _ _ Hwe) in E. injection E as <- <-. by rewrite list_insert_id. }
    assert (Hnot : task ∉ wl_ended l) by (rewrite He; intros (? & ? & ?); simplify_eq; congruence).
    assert (Hlt : (task < length (wl_tasks l))%nat) by (by eapply lookup_lt_Some).
    assert (Hother : forall i, i <> task -> i ∈ wl_ended l <-> exists v, <[task := w']> (wl_tasks l) !! i = Some v /\ is_ended v = true)
      by (intros i Hi; by rewrite list_lookup_insert_ne, He).
    destruct (is_ended w') eqn:Hwe'; split; [apply NoDup_app; split_and!; [done|set_solver|apply NoDup_singleton]| |done|].
    all: intros i; destruct (decide (i = task)) as [->|Hi].
    + rewrite list_lookup_insert_eq by done. split; [by exists w'|set_solver].
    + rewrite elem_of_app, (Hother _ Hi). set_solver.
    + rewrite list_lookup_insert_eq by done. split; [done|]. intros (? & ? & ?). congruence.
    + by apply Hother.
  - intros i h. rewrite of_pair_one. rewrite !lookup_app, Hm. destruct (decide (i = task)) as [->|Hi].
    + rewrite (lookup_ge_None_2 m1) by lia. rewrite Nat.sub_diag. intros [= <-]. by exists g.
    + destruct (m1 !! i) as [h'|] eqn:E1; [intros [= ->]; exists h; by rewrite app_nil_r|]. apply lookup_ge_None in E1.
      destruct (i - task)%nat eqn:Ei; [lia|]. cbn. intros Hh. exists h. by rewrite app_nil_r.
Qed.

Lemma event_inv pairs l gs e :
  workload_inv pairs l gs -> exists gs', workload_inv pairs (writer_event redline compute_budget panic l e) gs' /\ logged gs (accepted l e) gs'.
Proof.
  intros H. destruct e as [task|task r|].
  - destruct (turn_inv task _ _ _ _ _ resume_ok H) as (gs' & ? & Hl). exists gs'. split; [done|]. unfold turn_accepts in Hl. by destruct (wl_tasks l !! task).
  - exact (turn_inv task _ _ _ _ _ (answered_ok r) H).
  - exists gs. split; [by destruct H|apply logged_nil].
Qed.

Lemma events_inv pairs l gs events :
  workload_inv pairs l gs ->
  exists gs', workload_inv pairs (run_events redline compute_budget panic l events) gs' /\ logged gs (accepted_log l events) gs'.
Proof.
  revert l gs. induction events as [|e events IH]; intros l gs H; [by exists gs; split; [|apply logged_nil]|].
  destruct (event_inv _ _ _ e H) as (gs1 & H1 & L1). destruct (IH _ _ H1) as (gs2 & H2 & L2). exists gs2. split; [done|]. by eapply logged_app.
Qed.

Lemma start_inv pairs : workload_inv pairs (Workload_start (Error := Error) pairs) ((fun _ => mkSent [] []) <$> pairs).
Proof.
  split; cbn.
  - induction pairs; constructor; [by split|done].
  - by induction pairs.
  - done.
  - unfold total_sent. by induction pairs as [|? ? IH]; [|exact IH].
  - split; [constructor|]. intros i. split; [set_solver|]. intros (w & Hw & He). apply list_lookup_fmap_Some in Hw as (? & -> & ?). done.
Qed.

(** * What is handed back *)

Lemma collect_Ok tasks order pairs :
  collect_pairs (Error := Error) panic tasks order = Ok pairs ->
  pairs = omap (fun i => wr_pair <$> tasks !! i) order /\
  Forall (fun i => exists w, tasks !! i = Some w /\ wr_at w = Ended (Ok tt)) order.
Proof.
  revert pairs. induction order as [|i order IH]; intros pairs H; cbn in H; [by injection H as <-|].
  destruct (tasks !! i) as [[cp chains [| |[[]|e]]]|] eqn:Hi; try done.
  destruct (collect_pairs panic tasks order) as [ps|]; [|done]. injection H as <-. destruct (IH ps eq_refl) as [-> Hf].
  cbn. rewrite Hi. split; [done|]. constructor; [by eexists|done].
Qed.

Lemma ended_everywhere pairs l gs :
  workload_inv pairs l gs -> forallb is_ended (wl_tasks l) = true -> wl_ended l ≡ₚ seq 0 (length (wl_tasks l)).
Proof.
  intros [_ _ _ _ [Hnd He]] Hall. apply NoDup_Permutation; [done|apply NoDup_seq|]. intros i. rewrite He, elem_of_seq.
  split; [intros (w & Hw & _); apply lookup_lt_Some in Hw; lia|]. intros [_ Hi]. apply lookup_lt_is_Some in Hi as [w Hw].
  exists w. split; [done|]. rewrite forallb_forall in Hall. apply Hall. by eapply list_elem_of_In, list_elem_of_lookup_2.
Qed.

Lemma omap_indices (tasks : list (Writer Error)) : omap (fun i => wr_pair <$> tasks !! i) (seq 0 (length tasks)) = wr_pair <$> tasks.
Proof.
  induction tasks as [|w tasks IH] using rev_ind; [done|]. rewrite length_app, seq_app, omap_app, fmap_app. cbn.
  rewrite lookup_app_r, Nat.sub_diag by lia. cbn. f_equal. rewrite <- IH. apply list_omap_ext.
  apply Forall_Forall2_diag, Forall_forall. intros i Hi. apply elem_of_seq in Hi. by rewrite lookup_app_l by lia.
Qed.

(** Every pair comes back once, at the end of a chain. *)
Lemma joined_inv pairs l gs joined :
  workload_inv pairs l gs -> join_all panic l = Some (Ok joined) ->
  joined ≡ₚ wr_pair <$> wl_tasks l /\ Forall (fun w => wr_at w = Ended (Ok tt)) (wl_tasks l).
Proof.
  intros Hinv H. unfold join_all in H. destruct (forallb is_ended (wl_tasks l)) eqn:Hall; [|done]. injection H as H.
  pose proof (ended_everywhere _ _ _ Hinv Hall) as Hperm. apply collect_Ok in H as [-> Hf]. split.
  - by rewrite Hperm, omap_indices.
  - rewrite Hperm in Hf. apply Forall_lookup. intros i w Hw.
    pose proof (Forall_forall (fun i => exists w, wl_tasks l !! i = Some w /\ wr_at w = Ended (Ok tt)) (seq 0 (length (wl_tasks l)))) as [HF _].
    destruct (HF Hf i) as (w' & Hw' & He); [apply elem_of_seq; apply lookup_lt_Some in Hw; lia|]. congruence.
Qed.

(** * Draining *)

(** The turns a task has left once the flag is set. *)
Definition turns_left (w : Writer Error) : nat :=
  match wr_at w with AtLoop => 1 | Sending _ _ rest => length rest + 2 | Ended _ => 0 end.
Definition total_left (l : Workload Error) : nat := foldr Nat.add 0%nat (turns_left <$> wl_tasks l).

(** What can happen next. *)
Definition can_happen (l : Workload Error) (e : WriterEvent Error) : bool :=
  match e with
  | Resume task => match wl_tasks l !! task with Some (mkWriter _ _ AtLoop) => true | _ => false end
  | Answered task _ => match wl_tasks l !! task with Some (mkWriter _ _ (Sending _ _ _)) => true | _ => false end
  | SetStop => false
  end.

Fixpoint all_happen (l : Workload Error) (events : list (WriterEvent Error)) : bool :=
  match events with
  | [] => true
  | e :: events => can_happen l e && all_happen (writer_event redline compute_budget panic l e) events
  end.

Lemma left_insert task (tasks : list (Writer Error)) w w' :
  tasks !! task = Some w -> (turns_left w' < turns_left w)%nat ->
  (foldr Nat.add 0 (turns_left <$> <[task := w']> tasks) < foldr Nat.add 0 (turns_left <$> tasks))%nat.
Proof.
  revert task. induction tasks as [|v tasks IH]; intros [|task] H Hlt; [done..| |].
  - injection H as ->. cbn. lia.
  - specialize (IH task H Hlt). cbn. by apply Nat.add_lt_mono_l.
Qed.

Lemma stopped_turn l e :
  pg_stop (wl_progress l) = true -> can_happen l e = true ->
  pg_stop (wl_progress (writer_event redline compute_budget panic l e)) = true /\
  (total_left (writer_event redline compute_budget panic l e) < total_left l)%nat.
Proof.
  intros Hs He. destruct e as [task|task r|]; [| |done]; cbn in He |- *; unfold turn; destruct (wl_tasks l !! task) as [[cp chains at_]|] eqn:Ht; try done;
    destruct at_ as [|step id rest|]; try done.
  - unfold resume. cbn. rewrite Hs. split; [done|]. by apply (left_insert _ _ _ _ Ht); cbn; lia.
  - pose proof (to_stop _ _ (answered_ok r) (wl_progress l) (mkWriter cp chains (Sending step id rest))) as Hst.
    destruct (answered _ _ _ _ _ _) as [p' w'] eqn:E. cbn in *. split; [congruence|]. apply (left_insert _ _ _ _ Ht). cbn.
    unfold answered in E. cbn in E. destruct (CausalPair_send _ _ _ _ _ _ _ _) as [[z|e] q]; [|injection E as <- <-; cbn; lia].
    destruct rest; injection E as <- <-; cbn; lia.
Qed.

Lemma stopped_turns l events :
  pg_stop (wl_progress l) = true -> all_happen l events = true -> (length events <= total_left l)%nat.
Proof.
  revert l. induction events as [|e events IH]; intros l Hs H; [cbn; lia|]. cbn in H. apply andb_prop in H as [He H].
  destruct (stopped_turn l e Hs He) as [Hs' Hlt]. specialize (IH _ Hs' H). cbn. lia.
Qed.

Lemma nothing_left l : (forall e, can_happen l e = false) -> is_Some (join_all panic l).
Proof.
  intros H. unfold join_all. rewrite (proj2 (forallb_forall _ _)); [by eexists|]. intros w Hw.
  apply list_elem_of_In, list_elem_of_lookup in Hw as [i Hi]. destruct w as [cp chains [|step id rest|r]]; [| |done].
  - specialize (H (Resume i)). cbn in H. by rewrite Hi in H.
  - specialize (H (Answered i (Err panic))). cbn in H. by rewrite Hi in H.
Qed.

Lemma ended_cannot_move l : forallb is_ended (wl_tasks l) = true -> forall e, can_happen l e = false.
Proof.
  intros H e. rewrite forallb_forall in H.
  assert (Hw : forall i w, wl_tasks l !! i = Some w -> is_ended w = true)
    by (intros i w Hi; by eapply H, list_elem_of_In, list_elem_of_lookup_2).
  destruct e as [i|i r|]; cbn; [| |done]; destruct (wl_tasks l !! i) as [[cp chains []]|] eqn:Hi; try done; by specialize (Hw _ _ Hi).
Qed.

Lemma left_bound pairs l gs : workload_inv pairs l gs -> (total_left l <= 4 * length pairs)%nat.
Proof.
  intros [Hw _ _ _ _]. unfold total_left. induction Hw as [|c w g pairs tasks gs Hi _ IH]; [done|]. cbn.
  assert (turns_left w <= 4)%nat; [|lia]. destruct Hi as [_ _ _ _ Hs]. unfold turns_left. destruct (wr_at w) as [|step id rest|r]; [lia| |lia].
  destruct Hs as (_ & before & Hall & _). apply (f_equal length) in Hall. rewrite length_app in Hall. cbn in Hall. lia.
Qed.
End writers.

(** * Verifying what was handed back *)

Lemma chain_iters n s k : (s, k) ∈ whole_chains n -> is_u 32 k.
Proof.
  unfold whole_chains. intros H. apply list_elem_of_In, in_concat in H as (l & Hl & Hin). apply list_elem_of_In, list_elem_of_fmap in Hl as (c & -> & _).
  apply list_elem_of_In, list_elem_of_fmap in Hin as (s' & [= -> ->] & _). unfold step_iters. by case_decide; vm_compute.
Qed.

(** A run to its end, with what it had accepted. *)
Definition stopped_run `{R : Runtime, HC : HeaderCodec, C : InstructionCodec} redline compute_budget {Error} (panic : Error) pairs during after : Workload Error :=
  run_events redline compute_budget panic (set_stop (run_events redline compute_budget panic (Workload_start pairs) during)) after.
Definition stopped_log `{R : Runtime, HC : HeaderCodec, C : InstructionCodec} redline compute_budget {Error} (panic : Error) pairs during after :
    list (nat * Drive) :=
  accepted_log redline compute_budget panic (Workload_start pairs) (during ++ SetStop :: after).

Lemma stopped_run_inv `{R : Runtime, HC : HeaderCodec, C : InstructionCodec} redline compute_budget {Error} (panic : Error) pairs during after :
  exists gs, workload_inv pairs (stopped_run redline compute_budget panic pairs during after) gs /\
    forall i g, gs !! i = Some g -> se_drives g = of_pair i (stopped_log redline compute_budget panic pairs during after).
Proof.
  destruct (events_inv redline compute_budget panic _ _ _ (during ++ SetStop :: after) (start_inv (Error := Error) pairs)) as (gs & Hi & Hl).
  exists gs. split.
  - unfold stopped_run. unfold run_events in *. by rewrite foldl_app in Hi.
  - intros i g Hg. destruct (Hl i g Hg) as (g0 & H0 & ->). apply list_lookup_fmap_Some in H0 as (? & -> & _). done.
Qed.

Section verified.
Context `{R : Runtime, !RuntimeLaws R, HC : HeaderCodec, !HeaderCodecLaws HC}.
Context `{C : InstructionCodec, !InstructionCodecLaws R C, K : IntentSdk}.

Definition as_pairs (pairs : list CausalPair) : list Pair := (fun c => mkPairState c []) <$> pairs.

(** What writers that all ended well have sent. *)
Lemma drained_sent {Error} pairs (l : Workload Error) gs :
  workload_inv pairs l gs -> Forall (fun w => wr_at w = Ended (Ok tt)) (wl_tasks l) ->
  concat ((fun g => dr_id <$> se_drives g) <$> gs) ≡ₚ seqZ 1 (pg_sent (wl_progress l)) /\
  pg_sent (wl_progress l) = pg_next_id (wl_progress l) /\
  Forall (fun g => exists n, shape (se_drives g) = whole_chains n) gs.
Proof.
  intros [Hw Hids Hn Hs _] Hall.
  assert (Hg : Forall (fun g => se_open g = [] /\ exists n, shape (se_drives g) = whole_chains n) gs).
  { clear Hids Hs. induction Hw as [|c w g pairs' tasks gs' [_ _ _ _ Hst] Hw IH]; [done|]. apply Forall_cons in Hall as [He Hall].
    rewrite He in Hst. destruct Hst as [Hst Ho]. constructor; [|by apply IH]. split; [done|by eexists]. }
  assert (He : concat (sent_ids <$> gs) = concat ((fun g => dr_id <$> se_drives g) <$> gs)).
  { f_equal. clear -Hg. induction Hg as [|g gs [Ho _] _ IH]; [done|]. cbn. unfold sent_ids at 1. by rewrite Ho, app_nil_r, IH. }
  assert (Hl : total_sent gs = Z.of_nat (length (concat ((fun g => dr_id <$> se_drives g) <$> gs)))).
  { clear. unfold total_sent. induction gs as [|g gs IH]; [done|]. cbn. rewrite length_app, length_fmap, Nat2Z.inj_add. by f_equal. }
  rewrite He in Hids. assert (Hlen : pg_sent (wl_progress l) = pg_next_id (wl_progress l)) by (rewrite Hs, Hl, Hids, length_seqZ; lia).
  rewrite Hlen. split_and!; [done|done|]. eapply Forall_impl; [exact Hg|]. by intros g [_ ?].
Qed.

Lemma drained_drives_wf n gs :
  n < u64_bound -> concat ((fun g => dr_id <$> se_drives g) <$> gs) ≡ₚ seqZ 1 n -> Forall (fun g => exists m, shape (se_drives g) = whole_chains m) gs ->
  forall i g, gs !! i = Some g -> Forall Drive_wf (se_drives g).
Proof.
  intros Hn Hids Hsh i g Hg. apply Forall_forall. intros d Hd. apply list_elem_of_lookup_2 in Hg.
  rewrite Forall_forall in Hsh. destruct (Hsh g Hg) as [m Hm]. split.
  - assert (Hin : dr_id d ∈ seqZ 1 n).
    { rewrite <- Hids. apply list_elem_of_In, in_concat. eexists. split; [apply list_elem_of_In, list_elem_of_fmap; by exists g|].
      apply list_elem_of_In, list_elem_of_fmap. by exists d. }
    apply elem_of_seqZ in Hin. unfold is_u, u64_bound in *. lia.
  - apply (chain_iters m (dr_step d)). rewrite <- Hm. apply list_elem_of_fmap. by exists d.
Qed.

Lemma drives_by_index gs log :
  (forall i g, gs !! i = Some g -> se_drives g = of_pair i log) ->
  (fun g => dr_id <$> se_drives g) <$> gs = (fun i => dr_id <$> of_pair i log) <$> seq 0 (length gs).
Proof.
  intros H. apply list_eq. intros i. rewrite !list_lookup_fmap. destruct (gs !! i) as [g|] eqn:Hg.
  - rewrite lookup_seq_lt by (by eapply lookup_lt_Some). cbn. by rewrite (H i g Hg).
  - apply lookup_ge_None in Hg. by rewrite lookup_seq_ge.
Qed.

(** A schedule of what was sent has drives within their machine integers. *)
Lemma sched_wf n gs sched :
  n < u64_bound -> concat ((fun g => dr_id <$> se_drives g) <$> gs) ≡ₚ seqZ 1 n -> Forall (fun g => exists m, shape (se_drives g) = whole_chains m) gs ->
  (forall i g, gs !! i = Some g -> of_pair i sched = se_drives g) ->
  forall bound, bound = length gs /\ Forall (fun x => (x.1 < length gs)%nat) sched -> Forall (fun x => (x.1 < bound)%nat /\ Drive_wf x.2) sched.
Proof.
  intros Hn Hids Hsh Hdr bound [-> Hin]. rewrite Forall_forall in Hin |- *. intros [i d] Hx. specialize (Hin _ Hx). cbn [fst snd] in *. split; [done|].
  destruct (lookup_lt_is_Some_2 gs i Hin) as [g Hg]. pose proof (drained_drives_wf _ gs Hn Hids Hsh i g Hg) as Hwf. rewrite Forall_forall in Hwf.
  apply Hwf. rewrite <- (Hdr i g Hg). apply list_elem_of_fmap. exists (i, d). split; [done|]. by apply list_elem_of_filter.
Qed.

(** Accepted pairs pass the scenario's own check. *)
Lemma repl_verify_all {S} (net : ReplNet S) w σ pairs s :
  (forall k s, rn_account net k s = (Ok (Some (data (account w k))), s)) -> represents σ w ->
  Forall (fun c => agrees (cp_a c) (cp_b c) σ (cp_model c) 0) pairs -> tok_each (repl_verify_pair net) pairs s = (Ok tt, s).
Proof.
  intros Hnet Hr H. induction H as [|c pairs Hc _ IH]; [done|]. cbn [tok_each]. unfold tok_bind at 1. unfold repl_verify_pair at 1.
  unfold tok_bind. rewrite !Hnet. unfold CausalPair_compare. rewrite (compare_Ok _ _ σ w _ 0 Hr Hc). exact IH.
Qed.

(** C13: the load that runs through the recovery is verified exactly.  However the writers interleave
    and whenever they are told to stop, a workload that is drained hands back every pair; the steps it
    had accepted bear the ids 1 to its count, each once, and are whole chains for every writer, with
    the heavy step moving on from chain to chain.  When the fixture program executes these steps in any
    order that keeps each pair's own, every execution succeeds and the check of the pairs against the
    leader accepts them all. *)
Theorem recovery_load_is_verified redline compute_budget {Error} (panic : Error) pairs during after joined sched w σ :
  let l := stopped_run redline compute_budget panic pairs during after in
  let log := stopped_log redline compute_budget panic pairs during after in
  join_all panic l = Some (Ok joined) -> pg_sent (wl_progress l) < u64_bound -> disjoint_pairs (as_pairs pairs) ->
  Forall (fun x => (x.1 < length pairs)%nat) sched -> (forall i, (i < length pairs)%nat -> of_pair i sched = of_pair i log) ->
  represents σ w -> borrowed w = ∅ ->
  (forall i c, pairs !! i = Some c -> agrees (cp_a c) (cp_b c) σ (cp_model c) (length sched)) ->
  length joined = length pairs /\
  concat ((fun i => dr_id <$> of_pair i log) <$> seq 0 (length pairs)) ≡ₚ seqZ 1 (pg_sent (wl_progress l)) /\
  (forall i, (i < length pairs)%nat -> exists n, shape (of_pair i log) = whole_chains n) /\
  exists w', for_each (execute_at redline (as_pairs pairs)) sched w = (Ok tt, w') /\
    forall S (net : ReplNet S) s, (forall k s, rn_account net k s = (Ok (Some (data (account w' k))), s)) ->
      tok_each (repl_verify_pair net) joined s = (Ok tt, s).
Proof.
  intros l log Hj Hlt Hdis Hin Hsub Hr Hb Hag.
  destruct (stopped_run_inv redline compute_budget panic pairs during after) as (gs & Hinv & Hlog). fold l log in Hinv, Hlog.
  destruct (joined_inv panic _ _ _ _ Hinv Hj) as [Hperm Hall]. destruct (drained_sent _ _ _ Hinv Hall) as (Hids & Hsent & Hsh).
  pose proof (Forall3_length_lm _ _ _ _ (li_writers _ _ _ Hinv)) as Hlm. pose proof (Forall3_length_lr _ _ _ _ (li_writers _ _ _ Hinv)) as Hlr.
  assert (Hdr : forall i g, gs !! i = Some g -> of_pair i sched = se_drives g).
  { intros i g Hg. rewrite (Hlog i g Hg). apply Hsub. rewrite Hlr. by eapply lookup_lt_Some. }
  split; [by rewrite Hperm, length_fmap|]. split; [by rewrite Hlr, <- (drives_by_index gs log Hlog)|]. split.
  { intros i Hi. rewrite Hlr in Hi. apply lookup_lt_is_Some in Hi as [g Hg]. rewrite <- (Hlog i g Hg).
    rewrite Forall_forall in Hsh. apply Hsh. by eapply list_elem_of_lookup_2. }
  set (models := fun i => match pairs !! i with Some c => cp_model c | None => PairModel_default end).
  destruct (execute_all redline (as_pairs pairs) sched w σ models) as (w' & σ' & Hrun & Hr' & Hag'); [done| |done|done| |].
  - apply (sched_wf _ gs sched Hlt Hids Hsh Hdr). unfold as_pairs. rewrite length_fmap, <- Hlr. by split.
  - intros i p Hp. unfold as_pairs in Hp. apply list_lookup_fmap_Some in Hp as (c & -> & Hc). unfold models. rewrite Hc. by apply (Hag i).
  - exists w'. split; [done|]. intros S net s Hnet. apply (repl_verify_all net w' σ'); [done|done|].
    rewrite Hperm. apply Forall_fmap, Forall_lookup. intros i wr Hwr.
    destruct (Forall3_lookup_m _ _ _ _ _ _ (li_writers _ _ _ Hinv) Hwr) as (c & g & Hc & Hg & [Ea Eb Em _ _]).
    cbn. rewrite Ea, Eb, Em, <- (Hdr i g Hg). specialize (Hag' i (mkPairState c [])). unfold models, as_pairs in Hag'. rewrite Hc in Hag'.
    apply Hag'. by rewrite list_lookup_fmap, Hc.
Qed.
End verified.

(** C14: a workload that was told to stop drains.  From any point of a run, whatever the answers and
    whichever writer goes first, at most four turns per writer can follow the stop, and when none can
    happen any more every writer has ended and the pairs can be joined. *)
Theorem stopped_workload_drains `{R : Runtime, HC : HeaderCodec, C : InstructionCodec} redline compute_budget {Error} (panic : Error) pairs during after :
  all_happen redline compute_budget panic (set_stop (run_events redline compute_budget panic (Workload_start pairs) during)) after = true ->
  (length after <= 4 * length pairs)%nat /\
  ((forall e, can_happen (stopped_run redline compute_budget panic pairs during after) e = false) ->
   is_Some (join_all panic (stopped_run redline compute_budget panic pairs during after))).
Proof.
  intros Hall. split; [|apply nothing_left].
  destruct (stopped_run_inv redline compute_budget panic pairs during []) as (gs & Hinv & _).
  etrans; [refine (stopped_turns redline compute_budget panic _ _ _ Hall); done|exact (left_bound _ _ _ Hinv)].
Qed.

(** Two pairs: the second writer starts first, and is in its chain when the stop comes. *)
Definition replica_pairs : list CausalPair := [CausalPair_new 11 12; CausalPair_new 13 14].
Definition replica_during : list (WriterEvent unit) :=
  [Resume 1; Resume 0; Answered 0 (Ok 100); Answered 1 (Ok 101); Answered 0 (Ok 102); Answered 0 (Ok 103); Answered 1 (Ok 104)].
Definition replica_after : list (WriterEvent unit) := [Answered 1 (Ok 105); Resume 1; Resume 0].

Lemma stopped_workload_drains_witness : is_Some (join_all tt (stopped_run 42 43 tt replica_pairs replica_during replica_after)).
Proof.
  apply (stopped_workload_drains 42 43 tt replica_pairs replica_during replica_after); [by vm_compute|].
  apply ended_cannot_move. by vm_compute.
Defined.

Definition replica_sched : list (nat * Drive) :=
  [(1%nat, mkDrive StepX 1 30); (0%nat, mkDrive StepX 2 30); (0%nat, mkDrive StepY 3 0); (1%nat, mkDrive StepY 4 0); (0%nat, mkDrive StepZ 5 0);
   (1%nat, mkDrive StepZ 6 0)].

Lemma replica_joins : exists joined, join_all tt (stopped_run 42 43 tt replica_pairs replica_during replica_after) = Some (Ok joined).
Proof.
  assert (Hok : match join_all tt (stopped_run 42 43 tt replica_pairs replica_during replica_after) with Some (Ok _) => true | _ => false end = true)
    by (by vm_compute).
  destruct (join_all tt _) as [[joined|e]|]; [by exists joined|discriminate Hok..].
Qed.

Lemma replica_sched_keeps_order i :
  (i < 2)%nat -> of_pair i replica_sched = of_pair i (stopped_log 42 43 tt replica_pairs replica_during replica_after).
Proof.
  assert (Hl : stopped_log 42 43 tt replica_pairs replica_during replica_after =
    [(0%nat, mkDrive StepX 2 30); (1%nat, mkDrive StepX 1 30); (0%nat, mkDrive StepY 3 0); (0%nat, mkDrive StepZ 5 0); (1%nat, mkDrive StepY 4 0);
     (1%nat, mkDrive StepZ 6 0)]) by (by vm_compute).
  rewrite Hl. intros Hi. destruct i as [|[|i]]; [done..|lia].
Qed.

Lemma replica_sent : pg_sent (wl_progress (stopped_run 42 43 tt replica_pairs replica_during replica_after)) < u64_bound.
Proof. by vm_compute. Qed.

Lemma replica_agrees i c :
  replica_pairs !! i = Some c -> agrees (cp_a c) (cp_b c) contention_state (cp_model c) (length replica_sched).
Proof.
  destruct i as [|[|i]]; intros Hp; [injection Hp as <-..|done]; split; eexists _, _; (split_and!; [done..|cbn; lia|done|by vm_compute]).
Qed.

Lemma recovery_load_is_verified_witness :
  exists w', for_each (execute_at 42 (as_pairs replica_pairs)) replica_sched contention_world = (Ok tt, w').
Proof.
  destruct replica_joins as [joined Hj].
  destruct (recovery_load_is_verified 42 43 tt replica_pairs replica_during replica_after joined replica_sched contention_world contention_state)
    as (_ & _ & _ & w' & Hw & _).
  - exact Hj.
  - exact replica_sent.
  - apply (bool_decide_eq_true_1 (NoDup _)). by vm_compute.
  - repeat constructor; cbn; lia.
  - exact replica_sched_keeps_order.
  - exact contention_represents.
  - done.
  - exact replica_agrees.
  - by exists w'.
Defined.

(** * Log lines *)

Definition no_escape (s : string) : bool := all_chars (fun c => negb (Ascii.eqb c ESC)) s.

Lemma strip_escape s : strip_ansi (String ESC s) = match s with String b _ => if Ascii.eqb b "["%char then strip_sequence s else strip_ansi s | _ => s end.
Proof. destruct s as [|b s]; [done|]. cbn -[is_alphabetic]. by destruct (Ascii.eqb_spec b "["%char) as [->|]. Qed.

Lemma stripped_lines_are_plain s : no_escape (strip_ansi s) = true /\ no_escape (strip_sequence s) = true.
Proof.
  induction s as [|c s [IH1 IH2]]; [done|]. split.
  - destruct (Ascii.eqb_spec c ESC) as [->|Hc].
    + rewrite strip_escape. destruct s as [|b s]; [done|]. by destruct (Ascii.eqb b _).
    + cbn. destruct (Ascii.eqb_spec c ESC); [done|]. unfold no_escape in *. cbn. rewrite IH1. by destruct (Ascii.eqb_spec c ESC).
  - cbn -[is_alphabetic]. by destruct (is_alphabetic c).
Qed.

Lemma strip_plain s : no_escape s = true -> strip_ansi s = s.
Proof.
  induction s as [|c s IH]; [done|]. unfold no_escape in *. cbn. intros H. apply andb_prop in H as [Hc H].
  destruct (Ascii.eqb c ESC); [done|]. by rewrite IH.
Qed.

(** * What a pass has seen *)

Section evidence.
Context {S : Type} (net : ReplNet S).

(** Some request of the run gave a value like this. *)
Definition observed {A} (m : Repl S A) (P : A -> Prop) : Prop := exists s a s', m s = (Ok a, s') /\ P a.

Lemma observed_at {A} (m : Repl S A) s a s' (P : A -> Prop) : m s = (Ok a, s') -> P a -> observed m P.
Proof. by exists s, a, s'. Qed.

Lemma repl_ensure_Ok b (s s' : S) u : repl_ensure b s = (Ok u, s') -> b = true /\ s' = s.
Proof. destruct b; cbn; [by intros [= _ ->]|done]. Qed.

Lemma repl_some_Ok {A} e (o : option A) a (s s' : S) : repl_some e o s = (Ok a, s') -> o = Some a /\ s' = s.
Proof. destruct o; cbn; [by intros [= -> ->]|done]. Qed.

Lemma reads_Ok {A} (f : S -> A) a s s' : reads f s = (Ok a, s') -> a = f s /\ s' = s.
Proof. by intros [= -> ->]. Qed.

Lemma each_Ok {A} (f : A -> Repl S unit) l u s s' : tok_each f l s = (Ok u, s') -> forall x, x ∈ l -> exists s1 s2, f x s1 = (Ok tt, s2).
Proof.
  revert s. induction l as [|x l IH]; intros s H y Hy; [set_solver|]. cbn in H. apply tok_bind_Ok in H as ([] & s1 & H1 & H).
  apply elem_of_cons in Hy as [->|Hy]; [by exists s, s1|by eapply IH].
Qed.

Lemma within_Ok {A} d (m : Repl S A) a s s' : within net d m s = (Ok a, s') -> m s = (Ok a, s') /\ rn_now net s' - rn_now net s <= d.
Proof. unfold within. destruct (m s) as [r s1]. destruct (Z.leb_spec (rn_now net s1 - rn_now net s) d); [by intros [= -> ->]|done]. Qed.

Lemma retry_Ok {A} fuel deadline (op : Repl S A) a s s' : retry_attempts (rn_now net) (rn_sleep net) op fuel deadline s = (Ok a, s') -> exists s1, op s1 = (Ok a, s').
Proof.
  revert s. induction fuel as [|fuel IH]; intros s; cbn; destruct (op s) as [[b|e] s1] eqn:Ho; try (intros [= -> ->]; by exists s).
  - by destruct (_ <=? _).
  - destruct (_ <=? _); [done|]. apply IH.
Qed.

Lemma query_Ok {A} slots (observe : Repl S (option A)) a s s' : repl_query net slots observe s = (Ok a, s') -> exists s1, observe s1 = (Ok (Some a), s').
Proof.
  revert s. induction slots as [|slots IH]; intros s H; cbn in H; apply tok_bind_Ok in H as ([b|] & s1 & Ho & H);
    try (injection H as -> ->; by exists s); apply tok_bind_Ok in H as (? & s2 & _ & H); [done|by apply IH in H].
Qed.
End evidence.

Ltac repl_inv :=
  repeat match goal with
  | H : tok_bind _ _ _ = (Ok _, _) |- _ => apply tok_bind_Ok in H as (? & ? & ? & H)
  | H : repl_ensure _ _ = (Ok _, _) |- _ => apply repl_ensure_Ok in H as [? ->]
  | H : repl_some _ _ _ = (Ok _, _) |- _ => apply repl_some_Ok in H as [? ->]
  | H : reads _ _ = (Ok _, _) |- _ => apply reads_Ok in H as [-> ->]
  | H : within _ _ _ _ = (Ok _, _) |- _ => apply within_Ok in H as [H ?]
  | H : tok_ret _ _ = (Ok _, _) |- _ => injection H as ? ?; subst
  | H : tok_fail _ _ = (Ok _, _) |- _ => discriminate H
  end.

Section mismatches.
Context {S : Type} (net : ReplNet S).

Lemma log_Ok v line s s' : log_mentions_mismatch net v s = (Ok line, s') -> s' = s /\ exists text, rn_log net v s = Ok text /\ mentions_mismatch text = line.
Proof.
  unfold log_mentions_mismatch. intros H. apply tok_bind_Ok in H as (text & s1 & Hr & H). injection H as <- <-.
  unfold read_log in Hr. injection Hr as Hr <-. split; [done|by exists text].
Qed.

Lemma catch_up_Ok v name target d s s' :
  await_catch_up net v name target s = (Ok d, s') -> observed (verifier_metric net v name) (fun seen => f64_le target seen = true).
Proof.
  unfold await_catch_up. destruct (repl_retry _ _ _ s) as [caught s1] eqn:Hr. intros H.
  apply tok_bind_Ok in H as ([] & s2 & Hg & H). apply tok_bind_Ok in H as (b & s3 & Hc & _). injection Hc as -> ->.
  unfold repl_retry, retry_with in Hr. apply retry_Ok in Hr as [s4 Ha]. unfold catch_up_attempt in Ha. apply tok_bind_Ok in Ha as (run & s5 & Hrun & Ha).
  apply reads_Ok in Hrun as [-> ->]. destruct (rn_running net v s4) eqn:Hrun.
  - apply tok_bind_Ok in Ha as (seen & s5 & Hseen & Ha). destruct (f64_le target seen) eqn:Hle; [by eapply observed_at|done].
  - injection Ha as <- <-. cbn [caught_up] in Hg. apply tok_bind_Ok in Hg as (line & s5 & Hl & Hg). apply log_Ok in Hl as [-> _].
    destruct line; [done|]. apply tok_bind_Ok in Hg as (run & s5 & Hr & Hg). apply reads_Ok in Hr as [-> ->]. by rewrite Hrun in Hg.
Qed.

(** a follower's divergence is never passed over.  A wait for a follower that ends well has read
    its counter at the target or beyond; one that does not, and whose follower's log names a mismatch,
    reports that line, with the terminal's colours removed, before anything else that went wrong; and
    the check after every recovery only accepts a running, connected follower whose log names none. *)
Theorem mismatch_is_never_passed_over coverage v name target s :
  (forall d s', await_catch_up net v name target s = (Ok d, s') -> observed (verifier_metric net v name) (fun seen => f64_le target seen = true)) /\
  (forall caught s1 text line, repl_retry net CATCH_UP_TIMEOUT (catch_up_attempt net v name target) s = (caught, s1) -> caught_up caught = false ->
     rn_log net v s1 = Ok text -> mentions_mismatch text = Some line ->
     await_catch_up net v name target s = (Err (RMismatchLine line), s1) /\ no_escape line = true) /\
  (forall s', check_verifier net coverage v s = (Ok tt, s') ->
     rn_running net v s = true /\ observed (stream_connected net v) (fun b => b = true) /\
     exists text, rn_log net v s' = Ok text /\ Forall (fun l => contains "mismatch" (map_chars to_lower l) = false) (lines text)).
Proof.
  split_and!.
  - intros d s'. apply catch_up_Ok.
  - intros caught s1 text line Hr Hc Hlog Hline. split.
    + unfold await_catch_up. rewrite Hr, Hc. unfold tok_bind, log_mentions_mismatch, tok_bind, read_log. rewrite Hlog. cbn. by rewrite Hline.
    + unfold mentions_mismatch in Hline. apply fmap_Some in Hline as (l & _ & ->). apply stripped_lines_are_plain.
  - intros s' H. unfold check_verifier in H. apply tok_bind_Ok in H as (run & s1 & Hr & H). apply reads_Ok in Hr as [-> ->].
    apply tok_bind_Ok in H as ([] & s1 & Hrun & H). apply repl_ensure_Ok in Hrun as [Hrun ->].
    apply tok_bind_Ok in H as (b & s1 & Hcon & H). apply tok_bind_Ok in H as ([] & s2 & Hb & H). apply repl_ensure_Ok in Hb as [-> ->].
    apply tok_bind_Ok in H as ([] & s2 & _ & H). apply tok_bind_Ok in H as (line & s3 & Hl & H). apply log_Ok in Hl as [-> (text & Ht & Hm)].
    destruct line; [done|]. injection H as <-. split_and!; [done|by eapply observed_at|]. exists text. split; [done|].
    unfold mentions_mismatch in Hm. apply fmap_None in Hm. apply Forall_forall. intros l Hl. by apply (List.find_none _ _ Hm), list_elem_of_In.
Qed.
End mismatches.

(** * A passed recovery *)

Section passed.
Context `{R : Runtime, HC : HeaderCodec, C : InstructionCodec} {S : Type} (net : ReplNet S) (redline compute_budget : Pubkey).

(** One follower came back on its own cursor, within the budget. *)
Definition kept_its_cursor : Prop :=
  observed (timed_restart net 0) (fun d => d <= RESTART_BUDGET) /\
  observed (verifier_count net 0 CLIENT_SNAPSHOTS) (fun n => f64_eq n f64_zero = true).

(** A block the stopped follower had not seen was there, and was dropped. *)
Definition outran_retention : Prop :=
  exists slot, observed (block_present net slot) (fun present => present = true) /\ observed (block_present net slot) (fun present => present = false).

(** A follower took a snapshot, and the leader served one more than before. *)
Definition came_from_snapshot (served_before : f64) : Prop :=
  observed (verifier_count net 1 CLIENT_SNAPSHOTS) (fun n => f64_le (f64_of 1) n = true) /\
  observed (leader_count net SERVER_SNAPSHOTS) (fun served => f64_le (f64_of 1) (f64_sub served served_before) = true).

(** A pair was read from the leader and matched its model. *)
Definition pair_matched (c : CausalPair) : Prop :=
  exists a b, observed (rn_account net (cp_a c)) (fun x => x = a) /\ observed (rn_account net (cp_b c)) (fun x => x = b) /\ CausalPair_compare c (a, b) = Ok tt.

Lemma retained_evidence coverage slots seals s s' : restart_retained_cursor net coverage slots seals s = (Ok tt, s') -> kept_its_cursor.
Proof.
  unfold restart_retained_cursor. intros H. do 2 apply tok_bind_Ok in H as (? & ? & _ & H).
  apply tok_bind_Ok in H as (d & s1 & Hd & H). apply tok_bind_Ok in H as (? & ? & Hle & H). apply repl_ensure_Ok in Hle as [Hle ->].
  apply tok_bind_Ok in H as (? & ? & _ & H). apply tok_bind_Ok in H as (n & s2 & Hn & H). apply tok_bind_Ok in H as (? & ? & Hz & _).
  apply repl_ensure_Ok in Hz as [Hz ->]. split; [|by eapply observed_at]. eapply observed_at; [exact Hd|]. by apply Z.leb_le.
Qed.

Lemma await_block_seen slots slot retained s s' : await_block net slots slot retained s = (Ok tt, s') -> observed (block_present net slot) (fun b => b = retained).
Proof.
  unfold await_block. intros H. apply tok_bind_Ok in H as (? & ? & _ & H). apply tok_bind_Ok in H as (b & s1 & Hq & _).
  apply query_Ok in Hq as (s2 & Ho). apply tok_bind_Ok in Ho as (present & s3 & Hp & Ho). injection Ho as Ho <-.
  destruct (Bool.eqb present retained) eqn:He; [|done]. eapply observed_at; [exact Hp|]. by apply Bool.eqb_prop.
Qed.

Lemma snapshot_evidence served_before s s' : start_from_snapshot net served_before s = (Ok tt, s') -> came_from_snapshot served_before.
Proof.
  unfold start_from_snapshot. intros H. do 2 apply tok_bind_Ok in H as (? & ? & _ & H).
  apply tok_bind_Ok in H as (n & s1 & Hn & H). apply tok_bind_Ok in H as (? & ? & Hle & H). apply repl_ensure_Ok in Hle as [Hle ->].
  apply tok_bind_Ok in H as (served & s2 & Hs & H). apply tok_bind_Ok in H as (? & ? & Hle' & _). apply repl_ensure_Ok in Hle' as [Hle' ->].
  split; by eapply observed_at.
Qed.

Lemma killed_evidence s s' : kill_verifier net s = (Ok tt, s') -> observed (rn_stop net 1 true) (fun stop => vs_exit_signal stop = Some 9).
Proof.
  unfold kill_verifier, stop_verifier. intros H. apply tok_bind_Ok in H as (? & ? & H & _). apply tok_bind_Ok in H as (stop & s1 & Hs & H).
  apply tok_bind_Ok in H as (? & ? & He & _). apply repl_ensure_Ok in He as [He _]. eapply observed_at; [exact Hs|]. by apply bool_decide_eq_true_1 in He.
Qed.

Lemma pair_evidence c s s' : repl_verify_pair net c s = (Ok tt, s') -> pair_matched c.
Proof.
  unfold repl_verify_pair. intros H. apply tok_bind_Ok in H as (a & s1 & Ha & H). apply tok_bind_Ok in H as (b & s2 & Hb & H).
  destruct (CausalPair_compare c (a, b)) as [[]|] eqn:Hc; [|done]. exists a, b. split_and!; [by eapply observed_at..|done].
Qed.

Lemma boundary_evidence coverage pairs s s' : check_final_boundary net coverage pairs s = (Ok tt, s') -> Forall pair_matched pairs.
Proof.
  unfold check_final_boundary. intros H. do 5 apply tok_bind_Ok in H as (? & ? & _ & H). apply tok_bind_Ok in H as (? & ? & Hp & _).
  apply Forall_forall. intros c Hc. destruct (each_Ok _ _ _ _ _ Hp c Hc) as (s1 & s2 & H1). by eapply pair_evidence.
Qed.

Lemma gap_evidence slots s s' :
  (forall a b s s', rn_try_join net a b s = (Ok tt, s') -> exists s1 s2, a s1 = (Ok tt, s2)) ->
  check_retention_gap net slots s = (Ok tt, s') -> outran_retention.
Proof.
  unfold check_retention_gap. intros Hjoin H. apply tok_bind_Ok in H as (? & ? & _ & H). apply tok_bind_Ok in H as (slot & ? & _ & H).
  apply Hjoin in H as (s1 & s2 & H). pose proof (each_Ok _ _ _ _ _ H) as Hb. exists (slot + 1). split.
  - destruct (Hb true ltac:(set_solver)) as (? & ? & H1). by eapply await_block_seen.
  - destruct (Hb false ltac:(set_solver)) as (? & ? & H1). by eapply await_block_seen.
Qed.

Lemma phases_evidence slots seals s s' :
  (forall a b s s', rn_try_join net a b s = (Ok tt, s') -> exists s1 s2, a s1 = (Ok tt, s2)) ->
  recovery_phases net slots seals s = (Ok tt, s') ->
  kept_its_cursor /\ outran_retention /\ observed (rn_stop net 1 true) (fun stop => vs_exit_signal stop = Some 9) /\
  exists before wiped, observed (leader_count net SERVER_SNAPSHOTS) (fun n => n = before) /\ came_from_snapshot before /\
    observed (leader_count net SERVER_SNAPSHOTS) (fun n => n = wiped) /\ came_from_snapshot wiped.
Proof.
  unfold recovery_phases. intros Hjoin H. apply tok_bind_Ok in H as (? & ? & _ & H).
  apply tok_bind_Ok in H as ([] & ? & Hret & H). apply within_Ok in Hret as [Hret _].
  apply tok_bind_Ok in H as (before & ? & Hb & H). do 2 apply tok_bind_Ok in H as (? & ? & _ & H).
  apply tok_bind_Ok in H as ([] & ? & Hgap & H). apply tok_bind_Ok in H as ([] & ? & Hsnap & H). apply within_Ok in Hsnap as [Hsnap _].
  apply tok_bind_Ok in H as ([] & ? & Hkill & H). apply within_Ok in H as [H _]. unfold recover_snapshot in Hsnap.
  apply tok_bind_Ok in Hsnap as ([] & ? & Hsnap & _). unfold rejoin_wiped in H.
  apply tok_bind_Ok in H as (wiped & ? & Hw & H). apply tok_bind_Ok in H as (? & ? & _ & H). apply tok_bind_Ok in H as ([] & ? & Hre & _).
  split; [by eapply retained_evidence|]. split; [by eapply gap_evidence|]. split; [by eapply killed_evidence|].
  exists before, wiped. split; [exact (observed_at _ _ _ _ _ Hb eq_refl)|]. split; [by eapply snapshot_evidence|].
  split; [exact (observed_at _ _ _ _ _ Hw eq_refl)|by eapply snapshot_evidence].
Qed.

(** recovery is never reported without its evidence.  When the recovery check passes, the first
    follower was restarted within sixteen seconds and took no snapshot; a block of the time the second
    one was down was seen on the leader, and later seen to be gone; the second one then came back from
    a snapshot the leader served, was killed with signal 9, and came back from another after its storage
    was wiped; and the drained writers' pairs were all read from the leader and matched their models. *)
Theorem recovery_passes_on_evidence slots seals during after s s' :
  (forall a b s s', rn_try_join net a b s = (Ok tt, s') -> exists s1 s2, a s1 = (Ok tt, s2)) ->
  check_recovery net redline compute_budget slots seals during after s = (Ok tt, s') ->
  kept_its_cursor /\ outran_retention /\ observed (rn_stop net 1 true) (fun stop => vs_exit_signal stop = Some 9) /\
  (exists before wiped, observed (leader_count net SERVER_SNAPSHOTS) (fun n => n = before) /\ came_from_snapshot before /\
     observed (leader_count net SERVER_SNAPSHOTS) (fun n => n = wiped) /\ came_from_snapshot wiped) /\
  exists pairs joined, observed (prepare_pairs net PAIRS) (fun ps => ps = pairs) /\
    join_all RPanic (stopped_run redline compute_budget RPanic (fst <$> pairs) during after) = Some (Ok joined) /\ Forall pair_matched joined.
Proof.
  unfold check_recovery. intros Hjoin H. apply tok_bind_Ok in H as (pairs & s1 & Hp & H). apply tok_bind_Ok in H as ([] & s2 & Hph & H).
  apply tok_bind_Ok in H as (joined & s3 & Hd & H). apply within_Ok in Hd as [Hd _].
  destruct (phases_evidence _ _ _ _ Hjoin Hph) as (H1 & H2 & H3 & H4). split_and!; [done..|].
  exists pairs, joined. split; [by eapply observed_at|]. split; [|by eapply boundary_evidence].
  unfold drain in Hd. apply tok_bind_Ok in Hd as (r & s4 & Hr & Hd). apply repl_some_Ok in Hr as [Hr ->].
  apply tok_bind_Ok in Hd as (ps & s5 & Hps & Hd). injection Hps as -> ->. do 2 apply tok_bind_Ok in Hd as (? & ? & _ & Hd). injection Hd as -> _. exact Hr.
Qed.
End passed.

(** * A fleet that recovers *)

Module Fleet.

(** The clock, and whether each follower is up.  Everything grows with the clock. *)
Record State := mkState { st_now : Z; st_up : nat -> bool }.

Definition later (d : Duration) (s : State) : State := mkState (st_now s + d) (st_up s).
Definition set_up (v : nat) (b : bool) (s : State) : State := mkState (st_now s) (fun i => if decide (i = v) then b else st_up s i).
Definition took {A} (d : Duration) (r : State -> A) : State -> Result A ReplError * State := fun s => (Ok (r s), later d s).

Definition ledger (now : Z) : Metrics :=
  {[ TRANSACTIONS := f64_of (now / millis 10); BLOCKS := f64_of (now / BLOCKTIME); SUPERBLOCKS := f64_of (now / (BLOCKTIME * SUPERBLOCK_SLOTS));
     STREAM_CONNECTED := f64_of 1; STATE_MISMATCHES := f64_zero ]}.
Definition up_count (s : State) : Z := Z.of_nat (length (filter (fun v => st_up s v = true) fleet)).

Definition net : ReplNet State :=
  {| rn_now := st_now; rn_sleep := later;
     rn_leader_metrics := took (millis 10) (fun s =>
       <[SERVER_CONNECTIONS := f64_of (up_count s)]> (<[SERVER_SNAPSHOTS := f64_of (st_now s / NANOS_PER_SEC)]> (ledger (st_now s))));
     rn_verifier_metrics := fun v s =>
       if st_up s v then took (millis 10) (fun s => <[CLIENT_SNAPSHOTS := f64_of (Z.of_nat v)]> (ledger (st_now s))) s
       else (Err (RNet "refused"), later (millis 10) s);
     rn_running := fun v s => st_up s v;
     rn_log := fun _ _ => Ok "connected";
     rn_stop := fun v hard s =>
       (Ok (if hard then mkVerifierStop true None (Some 9) else mkVerifierStop false (Some 0) None), later (millis 500) (set_up v false s));
     rn_start := fun v _ s => (Ok tt, later (secs 2) (set_up v true s));
     rn_reset_storage := fun _ => took 0 (fun _ => tt);
     rn_wait_connected := fun _ _ => took (millis 100) (fun _ => tt);
     rn_slot := took (millis 10) (fun s => st_now s / BLOCKTIME);
     rn_slots := took (millis 10) (fun _ => tt);
     rn_next_slot := took (secs 1) (fun _ => tt);
     rn_block := fun slot => took (millis 10) (fun s =>
       let head := st_now s / BLOCKTIME in if slot + 1024 <? head then Err BLOCK_CLEANED_UP else Ok (slot <=? head));
     rn_transaction := fun _ => took (millis 10) (fun _ => None);
     rn_account := fun _ => took (millis 10) (fun _ => Some (demo_data (demo_header 5 0 0) (replicate 40 0)));
     rn_funded_payer := fun _ => took (millis 10) (fun s => st_now s / millis 10);
     rn_await_funded := fun _ => took (millis 10) (fun _ => tt);
     rn_init_delegated := fun owner _ => took (millis 10) (fun _ => [2 * owner; 2 * owner + 1]);
     rn_await_clones := fun _ _ => took (millis 10) (fun _ => tt);
     rn_await_cloned_payers := fun _ => took (millis 10) (fun _ => tt);
     rn_finish := took 0 (fun _ => tt);
     rn_try_join := fun a b s => match a s with (Ok _, s) => b s | (Err e, s) => (Err e, s) end |}.

(** The stop comes before a writer's first turn. *)
Definition after : list (WriterEvent ReplError) := [Resume 2; Resume 0; Resume 1; Resume 3].
Definition start : State := mkState (secs 5) (fun _ => true).

Lemma recovers : exists s', check_recovery net 42 43 60 4 [] after start = (Ok tt, s').
Proof.
  assert (H : match check_recovery net 42 43 60 4 [] after start with (Ok _, _) => true | _ => false end = true) by (by vm_compute).
  destruct (check_recovery _ _ _ _ _ _ _ _) as [[[]|e] s']; [by exists s'|discriminate H].
Qed.

End Fleet.

Lemma recovery_passes_on_evidence_witness : outran_retention Fleet.net.
Proof.
  destruct Fleet.recovers as [s' H].
  apply (recovery_passes_on_evidence Fleet.net 42 43 60 4 [] Fleet.after Fleet.start s'); [|exact H].
  intros a b s s1. cbn. destruct (a s) as [[[]|e] s2] eqn:Ha; [|done]. intros _. by exists s, s2.
Defined.

(** * Settlement and replay *)

Section settlement.
Context `{R : Runtime, !RuntimeLaws R, HC : HeaderCodec, !HeaderCodecLaws HC}.
Context `{C : InstructionCodec, !InstructionCodecLaws R C, K : IntentSdk}.

(** The image the scenario expects is what the program leaves: the write, then the callback of an
    action that went well, which keeps the value and every balance and counts one revision. *)
Lemma settled_header_is_the_program signer cell payload data_ effect w h p marker h' :
  key signer = callback_signer -> is_signer signer = true ->
  magic_response data_ = Some (true, payload) -> callback_deserialize payload = Some effect ->
  key cell = rc_cell effect -> borrowed w = ∅ ->
  cell_of (data (account w (key cell))) = Some (bump (with_value marker h), p) -> settled_header marker h = Some h' ->
  exists d, handle_result [signer; cell] data_ w = (Ok tt, set_data (key cell) d w) /\ cell_of d = Some (h', p).
Proof.
  intros Hk Hs Hm Hc Hcell Hb Hd Hh.
  assert (Hrev : revision h + 2 < u64_bound /\ h' = bump (bump (with_value marker h))).
  { unfold settled_header, checked_add64 in Hh. destruct (Z.ltb_spec (revision h + 2) u64_bound); [|done]. split; [done|].
    injection Hh as <-. unfold bump, with_value. cbn. f_equal. lia. }
  destruct Hrev as [Hrev ->]. rewrite (handle_result_checked _ _ _ _ _ _ _ _ Hk Hs Hm Hc Hcell).
  pose proof Hd as [Hdec _]%cell_of_Some. apply try_decode_wf in Hdec as (_ & _ & Hv & _).
  destruct (adjust_Ok cell 0 w _ p Hb Hd) as (d & Ha & Hd').
  - cbn in *. unfold is_u, u64_bound in *. lia.
  - cbn. unfold u64_max, u64_bound in *. lia.
  - exists d. split; [|cbn in Hd'; by rewrite Z.add_0_r in Hd']. rewrite (bind_run_Ok _ _ w tt w); [exact Ha|done].
Qed.
End settlement.

(** A passed replay has found after the restart what it had recorded before it. *)
Section kept.
Context `{R : Runtime, C : InstructionCodec, B : BuildSdk, W : MagicWire, HC : HeaderCodec} {S : Type} (net : ReplNet S) (py : ReplayNet S).
Context (redshift dlp_id validator : Pubkey) (top_up : Pubkey -> Z -> Z -> SolInstruction).

Lemma map_Ok {A D} (f : A -> Repl S D) l ds s s' : tok_map f l s = (Ok ds, s') -> Forall2 (fun x d => exists s1 s2, f x s1 = (Ok d, s2)) l ds.
Proof.
  revert ds s s'. induction l as [|x l IH]; intros ds s s' H; cbn in H; [by injection H as <- _|].
  apply tok_bind_Ok in H as (d & s1 & Hd & H). apply tok_bind_Ok in H as (ds' & s2 & Hds & H). injection H as <- _.
  constructor; [by exists s, s1|by eapply IH].
Qed.

Lemma records_were_read payer cell marker s settled s' :
  settle_all py redshift dlp_id validator payer cell marker s = (Ok settled, s') -> length (sd_records settled) = 5%nat /\
  Forall (fun kept => observed (py_transaction py kept.1) (fun tx => tx.1 = kept.2)) (sd_records settled).
Proof.
  unfold settle_all. intros H. do 15 apply tok_bind_Ok in H as (? & ? & _ & H). apply tok_bind_Ok in H as (records & s1 & Hr & H).
  injection H as <- _. cbn. apply map_Ok in Hr. split; [by apply Forall2_length in Hr|].
  apply Forall_forall. intros kept Hk. apply list_elem_of_lookup in Hk as [i Hk].
  destruct (Forall2_lookup_r _ _ _ _ _ Hr Hk) as (g & _ & s2 & s3 & Hg).
  apply tok_bind_Ok in Hg as (tx & s4 & Htx & Hg). injection Hg as <- _. by eapply observed_at.
Qed.

(** A settlement, its receipts and a rollback survive the leader's restart: when the check passes, the
    five transactions recorded before the restart were read again afterwards with the very same record
    and a status, and the cell's image on both chains is the one that was expected before. *)
Theorem replay_keeps_what_was_settled funder payer marker s s' :
  check_settlement_replay net py redshift dlp_id validator top_up funder payer marker s = (Ok tt, s') ->
  exists cell settled, length (sd_records settled) = 5%nat /\
    observed (settle_all py redshift dlp_id validator payer cell marker) (fun x => x = settled) /\
    observed (py_restart py) (fun r => r = (Some 0, false)) /\
    observed (py_local py cell) (fun local => local = [Some (sd_expected settled)]) /\
    observed (py_base_account py cell) (fun found => found = Some (sd_base settled)) /\
    Forall (fun kept => exists s1 s2 s3 s4 tx status, py_transaction py kept.1 s1 = (Ok tx, s2) /\ tx.1 = kept.2 /\
      py_status py kept.1 s3 = (Ok (Some status), s4)) (sd_records settled).
Proof.
  unfold check_settlement_replay. intros H. apply tok_bind_Ok in H as (cell & s1 & _ & H). apply tok_bind_Ok in H as (settled & s2 & Hset & H).
  apply tok_bind_Ok in H as (? & ? & _ & H). apply tok_bind_Ok in H as ([code killed] & s3 & Hre & H). apply tok_bind_Ok in H as (? & ? & Hc & H).
  apply repl_ensure_Ok in Hc as [Hc ->]. do 2 apply tok_bind_Ok in H as (? & ? & _ & H). unfold check_replayed, cell_is in H.
  apply tok_bind_Ok in H as (? & ? & Hcell & H). apply tok_bind_Ok in Hcell as (local & s5 & Hl & Hle). apply repl_ensure_Ok in Hle as [Hle ->].
  apply tok_bind_Ok in H as (base & s6 & Hb & H). apply tok_bind_Ok in H as (? & ? & Hbe & H). apply repl_ensure_Ok in Hbe as [Hbe ->].
  apply tok_bind_Ok in H as (? & ? & Heach & _). apply bool_decide_eq_true_1 in Hle, Hbe.
  exists cell, settled. split; [by eapply records_were_read|]. split_and!; [by eapply observed_at| | by eapply observed_at|by eapply observed_at|].
  - eapply observed_at; [exact Hre|]. cbn in Hc. apply andb_prop in Hc as [Hcode Hk]. apply bool_decide_eq_true_1 in Hcode. destruct killed; [done|]. by subst code.
  - apply Forall_forall. intros kept Hk. destruct (each_Ok _ _ _ _ _ Heach kept Hk) as (t1 & t2 & Hone). unfold record_is_kept in Hone.
    apply tok_bind_Ok in Hone as (tx & t3 & Htx & Hone). apply tok_bind_Ok in Hone as (? & ? & Heq & Hone). apply repl_ensure_Ok in Heq as [Heq ->].
    apply tok_bind_Ok in Hone as (status & t4 & Hst & Hone). apply repl_ensure_Ok in Hone as [Hone ->]. apply bool_decide_eq_true_1 in Heq, Hone.
    destruct Hone as [st ->]. by exists t1, t3, t3, t4, tx, st.
Qed.
End kept.
